(* ===== verification/_CoqProject ===== *)
-Q . S2P
Prelude.v
Bitfield.v
UtAllocator.v
Leonardo.v
Qsort.v
QsortInv.v
UtTable.v
Cspace.v
CspaceInv.v
Startup.v
Morecore.v
Malloc.v
MallocHeap.v
MallocLogic.v
MallocFree.v
MallocInv.v
MallocSpec.v
MallocProg.v
Sos.v
Hoare.v
Pbuf.v
Rpc.v
Nfs.v
Mount.v
RpcInv.v
NfsWire.v
NfsRecv.v
NfsQueue.v
RpcCall.v
Mapping.v
SwapSlots.v
FrameTable.v
FrameInv.v
FrameAlloc.v
SecondChance.v
ProcTable.v
AddrSpace.v
RegionInv.v
PageTable.v
Swap.v
SwapInv.v
SwapProto.v
PageWalk.v
World.v
CopyInOut.v
Clock.v
ClockInv.v
Console.v
NfsDev.v
Vfs.v
FileTable.v
FileInv.v
Elf.v
Process.v
Vm.v
Syscalls.v
Dma.v
Machine.v
Libsos.v
LibsosInv.v
Serial.v
NfsSos.v
CopyInv.v
ConsoleInv.v
ProcInv.v
Invariants.v
KernelInv.v
Fuel.v
Network.v
Sosh.v
SoshInv.v
