(* ===== verification/Prelude.v ===== *)
(** * Verification of SOS

    SOS is an operating system personality on the seL4 microkernel: one server
    that gives processes virtual memory with swapping, files over NFS, a console,
    timers and process management.  Around it are the libraries it is linked with
    (libnfs, libsel4cspace, libserial, the allocator and the sorting of the C library),
    the library of the processes (libsos) and the shell (sosh).  This development
    models them as executable functions and proves what makes them correct.  Paths
    below are relative to src/; the target is the 32-bit ARM board of the build, with
    assertions on.

    ** How the program works, and how it is modelled

    SOS is an event loop.  [step] (Machine.v) is one round of it: a system call, a
    page fault, a timer or network interrupt, or the reply to an NFS request.  Code
    that has to wait stores a continuation and returns to the loop; the model keeps
    this, with a function pointer as a constructor of a callback type and a
    continuation as an object of the heap.  Effects are explicit:

    - [outcome] (this file) is a result or the fault that stops the C code: a failed
      assertion, a null or dangling pointer, an index out of bounds, an operation that
      C leaves undefined, or a loop that the model cut off;
    - the monad [M] (Sos.v) carries the state of SOS, [N] (Rpc.v) that of libnfs,
      [CS] (Cspace.v) that of the cspaces, [MM] (Malloc.v) that of the allocator,
      [U] (Libsos.v) a process that calls SOS;
    - answers from outside (seL4, malloc, lwIP, the NFS server, the devices) come
      from an environment in the state.  A theorem holds for all answers, except
      where its hypotheses name some (an open connection, a malloc that succeeds).

    Integers are [Z] with the wrap-around of their width written out; memory is a
    map from addresses to bytes; arrays are lists with the bounds checked.  An access
    to memory that the accessing code has no business with is a fault: of the frames,
    only the pages behind the frame table can be accessed as bytes, so that a write
    which would hit the table stops the model.

    ** Files

    Untyped memory (apps/sos/src/ut_manager): Bitfield (bitfield.c), UtAllocator
    (ut_allocator.c), UtTable (ut.c).

    The C library (libs/libmuslc/src): Qsort (stdlib/qsort.c, called by UtTable), with
    the Leonardo numbers in Leonardo and its theorem in QsortInv; Malloc
    (malloc/malloc.c and calloc.c, with the system calls they make), on the area of
    Morecore (apps/sos/src/sys/sys_morecore.c).  The theorem on malloc is proved in
    separation logic, with a rule for every function: MallocHeap has the arithmetic of
    chunks and bins, MallocLogic the assertions for chunks, rings and the row of chunks,
    MallocFree the invariant with free, MallocInv and MallocSpec the other functions,
    and MallocProg leads back to runs of the model.

    Capabilities and start-up: Cspace and CspaceInv (libs/libsel4cspace), Startup
    ([_sos_init] up to the allocator, [_sos_ipc_init] and the capabilities of [main]
    in apps/sos/src/main.c, the interrupts of dev/network.c), Network
    ([network_prime_arp]).

    The state of SOS and its proof rules: Sos, Hoare.

    libnfs (libs/libnfs/src): Pbuf (pbuf_helpers.c and the chains of lwIP's pbuf.c),
    Rpc (rpc.c), Nfs (nfs.c), Mount (time.c, portmapper.c, mountd.c and mounting in
    dev/network.c); their theorems are in RpcInv, NfsWire, NfsRecv, NfsQueue,
    RpcCall, and NfsSos connects libnfs to SOS.

    Virtual memory (apps/sos/src/vm): Mapping, SwapSlots, FrameTable, AddrSpace,
    PageTable, Swap, CopyInOut, Elf, Vm, each the C file of that name (SwapSlots and
    Swap are swap.c); theorems in FrameInv, FrameAlloc, SecondChance, RegionInv,
    SwapInv, SwapProto, PageWalk, CopyInv; World is an example state.

    Processes, devices, files, system calls: ProcTable and Process (proc/proc.c),
    Clock (dev/clock.c), Console (dev/console.c), NfsDev (dev/nfs_dev.c), Dma
    (dev/dma.c), Vfs (vfs/), FileTable (syscall/file.c), Syscalls (syscall/);
    theorems in ProcInv, ClockInv, ConsoleInv, FileInv.

    The whole of SOS: Machine (main.c), Invariants, KernelInv, Fuel.

    Outside SOS: Libsos and LibsosInv (libs/libsos and the path of brk through
    libs/libmuslc), Serial (libs/libserial), Sosh and SoshInv (apps/sosh).

    ** What the theorems show

    - Memory.  [ut_alloc] and [ut_free] implement a set of disjoint aligned blocks,
      except that an allocation reads before its bitmap when an earlier one has
      failed and a block was freed since, which the theorem says exactly;
      start-up splits the untyped memory between DMA and the allocator, and every
      address of both is backed by an untyped object; a cspace never hands out a
      slot twice, and its count of free slots is exact.
    - The C library.  A program that calls malloc, calloc, realloc and free in any order
      and with any sizes gets blocks that are large enough, share no word and keep what
      is written to them, up to an operation that needs munmap or mremap or wraps the
      mmap of SOS ([malloc_correct]); qsort returns, permutes and sorts, up to the size
      from which it is undefined ([qsort_correct]).
    - Frames and pages.  In every state the event loop reaches, the free frames are
      exactly the chained ones.  The victim is that of the clock algorithm and is
      found when there is one.  Mapping and swapping change one page table entry;
      a page goes to and comes from the swap file whole, however the server splits
      the transfers; [copyin] and [copyout] move exactly the bytes of the range, or
      tell that there is no memory.
    - Time, processes, files.  The queue of timeouts is ordered in every state that
      is reached; due timeouts run once, in order, and those of libnfs are registered
      again; process ids are unused ones; regions are disjoint; the vnode that a name
      finds counts its openings.
    - libnfs.  Requests are read by a server that follows the RFCs as the calls they
      were made for; a reply reaches the request it answers, once; a request that
      waits is sent again or stays due; packets are read and written the same however
      they are cut into segments; the loops end.
      [libnfs_refines] shows that libnfs is an implementation of the interface that
      the model of SOS assumes.
    - Processes and the shell.  Every stub of libsos makes SOS run its system call
      with the arguments of the stub, and a whole [sos_write] is followed to the
      serial port; the shell's editor and its words are those of a reference.
    - Faults that the code has are theorems too, where a statement shows them: the
      break above one mebibyte, the write that was not sent, the boot slots that
      fill whole nodes, the mmap that wraps, the keys lost after a backspace, the
      line of more than 32 words, the block with its own mapping that cannot be freed,
      the search that starts before its bitmap, the vnode of another opening that the
      last closing removes, the sort of more than 11405773 elements.

    ** Bounds and fuel

    Loops of C that are not structural take a number of rounds that is computed from
    the data (the length of a buffer, the size of a table).  [libnfs_terminates] shows
    that this is enough for every loop of libnfs, whatever the network does;
    [rpc_wait] has 302 rounds because it counts 3000 ms down in steps of 10.  The
    theorems on the binary search, the victim loop, the expired timeouts, the serial
    port and the shell state a returned result, so the rounds are enough there too,
    and [boot_free_ends] says it for the bootstrap.  The theorems on
    [cspace_create], [cspace_destroy] and the bootstrap are about calls that return,
    because their assertions depend on what seL4 answers; their witnesses run them.
    qsort has a round for each element and for each entry of its array of trees; the
    loops of free and malloc have two rounds, since a chunk never has two free
    neighbours on one side and the bins are searched again only after setting up the
    heap; [qsort_correct] and [malloc_correct] state returned results.
    The loops of [map_device] and of dma.c have their bound next to them, and no
    theorem states that they end.  [run n] bounds the depth of calls through function
    pointers in a round; Fuel.v shows that a larger bound changes nothing
    once a round ends, and the theorems on copying give bounds that are enough.

    ** Assumptions

    Cspaces get malloc, untyped memory and seL4 through the class [cspace_world];
    [malloc_sized] says that a block has the size that was asked for.  The model of the
    allocator takes the addresses of its two static arrays, which do not overlap, and
    SOS as a program of one thread, so that the locks do nothing; [malloc_correct]
    takes the arrays in the lower half of the addresses.  [check_timeout_correct] is
    about a clock that does not overflow in the next 100 ms.  Theorems on libnfs that
    speak of [nfs_ready] assume that malloc succeeds; [nfs_request_readable] does not.
    Witnesses instantiate all of them.

    ** Not modelled

    seL4 itself, lwIP beyond packet chains, the Ethernet driver and the C library
    beyond malloc, qsort and the path of brk are code that SOS calls: their answers are
    the environment.  In the model of the event loop an allocation gets an object or
    fails, as the environment says; it is not connected to the words of Malloc.v.  Of
    network.c the set-up of lwIP and the card is left out, for its effects are inside
    those libraries.  The bodies of the shell's commands, the
    test programs and printing only call what is modelled or write text.  The
    generated tables of Linux system calls that fail are left out, and so is
    [_rand_swap_victim], which nothing calls.  In [main_caps] the capabilities of
    mapped frames and devices are left out; Mapping.v has them. *)

From stdpp Require Export base numbers list gmap strings.
From Stdlib Require Export ZArith Lia.

#[export] Set Default Goal Selector "!".

Declare Scope sos_scope.
Delimit Scope sos_scope with sos.
Global Open Scope Z_scope.

(** * Faults and the outcome monad *)

(** What stops a C function before it returns: a failed [assert], a NULL
    dereference, an access through a pointer to freed memory, an array access
    outside its bounds, a loop that the model cut off, or an operation that C leaves
    undefined. *)
Inductive fault : Type :=
  | AssertFail
  | NullDeref
  | Dangling
  | OutOfBounds
  | OutOfFuel
  | Undefined.

Inductive outcome (A : Type) : Type :=
  | Ret (a : A)
  | Fault (f : fault).
Arguments Ret {A} a.
Arguments Fault {A} f.

#[export] Instance fault_eq_dec : EqDecision fault.
Proof. solve_decision. Defined.

#[export] Instance outcome_eq_dec {A : Type} `{EqDecision A} : EqDecision (outcome A).
Proof. solve_decision. Defined.

#[export] Instance outcome_ret : MRet outcome := λ A a, Ret a.

#[export] Instance outcome_bind : MBind outcome := λ A B k m,
  match m with
  | Ret a => k a
  | Fault f => Fault f
  end.

(** [assert(c)] of the C sources. *)
Definition c_assert (c : bool) : outcome unit :=
  if c then Ret tt else Fault AssertFail.

(** Dereference of a pointer that may be NULL. *)
Definition deref {A : Type} (o : option A) : outcome A :=
  match o with
  | Some a => Ret a
  | None => Fault NullDeref
  end.

(** * Arrays indexed by C integers *)

Definition Zlength {A : Type} (l : list A) : Z := Z.of_nat (length l).

(** [a[i]] as a value. *)
Definition rd {A : Type} (l : list A) (i : Z) : outcome A :=
  if decide (0 ≤ i) then
    match l !! Z.to_nat i with
    | Some a => Ret a
    | None => Fault OutOfBounds
    end
  else Fault OutOfBounds.

(** [a[i] = x]. *)
Definition wr {A : Type} (l : list A) (i : Z) (x : A) : outcome (list A) :=
  if decide (0 ≤ i < Zlength l) then Ret (<[Z.to_nat i := x]> l)
  else Fault OutOfBounds.

(** * Machine integers *)

Definition u8 (x : Z) : Z := x mod 2 ^ 8.
Definition u32 (x : Z) : Z := x mod 2 ^ 32.
Definition u64 (x : Z) : Z := x mod 2 ^ 64.

(** The value of a 32-bit word read as an [int]. *)
Definition i32 (x : Z) : Z :=
  let y := u32 x in if y <? 2 ^ 31 then y else y - 2 ^ 32.

(** C's [a & ~m] on 32-bit words. *)
Definition andnot32 (a m : Z) : Z := Z.land a (2 ^ 32 - 1 - m).

Global Arguments u8 : simpl never.
Global Arguments u32 : simpl never.
Global Arguments u64 : simpl never.
Global Arguments i32 : simpl never.
Global Arguments andnot32 : simpl never.
Global Arguments rd : simpl never.
Global Arguments wr : simpl never.

Definition b2z (b : bool) : Z := if b then 1 else 0.

(** * Error numbers (musl, ARM) *)

Definition EBADF : Z := 9.
Definition ENOMEM : Z := 12.
Definition EACCES : Z := 13.
Definition EFAULT : Z := 14.
Definition EINVAL : Z := 22.
Definition EMFILE : Z := 24.

(** * Counting *)

(** How many [i < n] satisfy [f]. *)
Fixpoint countb (f : Z → bool) (n : nat) : Z :=
  match n with
  | O => 0
  | S m => countb f m + b2z (f (Z.of_nat m))
  end.

(** * Tactics and hint databases *)

Create HintDb sos.
Create Rewrite HintDb sos_rw.

(** Take a successful monadic computation in a hypothesis apart. *)
Ltac inv_ret :=
  repeat match goal with
  | H : Ret _ = Ret _ |- _ => injection H as H; subst
  | H : Fault _ = Ret _ |- _ => discriminate H
  | H : Ret _ = Fault _ |- _ => discriminate H
  | H : mret _ = _ |- _ => unfold mret, outcome_ret in H
  | H : (_, _) = (_, _) |- _ => injection H as H; subst
  end.

Ltac inv_bind H :=
  unfold mbind, outcome_bind in H;
  repeat match type of H with
  | (match ?m with Ret _ => _ | Fault _ => _ end) = _ =>
      let E := fresh "E" in destruct m eqn:E; [| discriminate H]
  end.

(** Push lookups through inserts and close bounds side conditions. *)
Ltac bdestruct b :=
  let E := fresh "E" in
  destruct b eqn:E;
  rewrite ?Z.eqb_eq, ?Z.eqb_neq, ?Z.ltb_lt, ?Z.ltb_ge, ?Z.leb_le, ?Z.leb_gt in E.

Ltac divmod := Z.div_mod_to_equations; lia.

(** * Lemmas on the monad *)

Lemma bind_Ret {A B : Type} (k : A → outcome B) (a : A) : (Ret a ≫= k) = k a.
Proof. done. Qed.

Lemma bind_cong {A B : Type} (m m' : outcome A) (k k' : A → outcome B) :
  m = m' → (∀ a, k a = k' a) → m ≫= k = m' ≫= k'.
Proof. intros <- H. destruct m; [apply H | done]. Qed.

Lemma bind_Ret_inv {A B : Type} (m : outcome A) (k : A → outcome B) (b : B) :
  (m ≫= k) = Ret b → ∃ a, m = Ret a ∧ k a = Ret b.
Proof. destruct m; simpl; [eauto | discriminate]. Qed.

Lemma c_assert_Ret (c : bool) (u : unit) : c_assert c = Ret u → c = true.
Proof. destruct c; [done | discriminate]. Qed.

Lemma c_assert_true (c : bool) : c = true → c_assert c = Ret tt.
Proof. by intros ->. Qed.

Lemma or_iff (A A' B B' : Prop) : (A ↔ A') → (B ↔ B') → A ∨ B ↔ A' ∨ B'.
Proof. tauto. Qed.

(** * Lemmas on arrays *)

Lemma Zlength_nonneg {A : Type} (l : list A) : 0 ≤ Zlength l.
Proof. unfold Zlength. lia. Qed.

Lemma rd_Ret {A : Type} (l : list A) (i : Z) (x : A) :
  rd l i = Ret x ↔ 0 ≤ i ∧ l !! Z.to_nat i = Some x.
Proof.
  unfold rd. case_decide; [| split; [discriminate | lia]].
  destruct (l !! Z.to_nat i); split; naive_solver.
Qed.

Lemma rd_in {A : Type} (l : list A) (i : Z) :
  0 ≤ i < Zlength l → ∃ x, rd l i = Ret x.
Proof.
  intros H. unfold Zlength in H.
  destruct (lookup_lt_is_Some_2 l (Z.to_nat i)) as [x Hx]; [lia |].
  exists x. apply rd_Ret. split; [lia | done].
Qed.

Lemma rd_bounds {A : Type} (l : list A) (i : Z) (x : A) :
  rd l i = Ret x → 0 ≤ i < Zlength l.
Proof.
  intros [? Hx]%rd_Ret. apply lookup_lt_Some in Hx. unfold Zlength. lia.
Qed.

Lemma wr_in {A : Type} (l : list A) (i : Z) (x : A) :
  0 ≤ i < Zlength l → wr l i x = Ret (<[Z.to_nat i := x]> l).
Proof. intros. unfold wr. by rewrite decide_True. Qed.

Lemma wr_Ret {A : Type} (l l' : list A) (i : Z) (x : A) :
  wr l i x = Ret l' → 0 ≤ i < Zlength l ∧ l' = <[Z.to_nat i := x]> l.
Proof. unfold wr. case_decide; [| discriminate]. intros [= <-]. done. Qed.

Lemma Zlength_insert {A : Type} (l : list A) (i : nat) (x : A) :
  Zlength (<[i := x]> l) = Zlength l.
Proof. unfold Zlength. by rewrite length_insert. Qed.

Lemma Zlength_app {A : Type} (l k : list A) : Zlength (l ++ k) = Zlength l + Zlength k.
Proof. unfold Zlength. rewrite length_app. lia. Qed.

Lemma Zlength_cons {A : Type} (x : A) l : Zlength (x :: l) = 1 + Zlength l.
Proof. unfold Zlength. cbn [length]. lia. Qed.

Lemma Zlength_take {A : Type} (l : list A) (n : Z) :
  0 ≤ n ≤ Zlength l → Zlength (take (Z.to_nat n) l) = n.
Proof. unfold Zlength. rewrite length_take. lia. Qed.

Lemma Zlength_drop {A : Type} (l : list A) (n : Z) :
  0 ≤ n ≤ Zlength l → Zlength (drop (Z.to_nat n) l) = Zlength l - n.
Proof. unfold Zlength. rewrite length_drop. lia. Qed.

Lemma rd_insert_eq {A : Type} (l : list A) (i : Z) (x : A) :
  0 ≤ i < Zlength l → rd (<[Z.to_nat i := x]> l) i = Ret x.
Proof.
  intros H. apply rd_Ret. split; [lia |].
  apply list_lookup_insert_eq. unfold Zlength in H. lia.
Qed.

Lemma rd_insert_ne {A : Type} (l : list A) (i j : Z) (x : A) :
  0 ≤ i → i ≠ j → rd (<[Z.to_nat i := x]> l) j = rd l j.
Proof.
  intros Hi Hne. unfold rd. case_decide; [| done].
  rewrite list_lookup_insert_ne; [done | lia].
Qed.

#[export] Hint Rewrite @Zlength_insert : sos_rw.

(** * Lemmas on counting *)

Lemma countb_ext (f g : Z → bool) (n : nat) :
  (∀ i, 0 ≤ i < Z.of_nat n → f i = g i) → countb f n = countb g n.
Proof.
  induction n as [|n IH]; intros H; simpl; [done |].
  rewrite IH, H; [done | lia | intros; apply H; lia].
Qed.

Lemma countb_bounds (f : Z → bool) (n : nat) : 0 ≤ countb f n ≤ Z.of_nat n.
Proof.
  induction n as [|n IH]; simpl; [lia |].
  unfold b2z. destruct (f (Z.of_nat n)); lia.
Qed.

(** Setting one more position raises the count by one. *)
Lemma countb_flip (f g : Z → bool) (n : nat) (k : Z) :
  0 ≤ k < Z.of_nat n → f k = false → g k = true →
  (∀ i, 0 ≤ i < Z.of_nat n → i ≠ k → f i = g i) →
  countb g n = countb f n + 1.
Proof.
  induction n as [|n IH]; intros Hk Hf Hg Heq; [lia |]. simpl.
  destruct (decide (k = Z.of_nat n)) as [-> |].
  - rewrite Hf, Hg, (countb_ext g f n); [simpl; lia |].
    intros. symmetry. apply Heq; lia.
  - rewrite IH; [| lia | done | done | intros; apply Heq; lia].
    rewrite (Heq (Z.of_nat n)); lia.
Qed.

Lemma countb_zero (f : Z → bool) (n : nat) :
  countb f n = 0 ↔ ∀ i, 0 ≤ i < Z.of_nat n → f i = false.
Proof.
  induction n as [|n IH]; simpl; [split; intros; lia |].
  pose proof (countb_bounds f n) as Hb. split.
  - intros H i Hi. unfold b2z in H.
    destruct (f (Z.of_nat n)) eqn:E; [lia |].
    destruct (decide (i = Z.of_nat n)) as [-> |]; [done |].
    apply IH; lia.
  - intros H. rewrite (H (Z.of_nat n)) by lia. simpl.
    rewrite Z.add_0_r. apply IH. intros. apply H. lia.
Qed.

Lemma countb_full (f : Z → bool) (n : nat) :
  countb f n = Z.of_nat n ↔ ∀ i, 0 ≤ i < Z.of_nat n → f i = true.
Proof.
  induction n as [|n IH]; simpl; [split; intros; lia |].
  pose proof (countb_bounds f n) as Hb. split.
  - intros H i Hi. unfold b2z in H.
    destruct (f (Z.of_nat n)) eqn:E; [| lia].
    destruct (decide (i = Z.of_nat n)) as [-> |]; [done |].
    apply IH; lia.
  - intros H. rewrite (H (Z.of_nat n)) by lia. simpl.
    replace (countb f n) with (Z.of_nat n); [lia |].
    symmetry. apply IH. intros. apply H. lia.
Qed.

Lemma countb_pos (f : Z → bool) (n : nat) :
  countb f n ≠ 0 → ∃ i, 0 ≤ i < Z.of_nat n ∧ f i = true.
Proof.
  induction n as [|n IH]; simpl; [lia |]. intros H.
  destruct (f (Z.of_nat n)) eqn:E.
  - exists (Z.of_nat n). split; [lia | done].
  - destruct IH as (i & ? & ?); [simpl in H; lia |].
    exists i. split; [lia | done].
Qed.

(** * Lemmas on machine integers *)

Lemma u32_range (x : Z) : 0 ≤ u32 x < 2 ^ 32.
Proof. apply Z.mod_pos_bound. lia. Qed.

Lemma u32_small (x : Z) : 0 ≤ x < 2 ^ 32 → u32 x = x.
Proof. apply Z.mod_small. Qed.

Lemma u8_range (x : Z) : 0 ≤ u8 x < 2 ^ 8.
Proof. apply Z.mod_pos_bound. lia. Qed.

Lemma u8_small (x : Z) : 0 ≤ x < 2 ^ 8 → u8 x = x.
Proof. apply Z.mod_small. Qed.

Lemma i32_small (x : Z) : 0 ≤ x < 2 ^ 31 → i32 x = x.
Proof.
  intros H. unfold i32. rewrite u32_small by lia.
  by replace (x <? 2 ^ 31) with true by (symmetry; apply Z.ltb_lt; lia).
Qed.

(** Masking off the low [k] bits rounds down to a multiple of [2^k]. *)
Lemma land_lnot_ones (a k : Z) :
  0 ≤ k → Z.land a (Z.lnot (Z.ones k)) = 2 ^ k * (a / 2 ^ k).
Proof.
  intros Hk. rewrite <- Z.ldiff_land, Z.ldiff_ones_r by lia.
  rewrite Z.shiftl_mul_pow2, Z.shiftr_div_pow2 by lia. lia.
Qed.

Lemma land_low_bits (a k : Z) : 0 ≤ k → Z.land a (2 ^ k - 1) = a mod 2 ^ k.
Proof. intros. rewrite <- Z.land_ones by lia. by rewrite Z.ones_equiv, Z.sub_1_r. Qed.

Lemma andnot32_low (a k : Z) :
  0 ≤ k ≤ 32 → 0 ≤ a < 2 ^ 32 → andnot32 a (2 ^ k - 1) = 2 ^ k * (a / 2 ^ k).
Proof.
  intros Hk Ha. unfold andnot32. rewrite <- land_lnot_ones by lia.
  apply Z.bits_inj'. intros n Hn. rewrite !Z.land_spec.
  replace (2 ^ 32 - 1 - (2 ^ k - 1)) with (Z.ldiff (Z.ones 32) (Z.ones k)).
  - rewrite Z.ldiff_spec, Z.lnot_spec by lia.
    destruct (decide (n < 32)).
    + rewrite (Z.ones_spec_low 32) by lia. done.
    + rewrite (Z.bits_above_log2 a n); [done | lia |].
      destruct (decide (a = 0)) as [-> |]; [simpl; lia |].
      apply Z.log2_lt_pow2; [lia |].
      apply Z.lt_le_trans with (2 ^ 32); [lia |].
      apply Z.pow_le_mono_r; lia.
  - rewrite <- (Z.sub_nocarry_ldiff (Z.ones 32) (Z.ones k)).
    + rewrite !Z.ones_equiv. lia.
    + apply Z.bits_inj'. intros n' Hn'.
      rewrite Z.ldiff_spec, Z.bits_0, !Z.testbit_ones_nonneg by lia.
      destruct (Z.ltb_spec n' k), (Z.ltb_spec n' 32); try done. lia.
Qed.

(** * Lemmas on bits *)

Lemma testbit_above (a k n : Z) : 0 ≤ a < 2 ^ k → k ≤ n → Z.testbit a n = false.
Proof.
  intros Ha Hn. destruct (decide (0 ≤ k)) as [Hk |].
  - rewrite <- (Z.mod_small a (2 ^ k)) by done. by apply Z.mod_pow2_bits_high.
  - rewrite Z.pow_neg_r in Ha by lia. lia.
Qed.

Lemma below_pow2 (a k : Z) :
  0 ≤ k → 0 ≤ a → (∀ n, k ≤ n → Z.testbit a n = false) → a < 2 ^ k.
Proof.
  intros Hk Ha H. assert (a = a mod 2 ^ k) as ->; [| apply Z.mod_pos_bound; lia].
  apply Z.bits_inj'. intros n Hn. destruct (decide (n < k)).
  - by rewrite Z.mod_pow2_bits_low.
  - rewrite Z.mod_pow2_bits_high by lia. apply H. lia.
Qed.

Lemma testbit_pow2 (k n : Z) : 0 ≤ k → Z.testbit (2 ^ k) n = (n =? k).
Proof. intros Hk. rewrite Z.pow2_bits_eqb by done. apply Z.eqb_sym. Qed.

Lemma shiftl1_32 (j : Z) : 0 ≤ j < 32 → u32 (Z.shiftl 1 j) = 2 ^ j.
Proof.
  intros Hj. rewrite Z.shiftl_mul_pow2, Z.mul_1_l by lia. apply u32_small.
  split; [lia | apply Z.pow_lt_mono_r; lia].
Qed.

Lemma testbit_ones32 (n : Z) : 0 ≤ n → Z.testbit (2 ^ 32 - 1) n = (n <? 32).
Proof.
  intros Hn. change (2 ^ 32 - 1) with (Z.ones 32). rewrite Z.testbit_ones_nonneg by lia. done.
Qed.

Lemma andnot32_ldiff (a m : Z) :
  0 ≤ a < 2 ^ 32 → 0 ≤ m < 2 ^ 32 → andnot32 a m = Z.ldiff a m.
Proof.
  intros Ha Hm. unfold andnot32.
  replace (2 ^ 32 - 1 - m) with (Z.ldiff (Z.ones 32) m).
  - apply Z.bits_inj'. intros n Hn. rewrite Z.land_spec, !Z.ldiff_spec, Z.testbit_ones_nonneg by lia.
    destruct (Z.ltb_spec n 32); [done |]. by rewrite (testbit_above a 32 n).
  - rewrite <- Z.sub_nocarry_ldiff; [done |].
    apply Z.bits_inj'. intros n Hn. rewrite Z.ldiff_spec, Z.bits_0, Z.testbit_ones_nonneg by lia.
    destruct (Z.ltb_spec n 32); [by rewrite andb_false_r |]. by rewrite (testbit_above m 32 n).
Qed.

Lemma andnot32_spec (a m n : Z) :
  0 ≤ a < 2 ^ 32 → 0 ≤ m < 2 ^ 32 →
  Z.testbit (andnot32 a m) n = Z.testbit a n && negb (Z.testbit m n).
Proof. intros. rewrite andnot32_ldiff by done. apply Z.ldiff_spec. Qed.

Lemma lor_range (a b k : Z) :
  0 ≤ k → 0 ≤ a < 2 ^ k → 0 ≤ b < 2 ^ k → 0 ≤ Z.lor a b < 2 ^ k.
Proof.
  intros Hk Ha Hb. assert (0 ≤ Z.lor a b) by (apply Z.lor_nonneg; lia). split; [done |].
  apply below_pow2; [done.. |]. intros n Hn.
  rewrite Z.lor_spec, (testbit_above a k), (testbit_above b k) by done. done.
Qed.

Lemma andnot32_range (a m : Z) :
  0 ≤ a < 2 ^ 32 → 0 ≤ m < 2 ^ 32 → 0 ≤ andnot32 a m < 2 ^ 32.
Proof.
  intros Ha Hm. rewrite andnot32_ldiff by done.
  assert (0 ≤ Z.ldiff a m) by (apply Z.ldiff_nonneg; lia). split; [done |].
  apply below_pow2; [lia | done |]. intros n Hn.
  by rewrite Z.ldiff_spec, (testbit_above a 32).
Qed.

(** A field of [w] bits at bit [k]. *)
Lemma land_field (a w k : Z) :
  0 ≤ w → 0 ≤ k → Z.land a (Z.shiftl (Z.ones w) k) = (a / 2 ^ k) mod 2 ^ w * 2 ^ k.
Proof.
  intros Hw Hk. rewrite <- Z.shiftr_div_pow2, <- Z.land_ones, <- Z.shiftl_mul_pow2 by lia.
  apply Z.bits_inj'. intros n Hn. rewrite Z.land_spec.
  destruct (decide (n < k)); [by rewrite !Z.shiftl_spec_low, andb_false_r by lia |].
  rewrite !Z.shiftl_spec, Z.land_spec, Z.shiftr_spec by lia.
  by replace (n - k + k) with n by lia.
Qed.

(** Fields that do not overlap add up. *)
Lemma lor_high_low (a b k : Z) : 0 ≤ k → 0 ≤ b < 2 ^ k → Z.lor (a * 2 ^ k) b = a * 2 ^ k + b.
Proof.
  intros Hk Hb. rewrite <- Z.lxor_lor.
  - rewrite <- Z.add_nocarry_lxor; [done |]. apply Z.bits_inj'. intros n Hn.
    rewrite Z.land_spec, Z.bits_0, <- Z.shiftl_mul_pow2 by lia.
    destruct (decide (n < k)); [by rewrite Z.shiftl_spec_low by lia |].
    by rewrite (testbit_above b k), andb_false_r by lia.
  - apply Z.bits_inj'. intros n Hn.
    rewrite Z.land_spec, Z.bits_0, <- Z.shiftl_mul_pow2 by lia.
    destruct (decide (n < k)); [by rewrite Z.shiftl_spec_low by lia |].
    by rewrite (testbit_above b k), andb_false_r by lia.
Qed.

(** [a & (1 << j)] tests a bit. *)
Lemma land_bit (a j : Z) :
  0 ≤ j → (Z.land a (2 ^ j) =? 0) = negb (Z.testbit a j).
Proof.
  intros Hj. destruct (Z.testbit a j) eqn:E; cbn [negb].
  - apply Z.eqb_neq. intros H. apply (f_equal (λ x, Z.testbit x j)) in H.
    rewrite Z.land_spec, testbit_pow2, Z.bits_0, E, Z.eqb_refl in H by done. done.
  - apply Z.eqb_eq. apply Z.bits_inj'. intros n Hn.
    rewrite Z.land_spec, testbit_pow2, Z.bits_0 by done.
    destruct (Z.eqb_spec n j) as [-> |]; [by rewrite E | by rewrite andb_false_r].
Qed.
