(* ===== verification/Bitfield.v ===== *)
(** Bitfields (src/apps/sos/src/ut_manager/bitfield.c).

    The byte array [b] is a list of Z in 0..255 ([char] is unsigned on the ARM
    target).  A clear bit is a free offset.  The theorems show that [bf_set],
    [bf_clr] and [bf_set_next_free] refine removal from and insertion into the
    set of free offsets, that [available] counts that set, and that the byte
    scan finds a free offset whenever there is one. *)

From S2P Require Import Prelude.

(** * Data and operations *)

Definition BITS_PER_BYTE : Z := 8.

Definition FLOOR (x : Z) : Z := Z.land x (Z.lnot (BITS_PER_BYTE - 1)).

Definition CEILING (x : Z) : Z := FLOOR (x + (BITS_PER_BYTE - 1)).

(** [bitfield_t]. *)
Record bitfield : Type := mk_bitfield {
  bf_next_free : Z;
  bf_available : Z;
  bf_size : Z;
  bf_b : list Z
}.

(** [enum bf_init_state]. *)
Inductive bf_init_state : Type :=
  | BITFIELD_INIT_FILLED
  | BITFIELD_INIT_EMPTY.

#[export] Instance bitfield_eq_dec : EqDecision bitfield.
Proof. solve_decision. Defined.

Definition bf_with_next_free (bf : bitfield) (n : Z) : bitfield :=
  mk_bitfield n (bf_available bf) (bf_size bf) (bf_b bf).

(** [_bf_decode]: the byte index and the bit mask, built by repeated doubling. *)
Definition bf_decode (offset : Z) : Z * Z :=
  (Z.shiftr offset 3,
   Nat.iter (Z.to_nat (Z.land offset 7)) (λ m, Z.shiftl m 1) 1).

Definition bf_get (bf : bitfield) (offset : Z) : outcome bool :=
  let '(byte, bitmask) := bf_decode offset in
  _ ← c_assert (byte <? Z.quot (CEILING (bf_size bf)) BITS_PER_BYTE);
  v ← rd (bf_b bf) byte;
  mret (negb (Z.land v bitmask =? 0)).

Definition bf_set (bf : bitfield) (offset : Z) : outcome bitfield :=
  g ← bf_get bf offset;
  _ ← c_assert (negb g);
  let '(byte, bitmask) := bf_decode offset in
  _ ← c_assert (byte <? Z.quot (CEILING (bf_size bf)) BITS_PER_BYTE);
  v ← rd (bf_b bf) byte;
  b' ← wr (bf_b bf) byte (u8 (Z.lor v bitmask));
  mret (mk_bitfield (bf_next_free bf) (bf_available bf - 1) (bf_size bf) b').

Definition bf_clr (bf : bitfield) (offset : Z) : outcome bitfield :=
  g ← bf_get bf offset;
  _ ← c_assert g;
  let '(byte, bitmask) := bf_decode offset in
  _ ← c_assert (byte <? Z.quot (CEILING (bf_size bf)) BITS_PER_BYTE);
  v ← rd (bf_b bf) byte;
  b' ← wr (bf_b bf) byte (u8 (Z.land v (Z.lnot bitmask)));
  mret (mk_bitfield (bf_next_free bf) (bf_available bf + 1) (bf_size bf) b').

(** The loop [for(i = i0; n more times; i++) bf_set(bf, i)]. *)
Fixpoint bf_set_range (bf : bitfield) (i : Z) (n : nat) : outcome bitfield :=
  match n with
  | O => mret bf
  | S n => bf' ← bf_set bf i; bf_set_range bf' (i + 1) n
  end.

(** The loop [for(i = i0; n more times; i++) bf_clr(bf, i)]. *)
Fixpoint bf_clr_range (bf : bitfield) (i : Z) (n : nat) : outcome bitfield :=
  match n with
  | O => mret bf
  | S n => bf' ← bf_clr bf i; bf_clr_range bf' (i + 1) n
  end.

(** [new_bitfield].  [m1] and [m2] are the answers of its two [malloc]s;
    [None] is the NULL it returns. *)
Definition new_bitfield (m1 m2 : bool) (size : Z) (state : bf_init_state) :
    outcome (option bitfield) :=
  if negb m1 then mret None else
  let bytes := Z.quot (CEILING size) BITS_PER_BYTE in
  if negb m2 then mret None else
  match state with
  | BITFIELD_INIT_FILLED =>
      mret (Some (mk_bitfield 0 0 size (replicate (Z.to_nat bytes) 255)))
  | BITFIELD_INIT_EMPTY =>
      bf ← bf_set_range (mk_bitfield 0 size size (replicate (Z.to_nat bytes) 0))
             size (Z.to_nat (bytes * BITS_PER_BYTE - size));
      mret (Some bf)
  end.

(** One of the two search loops of [_bf_find_next_free_byte]. *)
Fixpoint scan_bytes (field : list Z) (current : Z) (n : nat) : outcome (option Z) :=
  match n with
  | O => mret None
  | S n =>
      v ← rd field current;
      if negb (v =? 255) then mret (Some current)
      else scan_bytes field (current + 1) n
  end.

(** [_bf_find_next_free_byte]. *)
Definition bf_find_next_free_byte (field : list Z) (next size : Z) : outcome Z :=
  let next := Z.quot (FLOOR next) BITS_PER_BYTE in
  let size := Z.quot (CEILING size) BITS_PER_BYTE in
  r ← scan_bytes field next (Z.to_nat (size - next));
  match r with
  | Some c => mret c
  | None =>
      r' ← scan_bytes field 0 (Z.to_nat next);
      mret (default (-1) r')
  end.

(** The loop of [_bf_find_next_free_bit]. *)
Fixpoint scan_bits (field : Z) (i : Z) (n : nat) : Z :=
  match n with
  | O => -1
  | S n =>
      if Z.land field (Z.shiftl 1 i) =? 0 then i else scan_bits field (i + 1) n
  end.

(** [_bf_find_next_free_bit]. *)
Definition bf_find_next_free_bit (field : Z) : outcome Z :=
  _ ← c_assert (negb (field =? 255));
  mret (scan_bits field 0 (Z.to_nat BITS_PER_BYTE)).

Definition bf_set_next_free (bf : bitfield) : outcome (Z * bitfield) :=
  if negb (bf_available bf =? 0) then
    byte ← bf_find_next_free_byte (bf_b bf) (bf_next_free bf) (bf_size bf);
    if negb (byte =? -1) then
      v ← rd (bf_b bf) byte;
      bit ← bf_find_next_free_bit v;
      let offset := byte * BITS_PER_BYTE + bit in
      bf1 ← bf_set bf offset;
      let nf := offset + 1 in
      mret (offset,
            bf_with_next_free bf1 (if nf >? bf_size bf1 then 0 else nf))
    else mret (-1, bf)
  else mret (-1, bf).

Global Arguments bf_decode : simpl never.
Global Arguments FLOOR : simpl never.
Global Arguments CEILING : simpl never.

(** * Invariant and abstraction *)

(** The value of bit [i] of a byte array; bits outside it read as set. *)
Definition bit_at (b : list Z) (i : Z) : bool :=
  match rd b (i / 8) with
  | Ret v => Z.testbit v (i mod 8)
  | Fault _ => true
  end.

(** Offset [i] is free. *)
Definition bf_free (bf : bitfield) (i : Z) : bool := negb (bit_at (bf_b bf) i).

Definition bf_nbits (bf : bitfield) : nat := (8 * length (bf_b bf))%nat.

Record bf_wf (bf : bitfield) : Prop := {
  wf_size : 0 ≤ bf_size bf;
  wf_len : Zlength (bf_b bf) = (bf_size bf + 7) / 8;
  wf_bytes : Forall (λ v, 0 ≤ v < 256) (bf_b bf);
  wf_available : bf_available bf = countb (bf_free bf) (bf_nbits bf);
  wf_pad : ∀ i, bf_size bf ≤ i → bf_free bf i = false
}.

(** The search hint lies inside the field. *)
Definition bf_hint_ok (bf : bitfield) : Prop := 0 ≤ bf_next_free bf ≤ bf_size bf.

(** * Lemmas *)

Lemma FLOOR_spec (x : Z) : FLOOR x = 8 * (x / 8).
Proof. unfold FLOOR, BITS_PER_BYTE. apply (land_lnot_ones x 3). lia. Qed.

Lemma CEILING_bytes (x : Z) :
  0 ≤ x → Z.quot (CEILING x) BITS_PER_BYTE = (x + 7) / 8.
Proof.
  intros Hx. unfold CEILING. rewrite FLOOR_spec. unfold BITS_PER_BYTE.
  replace (8 - 1) with 7 by lia.
  rewrite Z.quot_div_nonneg; [| divmod | lia]. divmod.
Qed.

Lemma FLOOR_bytes (x : Z) : 0 ≤ x → Z.quot (FLOOR x) BITS_PER_BYTE = x / 8.
Proof.
  intros Hx. rewrite FLOOR_spec. unfold BITS_PER_BYTE.
  rewrite Z.quot_div_nonneg; [| divmod | lia]. divmod.
Qed.

Lemma iter_double (n : nat) : Nat.iter n (λ m, Z.shiftl m 1) 1 = 2 ^ Z.of_nat n.
Proof.
  induction n as [|n IH]; [done |].
  rewrite Nat.iter_succ, IH, Z.shiftl_mul_pow2 by lia.
  rewrite Nat2Z.inj_succ, Z.pow_succ_r by lia. lia.
Qed.

Lemma bf_decode_spec (offset : Z) :
  bf_decode offset = (offset / 8, 2 ^ (offset mod 8)).
Proof.
  unfold bf_decode. rewrite Z.shiftr_div_pow2, iter_double by lia.
  change 7 with (2 ^ 3 - 1). rewrite land_low_bits by lia.
  rewrite Z2Nat.id; [done | apply Z.mod_pos_bound; lia].
Qed.

Lemma land_pow2_test (v k : Z) :
  0 ≤ k → (Z.land v (2 ^ k) =? 0) = negb (Z.testbit v k).
Proof.
  intros Hk. destruct (Z.testbit v k) eqn:E; simpl.
  - apply Z.eqb_neq. intros H0.
    assert (Z.testbit (Z.land v (2 ^ k)) k = true) as Ht.
    { rewrite Z.land_spec, E, Z.pow2_bits_true; [done | lia]. }
    rewrite H0, Z.bits_0 in Ht. done.
  - apply Z.eqb_eq, Z.bits_inj'. intros n Hn.
    rewrite Z.land_spec, Z.bits_0, Z.pow2_bits_eqb by lia.
    destruct (Z.eqb_spec k n) as [<- |]; [by rewrite E | by rewrite andb_false_r].
Qed.

Lemma u8_testbit (v n : Z) : 0 ≤ n < 8 → Z.testbit (u8 v) n = Z.testbit v n.
Proof. intros. unfold u8. rewrite Z.mod_pow2_bits_low by lia. done. Qed.

Lemma bit_at_insert (b : list Z) (k v' i : Z) :
  0 ≤ k / 8 < Zlength b →
  (∀ n, 0 ≤ n < 8 → n ≠ k mod 8 →
     ∀ v, rd b (k / 8) = Ret v → Z.testbit v' n = Z.testbit v n) →
  bit_at (<[Z.to_nat (k / 8) := v']> b) i =
    if decide (i = k) then Z.testbit v' (k mod 8) else bit_at b i.
Proof.
  intros Hk Hv. unfold bit_at.
  destruct (decide (i / 8 = k / 8)) as [Hd |].
  - rewrite Hd, rd_insert_eq by lia. case_decide as Hik; [by subst |].
    destruct (rd_in b (k / 8) Hk) as [v Hr]. rewrite Hr.
    apply Hv; [divmod | divmod | done].
  - rewrite rd_insert_ne by lia. case_decide; [subst; done | done].
Qed.

Section bitfield_ops.
Context (bf : bitfield) (Hwf : bf_wf bf).

Lemma bf_byte_ok (i : Z) :
  0 ≤ i < 8 * Zlength (bf_b bf) →
  (i / 8 <? Z.quot (CEILING (bf_size bf)) BITS_PER_BYTE) = true.
Proof.
  intros Hi. rewrite CEILING_bytes by apply Hwf.
  rewrite <- (wf_len _ Hwf). apply Z.ltb_lt. divmod.
Qed.

Lemma bf_byte_read (i : Z) :
  0 ≤ i < 8 * Zlength (bf_b bf) →
  ∃ v, rd (bf_b bf) (i / 8) = Ret v ∧ 0 ≤ v < 256.
Proof.
  intros Hi. destruct (rd_in (bf_b bf) (i / 8)) as [v Hv]; [divmod |].
  exists v. split; [done |].
  apply rd_Ret in Hv as [_ Hv].
  by apply (Forall_lookup_1 _ _ _ _ (wf_bytes _ Hwf) Hv).
Qed.

Lemma bf_get_spec (i : Z) :
  0 ≤ i < 8 * Zlength (bf_b bf) → bf_get bf i = Ret (negb (bf_free bf i)).
Proof.
  intros Hi. unfold bf_get. rewrite bf_decode_spec, bf_byte_ok by done.
  destruct (bf_byte_read i Hi) as (v & Hv & _). simpl. rewrite Hv. simpl.
  rewrite land_pow2_test by (apply Z.mod_pos_bound; lia).
  unfold bf_free, bit_at. by rewrite Hv, negb_involutive.
Qed.

Lemma bf_size_le_bits (k : Z) :
  0 ≤ k < bf_size bf → 0 ≤ k < 8 * Zlength (bf_b bf).
Proof. intros. rewrite (wf_len _ Hwf). divmod. Qed.

(** Replacing the byte that holds bit [k] so that only that bit changes. *)
Lemma bf_update_wf (k nf v' : Z) (bit : bool) :
  0 ≤ k < bf_size bf →
  bf_free bf k = bit →
  0 ≤ v' < 256 →
  Z.testbit v' (k mod 8) = bit →
  (∀ n v, 0 ≤ n < 8 → n ≠ k mod 8 → rd (bf_b bf) (k / 8) = Ret v →
     Z.testbit v' n = Z.testbit v n) →
  let bf' := mk_bitfield nf (bf_available bf + (if bit then -1 else 1))
               (bf_size bf) (<[Z.to_nat (k / 8) := v']> (bf_b bf)) in
  bf_wf bf' ∧
  ∀ i, bf_free bf' i = if decide (i = k) then negb bit else bf_free bf i.
Proof.
  intros Hk Hfree Hv' Hbit Hoth bf'.
  pose proof (bf_size_le_bits k Hk) as Hkb.
  assert (0 ≤ k / 8 < Zlength (bf_b bf)) as Hk8 by divmod.
  assert (∀ i, bf_free bf' i = if decide (i = k) then negb bit else bf_free bf i)
    as Hf.
  { intros i. unfold bf_free at 1, bf'. simpl.
    rewrite bit_at_insert; [| done | by intros; apply Hoth].
    case_decide; [by rewrite Hbit | done]. }
  assert (bf_available bf' = countb (bf_free bf') (bf_nbits bf')) as Hc.
  { unfold bf_nbits.
    replace (length (bf_b bf')) with (length (bf_b bf))
      by (unfold bf'; simpl; by rewrite length_insert).
    replace (bf_available bf') with (bf_available bf + (if bit then -1 else 1)) by done.
    rewrite (wf_available _ Hwf). unfold bf_nbits, Zlength in *.
    clearbody bf'. destruct bit.
    - rewrite (countb_flip (bf_free bf') (bf_free bf) _ k); [lia | lia | | done |].
      + rewrite Hf, decide_True; done.
      + intros. rewrite Hf, decide_False; done.
    - rewrite (countb_flip (bf_free bf) (bf_free bf') _ k); [lia | lia | done | |].
      + rewrite Hf, decide_True; done.
      + intros. rewrite Hf, decide_False; done. }
  split; [| done]. destruct Hwf as [H1 H2 H3 H4 H5]. split; [simpl .. | |].
  - done.
  - by rewrite Zlength_insert.
  - by apply Forall_insert.
  - exact Hc.
  - intros i Hi. change (bf_size bf ≤ i) in Hi. rewrite Hf.
    rewrite decide_False by lia. by apply H5.
Qed.

Lemma testbit_lor_pow2 (v k n : Z) :
  0 ≤ k → 0 ≤ n → Z.testbit (Z.lor v (2 ^ k)) n = (n =? k) || Z.testbit v n.
Proof.
  intros. rewrite Z.lor_spec, Z.pow2_bits_eqb by lia.
  rewrite (Z.eqb_sym k n). apply orb_comm.
Qed.

Lemma testbit_land_lnot_pow2 (v k n : Z) :
  0 ≤ k → 0 ≤ n →
  Z.testbit (Z.land v (Z.lnot (2 ^ k))) n = negb (n =? k) && Z.testbit v n.
Proof.
  intros. rewrite Z.land_spec, Z.lnot_spec, Z.pow2_bits_eqb by lia.
  rewrite (Z.eqb_sym k n). apply andb_comm.
Qed.

Lemma bf_set_spec (k : Z) :
  0 ≤ k < bf_size bf → bf_free bf k = true →
  ∃ bf', bf_set bf k = Ret bf' ∧ bf_wf bf' ∧
    bf_size bf' = bf_size bf ∧ bf_next_free bf' = bf_next_free bf ∧
    bf_available bf' = bf_available bf - 1 ∧
    Zlength (bf_b bf') = Zlength (bf_b bf) ∧
    ∀ i, bf_free bf' i = if decide (i = k) then false else bf_free bf i.
Proof.
  intros Hk Hfree. pose proof (bf_size_le_bits k Hk) as Hkb.
  destruct (bf_byte_read k Hkb) as (v & Hv & Hrange).
  pose proof (Z.mod_pos_bound k 8 ltac:(lia)) as Hm.
  unfold bf_set. rewrite bf_decode_spec, (bf_get_spec k Hkb), Hfree, bf_byte_ok by done.
  simpl. rewrite Hv. simpl.
  rewrite wr_in by (apply rd_bounds in Hv; done). simpl.
  edestruct (bf_update_wf k (bf_next_free bf) (u8 (Z.lor v (2 ^ (k mod 8)))) true)
    as [Hwf' Hfr]; [done | done | apply u8_range | | |].
  - rewrite u8_testbit, testbit_lor_pow2, Z.eqb_refl by lia. done.
  - intros n v0 Hn Hne Hv0. rewrite Hv in Hv0. injection Hv0 as <-.
    rewrite u8_testbit, testbit_lor_pow2 by lia.
    apply Z.eqb_neq in Hne. by rewrite Hne.
  - eexists. split; [reflexivity |]. simpl.
    split; [exact Hwf' |]. rewrite Zlength_insert.
    split_and!; [done .. | exact Hfr].
Qed.

Lemma bf_clr_spec (k : Z) :
  0 ≤ k < bf_size bf → bf_free bf k = false →
  ∃ bf', bf_clr bf k = Ret bf' ∧ bf_wf bf' ∧
    bf_size bf' = bf_size bf ∧ bf_next_free bf' = bf_next_free bf ∧
    bf_available bf' = bf_available bf + 1 ∧
    Zlength (bf_b bf') = Zlength (bf_b bf) ∧
    ∀ i, bf_free bf' i = if decide (i = k) then true else bf_free bf i.
Proof.
  intros Hk Hfree. pose proof (bf_size_le_bits k Hk) as Hkb.
  destruct (bf_byte_read k Hkb) as (v & Hv & Hrange).
  pose proof (Z.mod_pos_bound k 8 ltac:(lia)) as Hm.
  unfold bf_clr. rewrite bf_decode_spec, (bf_get_spec k Hkb), Hfree, bf_byte_ok by done.
  simpl. rewrite Hv. simpl.
  rewrite wr_in by (apply rd_bounds in Hv; done). simpl.
  edestruct (bf_update_wf k (bf_next_free bf)
               (u8 (Z.land v (Z.lnot (2 ^ (k mod 8))))) false)
    as [Hwf' Hfr]; [done | done | apply u8_range | | |].
  - rewrite u8_testbit, testbit_land_lnot_pow2, Z.eqb_refl by lia. done.
  - intros n v0 Hn Hne Hv0. rewrite Hv in Hv0. injection Hv0 as <-.
    rewrite u8_testbit, testbit_land_lnot_pow2 by lia.
    apply Z.eqb_neq in Hne. by rewrite Hne.
  - eexists. split; [reflexivity |]. simpl.
    split; [exact Hwf' |]. rewrite Zlength_insert.
    split_and!; [done .. | exact Hfr].
Qed.
End bitfield_ops.

(** * The search loops *)

Lemma scan_bytes_spec (field : list Z) (n : nat) (current : Z) :
  0 ≤ current → current + Z.of_nat n ≤ Zlength field →
  ∃ r, scan_bytes field current n = Ret r ∧
    match r with
    | Some c => current ≤ c < current + Z.of_nat n ∧
        ∃ v, rd field c = Ret v ∧ v ≠ 255
    | None => ∀ j, current ≤ j < current + Z.of_nat n → rd field j = Ret 255
    end.
Proof.
  revert current. induction n as [|n IH]; intros current H0 Hn; simpl.
  - exists None. split; [done | lia].
  - destruct (rd_in field current) as [v Hv]; [lia |]. rewrite Hv. simpl.
    destruct (Z.eqb_spec v 255) as [-> | Hne]; simpl.
    + destruct (IH (current + 1)) as (r & Hr & Hspec); [lia | lia |].
      exists r. split; [done |]. destruct r as [c|].
      * destruct Hspec as [? ?]. split; [lia | done].
      * intros j Hj. destruct (decide (j = current)) as [-> |]; [done |].
        apply Hspec. lia.
    + exists (Some current). split; [done |]. split; [lia | eauto].
Qed.

Lemma scan_bits_spec (v : Z) (n : nat) (i : Z) :
  0 ≤ i →
  (scan_bits v i n = -1 ∧ ∀ j, i ≤ j < i + Z.of_nat n → Z.testbit v j = true) ∨
  (i ≤ scan_bits v i n < i + Z.of_nat n ∧ Z.testbit v (scan_bits v i n) = false).
Proof.
  revert i. induction n as [|n IH]; intros i Hi; simpl.
  - left. split; [done | lia].
  - rewrite Z.shiftl_1_l, land_pow2_test by lia.
    destruct (Z.testbit v i) eqn:E; simpl.
    + destruct (IH (i + 1)) as [[-> H] | [H1 H2]]; [lia | left | right].
      * split; [done |]. intros j Hj.
        destruct (decide (j = i)) as [-> |]; [done | apply H; lia].
      * split; [lia | done].
    + right. split; [lia | done].
Qed.

Lemma byte_all_set (v : Z) :
  0 ≤ v < 256 → (∀ j, 0 ≤ j < 8 → Z.testbit v j = true) → v = 255.
Proof.
  intros Hv H. change 255 with (Z.ones 8). apply Z.bits_inj'. intros n Hn.
  rewrite Z.testbit_ones_nonneg by lia. destruct (Z.ltb_spec n 8).
  - apply H. lia.
  - destruct (decide (v = 0)) as [-> |]; [apply Z.bits_0 |].
    apply Z.bits_above_log2; [lia |].
    apply Z.log2_lt_pow2; [lia |].
    apply Z.lt_le_trans with (2 ^ 8); [lia | apply Z.pow_le_mono_r; lia].
Qed.

Lemma bf_find_next_free_bit_spec (v : Z) :
  0 ≤ v < 256 → v ≠ 255 →
  ∃ bit, bf_find_next_free_bit v = Ret bit ∧ 0 ≤ bit < 8 ∧ Z.testbit v bit = false.
Proof.
  intros Hv Hne. unfold bf_find_next_free_bit.
  apply Z.eqb_neq in Hne as Hb. rewrite Hb. simpl.
  exists (scan_bits v 0 8). split; [done |].
  destruct (scan_bits_spec v 8 0 ltac:(lia)) as [[_ H] | [H1 H2]].
  - exfalso. apply Hne, byte_all_set; [done |]. intros. apply H. lia.
  - split; [lia | done].
Qed.

(** Some byte is not full exactly when some offset is free. *)
Lemma free_byte_not_full (b : list Z) (i v : Z) :
  bit_at b i = false → rd b (i / 8) = Ret v → v ≠ 255.
Proof.
  unfold bit_at. intros Hb Hv ->. rewrite Hv in Hb.
  change 255 with (Z.ones 8) in Hb.
  rewrite Z.ones_spec_low in Hb; [done |]. apply Z.mod_pos_bound. lia.
Qed.

Lemma bf_find_next_free_byte_spec (bf : bitfield) :
  bf_wf bf → bf_hint_ok bf →
  ∃ r, bf_find_next_free_byte (bf_b bf) (bf_next_free bf) (bf_size bf) = Ret r ∧
    ((r = -1 ∧ ∀ i, bf_free bf i = false) ∨
     (0 ≤ r < Zlength (bf_b bf) ∧ ∃ v, rd (bf_b bf) r = Ret v ∧ v ≠ 255)).
Proof.
  intros Hwf [Hh1 Hh2]. pose proof (wf_len _ Hwf) as Hlen.
  unfold bf_find_next_free_byte.
  rewrite FLOOR_bytes, CEILING_bytes, <- Hlen by (lia || apply Hwf).
  set (nx := bf_next_free bf / 8).
  assert (0 ≤ nx ≤ Zlength (bf_b bf)) as Hnx by (unfold nx; divmod).
  destruct (scan_bytes_spec (bf_b bf) (Z.to_nat (Zlength (bf_b bf) - nx)) nx)
    as (r & Hr & Hspec); [lia | lia |].
  rewrite Hr. simpl. destruct r as [c|].
  { exists c. split; [done |]. right. destruct Hspec. split; [lia | done]. }
  destruct (scan_bytes_spec (bf_b bf) (Z.to_nat nx) 0) as (r' & Hr' & Hspec');
    [lia | lia |].
  rewrite Hr'. simpl. destruct r' as [c|]; simpl.
  { exists c. split; [done |]. right. destruct Hspec'. split; [lia | done]. }
  exists (-1). split; [done |]. left. split; [done |].
  intros i. apply negb_false_iff, not_false_iff_true. intros Hfree.
  destruct (rd (bf_b bf) (i / 8)) as [v | f] eqn:Hv.
  - pose proof (rd_bounds _ _ _ Hv).
    apply (free_byte_not_full _ _ v Hfree); [done |].
    destruct (decide (i / 8 < nx)).
    + rewrite Hspec' in Hv by lia. by injection Hv.
    + rewrite Hspec in Hv by lia. by injection Hv.
  - unfold bit_at in Hfree. by rewrite Hv in Hfree.
Qed.

Lemma bf_available_zero (bf : bitfield) :
  bf_wf bf → bf_available bf = 0 → ∀ i, bf_free bf i = false.
Proof.
  intros Hwf Ha i. rewrite (wf_available _ Hwf) in Ha.
  rewrite countb_zero in Ha.
  destruct (decide (0 ≤ i < Z.of_nat (bf_nbits bf))) as [? | Hout]; [by apply Ha |].
  unfold bf_free, bit_at. destruct (rd (bf_b bf) (i / 8)) eqn:E; [| done].
  apply rd_bounds in E. exfalso. apply Hout.
  unfold bf_nbits, Zlength in *. divmod.
Qed.

Lemma bf_available_nonneg (bf : bitfield) : bf_wf bf → 0 ≤ bf_available bf.
Proof. intros Hwf. rewrite (wf_available _ Hwf). apply countb_bounds. Qed.

Lemma bf_free_in_size (bf : bitfield) (i : Z) :
  bf_wf bf → bf_free bf i = true → 0 ≤ i < bf_size bf.
Proof.
  intros Hwf Hf. split.
  - unfold bf_free, bit_at in Hf.
    destruct (rd (bf_b bf) (i / 8)) eqn:E; [| done].
    apply rd_bounds in E. divmod.
  - destruct (Z.lt_ge_cases i (bf_size bf)) as [| Hge]; [done |].
    by rewrite (wf_pad _ Hwf i Hge) in Hf.
Qed.

Lemma bf_set_next_free_spec (bf : bitfield) :
  bf_wf bf → bf_hint_ok bf →
  ∃ off bf', bf_set_next_free bf = Ret (off, bf') ∧
    ((off = -1 ∧ bf' = bf ∧ ∀ i, bf_free bf i = false) ∨
     (0 ≤ off < bf_size bf ∧ bf_free bf off = true ∧
      bf_wf bf' ∧ bf_hint_ok bf' ∧ bf_size bf' = bf_size bf ∧
      bf_available bf' = bf_available bf - 1 ∧
      ∀ i, bf_free bf' i = if decide (i = off) then false else bf_free bf i)).
Proof.
  intros Hwf Hh. unfold bf_set_next_free.
  destruct (Z.eqb_spec (bf_available bf) 0) as [Ha | Ha]; simpl.
  { exists (-1), bf. split; [done |]. left. split_and!; [done .. |].
    by apply bf_available_zero. }
  destruct (bf_find_next_free_byte_spec bf Hwf Hh) as (r & -> & Hspec). simpl.
  destruct Hspec as [[-> Hnone] | (Hr & v & Hv & Hv255)]; simpl.
  { exists (-1), bf. split; [done |]. by left. }
  destruct (Z.eqb_spec r (-1)); [lia |]. simpl. rewrite Hv. simpl.
  assert (0 ≤ v < 256) as Hvr.
  { apply rd_Ret in Hv as [_ Hv]. apply (Forall_lookup_1 _ _ _ _ (wf_bytes _ Hwf) Hv). }
  destruct (bf_find_next_free_bit_spec v Hvr Hv255) as (bit & -> & Hbit & Htest). simpl.
  unfold BITS_PER_BYTE. set (off := r * 8 + bit).
  assert (bf_free bf off = true) as Hfree.
  { unfold bf_free, bit_at. replace (off / 8) with r by (unfold off; divmod).
    replace (off mod 8) with bit by (unfold off; divmod). by rewrite Hv, Htest. }
  pose proof (bf_free_in_size bf off Hwf Hfree) as Hoff.
  destruct (bf_set_spec bf Hwf off Hoff Hfree)
    as (bf1 & -> & Hwf1 & Hs1 & Hn1 & Ha1 & Hl1 & Hf1). simpl.
  exists off, (bf_with_next_free bf1 (if off + 1 >? bf_size bf1 then 0 else off + 1)).
  split; [done |]. right. split_and!; [lia .. | done | | | done | done | done].
  - destruct Hwf1 as [? ? ? ? ?]. by split.
  - unfold bf_hint_ok. simpl. rewrite Z.gtb_ltb. bdestruct (bf_size bf1 <? off + 1); lia.
Qed.

Lemma bf_free_fill (n : nat) (s i : Z) :
  bf_free (mk_bitfield 0 0 s (replicate n 255)) i = false.
Proof.
  unfold bf_free, bit_at. simpl.
  destruct (rd (replicate n 255) (i / 8)) as [v|] eqn:E; [| done].
  apply rd_Ret in E as [_ [-> _]%lookup_replicate].
  change 255 with (Z.ones 8).
  rewrite Z.ones_spec_low; [done |]. apply Z.mod_pos_bound. lia.
Qed.

Lemma bf_free_empty (n : nat) (a s i : Z) :
  bf_free (mk_bitfield 0 a s (replicate n 0)) i = bool_decide (0 ≤ i < 8 * Z.of_nat n).
Proof.
  unfold bf_free, bit_at. simpl.
  destruct (rd (replicate n 0) (i / 8)) as [v|] eqn:E.
  - apply rd_Ret in E as [? [-> ?]%lookup_replicate]. rewrite Z.bits_0. simpl.
    symmetry. apply bool_decide_eq_true. divmod.
  - symmetry. apply bool_decide_eq_false. intros Hi.
    destruct (rd_in (replicate n 0) (i / 8)) as [v Hv].
    + unfold Zlength. rewrite length_replicate. divmod.
    + congruence.
Qed.

(** A field made by [new_bitfield(size, BITFIELD_INIT_FILLED)]. *)
Lemma new_bitfield_filled (size : Z) :
  0 ≤ size →
  ∃ bf, new_bitfield true true size BITFIELD_INIT_FILLED = Ret (Some bf) ∧
    bf_wf bf ∧ bf_size bf = size ∧ bf_next_free bf = 0 ∧
    ∀ i, bf_free bf i = false.
Proof.
  intros Hs. unfold new_bitfield. simpl. rewrite CEILING_bytes by lia.
  eexists. split; [done |]. split_and!; [| done | done | apply bf_free_fill].
  assert (0 ≤ (size + 7) / 8) by divmod.
  split; simpl; [done | | | | intros; apply bf_free_fill].
  - unfold Zlength. rewrite length_replicate. lia.
  - apply Forall_replicate. lia.
  - symmetry. apply countb_zero. intros. apply bf_free_fill.
Qed.

(** A field made by [new_bitfield(size, BITFIELD_INIT_EMPTY)] for whole bytes. *)
Lemma new_bitfield_empty (size : Z) :
  0 ≤ size → size mod 8 = 0 →
  ∃ bf, new_bitfield true true size BITFIELD_INIT_EMPTY = Ret (Some bf) ∧
    bf_wf bf ∧ bf_size bf = size ∧ bf_next_free bf = 0 ∧ bf_available bf = size ∧
    ∀ i, bf_free bf i = bool_decide (0 ≤ i < size).
Proof.
  intros Hs Hm. unfold new_bitfield. simpl. rewrite CEILING_bytes by lia.
  replace ((size + 7) / 8 * BITS_PER_BYTE - size) with 0
    by (unfold BITS_PER_BYTE; divmod).
  assert (0 ≤ (size + 7) / 8) by divmod.
  assert (8 * Z.of_nat (Z.to_nat ((size + 7) / 8)) = size) as Hn by divmod.
  simpl. eexists. split; [done |].
  split_and!; [| done | done | done |].
  - split; simpl; [done | | | |].
    + unfold Zlength. rewrite length_replicate. lia.
    + apply Forall_replicate. lia.
    + unfold bf_nbits. simpl. rewrite length_replicate.
      transitivity (Z.of_nat (8 * Z.to_nat ((size + 7) / 8))); [lia |].
      symmetry. apply countb_full. intros i Hi. rewrite bf_free_empty.
      apply bool_decide_eq_true. lia.
    + intros i Hi. rewrite bf_free_empty. apply bool_decide_eq_false. lia.
  - intros i. rewrite bf_free_empty. by rewrite Hn.
Qed.

(** * Ranges of offsets *)

Lemma bf_clr_range_spec (n : nat) (bf : bitfield) (i : Z) :
  bf_wf bf → 0 ≤ i → i + Z.of_nat n ≤ bf_size bf →
  (∀ k, i ≤ k < i + Z.of_nat n → bf_free bf k = false) →
  ∃ bf', bf_clr_range bf i n = Ret bf' ∧ bf_wf bf' ∧
    bf_size bf' = bf_size bf ∧ bf_next_free bf' = bf_next_free bf ∧
    bf_available bf' = bf_available bf + Z.of_nat n ∧
    ∀ k, bf_free bf' k =
      if decide (i ≤ k < i + Z.of_nat n) then true else bf_free bf k.
Proof.
  revert bf i. induction n as [|n IH]; intros bf i Hwf Hi Hn Hf; simpl.
  { exists bf. split_and!; [done .. | lia |]. intros. by rewrite decide_False by lia. }
  destruct (bf_clr_spec bf Hwf i) as (b1 & -> & Hwf1 & Hs1 & Hn1 & Ha1 & _ & Hf1);
    [lia | apply Hf; lia |]. simpl.
  destruct (IH b1 (i + 1)) as (b2 & -> & Hwf2 & Hs2 & Hn2 & Ha2 & Hf2);
    [done | lia | lia | |].
  { intros k Hk. rewrite Hf1, decide_False by lia. apply Hf. lia. }
  exists b2. split_and!; [done .. | congruence | congruence | lia |].
  intros k. rewrite Hf2, Hf1. repeat case_decide; try done; lia.
Qed.

Lemma bf_set_range_spec (n : nat) (bf : bitfield) (i : Z) :
  bf_wf bf → 0 ≤ i → i + Z.of_nat n ≤ bf_size bf →
  (∀ k, i ≤ k < i + Z.of_nat n → bf_free bf k = true) →
  ∃ bf', bf_set_range bf i n = Ret bf' ∧ bf_wf bf' ∧
    bf_size bf' = bf_size bf ∧ bf_next_free bf' = bf_next_free bf ∧
    bf_available bf' = bf_available bf - Z.of_nat n ∧
    ∀ k, bf_free bf' k =
      if decide (i ≤ k < i + Z.of_nat n) then false else bf_free bf k.
Proof.
  revert bf i. induction n as [|n IH]; intros bf i Hwf Hi Hn Hf; simpl.
  { exists bf. split_and!; [done .. | lia |]. intros. by rewrite decide_False by lia. }
  destruct (bf_set_spec bf Hwf i) as (b1 & -> & Hwf1 & Hs1 & Hn1 & Ha1 & _ & Hf1);
    [lia | apply Hf; lia |]. simpl.
  destruct (IH b1 (i + 1)) as (b2 & -> & Hwf2 & Hs2 & Hn2 & Ha2 & Hf2);
    [done | lia | lia | |].
  { intros k Hk. rewrite Hf1, decide_False by lia. apply Hf. lia. }
  exists b2. split_and!; [done .. | congruence | congruence | lia |].
  intros k. rewrite Hf2, Hf1. repeat case_decide; try done; lia.
Qed.

(** [bf_set] looks at the size only through its number of bytes and at
    [available] only to decrement it. *)
Lemma bf_set_range_shift (n : nat) (nf a s a' s' i : Z) (b : list Z) :
  Z.quot (CEILING s) BITS_PER_BYTE = Z.quot (CEILING s') BITS_PER_BYTE →
  ∀ bf', bf_set_range (mk_bitfield nf a' s' b) i n = Ret bf' →
  bf_set_range (mk_bitfield nf a s b) i n =
    Ret (mk_bitfield nf (bf_available bf' - a' + a) s (bf_b bf')).
Proof.
  intros Hq. revert a a' b i. induction n as [|n IH]; intros a a' b i bf' H.
  { simpl in *. injection H as <-. simpl. unfold mret, outcome_ret.
    do 2 f_equal. lia. }
  cbn [bf_set_range] in *. unfold bf_set, bf_get in *.
  rewrite bf_decode_spec in *. simpl in *. rewrite <- Hq in H.
  destruct (c_assert _); [simpl in * | discriminate].
  destruct (rd b (i / 8)); [simpl in * | discriminate].
  destruct (c_assert (negb _)); [simpl in * | discriminate].
  destruct (wr b (i / 8) _); [simpl in * | discriminate].
  rewrite (IH (a - 1) (a' - 1) _ _ _ H). do 2 f_equal. lia.
Qed.

(** * Bitfields as finite sets of free offsets *)

Definition bf_free_set (bf : bitfield) : gset Z :=
  list_to_set (filter (λ i, bf_free bf i = true) (seqZ 0 (bf_size bf))).

Lemma elem_of_free_set (bf : bitfield) (i : Z) :
  bf_wf bf → i ∈ bf_free_set bf ↔ bf_free bf i = true.
Proof.
  intros Hwf. unfold bf_free_set.
  rewrite elem_of_list_to_set, list_elem_of_filter, elem_of_seqZ.
  split; [tauto |]. intros Hf. pose proof (bf_free_in_size bf i Hwf Hf).
  split; [done | lia].
Qed.

Lemma countb_filter_seqZ (f : Z → bool) (n : nat) :
  countb f n = Z.of_nat (length (filter (λ i, f i = true) (seqZ 0 (Z.of_nat n)))).
Proof.
  induction n as [|n IH]; [done |]. simpl countb.
  rewrite seqZ_S, filter_app, length_app, IH.
  rewrite Z.add_0_l. unfold b2z. simpl.
  destruct (f (Z.of_nat n)) eqn:E.
  - rewrite filter_cons_True by done. simpl. lia.
  - rewrite filter_cons_False by (by rewrite E). simpl. lia.
Qed.

Lemma countb_split (f : Z → bool) (m n : nat) :
  (m ≤ n)%nat → (∀ i, Z.of_nat m ≤ i < Z.of_nat n → f i = false) →
  countb f n = countb f m.
Proof.
  induction n as [|n IH]; intros Hle Hf.
  - by replace m with 0%nat by lia.
  - destruct (decide (m = S n)) as [-> |]; [done |]. simpl.
    rewrite IH; [| lia | intros; apply Hf; lia].
    rewrite Hf by lia. simpl. lia.
Qed.

(** [available] is the size of the set. *)
Lemma size_free_set (bf : bitfield) :
  bf_wf bf → bf_available bf = Z.of_nat (size (bf_free_set bf)).
Proof.
  intros Hwf. pose proof Hwf as [Hs Hl _ Ha Hp].
  unfold bf_free_set. rewrite size_list_to_set
    by (apply NoDup_filter, NoDup_seqZ).
  rewrite Ha, (countb_split _ (Z.to_nat (bf_size bf))).
  - rewrite countb_filter_seqZ. by rewrite Z2Nat.id by lia.
  - unfold bf_nbits, Zlength in *. divmod.
  - intros. apply Hp. lia.
Qed.

Lemma bytes_ext (b1 b2 : list Z) :
  length b1 = length b2 →
  Forall (λ v, 0 ≤ v < 256) b1 → Forall (λ v, 0 ≤ v < 256) b2 →
  (∀ i, bit_at b1 i = bit_at b2 i) → b1 = b2.
Proof.
  intros Hlen H1 H2 Hb. apply list_eq_same_length with (length b2); [done .. |].
  intros k x y Hk Hx Hy.
  assert (∀ v n, 0 ≤ v < 256 → 8 ≤ n → Z.testbit v n = false) as Hhigh.
  { intros v n Hv Hn. destruct (decide (v = 0)) as [-> |]; [apply Z.bits_0 |].
    apply Z.bits_above_log2; [lia |]. apply Z.log2_lt_pow2; [lia |].
    apply Z.lt_le_trans with (2 ^ 8); [lia | apply Z.pow_le_mono_r; lia]. }
  pose proof (Forall_lookup_1 _ _ _ _ H1 Hx) as Hx'.
  pose proof (Forall_lookup_1 _ _ _ _ H2 Hy) as Hy'. simpl in *.
  apply Z.bits_inj'. intros n Hn. destruct (decide (n < 8)); cycle 1.
  { rewrite !Hhigh by lia. done. }
  specialize (Hb (8 * Z.of_nat k + n)). unfold bit_at in Hb.
  replace ((8 * Z.of_nat k + n) / 8) with (Z.of_nat k) in Hb by divmod.
  replace ((8 * Z.of_nat k + n) mod 8) with n in Hb by divmod.
  rewrite (proj2 (rd_Ret b1 (Z.of_nat k) x)), (proj2 (rd_Ret b2 (Z.of_nat k) y)) in Hb;
    [done | ..]; (split; [lia | by rewrite Nat2Z.id]).
Qed.

(** A field of [n] clear bytes, whatever its hint. *)
Lemma new_bitfield_wf8 (n nf : Z) :
  0 ≤ n → bf_wf (mk_bitfield nf (8 * n) (8 * n) (replicate (Z.to_nat n) 0)).
Proof.
  intros Hn.
  destruct (new_bitfield_empty (8 * n)) as (e & He & Hwf & _); [lia | divmod |].
  unfold new_bitfield in He. simpl in He. rewrite CEILING_bytes in He by lia.
  replace ((8 * n + 7) / 8) with n in He by divmod.
  replace (n * BITS_PER_BYTE - 8 * n) with 0 in He by (unfold BITS_PER_BYTE; lia).
  simpl in He. injection He as <-. destruct Hwf. by split.
Qed.

(** [bf_set_next_free] implements allocation from a finite set of free
    offsets: it never faults, it answers -1 exactly when the set is empty (and
    then changes nothing), and otherwise it removes the offset it returns and
    no other from the set, keeping the invariant, the hint in range and
    [available] equal to the size of the set. *)
Theorem bf_set_next_free_refines (bf : bitfield) :
  bf_wf bf → bf_hint_ok bf →
  ∃ off bf', bf_set_next_free bf = Ret (off, bf') ∧
    (off = -1 ↔ bf_free_set bf = ∅) ∧
    (off = -1 → bf' = bf) ∧
    (off ≠ -1 → off ∈ bf_free_set bf) ∧
    bf_free_set bf' = bf_free_set bf ∖ {[off]} ∧
    bf_wf bf' ∧ bf_hint_ok bf' ∧
    bf_available bf' = Z.of_nat (size (bf_free_set bf')).
Proof.
  intros Hwf Hh.
  destruct (bf_set_next_free_spec bf Hwf Hh) as (off & bf' & -> & [Hno | Hyes]);
    exists off, bf'; (split; [done |]).
  - destruct Hno as (-> & -> & Hnone).
    assert (bf_free_set bf = ∅) as He.
    { apply set_eq. intros i. rewrite elem_of_free_set, Hnone by done. set_solver. }
    rewrite He. split_and!; [done | done | done | set_solver | done | done |].
    rewrite <- He. by apply size_free_set.
  - destruct Hyes as (Hr & Hoff & Hwf' & Hh' & Hs & Ha & Hf).
    split_and!; [| lia | | | done | done | by apply size_free_set].
    + split; [lia |]. intros He. apply (elem_of_free_set bf off Hwf) in Hoff.
      set_solver.
    + intros _. by apply elem_of_free_set.
    + apply set_eq. intros i.
      rewrite elem_of_difference, !elem_of_free_set, Hf by done.
      case_decide; set_solver.
Qed.

Lemma bf_set_next_free_refines_witness :
  ∃ off bf', bf_set_next_free (mk_bitfield 9 3 12 [255; 241]) = Ret (off, bf') ∧
    off ∈ bf_free_set (mk_bitfield 9 3 12 [255; 241]).
Proof.
  destruct (bf_set_next_free_refines (mk_bitfield 9 3 12 [255; 241]))
    as (off & bf' & H1 & H2 & H3 & H4 & H5).
  - split; [done | done | repeat constructor; lia | vm_compute; done |].
    intros i Hi. simpl in Hi. unfold bf_free, bit_at. simpl.
    destruct (rd [255; 241] (i / 8)) as [v |] eqn:E; [| done].
    assert (i / 8 = 1) as Hq.
    { apply rd_bounds in E. unfold Zlength in E. simpl in E. divmod. }
    rewrite Hq in E. injection E as <-.
    assert (i mod 8 = 4 ∨ i mod 8 = 5 ∨ i mod 8 = 6 ∨ i mod 8 = 7) as [-> | [-> | [-> | ->]]]
      by divmod; done.
  - unfold bf_hint_ok. simpl. lia.
  - exists off, bf'. split; [exact H1 | apply H4].
    intros ->. destruct H2 as [H2 _]. specialize (H2 eq_refl). vm_compute in H2. done.
Defined.

(** Clearing the offset that [bf_set_next_free] has just handed out
    restores the bytes of the field and its [available] count. *)
Theorem bf_alloc_free_roundtrip (bf bf1 : bitfield) (off : Z) :
  bf_wf bf → bf_hint_ok bf →
  bf_set_next_free bf = Ret (off, bf1) → off ≠ -1 →
  ∃ bf2, bf_clr bf1 off = Ret bf2 ∧ bf_b bf2 = bf_b bf ∧
    bf_available bf2 = bf_available bf ∧ bf_wf bf2.
Proof.
  intros Hwf Hh Hset Hoff.
  destruct (bf_set_next_free_spec bf Hwf Hh) as (o & b & E & Hspec).
  rewrite Hset in E. injection E as <- <-.
  destruct Hspec as [(? & _) | (Hr & Hfree & Hwf1 & _ & Hs & Ha & Hf)]; [done |].
  destruct (bf_clr_spec bf1 Hwf1 off) as (bf2 & Hclr & Hwf2 & Hs2 & _ & Ha2 & Hl2 & Hf2).
  { by rewrite Hs. }
  { by rewrite Hf, decide_True. }
  exists bf2. split_and!; [done | | lia | done].
  apply bytes_ext; [| apply Hwf2 | apply Hwf |].
  - pose proof (wf_len _ Hwf). pose proof (wf_len _ Hwf2).
    rewrite Hs2, Hs in *. unfold Zlength in *. lia.
  - intros i. assert (bf_free bf2 i = bf_free bf i) as Heq.
    { rewrite Hf2, Hf. case_decide; [by subst | done]. }
    unfold bf_free in Heq. apply (f_equal negb) in Heq.
    by rewrite !negb_involutive in Heq.
Qed.

Lemma bf_alloc_free_roundtrip_witness :
  ∃ bf2, bf_clr (mk_bitfield 1 7 8 [1]) 0 = Ret bf2 ∧ bf_b bf2 = [0].
Proof.
  destruct (bf_alloc_free_roundtrip (mk_bitfield 1 8 8 [0]) (mk_bitfield 1 7 8 [1]) 0)
    as (bf2 & H1 & H2 & _).
  - apply (new_bitfield_wf8 1). lia.
  - unfold bf_hint_ok. simpl. lia.
  - reflexivity.
  - lia.
  - exists bf2. split; [exact H1 | exact H2].
Defined.

(** [new_bitfield(size, BITFIELD_INIT_EMPTY)] frees exactly the offsets
    below [size], but counts its padding bits as allocated: [available] falls
    short of [size] by the number of padding bits, so it counts the free offsets
    only when [size] is a multiple of 8. *)
Theorem new_bitfield_empty_available (size : Z) :
  0 ≤ size →
  ∃ bf, new_bitfield true true size BITFIELD_INIT_EMPTY = Ret (Some bf) ∧
    (∀ i, bf_free bf i = bool_decide (0 ≤ i < size)) ∧
    bf_available bf = size - (8 * ((size + 7) / 8) - size) ∧
    (bf_wf bf ↔ size mod 8 = 0).
Proof.
  intros Hs. unfold new_bitfield. simpl. rewrite CEILING_bytes by lia.
  set (n := (size + 7) / 8). assert (size ≤ 8 * n < size + 8) as Hn by (unfold n; divmod).
  destruct (new_bitfield_empty (8 * n)) as (e & He & Hwf & Hse & Hne & Hae & Hfe);
    [lia | divmod |].
  unfold new_bitfield in He. simpl in He. rewrite CEILING_bytes in He by lia.
  replace ((8 * n + 7) / 8) with n in He by divmod.
  replace (n * BITS_PER_BYTE - 8 * n) with 0 in He by (unfold BITS_PER_BYTE; lia).
  simpl in He. injection He as <-.
  destruct (bf_set_range_spec (Z.to_nat (n * BITS_PER_BYTE - size)) _ size Hwf)
    as (bf' & Hr & Hwf' & Hs' & Hn' & Ha' & Hf');
    [lia | simpl; unfold BITS_PER_BYTE; lia | |].
  { intros k Hk. rewrite Hfe. apply bool_decide_eq_true.
    unfold BITS_PER_BYTE in Hk. lia. }
  erewrite bf_set_range_shift; [| | exact Hr].
  2:{ rewrite !CEILING_bytes by lia. fold n. divmod. }
  simpl in *. eexists. split; [done |]. simpl. unfold BITS_PER_BYTE in *.
  assert (∀ i, bf_free (mk_bitfield 0 (bf_available bf' - 8 * n + size) size (bf_b bf')) i
               = bool_decide (0 ≤ i < size)) as Hfree.
  { intros i. change (bf_free bf' i = bool_decide (0 ≤ i < size)).
    rewrite Hf'. case_decide; [| rewrite Hfe];
      symmetry; [apply bool_decide_eq_false; lia |].
    apply bool_decide_ext. lia. }
  split_and!; [exact Hfree | lia |].
  assert (countb (bf_free bf') (bf_nbits bf') = size) as Hcount.
  { rewrite <- (wf_available _ Hwf'). lia. }
  pose proof (wf_len _ Hwf') as Hl'. rewrite Hs' in Hl'.
  split.
  - intros [_ _ _ Hav _]. simpl in Hav.
    change (bf_available bf' - 8 * n + size = countb (bf_free bf') (bf_nbits bf')) in Hav.
    divmod.
  - intros Hm. destruct Hwf' as [_ _ Hb _ _]. split; simpl; [lia | | done | |].
    + rewrite Hl'. fold n. divmod.
    + change (bf_available bf' - 8 * n + size = countb (bf_free bf') (bf_nbits bf')).
      divmod.
    + intros i Hi. rewrite Hfree. apply bool_decide_eq_false. lia.
Qed.

Lemma new_bitfield_empty_available_witness :
  ∃ bf, new_bitfield true true 12 BITFIELD_INIT_EMPTY = Ret (Some bf) ∧
    bf_available bf = 8 ∧ ¬ bf_wf bf.
Proof.
  destruct (new_bitfield_empty_available 12) as (bf & H1 & _ & H3 & H4); [lia |].
  exists bf. split_and!; [exact H1 | exact H3 |].
  intros H. apply H4 in H. vm_compute in H. done.
Defined.
