(* ===== verification/UtAllocator.v ===== *)
(** The untyped memory allocator (src/apps/sos/src/ut_manager/ut_allocator.c).

    Physical memory is a row of 16 KiB slabs.  [_pool14], [_pool12] and
    [_pool10] are bitfields over the whole range; [_pool9] and [_pool4] are
    doubly linked lists of slabs with a bitfield each, kept here as a store of
    nodes with their [prev] and [next] pointers.  The theorems show that
    [ut_alloc] and [ut_free] implement a set of live, aligned, pairwise disjoint
    blocks. *)

From S2P Require Import Prelude Bitfield.

(** * State *)

Definition PRIMARY_POOL_SIZEBITS : Z := 14.

(** A [suballocator_t **]: the head variable [_pool9] or [_pool4], or the
    [next] field of a node. *)
Inductive ploc : Type :=
  | PoolHead (sizebits : Z)
  | NextOf (node : Z).

#[export] Instance ploc_eq_dec : EqDecision ploc.
Proof. solve_decision. Defined.

(** [suballocator_t]; a node pointer is a key of the store. *)
Record suballocator : Type := mk_suballocator {
  sa_prev : option ploc;
  sa_next : option Z;
  sa_base : Z;
  sa_bitfield : bitfield
}.

(** The static variables of the file, the heap of nodes, the next unused node
    address and the answers [malloc] is going to give (NULL once they run out). *)
Record ut_state : Type := mk_ut {
  pool14 : option bitfield;
  pool12 : option bitfield;
  pool10 : option bitfield;
  pool9 : option Z;
  pool4 : option Z;
  initialised : bool;
  pool_base : Z;
  nodes : gmap Z suballocator;
  fresh : Z;
  mallocs : list bool
}.

(** The static initialisers. *)
Definition ut_boot (ms : list bool) : ut_state :=
  mk_ut None None None None None false 0 ∅ 1 ms.

Definition malloc (st : ut_state) : bool * ut_state :=
  (default false (head (mallocs st)),
   mk_ut (pool14 st) (pool12 st) (pool10 st) (pool9 st) (pool4 st) (initialised st)
     (pool_base st) (nodes st) (fresh st) (tail (mallocs st))).

Definition with_nodes (st : ut_state) (ns : gmap Z suballocator) : ut_state :=
  mk_ut (pool14 st) (pool12 st) (pool10 st) (pool9 st) (pool4 st) (initialised st)
    (pool_base st) ns (fresh st) (mallocs st).

(** The switch that selects a bitfield pool. *)
Definition get_pool (st : ut_state) (sizebits : Z) : outcome bitfield :=
  if sizebits =? 14 then deref (pool14 st)
  else if sizebits =? 12 then deref (pool12 st)
  else if sizebits =? 10 then deref (pool10 st)
  else Fault AssertFail.

Definition set_pool (st : ut_state) (sizebits : Z) (bf : bitfield) : ut_state :=
  mk_ut (if sizebits =? 14 then Some bf else pool14 st)
        (if sizebits =? 12 then Some bf else pool12 st)
        (if sizebits =? 10 then Some bf else pool10 st)
        (pool9 st) (pool4 st) (initialised st)
        (pool_base st) (nodes st) (fresh st) (mallocs st).

(** * Bitfield pools *)

Definition bitfield_fill_pool (st : ut_state) (sizebits : Z) : outcome ut_state :=
  if negb (sizebits =? PRIMARY_POOL_SIZEBITS) then
    p14 ← get_pool st PRIMARY_POOL_SIZEBITS;
    '(offset, p14') ← bf_set_next_free p14;
    let st := set_pool st PRIMARY_POOL_SIZEBITS p14' in
    bf ← get_pool st sizebits;
    if negb (offset =? -1) then
      let offset := Z.shiftl offset (PRIMARY_POOL_SIZEBITS - sizebits) in
      let units := Z.shiftl 1 (PRIMARY_POOL_SIZEBITS - sizebits) in
      bf ← bf_clr_range bf offset (Z.to_nat units);
      mret (set_pool st sizebits (bf_with_next_free bf offset))
    else
      mret (set_pool st sizebits (bf_with_next_free bf offset))
  else mret st.

(** The first loop of [_bitfield_merge_up]: is some offset of the range set? *)
Fixpoint bf_any_set (bf : bitfield) (i : Z) (n : nat) : outcome bool :=
  match n with
  | O => mret false
  | S n =>
      b ← bf_get bf i;
      if (b : bool) then mret true else bf_any_set bf (i + 1) n
  end.

Definition bitfield_merge_up (st : ut_state) (sizebits offset : Z) : outcome ut_state :=
  if negb (sizebits =? PRIMARY_POOL_SIZEBITS) then
    pool ← get_pool st sizebits;
    let sublevel_units := Z.shiftl 1 (PRIMARY_POOL_SIZEBITS - sizebits) in
    let sublevel_base := Z.land offset (Z.lnot (sublevel_units - 1)) in
    let primary_base := Z.shiftr sublevel_base (PRIMARY_POOL_SIZEBITS - sizebits) in
    used ← bf_any_set pool sublevel_base (Z.to_nat sublevel_units);
    if (used : bool) then mret st
    else
      pool ← bf_set_range pool sublevel_base (Z.to_nat sublevel_units);
      let st := set_pool st sizebits pool in
      p14 ← get_pool st PRIMARY_POOL_SIZEBITS;
      p14 ← bf_clr p14 primary_base;
      mret (set_pool st PRIMARY_POOL_SIZEBITS p14)
  else mret st.

Definition do_ut_alloc_from_bitfield (st : ut_state) (sizebits : Z) :
    outcome (Z * ut_state) :=
  pool ← get_pool st sizebits;
  '(offset, pool) ← bf_set_next_free pool;
  let st := set_pool st sizebits pool in
  '(offset, st) ←
    (if offset =? -1 then
       st ← bitfield_fill_pool st sizebits;
       pool ← get_pool st sizebits;
       '(offset, pool) ← bf_set_next_free pool;
       mret (offset, set_pool st sizebits pool)
     else mret (offset, st));
  if offset =? -1 then mret (0, st)
  else mret (u32 (Z.shiftl offset sizebits + pool_base st), st).

Definition do_ut_free_from_bitfield (st : ut_state) (addr sizebits : Z) :
    outcome ut_state :=
  pool ← get_pool st sizebits;
  let offset := i32 (Z.shiftr (u32 (addr - pool_base st)) sizebits) in
  pool ← bf_clr pool offset;
  bitfield_merge_up (set_pool st sizebits pool) sizebits offset.

(** * Linked list pools *)

Definition get_node (st : ut_state) (p : Z) : outcome suballocator :=
  match nodes st !! p with
  | Some n => Ret n
  | None => Fault Dangling
  end.

Definition read_loc (st : ut_state) (l : ploc) : outcome (option Z) :=
  match l with
  | PoolHead 9 => mret (pool9 st)
  | PoolHead _ => mret (pool4 st)
  | NextOf p => n ← get_node st p; mret (sa_next n)
  end.

Definition sa_set_prev (v : option ploc) (n : suballocator) : suballocator :=
  mk_suballocator v (sa_next n) (sa_base n) (sa_bitfield n).

Definition sa_set_next (v : option Z) (n : suballocator) : suballocator :=
  mk_suballocator (sa_prev n) v (sa_base n) (sa_bitfield n).

Definition sa_set_bitfield (v : bitfield) (n : suballocator) : suballocator :=
  mk_suballocator (sa_prev n) (sa_next n) (sa_base n) v.

(** An assignment to a field of node [p]. *)
Definition upd_node (st : ut_state) (p : Z) (f : suballocator → suballocator) :
    outcome ut_state :=
  n ← get_node st p;
  mret (with_nodes st (<[p := f n]> (nodes st))).

Definition write_loc (st : ut_state) (l : ploc) (v : option Z) : outcome ut_state :=
  match l with
  | PoolHead 9 =>
      mret (mk_ut (pool14 st) (pool12 st) (pool10 st) v (pool4 st) (initialised st)
              (pool_base st) (nodes st) (fresh st) (mallocs st))
  | PoolHead _ =>
      mret (mk_ut (pool14 st) (pool12 st) (pool10 st) (pool9 st) v (initialised st)
              (pool_base st) (nodes st) (fresh st) (mallocs st))
  | NextOf p => upd_node st p (sa_set_next v)
  end.

Definition pool_list_detach (st : ut_state) (node : Z) : outcome ut_state :=
  n ← get_node st node;
  prev ← deref (sa_prev n);
  v ← read_loc st prev;
  _ ← c_assert (bool_decide (is_Some v));
  st ← match sa_next n with
       | Some next => upd_node st next (sa_set_prev (Some prev))
       | None => mret st
       end;
  st ← write_loc st prev (sa_next n);
  st ← upd_node st node (sa_set_prev None);
  upd_node st node (sa_set_next None).

Definition pool_list_attach (st : ut_state) (pool : ploc) (node : Z) : outcome ut_state :=
  n ← get_node st node;
  _ ← c_assert (bool_decide (sa_next n = None));
  _ ← c_assert (bool_decide (sa_prev n = None));
  first ← read_loc st pool;
  st ← upd_node st node (sa_set_next first);
  st ← match first with
       | Some next => upd_node st next (sa_set_prev (Some (NextOf node)))
       | None => mret st
       end;
  st ← upd_node st node (sa_set_prev (Some pool));
  write_loc st pool (Some node).

(** A walk along [next] from [p] to the first node that satisfies [f]. *)
Fixpoint list_walk (st : ut_state) (f : suballocator → bool) (fuel : nat)
    (p : option Z) : outcome (option Z) :=
  match fuel with
  | O => Fault OutOfFuel
  | S fuel =>
      match p with
      | None => mret None
      | Some q =>
          n ← get_node st q;
          if f n then mret (Some q) else list_walk st f fuel (sa_next n)
      end
  end.

Definition walk_fuel (st : ut_state) : nat := S (size (nodes st)).

Definition pool_list_find_base (st : ut_state) (pool : option Z) (base : Z) :
    outcome (option Z) :=
  list_walk st (λ n, sa_base n =? base) (walk_fuel st) pool.

Definition pool_list_find_free (st : ut_state) (pool : option Z) : outcome (option Z) :=
  list_walk st (λ n, negb (bf_available (sa_bitfield n) =? 0)) (walk_fuel st) pool.

Definition new_suballocator (st : ut_state) (sizebits : Z) :
    outcome (option Z * ut_state) :=
  '(primary_addr, st) ← do_ut_alloc_from_bitfield st PRIMARY_POOL_SIZEBITS;
  if primary_addr =? 0 then mret (None, st) else
  let units := Z.shiftl 1 (PRIMARY_POOL_SIZEBITS - sizebits) in
  let '(m0, st) := malloc st in
  if negb m0 then
    st ← do_ut_free_from_bitfield st primary_addr PRIMARY_POOL_SIZEBITS;
    mret (None, st)
  else
  let '(m1, st) := malloc st in
  let '(m2, st) := if m1 then malloc st else (true, st) in
  bf ← new_bitfield m1 m2 units BITFIELD_INIT_EMPTY;
  match bf with
  | None =>
      st ← do_ut_free_from_bitfield st primary_addr PRIMARY_POOL_SIZEBITS;
      mret (None, st)
  | Some bf =>
      let p := fresh st in
      mret (Some p,
            mk_ut (pool14 st) (pool12 st) (pool10 st) (pool9 st) (pool4 st)
              (initialised st) (pool_base st)
              (<[p := mk_suballocator None None primary_addr bf]> (nodes st))
              (p + 1) (mallocs st))
  end.

(** The end of [do_ut_alloc_from_list]: allocate from the chosen node. *)
Definition take_from_node (st : ut_state) (q sizebits : Z) : outcome (Z * ut_state) :=
  n ← get_node st q;
  '(offset, bf) ← bf_set_next_free (sa_bitfield n);
  st ← upd_node st q (sa_set_bitfield bf);
  _ ← c_assert (negb (offset =? -1));
  mret (u32 (Z.shiftl offset sizebits + sa_base n), st).

Definition do_ut_alloc_from_list (st : ut_state) (sizebits : Z) :
    outcome (Z * ut_state) :=
  _ ← c_assert ((sizebits =? 9) || (sizebits =? 4));
  let pool := PoolHead sizebits in
  first ← read_loc st pool;
  found ← pool_list_find_free st first;
  '(pool_node, st) ←
    match found with
    | Some p => mret (Some p, st)
    | None =>
        '(p, st) ← new_suballocator st sizebits;
        match p with
        | None => mret (None, st)
        | Some q => st ← pool_list_attach st pool q; mret (Some q, st)
        end
    end;
  match pool_node with
  | None => mret (0, st)
  | Some q => take_from_node st q sizebits
  end.

Definition do_ut_free_from_list (st : ut_state) (addr sizebits : Z) : outcome ut_state :=
  _ ← c_assert ((sizebits =? 9) || (sizebits =? 4));
  first ← read_loc st (PoolHead sizebits);
  let base := andnot32 addr (Z.shiftl 1 PRIMARY_POOL_SIZEBITS - 1) in
  let offset := i32 (Z.shiftr (u32 (addr - base)) sizebits) in
  let units := Z.shiftl 1 (PRIMARY_POOL_SIZEBITS - sizebits) in
  found ← pool_list_find_base st first base;
  q ← (match found with Some q => mret q | None => Fault AssertFail end);
  n ← get_node st q;
  bf ← bf_clr (sa_bitfield n) offset;
  st ← upd_node st q (sa_set_bitfield bf);
  if bf_available bf =? units then
    st ← pool_list_detach st q;
    st ← do_ut_free_from_bitfield st (sa_base n) PRIMARY_POOL_SIZEBITS;
    mret (with_nodes st (delete q (nodes st)))
  else mret st.

(** * Exported functions *)

Definition FLOOR14 (x : Z) : Z := andnot32 x (Z.shiftl 1 14 - 1).
Definition CEILING14 (x : Z) : Z := FLOOR14 (u32 (x + Z.shiftl 1 14 - 1)).

(** [new_bitfield] with [malloc] answering from the state. *)
Definition new_bitfield_st (st : ut_state) (size : Z) (i : bf_init_state) :
    outcome (option bitfield * ut_state) :=
  let '(m1, st) := malloc st in
  let '(m2, st) := if m1 then malloc st else (true, st) in
  bf ← new_bitfield m1 m2 size i;
  mret (bf, st).

Definition ut_allocator_init (st : ut_state) (low high : Z) : outcome ut_state :=
  _ ← c_assert (negb (initialised st));
  let low := FLOOR14 low in
  let high := CEILING14 high in
  let mem_size := u32 (high - low) in
  '(p14, st) ← new_bitfield_st st (Z.shiftr mem_size 14) BITFIELD_INIT_FILLED;
  '(p12, st) ← new_bitfield_st st (Z.shiftr mem_size 12) BITFIELD_INIT_FILLED;
  '(p10, st) ← new_bitfield_st st (Z.shiftr mem_size 10) BITFIELD_INIT_FILLED;
  let units := Z.to_nat (Z.shiftr mem_size 14) in
  p14 ← match units with
        | O => mret p14
        | S _ => p ← deref p14; p ← bf_clr_range p 0 units; mret (Some p)
        end;
  mret (mk_ut p14 p12 p10 None None true low (nodes st) (fresh st) (mallocs st)).

Definition ut_alloc (st : ut_state) (sizebits : Z) : outcome (Z * ut_state) :=
  _ ← c_assert (initialised st);
  _ ← c_assert (bool_decide (is_Some (pool14 st)));
  if (sizebits =? 4) || (sizebits =? 9) then do_ut_alloc_from_list st sizebits
  else if (sizebits =? 10) || (sizebits =? 12) || (sizebits =? 14) then
    do_ut_alloc_from_bitfield st sizebits
  else Fault AssertFail.

Definition ut_free (st : ut_state) (addr sizebits : Z) : outcome ut_state :=
  _ ← c_assert (negb (addr =? 0));
  _ ← c_assert (Z.land addr (Z.shiftl 1 sizebits - 1) =? 0);
  if (sizebits =? 4) || (sizebits =? 9) then do_ut_free_from_list st addr sizebits
  else if (sizebits =? 10) || (sizebits =? 12) || (sizebits =? 14) then
    do_ut_free_from_bitfield st addr sizebits
  else Fault AssertFail.

Global Arguments read_loc : simpl never.
Global Arguments write_loc : simpl never.
Global Arguments get_pool : simpl never.
Global Arguments do_ut_alloc_from_bitfield : simpl never.
Global Arguments do_ut_free_from_bitfield : simpl never.
Global Arguments bitfield_fill_pool : simpl never.
Global Arguments bitfield_merge_up : simpl never.
Global Arguments new_bitfield : simpl never.
Global Arguments set_pool : simpl never.

(** * Linked lists of nodes *)

Definition is_list_size (s : Z) : Prop := s = 9 ∨ s = 4.

Definition head_of (st : ut_state) (s : Z) : option Z :=
  if s =? 9 then pool9 st else pool4 st.

(** The location that points to element [k] of a list. *)
Definition loc_at (s : Z) (ids : list Z) (k : nat) : ploc :=
  match k with
  | O => PoolHead s
  | S k' => match ids !! k' with Some id => NextOf id | None => PoolHead s end
  end.

(** The list of size [s] links exactly the nodes [ids], in order, both ways. *)
Record list_rep (st : ut_state) (s : Z) (ids : list Z) : Prop := {
  rep_head : head_of st s = ids !! 0%nat;
  rep_node : ∀ k id, ids !! k = Some id →
    ∃ nd, nodes st !! id = Some nd ∧ sa_next nd = ids !! S k ∧
      sa_prev nd = Some (loc_at s ids k)
}.

(** A state whose list of size [s] starts at [h] and whose nodes are [ns]. *)
Definition relink (st : ut_state) (s : Z) (h : option Z) (ns : gmap Z suballocator) :
    ut_state :=
  mk_ut (pool14 st) (pool12 st) (pool10 st)
    (if s =? 9 then h else pool9 st) (if s =? 9 then pool4 st else h)
    (initialised st) (pool_base st) ns (fresh st) (mallocs st).

(** What a node says apart from its links. *)
Definition node_data (ns : gmap Z suballocator) (id : Z) : option (Z * bitfield) :=
  (λ nd, (sa_base nd, sa_bitfield nd)) <$> ns !! id.

Lemma read_loc_head (st : ut_state) (s : Z) :
  is_list_size s → read_loc st (PoolHead s) = Ret (head_of st s).
Proof. by intros [-> | ->]. Qed.

Lemma write_loc_head (st : ut_state) (s : Z) (v : option Z) :
  is_list_size s → write_loc st (PoolHead s) v = Ret (relink st s v (nodes st)).
Proof. by intros [-> | ->]. Qed.

Lemma list_walk_spec (st : ut_state) (s : Z) (ids : list Z) (f : suballocator → bool)
    (m : nat) (k : nat) :
  list_rep st s ids → (k ≤ length ids < m + k)%nat →
  ∃ r, list_walk st f m (ids !! k) = Ret r ∧
    match r with
    | Some q => ∃ j nd, (k ≤ j)%nat ∧ ids !! j = Some q ∧ nodes st !! q = Some nd ∧ f nd = true
    | None => ∀ j q nd, (k ≤ j)%nat → ids !! j = Some q → nodes st !! q = Some nd → f nd = false
    end.
Proof.
  intros Hrep. revert k. induction m as [|m IH]; intros k Hm; simpl.
  { lia. }
  destruct (ids !! k) as [q|] eqn:Hk.
  - destruct (rep_node _ _ _ Hrep k q Hk) as (nd & Hnd & Hnext & _).
    unfold get_node. rewrite Hnd. simpl. destruct (f nd) eqn:Hf.
    + exists (Some q). split; [done |]. exists k, nd. split_and!; [lia | done ..].
    + rewrite Hnext. apply lookup_lt_Some in Hk as Hlt.
      destruct (IH (S k)) as (r & -> & Hr); [lia |].
      exists r. split; [done |]. destruct r as [q'|].
      * destruct Hr as (j & nd' & ? & ? & ? & ?). exists j, nd'.
        split_and!; [lia | done ..].
      * intros j q' nd' Hj Hj' Hnd'. destruct (decide (j = k)) as [-> |].
        -- congruence.
        -- eapply Hr; [| done | done]. lia.
  - exists None. split; [done |]. intros j q nd Hj Hq.
    apply lookup_lt_Some in Hq. apply lookup_ge_None in Hk. lia.
Qed.

Lemma list_rep_length (st : ut_state) (s : Z) (ids : list Z) :
  list_rep st s ids → NoDup ids → (length ids ≤ size (nodes st))%nat.
Proof.
  intros Hrep Hnd. rewrite <- (size_dom (D := gset Z)).
  rewrite <- (size_list_to_set (C := gset Z) ids Hnd).
  apply subseteq_size. intros id Hid. apply elem_of_list_to_set in Hid.
  apply list_elem_of_lookup in Hid as [k Hk].
  destruct (rep_node _ _ _ Hrep k id Hk) as (nd & Hnd' & _).
  by apply elem_of_dom_2 in Hnd'.
Qed.

(** A list is untouched by a change to other nodes. *)
Lemma list_rep_frame (st st' : ut_state) (s : Z) (ids : list Z) :
  head_of st' s = head_of st s →
  (∀ id, id ∈ ids → nodes st' !! id = nodes st !! id) →
  list_rep st s ids → list_rep st' s ids.
Proof.
  intros Hh Hn [H1 H2]. split; [congruence |].
  intros k id Hk. rewrite Hn; [by apply H2 | by eapply list_elem_of_lookup_2].
Qed.

Global Arguments upd_node : simpl never.

Lemma upd_node_spec (st : ut_state) (p : Z) (f : suballocator → suballocator) :
  is_Some (nodes st !! p) →
  upd_node st p f = Ret (with_nodes st (alter f p (nodes st))).
Proof.
  intros [n Hn]. unfold upd_node, get_node. rewrite Hn. simpl.
  unfold mret, outcome_ret. do 2 f_equal. apply map_eq. intros i.
  destruct (decide (i = p)) as [-> |].
  - by rewrite lookup_insert_eq, lookup_alter_eq, Hn.
  - by rewrite lookup_insert_ne, lookup_alter_ne by done.
Qed.

Lemma is_Some_alter (ns : gmap Z suballocator) (f : suballocator → suballocator) (p q : Z) :
  is_Some (ns !! q) → is_Some (alter f p ns !! q).
Proof.
  intros H. destruct (decide (q = p)) as [-> |].
  - rewrite lookup_alter_eq. by apply fmap_is_Some.
  - by rewrite lookup_alter_ne.
Qed.

#[export] Hint Resolve is_Some_alter : sos.

Lemma node_data_alter (ns : gmap Z suballocator) (f : suballocator → suballocator) (p q : Z) :
  (∀ n, sa_base (f n) = sa_base n ∧ sa_bitfield (f n) = sa_bitfield n) →
  node_data (alter f p ns) q = node_data ns q.
Proof.
  intros Hf. unfold node_data. destruct (decide (q = p)) as [-> |].
  - rewrite lookup_alter_eq. destruct (ns !! p); simpl; [| done].
    by destruct (Hf s) as [-> ->].
  - by rewrite lookup_alter_ne.
Qed.

(** Replacing the payload of a node keeps the links. *)
Lemma list_rep_payload (st : ut_state) (s id : Z) (ids : list Z) (bf : bitfield) :
  list_rep st s ids →
  list_rep (with_nodes st (alter (sa_set_bitfield bf) id (nodes st))) s ids.
Proof.
  intros [H1 H2]. split; [done |].
  intros k q Hk. destruct (H2 k q Hk) as (m & Hm & Hmn & Hmp). simpl.
  destruct (decide (q = id)) as [-> |].
  - rewrite lookup_alter_eq, Hm. eexists. split_and!; [done .. | done].
  - rewrite lookup_alter_ne by done. eauto.
Qed.

Lemma NoDup_lookup_ne (ids : list Z) (i j : nat) (a b : Z) :
  NoDup ids → ids !! i = Some a → ids !! j = Some b → i ≠ j → a ≠ b.
Proof. intros Hn Hi Hj Hne ->. by apply Hne, (NoDup_lookup ids i j b). Qed.

Lemma pool_list_attach_spec (st : ut_state) (s q : Z) (ids : list Z) (nd : suballocator) :
  is_list_size s → list_rep st s ids → NoDup (q :: ids) →
  nodes st !! q = Some nd → sa_prev nd = None → sa_next nd = None →
  ∃ ns, pool_list_attach st (PoolHead s) q = Ret (relink st s (Some q) ns) ∧
    list_rep (relink st s (Some q) ns) s (q :: ids) ∧
    (∀ id, node_data ns id = node_data (nodes st) id) ∧
    (∀ id, id ∉ q :: ids → ns !! id = nodes st !! id).
Proof.
  intros Hs [Hh Hn] Hdup Hq Hp Hx.
  unfold pool_list_attach. unfold get_node at 1. rewrite Hq. simpl.
  rewrite Hx, Hp. simpl. rewrite read_loc_head, Hh by done. simpl.
  rewrite upd_node_spec by eauto. simpl.
  set (ns1 := match ids !! 0%nat with
              | Some x => alter (sa_set_prev (Some (NextOf q))) x
              | None => id end (alter (sa_set_next (ids !! 0%nat)) q (nodes st))).
  assert (match ids !! 0%nat with
          | Some next => upd_node (with_nodes st (alter (sa_set_next (ids !! 0%nat)) q (nodes st)))
              next (sa_set_prev (Some (NextOf q)))
          | None => mret (with_nodes st (alter (sa_set_next (ids !! 0%nat)) q (nodes st)))
          end = Ret (with_nodes st ns1)) as E1.
  { unfold ns1. destruct (ids !! 0%nat) as [x|] eqn:E0; [| done].
    destruct (Hn 0%nat x E0) as (m & Hm & _). apply upd_node_spec. simpl. eauto with sos. }
  rewrite E1. simpl.
  assert (is_Some (ns1 !! q)) as Hsq.
  { unfold ns1. destruct (ids !! 0%nat); simpl; eauto with sos. }
  rewrite upd_node_spec by done. simpl.
  rewrite write_loc_head by done. simpl. eexists. split; [done |]. split_and!.
  - split; [by destruct Hs as [-> | ->] |].
    intros [|k] id Hk; simpl in *.
    + injection Hk as <-. rewrite lookup_alter_eq. unfold ns1.
      destruct (ids !! 0%nat) as [x|] eqn:E0; simpl.
      * assert (q ≠ x) by (eapply (NoDup_lookup_ne (q :: ids) 0 1); eauto).
        rewrite lookup_alter_ne, lookup_alter_eq, Hq by done. simpl. eauto.
      * rewrite lookup_alter_eq, Hq. simpl. eauto.
    + assert (id ≠ q) by (eapply (NoDup_lookup_ne (q :: ids) (S k) 0); eauto).
      rewrite lookup_alter_ne by done. unfold ns1.
      destruct (Hn k id Hk) as (m & Hm & Hmn & Hmp). destruct k as [|k]; simpl.
      * rewrite Hk. rewrite lookup_alter_eq, lookup_alter_ne, Hm by done. simpl. eauto.
      * destruct (ids !! 0%nat) as [x|] eqn:E0.
        2:{ apply lookup_ge_None in E0. apply lookup_lt_Some in Hk. lia. }
        assert (id ≠ x).
        { eapply (NoDup_lookup_ne (q :: ids) (S (S k)) 1); eauto. }
        rewrite !lookup_alter_ne, Hm by done. exists m. split_and!; [done | done |].
        rewrite Hmp. simpl. destruct (ids !! k) eqn:E; [done |].
        apply lookup_ge_None in E. apply lookup_lt_Some in Hk. lia.
  - intros id. rewrite node_data_alter by done. unfold ns1.
    destruct (ids !! 0%nat); simpl; by rewrite ?node_data_alter.
  - intros id Hid. rewrite lookup_alter_ne by set_solver. unfold ns1.
    destruct (ids !! 0%nat) as [x|] eqn:E0; simpl.
    + assert (x ∈ ids) by (by eapply list_elem_of_lookup_2).
      rewrite !lookup_alter_ne by set_solver. done.
    + rewrite lookup_alter_ne by set_solver. done.
Qed.

(** The nodes after [nd], at [q], has been taken out of its list. *)
Definition unlinked (ns : gmap Z suballocator) (q : Z) (nd : suballocator) :
    gmap Z suballocator :=
  let ns := match sa_next nd with
            | Some x => alter (sa_set_prev (sa_prev nd)) x ns
            | None => ns
            end in
  let ns := match sa_prev nd with
            | Some (NextOf p) => alter (sa_set_next (sa_next nd)) p ns
            | _ => ns
            end in
  alter (sa_set_next None) q (alter (sa_set_prev None) q ns).

Lemma pool_list_detach_writes (st : ut_state) (s q : Z) (ids : list Z) (k : nat)
    (nd : suballocator) :
  is_list_size s → list_rep st s ids → NoDup ids → ids !! k = Some q →
  nodes st !! q = Some nd →
  pool_list_detach st q =
    Ret (relink st s (if decide (k = 0%nat) then ids !! 1%nat else head_of st s)
           (unlinked (nodes st) q nd)).
Proof.
  intros Hs [Hh Hn] Hdup Hk Hq.
  destruct (Hn k q Hk) as (nd' & Hq' & Hnext & Hprev). simplify_eq.
  unfold pool_list_detach, unlinked. unfold get_node at 1. rewrite Hq. simpl.
  rewrite Hprev, Hnext. simpl.
  assert (read_loc st (loc_at s ids k) = Ret (Some q)) as ->.
  { destruct k as [|k]; simpl; [by rewrite read_loc_head, Hh, Hk by done |].
    destruct (lookup_lt_is_Some_2 ids k) as [p Hp]; [apply lookup_lt_Some in Hk; lia |].
    rewrite Hp. unfold read_loc, get_node.
    destruct (Hn k p Hp) as (m & -> & Hm & _). simpl. by rewrite Hm, Hk. }
  simpl.
  assert (match ids !! S k with
          | Some next => upd_node st next (sa_set_prev (Some (loc_at s ids k)))
          | None => mret st end
    = Ret (with_nodes st match ids !! S k with
             | Some x => alter (sa_set_prev (Some (loc_at s ids k))) x (nodes st)
             | None => nodes st end)) as ->.
  { destruct (ids !! S k) as [x|] eqn:Ex; [| by destruct st].
    destruct (Hn (S k) x Ex) as (m & Hm & _). by apply upd_node_spec. }
  simpl. destruct k as [|k]; simpl.
  - rewrite write_loc_head by done. simpl.
    assert (∀ x, is_Some (match x with
       | Some x => alter (sa_set_prev (Some (PoolHead s))) x (nodes st)
       | None => nodes st end !! q)) as Hsome by (intros [x|]; eauto with sos).
    rewrite upd_node_spec by apply Hsome. simpl.
    rewrite upd_node_spec by (simpl; eauto with sos). by destruct Hs as [-> | ->].
  - destruct (lookup_lt_is_Some_2 ids k) as [p Hp]; [apply lookup_lt_Some in Hk; lia |].
    rewrite Hp. unfold write_loc.
    destruct (Hn k p Hp) as (m & Hm & _).
    destruct (ids !! S (S k)) as [x|]; simpl.
    all: rewrite upd_node_spec by (simpl; eauto with sos); simpl;
      rewrite upd_node_spec by (simpl; eauto with sos); simpl;
      rewrite upd_node_spec by (simpl; eauto with sos);
      by destruct Hs as [-> | ->].
Qed.

Lemma node_data_unlinked (ns : gmap Z suballocator) (q id : Z) (nd : suballocator) :
  node_data (unlinked ns q nd) id = node_data ns id.
Proof.
  unfold unlinked. rewrite !node_data_alter by done.
  destruct (sa_prev nd) as [[]|], (sa_next nd); by rewrite ?node_data_alter.
Qed.

Lemma unlinked_lookup (ns : gmap Z suballocator) (q id : Z) (nd m : suballocator) :
  id ≠ q → ns !! id = Some m →
  unlinked ns q nd !! id = Some
    (mk_suballocator
       (if decide (sa_next nd = Some id) then sa_prev nd else sa_prev m)
       (if decide (sa_prev nd = Some (NextOf id)) then sa_next nd else sa_next m)
       (sa_base m) (sa_bitfield m)).
Proof.
  intros Hne Hm. unfold unlinked. rewrite !lookup_alter_ne by done.
  assert (match sa_next nd with
          | Some x => alter (sa_set_prev (sa_prev nd)) x ns | None => ns end !! id =
     Some (mk_suballocator (if decide (sa_next nd = Some id) then sa_prev nd else sa_prev m)
             (sa_next m) (sa_base m) (sa_bitfield m))) as H1.
  { destruct (sa_next nd) as [x|]; [| by destruct m].
    case_decide as Hd; [simplify_eq; by rewrite lookup_alter_eq, Hm |].
    rewrite lookup_alter_ne, Hm by congruence. by destruct m. }
  destruct (sa_prev nd) as [[s|p]|]; [exact H1 | | exact H1].
  destruct (decide (Some (NextOf p) = Some (NextOf id))) as [Hd | Hd];
    [simplify_eq; by rewrite lookup_alter_eq, H1 |].
  rewrite lookup_alter_ne by congruence. done.
Qed.

Lemma loc_at_inj (s id : Z) (ids : list Z) (k : nat) :
  loc_at s ids k = NextOf id → ∃ j, k = S j ∧ ids !! j = Some id.
Proof.
  destruct k as [|k]; simpl; [done |]. destruct (ids !! k) eqn:E; [| done].
  intros [= ->]. eauto.
Qed.

Lemma pool_list_detach_spec (st : ut_state) (s q : Z) (ids : list Z) (k : nat) :
  is_list_size s → list_rep st s ids → NoDup ids → ids !! k = Some q →
  ∃ h ns, pool_list_detach st q = Ret (relink st s h ns) ∧
    list_rep (relink st s h ns) s (delete k ids) ∧
    (∀ id, node_data ns id = node_data (nodes st) id) ∧
    (∀ id, id ∉ ids → ns !! id = nodes st !! id).
Proof.
  intros Hs Hrep Hdup Hk. pose proof Hrep as [Hh Hn].
  destruct (Hn k q Hk) as (nd & Hq & Hnext & Hprev).
  rewrite (pool_list_detach_writes st s q ids k nd) by done.
  eexists _, _. split; [done |]. split_and!.
  - split.
    { replace (head_of _ s) with (if decide (k = 0%nat) then ids !! 1%nat else head_of st s)
        by (by destruct Hs as [-> | ->]).
      case_decide; subst; [by destruct ids |]. rewrite Hh.
      by rewrite list_lookup_delete_lt by lia. }
    intros j id Hj. simpl.
    assert (∃ j', ids !! j' = Some id ∧
              ((j < k ∧ j' = j) ∨ (k ≤ j ∧ j' = S j))%nat) as (j' & Hj' & Hjk).
    { destruct (decide (j < k)%nat); [rewrite list_lookup_delete_lt in Hj by lia; exists j |
        rewrite list_lookup_delete_ge in Hj by lia; exists (S j)]; split; (done || lia). }
    assert (id ≠ q) by (eapply (NoDup_lookup_ne ids j' k); eauto; lia).
    destruct (Hn j' id Hj') as (m & Hm & Hmn & Hmp).
    rewrite (unlinked_lookup _ _ _ _ m) by done. eexists. split; [done |]. simpl.
    rewrite Hnext, Hprev, Hmn, Hmp.
    assert (ids !! S k = Some id ↔ j' = S k) as Hsk.
    { split; [intros E; by eapply NoDup_lookup | by intros <-]. }
    assert (loc_at s ids k = NextOf id ↔ k = S j') as Hpk.
    { split; [intros (i & -> & Hi)%loc_at_inj; f_equal; by eapply NoDup_lookup |].
      intros ->. simpl. by rewrite Hj'. }
    split.
    + destruct (decide (Some (loc_at s ids k) = Some (NextOf id))) as [[= E] | E].
      * apply Hpk in E as ->. destruct Hjk as [[? ->] | [? ->]]; [| lia].
        by rewrite list_lookup_delete_ge by lia.
      * assert (k ≠ S j') by (intros Ek; apply E; f_equal; by apply Hpk).
        destruct Hjk as [[? ->] | [? ->]];
          [rewrite list_lookup_delete_lt by lia | rewrite list_lookup_delete_ge by lia]; done.
    + destruct (decide (ids !! S k = Some id)) as [E | E].
      * apply Hsk in E. assert (j = k) as -> by lia.
        f_equal. destruct k as [|k]; simpl; [done |].
        by rewrite list_lookup_delete_lt by lia.
      * assert (j' ≠ S k) by (intros Ek; by apply E, Hsk).
        f_equal. destruct Hjk as [[? ->] | [? ->]];
          (destruct j as [|j]; simpl; [done || lia |]).
        -- by rewrite list_lookup_delete_lt by lia.
        -- by rewrite list_lookup_delete_ge by lia.
  - intros. apply node_data_unlinked.
  - intros id Hid. destruct (nodes st !! id) as [m|] eqn:Hm.
    + assert (id ≠ q) by (intros ->; apply Hid; by eapply list_elem_of_lookup_2).
      rewrite (unlinked_lookup _ _ _ _ m) by done. rewrite !decide_False; [by destruct m | |].
      * rewrite Hprev. intros [= (i & -> & Hi)%loc_at_inj]. apply Hid. by eapply list_elem_of_lookup_2.
      * rewrite Hnext. intros E. apply Hid. by eapply list_elem_of_lookup_2.
    + pose proof (node_data_unlinked (nodes st) q id nd) as E. unfold node_data in E.
      rewrite Hm in E. simpl in E. by apply fmap_None in E.
Qed.

(** * Bitfield pools *)

(** The sizes that own a bitfield pool below the primary one. *)
Definition is_sub_size (s : Z) : Prop := s = 10 ∨ s = 12.

(** How many blocks of size [s] a slab holds. *)
Definition per_slab (s : Z) : Z := 2 ^ (14 - s).

Definition upd (ow : Z → Z) (i t j : Z) : Z := if decide (j = i) then t else ow j.

(** The pool of size [s] hands out blocks of the slabs that [s] owns only, and
    keeps no slab that is entirely free. *)
Record sub_ok (bf : bitfield) (n : Z) (ow : Z → Z) (s : Z) : Prop := {
  sub_wf : bf_wf bf;
  sub_size : bf_size bf = n * per_slab s;
  sub_owned : ∀ k, bf_free bf k = true → ow (k / per_slab s) = s;
  sub_used : ∀ i, 0 ≤ i < n → ow i = s →
    ∃ k, k / per_slab s = i ∧ bf_free bf k = false
}.

(** [ow i] is the size that slab [i] is split into, 0 when the slab is free. *)
Record pools_ok (st : ut_state) (n : Z) (ow : Z → Z) : Prop := {
  po_base : 0 < pool_base st ∧ pool_base st mod 2 ^ 14 = 0;
  po_range : 0 ≤ n ∧ pool_base st + n * 2 ^ 14 ≤ 2 ^ 32;
  po_14 : ∃ bf, get_pool st 14 = Ret bf ∧ bf_wf bf ∧ bf_size bf = n ∧
    bf_hint_ok bf ∧ ∀ k, 0 ≤ k < n → bf_free bf k = true ↔ ow k = 0;
  po_sub : ∀ s, is_sub_size s → ∃ bf, get_pool st s = Ret bf ∧ sub_ok bf n ow s
}.

Lemma get_set_pool (st : ut_state) (s s' : Z) (bf : bitfield) :
  s = 14 ∨ is_sub_size s →
  get_pool (set_pool st s bf) s' = if decide (s' = s) then Ret bf else get_pool st s'.
Proof.
  intros Hs. unfold get_pool, set_pool. simpl.
  destruct Hs as [-> | [-> | ->]]; simpl;
    case_decide; subst; simpl; try done;
    bdestruct (s' =? 14); simpl; try done; bdestruct (s' =? 12); simpl; try done;
    bdestruct (s' =? 10); simpl; done.
Qed.

Lemma set_pool_same (st : ut_state) (s : Z) (bf : bitfield) :
  s = 14 ∨ is_sub_size s → get_pool st s = Ret bf → set_pool st s bf = st.
Proof.
  unfold get_pool, set_pool. destruct st as [p14 p12 p10 p9 p4 i b ns f ms].
  intros [-> | [-> | ->]]; simpl.
  - by destruct p14; simpl; intros [= ->].
  - by destruct p10; simpl; intros [= ->].
  - by destruct p12; simpl; intros [= ->].
Qed.

Lemma set_pool_twice (st : ut_state) (s : Z) (b1 b2 : bitfield) :
  set_pool (set_pool st s b1) s b2 = set_pool st s b2.
Proof. unfold set_pool. simpl. f_equal; by destruct (Z.eqb _ _). Qed.

Lemma set_pool_proj (st : ut_state) (s : Z) (bf : bitfield) :
  pool_base (set_pool st s bf) = pool_base st ∧ nodes (set_pool st s bf) = nodes st ∧
  pool9 (set_pool st s bf) = pool9 st ∧ pool4 (set_pool st s bf) = pool4 st ∧
  fresh (set_pool st s bf) = fresh st ∧ initialised (set_pool st s bf) = initialised st.
Proof. done. Qed.

Lemma shiftl_1 (k : Z) : 0 ≤ k → Z.shiftl 1 k = 2 ^ k.
Proof. intros. by rewrite Z.shiftl_1_l. Qed.

Lemma shiftl_mul (a k : Z) : 0 ≤ k → Z.shiftl a k = a * 2 ^ k.
Proof. intros. by rewrite Z.shiftl_mul_pow2. Qed.

Lemma shiftr_div (a k : Z) : 0 ≤ k → Z.shiftr a k = a / 2 ^ k.
Proof. intros. by rewrite Z.shiftr_div_pow2. Qed.

(** Taking a slab from the primary pool. *)
Lemma alloc14_spec (st : ut_state) (n : Z) (ow : Z → Z) :
  pools_ok st n ow →
  (do_ut_alloc_from_bitfield st 14 = Ret (0, st) ∧ ∀ i, 0 ≤ i < n → ow i ≠ 0) ∨
  (∃ i p14, 0 ≤ i < n ∧ ow i = 0 ∧
     do_ut_alloc_from_bitfield st 14 =
       Ret (pool_base st + i * 2 ^ 14, set_pool st 14 p14) ∧
     ∀ t, t ≠ 0 → ¬ is_sub_size t → pools_ok (set_pool st 14 p14) n (upd ow i t)).
Proof.
  intros [[Hb1 Hb2] [Hn1 Hn2] (bf & Hg & Hwf & Hsz & Hh & Hf) Hsub].
  unfold do_ut_alloc_from_bitfield. rewrite Hg. simpl.
  destruct (bf_set_next_free_spec bf Hwf Hh) as (off & bf' & E & [Hno | Hyes]);
    rewrite E; simpl.
  - left. destruct Hno as (-> & -> & Hnone). simpl.
    rewrite (set_pool_same st 14 bf) by tauto. unfold bitfield_fill_pool. simpl.
    rewrite E. simpl. rewrite (set_pool_same st 14 bf) by tauto.
    split; [done |]. intros i Hi H0. apply Hf in H0; [| done]. by rewrite Hnone in H0.
  - right. destruct Hyes as (Hr & Hoff & Hwf' & Hh' & Hs' & Ha' & Hf').
    replace (off =? -1) with false by (symmetry; apply Z.eqb_neq; lia). simpl.
    exists off, bf'. split_and!; [lia | lia | apply Hf; [lia | done] | |].
    + destruct (Z.eqb_spec off (-1)); [lia |]. rewrite shiftl_mul by lia.
      change (pool_base (set_pool st 14 bf')) with (pool_base st).
      rewrite u32_small by lia. by rewrite Z.add_comm.
    + intros t Ht Hts. split; [done | done | |].
      * exists bf'. rewrite get_set_pool, decide_True by tauto.
        split_and!; [done | done | lia | done |].
        intros k Hk. rewrite Hf'. unfold upd.
        case_decide; [split; [done | lia] | by apply Hf].
      * intros s Hs. rewrite get_set_pool, decide_False by (tauto || destruct Hs; lia).
        destruct (Hsub s Hs) as (b & Hgb & [W1 W2 W3 W4]). exists b. split; [done |].
        assert (ow off = 0) as H0 by (apply Hf; [lia | done]).
        split; [done | done | |].
        -- intros k Hk. unfold upd. case_decide as Hd; [| by apply W3].
           apply W3 in Hk. rewrite Hd, H0 in Hk. destruct Hs; lia.
        -- intros i Hi. unfold upd. case_decide; [intros ->; done | by apply W4].
Qed.

(** The offset that the free routines compute from an address. *)
Lemma block_offset (base k s : Z) :
  1 ≤ s → 0 ≤ k → k * 2 ^ s < 2 ^ 32 →
  i32 (Z.shiftr (u32 (base + k * 2 ^ s - base)) s) = k.
Proof.
  intros Hs Hk Hlt. replace (base + k * 2 ^ s - base) with (k * 2 ^ s) by lia.
  assert (2 ^ 1 ≤ 2 ^ s) by (apply Z.pow_le_mono_r; lia).
  rewrite u32_small, shiftr_div by nia. rewrite Z.div_mul by lia.
  apply i32_small. split; [lia | nia].
Qed.

(** Giving a slab back to the primary pool. *)
Lemma free14_spec (st : ut_state) (n i : Z) (ow : Z → Z) :
  pools_ok st n ow → 0 ≤ i < n → ow i ≠ 0 → ¬ is_sub_size (ow i) →
  ∃ p14, do_ut_free_from_bitfield st (pool_base st + i * 2 ^ 14) 14 =
      Ret (set_pool st 14 p14) ∧
    pools_ok (set_pool st 14 p14) n (upd ow i 0).
Proof.
  intros [[Hb1 Hb2] [Hn1 Hn2] (bf & Hg & Hwf & Hsz & Hh & Hf) Hsub] Hi H0 Hns.
  unfold do_ut_free_from_bitfield. rewrite Hg, block_offset by lia. simpl.
  destruct (bf_clr_spec bf Hwf i) as (p14 & -> & Hwf' & Hs' & Hn' & _ & _ & Hf').
  { lia. }
  { apply not_true_iff_false. intros Ht. by apply Hf in Ht. }
  exists p14. split; [done |]. split; [done | done | |].
  - exists p14. rewrite get_set_pool, decide_True by tauto.
    split_and!; [done | done | lia | unfold bf_hint_ok in *; lia |].
    intros k Hk. rewrite Hf'. unfold upd. case_decide; [done | by apply Hf].
  - intros s Hs. rewrite get_set_pool, decide_False by (tauto || destruct Hs; lia).
    destruct (Hsub s Hs) as (b & Hgb & [W1 W2 W3 W4]). exists b. split; [done |].
    split; [done | done | |].
    + intros k Hk. unfold upd. case_decide as Hd; [| by apply W3].
      apply W3 in Hk. rewrite Hd in Hk. by rewrite Hk in Hns.
    + intros j Hj. unfold upd. case_decide; [destruct Hs; lia | by apply W4].
Qed.

Lemma per_slab_cases (s : Z) :
  is_sub_size s → (s = 10 ∧ per_slab s = 16) ∨ (s = 12 ∧ per_slab s = 4).
Proof. intros [-> | ->]; [left | right]; done. Qed.

(** [_bitfield_fill_pool] on an exhausted pool. *)
Lemma fill_spec (st : ut_state) (n s : Z) (ow : Z → Z) (bf : bitfield) :
  pools_ok st n ow → is_sub_size s → get_pool st s = Ret bf →
  (∀ k, bf_free bf k = false) →
  (bitfield_fill_pool st s = Ret (set_pool st s (bf_with_next_free bf (-1))) ∧
     ∀ i, 0 ≤ i < n → ow i ≠ 0) ∨
  (∃ i p14 bf', 0 ≤ i < n ∧ ow i = 0 ∧
     bitfield_fill_pool st s = Ret (set_pool (set_pool st 14 p14) s bf') ∧
     (bf_wf p14 ∧ bf_size p14 = n ∧ bf_hint_ok p14 ∧
       ∀ k, 0 ≤ k < n → bf_free p14 k = true ↔ upd ow i s k = 0) ∧
     bf_wf bf' ∧ bf_size bf' = bf_size bf ∧ bf_hint_ok bf' ∧
     ∀ k, bf_free bf' k = bool_decide (k / per_slab s = i)).
Proof.
  intros [Hb [Hn1 Hn2] (b14 & Hg & Hwf & Hsz & Hh & Hf) Hsub] Hs Hgs Hnone.
  destruct (Hsub s Hs) as (b & Hb' & [W1 W2 W3 W4]).
  rewrite Hgs in Hb'. injection Hb' as <-.
  assert (s ≠ 14) as Hs14 by (destruct Hs; lia).
  unfold bitfield_fill_pool, PRIMARY_POOL_SIZEBITS.
  destruct (Z.eqb_spec s 14); [done |]. simpl. rewrite Hg. simpl.
  destruct (bf_set_next_free_spec b14 Hwf Hh) as (off & p14 & E & [Hno | Hyes]);
    rewrite E; simpl; rewrite get_set_pool, decide_False, Hgs by tauto; simpl.
  - left. destruct Hno as (-> & -> & Hn). simpl.
    rewrite (set_pool_same st 14 b14) by tauto.
    split; [done |]. intros i Hi H0. apply Hf in H0; [| done]. by rewrite Hn in H0.
  - right. destruct Hyes as (Hr & Hoff & Hwf' & Hh' & Hs' & Ha' & Hf').
    destruct (Z.eqb_spec off (-1)); [lia |]. simpl.
    rewrite shiftl_mul, shiftl_1 by (destruct Hs; lia). fold (per_slab s).
    pose proof (per_slab_cases s Hs) as Hr'. set (r := per_slab s) in *.
    destruct (bf_clr_range_spec (Z.to_nat r) bf (off * r))
      as (bf' & -> & Hwfb & Hsb & Hnb & Hab & Hfb); [done | nia | nia | done |].
    simpl. eexists off, p14, _.
    split_and!; [lia | lia | apply Hf; [lia | done] | done | done | lia | done | | | done | |].
    + intros k Hk. rewrite Hf'. unfold upd. case_decide; [split; [done | lia] | by apply Hf].
    + destruct Hwfb. by split.
    + unfold bf_hint_ok. simpl. nia.
    + intros k. change (bf_free bf' k = bool_decide (k / r = off)). rewrite Hfb, Hnone.
      case_decide; symmetry; [apply bool_decide_eq_true | apply bool_decide_eq_false];
        destruct Hr' as [[_ ->] | [_ ->]]; divmod.
Qed.

(** Offset [k] of pool [s] is a block that has been handed out. *)
Definition live_bit (bf : bitfield) (ow : Z → Z) (s k : Z) : Prop :=
  ow (k / per_slab s) = s ∧ bf_free bf k = false.

(** The search hint may be stale only while the pool is exhausted. *)
Definition hint_safe (bf : bitfield) : Prop := bf_hint_ok bf ∨ bf_available bf = 0.

(** What an allocation from pool [s] that succeeds does to the pools. *)
Record sub_alloc_post (st st' : ut_state) (n s off : Z) (ow ow' : Z → Z)
    (bf bf' p14 : bitfield) : Prop := {
  sap_off : 0 ≤ off < n * per_slab s;
  sap_state : st' = set_pool (set_pool st 14 p14) s bf';
  sap_ok : pools_ok st' n ow';
  sap_hint : bf_hint_ok bf';
  sap_new : ¬ live_bit bf ow s off;
  sap_live : ∀ k, 0 ≤ k < n * per_slab s →
    live_bit bf' ow' s k ↔ k = off ∨ live_bit bf ow s k;
  sap_ow : ∀ i t, t ≠ 0 → t ≠ s → ow' i = t ↔ ow i = t
}.

Lemma bf_set_next_free_exhausted (bf : bitfield) :
  bf_available bf = 0 → bf_set_next_free bf = Ret (-1, bf).
Proof. intros H. unfold bf_set_next_free. by rewrite H. Qed.

Lemma sub_alloc_direct (st : ut_state) (n s off : Z) (ow : Z → Z) (bf bf' p14 : bitfield) :
  pools_ok st n ow → is_sub_size s → get_pool st s = Ret bf → get_pool st 14 = Ret p14 →
  0 ≤ off < bf_size bf → bf_free bf off = true → bf_wf bf' → bf_hint_ok bf' →
  bf_size bf' = bf_size bf →
  (∀ i, bf_free bf' i = if decide (i = off) then false else bf_free bf i) →
  sub_alloc_post st (set_pool (set_pool st 14 p14) s bf') n s off ow ow bf bf' p14.
Proof.
  intros [Hb Hn H14 Hsub] Hs Hg Hg14 Hr Hoff Hwf' Hh' Hs' Hf'.
  destruct (Hsub s Hs) as (b & Hb' & [W1 W2 W3 W4]).
  rewrite Hg in Hb'. injection Hb' as <-.
  rewrite (set_pool_same st 14 p14) by tauto.
  assert (s ≠ 14) as Hs14 by (destruct Hs; lia).
  split; [lia | by rewrite (set_pool_same st 14 p14) by tauto | | done | | |].
  - split; [done | done | |].
    + destruct H14 as (b14 & H14). exists b14.
      by rewrite get_set_pool, decide_False by (tauto || lia).
    + intros t Ht. rewrite get_set_pool by tauto. case_decide as Hd; [| by apply Hsub].
      subst t. exists bf'. split; [done |]. split; [done | lia | |].
      * intros k. rewrite Hf'. case_decide; [done | apply W3].
      * intros i Hi Hi'. destruct (W4 i Hi Hi') as (k & Hk & Hkf). exists k.
        split; [done |]. rewrite Hf'. by case_decide.
  - intros [_ H]. congruence.
  - intros k Hk. unfold live_bit. rewrite Hf'. case_decide as Hd; [| tauto].
    subst k. split; [tauto |]. intros _. split; [by apply W3 | done].
  - done.
Qed.

Lemma sub_alloc_filled (st : ut_state) (n s i off : Z) (ow : Z → Z)
    (bf b1 bf' p14 : bitfield) :
  pools_ok st n ow → is_sub_size s → get_pool st s = Ret bf →
  (∀ k, bf_free bf k = false) →
  0 ≤ i < n → ow i = 0 →
  (bf_wf p14 ∧ bf_size p14 = n ∧ bf_hint_ok p14 ∧
    ∀ k, 0 ≤ k < n → bf_free p14 k = true ↔ upd ow i s k = 0) →
  bf_size b1 = bf_size bf →
  (∀ k, bf_free b1 k = bool_decide (k / per_slab s = i)) →
  0 ≤ off < bf_size b1 → bf_free b1 off = true → bf_wf bf' → bf_hint_ok bf' →
  bf_size bf' = bf_size b1 →
  (∀ k, bf_free bf' k = if decide (k = off) then false else bf_free b1 k) →
  sub_alloc_post st (set_pool (set_pool st 14 p14) s bf') n s off ow (upd ow i s) bf bf' p14.
Proof.
  intros [Hb Hn H14 Hsub] Hs Hg Hnone Hi H0 H14' Hs1 Hf1 Hr Hoff Hwf' Hh' Hs' Hf'.
  destruct (Hsub s Hs) as (b & Hb' & [W1 W2 W3 W4]).
  rewrite Hg in Hb'. injection Hb' as <-.
  assert (s ≠ 14 ∧ s ≠ 0) as [Hs14 Hs0] by (destruct Hs; lia).
  rewrite Hf1 in Hoff. apply bool_decide_eq_true in Hoff.
  split; [lia | done | | done | | |].
  - split; [done | done | |].
    + exists p14. rewrite get_set_pool, decide_False by (tauto || lia).
      by rewrite get_set_pool, decide_True by tauto.
    + intros t Ht. rewrite get_set_pool by tauto. case_decide as Hd.
      * subst t. exists bf'. split; [done |]. split; [done | lia | |].
        -- intros k. rewrite Hf'. case_decide; [done |]. rewrite Hf1.
           intros Hk%bool_decide_eq_true. unfold upd. by rewrite decide_True.
        -- intros j Hj. unfold upd. case_decide as Hji.
           ++ intros _. exists off. split; [congruence |]. by rewrite Hf', decide_True.
           ++ intros Hjs. destruct (W4 j Hj Hjs) as (k & Hk & _). exists k.
              split; [done |]. rewrite Hf', Hf1. case_decide; [done |].
              apply bool_decide_eq_false. congruence.
      * rewrite get_set_pool, decide_False by (tauto || destruct Ht; lia).
        destruct (Hsub t Ht) as (c & Hc & [V1 V2 V3 V4]). exists c. split; [done |].
        split; [done | done | |].
        -- intros k Hk. apply V3 in Hk. unfold upd.
           rewrite decide_False; [done |]. intros Hki. rewrite Hki in Hk. destruct Ht; lia.
        -- intros j Hj. unfold upd. case_decide; [done | by apply V4].
  - unfold live_bit. rewrite Hoff, H0. intros [? _]. lia.
  - intros k Hk. unfold live_bit, upd. rewrite Hf', Hf1, Hnone.
    destruct (decide (k = off)) as [-> | Hko]; [by rewrite decide_True by done; tauto |].
    case_decide as Hki.
    + rewrite bool_decide_eq_true_2 by done. rewrite Hki, H0. split; [by intros [] |].
      intros [? | [? _]]; [done | lia].
    + rewrite bool_decide_eq_false_2 by done. tauto.
  - intros j t Ht0 Hts. unfold upd. case_decide; [subst; split; lia | done].
Qed.

(** Allocation from [_pool12] or [_pool10], refilled from the primary pool. *)
Lemma alloc_sub_spec (st : ut_state) (n s : Z) (ow : Z → Z) (bf : bitfield) :
  pools_ok st n ow → is_sub_size s → get_pool st s = Ret bf → hint_safe bf →
  (do_ut_alloc_from_bitfield st s = Ret (0, set_pool st s (bf_with_next_free bf (-1))) ∧
     bf_available bf = 0 ∧ (∀ i, 0 ≤ i < n → ow i ≠ 0)) ∨
  (∃ off st' ow' bf' p14,
     do_ut_alloc_from_bitfield st s = Ret (pool_base st + off * 2 ^ s, st') ∧
     sub_alloc_post st st' n s off ow ow' bf bf' p14).
Proof.
  intros Hok Hs Hg Hsafe. pose proof Hok as [[Hb1 Hb2] [Hn1 Hn2] H14 Hsub].
  destruct (Hsub s Hs) as (b & Hb' & W). rewrite Hg in Hb'. injection Hb' as <-.
  pose proof W as [W1 W2 W3 W4].
  assert (∀ off, 0 ≤ off < n * per_slab s →
    u32 (Z.shiftl off s + pool_base st) = pool_base st + off * 2 ^ s) as Haddr.
  { intros off Ho. rewrite shiftl_mul by (destruct Hs; lia).
    rewrite u32_small; [lia |].
    destruct (per_slab_cases s Hs) as [[-> Hp] | [-> Hp]]; rewrite Hp in Ho; lia. }
  unfold do_ut_alloc_from_bitfield. rewrite Hg. simpl.
  assert ((∃ off bf', bf_set_next_free bf = Ret (off, bf') ∧ 0 ≤ off < bf_size bf ∧
      bf_free bf off = true ∧ bf_wf bf' ∧ bf_hint_ok bf' ∧ bf_size bf' = bf_size bf ∧
      ∀ i, bf_free bf' i = if decide (i = off) then false else bf_free bf i) ∨
    (bf_set_next_free bf = Ret (-1, bf) ∧ bf_available bf = 0)) as Hcase.
  { destruct (decide (bf_available bf = 0)) as [Hz | Hz].
    { right. split; [by apply bf_set_next_free_exhausted | done]. }
    left. destruct Hsafe as [Hh | ?]; [| done].
    destruct (bf_set_next_free_spec bf W1 Hh) as (off & bf' & E & [(-> & -> & Hnone) | Hyes]).
    - exfalso. apply Hz. rewrite (wf_available _ W1). apply countb_zero. auto.
    - exists off, bf'. tauto. }
  destruct Hcase as [(off & bf' & -> & Hr & Hoff & Hwf' & Hh' & Hs' & Hf') | (E & Hz)].
  - right. simpl. destruct (Z.eqb_spec off (-1)); [lia |]. simpl.
    destruct (Z.eqb_spec off (-1)); [lia |].
    destruct H14 as (p14 & Hg14 & _).
    eexists off, _, ow, bf', p14. split.
    + change (pool_base (set_pool st s bf')) with (pool_base st). rewrite Haddr by lia.
      replace (set_pool st s bf') with (set_pool (set_pool st 14 p14) s bf')
        by (by rewrite (set_pool_same st 14 p14) by tauto). done.
    + by apply sub_alloc_direct.
  - rewrite E. simpl. rewrite (set_pool_same st s bf) by tauto.
    assert (∀ k, bf_free bf k = false) as Hnone by (by apply bf_available_zero).
    destruct (fill_spec st n s ow bf Hok Hs Hg Hnone)
      as [[-> Hno] | (i & p14 & b1 & Hi & H0 & -> & H14' & Hwf1 & Hs1 & Hh1 & Hf1)]; simpl.
    + left. rewrite get_set_pool, decide_True by tauto. simpl.
      rewrite bf_set_next_free_exhausted by done. simpl.
      by rewrite set_pool_twice.
    + right. rewrite get_set_pool, decide_True by tauto. simpl.
      destruct (bf_set_next_free_spec b1 Hwf1 Hh1)
        as (off & bf' & -> & [(-> & -> & Hn) | (Hr & Hoff & Hwf' & Hh' & Hs' & Ha' & Hf')]).
      * exfalso. specialize (Hn (i * per_slab s)). rewrite Hf1 in Hn.
        apply bool_decide_eq_false in Hn. apply Hn, Z.div_mul.
        destruct (per_slab_cases s Hs) as [[_ ->] | [_ ->]]; lia.
      * simpl. destruct (Z.eqb_spec off (-1)); [lia |]. rewrite set_pool_twice.
        eexists off, _, (upd ow i s), bf', p14. split.
        -- change (pool_base (set_pool (set_pool st 14 p14) s bf')) with (pool_base st).
           by rewrite Haddr by lia.
        -- by apply (sub_alloc_filled st n s i off ow bf b1).
Qed.

Lemma bf_any_set_spec (bf : bitfield) (m : nat) (i : Z) :
  bf_wf bf → 0 ≤ i → i + Z.of_nat m ≤ bf_size bf →
  ∃ b, bf_any_set bf i m = Ret b ∧
    if b then ∃ k, i ≤ k < i + Z.of_nat m ∧ bf_free bf k = false
    else ∀ k, i ≤ k < i + Z.of_nat m → bf_free bf k = true.
Proof.
  intros Hwf. revert i. induction m as [|m IH]; intros i Hi Hm; simpl.
  { exists false. split; [done | lia]. }
  rewrite bf_get_spec; [| done | apply bf_size_le_bits; [done | lia]]. simpl.
  destruct (bf_free bf i) eqn:E; simpl.
  - destruct (IH (i + 1)) as (b & -> & Hb); [lia | lia |]. exists b. split; [done |].
    destruct b.
    + destruct Hb as (k & ? & ?). exists k. split; [lia | done].
    + intros k Hk. destruct (decide (k = i)) as [-> |]; [done | apply Hb; lia].
  - exists true. split; [done |]. exists i. split; [lia | done].
Qed.

(** What freeing offset [k] of pool [s] does to the pools. *)
Record sub_free_post (st st' : ut_state) (n s k : Z) (ow ow' : Z → Z)
    (bf bf' p14 : bitfield) : Prop := {
  sfp_state : st' = set_pool (set_pool st 14 p14) s bf';
  sfp_ok : pools_ok st' n ow';
  sfp_hint : bf_next_free bf' = bf_next_free bf;
  sfp_size : bf_size bf' = bf_size bf;
  sfp_live : ∀ j, 0 ≤ j < n * per_slab s →
    live_bit bf' ow' s j ↔ j ≠ k ∧ live_bit bf ow s j;
  sfp_ow : ∀ i t, t ≠ 0 → t ≠ s → ow' i = t ↔ ow i = t
}.

Lemma sub_free_kept (st : ut_state) (n s k j : Z) (ow : Z → Z) (bf b1 p14 : bitfield) :
  pools_ok st n ow → is_sub_size s → get_pool st s = Ret bf → get_pool st 14 = Ret p14 →
  0 ≤ k < n * per_slab s → live_bit bf ow s k →
  bf_wf b1 → bf_size b1 = bf_size bf → bf_next_free b1 = bf_next_free bf →
  (∀ i, bf_free b1 i = if decide (i = k) then true else bf_free bf i) →
  j / per_slab s = k / per_slab s → bf_free b1 j = false →
  sub_free_post st (set_pool (set_pool st 14 p14) s b1) n s k ow ow bf b1 p14.
Proof.
  intros [Hb Hn H14 Hsub] Hs Hg Hg14 Hk [Hlow Hlb] Hwf1 Hs1 Hn1 Hf1 Hjk Hj.
  destruct (Hsub s Hs) as (b & Hb' & [W1 W2 W3 W4]).
  rewrite Hg in Hb'. injection Hb' as <-.
  assert (s ≠ 14) as Hs14 by (destruct Hs; lia).
  split; [done | | done | done | | done].
  - split; [done | done | |].
    + destruct H14 as (c & Hc & H14). exists c. rewrite Hg14 in Hc. injection Hc as <-.
      rewrite get_set_pool, decide_False by (tauto || lia).
      by rewrite get_set_pool, decide_True by tauto.
    + intros t Ht. rewrite get_set_pool by tauto. case_decide as Hd; cycle 1.
      { rewrite get_set_pool, decide_False by (tauto || destruct Ht; lia). by apply Hsub. }
      subst t. exists b1. split; [done |]. split; [done | lia | |].
      * intros i. rewrite Hf1. case_decide; [by subst | apply W3].
      * intros i Hi Hio. destruct (decide (i = k / per_slab s)) as [-> |].
        { by exists j. }
        destruct (W4 i Hi Hio) as (m & Hm & Hmf). exists m. split; [done |].
        rewrite Hf1, decide_False by congruence. done.
  - intros i Hi. unfold live_bit. rewrite Hf1. case_decide; [| tauto].
    split; [by intros [_ ?] | by intros [? _]].
Qed.

Lemma sub_free_merged (st : ut_state) (n s k : Z) (ow : Z → Z) (bf b1 b2 b14 p14 : bitfield) :
  pools_ok st n ow → is_sub_size s → get_pool st s = Ret bf → get_pool st 14 = Ret b14 →
  0 ≤ k < n * per_slab s → live_bit bf ow s k →
  (∀ i, bf_free b1 i = if decide (i = k) then true else bf_free bf i) →
  bf_wf b2 → bf_size b2 = bf_size bf → bf_next_free b2 = bf_next_free bf →
  (∀ i, bf_free b2 i =
     if decide (i / per_slab s = k / per_slab s) then false else bf_free b1 i) →
  (∀ i, i / per_slab s = k / per_slab s → bf_free b1 i = true) →
  bf_wf p14 → bf_size p14 = n → bf_next_free p14 = bf_next_free b14 →
  (∀ i, bf_free p14 i = if decide (i = k / per_slab s) then true else bf_free b14 i) →
  sub_free_post st (set_pool (set_pool st 14 p14) s b2) n s k ow
    (upd ow (k / per_slab s) 0) bf b2 p14.
Proof.
  intros [Hb Hn H14 Hsub] Hs Hg Hg14 Hk [Hlow Hlb] Hf1 Hwf2 Hs2 Hn2 Hf2 Hall Hwf14 Hs14' Hn14 Hf14.
  destruct (Hsub s Hs) as (b & Hb' & [W1 W2 W3 W4]).
  rewrite Hg in Hb'. injection Hb' as <-.
  assert (s ≠ 14 ∧ s ≠ 0) as [Hs14 Hs0] by (destruct Hs; lia).
  split; [done | | done | done | |].
  - split; [done | done | |].
    + destruct H14 as (c & Hc & _ & Hcs & Hch & Hcf). rewrite Hg14 in Hc. injection Hc as <-.
      exists p14. rewrite get_set_pool, decide_False by (tauto || lia).
      rewrite get_set_pool, decide_True by tauto. unfold bf_hint_ok in *.
      split_and!; [done | done | done | lia | lia |].
      intros i Hi. rewrite Hf14. unfold upd. case_decide; [done | by apply Hcf].
    + intros t Ht. rewrite get_set_pool by tauto. case_decide as Hd.
      * subst t. exists b2. split; [done |]. split; [done | lia | |].
        -- intros i. rewrite Hf2. unfold upd. case_decide; [done |]. rewrite Hf1.
           case_decide; [congruence | apply W3].
        -- intros i Hi. unfold upd. case_decide as Hik; [done |]. intros Hio.
           destruct (W4 i Hi Hio) as (m & Hm & Hmf). exists m. split; [done |].
           rewrite Hf2, decide_False, Hf1, decide_False by congruence. done.
      * rewrite get_set_pool, decide_False by (tauto || destruct Ht; lia).
        destruct (Hsub t Ht) as (c & Hc & [V1 V2 V3 V4]). exists c. split; [done |].
        split; [done | done | |].
        -- intros i Hi. apply V3 in Hi. unfold upd. rewrite decide_False; [done |].
           intros E. rewrite E in Hi. congruence.
        -- intros i Hi. unfold upd. case_decide; [destruct Ht; lia | by apply V4].
  - intros i Hi. unfold live_bit, upd. rewrite Hf2. case_decide as Hik.
    + split; [intros [? _]; lia |]. intros (Hne & _ & Hfi). specialize (Hall i Hik).
      rewrite Hf1, decide_False in Hall by done. congruence.
    + rewrite Hf1, decide_False by congruence. split; [| tauto].
      intros [? ?]. split_and!; [congruence | done | done].
  - intros i t Ht0 Hts. unfold upd. case_decide; [subst; split; lia | done].
Qed.

(** Freeing a block of [_pool12] or [_pool10], merged up when its slab is free. *)
Lemma free_sub_spec (st : ut_state) (n s k : Z) (ow : Z → Z) (bf : bitfield) :
  pools_ok st n ow → is_sub_size s → get_pool st s = Ret bf →
  0 ≤ k < n * per_slab s → live_bit bf ow s k →
  ∃ st' ow' bf' p14, do_ut_free_from_bitfield st (pool_base st + k * 2 ^ s) s = Ret st' ∧
    sub_free_post st st' n s k ow ow' bf bf' p14.
Proof.
  intros Hok Hs Hg Hk Hlive. pose proof Hlive as [Hlow Hlb].
  pose proof Hok as [[Hb1 Hb2] [Hn1 Hn2] (b14 & Hg14 & Hwf14 & Hs14 & Hh14 & Hf14) Hsub].
  destruct (Hsub s Hs) as (b & Hb' & [W1 W2 W3 W4]).
  rewrite Hg in Hb'. injection Hb' as <-.
  pose proof (per_slab_cases s Hs) as Hrc.
  unfold do_ut_free_from_bitfield. rewrite Hg. simpl.
  rewrite block_offset by (destruct Hrc as [[-> Hr] | [-> Hr]]; rewrite Hr in Hk; lia).
  destruct (bf_clr_spec bf W1 k) as (b1 & -> & Hwf1 & Hs1 & Hnf1 & _ & _ & Hf1);
    [lia | done |]. simpl.
  unfold bitfield_merge_up, PRIMARY_POOL_SIZEBITS.
  destruct (Z.eqb_spec s 14); [destruct Hs; lia |]. simpl.
  rewrite get_set_pool, decide_True by tauto. simpl.
  rewrite shiftl_1 by (destruct Hs; lia). fold (per_slab s).
  set (r := per_slab s) in *.
  assert (Z.land k (Z.lnot (r - 1)) = r * (k / r)) as ->.
  { destruct Hrc as [[_ ->] | [_ ->]]; [apply (land_lnot_ones k 4) | apply (land_lnot_ones k 2)]; lia. }
  assert (Z.shiftr (r * (k / r)) (14 - s) = k / r) as ->.
  { rewrite shiftr_div by (destruct Hs; lia). fold (per_slab s). fold r.
    rewrite Z.mul_comm, Z.div_mul; [done |]. destruct Hrc as [[_ ->] | [_ ->]]; lia. }
  assert (0 < r ∧ r * (k / r) ≤ k < r * (k / r) + r ∧ 0 ≤ k / r < n) as (Hr0 & Hkr & Hkn).
  { destruct Hrc as [[_ Hr] | [_ Hr]]; rewrite Hr in *; divmod. }
  destruct (bf_any_set_spec b1 (Z.to_nat r) (r * (k / r)) Hwf1)
    as (used & -> & Hused); [nia | nia |]. simpl. destruct used.
  - destruct Hused as (j & Hj & Hjf).
    exists (set_pool (set_pool st 14 b14) s b1), ow, b1, b14. split.
    + by rewrite (set_pool_same st 14 b14) by tauto.
    + apply (sub_free_kept st n s k j ow bf b1 b14); try done. fold r.
      destruct Hrc as [[_ Hr] | [_ Hr]]; rewrite Hr in *; divmod.
  - destruct (bf_set_range_spec (Z.to_nat r) b1 (r * (k / r)) Hwf1)
      as (b2 & -> & Hwf2 & Hs2 & Hnf2 & _ & Hf2); [nia | nia | done |]. simpl.
    rewrite set_pool_twice, get_set_pool, decide_False by (tauto || lia).
    rewrite Hg14. simpl.
    destruct (bf_clr_spec b14 Hwf14 (k / r)) as (p14 & -> & Hwf' & Hs' & Hnf' & _ & _ & Hf').
    { lia. }
    { apply not_true_iff_false. intros Ht. apply Hf14 in Ht; [destruct Hs; lia | done]. }
    simpl. eexists _, (upd ow (k / r) 0), b2, p14. split.
    + done.
    + assert (∀ i, r * (k / r) ≤ i < r * (k / r) + Z.of_nat (Z.to_nat r) ↔ i / r = k / r) as Hrng.
      { intros i. destruct Hrc as [[_ Hr] | [_ Hr]]; rewrite Hr in *; divmod. }
      replace (set_pool (set_pool st s b2) 14 p14) with (set_pool (set_pool st 14 p14) s b2).
      2:{ unfold set_pool. simpl. f_equal; destruct Hs as [-> | ->]; done. }
      apply (sub_free_merged st n s k ow bf b1 b2 b14 p14); try done; fold r.
      * congruence.
      * congruence.
      * intros i. rewrite Hf2. pose proof (Hrng i). repeat case_decide; tauto.
      * intros i Hi. apply Hused, Hrng, Hi.
      * congruence.
Qed.

(** * Linked list pools *)

Definition upd_ids (ids : Z → list Z) (s : Z) (l : list Z) (t : Z) : list Z :=
  if decide (t = s) then l else ids t.

(** The two lists link exactly the nodes of the heap. *)
Record links_ok (st : ut_state) (ids : Z → list Z) : Prop := {
  lk_rep : ∀ s, is_list_size s → list_rep st s (ids s);
  lk_nodup : ∀ s, is_list_size s → NoDup (ids s);
  lk_disj : ∀ s t id, is_list_size s → is_list_size t → id ∈ ids s → id ∈ ids t → s = t;
  lk_dom : ∀ id, is_Some (nodes st !! id) → ∃ s, is_list_size s ∧ id ∈ ids s;
  lk_fresh : ∀ id, is_Some (nodes st !! id) → id < fresh st
}.

Record node_ok (base n : Z) (ow : Z → Z) (s i : Z) (bf : bitfield) : Prop := {
  nk_slab : 0 ≤ i < n;
  nk_owner : ow i = s;
  nk_wf : bf_wf bf;
  nk_size : bf_size bf = per_slab s;
  nk_hint : bf_hint_ok bf;
  nk_used : ∃ k, 0 ≤ k < per_slab s ∧ bf_free bf k = false
}.

(** Every slab that a list size owns has exactly one node. *)
Record data_ok (D : Z → option (Z * bitfield)) (base n : Z) (ow : Z → Z)
    (ids : Z → list Z) : Prop := {
  da_node : ∀ s id, is_list_size s → id ∈ ids s →
    ∃ i bf, D id = Some (base + i * 2 ^ 14, bf) ∧ node_ok base n ow s i bf;
  da_own : ∀ s i, is_list_size s → 0 ≤ i < n → ow i = s →
    ∃ id bf, id ∈ ids s ∧ D id = Some (base + i * 2 ^ 14, bf);
  da_inj : ∀ id id' b bf bf', D id = Some (b, bf) → D id' = Some (b, bf') → id = id'
}.

Record lists_ok (st : ut_state) (n : Z) (ow : Z → Z) (ids : Z → list Z) : Prop := {
  lo_links : links_ok st ids;
  lo_data : data_ok (node_data (nodes st)) (pool_base st) n ow ids
}.

(** Block [k] of slab [i] has been handed out by the list of size [s]. *)
Definition live_node (D : Z → option (Z * bitfield)) (base : Z) (ow : Z → Z)
    (s i k : Z) : Prop :=
  ow i = s ∧ ∃ id bf, D id = Some (base + i * 2 ^ 14, bf) ∧ bf_free bf k = false.

Lemma links_walk (st : ut_state) (ids : Z → list Z) (s : Z) (f : suballocator → bool) :
  links_ok st ids → is_list_size s →
  ∃ r, list_walk st f (walk_fuel st) (head_of st s) = Ret r ∧
    match r with
    | Some q => ∃ nd, q ∈ ids s ∧ nodes st !! q = Some nd ∧ f nd = true
    | None => ∀ q nd, q ∈ ids s → nodes st !! q = Some nd → f nd = false
    end.
Proof.
  intros Hl Hs. pose proof (lk_rep _ _ Hl s Hs) as Hrep.
  pose proof (list_rep_length _ _ _ Hrep (lk_nodup _ _ Hl s Hs)).
  destruct (list_walk_spec st s (ids s) f (walk_fuel st) 0 Hrep)
    as (r & Hr & Hspec); [unfold walk_fuel; lia |].
  rewrite (rep_head _ _ _ Hrep). exists r. split; [done |]. destruct r as [q|].
  - destruct Hspec as (j & nd & _ & Hj & Hnd & Hf). exists nd.
    split_and!; [by eapply list_elem_of_lookup_2 | done | done].
  - intros q nd Hq Hnd. apply list_elem_of_lookup in Hq as [j Hj].
    eapply (Hspec j); [lia | done | done].
Qed.

Lemma links_payload (st : ut_state) (ids : Z → list Z) (q : Z) (bf : bitfield) :
  links_ok st ids →
  links_ok (with_nodes st (alter (sa_set_bitfield bf) q (nodes st))) ids.
Proof.
  intros [H1 H2 H3 H4 H5]. assert (∀ id, is_Some (alter (sa_set_bitfield bf) q (nodes st) !! id) →
    is_Some (nodes st !! id)) as Hs.
  { intros id. destruct (decide (id = q)) as [-> |].
    - rewrite lookup_alter_eq. apply fmap_is_Some.
    - by rewrite lookup_alter_ne. }
  split; simpl; [| done | done | auto | auto].
  intros s Hl. by apply list_rep_payload, H1.
Qed.

Lemma node_data_payload (ns : gmap Z suballocator) (q b : Z) (bf bf' : bitfield) (id : Z) :
  node_data ns q = Some (b, bf) →
  node_data (alter (sa_set_bitfield bf') q ns) id =
    if decide (id = q) then Some (b, bf') else node_data ns id.
Proof.
  unfold node_data. intros Hq. case_decide; subst.
  - rewrite lookup_alter_eq. destruct (ns !! q); simpl in *; [| done]. by simplify_eq.
  - by rewrite lookup_alter_ne.
Qed.

Lemma head_of_relink (st : ut_state) (s t : Z) (h : option Z) (ns : gmap Z suballocator) :
  is_list_size s → is_list_size t →
  head_of (relink st s h ns) t = if decide (t = s) then h else head_of st t.
Proof. by intros [-> | ->] [-> | ->]. Qed.

(** Linking a new node. *)
Lemma links_attach (st : ut_state) (ids : Z → list Z) (s q : Z) (nd : suballocator) :
  links_ok (with_nodes st (delete q (nodes st))) ids → is_list_size s →
  nodes st !! q = Some nd → sa_prev nd = None → sa_next nd = None → q < fresh st →
  ∃ ns, pool_list_attach st (PoolHead s) q = Ret (relink st s (Some q) ns) ∧
    links_ok (relink st s (Some q) ns) (upd_ids ids s (q :: ids s)) ∧
    (∀ id, node_data ns id = node_data (nodes st) id).
Proof.
  intros [H1 H2 H3 H4 H5] Hs Hq Hp Hx Hfr. simpl in *.
  assert (∀ t id, is_list_size t → id ∈ ids t → id ≠ q ∧ is_Some (nodes st !! id)) as Hne.
  { intros t id Ht Hid. apply list_elem_of_lookup in Hid as [k Hk].
    destruct (rep_node _ _ _ (H1 t Ht) k id Hk) as (m & Hm & _). simpl in Hm.
    apply lookup_delete_Some in Hm as [? Hm]. rewrite Hm. eauto. }
  assert (∀ t, is_list_size t → list_rep st t (ids t)) as H1'.
  { intros t Ht. eapply list_rep_frame; [| | by apply H1]; [done |].
    intros id Hid. simpl. rewrite lookup_delete_ne; [done |].
    intros <-. by destruct (Hne t q Ht Hid). }
  destruct (pool_list_attach_spec st s q (ids s) nd) as (ns & -> & Hrep & Hd & Hu);
    [done | by apply H1' | | done .. |].
  { apply NoDup_cons. split; [| by apply H2]. intros Hin. by destruct (Hne s q Hs Hin). }
  exists ns. split_and!; [done | | done].
  assert (∀ id, is_Some (ns !! id) → id = q ∨ is_Some (delete q (nodes st) !! id)) as Hsome.
  { intros id Hid. destruct (decide (id = q)) as [-> | Hidq]; [by left | right].
    rewrite lookup_delete_ne by done. specialize (Hd id). unfold node_data in Hd.
    destruct Hid as [m Hm]. rewrite Hm in Hd. symmetry in Hd.
    apply fmap_Some in Hd as (m' & Hm' & _). eauto. }
  split; simpl.
  - intros t Ht. unfold upd_ids. case_decide as Hts; [by subst |].
    eapply list_rep_frame; [| | by apply H1'].
    + by rewrite head_of_relink, decide_False.
    + intros id Hid. apply Hu. intros [-> | Hid']%elem_of_cons.
      * by destruct (Hne t q Ht Hid).
      * by apply Hts, (H3 t s id).
  - intros t Ht. unfold upd_ids. case_decide; [subst | by apply H2].
    apply NoDup_cons. split; [| by apply H2]. intros Hin. by destruct (Hne s q Hs Hin).
  - intros t u id Ht Hu'. unfold upd_ids. repeat case_decide; subst; [done | | | by apply H3].
    + intros [-> | Hin]%elem_of_cons Hid; [by destruct (Hne u q Hu' Hid) | by eapply H3].
    + intros Hid [-> | Hin]%elem_of_cons; [by destruct (Hne t q Ht Hid) | by eapply H3].
  - intros id [-> | Hid]%Hsome.
    + exists s. split; [done |]. unfold upd_ids. rewrite decide_True by done. left.
    + destruct (H4 id Hid) as (t & Ht & Hin). exists t. split; [done |].
      unfold upd_ids. case_decide; [subst; by right | done].
  - intros id [-> | Hid]%Hsome; [done | by apply H5].
Qed.

(** Unlinking a node and freeing it. *)
Lemma links_detach (st : ut_state) (ids : Z → list Z) (s q : Z) :
  links_ok st ids → is_list_size s → q ∈ ids s →
  ∃ k h ns, ids s !! k = Some q ∧ pool_list_detach st q = Ret (relink st s h ns) ∧
    links_ok (relink st s h (delete q ns)) (upd_ids ids s (delete k (ids s))) ∧
    (∀ id, node_data ns id = node_data (nodes st) id).
Proof.
  intros [H1 H2 H3 H4 H5] Hs Hq. apply list_elem_of_lookup in Hq as [k Hk].
  destruct (pool_list_detach_spec st s q (ids s) k) as (h & ns & Hr & [R1 R2] & Hd & Hu);
    [done | by apply H1 | by apply H2 | done |].
  exists k, h, ns. split_and!; [done | done | | done].
  assert (∀ id, id ∈ delete k (ids s) ↔ id ∈ ids s ∧ id ≠ q) as Hdel.
  { intros id. pose proof (H2 s Hs) as Hn.
    rewrite (delete_Permutation (ids s) k q Hk) in Hn. apply NoDup_cons in Hn as [Hqn _].
    rewrite (delete_Permutation (ids s) k q Hk) at 2. rewrite elem_of_cons.
    split; [| tauto]. intros Hid. split; [by right | by intros ->]. }
  assert (∀ id, is_Some (delete q ns !! id) → id ≠ q ∧ is_Some (nodes st !! id)) as Hsome.
  { intros id [m Hm]. apply lookup_delete_Some in Hm as [Hne Hm]. split; [done |].
    specialize (Hd id). unfold node_data in Hd. rewrite Hm in Hd. symmetry in Hd.
    apply fmap_Some in Hd as (m' & Hm' & _). eauto. }
  split; simpl.
  - intros t Ht. unfold upd_ids. case_decide as Hts.
    + subst t. split; [exact R1 |]. intros j id Hj.
      destruct (R2 j id Hj) as (nd & Hnd & Hrest). exists nd. split; [| done].
      simpl in *. rewrite lookup_delete_ne; [done |]. intros <-.
      apply list_elem_of_lookup_2, Hdel in Hj. tauto.
    + eapply list_rep_frame; [| | by apply H1].
      * by rewrite head_of_relink, decide_False.
      * intros id Hid. simpl. rewrite lookup_delete_ne.
        -- apply Hu. intros Hid'. by apply Hts, (H3 t s id).
        -- intros <-. apply Hts, (H3 t s q); [done .. |]. by eapply list_elem_of_lookup_2.
  - intros t Ht. unfold upd_ids. case_decide; [| by apply H2].
    pose proof (H2 s Hs) as Hn. rewrite (delete_Permutation (ids s) k q Hk) in Hn.
    by apply NoDup_cons in Hn as [_ ?].
  - intros t u id Ht Hu'. unfold upd_ids. repeat case_decide; subst; [done | | | by apply H3];
      rewrite Hdel; [intros [? _] ? | intros ? [? _]]; by eapply H3.
  - intros id [Hne Hid]%Hsome. destruct (H4 id Hid) as (t & Ht & Hin). exists t.
    split; [done |]. unfold upd_ids. case_decide; [subst; by apply Hdel | done].
  - intros id [_ Hid]%Hsome. by apply H5.
Qed.

(** The nodes after one bitfield has changed. *)
Lemma data_payload (D D' : Z → option (Z * bitfield)) (base n : Z) (ow : Z → Z)
    (ids : Z → list Z) (s i q : Z) (bf bf' : bitfield) :
  data_ok D base n ow ids → is_list_size s → q ∈ ids s →
  D q = Some (base + i * 2 ^ 14, bf) → node_ok base n ow s i bf' →
  (∀ id, D' id = if decide (id = q) then Some (base + i * 2 ^ 14, bf') else D id) →
  data_ok D' base n ow ids.
Proof.
  intros [H1 H2 H3] Hs Hq HD Hok HD'. split.
  - intros t id Ht Hid. rewrite HD'. case_decide; [subst | by apply H1].
    exists i, bf'. split; [done |].
    destruct (H1 t q Ht Hid) as (i' & bf0 & HD2 & Hok'). rewrite HD in HD2.
    injection HD2 as Hi _. assert (i' = i) as -> by lia.
    destruct Hok, Hok'. assert (t = s) as -> by congruence. by split.
  - intros t j Ht Hj Hoj. destruct (H2 t j Ht Hj Hoj) as (id & b & Hid & HDj).
    destruct (decide (id = q)) as [-> | Hne].
    + exists q, bf'. split; [done |]. rewrite HD', decide_True by done. congruence.
    + exists id, b. by rewrite HD', decide_False.
  - intros id id' b b1 b2. rewrite !HD'. repeat case_decide; subst; [done | | | apply H3].
    + intros [= <- <-] HD2. by eapply H3.
    + intros HD2 [= <- <-]. by eapply H3.
Qed.

(** A new node for slab [i]. *)
Lemma data_attach (D D' : Z → option (Z * bitfield)) (base n : Z) (ow : Z → Z)
    (ids : Z → list Z) (s i q : Z) (bf : bitfield) :
  data_ok D base n ow ids → is_list_size s → ow i = 0 →
  (∀ id, is_Some (D id) → ∃ t, is_list_size t ∧ id ∈ ids t) →
  D q = None → node_ok base n (upd ow i s) s i bf →
  (∀ id, D' id = if decide (id = q) then Some (base + i * 2 ^ 14, bf) else D id) →
  data_ok D' base n (upd ow i s) (upd_ids ids s (q :: ids s)).
Proof.
  intros [H1 H2 H3] Hs H0 Hdom Hq Hok HD'.
  assert (∀ id b bf0, D id = Some (b, bf0) → b ≠ base + i * 2 ^ 14) as Hnew.
  { intros id b bf0 HD ->. destruct (Hdom id) as (t & Ht & Hid); [eauto |].
    destruct (H1 t id Ht Hid) as (i' & b' & HD2 & [_ Ho _ _ _ _]).
    rewrite HD in HD2. injection HD2 as Hi _. assert (i' = i) as -> by lia.
    destruct Ht; lia. }
  assert (∀ t id, is_list_size t → id ∈ ids t → id ≠ q) as Hne.
  { intros t id Ht Hid ->. destruct (H1 t q Ht Hid) as (? & ? & ? & _). congruence. }
  split.
  - intros t id Ht Hid. unfold upd_ids in Hid. rewrite HD'.
    destruct (decide (id = q)) as [-> | Hq'].
    + exists i, bf. split; [done |]. case_decide; [by subst |].
      exfalso. by apply (Hne t q).
    + assert (id ∈ ids t) as Hid'.
      { case_decide; [| done]. subst. by apply elem_of_cons in Hid as [? | ?]. }
      destruct (H1 t id Ht Hid') as (j & b & HD & [K1 K2 K3 K4 K5 K6]).
      exists j, b. split; [done |]. split; try done. unfold upd.
      rewrite decide_False; [done |]. intros ->. by eapply Hnew.
  - intros t j Ht Hj. unfold upd, upd_ids. destruct (decide (j = i)) as [-> | Hji].
    + intros <-. exists q, bf. rewrite decide_True by done.
      split; [left | by rewrite HD', decide_True].
    + intros Hoj. destruct (H2 t j Ht Hj Hoj) as (id & b & Hid & HDj). exists id, b.
      rewrite HD', (decide_False (P := id = q)) by (by apply (Hne t)). split; [| done].
      case_decide; [subst; by right | done].
  - intros id id' b b1 b2. rewrite !HD'. repeat case_decide; subst; [done | | | apply H3].
    + intros [= <- <-] HD2. by apply Hnew in HD2.
    + intros HD2 [= <- <-]. by apply Hnew in HD2.
Qed.

(** The node of slab [i] is gone. *)
Lemma data_detach (D D' : Z → option (Z * bitfield)) (base n : Z) (ow : Z → Z)
    (ids : Z → list Z) (s i q : Z) (k : nat) (bf : bitfield) :
  data_ok D base n ow ids → is_list_size s → ids s !! k = Some q → NoDup (ids s) →
  D q = Some (base + i * 2 ^ 14, bf) →
  (∀ t, is_list_size t → q ∈ ids t → s = t) →
  (∀ id, D' id = if decide (id = q) then None else D id) →
  data_ok D' base n (upd ow i 0) (upd_ids ids s (delete k (ids s))).
Proof.
  intros [H1 H2 H3] Hs Hk Hn HD Huniq HD'.
  assert (∀ id, id ∈ delete k (ids s) ↔ id ∈ ids s ∧ id ≠ q) as Hdel.
  { intros id. rewrite (delete_Permutation (ids s) k q Hk) in Hn.
    apply NoDup_cons in Hn as [Hqn _].
    rewrite (delete_Permutation (ids s) k q Hk) at 2. rewrite elem_of_cons.
    split; [| tauto]. intros Hid. split; [by right | by intros ->]. }
  split.
  - intros t id Ht Hid. assert (id ∈ ids t ∧ id ≠ q) as [Hid' Hne].
    { unfold upd_ids in Hid. case_decide; [subst; by apply Hdel |].
      split; [done |]. intros ->. by apply Huniq in Hid. }
    rewrite HD', decide_False by done.
    destruct (H1 t id Ht Hid') as (j & b & HDj & [K1 K2 K3 K4 K5 K6]).
    exists j, b. split; [done |]. split; try done. unfold upd.
    rewrite decide_False; [done |]. intros ->. apply Hne. by eapply H3.
  - intros t j Ht Hj. unfold upd, upd_ids. destruct (decide (j = i)) as [-> | Hji].
    + intros <-. destruct Ht; lia.
    + intros Hoj. destruct (H2 t j Ht Hj Hoj) as (id & b & Hid & HDj). exists id, b.
      assert (id ≠ q). { intros ->. apply Hji. rewrite HD in HDj. injection HDj. lia. }
      rewrite HD', (decide_False (P := id = q)) by done. split; [| done].
      case_decide; [subst; by apply Hdel | done].
  - intros id id' b b1 b2. rewrite !HD'. repeat case_decide; try done. apply H3.
Qed.

Lemma pools_ok_frame (st st' : ut_state) (n : Z) (ow ow' : Z → Z) :
  pool14 st' = pool14 st → pool12 st' = pool12 st → pool10 st' = pool10 st →
  pool_base st' = pool_base st → (∀ i, ow' i = ow i) →
  pools_ok st n ow → pools_ok st' n ow'.
Proof.
  intros E1 E2 E3 E4 Eo [Hb Hn (bf & Hg & Hr) Hsub].
  assert (∀ s, get_pool st' s = get_pool st s) as Eg.
  { intros s. unfold get_pool. by rewrite E1, E2, E3. }
  split.
  - by rewrite E4.
  - by rewrite E4.
  - exists bf. rewrite Eg. split; [done |]. destruct Hr as (? & ? & ? & Hf).
    split_and!; [done .. |]. intros k Hk. rewrite Eo. by apply Hf.
  - intros s Hs. rewrite Eg. destruct (Hsub s Hs) as (b & Hb' & [W1 W2 W3 W4]).
    exists b. split; [done |]. split; [done | done | |].
    + intros k Hk. rewrite Eo. by apply W3.
    + intros i Hi. rewrite Eo. by apply W4.
Qed.

Lemma list_per_slab (s : Z) :
  is_list_size s → (s = 9 ∧ per_slab s = 32) ∨ (s = 4 ∧ per_slab s = 1024).
Proof. intros [-> | ->]; [left | right]; done. Qed.

(** The parts of the state that the list pools and the primary pool leave alone. *)
Record rest_same (st st' : ut_state) : Prop := {
  rs_12 : pool12 st' = pool12 st;
  rs_10 : pool10 st' = pool10 st;
  rs_base : pool_base st' = pool_base st;
  rs_init : initialised st' = initialised st
}.

Lemma rest_same_set14 (st : ut_state) (bf : bitfield) : rest_same st (set_pool st 14 bf).
Proof. by split. Qed.

(** Two states that differ in the pending answers of [malloc] only. *)
Definition malloc_eq (st st' : ut_state) : Prop :=
  ∃ ms, st' = mk_ut (pool14 st) (pool12 st) (pool10 st) (pool9 st) (pool4 st)
          (initialised st) (pool_base st) (nodes st) (fresh st) ms.

Lemma malloc_eq_trans (s1 s2 s3 : ut_state) :
  malloc_eq s1 s2 → malloc_eq s2 s3 → malloc_eq s1 s3.
Proof. intros [m1 ->] [m2 ->]. by exists m2. Qed.

Lemma malloc_spec (st st' : ut_state) (b : bool) : malloc st = (b, st') → malloc_eq st st'.
Proof. unfold malloc. intros [= _ <-]. by eexists. Qed.

(** The slab goes back to the primary pool after a failed [malloc]. *)
Lemma suballocator_undo (st st' : ut_state) (n i s : Z) (ow : Z → Z) (p14 : bitfield) :
  pools_ok (set_pool st 14 p14) n (upd ow i s) → is_list_size s → ow i = 0 → 0 ≤ i < n →
  malloc_eq (set_pool st 14 p14) st' →
  ∃ st'', do_ut_free_from_bitfield st' (pool_base st + i * 2 ^ 14) 14 = Ret st'' ∧
    rest_same st st'' ∧ pool9 st'' = pool9 st ∧ pool4 st'' = pool4 st ∧
    pools_ok st'' n ow ∧ nodes st'' = nodes st ∧ fresh st'' = fresh st.
Proof.
  intros Hok Hs H0 Hi [ms ->]. set (st1 := mk_ut _ _ _ _ _ _ _ _ _ ms).
  destruct (free14_spec st1 n i (upd ow i s)) as (p' & Hfr & Hok2).
  - by eapply pools_ok_frame; [.. | exact Hok].
  - done.
  - unfold upd. rewrite decide_True by done. destruct Hs; lia.
  - unfold upd, is_sub_size. rewrite decide_True by done. destruct Hs; lia.
  - exists (set_pool st1 14 p'). split; [exact Hfr |]. split_and!; try done.
    eapply pools_ok_frame; [.. | exact Hok2]; try done.
    intros j. unfold upd. by case_decide; subst.
Qed.

Lemma new_suballocator_spec (st : ut_state) (n s : Z) (ow : Z → Z) :
  pools_ok st n ow → is_list_size s →
  ∃ r st', new_suballocator st s = Ret (r, st') ∧ rest_same st st' ∧
    pool9 st' = pool9 st ∧ pool4 st' = pool4 st ∧
    match r with
    | None => pools_ok st' n ow ∧ nodes st' = nodes st ∧ fresh st' = fresh st
    | Some q => q = fresh st ∧ fresh st' = q + 1 ∧
        ∃ i bf, 0 ≤ i < n ∧ ow i = 0 ∧
          nodes st' = <[q := mk_suballocator None None (pool_base st + i * 2 ^ 14) bf]> (nodes st) ∧
          (bf_wf bf ∧ bf_size bf = per_slab s ∧ bf_hint_ok bf ∧
             ∀ k, bf_free bf k = bool_decide (0 ≤ k < per_slab s)) ∧
          pools_ok st' n (upd ow i s)
    end.
Proof.
  intros Hok Hs. unfold new_suballocator.
  destruct (alloc14_spec st n ow Hok) as [[E Hno] | (i & p14 & Hi & H0 & E & Hok')].
  { change PRIMARY_POOL_SIZEBITS with 14. rewrite E. simpl.
    exists None, st. split_and!; done. }
  change PRIMARY_POOL_SIZEBITS with 14. rewrite E. cbn [mbind outcome_bind].
  pose proof (po_base _ _ _ Hok) as [Hb _].
  destruct (Z.eqb_spec (pool_base st + i * 2 ^ 14) 0); [lia |].
  assert (pools_ok (set_pool st 14 p14) n (upd ow i s)) as Hok1.
  { apply Hok'; destruct Hs; unfold is_sub_size; lia. }
  pose proof (λ st', suballocator_undo st st' n i s ow p14 Hok1 Hs H0 Hi) as Hback.
  destruct (malloc (set_pool st 14 p14)) as [m0 st1] eqn:E1. apply malloc_spec in E1.
  destruct m0; cbn [negb].
  2:{ destruct (Hback st1 E1) as (st2 & -> & Hr). by exists None, st2. }
  destruct (malloc st1) as [m1 st2] eqn:E2. apply malloc_spec in E2.
  pose proof (malloc_eq_trans _ _ _ E1 E2) as E12. destruct m1.
  2:{ destruct (Hback st2 E12) as (st3 & -> & Hr). by exists None, st3. }
  destruct (malloc st2) as [m2 st3] eqn:E3. apply malloc_spec in E3.
  pose proof (malloc_eq_trans _ _ _ E12 E3) as E13. destruct m2.
  2:{ destruct (Hback st3 E13) as (st4 & -> & Hr). by exists None, st4. }
  rewrite shiftl_1 by (destruct Hs; lia). fold (per_slab s).
  destruct (new_bitfield_empty (per_slab s)) as (bf & Hnew & Hwf & Hsz & Hnf & _ & Hf).
  { by destruct (list_per_slab s Hs) as [[_ ->] | [_ ->]]. }
  { by destruct (list_per_slab s Hs) as [[_ ->] | [_ ->]]. }
  rewrite Hnew. cbn [mbind outcome_bind]. destruct E13 as [ms ->].
  eexists (Some _), _. split; [done |].
  split_and!; [done .. |]. exists i, bf. split_and!; try done; [lia .. | |].
  - unfold bf_hint_ok. rewrite Hnf, Hsz. by destruct (list_per_slab s Hs) as [[_ ->] | [_ ->]].
  - by eapply pools_ok_frame; [.. | exact Hok1].
Qed.

(** Changing the node of slab [i] changes the blocks of that slab only. *)
Lemma live_node_update (D D' : Z → option (Z * bitfield)) (base : Z) (ow ow' : Z → Z)
    (i q s t j m : Z) (bf' : bitfield) :
  (∀ id b bf, D' id = Some (b, bf) → b = base + i * 2 ^ 14 → id = q) →
  (∀ id b bf, D id = Some (b, bf) → b = base + i * 2 ^ 14 → id = q) →
  (∀ id, D' id = if decide (id = q) then Some (base + i * 2 ^ 14, bf') else D id) →
  (∀ bf, ∀ b, D q = Some (b, bf) → b = base + i * 2 ^ 14) →
  (∀ j, j ≠ i → ow' j = ow j) →
  live_node D' base ow' t j m ↔
    if decide (j = i) then ow' i = t ∧ bf_free bf' m = false
    else live_node D base ow t j m.
Proof.
  intros Hu' Hu HD' HDq Ho. unfold live_node. case_decide as Hj.
  - subst j. split; intros [Hot H].
    + destruct H as (id & bf & HD & Hf). split; [done |].
      assert (id = q) as -> by (by eapply Hu').
      rewrite HD', decide_True in HD by done. by injection HD as <-.
    + split; [done |]. exists q, bf'. by rewrite HD', decide_True.
  - rewrite (Ho j Hj).
    split; intros [Hot (id & bf & HD & Hf)]; (split; [done |]); exists id, bf;
      (split; [| done]).
    + rewrite HD' in HD. case_decide; [| done]. injection HD as Hb _. exfalso. apply Hj. lia.
    + rewrite HD', decide_False; [done |]. intros ->. apply HDq in HD. apply Hj. lia.
Qed.

(** What an allocation from the list of size [s] does. *)
Record list_alloc_post (st st' : ut_state) (n s : Z) (ow ow' : Z → Z)
    (ids' : Z → list Z) (new : option (Z * Z)) : Prop := {
  lap_pools : pools_ok st' n ow';
  lap_lists : lists_ok st' n ow' ids';
  lap_rest : rest_same st st';
  lap_ow : ∀ j t, t ≠ 0 → t ≠ s → ow' j = t ↔ ow j = t;
  lap_kinds : ∀ j, ow' j = ow j ∨ ow' j = s;
  lap_live : ∀ t j m, is_list_size t → 0 ≤ m < per_slab t →
    live_node (node_data (nodes st')) (pool_base st) ow' t j m ↔
      (t = s ∧ new = Some (j, m)) ∨
      live_node (node_data (nodes st)) (pool_base st) ow t j m;
  lap_new : ∀ i k, new = Some (i, k) → 0 ≤ i < n ∧ 0 ≤ k < per_slab s ∧
    ¬ live_node (node_data (nodes st)) (pool_base st) ow s i k
}.

(** The last steps of [do_ut_alloc_from_list]. *)
Lemma take_from_node_spec (st : ut_state) (q s b : Z) (bf : bitfield) :
  node_data (nodes st) q = Some (b, bf) → is_list_size s →
  0 ≤ b → b + 2 ^ 14 ≤ 2 ^ 32 →
  bf_wf bf → bf_size bf = per_slab s → bf_hint_ok bf → bf_available bf ≠ 0 →
  ∃ k bf', take_from_node st q s =
      Ret (b + k * 2 ^ s, with_nodes st (alter (sa_set_bitfield bf') q (nodes st))) ∧
    0 ≤ k < per_slab s ∧ bf_free bf k = true ∧
    bf_wf bf' ∧ bf_hint_ok bf' ∧ bf_size bf' = per_slab s ∧
    ∀ m, bf_free bf' m = if decide (m = k) then false else bf_free bf m.
Proof.
  intros Hd Hs Hb1 Hb2 Hwf Hsz Hh Ha. unfold node_data in Hd.
  apply fmap_Some in Hd as (nd & Hq & [= -> ->]).
  unfold take_from_node. unfold get_node at 1. rewrite Hq. cbn [mbind outcome_bind].
  destruct (bf_set_next_free_spec _ Hwf Hh)
    as (k & bf' & -> & [(-> & -> & Hnone) | (Hr & Hk & Hwf' & Hh' & Hs' & _ & Hf')]).
  { exfalso. apply Ha. rewrite (wf_available _ Hwf). apply countb_zero. auto. }
  cbn [mbind outcome_bind]. rewrite upd_node_spec by eauto. cbn [mbind outcome_bind].
  destruct (Z.eqb_spec k (-1)); [lia |]. simpl.
  exists k, bf'. split_and!; try done; [| lia .. | congruence].
  unfold mret, outcome_ret. do 2 f_equal. rewrite Hsz in Hr.
  rewrite shiftl_mul by (destruct Hs; lia). rewrite u32_small; [lia |].
  destruct (list_per_slab s Hs) as [[-> Hp] | [-> Hp]]; rewrite Hp in Hr; lia.
Qed.

Lemma slab_address (st : ut_state) (n i : Z) (ow : Z → Z) :
  pools_ok st n ow → 0 ≤ i < n →
  0 < pool_base st + i * 2 ^ 14 ∧ pool_base st + i * 2 ^ 14 + 2 ^ 14 ≤ 2 ^ 32.
Proof. intros [[? ?] [? ?] _ _] ?. lia. Qed.

Lemma node_has_data (st : ut_state) (q b : Z) (nd : suballocator) (bf : bitfield) :
  nodes st !! q = Some nd → node_data (nodes st) q = Some (b, bf) →
  sa_base nd = b ∧ sa_bitfield nd = bf.
Proof. unfold node_data. intros -> [= -> ->]. done. Qed.

Lemma bf_used_not_full (bf : bitfield) (m : Z) :
  bf_wf bf → 0 ≤ m < bf_size bf → bf_free bf m = false → bf_available bf ≠ bf_size bf.
Proof.
  intros Hwf Hm Hf Ha. rewrite (wf_available _ Hwf) in Ha.
  rewrite (countb_split _ (Z.to_nat (bf_size bf))) in Ha.
  - assert (countb (bf_free bf) (Z.to_nat (bf_size bf)) = Z.of_nat (Z.to_nat (bf_size bf))) as Hc
      by lia.
    rewrite countb_full in Hc. rewrite Hc in Hf by lia. done.
  - pose proof (wf_len _ Hwf). unfold bf_nbits, Zlength in *. divmod.
  - intros. apply Hwf. lia.
Qed.

Lemma bf_not_full_used (bf : bitfield) (u : Z) :
  bf_wf bf → bf_size bf = u → bf_available bf ≠ u →
  ∃ m, 0 ≤ m < u ∧ bf_free bf m = false.
Proof.
  intros Hwf <- Ha.
  destruct (decide (Exists (λ m, bf_free bf m = false) (seqZ 0 (bf_size bf)))) as [He | Hne].
  - apply Exists_exists in He as (m & Hm%elem_of_seqZ & Hf). exists m. split; [lia | done].
  - exfalso. apply Ha. rewrite (wf_available _ Hwf).
    rewrite (countb_split _ (Z.to_nat (bf_size bf))).
    + pose proof (wf_size _ Hwf).
      replace (bf_size bf) with (Z.of_nat (Z.to_nat (bf_size bf))) at 2 by lia.
      apply countb_full. intros i Hi. destruct (bf_free bf i) eqn:E; [done |].
      exfalso. apply Hne, Exists_exists. exists i. split; [apply elem_of_seqZ; lia | done].
    + pose proof (wf_len _ Hwf). unfold bf_nbits, Zlength in *. divmod.
    + intros. apply Hwf. lia.
Qed.

(** Allocation from a node that is already in the list. *)
Lemma alloc_list_old (st : ut_state) (n s q : Z) (ow : Z → Z) (ids : Z → list Z) (nd : suballocator) :
  pools_ok st n ow → lists_ok st n ow ids → is_list_size s → q ∈ ids s →
  nodes st !! q = Some nd → bf_available (sa_bitfield nd) ≠ 0 →
  ∃ i k st', take_from_node st q s = Ret (pool_base st + i * 2 ^ 14 + k * 2 ^ s, st') ∧
    list_alloc_post st st' n s ow ow ids (Some (i, k)).
Proof.
  intros Hok [Hl Hd] Hs Hq Hnd Ha.
  destruct (da_node _ _ _ _ _ Hd s q Hs Hq) as (i & bf & HD & [K1 K2 K3 K4 K5 K6]).
  destruct (node_has_data st q _ nd bf Hnd HD) as [_ Hbf]. rewrite Hbf in Ha.
  destruct (slab_address st n i ow Hok K1) as [? ?].
  destruct (take_from_node_spec st q s _ bf HD Hs)
    as (k & bf' & Htake & Hk & Hfk & Hwf' & Hh' & Hs' & Hf'); [lia | lia | done .. |].
  rewrite Htake. eexists i, k, _. split; [done |].
  set (ns := alter (sa_set_bitfield bf') q (nodes st)).
  assert (∀ id, node_data ns id =
     if decide (id = q) then Some (pool_base st + i * 2 ^ 14, bf') else node_data (nodes st) id) as HD'.
  { intros id. unfold ns. by apply node_data_payload with bf. }
  assert (node_ok (pool_base st) n ow s i bf') as Hnk.
  { split; try done. exists k. split; [done |]. by rewrite Hf', decide_True. }
  assert (data_ok (node_data ns) (pool_base st) n ow ids) as Hd'
    by (by eapply data_payload).
  split; [by eapply pools_ok_frame; [.. | exact Hok] | | done | done | by left | |].
  - split; [by apply links_payload | done].
  - intros t j m Ht Hm. change (nodes (with_nodes st ns)) with ns.
    rewrite (live_node_update (node_data (nodes st)) (node_data ns) (pool_base st) ow ow i q s t j m bf');
      [| | | done | | done].
    + case_decide as Hj; [subst j | naive_solver].
      rewrite Hf'. assert (live_node (node_data (nodes st)) (pool_base st) ow t i m ↔
        ow i = t ∧ bf_free bf m = false) as ->.
      { unfold live_node. split; intros [? Hx]; (split; [done |]).
        - destruct Hx as (id & c & Hc & ?). assert (id = q) as -> by (by eapply Hd).
          congruence.
        - by exists q, bf. }
      case_decide; naive_solver.
    + intros id b c Hc ->. apply (da_inj _ _ _ _ _ Hd' id q _ c bf' Hc).
      by rewrite HD', decide_True.
    + intros id b c Hc ->. by apply (da_inj _ _ _ _ _ Hd id q _ c bf Hc).
    + intros c b Hc. congruence.
  - intros i' k' [= <- <-]. split_and!; [lia .. |]. intros (_ & id & c & Hc & Hfc).
    assert (id = q) as -> by (by eapply Hd). congruence.
Qed.

(** Linking the node that [_new_suballocator] has made. *)
Lemma attach_new (st st1 : ut_state) (s q i : Z) (ids : Z → list Z) (bf : bitfield) :
  links_ok st ids → is_list_size s →
  rest_same st st1 → pool9 st1 = pool9 st → pool4 st1 = pool4 st →
  q = fresh st → fresh st1 = q + 1 →
  nodes st1 = <[q := mk_suballocator None None (pool_base st + i * 2 ^ 14) bf]> (nodes st) →
  ∃ ns, pool_list_attach st1 (PoolHead s) q = Ret (relink st1 s (Some q) ns) ∧
    links_ok (relink st1 s (Some q) ns) (upd_ids ids s (q :: ids s)) ∧
    node_data (nodes st) q = None ∧
    ∀ id, node_data ns id = if decide (id = q) then Some (pool_base st + i * 2 ^ 14, bf)
                            else node_data (nodes st) id.
Proof.
  intros Hl Hs Hrest E9 E4 Hq Hfr Hns.
  assert (nodes st !! q = None) as Hqn.
  { destruct (nodes st !! q) eqn:E; [| done].
    pose proof (lk_fresh _ _ Hl q (mk_is_Some _ _ E)). lia. }
  destruct (links_attach st1 ids s q (mk_suballocator None None (pool_base st + i * 2 ^ 14) bf))
    as (ns & E & Hl2 & Hd2); [| done | by rewrite Hns, lookup_insert_eq | done | done | lia |].
  { destruct Hl as [L1 L2 L3 L4 L5].
    assert (delete q (nodes st1) = nodes st) as Edel by (rewrite Hns; by apply delete_insert_id).
    split; simpl; [| done | done | by rewrite Edel | rewrite Edel; intros id Hid; apply L5 in Hid; lia].
    intros t Ht. eapply list_rep_frame; [| | by apply L1]; simpl; [| by rewrite Edel].
    unfold head_of. simpl. by rewrite E9, E4. }
  exists ns. split_and!; [done | done | unfold node_data; by rewrite Hqn |].
  intros id. rewrite Hd2, Hns. unfold node_data. case_decide; [subst; by rewrite lookup_insert_eq |].
  by rewrite lookup_insert_ne.
Qed.

(** A free slab has no node. *)
Lemma free_slab_no_node (st : ut_state) (n i : Z) (ow : Z → Z) (ids : Z → list Z) :
  lists_ok st n ow ids → ow i = 0 →
  ∀ id b c, node_data (nodes st) id = Some (b, c) → b ≠ pool_base st + i * 2 ^ 14.
Proof.
  intros [Hl Hd] H0 id b c Hc ->.
  destruct (lk_dom _ _ Hl id) as (t & Ht & Hid).
  { apply (mk_is_Some (node_data (nodes st) id)) in Hc. by apply fmap_is_Some in Hc. }
  destruct (da_node _ _ _ _ _ Hd t id Ht Hid) as (i' & c' & Hc' & Hk').
  rewrite Hc in Hc'. injection Hc' as Hi' _. assert (i' = i) as -> by lia.
  pose proof (nk_owner _ _ _ _ _ _ Hk'). destruct Ht; lia.
Qed.

(** Allocation from a node that was made for it. *)
Lemma alloc_list_new (st st1 : ut_state) (n s q i : Z) (ow : Z → Z) (ids : Z → list Z)
    (bf : bitfield) :
  pools_ok st n ow → lists_ok st n ow ids → is_list_size s →
  rest_same st st1 → pool9 st1 = pool9 st → pool4 st1 = pool4 st →
  q = fresh st → fresh st1 = q + 1 → 0 ≤ i < n → ow i = 0 →
  nodes st1 = <[q := mk_suballocator None None (pool_base st + i * 2 ^ 14) bf]> (nodes st) →
  (bf_wf bf ∧ bf_size bf = per_slab s ∧ bf_hint_ok bf ∧
     ∀ k, bf_free bf k = bool_decide (0 ≤ k < per_slab s)) →
  pools_ok st1 n (upd ow i s) →
  ∃ k st2 st', pool_list_attach st1 (PoolHead s) q = Ret st2 ∧
    take_from_node st2 q s = Ret (pool_base st + i * 2 ^ 14 + k * 2 ^ s, st') ∧
    list_alloc_post st st' n s ow (upd ow i s) (upd_ids ids s (q :: ids s)) (Some (i, k)).
Proof.
  intros Hok Hlo Hs Hrest E9 E4 Hq Hfr Hi H0 Hns (Hwf & Hsz & Hh & Hfree) Hok1.
  pose proof (free_slab_no_node st n i ow ids Hlo H0) as Hno. destruct Hlo as [Hl Hd].
  destruct (attach_new st st1 s q i ids bf) as (ns2 & -> & Hl2 & HDq & HD2); [done .. |].
  set (st2 := relink st1 s (Some q) ns2) in *.
  assert (pool_base st2 = pool_base st) as Eb by apply Hrest.
  destruct (slab_address st n i ow Hok Hi) as [? ?].
  assert (bf_available bf ≠ 0) as Ha.
  { intros Ha. specialize (Hfree 0). rewrite (bf_available_zero bf Hwf Ha) in Hfree.
    symmetry in Hfree. apply bool_decide_eq_false in Hfree. apply Hfree.
    destruct (list_per_slab s Hs) as [[_ ->] | [_ ->]]; lia. }
  assert (node_data (nodes st2) q = Some (pool_base st + i * 2 ^ 14, bf)) as HD2q
    by (simpl; rewrite HD2; by rewrite decide_True).
  destruct (take_from_node_spec st2 q s (pool_base st + i * 2 ^ 14) bf)
    as (k & bf' & E & Hk & Hfk & Hwf' & Hh' & Hs' & Hf'); [done | done | lia | lia | done .. |].
  exists k, st2, (with_nodes st2 (alter (sa_set_bitfield bf') q (nodes st2))).
  split; [done |]. split; [done |].
  set (ns := alter (sa_set_bitfield bf') q (nodes st2)).
  assert (∀ id, node_data ns id =
     if decide (id = q) then Some (pool_base st + i * 2 ^ 14, bf') else node_data (nodes st) id) as HD'.
  { intros id. unfold ns. rewrite (node_data_payload _ _ (pool_base st + i * 2 ^ 14) bf) by done.
    case_decide as Hx; [done |]. simpl. rewrite HD2. by rewrite decide_False. }
  assert (node_ok (pool_base st) n (upd ow i s) s i bf') as Hnk.
  { split; try done; [unfold upd; by rewrite decide_True |].
    exists k. split; [done |]. by rewrite Hf', decide_True. }
  assert (data_ok (node_data ns) (pool_base st) n (upd ow i s) (upd_ids ids s (q :: ids s))) as Hd'.
  { eapply data_attach; try done. intros id Hid. apply (lk_dom _ _ Hl). by apply fmap_is_Some in Hid. }
  split; [by eapply pools_ok_frame; [.. | exact Hok1] | | | | | |].
  - split; [by apply links_payload |]. simpl. change (pool_base st1) with (pool_base st2). by rewrite Eb.
  - destruct Hrest. by split.
  - intros j t Ht0 Hts. unfold upd. case_decide; [subst; split; lia | done].
  - intros j. unfold upd. case_decide; auto.
  - intros t j m Ht Hm. change (nodes (with_nodes st2 ns)) with ns.
    rewrite (live_node_update (node_data (nodes st)) (node_data ns) (pool_base st) ow (upd ow i s) i q s t j m bf');
      [| | by intros id b c Hc Hb; destruct (Hno id b c Hc Hb) | done | by intros; congruence
       | intros; unfold upd; by rewrite decide_False].
    + case_decide as Hj; cycle 1.
      { split; [by right |]. intros [[_ [= ]] | ?]; [congruence | done]. }
      subst j. unfold upd. rewrite decide_True by done. rewrite Hf', Hfree.
      assert (¬ live_node (node_data (nodes st)) (pool_base st) ow t i m) as Hnl.
      { intros [Ho _]. destruct Ht; lia. }
      case_decide as Hmk.
      * subst m. split; [intros [-> _]; by left | intros [[-> _] | ?]; done].
      * split; [| intros [[_ [= ]] | ?]; [congruence | done]].
        intros [-> Hbd%bool_decide_eq_false]. done.
    + intros id b c Hc ->. apply (da_inj _ _ _ _ _ Hd' id q _ c bf' Hc).
      by rewrite HD', decide_True.
  - intros i' k' [= <- <-]. split_and!; [lia .. |]. intros [Ho _]. destruct Hs; lia.
Qed.

Lemma lists_ok_frame (st st' : ut_state) (n : Z) (ow ow' : Z → Z) (ids : Z → list Z) :
  nodes st' = nodes st → pool9 st' = pool9 st → pool4 st' = pool4 st →
  fresh st' = fresh st → pool_base st' = pool_base st →
  (∀ j t, is_list_size t → ow' j = t ↔ ow j = t) →
  lists_ok st n ow ids → lists_ok st' n ow' ids.
Proof.
  intros En E9 E4 Ef Eb Eo [[L1 L2 L3 L4 L5] [D1 D2 D3]]. split.
  - split; rewrite ?En, ?Ef; try done. intros s Hs.
    eapply list_rep_frame; [| | by apply L1]; [| by rewrite En].
    unfold head_of. by rewrite E9, E4.
  - rewrite En, Eb. split; [| | done].
    + intros s id Hs Hid. destruct (D1 s id Hs Hid) as (i & bf & HD & [K1 K2 K3 K4 K5 K6]).
      exists i, bf. split; [done |]. split; try done. by apply Eo.
    + intros s i Hs Hi Ho. apply D2; [done | done |]. by apply Eo.
Qed.

(** [do_ut_alloc_from_list]. *)
Lemma alloc_list_spec (st : ut_state) (n s : Z) (ow : Z → Z) (ids : Z → list Z) :
  pools_ok st n ow → lists_ok st n ow ids → is_list_size s →
  ∃ addr st' ow' ids' new, do_ut_alloc_from_list st s = Ret (addr, st') ∧
    list_alloc_post st st' n s ow ow' ids' new ∧
    match new with
    | None => addr = 0
    | Some (i, k) => addr = pool_base st + i * 2 ^ 14 + k * 2 ^ s
    end.
Proof.
  intros Hok Hlo Hs. unfold do_ut_alloc_from_list.
  replace ((s =? 9) || (s =? 4)) with true by (by destruct Hs as [-> | ->]).
  cbn [c_assert mbind outcome_bind]. rewrite read_loc_head by done. cbn [mbind outcome_bind].
  unfold pool_list_find_free.
  destruct (links_walk st ids s (λ n, negb (bf_available (sa_bitfield n) =? 0)) (lo_links _ _ _ _ Hlo) Hs)
    as (r & -> & Hr). cbn [mbind outcome_bind]. destruct r as [q|].
  - destruct Hr as (nd & Hq & Hnd & Ha). apply negb_true_iff, Z.eqb_neq in Ha.
    destruct (alloc_list_old st n s q ow ids nd) as (i & k & st' & Htake & Hpost); [done .. |].
    eexists _, st', ow, ids, (Some (i, k)). split; [exact Htake | done].
  - destruct (new_suballocator_spec st n s ow Hok Hs)
      as (r & st1 & -> & Hrest & E9 & E4 & Hpost). cbn [mbind outcome_bind].
    destruct r as [q|].
    + destruct Hpost as (-> & Hfr & i & bf & Hi & H0 & Hns & Hbf & Hok1).
      destruct (alloc_list_new st st1 n s (fresh st) i ow ids bf)
        as (k & st2 & st' & -> & Htake & Hp); [done .. |].
      cbn [mbind outcome_bind]. eexists _, st', _, _, (Some (i, k)). split; [exact Htake | done].
    + destruct Hpost as (Hok1 & Hns & Hfr).
      exists 0, st1, ow, ids, None. split; [done |]. split; [| done].
      split; try done.
      * eapply lists_ok_frame; [exact Hns | exact E9 | exact E4 | exact Hfr | apply Hrest | | exact Hlo].
        done.
      * by left.
      * intros t j m Ht Hm. rewrite Hns. naive_solver.
Qed.

(** What freeing block [k] of slab [i] in the list of size [s] does. *)
Record list_free_post (st st' : ut_state) (n s i k : Z) (ow ow' : Z → Z)
    (ids' : Z → list Z) : Prop := {
  lfp_pools : pools_ok st' n ow';
  lfp_lists : lists_ok st' n ow' ids';
  lfp_rest : rest_same st st';
  lfp_ow : ∀ j t, t ≠ 0 → t ≠ s → ow' j = t ↔ ow j = t;
  lfp_kinds : ∀ j, ow' j = ow j ∨ ow' j = 0;
  lfp_live : ∀ t j m, is_list_size t → 0 ≤ m < per_slab t →
    live_node (node_data (nodes st')) (pool_base st) ow' t j m ↔
      ¬ (t = s ∧ j = i ∧ m = k) ∧
      live_node (node_data (nodes st)) (pool_base st) ow t j m
}.

(** The slab keeps other blocks. *)
Lemma free_list_kept (st : ut_state) (n s q i k : Z) (ow : Z → Z) (ids : Z → list Z)
    (bf bf' : bitfield) :
  pools_ok st n ow → lists_ok st n ow ids → is_list_size s → q ∈ ids s →
  node_data (nodes st) q = Some (pool_base st + i * 2 ^ 14, bf) →
  node_ok (pool_base st) n ow s i bf' →
  (∀ m, bf_free bf' m = if decide (m = k) then true else bf_free bf m) →
  list_free_post st (with_nodes st (alter (sa_set_bitfield bf') q (nodes st))) n s i k ow ow ids.
Proof.
  intros Hok [Hl Hd] Hs Hq HD Hnk Hf'.
  set (ns := alter (sa_set_bitfield bf') q (nodes st)).
  assert (∀ id, node_data ns id =
     if decide (id = q) then Some (pool_base st + i * 2 ^ 14, bf') else node_data (nodes st) id) as HD'.
  { intros id. unfold ns. by apply node_data_payload with bf. }
  assert (data_ok (node_data ns) (pool_base st) n ow ids) as Hd' by (by eapply data_payload).
  split; [by eapply pools_ok_frame; [.. | exact Hok] | | done | done | by left |].
  - split; [by apply links_payload | done].
  - intros t j m Ht Hm. change (nodes (with_nodes st ns)) with ns.
    rewrite (live_node_update (node_data (nodes st)) (node_data ns) (pool_base st) ow ow i q s t j m bf');
      [| | | done | | done].
    + case_decide as Hj; [subst j | tauto].
      assert (live_node (node_data (nodes st)) (pool_base st) ow t i m ↔
        ow i = t ∧ bf_free bf m = false) as ->.
      { unfold live_node. split; intros [? Hx]; (split; [done |]).
        - destruct Hx as (id & c & Hc & ?). assert (id = q) as -> by (by eapply Hd).
          congruence.
        - by exists q, bf. }
      rewrite Hf'. pose proof (nk_owner _ _ _ _ _ _ Hnk). case_decide as Hmk.
      * split; [by intros [_ ?] |]. intros [Hn [Ho _]]. exfalso. apply Hn. split_and!; congruence.
      * tauto.
    + intros id b c Hc ->. apply (da_inj _ _ _ _ _ Hd' id q _ c bf' Hc).
      by rewrite HD', decide_True.
    + intros id b c Hc ->. by apply (da_inj _ _ _ _ _ Hd id q _ c bf Hc).
    + intros c b Hc. congruence.
Qed.

Lemma links_ok_frame (st st' : ut_state) (ids : Z → list Z) :
  nodes st' = nodes st → pool9 st' = pool9 st → pool4 st' = pool4 st →
  fresh st' = fresh st → links_ok st ids → links_ok st' ids.
Proof.
  intros En E9 E4 Ef [L1 L2 L3 L4 L5]. split; rewrite ?En, ?Ef; try done.
  intros s Hs. eapply list_rep_frame; [| | by apply L1]; [| by rewrite En].
  unfold head_of. by rewrite E9, E4.
Qed.

(** The slab became empty: its node goes and the slab returns to the primary pool. *)
Lemma free_list_empty (st st1 : ut_state) (n s q i k : Z) (ow : Z → Z) (ids : Z → list Z)
    (bf bf' : bitfield) :
  pools_ok st n ow → lists_ok st n ow ids → is_list_size s → q ∈ ids s →
  node_data (nodes st) q = Some (pool_base st + i * 2 ^ 14, bf) →
  0 ≤ i < n → ow i = s →
  (∀ m, 0 ≤ m < per_slab s → m ≠ k → bf_free bf m = true) →
  st1 = with_nodes st (alter (sa_set_bitfield bf') q (nodes st)) →
  ∃ st2 st3 ow' ids', pool_list_detach st1 q = Ret st2 ∧
    do_ut_free_from_bitfield st2 (pool_base st + i * 2 ^ 14) 14 = Ret st3 ∧
    list_free_post st (with_nodes st3 (delete q (nodes st3))) n s i k ow ow' ids'.
Proof.
  intros Hok Hlo Hs Hq HD Hi Ho Hfree ->. pose proof Hlo as [Hl Hd].
  set (st1 := with_nodes st (alter (sa_set_bitfield bf') q (nodes st))).
  destruct (links_detach st1 ids s q) as (j & h & ns & Hj & -> & Hl2 & Hd2);
    [by apply links_payload | done | done |].
  set (st2 := relink st1 s h ns) in *.
  destruct (free14_spec st2 n i ow) as (p14 & Hfr & Hok3).
  { by eapply pools_ok_frame; [.. | exact Hok]. }
  { done. }
  { destruct Hs; lia. }
  { unfold is_sub_size. destruct Hs; lia. }
  exists st2, (set_pool st2 14 p14), (upd ow i 0), (upd_ids ids s (delete j (ids s))).
  split; [done |]. split; [exact Hfr |].
  assert (∀ id, node_data (delete q ns) id = if decide (id = q) then None
                                             else node_data (nodes st) id) as HD'.
  { intros id. case_decide as Hid.
    - subst. unfold node_data. by rewrite lookup_delete_eq.
    - transitivity (node_data ns id).
      { unfold node_data. by rewrite lookup_delete_ne. }
      rewrite Hd2. simpl. rewrite (node_data_payload _ _ _ bf) by done. by rewrite decide_False. }
  split.
  - by eapply pools_ok_frame; [.. | exact Hok3].
  - split; [by eapply links_ok_frame; [.. | exact Hl2] |].
    eapply data_detach; try done; [by apply Hl |].
    intros t Ht Hqt. by eapply (lk_disj _ _ Hl).
  - by split.
  - intros m t Ht0 Hts. unfold upd. case_decide; [subst; split; lia | done].
  - intros m. unfold upd. case_decide; auto.
  - intros t j' m Ht Hm. unfold live_node. simpl. unfold upd.
    destruct (decide (j' = i)) as [-> | Hne].
    + split; [intros [E _]; destruct Ht; lia |].
      intros [Hn (Hot & id & c & Hc & Hfc)]. exfalso.
      assert (id = q) as -> by (by eapply Hd). assert (c = bf) as -> by congruence.
      apply Hn. split_and!; [congruence | done |].
      destruct (decide (m = k)); [done |]. rewrite Hfree in Hfc; [done | | done]. by subst.
    + split.
      * intros [Hot (id & c & Hc & Hfc)]. rewrite HD' in Hc. case_decide; [done |].
        split; [tauto |]. split; [done |]. by exists id, c.
      * intros [_ (Hot & id & c & Hc & Hfc)]. split; [done |]. exists id, c.
        rewrite HD', decide_False; [done |]. intros ->. apply Hne.
        rewrite HD in Hc. injection Hc. lia.
Qed.

Lemma slab_of_address (b k s : Z) :
  is_list_size s → 0 < b → b + 2 ^ 14 ≤ 2 ^ 32 → b mod 2 ^ 14 = 0 → 0 ≤ k < per_slab s →
  andnot32 (b + k * 2 ^ s) (Z.shiftl 1 14 - 1) = b.
Proof.
  intros Hs Hb1 Hb2 Hb3 Hk. change (Z.shiftl 1 14) with (2 ^ 14).
  assert (0 ≤ k * 2 ^ s < 2 ^ 14) as Hks.
  { destruct (list_per_slab s Hs) as [[-> Hp] | [-> Hp]]; rewrite Hp in Hk; lia. }
  rewrite andnot32_low by lia. set (x := k * 2 ^ s) in *.
  change (2 ^ 14) with 16384 in *. divmod.
Qed.

(** [do_ut_free_from_list]. *)
Lemma free_list_spec (st : ut_state) (n s i k : Z) (ow : Z → Z) (ids : Z → list Z) :
  pools_ok st n ow → lists_ok st n ow ids → is_list_size s →
  0 ≤ i < n → 0 ≤ k < per_slab s →
  live_node (node_data (nodes st)) (pool_base st) ow s i k →
  ∃ st' ow' ids', do_ut_free_from_list st (pool_base st + i * 2 ^ 14 + k * 2 ^ s) s = Ret st' ∧
    list_free_post st st' n s i k ow ow' ids'.
Proof.
  intros Hok Hlo Hs Hi Hk [Ho (q & bf & HD & Hfk)]. pose proof Hlo as [Hl Hd].
  destruct (slab_address st n i ow Hok Hi) as [Hb1 Hb2].
  assert ((pool_base st + i * 2 ^ 14) mod 2 ^ 14 = 0) as Hb3.
  { rewrite Z.mod_add by lia. apply Hok. }
  unfold do_ut_free_from_list.
  replace ((s =? 9) || (s =? 4)) with true by (by destruct Hs as [-> | ->]).
  cbn [c_assert mbind outcome_bind]. rewrite read_loc_head by done. cbn [mbind outcome_bind].
  change PRIMARY_POOL_SIZEBITS with 14.
  rewrite slab_of_address by done.
  rewrite block_offset
    by (destruct (list_per_slab s Hs) as [[-> Hp] | [-> Hp]]; rewrite Hp in Hk; lia).
  unfold pool_list_find_base.
  destruct (links_walk st ids s (λ n, sa_base n =? pool_base st + i * 2 ^ 14) Hl Hs) as (r & -> & Hr).
  cbn [mbind outcome_bind].
  destruct (da_own _ _ _ _ _ Hd s i Hs Hi Ho) as (q' & bf0 & Hq & HD0).
  assert (q' = q) as -> by (by eapply Hd). clear bf0 HD0.
  pose proof HD as HDn. unfold node_data in HDn. apply fmap_Some in HDn as (nd & Hnd & [= Hbase Hbf]).
  destruct r as [q'|]; cycle 1.
  { specialize (Hr q nd Hq Hnd). rewrite <- Hbase in Hr. by apply Z.eqb_neq in Hr. }
  assert (q' = q) as ->.
  { destruct Hr as (nd' & _ & Hnd' & Hb%Z.eqb_eq).
    apply (da_inj _ _ _ _ _ Hd q' q (pool_base st + i * 2 ^ 14) (sa_bitfield nd') bf); [| done].
    unfold node_data. rewrite Hnd'. simpl. by rewrite Hb. }
  clear Hr. cbn [mbind outcome_bind mret outcome_ret]. unfold get_node at 1. rewrite Hnd.
  cbn [mbind outcome_bind]. rewrite <- Hbf, <- Hbase.
  destruct (da_node _ _ _ _ _ Hd s q Hs Hq) as (i' & bf0 & HD0 & [_ _ K3 K4 K5 _]).
  rewrite HD in HD0. injection HD0 as _ <-.
  destruct (bf_clr_spec bf K3 k) as (bf' & -> & Hwf' & Hs' & Hn' & Ha' & _ & Hf');
    [lia | done |]. cbn [mbind outcome_bind].
  rewrite upd_node_spec by eauto. cbn [mbind outcome_bind].
  rewrite shiftl_1 by (destruct Hs; lia). fold (per_slab s).
  destruct (Z.eqb_spec (bf_available bf') (per_slab s)) as [Hall | Hsome].
  - destruct (free_list_empty st (with_nodes st (alter (sa_set_bitfield bf') q (nodes st)))
                n s q i k ow ids bf bf' Hok Hlo Hs Hq HD Hi Ho)
      as (st2 & st3 & ow' & ids' & -> & Hfree & Hpost).
    { intros m Hm Hmk. destruct (bf_free bf m) eqn:Em; [done |]. exfalso.
      apply (bf_used_not_full bf' m Hwf'); [lia | | lia].
      by rewrite Hf', decide_False. }
    { done. }
    cbn [mbind outcome_bind]. rewrite Hfree. eexists _, ow', ids'. split; [done | exact Hpost].
  - eexists _, ow, ids. split; [done |]. eapply free_list_kept; try done.
    split; try done; [lia | unfold bf_hint_ok in *; lia |].
    apply bf_not_full_used; [done | lia | lia].
Qed.

(** * The allocator as a set of live blocks *)

#[export] Instance is_sub_size_dec (s : Z) : Decision (is_sub_size s).
Proof. unfold is_sub_size. apply _. Defined.

#[export] Instance is_list_size_dec (s : Z) : Decision (is_list_size s).
Proof. unfold is_list_size. apply _. Defined.

Definition is_size (s : Z) : Prop := s = 14 ∨ is_sub_size s ∨ is_list_size s.

(** The block of [2^s] bytes at address [a] is in use. *)
Definition live (st : ut_state) (n : Z) (ow : Z → Z) (a s : Z) : Prop :=
  let d := a - pool_base st in
  0 ≤ d < n * 2 ^ 14 ∧ d mod 2 ^ s = 0 ∧
  ((s = 14 ∧ ow (d / 2 ^ 14) = 14) ∨
   (is_sub_size s ∧ ∃ bf, get_pool st s = Ret bf ∧ live_bit bf ow s (d / 2 ^ s)) ∨
   (is_list_size s ∧ live_node (node_data (nodes st)) (pool_base st) ow s
                       (d / 2 ^ 14) (d mod 2 ^ 14 / 2 ^ s))).

(** The allocator over [n] slabs from [base] has exactly the blocks [L] in use. *)
Record ut_repr (base n : Z) (st : ut_state) (L : gset (Z * Z)) : Prop := {
  ur_base : pool_base st = base;
  ur_init : initialised st = true;
  ur_hints : ∀ s bf, is_sub_size s → get_pool st s = Ret bf → bf_hint_ok bf ∨ bf_next_free bf = -1;
  ur_inv : ∃ ow ids, pools_ok st n ow ∧ lists_ok st n ow ids ∧
    (∀ i, 0 ≤ i < n → ow i = 0 ∨ is_size (ow i)) ∧
    ∀ a s, (a, s) ∈ L ↔ live st n ow a s
}.

(** The last allocation from the pool of size [s] failed and left -1 as its
    search hint. *)
Definition dry (st : ut_state) (s : Z) : Prop :=
  is_sub_size s ∧ ∃ bf, get_pool st s = Ret bf ∧ bf_next_free bf = -1.

(** A block of the pool has been freed since: its search hint is stale. *)
Definition stale (st : ut_state) (s : Z) : Prop :=
  is_sub_size s ∧ ∃ bf, get_pool st s = Ret bf ∧ bf_next_free bf = -1 ∧ bf_available bf ≠ 0.

Definition hints_ok (st : ut_state) : Prop :=
  ∀ s bf, is_sub_size s → get_pool st s = Ret bf → bf_hint_ok bf.

Lemma hints_ok_stale (st : ut_state) (s : Z) : hints_ok st → ¬ stale st s.
Proof.
  intros Hh (Hs & bf & Hg & Hn & _). specialize (Hh s bf Hs Hg). unfold bf_hint_ok in Hh. lia.
Qed.

Definition disjoint_blocks (b1 b2 : Z * Z) : Prop :=
  b1.1 + 2 ^ b1.2 ≤ b2.1 ∨ b2.1 + 2 ^ b2.2 ≤ b1.1.

(** The block lies in the memory of the allocator and is aligned to its size. *)
Definition block_fits (base n : Z) (b : Z * Z) : Prop :=
  base ≤ b.1 ∧ b.1 + 2 ^ b.2 ≤ base + n * 2 ^ 14 ∧ b.1 mod 2 ^ b.2 = 0.

Lemma is_size_cases (s : Z) :
  is_size s → s = 14 ∨ s = 10 ∨ s = 12 ∨ s = 9 ∨ s = 4.
Proof. unfold is_size, is_sub_size, is_list_size. tauto. Qed.

Lemma block_in_slab (d s : Z) :
  is_size s → d mod 2 ^ s = 0 →
  2 ^ 14 * (d / 2 ^ 14) ≤ d ∧ d + 2 ^ s ≤ 2 ^ 14 * (d / 2 ^ 14) + 2 ^ 14.
Proof.
  intros Hs Hd. change (2 ^ 14) with 16384.
  destruct (is_size_cases s Hs) as [-> | [-> | [-> | [-> | ->]]]]; simpl in *; divmod.
Qed.

Lemma live_size (st : ut_state) (n a s : Z) (ow : Z → Z) :
  live st n ow a s → is_size s.
Proof. intros (_ & _ & [[-> _] | [[H _] | [H _]]]); unfold is_size; tauto. Qed.

Lemma live_owner (st : ut_state) (n a s : Z) (ow : Z → Z) :
  live st n ow a s → ow ((a - pool_base st) / 2 ^ 14) = s.
Proof.
  intros (Hr & Hm & [[-> Ho] | [[Hs (bf & _ & Ho & _)] | [_ [Ho _]]]]); [done | | done].
  rewrite <- Ho at 1. f_equal. destruct (per_slab_cases s Hs) as [[-> ->] | [-> ->]];
    change (2 ^ 14) with 16384; simpl; divmod.
Qed.

Lemma live_fits (st : ut_state) (n a s : Z) (ow : Z → Z) :
  pools_ok st n ow → live st n ow a s → block_fits (pool_base st) n (a, s).
Proof.
  intros Hok Hl. pose proof (live_size _ _ _ _ _ Hl) as Hs.
  destruct Hl as (Hr & Hm & _). pose proof (block_in_slab _ s Hs Hm).
  destruct (po_base _ _ _ Hok) as [_ Hb]. unfold block_fits. simpl fst. simpl snd.
  change (2 ^ 14) with 16384 in *. split_and!; [lia | divmod |].
  destruct (is_size_cases s Hs) as [-> | [-> | [-> | [-> | ->]]]]; simpl in *; divmod.
Qed.

Lemma live_disjoint (st : ut_state) (n a s b t : Z) (ow : Z → Z) :
  live st n ow a s → live st n ow b t → (a, s) ≠ (b, t) → disjoint_blocks (a, s) (b, t).
Proof.
  intros Ha Hb Hne.
  pose proof (live_size _ _ _ _ _ Ha) as Hs. pose proof (live_size _ _ _ _ _ Hb) as Ht.
  pose proof (live_owner _ _ _ _ _ Ha) as Oa. pose proof (live_owner _ _ _ _ _ Hb) as Ob.
  destruct Ha as (_ & Ma & _), Hb as (_ & Mb & _).
  pose proof (block_in_slab _ s Hs Ma). pose proof (block_in_slab _ t Ht Mb).
  unfold disjoint_blocks. simpl fst. simpl snd. change (2 ^ 14) with 16384 in *.
  destruct (decide ((a - pool_base st) / 16384 = (b - pool_base st) / 16384)) as [E | E].
  - assert (s = t) as <- by congruence. assert (a ≠ b) by congruence.
    destruct (is_size_cases s Hs) as [-> | [-> | [-> | [-> | ->]]]]; simpl in *; divmod.
  - divmod.
Qed.

(** Blocks of a size that an operation does not touch. *)
Lemma live_frame (st st' : ut_state) (n a t : Z) (ow ow' : Z → Z) :
  pool_base st' = pool_base st →
  (t = 14 → ∀ i, ow' i = 14 ↔ ow i = 14) →
  (is_sub_size t → get_pool st' t = get_pool st t ∧ ∀ i, ow' i = t ↔ ow i = t) →
  (is_list_size t → ∀ j m, 0 ≤ m < per_slab t →
     live_node (node_data (nodes st')) (pool_base st) ow' t j m ↔
     live_node (node_data (nodes st)) (pool_base st) ow t j m) →
  live st' n ow' a t ↔ live st n ow a t.
Proof.
  intros Hb H14 Hsub Hlist. unfold live. rewrite Hb. set (d := a - pool_base st).
  do 2 (apply and_iff_compat_l). apply or_iff; [| apply or_iff].
  - split; intros [-> ?]; (split; [done |]); by apply H14.
  - split; intros (Hs & bf & Hg & Ho & Hf); (split; [done |]);
      destruct (Hsub Hs) as [E1 E2]; exists bf; (split; [congruence |]);
      (split; [by apply E2 | done]).
  - assert (is_list_size t → 0 ≤ d mod 2 ^ 14 / 2 ^ t < per_slab t) as Hm.
    { intros Ht. change (2 ^ 14) with 16384.
      destruct (list_per_slab t Ht) as [[-> ->] | [-> ->]]; simpl; divmod. }
    split; intros [Hs Hl]; (split; [done |]); by apply Hlist; [| apply Hm |].
Qed.

(** The blocks in use after an allocation from the primary pool. *)
Lemma live_alloc14 (st : ut_state) (n i a t : Z) (ow : Z → Z) (p14 : bitfield) :
  0 ≤ i < n → ow i = 0 →
  live (set_pool st 14 p14) n (upd ow i 14) a t ↔
    (a, t) = (pool_base st + i * 2 ^ 14, 14) ∨ live st n ow a t.
Proof.
  intros Hi H0. destruct (decide (t = 14)) as [-> | Ht].
  - unfold live. change (pool_base (set_pool st 14 p14)) with (pool_base st).
    change (2 ^ 14) with 16384. remember (a - pool_base st) as d eqn:Ed.
    assert (¬ is_sub_size 14 ∧ ¬ is_list_size 14) as [N1 N2]
      by (unfold is_sub_size, is_list_size; lia).
    assert (a = pool_base st + d) as -> by lia. clear Ed.
    unfold upd. case_decide as Hd.
    + split.
      * intros (_ & Hm & _). left. f_equal. divmod.
      * intros [[= E] | (Hr & Hm & Ho)]; [| split_and!; [lia | lia | done | by left]].
        assert (d = i * 16384) as -> by lia. split_and!; [lia | lia | divmod | by left].
    + split.
      * intros (? & ? & [? | [[? _] | [? _]]]); [| done | done]. right. tauto.
      * intros [[= E] | (Hr & Hm & [? | [[? _] | [? _]]])]; [| tauto | done | done].
        exfalso. apply Hd. assert (d = i * 16384) as -> by lia. divmod.
  - rewrite (live_frame st _ n a t ow (upd ow i 14)); try done.
    + split; [by right |]. intros [[= _ ->] | ?]; done.
    + intros Hs. rewrite get_set_pool, decide_False by tauto. split; [done |].
      intros j. unfold upd. case_decide; [subst; destruct Hs; split; lia | done].
    + intros Hs j m Hm. change (nodes (set_pool st 14 p14)) with (nodes st).
      unfold live_node, upd. case_decide; [subst | done].
      split; intros [? _]; destruct Hs; lia.
Qed.

Lemma live_alloc_sub (st st' : ut_state) (n s off a t : Z) (ow ow' : Z → Z) (bf bf' p14 : bitfield) :
  is_sub_size s → get_pool st s = Ret bf →
  sub_alloc_post st st' n s off ow ow' bf bf' p14 →
  live st' n ow' a t ↔ (a, t) = (pool_base st + off * 2 ^ s, s) ∨ live st n ow a t.
Proof.
  intros Hs Hg [Ho Hst Hok Hh Hnew Hlive How]. destruct (decide (t = s)) as [-> | Ht].
  - unfold live. rewrite Hst. rewrite get_set_pool, decide_True by tauto. rewrite Hg.
    change (pool_base (set_pool (set_pool st 14 p14) s bf')) with (pool_base st).
    remember (a - pool_base st) as d eqn:Ed. assert (a = pool_base st + d) as -> by lia.
    clear Ed. assert (s ≠ 14 ∧ ¬ is_list_size s) as [N1 N2]
      by (destruct Hs; unfold is_list_size; lia).
    assert ((∃ b, Ret bf' = Ret b ∧ live_bit b ow' s (d / 2 ^ s)) ↔ live_bit bf' ow' s (d / 2 ^ s)) as ->.
    { split; [by intros (b & [= <-] & ?) | eauto]. }
    assert ((∃ b, Ret bf = Ret b ∧ live_bit b ow s (d / 2 ^ s)) ↔ live_bit bf ow s (d / 2 ^ s)) as ->.
    { split; [by intros (b & [= <-] & ?) | eauto]. }
    assert (0 ≤ d < n * 2 ^ 14 ∧ d mod 2 ^ s = 0 → 0 ≤ d / 2 ^ s < n * per_slab s ∧ d = d / 2 ^ s * 2 ^ s) as Hd.
    { change (2 ^ 14) with 16384.
      destruct (per_slab_cases s Hs) as [[-> ->] | [-> ->]]; simpl; divmod. }
    split.
    + intros (Hr & Hm & [[? _] | [[_ Hl] | [? _]]]); [done | | done].
      destruct (Hd (conj Hr Hm)) as [Hk Hdk]. apply (Hlive _ Hk) in Hl as [E | Hl].
      * left. rewrite <- E, <- Hdk. done.
      * right. tauto.
    + intros [[= E] | (Hr & Hm & [[? _] | [[_ Hl] | [? _]]])]; [| done | | done].
      * assert (d = off * 2 ^ s) as -> by lia.
        assert (off * 2 ^ s / 2 ^ s = off ∧ (off * 2 ^ s) mod 2 ^ s = 0 ∧ 0 ≤ off * 2 ^ s < n * 2 ^ 14)
          as (E1 & E2 & E3).
        { change (2 ^ 14) with 16384.
          destruct (per_slab_cases s Hs) as [[-> Hp] | [-> Hp]]; rewrite Hp in Ho; simpl; divmod. }
        rewrite E1. split_and!; [lia | lia | done |]. right. left. split; [done |].
        apply Hlive; [done | by left].
      * destruct (Hd (conj Hr Hm)) as [Hk Hdk]. split_and!; [lia | lia | done |].
        right. left. split; [done |]. apply Hlive; [done | by right].
  - rewrite (live_frame st st' n a t ow ow'); try done.
    + split; [by right |]. intros [[= _ ->] | ?]; done.
    + by rewrite Hst.
    + intros -> i. apply How; lia.
    + intros Ht'. rewrite Hst. rewrite get_set_pool, decide_False by tauto.
      rewrite get_set_pool, decide_False by (tauto || destruct Ht'; lia).
      split; [done |]. intros i. apply How; [destruct Ht'; lia | done].
    + intros Ht' j m Hm. rewrite Hst. unfold live_node. simpl.
      by rewrite How by (done || destruct Ht'; lia).
Qed.

(** The slab and offset of an address of a list pool. *)
Lemma list_address (d i k s : Z) :
  is_list_size s → 0 ≤ k < per_slab s → d mod 2 ^ s = 0 →
  d / 2 ^ 14 = i ∧ d mod 2 ^ 14 / 2 ^ s = k ↔ d = i * 2 ^ 14 + k * 2 ^ s.
Proof.
  intros Hs Hk Hd. change (2 ^ 14) with 16384.
  destruct (list_per_slab s Hs) as [[-> Hp] | [-> Hp]]; rewrite Hp in Hk; simpl in *; divmod.
Qed.

Lemma list_block_range (n i k s : Z) :
  is_list_size s → 0 ≤ i < n → 0 ≤ k < per_slab s →
  0 ≤ i * 2 ^ 14 + k * 2 ^ s < n * 2 ^ 14 ∧ (i * 2 ^ 14 + k * 2 ^ s) mod 2 ^ s = 0.
Proof.
  intros Hs Hi Hk. change (2 ^ 14) with 16384.
  destruct (list_per_slab s Hs) as [[-> Hp] | [-> Hp]]; rewrite Hp in Hk; simpl; divmod.
Qed.

Lemma list_offset_range (d s : Z) :
  is_list_size s → 0 ≤ d mod 2 ^ 14 / 2 ^ s < per_slab s.
Proof.
  intros Ht. change (2 ^ 14) with 16384.
  destruct (list_per_slab s Ht) as [[-> ->] | [-> ->]]; simpl; divmod.
Qed.

Lemma get_pool_rest (st st' : ut_state) (t : Z) :
  rest_same st st' → is_sub_size t → get_pool st' t = get_pool st t.
Proof. intros [E1 E2 _ _] [-> | ->]; unfold get_pool; simpl; congruence. Qed.

Lemma live_alloc_list (st st' : ut_state) (n s a t : Z) (ow ow' : Z → Z) (ids : Z → list Z)
    (new : option (Z * Z)) :
  is_list_size s → list_alloc_post st st' n s ow ow' ids new →
  live st' n ow' a t ↔
    (∃ i k, new = Some (i, k) ∧ (a, t) = (pool_base st + i * 2 ^ 14 + k * 2 ^ s, s)) ∨
    live st n ow a t.
Proof.
  intros Hs [_ _ Hrest How _ Hlive Hnew]. destruct (decide (t = s)) as [-> | Ht].
  - unfold live. rewrite (rs_base _ _ Hrest). remember (a - pool_base st) as d eqn:Ed.
    assert (a = pool_base st + d) as -> by lia. clear Ed.
    assert (s ≠ 14 ∧ ¬ is_sub_size s) as [N1 N2] by (destruct Hs; unfold is_sub_size; lia).
    pose proof (list_offset_range d s Hs) as Hm. rewrite Hlive by done. split.
    + intros (Hr & Hd & [[? _] | [[? _] | [_ [[_ Hn] | Hl]]]]); [done | done | | tauto].
      left. eexists _, _. split; [done |]. f_equal.
      assert (d = d / 2 ^ 14 * 2 ^ 14 + d mod 2 ^ 14 / 2 ^ s * 2 ^ s) by (by apply list_address).
      lia.
    + intros [(i & k & Hn & [= E]) | (Hr & Hd & [[? _] | [[? _] | [_ Hl]]])]; [| done | done | tauto].
      destruct (Hnew i k Hn) as (Hi & Hk & _).
      assert (d = i * 2 ^ 14 + k * 2 ^ s) as Hdk by lia.
      destruct (list_block_range n i k s Hs Hi Hk) as [Hr Hd]. rewrite <- Hdk in Hr, Hd.
      split_and!; [lia | lia | done |]. right. right. split; [done |]. left. split; [done |].
      destruct (proj2 (list_address d i k s Hs Hk Hd) Hdk) as [-> ->]. done.
  - rewrite (live_frame st st' n a t ow ow'); try done.
    + split; [by right |]. intros [(? & ? & _ & [= _ ->]) | ?]; done.
    + apply Hrest.
    + intros -> i. apply How; lia.
    + intros Ht'. rewrite (get_pool_rest st st') by done. split; [done |].
      intros i. apply How; [destruct Ht'; lia | done].
    + intros Ht' j m Hm. rewrite Hlive by done. split; [by intros [[? _] | ?] | by right].
Qed.

Lemma live_free_list (st st' : ut_state) (n s i k a t : Z) (ow ow' : Z → Z) (ids : Z → list Z) :
  is_list_size s → 0 ≤ i < n → 0 ≤ k < per_slab s →
  list_free_post st st' n s i k ow ow' ids →
  live st' n ow' a t ↔
    (a, t) ≠ (pool_base st + i * 2 ^ 14 + k * 2 ^ s, s) ∧ live st n ow a t.
Proof.
  intros Hs Hi Hk [_ _ Hrest How _ Hlive]. destruct (decide (t = s)) as [-> | Ht].
  - unfold live. rewrite (rs_base _ _ Hrest). remember (a - pool_base st) as d eqn:Ed.
    assert (a = pool_base st + d) as -> by lia. clear Ed.
    assert (s ≠ 14 ∧ ¬ is_sub_size s) as [N1 N2] by (destruct Hs; unfold is_sub_size; lia).
    pose proof (list_offset_range d s Hs) as Hm. rewrite Hlive by done. split.
    + intros (Hr & Hd & [[? _] | [[? _] | [_ [Hn Hl]]]]); [done | done |].
      split; [| tauto]. intros [= E]. apply Hn. split; [done |].
      apply list_address; [done .. | lia].
    + intros (Hne & Hr & Hd & [[? _] | [[? _] | [_ Hl]]]); [done | done |].
      split_and!; [lia | lia | done |]. right. right. split; [done |]. split; [| done].
      intros (_ & Hdk). apply Hne. f_equal. apply list_address in Hdk; [lia | done ..].
  - rewrite (live_frame st st' n a t ow ow'); try done.
    + split; [| by intros [_ ?]]. intros ?. split; [congruence | done].
    + apply Hrest.
    + intros -> i'. apply How; lia.
    + intros Ht'. rewrite (get_pool_rest st st') by done. split; [done |].
      intros i'. apply How; [destruct Ht'; lia | done].
    + intros Ht' j m Hm. rewrite Hlive by done. tauto.
Qed.

Lemma live_free14 (st : ut_state) (n i a t : Z) (ow : Z → Z) (p14 : bitfield) :
  0 ≤ i < n → ow i = 14 →
  live (set_pool st 14 p14) n (upd ow i 0) a t ↔
    (a, t) ≠ (pool_base st + i * 2 ^ 14, 14) ∧ live st n ow a t.
Proof.
  intros Hi H0. destruct (decide (t = 14)) as [-> | Ht].
  - unfold live. change (pool_base (set_pool st 14 p14)) with (pool_base st).
    change (2 ^ 14) with 16384. remember (a - pool_base st) as d eqn:Ed.
    assert (¬ is_sub_size 14 ∧ ¬ is_list_size 14) as [N1 N2]
      by (unfold is_sub_size, is_list_size; lia).
    assert (a = pool_base st + d) as -> by lia. clear Ed.
    unfold upd. case_decide as Hd.
    + split; [by intros (_ & _ & [[_ ?] | [[? _] | [? _]]]) |].
      intros (Hne & Hr & Hm & _). exfalso. apply Hne. f_equal. divmod.
    + split; [| tauto]. intros (? & ? & ?). split; [| tauto].
      intros [= E]. apply Hd. assert (d = i * 16384) as -> by lia. divmod.
  - rewrite (live_frame st _ n a t ow (upd ow i 0)); try done.
    + split; [| by intros [_ ?]]. intros ?. split; [congruence | done].
    + intros Hs. rewrite get_set_pool, decide_False by tauto. split; [done |].
      intros j. unfold upd. case_decide; [subst; destruct Hs; split; lia | done].
    + intros Hs j m Hm. change (nodes (set_pool st 14 p14)) with (nodes st).
      unfold live_node, upd. case_decide; [subst | done].
      split; intros [? _]; destruct Hs; lia.
Qed.

Lemma live_free_sub (st st' : ut_state) (n s off a t : Z) (ow ow' : Z → Z) (bf bf' p14 : bitfield) :
  is_sub_size s → get_pool st s = Ret bf →
  sub_free_post st st' n s off ow ow' bf bf' p14 →
  live st' n ow' a t ↔ (a, t) ≠ (pool_base st + off * 2 ^ s, s) ∧ live st n ow a t.
Proof.
  intros Hs Hg [Hst Hok Hh _ Hlive How]. destruct (decide (t = s)) as [-> | Ht].
  - unfold live. rewrite Hst. rewrite get_set_pool, decide_True by tauto. rewrite Hg.
    change (pool_base (set_pool (set_pool st 14 p14) s bf')) with (pool_base st).
    remember (a - pool_base st) as d eqn:Ed. assert (a = pool_base st + d) as -> by lia.
    clear Ed. assert (s ≠ 14 ∧ ¬ is_list_size s) as [N1 N2]
      by (destruct Hs; unfold is_list_size; lia).
    assert ((∃ b, Ret bf' = Ret b ∧ live_bit b ow' s (d / 2 ^ s)) ↔ live_bit bf' ow' s (d / 2 ^ s)) as ->.
    { split; [by intros (b & [= <-] & ?) | eauto]. }
    assert ((∃ b, Ret bf = Ret b ∧ live_bit b ow s (d / 2 ^ s)) ↔ live_bit bf ow s (d / 2 ^ s)) as ->.
    { split; [by intros (b & [= <-] & ?) | eauto]. }
    assert (0 ≤ d < n * 2 ^ 14 ∧ d mod 2 ^ s = 0 → 0 ≤ d / 2 ^ s < n * per_slab s ∧
              (d / 2 ^ s = off ↔ d = off * 2 ^ s)) as Hd.
    { change (2 ^ 14) with 16384.
      destruct (per_slab_cases s Hs) as [[-> ->] | [-> ->]]; simpl; divmod. }
    split.
    + intros (Hr & Hm & [[? _] | [[_ Hl] | [? _]]]); [done | | done].
      destruct (Hd (conj Hr Hm)) as [Hk Hdk]. apply (Hlive _ Hk) in Hl as [E Hl].
      split; [| tauto]. intros [= E']. apply E, Hdk. lia.
    + intros (Hne & Hr & Hm & [[? _] | [[_ Hl] | [? _]]]); [done | | done].
      destruct (Hd (conj Hr Hm)) as [Hk Hdk]. split_and!; [lia | lia | done |].
      right. left. split; [done |]. apply Hlive; [done |]. split; [| done].
      intros E. apply Hne. f_equal. apply Hdk in E. lia.
  - rewrite (live_frame st st' n a t ow ow'); try done.
    + split; [| by intros [_ ?]]. intros ?. split; [congruence | done].
    + by rewrite Hst.
    + intros -> i. apply How; lia.
    + intros Ht'. rewrite Hst. rewrite get_set_pool, decide_False by tauto.
      rewrite get_set_pool, decide_False by (tauto || destruct Ht'; lia).
      split; [done |]. intros i. apply How; [destruct Ht'; lia | done].
    + intros Ht' j m Hm. rewrite Hst. unfold live_node. simpl.
      by rewrite How by (done || destruct Ht'; lia).
Qed.

(** ** [ut_alloc] *)

(** What a caller of [ut_alloc] may rely on. *)
Record alloc_result (base n : Z) (L : gset (Z * Z)) (s addr : Z) (st st' : ut_state) : Prop := {
  ar_dry : ∀ t, dry st' t → dry st t ∨ addr = 0 ∧ t = s;
  ar_stale : ∀ t, stale st' t → stale st t;
  ar_fail : addr = 0 → ut_repr base n st' L;
  ar_full : addr = 0 → ¬ is_list_size s →
    ∀ i, 0 ≤ i < n → ∃ b, b ∈ L ∧ (b.1 - base) / 2 ^ 14 = i;
  ar_ok : addr ≠ 0 →
    block_fits base n (addr, s) ∧ (∀ b, b ∈ L → disjoint_blocks (addr, s) b) ∧
    ut_repr base n st' ({[(addr, s)]} ∪ L)
}.

(** The pools whose hint is not in order are those of [st]. *)
Definition pools_from (st st' : ut_state) : Prop :=
  ∀ t bf, is_sub_size t → get_pool st' t = Ret bf → bf_hint_ok bf ∨ get_pool st t = Ret bf.

Lemma hints_from (st st' : ut_state) :
  (∀ s bf, is_sub_size s → get_pool st s = Ret bf → bf_hint_ok bf ∨ bf_next_free bf = -1) →
  pools_from st st' →
  ∀ s bf, is_sub_size s → get_pool st' s = Ret bf → bf_hint_ok bf ∨ bf_next_free bf = -1.
Proof. intros Hh Hf s bf Hs Hg. destruct (Hf s bf Hs Hg); [by left | by eapply Hh]. Qed.

Lemma dry_from (st st' : ut_state) (t : Z) : pools_from st st' → dry st' t → dry st t.
Proof.
  intros Hf (Ht & bf & Hg & Hn). split; [done |]. exists bf. split; [| done].
  destruct (Hf t bf Ht Hg); [unfold bf_hint_ok in *; lia | done].
Qed.

Lemma stale_from (st st' : ut_state) (t : Z) : pools_from st st' → stale st' t → stale st t.
Proof.
  intros Hf (Ht & bf & Hg & Hn & Ha). split; [done |]. exists bf. split_and!; [| done | done].
  destruct (Hf t bf Ht Hg); [unfold bf_hint_ok in *; lia | done].
Qed.

Lemma alloc_result_ok (base n s addr : Z) (st st' : ut_state) (L : gset (Z * Z))
    (ow ow' : Z → Z) (ids' : Z → list Z) :
  ut_repr base n st L → pools_from st st' →
  pool_base st' = base → initialised st' = true → addr ≠ 0 → pools_ok st' n ow' → lists_ok st' n ow' ids' →
  (∀ i, 0 ≤ i < n → ow' i = 0 ∨ is_size (ow' i)) →
  (∀ a t, (a, t) ∈ L ↔ live st n ow a t) →
  ¬ live st n ow addr s →
  (∀ a t, live st' n ow' a t ↔ (a, t) = (addr, s) ∨ live st n ow a t) →
  alloc_result base n L s addr st st'.
Proof.
  intros Hr Hh Hb Hi H0 Hok Hlo How HL Hnew Hlive.
  assert (live st' n ow' addr s) as Hl by (apply Hlive; by left).
  split; [| | done | done |].
  { intros t Ht. left. by eapply dry_from. }
  { intros t. by apply stale_from. }
  intros _. split_and!.
  - rewrite <- Hb. by eapply live_fits.
  - intros [b t] Hbt. assert (live st n ow b t) by (by apply HL).
    apply (live_disjoint st' n addr s b t ow'); [done | apply Hlive; by right |].
    congruence.
  - split; [done | done | by eapply hints_from; [apply Hr |] |].
    exists ow', ids'. split_and!; [done .. |].
    intros a t. rewrite elem_of_union, elem_of_singleton, HL, Hlive. done.
Qed.

(** A slab with an owner holds a live block. *)
Lemma owned_slab_live (st : ut_state) (n i : Z) (ow : Z → Z) (ids : Z → list Z) :
  pools_ok st n ow → lists_ok st n ow ids → 0 ≤ i < n → is_size (ow i) →
  ∃ a t, live st n ow a t ∧ (a - pool_base st) / 2 ^ 14 = i.
Proof.
  intros Hok Hlo Hi. remember (ow i) as t eqn:Et. intros [-> | [Hs | Hs]].
  - exists (pool_base st + i * 2 ^ 14), 14. unfold live.
    replace (pool_base st + i * 2 ^ 14 - pool_base st) with (i * 2 ^ 14) by lia.
    rewrite Z.div_mul, Z.mod_mul by lia. split; [| done]. split_and!; [lia | lia | done | by left].
  - destruct (po_sub _ _ _ Hok t Hs) as (bf & Hg & [_ _ _ Hu]).
    destruct (Hu i Hi (eq_sym Et)) as (k & Hk & Hf).
    exists (pool_base st + k * 2 ^ t), t. unfold live.
    replace (pool_base st + k * 2 ^ t - pool_base st) with (k * 2 ^ t) by lia.
    assert (k * 2 ^ t / 2 ^ t = k ∧ (k * 2 ^ t) mod 2 ^ t = 0 ∧ k * 2 ^ t / 2 ^ 14 = i ∧
            0 ≤ k * 2 ^ t < n * 2 ^ 14) as (E1 & E2 & E3 & E4).
    { change (2 ^ 14) with 16384.
      destruct (per_slab_cases t Hs) as [[-> Hp] | [-> Hp]]; rewrite Hp in Hk; simpl; divmod. }
    rewrite E1. split; [| done]. split_and!; [lia | lia | done |]. right. left.
    split; [done |]. exists bf. split; [done |]. split; [congruence | done].
  - destruct Hlo as [_ Hd]. destruct (da_own _ _ _ _ _ Hd t i Hs Hi (eq_sym Et)) as (id & bf & Hid & HD).
    destruct (da_node _ _ _ _ _ Hd t id Hs Hid) as (i' & bf' & HD' & [_ _ _ _ _ (k & Hk & Hf)]).
    rewrite HD in HD'. injection HD' as Hi' <-.
    exists (pool_base st + (i * 2 ^ 14 + k * 2 ^ t)), t. unfold live.
    replace (pool_base st + (i * 2 ^ 14 + k * 2 ^ t) - pool_base st)
      with (i * 2 ^ 14 + k * 2 ^ t) by lia.
    destruct (list_block_range n i k t Hs Hi Hk) as [Hr Hm].
    destruct (proj2 (list_address (i * 2 ^ 14 + k * 2 ^ t) i k t Hs Hk Hm) eq_refl) as [-> ->].
    split; [| done]. split_and!; [lia | lia | done |]. right. right.
    split; [done |]. split; [done |]. by exists id, bf.
Qed.

(** When no slab is free, every slab holds a live block. *)
Lemma no_free_slab (base n : Z) (st : ut_state) (L : gset (Z * Z)) (ow : Z → Z) (ids : Z → list Z) :
  pool_base st = base → pools_ok st n ow → lists_ok st n ow ids →
  (∀ i, 0 ≤ i < n → ow i = 0 ∨ is_size (ow i)) →
  (∀ a s, (a, s) ∈ L ↔ live st n ow a s) →
  (∀ i, 0 ≤ i < n → ow i ≠ 0) →
  ∀ i, 0 ≤ i < n → ∃ b, b ∈ L ∧ (b.1 - base) / 2 ^ 14 = i.
Proof.
  intros <- Hok Hlo Hk HL Hno i Hi.
  destruct (Hk i Hi) as [H0 | Hs]; [by apply Hno in H0 |].
  destruct (owned_slab_live st n i ow ids Hok Hlo Hi Hs) as (a & t & Hl & Hslab).
  exists (a, t). split; [by apply HL | done].
Qed.

Lemma kinds_kept (n s : Z) (ow ow' : Z → Z) :
  is_size s → (∀ j t, t ≠ 0 → t ≠ s → ow' j = t ↔ ow j = t) →
  (∀ i, 0 ≤ i < n → ow i = 0 ∨ is_size (ow i)) →
  ∀ i, 0 ≤ i < n → ow' i = 0 ∨ is_size (ow' i).
Proof.
  intros Hs How Hk i Hi. destruct (decide (ow' i = 0)) as [| H0]; [by left |].
  destruct (decide (ow' i = s)) as [-> |]; [by right |].
  assert (ow i = ow' i) as <- by (by apply How). by apply Hk.
Qed.

Lemma ut_alloc_14 (base n : Z) (st : ut_state) (L : gset (Z * Z)) :
  ut_repr base n st L →
  ∃ addr st', do_ut_alloc_from_bitfield st 14 = Ret (addr, st') ∧
    alloc_result base n L 14 addr st st'.
Proof.
  intros Hr. pose proof Hr as [Hb Hinit Hh (ow & ids & Hok & Hlo & Hk & HL)].
  destruct (alloc14_spec st n ow Hok) as [[E Hno] | (i & p14 & Hi & H0 & E & Hok')];
    rewrite E; eexists _, _; (split; [done |]).
  - split; [by left | done | done | | done]. intros _ _. by eapply no_free_slab.
  - apply (alloc_result_ok _ n 14 _ st _ L ow (upd ow i 14) ids); try done.
    + intros s bf Hs. rewrite get_set_pool, decide_False by (tauto || destruct Hs; lia). by right.
    + destruct (slab_address st n i ow Hok Hi). lia.
    + apply Hok'; [lia | unfold is_sub_size; lia].
    + eapply lists_ok_frame; [.. | exact Hlo]; try done.
      intros j t Ht. unfold upd. case_decide; [subst; destruct Ht; split; lia | done].
    + intros j Hj. unfold upd. case_decide; [right; by left | by apply Hk].
    + intros (_ & _ & Hl).
      replace ((pool_base st + i * 2 ^ 14 - pool_base st)) with (i * 2 ^ 14) in Hl by lia.
      rewrite Z.div_mul in Hl by lia. destruct Hl as [[_ ?] | [[[? | ?] _] | [[? | ?] _]]]; lia.
    + intros a t. by apply live_alloc14.
Qed.

Lemma ut_alloc_sub (base n s : Z) (st : ut_state) (L : gset (Z * Z)) :
  ut_repr base n st L → ¬ stale st s → is_sub_size s →
  ∃ addr st', do_ut_alloc_from_bitfield st s = Ret (addr, st') ∧
    alloc_result base n L s addr st st'.
Proof.
  intros Hr Hns Hs. pose proof Hr as [Hb Hinit Hh (ow & ids & Hok & Hlo & Hk & HL)].
  destruct (po_sub _ _ _ Hok s Hs) as (bf & Hg & Hsub).
  assert (hint_safe bf) as Hsafe.
  { destruct (Hh s bf Hs Hg) as [? | Hn]; [by left |]. right.
    destruct (decide (bf_available bf = 0)); [done |]. destruct Hns. split; [done |]. by exists bf. }
  destruct (alloc_sub_spec st n s ow bf Hok Hs Hg Hsafe)
    as [(E & Ha & Hno) | (off & st' & ow' & bf' & p14 & E & Hpost)];
    rewrite E; eexists _, _; (split; [done |]).
  - set (bf' := bf_with_next_free bf (-1)).
    assert (∀ a t, live (set_pool st s bf') n ow a t ↔ live st n ow a t) as Hlive.
    { intros a t. unfold live. rewrite get_set_pool by tauto. case_decide; [subst t | done].
      rewrite Hg. do 2 (apply and_iff_compat_l). apply or_iff; [done |]. apply or_iff; [| done].
      split; intros (? & b & [= <-] & Hlb); (split; [done |]); by eexists. }
    split; [| | | intros _ _; by eapply no_free_slab | done].
    + intros t (Ht & b & Hgb & Hn). rewrite get_set_pool in Hgb by tauto.
      case_decide; [by right | left]. split; [done |]. by exists b.
    + intros t (Ht & b & Hgb & Hn & Hav). rewrite get_set_pool in Hgb by tauto.
      case_decide; [injection Hgb as <-; by cbn in Hav |]. split; [done |]. by exists b.
    + intros _. split; [done | done | |].
      { intros t b Ht. rewrite get_set_pool by tauto.
        case_decide; [intros [= <-]; by right | by apply Hh]. }
      exists ow, ids. split_and!; [| | done |].
      * destruct Hok as [? ? H14 Hall]. split; [done | done | |].
        -- by rewrite get_set_pool, decide_False by (tauto || destruct Hs; lia).
        -- intros t Ht. rewrite get_set_pool by tauto. case_decide; [subst t | by apply Hall].
           exists bf'. split; [done |]. destruct Hsub as [[] ? ? ?]. by split.
      * by eapply lists_ok_frame; [.. | exact Hlo].
      * intros a t. rewrite HL. symmetry. apply Hlive.
  - pose proof Hpost as [Ho Hst Hok' Hh' Hnew Hlv How].
    assert (is_size s) as Hsz by (unfold is_size; tauto).
    apply (alloc_result_ok _ n s _ st _ L ow ow' ids); try done.
    + intros t b Ht. rewrite Hst, get_set_pool by tauto.
      case_decide; [intros [= <-]; by left |].
      rewrite get_set_pool, decide_False by (tauto || destruct Ht; lia). by right.
    + by rewrite Hst.
    + by rewrite Hst.
    + destruct (po_base _ _ _ Hok). destruct Hs as [-> | ->]; lia.
    + eapply lists_ok_frame; [.. | exact Hlo]; try (by rewrite Hst).
      intros j t Ht. apply How; destruct Ht, Hs; lia.
    + by eapply kinds_kept.
    + intros (_ & _ & Hl).
      replace ((pool_base st + off * 2 ^ s - pool_base st)) with (off * 2 ^ s) in Hl by lia.
      rewrite (Z.div_mul off) in Hl by (destruct Hs as [-> | ->]; lia).
      destruct Hl as [[? _] | [(_ & b & Hgb & ?) | [[? | ?] _]]]; [destruct Hs; lia | | destruct Hs; lia ..].
      rewrite Hg in Hgb. by injection Hgb as <-.
    + intros a t. by eapply live_alloc_sub.
Qed.

Lemma ut_alloc_list (base n s : Z) (st : ut_state) (L : gset (Z * Z)) :
  ut_repr base n st L → is_list_size s →
  ∃ addr st', do_ut_alloc_from_list st s = Ret (addr, st') ∧
    alloc_result base n L s addr st st'.
Proof.
  intros Hr Hs. pose proof Hr as [Hb Hinit Hh (ow & ids & Hok & Hlo & Hk & HL)].
  destruct (alloc_list_spec st n s ow ids Hok Hlo Hs)
    as (addr & st' & ow' & ids' & new & E & Hpost & Haddr).
  rewrite E. eexists _, _. split; [done |].
  pose proof (live_alloc_list st st' n s) as Hlive.
  pose proof Hpost as [Hok' Hlo' Hrest How _ _ Hnew].
  assert (is_size s) as Hsz by (unfold is_size; tauto).
  assert (pools_from st st') as Hh'.
  { intros t bf Ht. rewrite (get_pool_rest st st' t Hrest Ht). by right. }
  assert (pool_base st' = base) as Hb' by (rewrite (rs_base _ _ Hrest); done).
  assert (initialised st' = true) as Hi' by (by rewrite (rs_init _ _ Hrest)).
  destruct new as [[i k]|].
  - destruct (Hnew i k eq_refl) as (Hi & Hkk & Hnl).
    apply (alloc_result_ok _ n s _ st _ L ow ow' ids'); try done.
    + destruct (slab_address st n i ow Hok Hi). destruct Hs as [-> | ->]; lia.
    + by eapply kinds_kept.
    + intros (_ & Hm & Hl). rewrite Haddr in Hm, Hl.
      replace (pool_base st + i * 2 ^ 14 + k * 2 ^ s - pool_base st)
        with (i * 2 ^ 14 + k * 2 ^ s) in Hm, Hl by lia.
      destruct (proj2 (list_address (i * 2 ^ 14 + k * 2 ^ s) i k s Hs Hkk Hm) eq_refl) as [E1 E2].
      rewrite E1, E2 in Hl.
      destruct Hl as [[? _] | [[[? | ?] _] | [_ ?]]]; [destruct Hs; lia .. | done].
    + intros a t. rewrite (Hlive a t ow ow' ids' _ Hs Hpost), Haddr.
      split; (intros [H | ?]; [left | by right]).
      * by destruct H as (i' & k' & [= -> ->] & ?).
      * by exists i, k.
  - subst addr. split; [| | | done | done].
    { intros t Ht. left. by eapply dry_from. }
    { intros t. by apply stale_from. }
    intros _. split; [done | done | by eapply hints_from |].
    exists ow', ids'. split_and!; [done | done | by eapply kinds_kept |].
    intros a t. rewrite HL, (Hlive a t ow ow' ids' _ Hs Hpost). naive_solver.
Qed.

(** With a stale hint the search starts at the byte before the field. *)
Lemma bf_set_next_free_stale (bf : bitfield) :
  bf_wf bf → bf_next_free bf = -1 → bf_available bf ≠ 0 → bf_set_next_free bf = Fault OutOfBounds.
Proof.
  intros Hwf Hn Ha. unfold bf_set_next_free. destruct (Z.eqb_spec (bf_available bf) 0); [done |].
  cbn [negb]. unfold bf_find_next_free_byte. rewrite Hn.
  change (Z.quot (FLOOR (-1)) BITS_PER_BYTE) with (-1). pose proof (wf_size _ Hwf).
  rewrite CEILING_bytes by done. assert (0 ≤ (bf_size bf + 7) / 8) by divmod.
  by replace (Z.to_nat ((bf_size bf + 7) / 8 - -1)) with (S (Z.to_nat ((bf_size bf + 7) / 8))) by lia.
Qed.

Lemma ut_alloc_sub_stale (base n s : Z) (st : ut_state) (L : gset (Z * Z)) :
  ut_repr base n st L → stale st s → do_ut_alloc_from_bitfield st s = Fault OutOfBounds.
Proof.
  intros [_ _ _ (ow & ids & Hok & _)] (Hs & bf & Hg & Hn & Ha).
  destruct (po_sub _ _ _ Hok s Hs) as (b & Hb & [Hwf _ _ _]). rewrite Hg in Hb. injection Hb as <-.
  unfold do_ut_alloc_from_bitfield. rewrite Hg. cbn [mbind outcome_bind].
  by rewrite bf_set_next_free_stale.
Qed.

Lemma ut_alloc_eq (base n s : Z) (st : ut_state) (L : gset (Z * Z)) :
  ut_repr base n st L → is_size s →
  ut_alloc st s = if bool_decide (is_list_size s) then do_ut_alloc_from_list st s
                  else do_ut_alloc_from_bitfield st s.
Proof.
  intros [_ Hi _ (ow & ids & Hok & _)] Hs. unfold ut_alloc. rewrite Hi.
  destruct (po_14 _ _ _ Hok) as (bf & Hg & _). unfold get_pool in Hg. simpl in Hg.
  assert (is_Some (pool14 st)) as H14 by (by destruct (pool14 st); [eauto | discriminate]).
  rewrite (bool_decide_eq_true_2 _ H14). cbn [c_assert mbind outcome_bind].
  by destruct (is_size_cases s Hs) as [-> | [-> | [-> | [-> | ->]]]].
Qed.

(** When the pool's hint is not stale, [ut_alloc] answers. *)
Lemma ut_alloc_total (base n s : Z) (st : ut_state) (L : gset (Z * Z)) :
  ut_repr base n st L → ¬ stale st s → is_size s →
  ∃ addr st', ut_alloc st s = Ret (addr, st') ∧ alloc_result base n L s addr st st'.
Proof.
  intros Hr Hst Hs. rewrite (ut_alloc_eq base n s st L) by done. case_bool_decide as Hl.
  - by apply ut_alloc_list.
  - destruct Hs as [-> | [Hs | Hs]]; [by apply ut_alloc_14 | by apply ut_alloc_sub | done].
Qed.

(** When it is, [ut_alloc] reads outside the field. *)
Lemma ut_alloc_stale (base n s : Z) (st : ut_state) (L : gset (Z * Z)) :
  ut_repr base n st L → stale st s → ut_alloc st s = Fault OutOfBounds.
Proof.
  intros Hr Hst. pose proof Hst as [Hs _]. rewrite (ut_alloc_eq base n s st L); [| done | unfold is_size; tauto].
  rewrite bool_decide_eq_false_2 by (destruct Hs; subst; intros [? | ?]; lia).
  by eapply ut_alloc_sub_stale.
Qed.

#[export] Instance stale_dec (st : ut_state) (s : Z) : Decision (stale st s).
Proof.
  unfold stale. destruct (get_pool st s) as [bf | f].
  - destruct (decide (is_sub_size s ∧ bf_next_free bf = -1 ∧ bf_available bf ≠ 0)) as [H | H];
      [left | right; naive_solver].
    destruct H. split; [done |]. by exists bf.
  - right. naive_solver.
Defined.

(** [C2] [ut_alloc] implements allocation of a block, for every supported size
    and in every state that represents a set of live blocks.  As long as the
    size's pool does not have a stale search hint, the call returns: on 0 the set
    of live blocks is unchanged, and any other answer is the address of a block
    inside the managed memory, aligned to its size and disjoint from every live
    block, which becomes live; a size above 512 bytes is refused only when every
    slab holds a live block; the call makes no hint stale, and leaves -1 as a
    hint only when it fails.  With a stale hint, which takes a failed allocation
    of 1 or 4 KiB and a later release of a block of that size, the call reads the
    byte before the pool's bitfield. *)
Theorem ut_alloc_refines (base n s : Z) (st : ut_state) (L : gset (Z * Z)) :
  ut_repr base n st L → is_size s →
  if decide (stale st s) then ut_alloc st s = Fault OutOfBounds
  else ∃ addr st', ut_alloc st s = Ret (addr, st') ∧ alloc_result base n L s addr st st'.
Proof.
  intros Hr Hs. case_decide; [by eapply ut_alloc_stale | by apply ut_alloc_total].
Qed.

(** ** [ut_free] *)

Definition free_result (base n : Z) (L : gset (Z * Z)) (a s : Z) (st st' : ut_state) : Prop :=
  ut_repr base n st' (L ∖ {[(a, s)]}) ∧ (hints_ok st → hints_ok st').

(** The hints of [st'] are those of [st]. *)
Definition hints_kept (st st' : ut_state) : Prop :=
  ∀ t b, is_sub_size t → get_pool st' t = Ret b →
    ∃ b', get_pool st t = Ret b' ∧ bf_next_free b = bf_next_free b' ∧ bf_size b = bf_size b'.

Lemma hints_kept_ok (st st' : ut_state) : hints_kept st st' → hints_ok st → hints_ok st'.
Proof.
  intros Hh Hok t b Ht Hg. destruct (Hh t b Ht Hg) as (b' & Hg' & E1 & E2).
  specialize (Hok t b' Ht Hg'). unfold bf_hint_ok in *. lia.
Qed.

Lemma hints_kept_repr (st st' : ut_state) :
  (∀ s bf, is_sub_size s → get_pool st s = Ret bf → bf_hint_ok bf ∨ bf_next_free bf = -1) →
  hints_kept st st' →
  ∀ s bf, is_sub_size s → get_pool st' s = Ret bf → bf_hint_ok bf ∨ bf_next_free bf = -1.
Proof.
  intros Hr Hh t b Ht Hg. destruct (Hh t b Ht Hg) as (b' & Hg' & E1 & E2).
  destruct (Hr t b' Ht Hg'); [left; unfold bf_hint_ok in *; lia | right; lia].
Qed.

Lemma free_result_ok (base n a s : Z) (st st' : ut_state) (L : gset (Z * Z))
    (ow ow' : Z → Z) (ids' : Z → list Z) :
  ut_repr base n st L → hints_kept st st' → pool_base st' = base → initialised st' = true →
  pools_ok st' n ow' → lists_ok st' n ow' ids' →
  (∀ i, 0 ≤ i < n → ow' i = 0 ∨ is_size (ow' i)) →
  (∀ b t, (b, t) ∈ L ↔ live st n ow b t) →
  (∀ b t, live st' n ow' b t ↔ (b, t) ≠ (a, s) ∧ live st n ow b t) →
  free_result base n L a s st st'.
Proof.
  intros Hr Hh Hb Hi Hok Hlo Hk HL Hlive. split; [| by apply hints_kept_ok].
  split; [done | done | by eapply hints_kept_repr; [apply Hr |] |].
  exists ow', ids'. split_and!; [done .. |].
  intros b t. rewrite elem_of_difference, elem_of_singleton, HL, Hlive. tauto.
Qed.

Lemma ut_free_14 (base n a : Z) (st : ut_state) (L : gset (Z * Z)) :
  ut_repr base n st L → (a, 14) ∈ L →
  ∃ st', do_ut_free_from_bitfield st a 14 = Ret st' ∧ free_result base n L a 14 st st'.
Proof.
  intros Hrep. pose proof Hrep as [Hb Hinit _ (ow & ids & Hok & Hlo & Hk & HL)]. intros Hin.
  apply HL in Hin as Hl. pose proof (live_owner _ _ _ _ _ Hl) as Ho.
  destruct Hl as (Hr & Hm & _). set (i := (a - pool_base st) / 2 ^ 14) in *.
  assert (a = pool_base st + i * 2 ^ 14) as Ea
    by (unfold i; change (2 ^ 14) with 16384 in *; divmod).
  assert (0 ≤ i < n) as Hi by (unfold i; change (2 ^ 14) with 16384 in *; divmod).
  clearbody i. subst a.
  destruct (free14_spec st n i ow Hok Hi) as (p14 & -> & Hok'); [lia | rewrite Ho; unfold is_sub_size; lia |].
  eexists. split; [done |].
  apply (free_result_ok _ n _ _ st _ L ow (upd ow i 0) ids); try done.
  - intros s bf Hs. rewrite get_set_pool, decide_False by (tauto || destruct Hs; lia).
    intros Hg. by exists bf.
  - eapply lists_ok_frame; [.. | exact Hlo]; try done.
    intros j t Ht. unfold upd. case_decide; [subst; destruct Ht; split; lia | done].
  - intros j Hj. unfold upd. case_decide; [by left | by apply Hk].
  - intros b t. by apply live_free14.
Qed.

Lemma ut_free_sub (base n a s : Z) (st : ut_state) (L : gset (Z * Z)) :
  ut_repr base n st L → (a, s) ∈ L → is_sub_size s →
  ∃ st', do_ut_free_from_bitfield st a s = Ret st' ∧ free_result base n L a s st st'.
Proof.
  intros Hrep. pose proof Hrep as [Hb Hinit _ (ow & ids & Hok & Hlo & Hk & HL)]. intros Hin Hs.
  apply HL in Hin as Hl. destruct Hl as (Hr & Hm & Hl).
  destruct Hl as [[-> _] | [(_ & bf & Hg & Hl) | [Hs' _]]];
    [by destruct Hs | | by destruct Hs as [-> | ->], Hs'].
  set (k := (a - pool_base st) / 2 ^ s) in *.
  assert (a = pool_base st + k * 2 ^ s ∧ 0 ≤ k < n * per_slab s) as [Ea Hkr].
  { unfold k. change (2 ^ 14) with 16384 in *.
    destruct (per_slab_cases s Hs) as [[-> ->] | [-> ->]]; simpl in *; divmod. }
  clearbody k. subst a.
  destruct (free_sub_spec st n s k ow bf Hok Hs Hg Hkr Hl)
    as (st' & ow' & bf' & p14 & -> & Hpost).
  exists st'. split; [done |]. pose proof Hpost as [Hst Hok' Hhint Hsz _ How].
  apply (free_result_ok _ n _ _ st _ L ow ow' ids); try done.
  - intros t b Ht. rewrite Hst, get_set_pool by tauto. case_decide.
    + subst t. intros [= <-]. by exists bf.
    + rewrite get_set_pool, decide_False by (tauto || destruct Ht; lia). intros Hgb. by exists b.
  - by rewrite Hst.
  - by rewrite Hst.
  - eapply lists_ok_frame; [.. | exact Hlo]; try (by rewrite Hst).
    intros j t Ht. apply How; destruct Ht, Hs; lia.
  - eapply kinds_kept; [| exact How | done]. unfold is_size. tauto.
  - intros b t. by eapply live_free_sub.
Qed.

Lemma ut_free_list (base n a s : Z) (st : ut_state) (L : gset (Z * Z)) :
  ut_repr base n st L → (a, s) ∈ L → is_list_size s →
  ∃ st', do_ut_free_from_list st a s = Ret st' ∧ free_result base n L a s st st'.
Proof.
  intros Hrep. pose proof Hrep as [Hb Hinit _ (ow & ids & Hok & Hlo & Hk & HL)]. intros Hin Hs.
  apply HL in Hin as Hl. destruct Hl as (Hr & Hm & Hl).
  destruct Hl as [[-> _] | [[Hs' _] | [_ Hl]]];
    [by destruct Hs | by destruct Hs as [-> | ->], Hs' |].
  pose proof (list_offset_range (a - pool_base st) s Hs) as Hkr.
  set (i := (a - pool_base st) / 2 ^ 14) in *.
  set (k := (a - pool_base st) mod 2 ^ 14 / 2 ^ s) in *.
  assert (a = pool_base st + i * 2 ^ 14 + k * 2 ^ s ∧ 0 ≤ i < n) as [Ea Hi].
  { pose proof (proj1 (list_address (a - pool_base st) i k s Hs Hkr Hm)
      (conj eq_refl eq_refl)). split; [lia |]. unfold i. change (2 ^ 14) with 16384 in *. divmod. }
  clearbody i k. subst a.
  destruct (free_list_spec st n s i k ow ids Hok Hlo Hs Hi Hkr Hl)
    as (st' & ow' & ids' & -> & Hpost).
  exists st'. split; [done |]. pose proof Hpost as [Hok' Hlo' Hrest How _ _].
  apply (free_result_ok _ n _ _ st _ L ow ow' ids'); try done.
  - intros t b Ht. rewrite (get_pool_rest st st' t Hrest Ht). intros Hg. by exists b.
  - rewrite (rs_base _ _ Hrest). done.
  - by rewrite (rs_init _ _ Hrest).
  - eapply kinds_kept; [| exact How | done]. unfold is_size. tauto.
  - intros b t. by eapply live_free_list.
Qed.

Lemma mod_pow2_land (a s : Z) : 0 ≤ s → a mod 2 ^ s = 0 → Z.land a (Z.shiftl 1 s - 1) = 0.
Proof. intros Hs Ha. rewrite shiftl_1 by done. by rewrite land_low_bits. Qed.

Lemma ut_free_total (base n a s : Z) (st : ut_state) (L : gset (Z * Z)) :
  ut_repr base n st L → (a, s) ∈ L →
  ∃ st', ut_free st a s = Ret st' ∧ ut_repr base n st' (L ∖ {[(a, s)]}) ∧
    (hints_ok st → hints_ok st').
Proof.
  intros Hr Hin. pose proof Hr as [Hb _ _ (ow & ids & Hok & _ & _ & HL)].
  apply HL in Hin as Hl. pose proof (live_size _ _ _ _ _ Hl) as Hs.
  pose proof (live_fits _ _ _ _ _ Hok Hl) as (Hlo & Hhi & Hmod). simpl fst in *. simpl snd in *.
  destruct (po_base _ _ _ Hok) as [Hpos _].
  unfold ut_free. rewrite mod_pow2_land by (done || destruct (is_size_cases s Hs); lia).
  destruct (Z.eqb_spec a 0); [lia |]. cbn [negb c_assert mbind outcome_bind Z.eqb].
  destruct Hs as [-> | [Hs | Hs]].
  - by apply ut_free_14.
  - destruct Hs as [-> | ->]; apply ut_free_sub; unfold is_sub_size; tauto.
  - destruct Hs as [-> | ->]; apply ut_free_list; unfold is_list_size; tauto.
Qed.

(** [C12] [ut_free] of a live block returns without a fault and makes exactly
    that block dead: all other live blocks stay live at the same addresses. *)
Theorem ut_free_refines (base n a s : Z) (st : ut_state) (L : gset (Z * Z)) :
  ut_repr base n st L → (a, s) ∈ L →
  ∃ st', ut_free st a s = Ret st' ∧ ut_repr base n st' (L ∖ {[(a, s)]}) ∧
    (hints_ok st → hints_ok st').
Proof. apply ut_free_total. Qed.

(** ** [ut_allocator_init] *)

Lemma FLOOR14_spec (x : Z) : 0 ≤ x < 2 ^ 32 → FLOOR14 x = 2 ^ 14 * (x / 2 ^ 14).
Proof. intros. unfold FLOOR14. change (Z.shiftl 1 14) with (2 ^ 14). by apply andnot32_low. Qed.

Lemma CEILING14_spec (x : Z) :
  0 ≤ x → x + 2 ^ 14 - 1 < 2 ^ 32 → CEILING14 x = 2 ^ 14 * ((x + 2 ^ 14 - 1) / 2 ^ 14).
Proof.
  intros. unfold CEILING14. change (Z.shiftl 1 14) with (2 ^ 14).
  rewrite u32_small by lia. apply FLOOR14_spec. lia.
Qed.

Lemma new_bitfield_st_filled (st : ut_state) (size : Z) (ms : list bool) :
  0 ≤ size → mallocs st = true :: true :: ms →
  ∃ bf st', new_bitfield_st st size BITFIELD_INIT_FILLED = Ret (Some bf, st') ∧
    mallocs st' = ms ∧ nodes st' = nodes st ∧ fresh st' = fresh st ∧
    bf_wf bf ∧ bf_size bf = size ∧ bf_next_free bf = 0 ∧ ∀ i, bf_free bf i = false.
Proof.
  intros Hs Hm. unfold new_bitfield_st.
  destruct (malloc st) as [m1 st1] eqn:E1. unfold malloc in E1. rewrite Hm in E1.
  injection E1 as <- <-. simpl head. cbn [default from_option id].
  match goal with |- context [malloc ?s] => destruct (malloc s) as [m2 st2] eqn:E2 end.
  unfold malloc in E2. simpl in E2. injection E2 as <- <-. cbn beta iota.
  destruct (new_bitfield_filled size Hs) as (bf & -> & Hbf).
  eexists bf, _. split; [done |]. split_and!; try apply Hbf; done.
Qed.

(** The pools right after the slabs have been marked free. *)
Lemma init_repr (base n : Z) (st : ut_state) (p14 p12 p10 : bitfield) :
  st = mk_ut (Some p14) (Some p12) (Some p10) None None true base ∅ (fresh st) (mallocs st) →
  0 < base → base mod 2 ^ 14 = 0 → 0 ≤ n → base + n * 2 ^ 14 ≤ 2 ^ 32 →
  (bf_wf p14 ∧ bf_size p14 = n ∧ bf_hint_ok p14 ∧ ∀ k, 0 ≤ k < n → bf_free p14 k = true) →
  (bf_wf p12 ∧ bf_size p12 = n * 4 ∧ ∀ k, bf_free p12 k = false) →
  (bf_wf p10 ∧ bf_size p10 = n * 16 ∧ ∀ k, bf_free p10 k = false) →
  hints_ok st → ut_repr base n st ∅.
Proof.
  intros -> Hb1 Hb2 Hn1 Hn2 (W14 & S14 & H14 & F14) (W12 & S12 & F12) (W10 & S10 & F10) Hh.
  split; [done | done | intros s bf Hs Hg; left; by apply (Hh s) |]. exists (λ _, 0), (λ _, []). split_and!.
  - split; [done | done | |].
    + exists p14. split_and!; try done. intros k Hk. split; [done | intros _; by apply F14].
    + intros s [-> | ->]; unfold get_pool; simpl.
      * exists p10. split; [done |]. split; [done | done | | done].
        intros k. by rewrite F10.
      * exists p12. split; [done |]. split; [done | done | | done].
        intros k. by rewrite F12.
  - split.
    + split; simpl.
      * intros s [-> | ->]; split; done.
      * intros. constructor.
      * intros s t id _ _ Hx. by apply elem_of_nil in Hx.
      * intros id. rewrite lookup_empty. by intros [? ?].
      * intros id. rewrite lookup_empty. by intros [? ?].
    + split; simpl.
      * intros s id _ Hx. by apply elem_of_nil in Hx.
      * intros s i [-> | ->]; lia.
      * intros id id' b bf bf'. unfold node_data. by rewrite lookup_empty.
  - intros. by left.
  - intros a s. split; [set_solver |].
    intros (_ & _ & [[_ ?] | [([-> | ->] & b & _ & ? & _) | [[-> | ->] [? _]]]]); lia.
Qed.

Lemma ut_allocator_init_spec (low high : Z) (st : ut_state) (ms : list bool) :
  initialised st = false → nodes st = ∅ → mallocs st = replicate 6 true ++ ms →
  2 ^ 14 ≤ low → low ≤ high → high ≤ 2 ^ 32 - 2 ^ 14 →
  ∃ st', ut_allocator_init st low high = Ret st' ∧ hints_ok st' ∧
    ut_repr (2 ^ 14 * (low / 2 ^ 14)) ((high + 2 ^ 14 - 1) / 2 ^ 14 - low / 2 ^ 14) st' ∅.
Proof.
  intros Hi Hns Hm Hl1 Hl2 Hh. unfold ut_allocator_init. rewrite Hi.
  cbn [negb c_assert mbind outcome_bind]. rewrite FLOOR14_spec, CEILING14_spec by lia.
  set (base := 2 ^ 14 * (low / 2 ^ 14)).
  set (n := (high + 2 ^ 14 - 1) / 2 ^ 14 - low / 2 ^ 14).
  assert (0 < base ∧ base mod 2 ^ 14 = 0 ∧ 0 ≤ n ∧ base + n * 2 ^ 14 ≤ 2 ^ 32) as (B1 & B2 & B3 & B4).
  { unfold base, n. change (2 ^ 14) with 16384 in *. change (2 ^ 32) with 4294967296 in *. divmod. }
  assert (u32 (2 ^ 14 * ((high + 2 ^ 14 - 1) / 2 ^ 14) - base) = n * 2 ^ 14) as ->.
  { unfold base, n in *. rewrite u32_small; lia. }
  assert (Z.shiftr (n * 2 ^ 14) 14 = n ∧ Z.shiftr (n * 2 ^ 14) 12 = n * 4 ∧
          Z.shiftr (n * 2 ^ 14) 10 = n * 16) as (-> & -> & ->).
  { rewrite !shiftr_div by lia. split_and!; simpl; divmod. }
  clearbody base n.
  destruct (new_bitfield_st_filled st n (replicate 4 true ++ ms) B3 Hm)
    as (b14 & st1 & -> & M1 & N1 & _ & W14 & S14 & H14 & F14). cbn [mbind outcome_bind].
  destruct (new_bitfield_st_filled st1 (n * 4) (replicate 2 true ++ ms)) as
    (b12 & st2 & -> & M2 & N2 & _ & W12 & S12 & H12 & F12); [lia | done |].
  cbn [mbind outcome_bind].
  destruct (new_bitfield_st_filled st2 (n * 16) ms) as
    (b10 & st3 & -> & M3 & N3 & _ & W10 & S10 & H10 & F10); [lia | done |].
  cbn [mbind outcome_bind].
  destruct (bf_clr_range_spec (Z.to_nat n) b14 0 W14) as
    (p14 & Hclr & Wp & Sp & Hp & _ & Fp); [lia | lia | auto |].
  assert (match Z.to_nat n with
          | O => mret (Some b14)
          | S _ => p ← deref (Some b14); p ← bf_clr_range p 0 (Z.to_nat n); mret (Some p)
          end = Ret (Some p14)) as ->.
  { destruct (Z.to_nat n) as [|m] eqn:En; simpl in Hclr; [by injection Hclr as -> |].
    cbn [deref mbind outcome_bind bf_clr_range] in *. by rewrite Hclr. }
  cbn [mbind outcome_bind]. eexists. split; [done |].
  match goal with |- hints_ok ?st ∧ _ => assert (hints_ok st) as Hok end.
  { intros s bf [-> | ->]; unfold get_pool; simpl; intros [= <-]; unfold bf_hint_ok; lia. }
  split; [exact Hok |].
  - apply (init_repr base n _ p14 b12 b10); try done.
    + simpl. f_equal. congruence.
    + split_and!; [done | lia | unfold bf_hint_ok; lia ..|].
      intros k Hk. rewrite Fp. by rewrite decide_True by lia.
Qed.

(** [ut_allocator_init(low, high)] sets up an allocator with no live
    block over whole slabs that cover [low, high); the bounds are rounded
    outwards, so the managed memory is exactly [low, high) only when both bounds
    are multiples of 16 KiB. *)
Theorem ut_allocator_init_repr (low high : Z) (st : ut_state) (ms : list bool) :
  initialised st = false → nodes st = ∅ → mallocs st = replicate 6 true ++ ms →
  2 ^ 14 ≤ low → low ≤ high → high ≤ 2 ^ 32 - 2 ^ 14 →
  ∃ st' base n, ut_allocator_init st low high = Ret st' ∧
    hints_ok st' ∧ ut_repr base n st' ∅ ∧
    base ≤ low ∧ high ≤ base + n * 2 ^ 14 ∧
    (base = low ∧ base + n * 2 ^ 14 = high ↔ low mod 2 ^ 14 = 0 ∧ high mod 2 ^ 14 = 0).
Proof.
  intros Hi Hns Hm H1 H2 H3.
  destruct (ut_allocator_init_spec low high st ms Hi Hns Hm H1 H2 H3) as (st' & E & Hh & Hr).
  exists st', (2 ^ 14 * (low / 2 ^ 14)), ((high + 2 ^ 14 - 1) / 2 ^ 14 - low / 2 ^ 14).
  split; [exact E |]. split; [exact Hh |]. split; [exact Hr |].
  clear. change (2 ^ 14) with 16384. split_and!; [divmod | divmod | split; divmod].
Qed.

Lemma ut_allocator_init_repr_witness :
  ∃ st' base n, ut_allocator_init (ut_boot (replicate 6 true)) 20000 50000 = Ret st' ∧
    ut_repr base n st' ∅ ∧ base ≤ 20000.
Proof.
  destruct (ut_allocator_init_repr 20000 50000 (ut_boot (replicate 6 true)) [])
    as (st' & base & n & H1 & _ & H2 & H3 & _); [reflexivity .. | lia | lia | lia |].
  exists st', base, n. split; [exact H1 | split; [exact H2 | exact H3]].
Defined.

(** A small allocator for examples: two slabs at 16 KiB. *)
Definition ut_example : ut_state :=
  match ut_allocator_init (ut_boot (replicate 9 true)) 16384 49152 with
  | Ret st => st
  | Fault _ => ut_boot []
  end.

Lemma ut_example_repr : ut_repr 16384 2 ut_example ∅ ∧ hints_ok ut_example.
Proof.
  destruct (ut_allocator_init_spec 16384 49152 (ut_boot (replicate 9 true)) (replicate 3 true))
    as (st' & E & Hh & Hr); [done | done | done | lia | lia | lia |].
  unfold ut_example. by rewrite E.
Qed.

Lemma ut_alloc_refines_witness :
  ∃ addr st', ut_alloc ut_example 9 = Ret (addr, st') ∧ addr ≠ 0 ∧
    block_fits 16384 2 (addr, 9) ∧ ut_repr 16384 2 st' ({[(addr, 9)]} ∪ ∅).
Proof.
  assert (H := ut_alloc_refines 16384 2 9 ut_example ∅ (proj1 ut_example_repr)
                 (or_intror (or_intror (or_introl eq_refl)))).
  rewrite decide_False in H by (intros [[? | ?] _]; discriminate).
  destruct H as (addr & st' & H1 & H2).
  assert (addr ≠ 0) as H0.
  { intros ->. apply (f_equal (λ o, match o with Ret (a, _) => a | Fault _ => 0 end)) in H1.
    vm_compute in H1. discriminate. }
  exists addr, st'. split_and!; [exact H1 | exact H0 | | ]; apply H2; exact H0.
Defined.

(** The example after one 4 KiB allocation. *)
Lemma ut_example_live :
  ∃ st, ut_alloc ut_example 12 = Ret (16384, st) ∧ ut_repr 16384 2 st {[(16384, 12)]}.
Proof.
  destruct ut_example_repr as [Hr Hh].
  destruct (ut_alloc_sub 16384 2 12 ut_example ∅ Hr) as (addr & st' & H1 & H2).
  { apply hints_ok_stale, Hh. }
  { by right. }
  exists st'. assert (ut_alloc ut_example 12 = Ret (addr, st')) as H3.
  { rewrite <- H1. reflexivity. }
  assert (addr = 16384) as ->.
  { apply (f_equal (λ o, match o with Ret (a, _) => a | Fault _ => 0 end)) in H3.
    vm_compute in H3. by symmetry. }
  split; [exact H3 |]. destruct H2 as [_ _ _ _ H2].
  rewrite <- (union_empty_r_L {[(16384, 12)]}). apply H2. lia.
Qed.

Lemma ut_free_refines_witness :
  ∃ st st', ut_alloc ut_example 12 = Ret (16384, st) ∧ ut_free st 16384 12 = Ret st' ∧
    ut_repr 16384 2 st' ({[(16384, 12)]} ∖ {[(16384, 12)]}).
Proof.
  destruct ut_example_live as (st & H1 & H2).
  destruct (ut_free_refines 16384 2 16384 12 st {[(16384, 12)]}) as (st' & H3 & H4 & _).
  - exact H2.
  - apply elem_of_singleton. reflexivity.
  - exists st, st'. split_and!; [exact H1 | exact H3 | exact H4].
Defined.

(** Run a list of allocations of one size. *)
Fixpoint ut_allocs (st : ut_state) (s : Z) (k : nat) : outcome (list Z * ut_state) :=
  match k with
  | O => mret ([], st)
  | S k =>
      '(a, st) ← ut_alloc st s;
      '(l, st) ← ut_allocs st s k;
      mret (a :: l, st)
  end.

(** An allocation that fails leaves -1 as the search hint of its pool
    ([_bitfield_fill_pool] stores the failed offset): after a pool has run dry
    once and one of its blocks has been freed, the next [ut_alloc] of that size
    reads the byte before the bitfield, although a block is free. *)
Theorem ut_alloc_stale_hint :
  ∃ st, ut_allocs ut_example 12 9 =
      Ret ([16384; 20480; 24576; 28672; 32768; 36864; 40960; 45056; 0], st) ∧
    ∃ st', ut_free st 20480 12 = Ret st' ∧
      (∃ bf, pool12 st' = Some bf ∧ bf_free bf 1 = true ∧ bf_next_free bf = -1) ∧
      ut_alloc st' 12 = Fault OutOfBounds.
Proof.
  eexists. split; [vm_compute; reflexivity |].
  eexists. split; [vm_compute; reflexivity |].
  split; [| vm_compute; reflexivity].
  eexists. split_and!; vm_compute; reflexivity.
Qed.
