(* ===== verification/Leonardo.v ===== *)
(** Heaps of Leonardo trees.

    Smoothsort keeps an array as a row of trees whose sizes are Leonardo numbers.
    A tree of order [k >= 2] with its root at [r] has a right child of order
    [k - 2] with its root at [r - 1] and a left child of order [k - 1] in front of
    it.  This file has the algorithm on arrays that are functions from indices,
    with exchanges of two elements as the only change, and shows that it sorts.
    Qsort.v is the C code, QsortInv.v relates the two. *)

From S2P Require Import Prelude.
From Stdlib Require Import Sorted.

Fixpoint leo (k : nat) : Z :=
  match k with
  | S ((S k'') as k') => leo k' + leo k'' + 1
  | _ => 1
  end.

Lemma leo_SS k : leo (S (S k)) = leo (S k) + leo k + 1.
Proof. done. Qed.

Lemma leo_pos k : 1 ≤ leo k ∧ 1 ≤ leo (S k).
Proof. induction k as [|k IH]; [done |]. rewrite leo_SS. lia. Qed.

Lemma leo_step k : leo k ≤ leo (S k).
Proof. destruct k as [|k]; [done |]. rewrite leo_SS. pose proof (leo_pos k). lia. Qed.

Lemma leo_mono j k : (j ≤ k)%nat → leo j ≤ leo k.
Proof. induction 1 as [|k Hk IH]; [lia |]. pose proof (leo_step k). lia. Qed.

Global Arguments leo : simpl never.

Section arrays.
Context {A : Type}.
Implicit Types f g : Z → A.

(** * Exchanges *)

Definition swap f (i j : Z) : Z → A := λ k,
  if k =? i then f j else if k =? j then f i else f k.

Lemma swap_l f i j : swap f i j i = f j.
Proof. unfold swap. by rewrite Z.eqb_refl. Qed.

Lemma swap_r f i j : swap f i j j = f i.
Proof. unfold swap. rewrite Z.eqb_refl. by destruct (Z.eqb_spec j i) as [-> |]. Qed.

Lemma swap_ne f i j k : k ≠ i → k ≠ j → swap f i j k = f k.
Proof. intros. unfold swap. by rewrite !(proj2 (Z.eqb_neq _ _)). Qed.

(** [g] is [f] after exchanges between [lo] and [hi]. *)
Inductive swaps (lo hi : Z) : (Z → A) → (Z → A) → Prop :=
  | swaps_refl f : swaps lo hi f f
  | swaps_step f g i j : lo ≤ i ≤ hi → lo ≤ j ≤ hi → swaps lo hi (swap f i j) g → swaps lo hi f g.

Lemma swaps_trans lo hi f g h : swaps lo hi f g → swaps lo hi g h → swaps lo hi f h.
Proof. induction 1 as [|f g i j Hi Hj _ IH]; intros Hh; [done |]. apply (swaps_step _ _ _ _ i j); auto. Qed.

Lemma swaps_mono lo hi lo' hi' f g : lo' ≤ lo → hi ≤ hi' → swaps lo hi f g → swaps lo' hi' f g.
Proof.
  intros Hl Hh. induction 1 as [|f g i j Hi Hj _ IH]; [constructor |].
  apply (swaps_step _ _ _ _ i j); [lia | lia | done].
Qed.

Lemma swaps_out lo hi f g k : swaps lo hi f g → ¬ (lo ≤ k ≤ hi) → g k = f k.
Proof. intros Hs Hk. induction Hs as [|f g i j Hi Hj _ IH]; [done |]. rewrite IH. apply swap_ne; lia. Qed.

(** Every element comes from the range and is still in it. *)
Lemma swaps_from lo hi f g k : swaps lo hi f g → lo ≤ k ≤ hi → ∃ k', lo ≤ k' ≤ hi ∧ g k = f k'.
Proof.
  intros Hs. induction Hs as [|f g i j Hi Hj _ IH]; intros Hk; [by exists k |].
  destruct (IH Hk) as (k' & Hk' & ->). unfold swap.
  destruct (k' =? i); [by exists j |]. destruct (k' =? j); [by exists i | by exists k'].
Qed.

Lemma swaps_to lo hi f g k : swaps lo hi f g → lo ≤ k ≤ hi → ∃ k', lo ≤ k' ≤ hi ∧ f k = g k'.
Proof.
  intros Hs. revert k. induction Hs as [|f g i j Hi Hj _ IH]; intros k Hk; [by exists k |].
  destruct (Z.eq_dec k i) as [-> | Hni]; [destruct (IH j Hj) as (k' & ? & E); exists k'; by rewrite <- E, swap_r |].
  destruct (Z.eq_dec k j) as [-> | Hnj]; [destruct (IH i Hi) as (k' & ? & E); exists k'; by rewrite <- E, swap_l |].
  destruct (IH k Hk) as (k' & ? & E). exists k'. by rewrite <- E, swap_ne.
Qed.

Lemma swap_as_insert f i j n :
  0 ≤ i < Z.of_nat n → 0 ≤ j < Z.of_nat n →
  swap f i j <$> seqZ 0 (Z.of_nat n) =
    <[Z.to_nat i := f j]> (<[Z.to_nat j := f i]> (f <$> seqZ 0 (Z.of_nat n))).
Proof.
  intros Hi Hj. apply list_eq. intros k. rewrite list_lookup_fmap.
  destruct (decide (k < n)%nat) as [Hk | Hk].
  - rewrite lookup_seqZ_lt by lia. cbn [fmap option_fmap option_map]. unfold swap.
    destruct (Z.eqb_spec (0 + Z.of_nat k) i) as [Ei | Hni].
    { replace (Z.to_nat i) with k by lia. rewrite list_lookup_insert_eq; [done |].
      rewrite length_insert, length_fmap, length_seqZ. lia. }
    rewrite list_lookup_insert_ne by lia.
    destruct (Z.eqb_spec (0 + Z.of_nat k) j) as [Ej | Hnj].
    { replace (Z.to_nat j) with k by lia. rewrite list_lookup_insert_eq; [done |].
      rewrite length_fmap, length_seqZ. lia. }
    rewrite list_lookup_insert_ne by lia. by rewrite list_lookup_fmap, lookup_seqZ_lt by lia.
  - rewrite lookup_seqZ_ge by lia. symmetry. apply lookup_ge_None_2.
    rewrite !length_insert, length_fmap, length_seqZ. lia.
Qed.

Lemma insert2_perm (l : list A) i j x y :
  l !! i = Some x → l !! j = Some y → <[i := y]> (<[j := x]> l) ≡ₚ l.
Proof.
  intros Hi Hj. destruct (decide (i = j)) as [-> | Hne].
  { rewrite list_insert_insert_eq. by rewrite list_insert_id. }
  apply Permutation_inj. split; [by rewrite !length_insert |].
  set (s := λ k : nat, if decide (k = i) then j else if decide (k = j) then i else k).
  exists s. split.
  - intros a b. unfold s. repeat case_decide; congruence.
  - intros k. pose proof (lookup_lt_Some _ _ _ Hi). pose proof (lookup_lt_Some _ _ _ Hj). unfold s.
    destruct (decide (k = i)) as [-> |].
    { rewrite list_lookup_insert_eq by (by rewrite length_insert). done. }
    rewrite list_lookup_insert_ne by done.
    destruct (decide (k = j)) as [-> |]; [by rewrite list_lookup_insert_eq |]. by rewrite list_lookup_insert_ne.
Qed.

Lemma swaps_perm n f g :
  swaps 0 (Z.of_nat n - 1) f g → g <$> seqZ 0 (Z.of_nat n) ≡ₚ f <$> seqZ 0 (Z.of_nat n).
Proof.
  induction 1 as [|f g i j Hi Hj _ IH]; [done |]. rewrite IH, swap_as_insert by lia.
  apply insert2_perm; rewrite list_lookup_fmap, lookup_seqZ_lt by lia; cbn; do 2 f_equal; lia.
Qed.

(** * The algorithm *)

Variable cmp : A → A → Z.

(** Let the root of a tree sink to its place. *)
Fixpoint sift_ref (k : nat) (r : Z) f : Z → A :=
  match k with
  | S ((S k'') as k') =>
      let rt := r - 1 in
      let lf := r - 1 - leo k'' in
      if (0 <=? cmp (f r) (f lf)) && (0 <=? cmp (f r) (f rt)) then f
      else if 0 <=? cmp (f lf) (f rt) then sift_ref k' lf (swap f r lf)
      else sift_ref k'' rt (swap f r rt)
  | _ => f
  end.

(** Let the root of the last tree move to the tree where it belongs; [ks] are the orders of
    the trees, the last one first. *)
Fixpoint trinkle_ref (ks : list nat) (r : Z) (trusty : bool) f : Z → A :=
  match ks with
  | [] => f
  | k :: ks' =>
      let stop := if trusty then f else sift_ref k r f in
      match ks' with
      | [] => stop
      | _ =>
          let s := r - leo k in
          if cmp (f s) (f r) <=? 0 then stop
          else if negb trusty && (2 <=? k)%nat &&
                  ((0 <=? cmp (f (r - 1)) (f s)) || (0 <=? cmp (f (r - 1 - leo (k - 2))) (f s)))
          then stop
          else trinkle_ref ks' s false (swap f r s)
      end
  end.

Lemma sift_ref_SS k r f :
  sift_ref (S (S k)) r f =
    if (0 <=? cmp (f r) (f (r - 1 - leo k))) && (0 <=? cmp (f r) (f (r - 1))) then f
    else if 0 <=? cmp (f (r - 1 - leo k)) (f (r - 1))
    then sift_ref (S k) (r - 1 - leo k) (swap f r (r - 1 - leo k))
    else sift_ref k (r - 1) (swap f r (r - 1)).
Proof. done. Qed.

Lemma trinkle_ref_cons k k' ks r trusty f :
  trinkle_ref (k :: k' :: ks) r trusty f =
    let stop := if trusty then f else sift_ref k r f in
    let s := r - leo k in
    if cmp (f s) (f r) <=? 0 then stop
    else if negb trusty && (2 <=? k)%nat &&
            ((0 <=? cmp (f (r - 1)) (f s)) || (0 <=? cmp (f (r - 1 - leo (k - 2))) (f s)))
    then stop
    else trinkle_ref (k' :: ks) s false (swap f r s).
Proof. done. Qed.

(** Both only exchange elements of the trees. *)
Lemma sift_ref_swaps k r f : swaps (r - leo k + 1) r f (sift_ref k r f).
Proof.
  revert r f. induction k as [k IH] using lt_wf_ind. intros r f.
  destruct k as [|[|k]]; [constructor.. |]. rewrite sift_ref_SS.
  pose proof (leo_pos k). rewrite leo_SS.
  destruct (_ && _); [constructor |]. destruct (0 <=? _).
  - eapply swaps_step; [| | eapply swaps_mono; [| | apply IH; lia]]; lia.
  - eapply swaps_step; [| | eapply swaps_mono; [| | apply IH; lia]]; lia.
Qed.

Definition size (ks : list nat) : Z := foldr (λ k n, leo k + n) 0 ks.

Lemma size_nonneg ks : 0 ≤ size ks.
Proof. induction ks as [|k ks IH]; simpl; [lia |]. pose proof (leo_pos k). lia. Qed.

Lemma trinkle_ref_swaps ks r trusty f : size ks = r + 1 → swaps 0 r f (trinkle_ref ks r trusty f).
Proof.
  revert r trusty f. induction ks as [|k ks IH]; intros r trusty f Hs; [constructor |].
  cbn [trinkle_ref]. simpl in Hs. pose proof (leo_pos k). pose proof (size_nonneg ks).
  assert (swaps 0 r f (if trusty then f else sift_ref k r f)) as Hstop.
  { destruct trusty; [constructor |]. eapply swaps_mono; [| | apply sift_ref_swaps]; lia. }
  destruct ks as [|k' ks]; [done |]. destruct (_ <=? 0); [done |]. destruct (_ && _ && _); [done |].
  pose proof (leo_pos k'). pose proof (size_nonneg ks). simpl in Hs.
  eapply swaps_step; [| | eapply swaps_mono; [| | apply IH]]; simpl; lia.
Qed.

(** * Heap order *)

(** The comparison is consistent on the elements [D]. *)
Variable D : A → Prop.
Hypothesis cmp_sign : ∀ x y, D x → D y → (cmp x y ≤ 0 ↔ 0 ≤ cmp y x).
Hypothesis cmp_trans : ∀ x y z, D x → D y → D z → cmp x y ≤ 0 → cmp y z ≤ 0 → cmp x z ≤ 0.

Definition le (x y : A) : Prop := cmp x y ≤ 0.
Definition in_D f : Prop := ∀ k, D (f k).

Lemma le_refl x : D x → le x x.
Proof. intros Hx. unfold le. pose proof (cmp_sign x x Hx Hx). lia. Qed.

Lemma swap_in_D f i j : in_D f → in_D (swap f i j).
Proof. intros Hf k. unfold swap. by repeat case_match. Qed.

Lemma swaps_in_D lo hi f g : swaps lo hi f g → in_D f → in_D g.
Proof. induction 1 as [|f g i j _ _ _ IH]; intros Hf; [done |]. by apply IH, swap_in_D. Qed.

Lemma le_trans f i j k : in_D f → le (f i) (f j) → le (f j) (f k) → le (f i) (f k).
Proof. intros Hf. by apply cmp_trans. Qed.

(** The code tests [cmp x y >= 0]. *)
Lemma geb_spec f i j : in_D f → reflect (le (f j) (f i)) (0 <=? cmp (f i) (f j)).
Proof. intros Hf. apply iff_reflect. rewrite Z.leb_le. by apply cmp_sign. Qed.

Lemma not_le f i j : in_D f → ¬ le (f i) (f j) → le (f j) (f i).
Proof. intros Hf Hn. unfold le in *. apply cmp_sign; [done.. |]. lia. Qed.

Fixpoint heap (k : nat) (r : Z) f : Prop :=
  match k with
  | S ((S k'') as k') =>
      le (f (r - 1 - leo k'')) (f r) ∧ le (f (r - 1)) (f r) ∧
      heap k' (r - 1 - leo k'') f ∧ heap k'' (r - 1) f
  | _ => True
  end.

(** A heap except for its root. *)
Definition almost (k : nat) (r : Z) f : Prop :=
  match k with
  | S ((S k'') as k') => heap k' (r - 1 - leo k'') f ∧ heap k'' (r - 1) f
  | _ => True
  end.

Lemma heap_SS k r f :
  heap (S (S k)) r f ↔
  le (f (r - 1 - leo k)) (f r) ∧ le (f (r - 1)) (f r) ∧ heap (S k) (r - 1 - leo k) f ∧ heap k (r - 1) f.
Proof. done. Qed.

Lemma heap_almost k r f : heap k r f → almost k r f.
Proof. destruct k as [|[|k]]; [done.. |]. rewrite heap_SS. unfold almost. tauto. Qed.

Lemma heap_ext k r f g : (∀ j, r - leo k < j ≤ r → f j = g j) → heap k r f → heap k r g.
Proof.
  revert r. induction k as [k IH] using lt_wf_ind. intros r E.
  destruct k as [|[|k]]; [done.. |]. rewrite !heap_SS. pose proof (leo_pos k). rewrite leo_SS in E.
  rewrite !E by lia. intros (? & ? & H1 & H2). split_and!; [done | done | |].
  - apply (IH (S k)); [lia | | done]. intros j Hj. apply E. lia.
  - apply (IH k); [lia | | done]. intros j Hj. apply E. lia.
Qed.

Lemma almost_ext k r f g : (∀ j, r - leo k < j < r → f j = g j) → almost k r f → almost k r g.
Proof.
  intros E. destruct k as [|[|k]]; [done.. |]. pose proof (leo_pos k). rewrite leo_SS in E. unfold almost.
  intros [H1 H2]. split; (eapply heap_ext; [| done]); intros j Hj; apply E; lia.
Qed.

(** The root is the largest element. *)
Lemma heap_max k r f j : in_D f → heap k r f → r - leo k < j ≤ r → le (f j) (f r).
Proof.
  intros Hf. revert r j. induction k as [k IH] using lt_wf_ind. intros r j Hh Hj.
  destruct (Z.eq_dec j r) as [-> |]; [by apply le_refl |].
  destruct k as [|[|k]]; [unfold leo in Hj; lia.. |]. rewrite leo_SS in Hj.
  rewrite heap_SS in Hh. destruct Hh as (L1 & L2 & H1 & H2). pose proof (leo_pos k).
  destruct (decide (j ≤ r - 1 - leo k)).
  - apply (le_trans f j (r - 1 - leo k) r); [done | | done]. apply (IH (S k)); [lia | done | lia].
  - apply (le_trans f j (r - 1) r); [done | | done]. apply (IH k); [lia | done | lia].
Qed.

(** What sinks into a subtree leaves its root at most as large as any bound of the tree. *)
Lemma swaps_le_bound lo hi f g j x :
  swaps lo hi f g → lo ≤ j ≤ hi → (∀ i, lo ≤ i ≤ hi → le (f i) x) → le (g j) x.
Proof. intros Hs Hj Hx. destruct (swaps_from _ _ _ _ _ Hs Hj) as (i & Hi & ->). by apply Hx. Qed.

(** Exchanging a root with the root of a subtree that is not smaller, and sinking there. *)
Lemma sink k c r f :
  (∀ f, in_D f → almost k c f → heap k c (sift_ref k c f)) →
  in_D f → heap k c f → le (f r) (f c) → c < r →
  let g := sift_ref k c (swap f r c) in
  heap k c g ∧ le (g c) (g r) ∧ g r = f c ∧ (∀ j, j ≠ r → ¬ (c - leo k < j ≤ c) → g j = f j).
Proof.
  intros IH Hf Hh Hle Hr g. pose proof (leo_pos k) as [Hk _].
  pose proof (sift_ref_swaps k c (swap f r c)) as Hs. fold g in Hs.
  assert (g r = f c) as Er by (rewrite (swaps_out _ _ _ _ _ Hs) by lia; apply swap_l).
  split_and!; [| | done |].
  - apply IH; [by apply swap_in_D |]. apply (almost_ext k c f); [| by apply heap_almost].
    intros j Hj. rewrite swap_ne; [done | lia | lia].
  - rewrite Er. apply (swaps_le_bound _ _ _ _ c (f c) Hs); [lia |]. intros i Hi.
    destruct (Z.eq_dec i c) as [-> |]; [by rewrite swap_r |]. rewrite swap_ne by lia.
    apply (heap_max k); [done | done | lia].
  - intros j Hj Hout. rewrite (swaps_out _ _ _ _ _ Hs) by lia. apply swap_ne; [done |]. lia.
Qed.

Lemma sift_heap k r f : in_D f → almost k r f → heap k r (sift_ref k r f).
Proof.
  revert r f. induction k as [k IH] using lt_wf_ind. intros r f Hf Ha.
  destruct k as [|[|k]]; [done.. |]. rewrite sift_ref_SS. destruct Ha as [Hl Hr]. pose proof (leo_pos k) as [Hk HSk].
  set (lf := r - 1 - leo k) in *. set (rt := r - 1) in *.
  destruct (_ && _) eqn:Etop.
  { apply andb_true_iff in Etop as [E1 E2]. rewrite heap_SS.
    destruct (geb_spec f r lf Hf), (geb_spec f r rt Hf); done. }
  assert (¬ (le (f lf) (f r) ∧ le (f rt) (f r))) as Hn.
  { intros [H1 H2]. destruct (geb_spec f r lf Hf), (geb_spec f r rt Hf); done. }
  destruct (geb_spec f lf rt Hf) as [H3 | H3].
  - assert (le (f r) (f lf)) as Hle.
    { apply not_le; [done |]. intros H. apply Hn. split; [done |]. by apply (le_trans f rt lf r). }
    destruct (sink (S k) lf r f) as (Hh & Hc & Er & Eo); [intros; apply IH; [lia | done | done] | done.. | lia |].
    rewrite heap_SS. change (r - 1 - leo k) with lf. change (r - 1) with rt. split_and!; [done | | done |].
    + rewrite Er, (Eo rt) by lia. done.
    + apply (heap_ext k rt f); [| done]. intros j Hj. symmetry. apply Eo; lia.
  - apply not_le in H3; [| done]. assert (le (f r) (f rt)) as Hle.
    { apply not_le; [done |]. intros H. apply Hn. split; [| done]. by apply (le_trans f lf rt r). }
    destruct (sink k rt r f) as (Hh & Hc & Er & Eo); [intros; apply IH; [lia | done | done] | done.. | lia |].
    rewrite heap_SS. change (r - 1 - leo k) with lf. change (r - 1) with rt. split_and!; [| done | | done].
    + rewrite Er, (Eo lf) by lia. done.
    + apply (heap_ext (S k) lf f); [| done]. intros j Hj. symmetry. apply Eo; lia.
Qed.

(** * Rows of trees *)

(** The trees of the orders [ks] end at [r]; all are heaps and their roots ascend. *)
Fixpoint forest (ks : list nat) (r : Z) f : Prop :=
  match ks with
  | [] => r = -1
  | k :: ks' => heap k r f ∧ forest ks' (r - leo k) f ∧ (ks' ≠ [] → le (f (r - leo k)) (f r))
  end.

Lemma forest_size ks r f : forest ks r f → size ks = r + 1.
Proof. revert r. induction ks as [|k ks IH]; intros r; simpl; [lia |]. intros (_ & H & _). apply IH in H. lia. Qed.

Lemma forest_ext ks r f g : (∀ j, 0 ≤ j ≤ r → f j = g j) → forest ks r f → forest ks r g.
Proof.
  revert r. induction ks as [|k ks IH]; intros r E Hf; [done |]. pose proof (forest_size _ _ _ Hf) as Hs.
  destruct Hf as (Hh & Hfo & Hle). pose proof (leo_pos k). pose proof (size_nonneg ks). simpl in Hs. split_and!.
  - apply (heap_ext k r f); [| done]. intros j Hj. apply E. lia.
  - apply (IH _); [| done]. intros j Hj. apply E. lia.
  - intros Hne. rewrite <- !E; [by apply Hle | lia |]. destruct ks as [|k' ks]; [done |].
    pose proof (leo_pos k'). pose proof (size_nonneg ks). simpl in *. lia.
Qed.

(** The last root is the largest element of all. *)
Lemma forest_max ks r f j : in_D f → forest ks r f → 0 ≤ j ≤ r → le (f j) (f r).
Proof.
  intros Hf. revert r. induction ks as [|k ks IH]; intros r Hfo Hj; [simpl in Hfo; lia |].
  pose proof (forest_size _ _ _ Hfo) as Hs. destruct Hfo as (Hh & Hfo & Hle).
  destruct (decide (r - leo k < j)); [apply (heap_max k); [done | done | lia] |].
  assert (ks ≠ []) by (intros ->; simpl in Hs; lia).
  apply (le_trans f j (r - leo k) r); [done | | by apply Hle]. apply IH; [done | lia].
Qed.

(** Where the root stops: its tree becomes a heap, with a root that is not smaller than before
    nor than the roots of the subtrees. *)
Lemma stop_forest k ks r f trusty :
  in_D f → (trusty = true → heap k r f) → almost k r f → forest ks (r - leo k) f →
  (ks ≠ [] → ∃ j, r - leo k < j ≤ r ∧ le (f (r - leo k)) (f j)) →
  forest (k :: ks) r (if trusty then f else sift_ref k r f).
Proof.
  intros Hf Ht Ha Hfo Hs. pose proof (leo_pos k).
  set (g := if trusty then f else sift_ref k r f).
  assert (swaps (r - leo k + 1) r f g) as Hsw by (unfold g; destruct trusty; [constructor | apply sift_ref_swaps]).
  assert (heap k r g) as Hh by (unfold g; destruct trusty; [by apply Ht | by apply sift_heap]).
  pose proof (swaps_in_D _ _ _ _ Hsw Hf) as Hg.
  split_and!; [done | |].
  - apply (forest_ext ks _ f); [| done]. intros j Hj. symmetry. apply (swaps_out _ _ _ _ _ Hsw). lia.
  - intros Hne. destruct (Hs Hne) as (j & Hj & Hle).
    destruct (swaps_to _ _ _ _ j Hsw ltac:(lia)) as (j' & Hj' & Ej).
    assert (g (r - leo k) = f (r - leo k)) as Es by (apply (swaps_out _ _ _ _ _ Hsw); lia).
    apply (le_trans g (r - leo k) j' r); [done | by rewrite Es, <- Ej |]. apply (heap_max k); [done | done | lia].
Qed.

Lemma trinkle_forest k ks r f trusty :
  in_D f → (trusty = true → heap k r f) → almost k r f → forest ks (r - leo k) f →
  forest (k :: ks) r (trinkle_ref (k :: ks) r trusty f).
Proof.
  revert k r f trusty. induction ks as [|k' ks IH]; intros k r f trusty Hf Ht Ha Hfo.
  { apply stop_forest; done. }
  rewrite trinkle_ref_cons. cbv zeta. pose proof (leo_pos k) as [Hk _]. set (s := r - leo k) in *.
  destruct (Z.leb_spec (cmp (f s) (f r)) 0) as [Hle | Hgt].
  { apply stop_forest; [done.. |]. intros _. exists r. split; [lia | done]. }
  assert (le (f r) (f s)) as Hrs by (apply not_le; [done | unfold le; lia]).
  destruct (negb trusty && (2 <=? k)%nat && _) eqn:Estop.
  { apply andb_true_iff in Estop as [[_ Hk2]%andb_true_iff Ho]. apply Nat.leb_le in Hk2.
    apply stop_forest; [done.. |]. intros _. destruct k as [|[|k]]; [lia.. |].
    replace (S (S k) - 2)%nat with k in Ho by lia. pose proof (leo_pos k). unfold s in *. rewrite leo_SS in *.
    apply orb_true_iff in Ho as [Ho | Ho].
    - exists (r - 1). split; [lia |]. by destruct (geb_spec f (r - 1) (r - (leo (S k) + leo k + 1)) Hf).
    - exists (r - 1 - leo k). split; [lia |].
      by destruct (geb_spec f (r - 1 - leo k) (r - (leo (S k) + leo k + 1)) Hf). }
  pose proof (forest_size _ _ _ Hfo) as Hsz. simpl in Hsz. pose proof (leo_pos k'). pose proof (size_nonneg ks).
  set (f' := swap f r s). assert (in_D f') as Hf' by (by apply swap_in_D).
  pose proof Hfo as (Hh' & Hfo' & Hle').
  assert (forest (k' :: ks) s (trinkle_ref (k' :: ks) s false f')) as Hrec.
  { apply IH; [done | done | |].
    - apply (almost_ext k' s f); [| by apply heap_almost]. intros j Hj. unfold f'. rewrite swap_ne; [done | lia | lia].
    - apply (forest_ext ks _ f); [| done]. intros j Hj. unfold f'. rewrite swap_ne; [done | lia | lia]. }
  assert (swaps 0 s f' (trinkle_ref (k' :: ks) s false f')) as Hsw by (apply trinkle_ref_swaps; simpl; lia).
  set (g := trinkle_ref (k' :: ks) s false f') in *.
  assert (∀ j, s < j → j ≠ r → g j = f j) as Eo.
  { intros j Hj Hne. rewrite (swaps_out _ _ _ _ _ Hsw) by lia. unfold f'. apply swap_ne; lia. }
  assert (g r = f s) as Er by (rewrite (swaps_out _ _ _ _ _ Hsw) by lia; apply swap_l).
  clearbody g. split; [| split; [exact Hrec |]].
  - destruct k as [|[|k]]; [done.. |]. replace (S (S k) - 2)%nat with k in Estop by lia.
    pose proof (leo_pos k). unfold s in *. rewrite leo_SS in *. destruct Ha as [Ha1 Ha2].
    assert (le (f (r - 1 - leo k)) (f (r - (leo (S k) + leo k + 1))) ∧ le (f (r - 1)) (f (r - (leo (S k) + leo k + 1)))) as [L1 L2].
    { destruct trusty.
      - destruct (Ht eq_refl) as (L1 & L2 & _). split; (eapply (le_trans f _ r); [done | done | done]).
      - cbn [negb andb] in Estop. change (2 <=? S (S k))%nat with true in Estop. cbn [andb] in Estop.
        apply orb_false_iff in Estop as [O1 O2]. split; (apply not_le; [done |]; intros H').
        + by destruct (geb_spec f (r - 1 - leo k) (r - (leo (S k) + leo k + 1)) Hf).
        + by destruct (geb_spec f (r - 1) (r - (leo (S k) + leo k + 1)) Hf). }
    rewrite heap_SS, Er, !Eo by lia. split_and!; [done | done | |].
    + apply (heap_ext (S k) _ f); [| done]. intros j Hj. symmetry. apply Eo; lia.
    + apply (heap_ext k _ f); [| done]. intros j Hj. symmetry. apply Eo; lia.
  - intros _. rewrite Er. apply (swaps_le_bound 0 s f' g s (f s) Hsw); [lia |]. intros i Hi. unfold f'.
    destruct (Z.eq_dec i s) as [-> |]; [by rewrite swap_r |]. rewrite swap_ne by lia.
    by apply (forest_max (k' :: ks)).
Qed.

(** * Sorting *)

(** The orders of the trees when one more element is added. *)
Definition grow (ks : list nat) : list nat :=
  match ks with
  | k :: k' :: ks' => if (k' =? S k)%nat then S k' :: ks' else if (k =? 1)%nat then 0%nat :: ks else 1%nat :: ks
  | [k] => if (k =? 1)%nat then [0%nat; k] else [1%nat; k]
  | [] => [1%nat]
  end.

(** Two trees that the next element joins. *)
Definition adjacent (ks : list nat) : bool :=
  match ks with
  | k :: k' :: _ => (k' =? S k)%nat
  | _ => false
  end.

(** What is done with the last tree before: it sinks, or moves to its place when it is not
    going to be part of another tree. *)
Definition build_step (n : Z) (ks : list nat) (r : Z) f : Z → A :=
  match ks with
  | [] => f
  | k :: _ =>
      if adjacent ks then sift_ref k r f
      else if n - 1 - r <=? leo (k - 1) then trinkle_ref ks r false f
      else sift_ref k r f
  end.

Fixpoint build_ref (t : nat) (n : Z) (ks : list nat) (r : Z) f : list nat * (Z → A) :=
  match t with
  | O => (ks, f)
  | S t' => build_ref t' n (grow ks) (r + 1) (build_step n ks r f)
  end.

(** Take the last root away. *)
Fixpoint unbuild_ref (t : nat) (ks : list nat) (r : Z) f : Z → A :=
  match t with
  | O => f
  | S t' =>
      match ks with
      | [] => f
      | S ((S k'') as k') :: ks' =>
          let f1 := trinkle_ref (k' :: ks') (r - 1 - leo k'') true f in
          let f2 := trinkle_ref (k'' :: k' :: ks') (r - 1) true f1 in
          unbuild_ref t' (k'' :: k' :: ks') (r - 1) f2
      | _ :: ks' => unbuild_ref t' ks' (r - 1) f
      end
  end.

Definition smoothsort_ref (n : nat) f : Z → A :=
  let '(ks, f1) := build_ref (n - 1) (Z.of_nat n) [1%nat] 0 f in
  unbuild_ref (n - 1) ks (Z.of_nat n - 1) (trinkle_ref ks (Z.of_nat n - 1) false f1).

(** The shapes that occur: orders grow by two or more, except between the last two trees. *)
Fixpoint spread (k : nat) (ks : list nat) : Prop :=
  match ks with
  | [] => True
  | k' :: ks' => (k + 2 ≤ k')%nat ∧ spread k' ks'
  end.

Definition wf (ks : list nat) : Prop :=
  match ks with
  | [] => False
  | [k] => k ≠ 0%nat
  | k :: k' :: ks' => (k < k')%nat ∧ spread k' ks' ∧ (k = 0%nat → k' = 1%nat)
  end.

Lemma spread_weaken j k ks : (j ≤ k)%nat → spread k ks → spread j ks.
Proof. destruct ks as [|k' ks]; [done |]. simpl. intros ? [? ?]. split; [lia | done]. Qed.

Lemma wf_cons k ks : spread k ks → k ≠ 0%nat → wf (k :: ks).
Proof. destruct ks as [|k' ks]; [done |]. simpl. intros [? ?] ?. split_and!; [lia | done | done]. Qed.

Lemma wf_spread k ks : wf (k :: ks) → adjacent (k :: ks) = false → spread k ks ∧ k ≠ 0%nat.
Proof.
  destruct ks as [|k' ks]; [done |]. simpl. intros (? & ? & H0) ?%Nat.eqb_neq.
  split; [split; [lia | done] |]. intros ->. specialize (H0 eq_refl). lia.
Qed.

Lemma grow_wf ks : wf ks → wf (grow ks) ∧ size (grow ks) = size ks + 1.
Proof.
  destruct ks as [|k [|k' ks]]; [done | |]; cbn [grow].
  - intros Hk. simpl in Hk. destruct (Nat.eqb_spec k 1) as [-> |]; simpl; [split; [split_and!; [lia | done | done] | done] |].
    split; [split_and!; [lia | done | done] | change (leo 1) with 1; lia].
  - intros (Hk & Hs & H0). destruct (Nat.eqb_spec k' (S k)) as [-> | Hne].
    + cbn [size foldr]. rewrite leo_SS. split; [| lia]. destruct ks as [|k3 ks]; [done |].
      destruct Hs as [? ?]. split_and!; [lia | done | done].
    + assert (k ≠ 0%nat) by lia. destruct (Nat.eqb_spec k 1) as [-> |]; cbn [size foldr].
      * change (leo 0) with 1. split; [| lia]. split_and!; [lia | | done]. split; [lia | done].
      * change (leo 1) with 1. split; [| lia]. split_and!; [lia | | done]. split; [lia | done].
Qed.

Lemma wf_tail k ks : wf (k :: ks) → ks ≠ [] → wf ks.
Proof. destruct ks as [|k' ks]; [done |]. intros (Hk & Hs & _) _. apply wf_cons; [done | lia]. Qed.

Lemma wf_split k ks : wf (S (S k) :: ks) → wf (k :: S k :: ks).
Proof.
  intros Hw. split_and!; [lia | | lia]. destruct ks as [|k' ks]; [done |]. destruct Hw as (Hk & Hs & _).
  split; [lia | done].
Qed.

(** Whatever the comparison says, elements are only exchanged. *)
Lemma unbuild_swaps t ks r f :
  wf ks → size ks = r + 1 → r = Z.of_nat t → swaps 0 r f (unbuild_ref t ks r f).
Proof.
  revert ks r f. induction t as [|t IH]; intros ks r f Hw Hs Hr; cbn [unbuild_ref]; [constructor |].
  destruct ks as [|k ks]; [done |]. simpl in Hs. pose proof (size_nonneg ks).
  assert (∀ ks' g, swaps 0 (r - 1) f g → wf ks' → size ks' = r → swaps 0 r f (unbuild_ref t ks' (r - 1) g)) as Hgo.
  { intros ks' g Hg Hw' Hs'. eapply swaps_mono; [| | eapply swaps_trans; [exact Hg | apply IH]]; [lia | lia | done | lia | lia]. }
  destruct k as [|[|k]].
  - change (leo 0) with 1 in Hs. apply Hgo; [constructor | | lia]. eapply wf_tail; [done |]. intros ->. simpl in Hs. lia.
  - change (leo 1) with 1 in Hs. apply Hgo; [constructor | | lia]. eapply wf_tail; [done |]. intros ->. simpl in Hs. lia.
  - rewrite leo_SS in Hs. pose proof (leo_pos k). apply Hgo; [| by apply wf_split | simpl; lia].
    eapply swaps_trans; [apply (swaps_mono 0 (r - 1 - leo k)); [lia | lia |] |]; apply trinkle_ref_swaps; simpl; lia.
Qed.

Lemma build_step_swaps n ks r f : wf ks → size ks = r + 1 → swaps 0 r f (build_step n ks r f).
Proof.
  intros Hw Hs. destruct ks as [|k ks]; [done |]. unfold build_step. simpl in Hs. pose proof (size_nonneg ks).
  assert (swaps 0 r f (sift_ref k r f)) by (eapply swaps_mono; [| | apply sift_ref_swaps]; lia).
  destruct (adjacent _); [done |]. destruct (_ <=? _); [by apply trinkle_ref_swaps | done].
Qed.

Lemma build_shape t n ks r f ks' g :
  wf ks → size ks = r + 1 → build_ref t n ks r f = (ks', g) →
  wf ks' ∧ size ks' = r + Z.of_nat t + 1 ∧ swaps 0 (r + Z.of_nat t) f g.
Proof.
  revert ks r f. induction t as [|t IH]; intros ks r f Hw Hs E; cbn [build_ref] in E.
  - injection E as <- <-. split_and!; [done | lia | constructor].
  - destruct (grow_wf ks Hw) as [Hw' Hs']. apply IH in E as (H1 & H2 & H3); [| done | lia].
    split_and!; [done | lia |].
    eapply swaps_trans; [eapply swaps_mono; [| | by apply (build_step_swaps n ks)] |]; [lia | lia |].
    by replace (r + Z.of_nat (S t)) with (r + 1 + Z.of_nat t) by lia.
Qed.

Lemma smoothsort_swaps n f : (0 < n)%nat → swaps 0 (Z.of_nat n - 1) f (smoothsort_ref n f).
Proof.
  intros Hn. unfold smoothsort_ref. destruct (build_ref _ _ _ _ _) as [ks f1] eqn:E.
  assert (wf [1%nat] ∧ size [1%nat] = 0 + 1) as [Hw Hs] by (split; [simpl; lia | done]).
  destruct (build_shape _ _ _ _ _ _ _ Hw Hs E) as (Hw' & Hs' & Sw).
  replace (0 + Z.of_nat (n - 1)) with (Z.of_nat n - 1) in * by lia.
  eapply swaps_trans; [exact Sw |]. eapply swaps_trans; [by apply (trinkle_ref_swaps ks _ false) |]. apply unbuild_swaps; [done | lia | lia].
Qed.

(** The trees in front of the last one while the row is built: heaps, and those that stay are
    in order. *)
Fixpoint settled (n : Z) (ks : list nat) (r : Z) f : Prop :=
  match ks with
  | [] => r = -1
  | k :: ks' =>
      heap k r f ∧ settled n ks' (r - leo k) f ∧
      (n - 1 - r ≤ leo (k - 1) → forest (k :: ks') r f)
  end.

Lemma settled_size n ks r f : settled n ks r f → size ks = r + 1.
Proof. revert r. induction ks as [|k ks IH]; intros r; simpl; [lia |]. intros (_ & H & _). apply IH in H. lia. Qed.

Lemma settled_ext n ks r f g : (∀ j, 0 ≤ j ≤ r → f j = g j) → settled n ks r f → settled n ks r g.
Proof.
  revert r. induction ks as [|k ks IH]; intros r E Hs; [done |]. pose proof (settled_size _ _ _ _ Hs) as Hz.
  destruct Hs as (Hh & Hs & Hfo). pose proof (leo_pos k). pose proof (size_nonneg ks). simpl in Hz. split_and!.
  - apply (heap_ext k r f); [| done]. intros j Hj. apply E. lia.
  - apply IH; [| done]. intros j Hj. apply E. lia.
  - intros Hn. apply (forest_ext _ _ f); [done |]. by apply Hfo.
Qed.

Lemma forest_settled n ks r f : forest ks r f → settled n ks r f.
Proof.
  revert r. induction ks as [|k ks IH]; intros r Hf; [done |]. pose proof Hf as (Hh & Hf' & _).
  split_and!; [done | by apply IH | done].
Qed.

(** The trees in front of one that stays are in order. *)
Lemma settled_forest n k ks r f :
  settled n ks (r - leo k) f →
  match ks with [] => True | k' :: _ => n - 1 - (r - leo k) ≤ leo (k' - 1) end →
  forest ks (r - leo k) f.
Proof. destruct ks as [|k' ks]; [done |]. intros (_ & _ & H). apply H. Qed.

Lemma stays k k' n r : (k + 2 ≤ k')%nat → (1 ≤ k)%nat → n - 1 - r ≤ leo (k - 1) → n - 1 - (r - leo k) ≤ leo (k' - 1).
Proof.
  intros Hk H1 Hn. pose proof (leo_mono (S k) (k' - 1) ltac:(lia)). destruct k as [|k]; [lia |].
  rewrite leo_SS in *. replace (S k - 1)%nat with k in Hn by lia. lia.
Qed.

Definition build_inv (n : Z) (ks : list nat) (r : Z) f : Prop :=
  wf ks ∧ match ks with [] => False | k :: ks' => almost k r f ∧ settled n ks' (r - leo k) f end.

Lemma build_step_settles n k ks r f :
  in_D f → build_inv n (k :: ks) r f →
  let g := build_step n (k :: ks) r f in
  heap k r g ∧ settled n ks (r - leo k) g ∧ (adjacent (k :: ks) = false → settled n (k :: ks) r g).
Proof.
  intros Hf (Hw & Ha & Hs) g. pose proof (leo_pos k) as [Hk _].
  assert (settled n ks (r - leo k) (sift_ref k r f)) as Hs'.
  { apply (settled_ext n ks _ f); [| done]. intros j Hj. symmetry. apply (swaps_out _ _ _ _ _ (sift_ref_swaps k r f)). lia. }
  pose proof (sift_heap k r f Hf Ha) as Hh. unfold g, build_step.
  destruct (adjacent (k :: ks)) eqn:Ea; [done |]. destruct (wf_spread _ _ Hw Ea) as [Hsp Hk0].
  assert (∀ h, settled n (k :: ks) r h → heap k r h ∧ settled n ks (r - leo k) h ∧ (false = false → settled n (k :: ks) r h)) as Hall.
  { intros h Hse. pose proof Hse as (? & ? & _). done. }
  apply Hall. destruct (Z.leb_spec (n - 1 - r) (leo (k - 1))) as [Hn | Hn].
  - apply forest_settled, trinkle_forest; [done | done | done |]. eapply settled_forest; [done |].
    destruct ks as [|k' ks]; [done |]. destruct Hsp as [Hkk _]. apply stays; [done | lia | done].
  - split_and!; [done | done |]. intros. lia.
Qed.

Lemma build_inv_step n ks r f :
  in_D f → build_inv n ks r f → build_inv n (grow ks) (r + 1) (build_step n ks r f).
Proof.
  intros Hf Hi. pose proof Hi as [Hw _]. split; [by apply grow_wf |]. destruct ks as [|k ks]; [done |].
  destruct (build_step_settles n k ks r f Hf Hi) as (Hh & Hs & Hn).
  set (g := build_step n (k :: ks) r f) in *. clearbody g. destruct (adjacent (k :: ks)) eqn:Ea.
  - destruct ks as [|k' ks]; [done |]. cbn [adjacent] in Ea. cbn [grow]. rewrite Ea. apply Nat.eqb_eq in Ea as ->.
    destruct Hs as (H2 & H3 & _). rewrite leo_SS. split.
    + unfold almost. replace (r + 1 - 1) with r by lia. done.
    + by replace (r + 1 - (leo (S k) + leo k + 1)) with (r - leo k - leo (S k)) by lia.
  - specialize (Hn eq_refl).
    assert (grow (k :: ks) = (if (k =? 1)%nat then 0%nat else 1%nat) :: k :: ks) as ->.
    { destruct ks as [|k' ks]; cbn [grow adjacent] in *; [by destruct (k =? 1)%nat |]. rewrite Ea. by destruct (k =? 1)%nat. }
    destruct (k =? 1)%nat; (split; [done |]).
    + change (leo 0) with 1. by replace (r + 1 - 1) with r by lia.
    + change (leo 1) with 1. by replace (r + 1 - 1) with r by lia.
Qed.

Lemma build_keeps t n ks r f ks' g :
  in_D f → size ks = r + 1 → build_inv n ks r f → build_ref t n ks r f = (ks', g) →
  build_inv n ks' (r + Z.of_nat t) g ∧ in_D g.
Proof.
  revert ks r f. induction t as [|t IH]; intros ks r f Hf Hs Hi E; cbn [build_ref] in E.
  - injection E as <- <-. by replace (r + Z.of_nat 0) with r by lia.
  - pose proof Hi as [Hw _]. destruct (grow_wf ks Hw) as [_ Hs'].
    replace (r + Z.of_nat (S t)) with (r + 1 + Z.of_nat t) by lia. eapply IH; [| | by apply build_inv_step | exact E]; [| lia].
    by eapply swaps_in_D; [apply (build_step_swaps n ks r) |].
Qed.

(** After the last element the whole row is in order. *)
Lemma build_forest n ks f :
  in_D f → size ks = n → build_inv n ks (n - 1) f → forest ks (n - 1) (trinkle_ref ks (n - 1) false f).
Proof.
  intros Hf Hs [Hw Hi]. destruct ks as [|k ks]; [done |]. destruct Hi as [Ha Hse].
  apply trinkle_forest; [done | done | done |]. eapply settled_forest; [done |]. destruct ks as [|k' ks]; [done |].
  destruct Hw as (Hk & _ & _). pose proof (leo_mono k (k' - 1) ltac:(lia)). lia.
Qed.

(** Everything behind [r] is sorted and not smaller than what is in front. *)
Definition sorted_from (n r : Z) f : Prop := ∀ i j, 0 ≤ i < j → r < j < n → le (f i) (f j).

Lemma sorted_swaps n r f g : sorted_from n r f → swaps 0 r f g → sorted_from n r g.
Proof.
  intros Hs Hsw i j Hij Hj. rewrite (swaps_out _ _ _ _ j Hsw) by lia.
  destruct (decide (i ≤ r)) as [Hi | Hi].
  - destruct (swaps_from _ _ _ _ i Hsw ltac:(lia)) as (i' & Hi' & ->). apply Hs; lia.
  - rewrite (swaps_out _ _ _ _ i Hsw) by lia. apply Hs; lia.
Qed.

Lemma sorted_step n ks r f : in_D f → forest ks r f → sorted_from n r f → sorted_from n (r - 1) f.
Proof.
  intros Hf Hfo Hs i j Hij Hj. destruct (Z.eq_dec j r) as [-> |]; [| apply Hs; lia].
  apply (forest_max ks); [done | done | lia].
Qed.

(** Taking away a root that has subtrees: they become the last two trees. *)
Lemma split_forest k ks r f :
  in_D f → forest (S (S k) :: ks) r f →
  let f1 := trinkle_ref (S k :: ks) (r - 1 - leo k) true f in
  let f2 := trinkle_ref (k :: S k :: ks) (r - 1) true f1 in
  forest (k :: S k :: ks) (r - 1) f2 ∧ swaps 0 (r - 1) f f2.
Proof.
  intros Hf Hfo f1 f2. pose proof (forest_size _ _ _ Hfo) as Hsz. destruct Hfo as (Hh & Hfo & _).
  apply heap_SS in Hh as (_ & _ & Hl & Hr). pose proof (leo_pos k). pose proof (size_nonneg ks).
  simpl in Hsz. rewrite leo_SS in *.
  assert (forest (S k :: ks) (r - 1 - leo k) f1) as Hf1.
  { apply trinkle_forest; [done | done | by apply heap_almost |].
    by replace (r - 1 - leo k - leo (S k)) with (r - (leo (S k) + leo k + 1)) by lia. }
  assert (swaps 0 (r - 1 - leo k) f f1) as S1 by (apply trinkle_ref_swaps; simpl; lia).
  assert (heap k (r - 1) f1) as Hr1.
  { apply (heap_ext k _ f); [| done]. intros j Hj. symmetry. apply (swaps_out _ _ _ _ _ S1). lia. }
  split.
  - apply trinkle_forest; [by eapply swaps_in_D | done | by apply heap_almost | done].
  - eapply swaps_trans; [eapply swaps_mono; [| | exact S1]; lia |]. apply trinkle_ref_swaps. simpl. lia.
Qed.

Lemma unbuild_sorts t n ks r f :
  in_D f → wf ks → forest ks r f → sorted_from n r f → r = Z.of_nat t → r < n →
  sorted_from n 0 (unbuild_ref t ks r f).
Proof.
  revert ks r f. induction t as [|t IH]; intros ks r f Hf Hw Hfo Hso Hr Hn; cbn [unbuild_ref]; [by subst r |].
  destruct ks as [|k ks]; [done |]. pose proof (forest_size _ _ _ Hfo) as Hsz. pose proof (sorted_step _ _ _ _ Hf Hfo Hso) as Hso'.
  pose proof Hfo as (_ & Hfo' & _). simpl in Hsz.
  destruct k as [|[|k]].
  - assert (ks ≠ []) by (intros ->; change (leo 0) with 1 in *; simpl in Hsz; lia).
    apply IH; [done | by eapply wf_tail | done | done | lia | lia].
  - assert (ks ≠ []) by (intros ->; change (leo 1) with 1 in *; simpl in Hsz; lia).
    apply IH; [done | by eapply wf_tail | done | done | lia | lia].
  - destruct (split_forest k ks r f Hf Hfo) as [Hf2 Hs2].
    apply IH; [by eapply swaps_in_D | by apply wf_split | done | by eapply sorted_swaps | lia | lia].
Qed.

Lemma smoothsort_sorts n f :
  (0 < n)%nat → in_D f → sorted_from (Z.of_nat n) 0 (smoothsort_ref n f).
Proof.
  intros Hn Hf. unfold smoothsort_ref. destruct (build_ref _ _ _ _ _) as [ks f1] eqn:E.
  assert (wf [1%nat] ∧ size [1%nat] = 0 + 1) as [Hw Hs] by (split; [simpl; lia | done]).
  destruct (build_shape _ _ _ _ _ _ _ Hw Hs E) as (Hw' & Hs' & Sw).
  destruct (build_keeps _ _ _ _ _ _ _ Hf Hs ltac:(split; [done | by split]) E) as [Hi Hf1].
  replace (0 + Z.of_nat (n - 1)) with (Z.of_nat n - 1) in * by lia.
  pose proof (build_forest (Z.of_nat n) ks f1 Hf1 ltac:(lia) Hi) as Hfo.
  assert (swaps 0 (Z.of_nat n - 1) f1 (trinkle_ref ks (Z.of_nat n - 1) false f1)) as Sw2 by (apply trinkle_ref_swaps; lia).
  apply unbuild_sorts; [by eapply swaps_in_D | done | done | | lia | lia]. intros i j Hij Hj. lia.
Qed.
End arrays.
