(* ===== verification/Qsort.v ===== *)
(** Sorting in the C library (libs/libmuslc/src/stdlib/qsort.c).

    qsort is Smoothsort: the array is turned into a row of trees whose sizes are
    Leonardo numbers, and taken apart again from its end.  The memory of the array
    is a list of bytes here, pointers are offsets into it, and the comparison is
    applied to the bytes of two elements.  [p] is the pair of 32-bit words that holds
    the orders of the trees, [lp] the array of Leonardo numbers, [ar] the array of
    pointers that [cycle] rotates.  What C leaves undefined (a shift by the width of a
    word, the trailing zeros of 0) is a fault. *)

From S2P Require Import Prelude.

(** * Memory *)

(** [n] bytes at the offset [a]. *)
Definition load (m : list Z) (a n : Z) : outcome (list Z) :=
  if (0 <=? a) && (0 <=? n) && (a + n <=? Zlength m) then Ret (take (Z.to_nat n) (drop (Z.to_nat a) m))
  else Fault OutOfBounds.

Definition store (m : list Z) (a : Z) (d : list Z) : outcome (list Z) :=
  if (0 <=? a) && (a + Zlength d <=? Zlength m) then
    Ret (take (Z.to_nat a) m ++ d ++ drop (Z.to_nat a + length d) m)
  else Fault OutOfBounds.

(** * Words *)

Fixpoint ctz_pos (x : positive) : Z :=
  match x with
  | xO y => 1 + ctz_pos y
  | _ => 0
  end.

(** [a_ctz_l], which is the builtin of the compiler; it is undefined for 0. *)
Definition ntz (x : Z) : outcome Z :=
  match x with
  | Zpos y => Ret (ctz_pos y)
  | _ => Fault Undefined
  end.

Definition pntz (p : Z * Z) : outcome Z :=
  r ← ntz (u32 (p.1 - 1));
  if negb (r =? 0) then Ret r else
  r ← ntz p.2;
  let r := 32 + r in
  if negb (r =? 32) then Ret r else Ret 0.

(** A shift of a word by [n] bits. *)
Definition word_shl (x n : Z) : outcome Z :=
  if (0 <=? n) && (n <? 32) then Ret (u32 (Z.shiftl x n)) else Fault Undefined.

Definition word_shr (x n : Z) : outcome Z :=
  if (0 <=? n) && (n <? 32) then Ret (Z.shiftr x n) else Fault Undefined.

Definition shl (p : Z * Z) (n : Z) : outcome (Z * Z) :=
  let '(n, p0, p1) := if 32 <=? n then (n - 32, 0, p.1) else (n, p.1, p.2) in
  p1 ← word_shl p1 n;
  hi ← word_shr p0 (32 - n);
  p0 ← word_shl p0 n;
  Ret (p0, Z.lor p1 hi).

Definition shr (p : Z * Z) (n : Z) : outcome (Z * Z) :=
  let '(n, p0, p1) := if 32 <=? n then (n - 32, p.2, 0) else (n, p.1, p.2) in
  p0 ← word_shr p0 n;
  lo ← word_shl p1 (32 - n);
  p1 ← word_shr p1 n;
  Ret (Z.lor p0 lo, p1).

(** * Moving elements *)

(** [ar] has [14 * sizeof(size_t) + 1] entries. *)
Definition AR_SIZE : Z := 57.

(** [ar[i++] = x]. *)
Definition push (ar : list Z) (x : Z) : outcome (list Z) :=
  if Zlength ar <? AR_SIZE then Ret (ar ++ [x]) else Fault OutOfBounds.

(** The inner loop of [cycle]: every piece of [l] bytes gets the next one, the last one the
    piece that was saved. *)
Fixpoint cycle_pieces (m : list Z) (ar : list Z) (l : Z) (tmp : list Z) : outcome (list Z) :=
  match ar with
  | [] => Ret m
  | a :: ar' =>
      d ← (match ar' with
           | b :: _ => load m b l
           | [] => Ret tmp
           end);
      m ← store m a d;
      cycle_pieces m ar' l tmp
  end.

Fixpoint cycle_loop (fuel : nat) (width : Z) (m : list Z) (ar : list Z) : outcome (list Z) :=
  match fuel with
  | O => Fault OutOfFuel
  | S fuel' =>
      if width =? 0 then Ret m else
      let l := if 256 <? width then 256 else width in
      a ← rd ar 0;
      tmp ← load m a l;
      m ← cycle_pieces m ar l tmp;
      cycle_loop fuel' (u32 (width - l)) m ((λ a, a + l) <$> ar)
  end.

(** [cycle]; [ar[n]] is written, so there must be room for it.  A round takes 256 bytes or
    the rest. *)
Definition cycle (width : Z) (m : list Z) (ar : list Z) : outcome (list Z) :=
  if Zlength ar <? 2 then Ret m
  else if Zlength ar <? AR_SIZE then cycle_loop (Z.to_nat (width / 256) + 2) width m ar
  else Fault OutOfBounds.

Section qsort.
Variable cmp : list Z → list Z → Z.

(** [( *cmp)(a, b)]. *)
Definition cmp_at (width : Z) (m : list Z) (a b : Z) : outcome Z :=
  x ← load m a width;
  y ← load m b width;
  Ret (cmp x y).

(** * The trees *)

(** The loop of [sift]; it fills [ar]. *)
Fixpoint sift_loop (fuel : nat) (m : list Z) (width head pshift : Z) (lp ar : list Z) : outcome (list Z) :=
  match fuel with
  | O => Fault OutOfFuel
  | S fuel' =>
      if 1 <? pshift then
        let rt := head - width in
        l ← rd lp (pshift - 2);
        let lf := head - width - l in
        a0 ← rd ar 0;
        c ← cmp_at width m a0 lf;
        c' ← (if 0 <=? c then cmp_at width m a0 rt else Ret (-1));
        if (0 <=? c) && (0 <=? c') then Ret ar else
        c ← cmp_at width m lf rt;
        if 0 <=? c then ar ← push ar lf; sift_loop fuel' m width lf (pshift - 1) lp ar
        else ar ← push ar rt; sift_loop fuel' m width rt (pshift - 2) lp ar
      else Ret ar
  end.

(** Every round but the last fills an entry of [ar]. *)
Definition sift (m : list Z) (head width pshift : Z) (lp : list Z) : outcome (list Z) :=
  ar ← sift_loop (S (Z.to_nat AR_SIZE)) m width head pshift lp [head];
  cycle width m ar.

(** The loop of [trinkle]; the result is [ar], [head], [pshift] and [trusty]. *)
Fixpoint trinkle_loop (fuel : nat) (m : list Z) (width head : Z) (p : Z * Z) (pshift : Z) (trusty : bool)
    (lp ar : list Z) : outcome (list Z * Z * Z * bool) :=
  match fuel with
  | O => Fault OutOfFuel
  | S fuel' =>
      if negb (p.1 =? 1) || negb (p.2 =? 0) then
        l ← rd lp pshift;
        let stepson := head - l in
        a0 ← rd ar 0;
        c ← cmp_at width m stepson a0;
        if c <=? 0 then Ret (ar, head, pshift, trusty) else
        stop ← (if negb trusty && (1 <? pshift) then
                  let rt := head - width in
                  l ← rd lp (pshift - 2);
                  let lf := head - width - l in
                  c ← cmp_at width m rt stepson;
                  if 0 <=? c then Ret true else
                  c ← cmp_at width m lf stepson;
                  Ret (0 <=? c)
                else Ret false);
        if (stop : bool) then Ret (ar, head, pshift, trusty) else
        ar ← push ar stepson;
        trail ← pntz p;
        p ← shr p trail;
        trinkle_loop fuel' m width stepson p (pshift + trail) false lp ar
      else Ret (ar, head, pshift, trusty)
  end.

Definition trinkle (m : list Z) (head width : Z) (pp : Z * Z) (pshift : Z) (trusty : bool) (lp : list Z) :
    outcome (list Z) :=
  '(ar, head, pshift, trusty) ← trinkle_loop (S (Z.to_nat AR_SIZE)) m width head pp pshift trusty lp [head];
  if (trusty : bool) then Ret m else
  m ← cycle width m ar;
  sift m head width pshift lp.

(** * Sorting *)

(** [lp] has [12 * sizeof(size_t)] entries. *)
Definition LP_SIZE : Z := 48.

(** The loop that fills [lp]; [a] and [b] are its last two entries. *)
Fixpoint leonardo_numbers (fuel : nat) (width size a b : Z) (lp : list Z) : outcome (list Z) :=
  match fuel with
  | O => Fault OutOfFuel
  | S fuel' =>
      let c := u32 (a + b + width) in
      if Zlength lp <? LP_SIZE then
        let lp := lp ++ [c] in
        if c <? size then leonardo_numbers fuel' width size b c lp else Ret lp
      else Fault OutOfBounds
  end.

(** The first loop, over the elements but the last. *)
Fixpoint build_loop (fuel : nat) (m : list Z) (width head high : Z) (p : Z * Z) (pshift : Z) (lp : list Z) :
    outcome (list Z * Z * (Z * Z) * Z) :=
  match fuel with
  | O => Fault OutOfFuel
  | S fuel' =>
      if head <? high then
        '(m, p, pshift) ←
          (if Z.land p.1 3 =? 3 then
             m ← sift m head width pshift lp;
             p ← shr p 2;
             Ret (m, p, pshift + 2)
           else
             l ← rd lp (pshift - 1);
             m ← (if high - head <=? l then trinkle m head width p pshift false lp
                  else sift m head width pshift lp);
             if pshift =? 1 then p ← shl p 1; Ret (m, p, 0)
             else p ← shl p (pshift - 1); Ret (m, p, 1));
        build_loop fuel' m width (head + width) high (Z.lor p.1 1, p.2) pshift lp
      else Ret (m, head, p, pshift)
  end.

(** The second loop, which takes the trees apart. *)
Fixpoint unbuild_loop (fuel : nat) (m : list Z) (width head : Z) (p : Z * Z) (pshift : Z) (lp : list Z) :
    outcome (list Z) :=
  match fuel with
  | O => Fault OutOfFuel
  | S fuel' =>
      if negb (pshift =? 1) || negb (p.1 =? 1) || negb (p.2 =? 0) then
        '(m, p, pshift) ←
          (if pshift <=? 1 then
             trail ← pntz p;
             p ← shr p trail;
             Ret (m, p, pshift + trail)
           else
             p ← shl p 2;
             let pshift := pshift - 2 in
             p ← shr (Z.lxor p.1 7, p.2) 1;
             l ← rd lp pshift;
             m ← trinkle m (head - l - width) width p (pshift + 1) true lp;
             p ← shl p 1;
             let p := (Z.lor p.1 1, p.2) in
             m ← trinkle m (head - width) width p pshift true lp;
             Ret (m, p, pshift));
        unbuild_loop fuel' m width (head - width) p pshift lp
      else Ret m
  end.

(** [qsort]: the array [m] has [nel] elements of [width] bytes. *)
Definition qsort (m : list Z) (nel width : Z) : outcome (list Z) :=
  let size := u32 (width * nel) in
  if size =? 0 then Ret m else
  let high := size - width in
  lp ← leonardo_numbers (Z.to_nat LP_SIZE) width size width width [width; width];
  '(m, head, p, pshift) ← build_loop (S (Z.to_nat nel)) m width 0 high (1, 0) 1 lp;
  m ← trinkle m head width p pshift false lp;
  unbuild_loop (S (Z.to_nat nel)) m width head p pshift lp.
End qsort.

(** The elements of an array of [n] elements of [w] bytes. *)
Definition elements (w n : Z) (m : list Z) : list (list Z) :=
  (λ k, take (Z.to_nat w) (drop (Z.to_nat (k * w)) m)) <$> seqZ 0 n.

(** * Arrays of [int] *)

(** The bytes of an [int], the lowest first. *)
Definition int_bytes (x : Z) : list Z :=
  [u32 x mod 256; u32 x / 256 mod 256; u32 x / 65536 mod 256; u32 x / 16777216].

Definition bytes_int (l : list Z) : Z :=
  match l with
  | [a; b; c; d] => i32 (a + 256 * b + 65536 * c + 16777216 * d)
  | _ => 0
  end.

(** Elements are compared by their first byte. *)
Definition byte_cmp (x y : list Z) : Z := hd 0 x - hd 0 y.

Example qsort_bytes :
  qsort byte_cmp [5; 3; 9; 1; 1; 8; 200; 0; 7; 6; 5; 4; 255; 2; 3; 77; 12; 11; 10; 9; 8; 1; 30; 31; 29] 25 1 =
    Ret [0; 1; 1; 1; 2; 3; 3; 4; 5; 5; 6; 7; 8; 8; 9; 9; 10; 11; 12; 29; 30; 31; 77; 200; 255].
Proof. vm_compute. reflexivity. Qed.
