(* ===== verification/QsortInv.v ===== *)
(** qsort sorts.

    The array is seen as a function from indices to elements ([arr]).  [cycle] is a
    sequence of exchanges, so that [sift] and [trinkle] do what their references in
    Leonardo.v do; the words [p] hold the orders of the trees as the bits of a number
    ([enc]).  With at most [leo 33] elements no two neighbouring trees have orders
    that are 32 apart, and then nothing that C leaves undefined is reached. *)

From S2P Require Import Prelude Leonardo Qsort.
From Stdlib Require Import Sorted.

(** * Words *)

Definition split (x : Z) : Z * Z := (x mod 2 ^ 32, x / 2 ^ 32).

Lemma ctz_pos_spec n x : 0 ≤ n → Z.odd (Zpos x) = true → ∀ y, Zpos y = 2 ^ n * Zpos x → ctz_pos y = n.
Proof.
  intros Hn Hx. pattern n. apply natlike_ind; [| clear n Hn; intros n Hn IH | done]; intros y Hy.
  - rewrite Z.pow_0_r, Z.mul_1_l in Hy. injection Hy as ->. by destruct x.
  - rewrite Z.pow_succ_r in Hy by done. destruct y as [y | y |]; [lia | | lia].
    cbn [ctz_pos]. rewrite (IH y); lia.
Qed.

Lemma ntz_spec n x : 0 ≤ n → 0 < x → Z.odd x = true → ntz (2 ^ n * x) = Ret n.
Proof.
  intros Hn Hx Ho. destruct x as [| x |]; [lia | | lia].
  assert (0 < 2 ^ n * Zpos x) as Hp by lia. destruct (2 ^ n * Zpos x) as [| y |] eqn:E; [lia | | lia].
  cbn [ntz]. f_equal. by apply (ctz_pos_spec n x).
Qed.

(** The distance to the next tree. *)
Lemma pntz_spec n x :
  1 ≤ n ≤ 31 → 0 < x → Z.odd x = true → pntz (split (1 + 2 ^ n * x)) = Ret n.
Proof.
  intros Hn Hx Ho. unfold pntz, split. cbn [fst snd].
  assert (2 ^ 32 = 2 ^ n * 2 ^ (32 - n)) as E32 by (rewrite <- Z.pow_add_r by lia; f_equal; lia).
  assert (2 ^ (32 - n) = 2 * 2 ^ (31 - n)) as E2 by (rewrite <- Z.pow_succ_r by lia; f_equal; lia).
  assert (0 < 2 ^ n) by lia. assert (0 < 2 ^ (31 - n)) by lia.
  assert (Z.odd (x mod 2 ^ (32 - n)) = true) as Ho'.
  { rewrite <- Ho. assert (x = x mod 2 ^ (32 - n) + 2 * (2 ^ (31 - n) * (x / 2 ^ (32 - n)))) as Ex.
    { rewrite (Z.div_mod x (2 ^ (32 - n))) at 1 by lia. rewrite E2. ring. }
    rewrite Ex at 2. by rewrite Z.odd_add_mul_2. }
  assert (0 < x mod 2 ^ (32 - n)) as Hpos.
  { pose proof (Z.mod_pos_bound x (2 ^ (32 - n)) ltac:(lia)).
    destruct (Z.eq_dec (x mod 2 ^ (32 - n)) 0) as [E | ]; [by rewrite E in Ho' | lia]. }
  assert ((1 + 2 ^ n * x) mod 2 ^ 32 = 1 + 2 ^ n * (x mod 2 ^ (32 - n))) as ->.
  { symmetry. apply (Zmod_unique _ _ (x / 2 ^ (32 - n))).
    - pose proof (Z.mod_pos_bound x (2 ^ (32 - n)) ltac:(lia)). assert (2 ≤ 2 ^ n) by (apply (Z.pow_le_mono_r 2 1); lia). nia.
    - rewrite E32. rewrite (Z.div_mod x (2 ^ (32 - n))) at 1 by lia. ring. }
  rewrite u32_small.
  - replace (1 + 2 ^ n * (x mod 2 ^ (32 - n)) - 1) with (2 ^ n * (x mod 2 ^ (32 - n))) by lia.
    rewrite ntz_spec by (lia || done). cbn [mbind outcome_bind].
    by rewrite (proj2 (Z.eqb_neq n 0)) by lia.
  - pose proof (Z.mod_pos_bound x (2 ^ (32 - n)) ltac:(lia)). nia.
Qed.

Lemma shr_spec n x : 1 ≤ n ≤ 31 → 0 ≤ x < 2 ^ 64 → shr (split x) n = Ret (split (x / 2 ^ n)).
Proof.
  intros Hn Hx. unfold shr, split, word_shr, word_shl. cbn [fst snd].
  rewrite (proj2 (Z.leb_gt 32 n)) by lia. cbn [fst snd].
  rewrite (proj2 (Z.leb_le 0 n)), (proj2 (Z.ltb_lt n 32)), (proj2 (Z.leb_le 0 (32 - n))), (proj2 (Z.ltb_lt (32 - n) 32)) by lia.
  cbn [andb mbind outcome_bind]. do 2 f_equal.
  - assert (0 < 2 ^ n) by lia. assert (0 < 2 ^ (32 - n)) by lia.
    assert (2 ^ 32 = 2 ^ n * 2 ^ (32 - n)) as E32 by (rewrite <- Z.pow_add_r by lia; f_equal; lia).
    rewrite Z.shiftr_div_pow2, Z.shiftl_mul_pow2 by lia. unfold u32.
    apply Z.bits_inj'. intros b Hb. rewrite Z.lor_spec, <- !Z.shiftr_div_pow2, Z.shiftr_spec by lia.
    rewrite <- Z.shiftl_mul_pow2 by lia.
    destruct (decide (b < 32)) as [Hb32 | Hb32].
    + rewrite !(Z.mod_pow2_bits_low _ 32 b) by lia. rewrite Z.shiftr_spec by lia.
      destruct (decide (b < 32 - n)).
      * rewrite Z.mod_pow2_bits_low, Z.shiftl_spec_low, orb_false_r by lia. done.
      * rewrite Z.mod_pow2_bits_high, Z.shiftl_spec, Z.shiftr_spec by lia. cbn [orb]. f_equal. lia.
    + rewrite !Z.mod_pow2_bits_high by lia. done.
  - rewrite Z.shiftr_div_pow2 by lia. rewrite !Z.div_div by lia. f_equal. lia.
Qed.

Lemma shl_spec n x : 1 ≤ n ≤ 31 → 0 ≤ x → x * 2 ^ n < 2 ^ 64 → shl (split x) n = Ret (split (x * 2 ^ n)).
Proof.
  intros Hn Hx Hlt. unfold shl, split, word_shr, word_shl. cbn [fst snd].
  rewrite (proj2 (Z.leb_gt 32 n)) by lia. cbn [fst snd].
  rewrite (proj2 (Z.leb_le 0 n)), (proj2 (Z.ltb_lt n 32)), (proj2 (Z.leb_le 0 (32 - n))), (proj2 (Z.ltb_lt (32 - n) 32)) by lia.
  cbn [andb mbind outcome_bind]. unfold u32. do 2 f_equal.
  - rewrite <- !Z.shiftl_mul_pow2 by lia. apply Z.bits_inj'. intros b Hb. destruct (decide (b < 32)) as [Hb32 | Hb32].
    + rewrite !(Z.mod_pow2_bits_low _ 32 b) by lia. destruct (decide (b < n)); [by rewrite !Z.shiftl_spec_low by lia |].
      rewrite !Z.shiftl_spec, Z.mod_pow2_bits_low by lia. done.
    + by rewrite !Z.mod_pow2_bits_high by lia.
  - rewrite <- !Z.shiftl_mul_pow2, <- !Z.shiftr_div_pow2 by lia. apply Z.bits_inj'. intros b Hb.
    rewrite Z.lor_spec, !Z.shiftr_spec, Z.shiftl_spec by lia.
    destruct (decide (b < 32)) as [Hb32 | Hb32].
    + rewrite (Z.mod_pow2_bits_low _ 32 b) by lia. destruct (decide (b < n)).
      * rewrite Z.shiftl_spec_low, Z.mod_pow2_bits_low by lia. cbn [orb]. f_equal. lia.
      * rewrite Z.shiftl_spec, Z.shiftr_spec, Z.mod_pow2_bits_high, orb_false_r by lia. f_equal. lia.
    + rewrite !(Z.mod_pow2_bits_high _ 32) by lia. cbn [orb]. symmetry. rewrite <- (Z.shiftl_spec x n) by lia.
      apply (testbit_above _ 64); [rewrite Z.shiftl_mul_pow2 by lia; lia | lia].
Qed.

(** * Rotations *)

(** What [cycle] does: every index gets the element of the next one, the last one that of the
    first. *)
Fixpoint rot {A : Type} (f : Z → A) (ks : list Z) : Z → A :=
  match ks with
  | a :: ((b :: _) as ks') => rot (swap f a b) ks'
  | _ => f
  end.

Lemma rot_snoc {A : Type} (f : Z → A) ks a b : rot f (ks ++ [a; b]) = swap (rot f (ks ++ [a])) a b.
Proof.
  revert f. induction ks as [|c ks IH]; intros f; [done |]. destruct ks as [|d ks]; [done |].
  apply (IH (swap f c d)).
Qed.

Lemma rot_map {A B : Type} (φ : A → B) (f : Z → A) (g : Z → B) ks j :
  (∀ j, g j = φ (f j)) → rot g ks j = φ (rot f ks j).
Proof.
  revert f g. induction ks as [|a ks IH]; intros f g E; [apply E |]. destruct ks as [|b ks]; [apply E |].
  apply IH. intros k. unfold swap. by repeat case_match.
Qed.

Fixpoint shift {A : Type} (f : Z → A) (ks : list Z) (t : A) (j : Z) : A :=
  match ks with
  | [] => f j
  | a :: ks' => if j =? a then (match ks' with b :: _ => f b | [] => t end) else shift f ks' t j
  end.

Lemma shift_out {A : Type} (f : Z → A) ks t j : j ∉ ks → shift f ks t j = f j.
Proof.
  induction ks as [|a ks IH]; intros Hj; [done |]. apply not_elem_of_cons in Hj as [Hne Hj].
  cbn [shift]. rewrite (proj2 (Z.eqb_neq j a)) by done. by apply IH.
Qed.

Lemma shift_ext {A : Type} (f g : Z → A) ks t j :
  (∀ k, k ∈ tail ks → f k = g k) → (j ∉ ks → f j = g j) → shift f ks t j = shift g ks t j.
Proof.
  induction ks as [|a ks IH]; intros E Ej; cbn [shift]; [apply Ej, not_elem_of_nil |].
  destruct (Z.eqb_spec j a) as [-> | Hne].
  - destruct ks as [|b ks]; [done |]. apply E. left.
  - apply IH; [| intros Hj; apply Ej; by apply not_elem_of_cons].
    intros k Hk. apply E. cbn [tail]. destruct ks; [done |]. by right.
Qed.

Lemma shift_at {A : Type} (f g : Z → Z → A) ks t t' j b :
  (∀ k, f k b = g k b) → t b = t' b → shift f ks t j b = shift g ks t' j b.
Proof.
  intros E Et. induction ks as [|a ks IH]; cbn [shift]; [done |]. destruct (j =? a); [| done]. by destruct ks.
Qed.

Lemma rot_shift {A : Type} (f : Z → A) a ks j : NoDup (a :: ks) → rot f (a :: ks) j = shift f (a :: ks) (f a) j.
Proof.
  revert f a. induction ks as [|b ks IH]; intros f a Hnd.
  { cbn. by destruct (Z.eqb_spec j a) as [-> |]. }
  apply NoDup_cons in Hnd as [Ha Hnd]. change (rot f (a :: b :: ks) j) with (rot (swap f a b) (b :: ks) j).
  rewrite IH by done. rewrite swap_r. pose proof Hnd as [Hb _]%NoDup_cons. cbn [shift].
  destruct (Z.eqb_spec j a) as [-> | Hne].
  - apply not_elem_of_cons in Ha as [Hab Ha]. rewrite (proj2 (Z.eqb_neq a b)) by done.
    rewrite shift_out by done. apply swap_l.
  - assert (∀ k, k ∈ ks → swap f a b k = f k) as E.
    { intros k Hk. apply swap_ne; intros ->; [| done]. apply Ha. by right. }
    destruct (Z.eqb_spec j b) as [-> | Hnb].
    + destruct ks as [|c ks]; [done |]. apply E. left.
    + apply shift_ext; [| intros _; by apply swap_ne]. intros k Hk. apply E. destruct ks; [done |]. by right.
Qed.

(** * The array *)

Section array.
Context (w n : Z) (Hw : 0 < w).

(** Byte [b] of element [k] is [F k b]. *)
Definition bytes (m : list Z) (F : Z → Z → option Z) : Prop :=
  Zlength m = n * w ∧ ∀ k b, 0 ≤ k < n → 0 ≤ b < w → m !! Z.to_nat (k * w + b) = F k b.

Definition arr (m : list Z) (f : Z → list Z) : Prop :=
  bytes m (λ k b, f k !! Z.to_nat b) ∧ ∀ k, 0 ≤ k < n → Zlength (f k) = w.

Lemma in_array k b : 0 ≤ k < n → 0 ≤ b ≤ w → 0 ≤ k * w + b ≤ n * w.
Proof. intros. nia. Qed.

Lemma load_bytes m F k o l :
  bytes m F → 0 ≤ k < n → 0 ≤ o → 0 ≤ l → o + l ≤ w →
  ∃ d, load m (k * w + o) l = Ret d ∧ Zlength d = l ∧ ∀ b, 0 ≤ b < l → d !! Z.to_nat b = F k (o + b).
Proof.
  intros [Hl Hm] Hk Ho Hl0 Hol. pose proof (in_array k (o + l) Hk ltac:(lia)). pose proof (in_array k o Hk ltac:(lia)).
  unfold load. rewrite Hl, !(proj2 (Z.leb_le _ _)) by lia. eexists. split; [done |]. split.
  - unfold Zlength in *. rewrite length_take, length_drop. lia.
  - intros b Hb. rewrite lookup_take_lt, lookup_drop by lia. rewrite <- Hm by lia. f_equal. lia.
Qed.

Lemma store_bytes m F k o d :
  bytes m F → 0 ≤ k < n → 0 ≤ o → o + Zlength d ≤ w →
  ∃ m', store m (k * w + o) d = Ret m' ∧
    bytes m' (λ j b, if (j =? k) && (o <=? b) && (b <? o + Zlength d) then d !! Z.to_nat (b - o) else F j b).
Proof.
  intros [Hl Hm] Hk Ho Hod. pose proof (in_array k (o + Zlength d) Hk ltac:(pose proof (Zlength_nonneg d); lia)).
  pose proof (in_array k o Hk ltac:(pose proof (Zlength_nonneg d); lia)). pose proof (Zlength_nonneg d).
  unfold store. rewrite Hl, !(proj2 (Z.leb_le _ _)) by lia. eexists. split; [done |].
  assert (Z.to_nat (k * w + o) + length d ≤ length m)%nat by (unfold Zlength in *; lia). split.
  - unfold Zlength in *. rewrite !length_app, length_take, length_drop. lia.
  - intros j b Hj Hb. rewrite <- Hm by done. unfold Zlength in *.
    assert (j = k ∨ j * w + w ≤ k * w ∨ k * w + w ≤ j * w) as Hjk by nia.
    destruct (decide (j * w + b < k * w + o)) as [Hlt | Hge].
    { rewrite lookup_app_l, lookup_take_lt by (rewrite ?length_take; lia).
      destruct (Z.eqb_spec j k) as [-> |]; [| done]. by rewrite (proj2 (Z.leb_gt o b)) by lia. }
    rewrite lookup_app_r by (rewrite length_take; lia). rewrite length_take, Nat.min_l by lia.
    destruct (decide (j * w + b < k * w + o + Z.of_nat (length d))) as [Hlt | Hge'].
    + rewrite lookup_app_l by lia. destruct (Z.eqb_spec j k) as [-> |]; [| lia].
      rewrite (proj2 (Z.leb_le o b)), (proj2 (Z.ltb_lt b (o + Z.of_nat (length d)))) by lia. cbn [andb]. f_equal. lia.
    + rewrite lookup_app_r by lia. rewrite lookup_drop. destruct (Z.eqb_spec j k) as [-> |].
      * rewrite (proj2 (Z.ltb_ge b (o + Z.of_nat (length d)))), andb_false_r by lia. f_equal. lia.
      * cbn [andb]. f_equal. lia.
Qed.

(** A round of [cycle] moves the bytes from [o] to [o + l]. *)
Lemma cycle_pieces_bytes ks o l m F tmp :
  bytes m F → NoDup ks → Forall (λ k, 0 ≤ k < n) ks → 0 ≤ o → 0 ≤ l → o + l ≤ w → Zlength tmp = l →
  ∃ m', cycle_pieces m ((λ k, k * w + o) <$> ks) l tmp = Ret m' ∧
    bytes m' (λ j b, if (o <=? b) && (b <? o + l) then shift F ks (λ b, tmp !! Z.to_nat (b - o)) j b else F j b).
Proof.
  revert m F. induction ks as [|a ks IH]; intros m F Hm Hnd Hks Ho Hl Hol Ht.
  { exists m. split; [done |]. destruct Hm as [H1 H2]. split; [done |]. intros j b Hj Hb. cbn [shift]. rewrite H2 by done. by case_match. }
  apply NoDup_cons in Hnd as [Ha Hnd]. apply Forall_cons in Hks as [Hka Hks]. cbn [cycle_pieces fmap list_fmap].
  assert (∃ d, (match (λ k, k * w + o) <$> ks with b :: _ => load m b l | [] => Ret tmp end) = Ret d ∧ Zlength d = l ∧
    ∀ b, o ≤ b < o + l → d !! Z.to_nat (b - o) = (match ks with c :: _ => F c b | [] => tmp !! Z.to_nat (b - o) end))
    as (d & -> & Hd & Ed).
  { destruct ks as [|c ks]; [by exists tmp |]. apply Forall_cons in Hks as [Hc _]. cbn [fmap list_fmap].
    destruct (load_bytes m F c o l) as (d & -> & Hd & Ed); [exact Hm | exact Hc | lia | lia | lia |]. exists d. split_and!; [done | done |].
    intros b Hb. rewrite Ed by lia. f_equal. lia. }
  cbn [mbind outcome_bind]. destruct (store_bytes m F a o d) as (m1 & -> & Hm1); [done | done | done | lia |].
  cbn [mbind outcome_bind]. destruct (IH m1 _ Hm1 Hnd Hks Ho Hl Hol Ht) as (m' & E & Hm'). exists m'. split; [exact E |].
  destruct Hm' as [H1 H2]. split; [done |]. intros j b Hj Hb. rewrite H2 by done. rewrite Hd. cbn [shift].
  destruct (Z.leb_spec o b) as [Hob |]; cbn [andb]; [| by rewrite andb_false_r].
  destruct (Z.ltb_spec b (o + l)) as [Hbl |]; [| by rewrite !andb_false_r].
  destruct (Z.eqb_spec j a) as [-> | Hne].
  - rewrite shift_out by done. rewrite Z.eqb_refl, (proj2 (Z.leb_le o b)), (proj2 (Z.ltb_lt b (o + l))) by lia.
    cbn [andb]. rewrite Ed by lia. by destruct ks.
  - clear - Ha Hne Hob Hbl. induction ks as [|c ks IH]; cbn [shift].
    + by rewrite (proj2 (Z.eqb_neq j a)).
    + apply not_elem_of_cons in Ha as [Hac Ha]. destruct (j =? c); [| by apply IH].
      destruct ks as [|e ks]; [done |]. apply not_elem_of_cons in Ha as [Hae _].
      by rewrite (proj2 (Z.eqb_neq e a)).
Qed.

Lemma cycle_loop_bytes fuel a ks o l m F :
  bytes m (λ j b, if b <? o then rot F (a :: ks) j b else F j b) →
  NoDup (a :: ks) → Forall (λ k, 0 ≤ k < n) (a :: ks) → 0 ≤ o → 0 ≤ l < 2 ^ 32 → o + l = w → (l + 255) / 256 < Z.of_nat fuel →
  ∃ m', cycle_loop fuel l m ((λ k, k * w + o) <$> (a :: ks)) = Ret m' ∧ bytes m' (rot F (a :: ks)).
Proof.
  revert o l m. induction fuel as [|fuel IH]; intros o l m Hm Hnd Hks Ho Hl Hol Hf; [divmod |]. cbn [cycle_loop].
  destruct (Z.eqb_spec l 0) as [-> | Hl0].
  { exists m. split; [done |]. destruct Hm as [H1 H2]. split; [done |]. intros k b Hk Hb. rewrite H2 by done.
    by rewrite (proj2 (Z.ltb_lt b o)) by lia. }
  set (c := if 256 <? l then 256 else l). assert (0 < c ≤ l ∧ c ≤ 256 ∧ (c = 256 ∨ c = l)) as (Hc & Hc2 & Hc3).
  { unfold c. destruct (Z.ltb_spec 256 l); lia. }
  clearbody c. pose proof Hks as [Ha _]%Forall_cons. assert (rd ((λ k, k * w + o) <$> (a :: ks)) 0 = Ret (a * w + o)) as -> by done.
  cbn [mbind outcome_bind]. destruct (load_bytes m _ a o c Hm Ha Ho) as (tmp & -> & Ht & Et); [lia | lia |].
  cbn [mbind outcome_bind].
  destruct (cycle_pieces_bytes (a :: ks) o c m _ tmp Hm Hnd Hks Ho) as (m1 & -> & Hm1); [lia | lia | done |].
  cbn [mbind outcome_bind]. rewrite u32_small by lia.
  assert ((λ x, x + c) <$> ((λ k, k * w + o) <$> (a :: ks)) = (λ k, k * w + (o + c)) <$> (a :: ks)) as ->.
  { rewrite <- list_fmap_compose. apply list_fmap_ext. intros. cbn. lia. }
  apply IH; [| done | done | lia | lia | lia |].
  - destruct Hm1 as [H1 H2]. split; [done |]. intros k b Hk Hb. rewrite H2 by done.
    destruct (Z.leb_spec o b) as [Hob | Hob]; cbn [andb].
    + destruct (Z.ltb_spec b (o + c)) as [Hbc | Hbc]; [| by rewrite (proj2 (Z.ltb_ge b o)) by lia].
      rewrite rot_shift by done. apply shift_at.
      * intros j. by rewrite (proj2 (Z.ltb_ge b o)) by lia.
      * rewrite Et by lia. replace (o + (b - o)) with b by lia. by rewrite (proj2 (Z.ltb_ge b o)) by lia.
    + by rewrite (proj2 (Z.ltb_lt b o)), (proj2 (Z.ltb_lt b (o + c))) by lia.
  - destruct Hc3 as [-> | ->]; divmod.
Qed.

Lemma rot_lengths f ks : Forall (λ k, 0 ≤ k < n) ks → (∀ k, 0 ≤ k < n → Zlength (f k) = w) → ∀ k, 0 ≤ k < n → Zlength (rot f ks k : list Z) = w.
Proof.
  revert f. induction ks as [|a ks IH]; intros f Hks Hf; [done |]. apply Forall_cons in Hks as [Ha Hks].
  destruct ks as [|b ks]; [done |]. apply IH; [done |]. apply Forall_cons in Hks as [Hb _].
  intros k Hk. unfold swap. repeat case_match; auto.
Qed.

Lemma cycle_arr m f ks :
  arr m f → NoDup ks → Forall (λ k, 0 ≤ k < n) ks → ks ≠ [] → Zlength ks < AR_SIZE → w < 2 ^ 32 →
  ∃ m', cycle w m ((λ k, k * w) <$> ks) = Ret m' ∧ arr m' (rot f ks).
Proof.
  intros [Hm Hf] Hnd Hks Hne Hlen Hw32. unfold cycle.
  assert (Zlength ((λ k, k * w) <$> ks) = Zlength ks) as -> by (unfold Zlength; by rewrite length_fmap).
  destruct ks as [|a [|b ks]]; [done | by exists m |].
  rewrite !Zlength_cons in *. pose proof (Zlength_nonneg ks).
  rewrite (proj2 (Z.ltb_ge _ 2)), (proj2 (Z.ltb_lt _ AR_SIZE)) by lia.
  rewrite (list_fmap_ext _ (λ k, k * w + 0)) by (intros; cbn; lia).
  destruct (cycle_loop_bytes (Z.to_nat (w / 256) + 2) a (b :: ks) 0 w m (λ k b, f k !! Z.to_nat b)) as (m' & E & Hm');
    [| done | done | lia | lia | lia | divmod |].
  { destruct Hm as [H1 H2]. split; [done |]. intros k c Hk Hc. rewrite H2 by done.
    by rewrite (proj2 (Z.ltb_ge c 0)) by lia. }
  exists m'. split; [exact E |]. split; [| by apply rot_lengths]. destruct Hm' as [H1 H2]. split; [done |].
  intros k c Hk Hc. rewrite H2 by done.
  rewrite (rot_map (λ x c, x !! Z.to_nat c) f _ _ k (λ j, eq_refl)). done.
Qed.

Lemma load_arr m f k : arr m f → 0 ≤ k < n → load m (k * w) w = Ret (f k).
Proof.
  intros [Hm Hf] Hk. destruct (load_bytes m _ k 0 w Hm Hk) as (d & E & Hd & Ed); [lia | lia | lia |].
  rewrite Z.add_0_r in E. rewrite E. f_equal. apply list_eq. intros i. destruct (decide (Z.of_nat i < w)).
  - specialize (Ed (Z.of_nat i) ltac:(lia)). rewrite Nat2Z.id in Ed. rewrite Ed. f_equal. lia.
  - specialize (Hf k Hk). unfold Zlength in *. rewrite !lookup_ge_None_2 by lia. done.
Qed.
End array.

(** * Trees *)

Lemma rot_out {A : Type} (f : Z → A) ks j : j ∉ ks → rot f ks j = f j.
Proof.
  revert f. induction ks as [|a ks IH]; intros f Hj; [done |]. destruct ks as [|b ks]; [done |].
  apply not_elem_of_cons in Hj as [Ha Hj]. change (rot (swap f a b) (b :: ks) j = f j). rewrite IH by done.
  apply not_elem_of_cons in Hj as [Hb _]. by apply swap_ne.
Qed.

Lemma rot_last {A : Type} (f : Z → A) a ks h : rot f (a :: ks) h = f a ∨ last (a :: ks) ≠ Some h.
Proof.
  revert f a. induction ks as [|b ks IH]; intros f a; cbn [last].
  - destruct (Z.eq_dec a h) as [-> |]; [by left | right; congruence].
  - destruct (IH (swap f a b) b) as [E | E]; [left | by right].
    change (rot (swap f a b) (b :: ks) h = f a). by rewrite E, swap_r.
Qed.

Section trees.
Context (w n : Z) (Hw : 0 < w < 2 ^ 32) (cmp : list Z → list Z → Z) (lp : list Z).

Local Abbreviation at_ := (fmap (M := list) (λ k : Z, k * w)).

(** The entries of [lp] that are filled. *)
Definition filled (k : nat) : Prop := ∀ j, (j ≤ k)%nat → rd lp (Z.of_nat j) = Ret (leo j * w).

Lemma cmp_at_arr m f i j :
  arr w n m f → 0 ≤ i < n → 0 ≤ j < n → cmp_at cmp w m (i * w) (j * w) = Ret (cmp (f i) (f j)).
Proof. intros Hm Hi Hj. unfold cmp_at. rewrite !(load_arr w n ltac:(lia) m f) by done. done. Qed.

(** The path that the loops of [sift] and [trinkle] have gone, from [a] to [h]. *)
Record path (ks : list Z) (a h : Z) : Prop := {
  pa_head : head ks = Some a;
  pa_last : last ks = Some h;
  pa_above : ∀ x, x ∈ ks → h ≤ x;
  pa_nodup : NoDup ks;
  pa_range : Forall (λ k, 0 ≤ k < n) ks
}.

Lemma path_one h : 0 ≤ h < n → path [h] h h.
Proof.
  intros Hh. split; [done | done | | apply NoDup_singleton | by constructor].
  by intros x ->%list_elem_of_singleton.
Qed.

Lemma path_snoc ks a h x : path ks a h → 0 ≤ x < h → path (ks ++ [x]) a x.
Proof.
  intros [H1 H2 H3 H4 H5] Hx.
  assert (h < n) by (rewrite Forall_forall in H5; specialize (H5 h (last_Some_elem_of _ _ H2)); simpl in H5; lia).
  split.
  - by destruct ks.
  - by rewrite last_snoc.
  - intros y [Hy | ->%list_elem_of_singleton]%elem_of_app; [specialize (H3 y Hy); lia | lia].
  - apply NoDup_app. split_and!; [done | | apply NoDup_singleton].
    intros y Hy ->%list_elem_of_singleton. specialize (H3 x Hy). lia.
  - apply Forall_app. split; [done |]. constructor; [lia | done].
Qed.

Lemma path_rot (f : Z → list Z) ks a h x : path ks a h → x < h →
  rot f (ks ++ [x]) = swap (rot f ks) h x.
Proof.
  intros [H1 H2 _ _ _] _. apply last_Some in H2 as [ks' ->]. rewrite <- app_assoc. apply rot_snoc.
Qed.

Lemma path_first (f : Z → list Z) ks a h : path ks a h → rot f ks h = f a.
Proof.
  intros [H1 H2 _ _ _]. destruct ks as [|b ks]; [done |]. injection H1 as ->.
  by destruct (rot_last f a ks h).
Qed.

Lemma path_rd ks a h : path ks a h → rd (at_ ks) 0 = Ret (a * w).
Proof. intros [H1 _ _ _ _]. destruct ks as [|b ks]; [done |]. by injection H1 as ->. Qed.

Lemma path_other (f : Z → list Z) ks a h x : path ks a h → x < h → rot f ks x = f x.
Proof. intros [_ _ H3 _ _] Hx. apply rot_out. intros Hin. specialize (H3 x Hin). lia. Qed.

Lemma path_bounds ks a h : path ks a h → 0 ≤ a < n ∧ 0 ≤ h < n.
Proof.
  intros [H1 H2 _ _ H5]. rewrite Forall_forall in H5. split.
  - apply (H5 a). by apply head_Some_elem_of.
  - apply (H5 h). by apply last_Some_elem_of.
Qed.

Lemma push_at ks x : Zlength ks < AR_SIZE → push (at_ ks) (x * w) = Ret (at_ (ks ++ [x])).
Proof.
  intros Hl. unfold push. assert (Zlength (at_ ks) = Zlength ks) as -> by (unfold Zlength; by rewrite length_fmap).
  rewrite (proj2 (Z.ltb_lt _ _)) by done. by rewrite fmap_app.
Qed.

Lemma sift_loop_sim fuel k m f ks a h :
  arr w n m f → path ks a h → filled k → leo k ≤ h + 1 → (k < fuel)%nat → Zlength ks + Z.of_nat k < AR_SIZE →
  ∃ ks' h', sift_loop cmp fuel m w (h * w) (Z.of_nat k) lp (at_ ks) = Ret (at_ ks') ∧
    path ks' a h' ∧ Zlength ks' < AR_SIZE ∧ rot f ks' = sift_ref cmp k h (rot f ks).
Proof.
  intros Hm. revert k ks h. induction fuel as [|fuel IH]; intros k ks h Hp Hlp Hk Hf Hlen; [lia |]. cbn [sift_loop].
  destruct k as [|[|k]]; [exists ks, h; split_and!; [done | done | lia | done].. |].
  rewrite (proj2 (Z.ltb_lt 1 _)) by lia. replace (Z.of_nat (S (S k)) - 2) with (Z.of_nat k) by lia.
  rewrite (Hlp k) by lia. cbn [mbind outcome_bind]. rewrite (path_rd _ _ _ Hp). cbn [mbind outcome_bind].
  destruct (path_bounds _ _ _ Hp) as [Ha Hh]. rewrite leo_SS in Hk. pose proof (leo_pos k).
  replace (h * w - w - leo k * w) with ((h - 1 - leo k) * w) by lia. replace (h * w - w) with ((h - 1) * w) by lia.
  rewrite !(cmp_at_arr m f) by (done || lia). cbn [mbind outcome_bind]. rewrite sift_ref_SS.
  rewrite (path_first f _ _ _ Hp), !(path_other f _ _ _ _ Hp) by lia.
  assert (∀ x k', 0 ≤ x < h → filled k' → leo k' ≤ x + 1 → (k' < S (S k))%nat →
    ∃ ks' h', sift_loop cmp fuel m w (x * w) (Z.of_nat k') lp (at_ (ks ++ [x])) = Ret (at_ ks') ∧
      path ks' a h' ∧ Zlength ks' < AR_SIZE ∧ rot f ks' = sift_ref cmp k' x (swap (rot f ks) h x)) as Hgo.
  { intros x k' Hx Hlp' Hk' Hkk. rewrite <- (path_rot f ks a h x Hp) by lia.
    apply IH; [by eapply path_snoc | done | done | lia |]. rewrite Zlength_app, Zlength_cons. change (Zlength []) with 0. lia. }
  assert (∀ j, (j ≤ S (S k))%nat → filled j) as Hfi by (intros j Hj i Hi; apply Hlp; lia).
  destruct (0 <=? cmp (f a) (f (h - 1 - leo k))) eqn:E1; cbn [andb mbind outcome_bind].
  1: destruct (0 <=? cmp (f a) (f (h - 1))) eqn:E2; [exists ks, h; split_and!; [done | done | lia | done] |].
  all: destruct (0 <=? cmp (f (h - 1 - leo k)) (f (h - 1))); rewrite push_at by lia; cbn [mbind outcome_bind].
  all: first [replace (Z.of_nat (S (S k)) - 1) with (Z.of_nat (S k)) by lia; apply Hgo; [lia | apply Hfi; lia | lia | lia]
             | replace (Z.of_nat (S (S k)) - 2) with (Z.of_nat k) by lia; apply Hgo; [lia | apply Hfi; lia | lia | lia]].
Qed.

Lemma sift_sim k m f h :
  arr w n m f → 0 ≤ h < n → filled k → leo k ≤ h + 1 → (k ≤ 40)%nat →
  ∃ m', sift cmp m (h * w) w (Z.of_nat k) lp = Ret m' ∧ arr w n m' (sift_ref cmp k h f).
Proof.
  intros Hm Hh Hlp Hk H40. unfold sift. change [h * w] with (at_ [h]).
  destruct (sift_loop_sim (S (Z.to_nat AR_SIZE)) k m f [h] h h) as (ks & h' & -> & Hp & Hl & E);
    [done | by apply path_one | done | done | unfold AR_SIZE; lia | unfold AR_SIZE; change (Zlength [h]) with 1; lia |].
  cbn [mbind outcome_bind]. destruct Hp as [H1 _ _ H4 H5].
  destruct (cycle_arr w n ltac:(lia) m f ks) as (m' & -> & Hm'); [done | done | done | by destruct ks | done | lia |].
  exists m'. split; [done |]. by rewrite E in Hm'.
Qed.

(** * The orders of the trees as bits *)

Fixpoint enc (os : list nat) : Z :=
  match os with
  | k :: ((k' :: _) as os') => 1 + 2 ^ (Z.of_nat k' - Z.of_nat k) * enc os'
  | _ => 1
  end.

(** Neighbouring orders are different and less than 32 apart. *)
Fixpoint close (os : list nat) : Prop :=
  match os with
  | k :: ((k' :: _) as os') => (k < k' ≤ k + 31)%nat ∧ close os'
  | _ => True
  end.

Lemma enc_cons k k' os : enc (k :: k' :: os) = 1 + 2 ^ (Z.of_nat k' - Z.of_nat k) * enc (k' :: os).
Proof. done. Qed.

Lemma enc_pos os : 1 ≤ enc os.
Proof.
  induction os as [|k os IH]; [done |]. destruct os as [|k' os]; [done |]. rewrite enc_cons.
  assert (0 ≤ 2 ^ (Z.of_nat k' - Z.of_nat k)) by apply Z.pow_nonneg, Z.le_0_2. nia.
Qed.

Lemma enc_odd os : close os → Z.odd (enc os) = true.
Proof.
  destruct os as [|k os]; [done |]. destruct os as [|k' os]; [done |]. intros [Hk _]. rewrite enc_cons.
  replace (2 ^ (Z.of_nat k' - Z.of_nat k)) with (2 * 2 ^ (Z.of_nat k' - Z.of_nat k - 1)) by (rewrite <- Z.pow_succ_r by lia; f_equal; lia).
  by rewrite <- Z.mul_assoc, Z.odd_add_mul_2.
Qed.

Lemma enc_bound k os K :
  close (k :: os) → Forall (λ j, (j ≤ K)%nat) (k :: os) → enc (k :: os) < 2 ^ (Z.of_nat K - Z.of_nat k + 1).
Proof.
  revert k. induction os as [|k' os IH]; intros k Hc HK.
  - apply Forall_cons in HK as [Hk _]. cbn [enc]. apply (Z.pow_lt_mono_r 2 0); lia.
  - destruct Hc as [Hk Hc]. apply Forall_cons in HK as [_ HK]. specialize (IH k' Hc HK).
    apply Forall_cons in HK as [Hk' _]. rewrite enc_cons.
    replace (Z.of_nat K - Z.of_nat k + 1) with ((Z.of_nat k' - Z.of_nat k) + (Z.of_nat K - Z.of_nat k' + 1)) by lia.
    rewrite Z.pow_add_r by lia. assert (2 ^ 1 ≤ 2 ^ (Z.of_nat k' - Z.of_nat k)) by (apply Z.pow_le_mono_r; lia). nia.
Qed.

Lemma enc_one k k' os : close (k :: k' :: os) → enc (k :: k' :: os) ≠ 1.
Proof.
  intros [Hk _]. rewrite enc_cons. pose proof (enc_pos (k' :: os)).
  assert (0 < 2 ^ (Z.of_nat k' - Z.of_nat k)) by lia. nia.
Qed.

Lemma split_one x : 0 ≤ x → (negb ((split x).1 =? 1) || negb ((split x).2 =? 0)) = negb (x =? 1).
Proof.
  intros Hx. unfold split. cbn [fst snd].
  destruct (Z.eqb_spec x 1) as [-> | Hne]; [done |].
  destruct (Z.eqb_spec (x mod 2 ^ 32) 1), (Z.eqb_spec (x / 2 ^ 32) 0); cbn; try done. divmod.
Qed.

Lemma enc_next k k' os :
  close (k :: k' :: os) → Forall (λ j, (j ≤ 40)%nat) (k :: k' :: os) →
  pntz (split (enc (k :: k' :: os))) = Ret (Z.of_nat k' - Z.of_nat k) ∧
  shr (split (enc (k :: k' :: os))) (Z.of_nat k' - Z.of_nat k) = Ret (split (enc (k' :: os))).
Proof.
  intros Hc HK. pose proof (enc_bound _ _ 40 Hc HK) as Hb. pose proof Hc as [Hk Hc'].
  pose proof (enc_pos (k' :: os)). pose proof (enc_pos (k :: k' :: os)). split.
  - rewrite enc_cons. apply pntz_spec; [lia | lia | by apply enc_odd].
  - rewrite shr_spec; [| lia |].
    + do 2 f_equal. rewrite enc_cons, Z.add_comm, Z.mul_comm, Z.div_add_l by lia. rewrite Z.div_small; [lia |].
      split; [lia |]. apply (Z.pow_lt_mono_r 2 0); lia.
    + split; [lia |]. eapply Z.lt_le_trans; [exact Hb |]. apply Z.pow_le_mono_r; lia.
Qed.

(** * Moving a root along the row *)

Definition shape (os : list nat) (h : Z) : Prop :=
  close os ∧ size os = h + 1 ∧ Forall (λ j, (j ≤ 40)%nat ∧ filled j) os.

(** Whether a root stops because a root below it is too large. *)
Lemma stop_sim m f h k trusty :
  arr w n m f → 0 ≤ h < n → filled k → 0 ≤ h - leo k →
  (if negb trusty && (1 <? Z.of_nat k) then
     l ← rd lp (Z.of_nat k - 2);
     c ← cmp_at cmp w m (h * w - w) ((h - leo k) * w);
     if 0 <=? c then Ret true else
     c ← cmp_at cmp w m (h * w - w - l) ((h - leo k) * w);
     Ret (0 <=? c)
   else Ret false) =
  Ret (negb trusty && (2 <=? k)%nat &&
       ((0 <=? cmp (f (h - 1)) (f (h - leo k))) || (0 <=? cmp (f (h - 1 - leo (k - 2))) (f (h - leo k))))).
Proof.
  intros Hm Hh Hlp Hk. destruct trusty; [done |]. cbn [negb andb]. destruct k as [|[|k]]; [done.. |].
  rewrite (proj2 (Z.ltb_lt 1 _)) by lia. change (2 <=? S (S k))%nat with true. cbn [andb].
  replace (Z.of_nat (S (S k)) - 2) with (Z.of_nat k) by lia. rewrite (Hlp k) by lia.
  replace (S (S k) - 2)%nat with k by lia. rewrite leo_SS in *. pose proof (leo_pos k).
  cbn [mbind outcome_bind]. replace (h * w - w - leo k * w) with ((h - 1 - leo k) * w) by lia.
  replace (h * w - w) with ((h - 1) * w) by lia. rewrite !(cmp_at_arr m f) by (done || lia). cbn [mbind outcome_bind].
  by destruct (0 <=? cmp (f (h - 1)) _).
Qed.

Lemma trinkle_loop_sim fuel os k m f ks a h trusty :
  arr w n m f → path ks a h → shape (k :: os) h → (length os < fuel)%nat →
  Zlength ks + Z.of_nat (length os) < AR_SIZE → (trusty = true → ks = [h]) →
  ∃ ks' h' k' trusty',
    trinkle_loop cmp fuel m w (h * w) (split (enc (k :: os))) (Z.of_nat k) trusty lp (at_ ks) =
      Ret (at_ ks', h' * w, Z.of_nat k', trusty') ∧
    path ks' a h' ∧ Zlength ks' < AR_SIZE ∧ (k' ≤ 40)%nat ∧ filled k' ∧ leo k' ≤ h' + 1 ∧
    trinkle_ref cmp (k :: os) h trusty (rot f ks) = (if trusty' then f else sift_ref cmp k' h' (rot f ks')).
Proof.
  intros Hm. revert os k ks h trusty. induction fuel as [|fuel IH]; intros os k ks h trusty Hp Hsh Hf Hlen Ht; [lia |].
  destruct (path_bounds _ _ _ Hp) as [Ha Hh]. pose proof Hsh as (Hc & Hsz & Hall). pose proof (enc_pos (k :: os)).
  pose proof Hall as [[Hk40 Hkf] Hall']%Forall_cons. cbn [size foldr] in Hsz. fold (size os) in Hsz.
  pose proof (size_nonneg os). pose proof (leo_pos k) as [Hlk _].
  assert (trusty = true → rot f ks = f) as Htf by (intros E; by rewrite (Ht E)).
  assert (∃ ks' h' k' trusty', Ret (at_ ks, h * w, Z.of_nat k, trusty) = Ret (at_ ks', h' * w, Z.of_nat k', trusty') ∧
    path ks' a h' ∧ Zlength ks' < AR_SIZE ∧ (k' ≤ 40)%nat ∧ filled k' ∧ leo k' ≤ h' + 1 ∧
    (if trusty then rot f ks else sift_ref cmp k h (rot f ks)) = (if trusty' then f else sift_ref cmp k' h' (rot f ks'))) as Hstop.
  { exists ks, h, k, trusty. split_and!; [done | done | lia | done | done | lia |]. destruct trusty; [by apply Htf | done]. }
  cbn [trinkle_loop]. rewrite split_one by lia. destruct os as [|k2 os]; [exact Hstop |].
  rewrite (proj2 (Z.eqb_neq _ 1)) by (by apply enc_one). cbn [negb].
  rewrite (Hkf k) by lia. cbn [mbind outcome_bind]. rewrite (path_rd _ _ _ Hp). cbn [mbind outcome_bind].
  pose proof (leo_pos k2). cbn [size foldr] in Hsz. fold (size os) in Hsz. pose proof (size_nonneg os).
  replace (h * w - leo k * w) with ((h - leo k) * w) by lia. rewrite (cmp_at_arr m f) by (done || lia).
  cbn [mbind outcome_bind]. rewrite trinkle_ref_cons. cbv zeta.
  pose proof (leo_pos (k - 2)) as [Hlk2 _].
  rewrite (path_first f _ _ _ Hp), !(path_other f _ _ _ _ Hp) by lia.
  destruct (cmp (f (h - leo k)) (f a) <=? 0); [exact Hstop |].
  rewrite (stop_sim m f h k trusty Hm ltac:(lia) Hkf ltac:(lia)). cbn [mbind outcome_bind].
  destruct (negb trusty && _ && _); [exact Hstop |]. cbn [length] in *.
  rewrite push_at by lia. cbn [mbind outcome_bind].
  destruct (enc_next k k2 os Hc) as [-> E2]; [by eapply Forall_impl; [exact Hall | intros ? [? _]] |].
  cbn [mbind outcome_bind]. rewrite E2. cbn [mbind outcome_bind].
  replace (Z.of_nat k + (Z.of_nat k2 - Z.of_nat k)) with (Z.of_nat k2) by lia.
  rewrite <- (path_rot f ks a h (h - leo k) Hp) by lia.
  apply IH; [eapply path_snoc; [done | lia] | | lia | | done].
  - split_and!; [apply Hc | cbn [size foldr]; fold (size os); lia | done].
  - rewrite Zlength_app, Zlength_cons. change (Zlength []) with 0. lia.
Qed.

Lemma trinkle_sim k os m f h trusty :
  arr w n m f → 0 ≤ h < n → shape (k :: os) h → (length os ≤ 50)%nat →
  ∃ m', trinkle cmp m (h * w) w (split (enc (k :: os))) (Z.of_nat k) trusty lp = Ret m' ∧
    arr w n m' (trinkle_ref cmp (k :: os) h trusty f).
Proof.
  intros Hm Hh Hsh Hlen. unfold trinkle. change [h * w] with (at_ [h]).
  destruct (trinkle_loop_sim (S (Z.to_nat AR_SIZE)) os k m f [h] h h trusty)
    as (ks & h' & k' & t' & -> & Hp & Hl & H40 & Hfi & Hle & E);
    [done | by apply path_one | done | unfold AR_SIZE; lia | unfold AR_SIZE; change (Zlength [h]) with 1; lia | done |].
  cbn [mbind outcome_bind]. cbn [rot] in E. rewrite E. destruct t'; [by exists m |].
  destruct (path_bounds _ _ _ Hp) as [_ Hh']. destruct Hp as [H1 _ _ H4 H5].
  destruct (cycle_arr w n ltac:(lia) m f ks) as (m1 & -> & Hm1); [done | done | done | by destruct ks | done | lia |].
  cbn [mbind outcome_bind]. by apply sift_sim.
Qed.

(** * The row of trees *)

Lemma split_lor1 x : 0 ≤ x → Z.even x = true → (Z.lor (split x).1 1, (split x).2) = split (x + 1).
Proof.
  intros Hx He. unfold split. cbn [fst snd]. apply Z.even_spec in He as [y ->].
  assert ((2 * y) mod 2 ^ 32 = 2 * (y mod 2 ^ 31)) as E1.
  { change (2 ^ 32) with (2 * 2 ^ 31). by rewrite Z.mul_mod_distr_l by lia. }
  assert ((2 * y + 1) mod 2 ^ 32 = 2 * (y mod 2 ^ 31) + 1 ∧ (2 * y + 1) / 2 ^ 32 = 2 * y / 2 ^ 32) as [E2 E3] by divmod.
  rewrite E1, E2, E3. f_equal. rewrite (Z.mul_comm 2). apply (lor_high_low (y mod 2 ^ 31) 1 1); lia.
Qed.

Lemma split_lxor7 x : 0 ≤ x → x mod 8 = 4 → (Z.lxor (split x).1 7, (split x).2) = split (x - 1).
Proof.
  intros Hx He. unfold split. cbn [fst snd].
  assert ((x - 1) mod 2 ^ 32 = (x mod 2 ^ 32) / 8 * 2 ^ 3 + 3 ∧ (x - 1) / 2 ^ 32 = x / 2 ^ 32 ∧
    x mod 2 ^ 32 = (x mod 2 ^ 32) / 8 * 2 ^ 3 + 4) as (E1 & E2 & E3) by (change (2 ^ 3) with 8; divmod).
  rewrite E1, E2. rewrite E3 at 1. f_equal. set (q := (x mod 2 ^ 32) / 8). clearbody q.
  rewrite <- !lor_high_low by lia. apply Z.bits_inj'. intros b Hb. rewrite Z.lxor_spec, !Z.lor_spec, <- Z.shiftl_mul_pow2 by lia.
  destruct (decide (b < 3)) as [Hb3 | Hb3].
  - rewrite Z.shiftl_spec_low by lia. assert (b = 0 ∨ b = 1 ∨ b = 2) as [-> | [-> | ->]] by lia; done.
  - rewrite (testbit_above 4 3), (testbit_above 7 3), (testbit_above 3 3) by lia. by rewrite xorb_false_r.
Qed.

Lemma enc_join k k' os :
  wf (k :: k' :: os) → k' = S k → close (k :: k' :: os) → enc (k :: k' :: os) / 4 + 1 = enc (S k' :: os) ∧
  Z.even (enc (k :: k' :: os) / 4) = true.
Proof.
  intros (_ & Hs & _) -> Hc. rewrite enc_cons. replace (Z.of_nat (S k) - Z.of_nat k) with 1 by lia.
  destruct os as [|k3 os]; [done |]. destruct Hs as [H3 _]. rewrite !enc_cons.
  set (e := enc (k3 :: os)). set (d := Z.of_nat k3 - Z.of_nat (S k)).
  replace (Z.of_nat k3 - Z.of_nat (S (S k))) with (d - 1) by lia.
  assert (2 ^ d = 4 * 2 ^ (d - 2)) as Ed by (change 4 with (2 ^ 2); rewrite <- Z.pow_add_r by lia; f_equal; lia).
  assert (2 ^ (d - 1) = 2 * 2 ^ (d - 2)) as Ed1 by (rewrite <- Z.pow_succ_r by lia; f_equal; lia).
  assert ((1 + 2 ^ 1 * (1 + 2 ^ d * e)) / 4 = 2 * (2 ^ (d - 2) * e)) as ->.
  { rewrite Ed. change (2 ^ 1) with 2. symmetry. apply (Z.div_unique _ _ _ 3); lia. }
  rewrite Ed1, Z.even_mul. split; [ring | done].
Qed.

Lemma enc_land3 os : close os → os ≠ [] → (Z.land (split (enc os)).1 3 =? 3) = adjacent os.
Proof.
  intros Hc Hne. unfold split. cbn [fst]. change 3 with (2 ^ 2 - 1) at 1. rewrite land_low_bits by lia.
  change (2 ^ 2) with 4. assert (enc os mod 2 ^ 32 mod 4 = enc os mod 4) as -> by (change (2 ^ 32) with (4 * 2 ^ 30); divmod).
  destruct os as [|k os]; [done |]. destruct os as [|k' os]; [done |]. pose proof Hc as [Hk Hc'].
  pose proof (enc_odd _ Hc') as Ho. rewrite enc_cons. cbn [adjacent]. set (e := enc (k' :: os)) in *.
  rewrite Z.odd_spec in Ho. destruct Ho as [y ->].
  destruct (Nat.eqb_spec k' (S k)) as [-> | Hn].
  - replace (Z.of_nat (S k) - Z.of_nat k) with 1 by lia. change (2 ^ 1) with 2. apply Z.eqb_eq. divmod.
  - replace (2 ^ (Z.of_nat k' - Z.of_nat k)) with (4 * 2 ^ (Z.of_nat k' - Z.of_nat k - 2))
      by (change 4 with (2 ^ 2); rewrite <- Z.pow_add_r by lia; f_equal; lia).
    set (q := 2 ^ (Z.of_nat k' - Z.of_nat k - 2)). apply Z.eqb_neq.
    replace (1 + 4 * q * (2 * y + 1)) with (1 + (q * (2 * y + 1)) * 4) by ring. rewrite Z.mod_add by lia. done.
Qed.

Context (Hfill : ∀ k, leo k ≤ n → filled k).

Lemma order_le j k : leo (S j) ≤ leo (S k) → (j ≤ k)%nat.
Proof.
  intros Hk. destruct (decide (j ≤ k)%nat); [done |]. pose proof (leo_mono (S (S k)) (S j) ltac:(lia)).
  rewrite leo_SS in *. pose proof (leo_pos k). lia.
Qed.

Lemma order_33 k : leo k ≤ leo 33 → (k ≤ 33)%nat.
Proof. intros Hk. destruct k as [|k]; [lia |]. apply order_le in Hk. lia. Qed.

Lemma spread_close k ks : spread k ks → (1 ≤ k)%nat → Forall (λ j, (j ≤ 32)%nat) ks → close (k :: ks).
Proof.
  revert k. induction ks as [|k' ks IH]; intros k Hs H1 Ha; [done |]. destruct Hs as [Hk Hs].
  apply Forall_cons in Ha as [Hk' Ha]. split; [lia |]. apply IH; [done | lia | done].
Qed.

Lemma close_length k os K : close (k :: os) → Forall (λ j, (j ≤ K)%nat) (k :: os) → (length os + k ≤ K)%nat.
Proof.
  revert k. induction os as [|k' os IH]; intros k Hc Ha.
  - apply Forall_cons in Ha as [? _]. cbn. lia.
  - destruct Hc as [Hk Hc]. apply Forall_cons in Ha as [_ Ha]. specialize (IH k' Hc Ha). cbn [length]. lia.
Qed.

Lemma size_orders os : Forall (λ j, leo j ≤ size os) os.
Proof.
  induction os as [|k os IH]; [done |]. cbn [size foldr]. fold (size os). pose proof (leo_pos k). pose proof (size_nonneg os).
  constructor; [lia |]. eapply Forall_impl; [exact IH |]. cbn. lia.
Qed.

(** Up to [leo 33] elements neighbouring trees are less than 32 orders apart. *)
Lemma wf_close os : wf os → size os ≤ leo 33 → close os.
Proof.
  destruct os as [|k [|k' os]]; [done | done |]. intros (Hk & Hs & H0) Hsz. cbn [size foldr] in Hsz. fold (size os) in Hsz.
  assert (Forall (λ j, (j ≤ 32)%nat) (k' :: os)) as Ha.
  { pose proof (leo_pos k). pose proof (size_orders (k' :: os)) as Ho. cbn [size foldr] in Ho. fold (size os) in Ho.
    eapply Forall_impl; [exact Ho |]. cbv beta. intros j Hj. pose proof (order_33 j ltac:(lia)).
    destruct (decide (j = 33)%nat) as [-> |]; lia. }
  pose proof Ha as [H32 Ha']%Forall_cons. split; [destruct k; [rewrite (H0 eq_refl) |]; lia |]. apply spread_close; [done | lia | done].
Qed.

Lemma wf_shape k os h : wf (k :: os) → size (k :: os) = h + 1 → h < n → h + 1 ≤ leo 33 → shape (k :: os) h ∧ (length os ≤ 50)%nat.
Proof.
  intros Hw' Hs Hh H33. pose proof (wf_close _ Hw' ltac:(lia)) as Hc.
  assert (Forall (λ j, (j ≤ 33)%nat ∧ filled j) (k :: os)) as Ha.
  { eapply Forall_impl; [apply size_orders |]. intros j Hj. cbv beta in Hj. rewrite Hs in Hj. split; [apply order_33; lia | apply Hfill; lia]. }
  split; [split_and!; [done | done |] |].
  - eapply Forall_impl; [exact Ha |]. cbn. intros j [? ?]. split; [lia | done].
  - pose proof (close_length k os 33 Hc ltac:(eapply Forall_impl; [exact Ha | cbn; tauto])). lia.
Qed.

Lemma first_order k os h : wf (k :: os) → size (k :: os) = h + 1 → h < n → h + 1 ≤ leo 33 →
  (k ≤ 33)%nat ∧ filled k ∧ leo k ≤ h + 1.
Proof.
  intros Hw' Hs Hh H33. cbn [size foldr] in Hs. fold (size os) in Hs. pose proof (size_nonneg os).
  split_and!; [apply order_33; lia | apply Hfill; lia | lia].
Qed.

Lemma enc_small k os h : wf (k :: os) → size (k :: os) = h + 1 → h < n → h + 1 ≤ leo 33 → 1 ≤ enc (k :: os) < 2 ^ (41 - Z.of_nat k).
Proof.
  intros Hw' Hs Hh H33. destruct (wf_shape k os h Hw' Hs Hh H33) as [(Hc & _ & Ha) _]. split; [apply enc_pos |].
  replace (41 - Z.of_nat k) with (Z.of_nat 40 - Z.of_nat k + 1) by lia. apply enc_bound; [done |].
  eapply Forall_impl; [exact Ha |]. cbn. tauto.
Qed.

Lemma build_step_sim k os m f h :
  arr w n m f → wf (k :: os) → size (k :: os) = h + 1 → 0 ≤ h < n - 1 → h + 1 < leo 33 →
  ∃ m' k' os', grow (k :: os) = k' :: os' ∧ arr w n m' (build_step cmp n (k :: os) h f) ∧
    ('(m, p, pshift) ←
       (if Z.land (split (enc (k :: os))).1 3 =? 3 then
          m ← sift cmp m (h * w) w (Z.of_nat k) lp;
          p ← shr (split (enc (k :: os))) 2;
          Ret (m, p, Z.of_nat k + 2)
        else
          l ← rd lp (Z.of_nat k - 1);
          m ← (if (n - 1) * w - h * w <=? l then trinkle cmp m (h * w) w (split (enc (k :: os))) (Z.of_nat k) false lp
               else sift cmp m (h * w) w (Z.of_nat k) lp);
          if Z.of_nat k =? 1 then p ← shl (split (enc (k :: os))) 1; Ret (m, p, 0)
          else p ← shl (split (enc (k :: os))) (Z.of_nat k - 1); Ret (m, p, 1));
     Ret (m, (Z.lor p.1 1, p.2), pshift)) = Ret (m', split (enc (k' :: os')), Z.of_nat k').
Proof.
  intros Hm Hw' Hs Hh H33. destruct (wf_shape k os h Hw' Hs ltac:(lia) ltac:(lia)) as [Hsh Hlen]. pose proof Hsh as (Hc & _ & _).
  destruct (first_order k os h Hw' Hs ltac:(lia) ltac:(lia)) as (Hk33 & Hfi & Hle). pose proof (enc_small k os h Hw' Hs ltac:(lia) ltac:(lia)) as He.
  assert (k ≤ 32)%nat as H32 by (destruct (decide (k = 33)%nat) as [-> |]; lia).
  destruct (sift_sim k m f h Hm ltac:(lia) Hfi Hle ltac:(lia)) as (ms & Es & Hms).
  destruct (trinkle_sim k os m f h false Hm ltac:(lia) Hsh Hlen) as (mt & Et & Hmt).
  rewrite enc_land3 by done. unfold build_step. rewrite Es, Et. destruct (adjacent (k :: os)) eqn:Ea.
  - destruct os as [|k' os]; [done |]. cbn [adjacent] in Ea. cbn [grow]. rewrite Ea. apply Nat.eqb_eq in Ea as ->.
    exists ms, (S (S k)), os. split_and!; [done | done |]. cbn [mbind outcome_bind].
    rewrite shr_spec; [| lia |].
    + cbn [mbind outcome_bind]. destruct (enc_join k (S k) os Hw' eq_refl Hc) as [E1 E2]. change (2 ^ 2) with 4.
      rewrite split_lor1, E1; [| apply Z.div_pos; lia | done]. do 2 f_equal. lia.
    + split; [lia |]. eapply Z.lt_trans; [apply He |]. apply Z.pow_lt_mono_r; lia.
  - destruct (wf_spread _ _ Hw' Ea) as [Hsp Hk0].
    assert (grow (k :: os) = (if (k =? 1)%nat then 0%nat else 1%nat) :: k :: os) as ->.
    { destruct os as [|k' os]; cbn [grow adjacent] in *; [by destruct (k =? 1)%nat |]. rewrite Ea. by destruct (k =? 1)%nat. }
    replace (Z.of_nat k - 1) with (Z.of_nat (k - 1)) by lia. rewrite (Hfi (k - 1)%nat) by lia. cbn [mbind outcome_bind].
    assert (((n - 1) * w - h * w <=? leo (k - 1) * w) = (n - 1 - h <=? leo (k - 1))) as ->.
    { destruct (Z.leb_spec (n - 1 - h) (leo (k - 1))); [apply Z.leb_le; nia | apply Z.leb_gt; nia]. }
    set (b := n - 1 - h <=? leo (k - 1)).
    exists (if b then mt else ms), (if (k =? 1)%nat then 0%nat else 1%nat), (k :: os).
    split_and!; [done | by destruct b |].
    assert ((if b then Ret mt else Ret ms) = Ret (if b then mt else ms)) as -> by (by destruct b). cbn [mbind outcome_bind].
    destruct (Nat.eqb_spec k 1) as [-> | Hk1].
    + change (Z.of_nat 1 =? 1) with true. cbv iota. rewrite shl_spec; [| lia | lia |]; cbn [mbind outcome_bind].
      * rewrite split_lor1; [| lia | by rewrite Z.even_mul, orb_true_r]. rewrite (enc_cons 0 1). change (2 ^ (Z.of_nat 1 - Z.of_nat 0)) with (2 ^ 1).
        by rewrite Z.add_comm, Z.mul_comm.
      * eapply Z.lt_trans; [apply Z.mul_lt_mono_pos_r; [lia | apply He] |]. rewrite <- Z.pow_add_r by lia. apply Z.pow_lt_mono_r; lia.
    + rewrite (proj2 (Z.eqb_neq (Z.of_nat k) 1)) by lia. rewrite shl_spec; [| lia | lia |]; cbn [mbind outcome_bind].
      * rewrite split_lor1; [| nia |].
        -- rewrite (enc_cons 1 k). replace (Z.of_nat k - Z.of_nat 1) with (Z.of_nat (k - 1)) by lia.
           by rewrite Z.add_comm, Z.mul_comm.
        -- rewrite Z.even_mul, Z.even_pow, orb_true_r by lia. done.
      * eapply Z.lt_le_trans; [apply Z.mul_lt_mono_pos_r; [lia | apply He] |]. rewrite <- Z.pow_add_r by lia. apply Z.pow_le_mono_r; lia.
Qed.

Lemma bind3_inv {A B C : Type} (x : outcome (A * (Z * Z) * B)) (g : Z * Z → Z * Z) a p b (K : A → Z * Z → B → outcome C) :
  ('(m, p, s) ← x; Ret (m, g p, s)) = Ret (a, p, b) → ('(m, p, s) ← x; K m (g p) s) = K a p b.
Proof. destruct x as [[[m q] r] |]; cbn; [| done]. by intros [= -> -> ->]. Qed.

(** [t] rounds of the first loop. *)
Lemma build_loop_sim fuel t k os m f h :
  arr w n m f → wf (k :: os) → size (k :: os) = h + 1 → 0 ≤ h → h + Z.of_nat t ≤ n - 1 → h + Z.of_nat t < leo 33 →
  ∃ m' k' os' f', build_ref cmp t n (k :: os) h f = (k' :: os', f') ∧ arr w n m' f' ∧
    build_loop cmp (t + fuel) m w (h * w) ((n - 1) * w) (split (enc (k :: os))) (Z.of_nat k) lp =
      build_loop cmp fuel m' w ((h + Z.of_nat t) * w) ((n - 1) * w) (split (enc (k' :: os'))) (Z.of_nat k') lp.
Proof.
  revert k os m f h. induction t as [|t IH]; intros k os m f h Hm Hw' Hs Hh Ht H33.
  - exists m, k, os, f. by rewrite Z.add_0_r.
  - cbn [Nat.add build_loop build_ref]. rewrite (proj2 (Z.ltb_lt _ _)) by nia.
    destruct (build_step_sim k os m f h Hm Hw' Hs ltac:(lia) ltac:(lia)) as (m1 & k1 & os1 & Eg & Hm1 & E).
    destruct (grow_wf _ Hw') as [Hw1 Hs1]. rewrite Eg in *.
    apply (bind3_inv _ (λ p, (Z.lor p.1 1, p.2)) _ _ _
      (λ m p s, build_loop cmp (t + fuel) m w (h * w + w) ((n - 1) * w) p s lp)) in E. cbv beta in E. rewrite E.
    replace (h * w + w) with ((h + 1) * w) by lia. replace (h + Z.of_nat (S t)) with (h + 1 + Z.of_nat t) by lia.
    apply IH; [done | done | lia | lia | lia | lia].
Qed.

Lemma enc_split k os :
  wf (S (S k) :: os) → enc (S k :: os) = 2 * enc (S (S k) :: os) - 1.
Proof.
  intros Hw'. destruct os as [|k3 os]; [done |]. destruct Hw' as (Hk & _ & _). rewrite !enc_cons.
  replace (Z.of_nat k3 - Z.of_nat (S k)) with (Z.of_nat k3 - Z.of_nat (S (S k)) + 1) by lia.
  rewrite Z.pow_add_r by lia. change (2 ^ 1) with 2. ring.
Qed.

(** The orders in the second loop: the last tree is replaced by its subtrees. *)
Lemma split_words k os h :
  wf (S (S k) :: os) → size (S (S k) :: os) = h + 1 → h < n → h + 1 ≤ leo 33 →
  ∃ q1 q2, shl (split (enc (S (S k) :: os))) 2 = Ret q1 ∧ shr (Z.lxor q1.1 7, q1.2) 1 = Ret (split (enc (S k :: os))) ∧
    shl (split (enc (S k :: os))) 1 = Ret q2 ∧ (Z.lor q2.1 1, q2.2) = split (enc (k :: S k :: os)).
Proof.
  intros Hw' Hs Hh H33. pose proof (enc_small _ _ _ Hw' Hs Hh H33) as He. destruct (wf_shape _ _ _ Hw' Hs Hh H33) as [(Hc & _ & _) _].
  pose proof (enc_odd _ Hc) as Ho. set (e := enc (S (S k) :: os)) in *. pose proof (enc_split k os Hw') as Esp. fold e in Esp.
  assert (2 ^ (41 - Z.of_nat (S (S k))) ≤ 2 ^ 39) by (apply Z.pow_le_mono_r; lia).
  apply Z.odd_spec in Ho as [y Ey].
  exists (split (e * 2 ^ 2)), (split (enc (S k :: os) * 2 ^ 1)). split_and!.
  - apply shl_spec; lia.
  - rewrite split_lxor7; [| lia | change (2 ^ 2) with 4; divmod]. rewrite shr_spec by lia. do 2 f_equal. rewrite Esp. change (2 ^ 2) with 4. change (2 ^ 1) with 2. divmod.
  - apply shl_spec; lia.
  - rewrite split_lor1; [| lia | by rewrite Z.even_mul, orb_true_r]. rewrite (enc_cons k (S k)).
    replace (Z.of_nat (S k) - Z.of_nat k) with 1 by lia. by rewrite Z.add_comm, Z.mul_comm.
Qed.

Lemma unbuild_loop_sim fuel t k os m f h :
  arr w n m f → wf (k :: os) → size (k :: os) = h + 1 → h = Z.of_nat t → h < n → h + 1 ≤ leo 33 → (t < fuel)%nat →
  ∃ m', unbuild_loop cmp fuel m w (h * w) (split (enc (k :: os))) (Z.of_nat k) lp = Ret m' ∧
    arr w n m' (unbuild_ref cmp t (k :: os) h f).
Proof.
  revert fuel k os m f h. induction t as [|t IH]; intros fuel k os m f h Hm Hw' Hs Ht Hh H33 Hf; (destruct fuel as [|fuel]; [lia |]).
  - cbn [size foldr] in Hs. fold (size os) in Hs. pose proof (leo_pos k). destruct os as [|k' os].
    + assert (k = 1%nat) as -> by (destruct k as [|[|k]]; [done | done |]; rewrite leo_SS in Hs; cbn [size foldr] in Hs; pose proof (leo_pos k); lia).
      by exists m.
    + cbn [size foldr] in Hs. fold (size os) in Hs. pose proof (leo_pos k'). pose proof (size_nonneg os). lia.
  - cbn [unbuild_loop]. rewrite <- orb_assoc, split_one by (pose proof (enc_pos (k :: os)); lia).
    destruct (wf_shape k os h Hw' Hs Hh H33) as [(Hc & _ & Ha) Hlen].
    destruct (decide (k ≤ 1)%nat) as [Hk | Hk].
    + assert (leo k = 1) as Hk1 by (destruct k as [|[|k]]; [done | done | lia]). cbn [size foldr] in Hs. fold (size os) in Hs.
      destruct os as [|k' os]; [cbn [size foldr] in Hs; lia |].
      rewrite (proj2 (Z.eqb_neq (enc (k :: k' :: os)) 1)) by (by apply enc_one). cbn [negb]. rewrite orb_true_r, (proj2 (Z.leb_le _ 1)) by lia.
      destruct (enc_next k k' os Hc) as [-> E2]; [by eapply Forall_impl; [exact Ha | intros ? [? _]] |].
      cbn [mbind outcome_bind]. rewrite E2. cbn [mbind outcome_bind].
      replace (Z.of_nat k + (Z.of_nat k' - Z.of_nat k)) with (Z.of_nat k') by lia. replace (h * w - w) with ((h - 1) * w) by lia.
      assert (unbuild_ref cmp (S t) (k :: k' :: os) h f = unbuild_ref cmp t (k' :: os) (h - 1) f) as ->
        by (destruct k as [|[|k]]; [done | done | lia]).
      apply IH; [done | by eapply wf_tail | lia | lia | lia | lia | lia].
    + destruct k as [|[|k]]; [lia.. |]. rewrite (proj2 (Z.eqb_neq (Z.of_nat (S (S k))) 1)), (proj2 (Z.leb_gt _ 1)) by lia. cbn [negb orb].
      destruct (split_words k os h Hw' Hs Hh H33) as (q1 & q2 & E1 & E2 & E3 & E4).
      rewrite E1. cbn [mbind outcome_bind]. rewrite E2. cbn [mbind outcome_bind].
      replace (Z.of_nat (S (S k)) - 2) with (Z.of_nat k) by lia. apply Forall_cons in Ha as [[_ Hfi] _].
      rewrite (Hfi k) by lia. cbn [mbind outcome_bind].
      replace (h * w - leo k * w - w) with ((h - 1 - leo k) * w) by lia. replace (h * w - w) with ((h - 1) * w) by lia.
      replace (Z.of_nat k + 1) with (Z.of_nat (S k)) by lia.
      pose proof (wf_split k os Hw') as Hw2. pose proof (wf_tail k (S k :: os) Hw2 ltac:(done)) as Hw1.
      cbn [size foldr] in Hs. fold (size os) in Hs. rewrite leo_SS in Hs. pose proof (leo_pos k). pose proof (size_nonneg os).
      destruct (wf_shape (S k) os (h - 1 - leo k) Hw1) as [Hsh1 Hl1]; [cbn [size foldr]; fold (size os); lia | lia | lia |].
      destruct (wf_shape k (S k :: os) (h - 1) Hw2) as [Hsh2 Hl2]; [cbn [size foldr]; fold (size os); lia | lia | lia |].
      destruct (trinkle_sim (S k) os m f (h - 1 - leo k) true Hm) as (m1 & -> & Hm1); [lia | done | done |].
      cbn [mbind outcome_bind]. rewrite E3. cbn [mbind outcome_bind]. rewrite E4.
      destruct (trinkle_sim k (S k :: os) m1 _ (h - 1) true Hm1) as (m2 & -> & Hm2); [lia | done | done |].
      cbn [mbind outcome_bind]. apply IH; [done | done | cbn [size foldr]; fold (size os); lia | lia | lia | lia | lia].
Qed.
End trees.

(** * [qsort] *)

Lemma leo_iter j :
  leo j = (Nat.iter j (λ '(a, b), (b, a + b + 1)) (1, 1)).1 ∧
  leo (S j) = (Nat.iter j (λ '(a, b), (b, a + b + 1)) (1, 1)).2.
Proof.
  induction j as [|j [IH1 IH2]]; [done |]. rewrite leo_SS, Nat.iter_succ, IH1, IH2.
  destruct (Nat.iter j _ _) as [a b]. cbn [fst snd]. split; [done | lia].
Qed.

Lemma leo_33 : leo 33 = 11405773.
Proof. rewrite (proj1 (leo_iter 33)). by vm_compute. Qed.

Lemma leo_44 : leo 44 = 2269806339.
Proof. rewrite (proj1 (leo_iter 44)). by vm_compute. Qed.

Lemma leonardo_fills w n fuel j lp :
  0 < w → n * w ≤ 2 ^ 30 → (1 ≤ j ≤ 43)%nat → (j = 1%nat ∨ leo j < n) → length lp = S j → (44 - j ≤ fuel)%nat → (1 ≤ fuel)%nat →
  1 ≤ n → filled w lp j →
  ∃ lp', leonardo_numbers fuel w (n * w) (leo (j - 1) * w) (leo j * w) lp = Ret lp' ∧ ∀ k, leo k ≤ n → filled w lp' k.
Proof.
  intros Hw Hnw. revert j lp. induction fuel as [|fuel IH]; intros j lp Hj Hlt Hlen Hf Hf1 Hn1 Hfi; [lia |].
  cbn [leonardo_numbers]. destruct j as [|j]; [lia |]. replace (S j - 1)%nat with j by lia.
  assert (leo j * w + leo (S j) * w + w = leo (S (S j)) * w) as Es by (rewrite leo_SS; lia). rewrite Es.
  assert (leo (S (S j)) * w < 2 ^ 32) as Hsm.
  { destruct Hlt as [E | Hlt]; [assert (j = 0%nat) as -> by lia; change (leo 2) with 3; nia |].
    rewrite leo_SS. pose proof (leo_step j). nia. }
  pose proof (leo_pos (S j)) as [_ Hp]. rewrite u32_small by nia.
  assert (Zlength lp = Z.of_nat (S (S j))) as -> by (unfold Zlength; lia).
  rewrite (proj2 (Z.ltb_lt _ LP_SIZE)) by (unfold LP_SIZE; lia).
  assert (filled w (lp ++ [leo (S (S j)) * w]) (S (S j))) as Hfi'.
  { intros i Hi. destruct (decide (i = S (S j))) as [-> | Hne].
    - apply rd_Ret. split; [lia |]. rewrite Nat2Z.id, lookup_app_r by lia. rewrite Hlen, Nat.sub_diag. done.
    - pose proof (Hfi i ltac:(lia)) as [_ E]%rd_Ret. apply rd_Ret. split; [lia |].
      rewrite lookup_app_l; [done |]. by apply lookup_lt_Some in E. }
  destruct (Z.ltb_spec (leo (S (S j)) * w) (n * w)) as [Hc | Hc].
  - assert (leo (S (S j)) < n) by nia.
    assert (S (S j) < 44)%nat by (destruct (decide (S (S j) < 44)%nat); [done |]; pose proof (leo_mono 44 (S (S j)) ltac:(lia)); rewrite leo_44 in *; nia).
    destruct (IH (S (S j)) (lp ++ [leo (S (S j)) * w])) as (lp' & E & H'); [lia | by right | rewrite length_app; cbn [length]; lia | lia | lia | done | done |].
    exists lp'. split; [| done]. replace (S (S j) - 1)%nat with (S j) in E by lia. exact E.
  - exists (lp ++ [leo (S (S j)) * w]). split; [done |]. intros k Hk i Hi. apply Hfi'.
    destruct (decide (k ≤ S (S j))%nat); [lia |]. pose proof (leo_mono (S (S (S j))) k ltac:(lia)).
    rewrite (leo_SS (S j)) in *. pose proof (leo_pos (S j)). nia.
Qed.

(** The array as a function; outside it the first element. *)
Definition arr_of (w n : Z) (m : list Z) (k : Z) : list Z :=
  take (Z.to_nat w) (drop (Z.to_nat ((if (0 <=? k) && (k <? n) then k else 0) * w)) m).

Lemma arr_of_arr w n m : 0 < w → Zlength m = n * w → arr w n m (arr_of w n m).
Proof.
  intros Hw Hl. split; [split; [done |] |].
  - intros k b Hk Hb. unfold arr_of. rewrite (proj2 (Z.leb_le 0 k)), (proj2 (Z.ltb_lt k n)) by lia. cbn [andb].
    rewrite lookup_take_lt, lookup_drop by lia. f_equal. assert (0 ≤ k * w) by nia. lia.
  - intros k Hk. unfold arr_of. rewrite (proj2 (Z.leb_le 0 k)), (proj2 (Z.ltb_lt k n)) by lia. cbn [andb].
    assert (0 ≤ k * w ∧ k * w + w ≤ n * w) by nia. unfold Zlength in *. rewrite length_take, length_drop. lia.
Qed.

Lemma arr_elements w n m f : 0 < w → arr w n m f → elements w n m = f <$> seqZ 0 n.
Proof.
  intros Hw Ha. apply list_fmap_ext. intros i k [-> Hi]%lookup_seqZ.
  pose proof (load_arr w n Hw m f (0 + Z.of_nat i) Ha ltac:(lia)) as E. unfold load in E.
  case_match; [| done]. by injection E.
Qed.

(** The start of [qsort], up to a number of rounds of its first loop. *)
Lemma qsort_start cmp m n w t :
  0 < w → 0 < n → n * w ≤ 2 ^ 30 → Zlength m = n * w → Z.of_nat t ≤ n - 1 → Z.of_nat t < leo 33 →
  ∃ lp m' k os f, (∀ k, leo k ≤ n → filled w lp k) ∧ arr w n m' f ∧
    build_ref cmp t n [1%nat] 0 (arr_of w n m) = (k :: os, f) ∧ wf (k :: os) ∧ size (k :: os) = Z.of_nat t + 1 ∧
    qsort cmp m n w =
      ('(m, head, p, pshift) ← build_loop cmp (S (Z.to_nat n) - t) m' w (Z.of_nat t * w) ((n - 1) * w)
                                 (split (enc (k :: os))) (Z.of_nat k) lp;
       m ← trinkle cmp m head w p pshift false lp;
       unbuild_loop cmp (S (Z.to_nat n)) m w head p pshift lp).
Proof.
  intros Hw Hn Hnw Hl Ht H33. pose proof (arr_of_arr w n m Hw Hl) as Ha. assert (w < 2 ^ 32) by nia.
  unfold qsort. replace (u32 (w * n)) with (n * w) by (rewrite u32_small; nia).
  rewrite (proj2 (Z.eqb_neq (n * w) 0)) by nia.
  destruct (leonardo_fills w n (Z.to_nat LP_SIZE) 1 [w; w]) as (lp & E & Hlp);
    [exact Hw | exact Hnw | lia | left; reflexivity | reflexivity | unfold LP_SIZE; lia | unfold LP_SIZE; lia | lia | |].
  { intros [|[|i]] Hi; [| | lia]; (change (rd [w; w] _) with (Ret w); f_equal; [change (leo _) with 1; lia]). }
  replace (leo (1 - 1) * w) with w in E by (change (leo (1 - 1)) with 1; lia).
  replace (leo 1 * w) with w in E by (change (leo 1) with 1; lia). rewrite E. cbn [mbind outcome_bind].
  assert (wf [1%nat] ∧ size [1%nat] = 0 + 1) as [Hw1 Hs1] by (split; [simpl; lia | done]).
  destruct (build_loop_sim w n ltac:(lia) cmp lp Hlp (S (Z.to_nat n) - t) t 1 [] m (arr_of w n m) 0)
    as (m1 & k & os & f1 & Eb & Hm1 & E1); [done | done | done | lia | lia | lia |].
  replace (t + (S (Z.to_nat n) - t))%nat with (S (Z.to_nat n)) in E1 by lia.
  change (0 * w) with 0 in E1. change (split (enc [1%nat])) with (1, 0) in E1. change (Z.of_nat 1) with 1 in E1.
  rewrite Z.add_0_l in E1. destruct (build_shape _ _ _ _ _ _ _ _ Hw1 Hs1 Eb) as (Hw2 & Hs2 & _).
  exists lp, m1, k, os, f1. split_and!; [done | done | done | done | lia |].
  replace (n * w - w) with ((n - 1) * w) by lia. by rewrite E1.
Qed.

(** What qsort does is the reference: it returns, whatever the comparison says. *)
Lemma qsort_ref cmp m n w :
  0 < w → 0 < n ≤ leo 33 → n * w ≤ 2 ^ 30 → Zlength m = n * w →
  ∃ m', qsort cmp m n w = Ret m' ∧ arr w n m' (smoothsort_ref cmp (Z.to_nat n) (arr_of w n m)).
Proof.
  intros Hw Hn Hnw Hl. assert (w < 2 ^ 32) by nia.
  destruct (qsort_start cmp m n w (Z.to_nat n - 1)) as (lp & m1 & k & os & f1 & Hlp & Hm1 & Eb & Hw2 & Hs2 & ->); [done | lia | done | done | lia | lia |].
  replace (Z.of_nat (Z.to_nat n - 1)) with (n - 1) in * by lia. replace (S (Z.to_nat n) - (Z.to_nat n - 1))%nat with 2%nat by lia.
  assert (∀ p s, build_loop cmp 2 m1 w ((n - 1) * w) ((n - 1) * w) p s lp = Ret (m1, (n - 1) * w, p, s)) as ->.
  { intros p s. cbn [build_loop]. by rewrite (proj2 (Z.ltb_ge _ _)) by lia. }
  cbn [mbind outcome_bind]. unfold smoothsort_ref. replace (Z.of_nat (Z.to_nat n)) with n by lia. rewrite Eb.
  destruct (wf_shape w n ltac:(lia) cmp lp Hlp k os (n - 1) Hw2 Hs2 ltac:(lia) ltac:(lia)) as [Hsh Hlen].
  destruct (trinkle_sim w n ltac:(lia) cmp lp k os m1 f1 (n - 1) false Hm1 ltac:(lia) Hsh Hlen) as (m2 & -> & Hm2).
  cbn [mbind outcome_bind].
  by apply (unbuild_loop_sim w n ltac:(lia) cmp lp Hlp (S (Z.to_nat n)) (Z.to_nat n - 1)); [| | | lia | lia | lia | lia].
Qed.

Lemma in_arr_of w n m k : 0 < n → arr_of w n m k ∈ elements w n m.
Proof.
  intros Hn. unfold arr_of, elements. apply list_elem_of_fmap. eexists. split; [reflexivity |].
  apply elem_of_seqZ. destruct (Z.leb_spec 0 k), (Z.ltb_spec k n); cbn [andb]; lia.
Qed.

Lemma sorted_list {A : Type} (R : A → A → Prop) (f : Z → A) a n :
  (∀ i j, a ≤ i < j → j < a + n → R (f i) (f j)) → StronglySorted R (f <$> seqZ a n).
Proof.
  destruct (decide (0 ≤ n)) as [Hn |]; [| by rewrite seqZ_nil by lia; constructor].
  revert a. pattern n. apply natlike_ind; [intros; constructor | | done]. intros x Hx IH a H.
  rewrite seqZ_cons by lia. replace (Z.pred (Z.succ x)) with x by lia. cbn. constructor.
  - apply IH. intros i j Hij Hj. apply H; lia.
  - apply List.Forall_forall. intros y (i & -> & Hi%elem_of_seqZ)%list_elem_of_In%list_elem_of_fmap. apply H; lia.
Qed.

Lemma qsort_returns cmp m n w :
  0 < w → 0 ≤ n ≤ 11405773 → n * w ≤ 2 ^ 30 → Zlength m = n * w →
  ∃ m', qsort cmp m n w = Ret m' ∧ Zlength m' = Zlength m ∧ elements w n m' ≡ₚ elements w n m ∧
    ((∀ x y, x ∈ elements w n m → y ∈ elements w n m → (cmp x y ≤ 0 ↔ 0 ≤ cmp y x)) →
     (∀ x y z, x ∈ elements w n m → y ∈ elements w n m → z ∈ elements w n m →
        cmp x y ≤ 0 → cmp y z ≤ 0 → cmp x z ≤ 0) →
     StronglySorted (λ x y, cmp x y ≤ 0) (elements w n m')).
Proof.
  intros Hw Hn Hnw Hl. destruct (Z.eq_dec n 0) as [-> | Hn0].
  { exists m. unfold qsort. rewrite Z.mul_0_r. split_and!; [done | done | done |]. intros. constructor. }
  destruct (qsort_ref cmp m n w Hw ltac:(rewrite leo_33; lia) Hnw Hl) as (m' & E & Ha). exists m'.
  pose proof (arr_of_arr w n m Hw Hl) as Ha0. rewrite (arr_elements w n m' _ Hw Ha).
  pose proof (arr_elements w n m _ Hw Ha0) as Ee. pose proof (λ k, in_arr_of w n m k ltac:(lia)) as HD.
  assert (n = Z.of_nat (Z.to_nat n)) as En by lia. split_and!; [done | rewrite Hl; apply Ha | |].
  - rewrite Ee, En. rewrite Nat2Z.id. apply swaps_perm, smoothsort_swaps. lia.
  - intros Hsign Htr. apply sorted_list.
    pose proof (smoothsort_sorts cmp (λ x, x ∈ elements w n m) Hsign Htr (Z.to_nat n) (arr_of w n m) ltac:(lia) HD) as Hso.
    intros i j Hij Hj. apply Hso; lia.
Qed.

(** ** Arrays of [int] *)

Lemma bytes_int_bytes x : - 2 ^ 31 ≤ x < 2 ^ 31 → bytes_int (int_bytes x) = x.
Proof.
  intros Hx. unfold bytes_int, int_bytes. pose proof (u32_range x) as Hu. set (y := u32 x) in *.
  assert (y mod 256 + 256 * (y / 256 mod 256) + 65536 * (y / 65536 mod 256) + 16777216 * (y / 16777216) = y) as -> by divmod.
  unfold i32. rewrite u32_small by done. unfold y, u32 in *. destruct (Z.ltb_spec (x mod 2 ^ 32) (2 ^ 31)); divmod.
Qed.

Lemma elements_concat w ls :
  0 < w → Forall (λ x, Zlength x = w) ls → elements w (Zlength ls) (concat ls) = ls ∧ Zlength (concat ls) = Zlength ls * w.
Proof.
  intros Hw Hls. assert (∀ k x, ls !! k = Some x → take (Z.to_nat w) (drop (Z.to_nat (Z.of_nat k * w)) (concat ls)) = x) as Hat.
  { induction Hls as [|y ls Hy Hls IH]; intros k x Hk; [done |]. unfold Zlength in Hy. destruct k as [|k].
    - injection Hk as ->. cbn [concat]. rewrite drop_0, take_app_length'; [done | lia].
    - cbn in Hk. rewrite <- (IH k x Hk). f_equal. cbn [concat].
      replace (Z.to_nat (Z.of_nat (S k) * w)) with (length y + Z.to_nat (Z.of_nat k * w))%nat by lia.
      by rewrite <- drop_drop, drop_app_length. }
  split.
  - unfold elements. apply list_eq. intros k. rewrite list_lookup_fmap. unfold Zlength.
    destruct (ls !! k) as [x |] eqn:Ek.
    + pose proof (lookup_lt_Some _ _ _ Ek). rewrite lookup_seqZ_lt by lia. cbn. f_equal. by apply Hat.
    + apply lookup_ge_None in Ek. by rewrite lookup_seqZ_ge by lia.
  - clear Hat. induction Hls as [|y ls Hy Hls IH]; [done |]. cbn [concat]. rewrite Zlength_app, Zlength_cons, IH, Hy. lia.
Qed.

(** Sorting an array of [int] with a comparison of numbers. *)
Lemma qsort_ints c l :
  Forall (λ x, - 2 ^ 31 ≤ x < 2 ^ 31) l → Zlength l ≤ 10000000 →
  ∃ m, qsort (λ x y, c (bytes_int x) (bytes_int y)) (concat (int_bytes <$> l)) (Zlength l) 4 = Ret m ∧
    let l' := bytes_int <$> elements 4 (Zlength l) m in
    l' ≡ₚ l ∧
    ((∀ x y, x ∈ l → y ∈ l → (c x y ≤ 0 ↔ 0 ≤ c y x)) →
     (∀ x y z, x ∈ l → y ∈ l → z ∈ l → c x y ≤ 0 → c y z ≤ 0 → c x z ≤ 0) →
     StronglySorted (λ x y, c x y ≤ 0) l').
Proof.
  intros Hl Hlen. assert (Zlength (int_bytes <$> l) = Zlength l) as El by (unfold Zlength; by rewrite length_fmap).
  destruct (elements_concat 4 (int_bytes <$> l)) as [Ee Ez]; [lia | by apply Forall_fmap, Forall_true |]. rewrite El in *.
  assert (bytes_int <$> (int_bytes <$> l) = l) as Eb.
  { rewrite <- list_fmap_compose. transitivity (id <$> l); [| by rewrite list_fmap_id]. apply list_fmap_ext.
    intros i x Hx. apply bytes_int_bytes. exact (Forall_lookup_1 _ l i x Hl Hx). }
  assert (∀ x, x ∈ int_bytes <$> l → bytes_int x ∈ l) as Hin.
  { intros x Hx. rewrite <- Eb. by apply list_elem_of_fmap_2. }
  pose proof (Zlength_nonneg l). change (2 ^ 30) with 1073741824 in *.
  destruct (qsort_returns (λ x y, c (bytes_int x) (bytes_int y)) (concat (int_bytes <$> l)) (Zlength l) 4)
    as (m & -> & _ & Hp & Hs); [lia | lia | lia | done |].
  rewrite Ee in *. exists m. split; [done |]. split; [rewrite Hp; by rewrite Eb |].
  intros H1 H2. specialize (Hs ltac:(eauto) ltac:(eauto)). clear - Hs.
  induction Hs as [|x k Hs IH Hx]; cbn; constructor; [done |]. rewrite List.Forall_forall in *.
  intros y (z & -> & Hz)%list_elem_of_In%list_elem_of_fmap. by apply Hx, list_elem_of_In.
Qed.

(** ** The limit *)

Lemma size_spread k ks K :
  spread k ks → (k ≤ K)%nat → Forall (λ j, (j ≤ K)%nat) ks → size ks + leo (S k) ≤ leo (S K).
Proof.
  revert k. induction ks as [|k' ks IH]; intros k Hs Hk Ha.
  - cbn [size foldr]. pose proof (leo_mono (S k) (S K) ltac:(lia)). lia.
  - destruct Hs as [Hkk Hs]. apply Forall_cons in Ha as [Hk' Ha]. specialize (IH k' Hs Hk' Ha).
    cbn [size foldr]. fold (size ks). destruct k' as [|k']; [lia |]. rewrite leo_SS in IH.
    pose proof (leo_mono (S k) k' ltac:(lia)). lia.
Qed.

(** A row of trees of orders up to [K] is smaller than a tree of the next order. *)
Lemma wf_size os K : wf os → (1 ≤ K)%nat → Forall (λ j, (j ≤ K)%nat) os → size os < leo (S K).
Proof.
  intros Hw HK Ha. destruct os as [|k [|k' os]]; [done | |].
  - apply Forall_cons in Ha as [Hk _]. cbn [size foldr]. destruct K as [|K]; [lia |]. rewrite leo_SS.
    pose proof (leo_mono k (S K) Hk). pose proof (leo_pos K). lia.
  - destruct Hw as (Hk & Hs & _). apply Forall_cons in Ha as [_ [Hk' Ha]%Forall_cons].
    pose proof (size_spread k' os K Hs Hk' Ha) as Hsz. cbn [size foldr]. fold (size os). destruct k' as [|k']; [lia |].
    rewrite leo_SS in Hsz. pose proof (leo_mono k k' ltac:(lia)). lia.
Qed.

Lemma wf_33 os : wf os → size os = leo 33 → os = [33%nat].
Proof.
  intros Hw Hs. assert (33%nat ∈ os) as Hin.
  { destruct (decide (33%nat ∈ os)) as [Hi | Hn]; [exact Hi |]. exfalso.
    assert (size os < leo 33); [| lia]. apply wf_size; [exact Hw | lia |]. apply Forall_forall. intros j Hj.
    pose proof (size_orders os) as Ho. rewrite Forall_forall in Ho. specialize (Ho j Hj). cbv beta in Ho.
    pose proof (order_33 j ltac:(lia)). assert (j ≠ 33%nat) by congruence. lia. }
  clear Hw. destruct os as [|k os]; [destruct (not_elem_of_nil _ Hin) |]. cbn [size foldr] in Hs. fold (size os) in Hs.
  pose proof (leo_pos k). pose proof (size_nonneg os). apply elem_of_cons in Hin as [<- | Hin].
  - destruct os as [|k' os]; [reflexivity |]. cbn [size foldr] in Hs. fold (size os) in Hs. pose proof (leo_pos k').
    pose proof (size_nonneg os). lia.
  - pose proof (size_orders os) as Ho. rewrite Forall_forall in Ho. specialize (Ho 33%nat Hin). cbv beta in Ho. lia.
Qed.

Lemma qsort_overflow cmp m n w :
  0 < w → leo 33 < n → n * w ≤ 2 ^ 30 → Zlength m = n * w → qsort cmp m n w = Fault Undefined.
Proof.
  intros Hw Hn Hnw Hl. pose proof (leo_pos 33) as [Hp _]. assert (w < 2 ^ 32) by nia.
  set (t := Z.to_nat (leo 33 - 1)). assert (Z.of_nat t = leo 33 - 1) as Et by (unfold t; lia). clearbody t.
  destruct (qsort_start cmp m n w t) as (lp & m1 & k & os & f1 & Hlp & Hm1 & Eb & Hw2 & Hs2 & ->); [lia.. |].
  pose proof (wf_33 _ Hw2 ltac:(lia)) as E33. injection E33 as -> ->.
  destruct (S (Z.to_nat n) - t)%nat as [|fuel] eqn:Ef; [lia |]. cbn [build_loop].
  rewrite (proj2 (Z.ltb_lt _ _)) by nia. change (Z.land (split (enc [33%nat])).1 3 =? 3) with false. cbv iota.
  destruct (wf_shape w n ltac:(lia) cmp lp Hlp 33 [] (Z.of_nat t) Hw2 Hs2 ltac:(lia) ltac:(lia)) as [Hsh Hlen].
  destruct (first_order w n lp Hlp 33 [] (Z.of_nat t) Hw2 Hs2 ltac:(lia) ltac:(lia)) as (H33 & Hfi & Hle).
  destruct (trinkle_sim w n ltac:(lia) cmp lp 33 [] m1 f1 (Z.of_nat t) false Hm1 ltac:(lia) Hsh Hlen) as (m2 & E2 & _).
  destruct (sift_sim w n ltac:(lia) cmp lp 33 m1 f1 (Z.of_nat t) Hm1 ltac:(lia) Hfi Hle ltac:(lia)) as (m3 & E3 & _).
  change (Z.of_nat 33 - 1) with (Z.of_nat 32). rewrite (Hfi 32%nat) by lia. cbn [mbind outcome_bind].
  rewrite E2, E3. destruct (_ <=? _); reflexivity.
Qed.

(** * Theorems *)

(** [C24] [qsort] of the C library.  On an array of at most 11405773 elements it returns, with no
    access outside its arrays and no operation that C leaves undefined, whatever the
    comparison answers; the elements are those of before, and when the comparison is
    consistent they are sorted.  The limit is sharp: on an array of more elements [qsort]
    shifts a word by its width, which C leaves undefined. *)
Theorem qsort_correct cmp m nel width :
  0 < width → 0 ≤ nel → nel * width ≤ 2 ^ 30 → Zlength m = nel * width →
  if nel <=? 11405773 then
    ∃ m', qsort cmp m nel width = Ret m' ∧ Zlength m' = Zlength m ∧ elements width nel m' ≡ₚ elements width nel m ∧
      ((∀ x y, x ∈ elements width nel m → y ∈ elements width nel m → (cmp x y ≤ 0 ↔ 0 ≤ cmp y x)) →
       (∀ x y z, x ∈ elements width nel m → y ∈ elements width nel m → z ∈ elements width nel m →
          cmp x y ≤ 0 → cmp y z ≤ 0 → cmp x z ≤ 0) →
       StronglySorted (λ x y, cmp x y ≤ 0) (elements width nel m'))
  else qsort cmp m nel width = Fault Undefined.
Proof.
  intros Hw Hn Hnw Hl. destruct (Z.leb_spec nel 11405773) as [H | H]; [by apply qsort_returns |].
  apply qsort_overflow; [exact Hw | | exact Hnw | exact Hl]. rewrite leo_33. exact H.
Qed.

Lemma qsort_correct_witness :
  (∃ m', qsort byte_cmp [3; 30; 1; 10; 2; 20; 1; 11] 4 2 = Ret m' ∧
    StronglySorted (λ x y, byte_cmp x y ≤ 0) (elements 2 4 m')) ∧
  qsort byte_cmp (replicate (Z.to_nat 11405774) 0) 11405774 1 = Fault Undefined.
Proof.
  split.
  - destruct (qsort_correct byte_cmp [3; 30; 1; 10; 2; 20; 1; 11] 4 2) as (m' & E & _ & _ & Hs); [lia | lia | lia | reflexivity |].
    exists m'. split; [exact E |]. apply Hs; unfold byte_cmp; intros; lia.
  - apply (qsort_correct byte_cmp (replicate (Z.to_nat 11405774) 0) 11405774 1); [lia | lia | lia |].
    unfold Zlength. rewrite length_replicate, Z2Nat.id by lia. reflexivity.
Defined.
