(* ===== verification/UtTable.v ===== *)
(** The untyped table (src/apps/sos/src/ut_manager/ut.c).

    The table selects the largest physically contiguous run of untyped memory
    from the boot information and translates physical addresses to untyped
    capabilities.  The theorems show that the in-place strip and select loops
    compute a filter and the largest run, that the binary search of
    [ut_translate] agrees with the table on every address, and that after
    [ut_table_init] every address of [[_low, _high)] translates. *)

From Stdlib Require Import Sorting.Sorted.
From S2P Require Import Prelude Qsort QsortInv.

(** * Data *)

Definition CONFIG_MAX_NUM_BOOTINFO_UNTYPED_CAPS : Z := 167.
Definition MIN_UT_SIZE_BITS : Z := 14.

(** The fields of [seL4_BootInfo] that the file reads. *)
Record bootinfo : Type := mk_bootinfo {
  bi_untyped_start : Z;
  bi_untyped_end : Z;
  bi_device_start : Z;
  bi_device_end : Z;
  bi_paddr : list Z;
  bi_sizebits : list Z
}.

(** [_bi], [_ut], [_low] and [_high]. *)
Record ut_table : Type := mk_ut_table {
  tb_bi : option bootinfo;
  tb_map : list Z;
  tb_count : Z;
  tb_low : Z;
  tb_high : Z
}.

Definition tb_boot : ut_table :=
  mk_ut_table None (replicate (Z.to_nat CONFIG_MAX_NUM_BOOTINFO_UNTYPED_CAPS) 0) 0 0 0.

(** * Accessors *)

Definition UT_SIZEBITS (t : ut_table) (i : Z) : outcome Z :=
  bi ← deref (tb_bi t);
  m ← rd (tb_map t) i;
  rd (bi_sizebits bi) m.

Definition UT_PSTART (t : ut_table) (i : Z) : outcome Z :=
  bi ← deref (tb_bi t);
  m ← rd (tb_map t) i;
  rd (bi_paddr bi) m.

Definition UT_PEND (t : ut_table) (i : Z) : outcome Z :=
  p ← UT_PSTART t i;
  b ← UT_SIZEBITS t i;
  mret (u32 (p + Z.shiftl 1 b)).

Definition UT_CAP (t : ut_table) (i : Z) : outcome Z :=
  bi ← deref (tb_bi t);
  m ← rd (tb_map t) i;
  mret (u32 (bi_untyped_start bi + m)).

Definition with_map (t : ut_table) (map : list Z) (count : Z) : ut_table :=
  mk_ut_table (tb_bi t) map count (tb_low t) (tb_high t).

(** * Building the table *)

Fixpoint fill_loop (map : list Z) (i : Z) (n : nat) : outcome (list Z) :=
  match n with
  | O => mret map
  | S n => map' ← wr map i i; fill_loop map' (i + 1) n
  end.

Definition fill_table (t : ut_table) (bi : bootinfo) : outcome ut_table :=
  let count := i32 (bi_untyped_end bi - bi_untyped_start bi) in
  map ← fill_loop (tb_map t) 0 (Z.to_nat count);
  mret (mk_ut_table (Some bi) map count (tb_low t) (tb_high t)).

(** The loop that [_strip_min] and [_strip_max] share, with its test. *)
Fixpoint strip_loop (sizebits : list Z) (keep : Z → bool) (map : list Z) (i j : Z)
    (n : nat) : outcome (list Z * Z) :=
  match n with
  | O => mret (map, j)
  | S n =>
      m ← rd map i;
      b ← rd sizebits m;
      if keep b then
        map' ← wr map j m;
        strip_loop sizebits keep map' (i + 1) (j + 1) n
      else strip_loop sizebits keep map (i + 1) j n
  end.

Definition strip (t : ut_table) (keep : Z → bool) : outcome ut_table :=
  bi ← deref (tb_bi t);
  '(map, j) ← strip_loop (bi_sizebits bi) keep (tb_map t) 0 0 (Z.to_nat (tb_count t));
  mret (with_map t map j).

Definition strip_min (t : ut_table) (min_bits : Z) : outcome ut_table :=
  strip t (λ b, min_bits <=? b).

Definition strip_max (t : ut_table) (max_bits : Z) : outcome ut_table :=
  strip t (λ b, b <=? max_bits).

Definition reduce_table (t : ut_table) (min_bits max_bits : Z) : outcome ut_table :=
  t ← (if 0 <? min_bits then strip_min t min_bits else mret t);
  if 0 <? max_bits then strip_max t max_bits else mret t.

(** [__ut_cmp] on two elements of the map. *)
Definition ut_cmp (paddr : list Z) (a b : Z) : Z :=
  i32 (default 0 (paddr !! Z.to_nat a) - default 0 (paddr !! Z.to_nat b)).

(** The state of the loop of [_select_largest_contiguous]. *)
Record select_state : Type := mk_select {
  contig_start : Z;
  contig_size : Z;
  contig_end : Z;
  this_start : Z;
  this_size : Z
}.

Definition select_step (t : ut_table) (s : select_state) (i : Z) : outcome select_state :=
  b ← UT_SIZEBITS t i;
  let sz := u32 (this_size s + Z.shiftl 1 b) in
  stop ← (if tb_count t <=? i + 1 then mret true
          else e ← UT_PEND t i; p ← UT_PSTART t (i + 1); mret (negb (e =? p)));
  if (stop : bool) then
    if contig_size s <? sz
    then mret (mk_select (this_start s) sz (i + 1) (i + 1) 0)
    else mret (mk_select (contig_start s) (contig_size s) (contig_end s) (i + 1) 0)
  else mret (mk_select (contig_start s) (contig_size s) (contig_end s) (this_start s) sz).

Fixpoint select_loop (t : ut_table) (s : select_state) (i : Z) (n : nat) :
    outcome select_state :=
  match n with
  | O => mret s
  | S n => s' ← select_step t s i; select_loop t s' (i + 1) n
  end.

(** [while(contig_start < contig_end) map[i++] = map[contig_start++];] *)
Fixpoint move_loop (map : list Z) (i from : Z) (n : nat) : outcome (list Z) :=
  match n with
  | O => mret map
  | S n => m ← rd map from; map' ← wr map i m; move_loop map' (i + 1) (from + 1) n
  end.

Definition select_largest_contiguous (t : ut_table) : outcome ut_table :=
  _ ← c_assert (negb (tb_count t =? 0));
  s ← select_loop t (mk_select 0 0 0 0 0) 0 (Z.to_nat (tb_count t));
  let len := Z.to_nat (contig_end s - contig_start s) in
  map ← move_loop (tb_map t) 0 (contig_start s) len;
  mret (with_map t map (Z.of_nat len)).

(** [qsort(_ut.map, _ut.count, sizeof( *_ut.map), &__ut_cmp)], on the bytes of the array. *)
Definition sort_table (t : ut_table) : outcome ut_table :=
  bi ← deref (tb_bi t);
  let n := Z.to_nat (tb_count t) in
  _ ← mapM (M := outcome) (rd (bi_paddr bi)) (take n (tb_map t));
  m ← qsort (λ a b, ut_cmp (bi_paddr bi) (bytes_int a) (bytes_int b))
        (concat (int_bytes <$> take n (tb_map t))) (tb_count t) 4;
  mret (with_map t
    ((bytes_int <$> elements 4 (tb_count t) m) ++ drop n (tb_map t)) (tb_count t)).

(** [ut_table_init]; the error code is 1 for a NULL pointer. *)
Definition ut_table_init (t : ut_table) (bi : option bootinfo) : outcome (Z * ut_table) :=
  match bi with
  | None => mret (1, t)
  | Some bi =>
      t ← fill_table t bi;
      t ← reduce_table t MIN_UT_SIZE_BITS 0;
      t ← sort_table t;
      t ← select_largest_contiguous t;
      low ← UT_PSTART t 0;
      high ← UT_PEND t (tb_count t - 1);
      mret (0, mk_ut_table (tb_bi t) (tb_map t) (tb_count t) low high)
  end.

(** * Translation *)

Fixpoint device_loop (paddr sizebits : list Z) (addr cap : Z) (i : Z) (n : nat) :
    outcome (option (Z * Z)) :=
  match n with
  | O => mret None
  | S n =>
      p ← rd paddr i;
      b ← rd sizebits i;
      if (p <=? addr) && (addr <? u32 (p + Z.shiftl 1 b))
      then mret (Some (cap, u32 (addr - p)))
      else device_loop paddr sizebits addr (cap + 1) (i + 1) n
  end.

(** [ut_translate_device]: the capability and the offset, or [None] for [!0]. *)
Definition ut_translate_device (t : ut_table) (addr : Z) : outcome (option (Z * Z)) :=
  bi ← deref (tb_bi t);
  device_loop (bi_paddr bi) (bi_sizebits bi) addr (bi_device_start bi)
    (i32 (bi_untyped_end bi - bi_untyped_start bi))
    (Z.to_nat (bi_device_end bi - bi_device_start bi)).

(** The binary search; [None] when the range is empty. *)
Fixpoint search_loop (t : ut_table) (addr start end_ : Z) (fuel : nat) :
    outcome (option (Z * Z)) :=
  match fuel with
  | O => Fault OutOfFuel
  | S fuel =>
      if start <? end_ then
        let index := Z.shiftr (start + end_) 1 in
        p ← UT_PSTART t index;
        if addr <? p then search_loop t addr start index fuel
        else
          e ← UT_PEND t index;
          if e <=? addr then search_loop t addr (index + 1) end_ fuel
          else
            cap ← UT_CAP t index;
            mret (Some (cap, u32 (addr - p)))
      else mret None
  end.

Definition ut_translate (t : ut_table) (addr : Z) : outcome (option (Z * Z)) :=
  r ← search_loop t addr 0 (tb_count t) (S (Z.to_nat (tb_count t)));
  match r with
  | Some ret => mret (Some ret)
  | None => ut_translate_device t addr
  end.

(** * The memory range *)

Definition ALIGN (x base : Z) : Z := andnot32 x (base - 1).
Definition ALIGN_TOP (x base : Z) : Z := ALIGN (u32 (x + (base - 1))) base.

Definition ut_find_memory (t : ut_table) : Z * Z := (tb_low t, tb_high t).

Definition ut_steal_mem (t : ut_table) (sizebits : Z) : Z * ut_table :=
  let size := Z.shiftl 1 sizebits in
  let paddr := ALIGN_TOP (tb_low t) size in
  if u32 (paddr + size) <=? tb_high t
  then (paddr, mk_ut_table (tb_bi t) (tb_map t) (tb_count t) (u32 (paddr + size)) (tb_high t))
  else (0, t).

(** * Views of the table *)

(** Start and size of the untyped object with index [m]. *)
Definition pst (bi : bootinfo) (m : Z) : Z := default 0 (bi_paddr bi !! Z.to_nat m).
Definition pbits (bi : bootinfo) (m : Z) : Z := default 0 (bi_sizebits bi !! Z.to_nat m).
Definition psz (bi : bootinfo) (m : Z) : Z := 2 ^ pbits bi m.
Definition pend (bi : bootinfo) (m : Z) : Z := pst bi m + psz bi m.

(** The number of (non-device) untyped objects. *)
Definition n_untyped (bi : bootinfo) : Z := bi_untyped_end bi - bi_untyped_start bi.

(** Boot information as the kernel gives it: the arrays have their full length
    and untyped objects do not reach the end of the address space. *)
Record bi_ok (bi : bootinfo) : Prop := {
  bo_paddr : Zlength (bi_paddr bi) = CONFIG_MAX_NUM_BOOTINFO_UNTYPED_CAPS;
  bo_bits : Zlength (bi_sizebits bi) = CONFIG_MAX_NUM_BOOTINFO_UNTYPED_CAPS;
  bo_count : 0 ≤ n_untyped bi ≤ CONFIG_MAX_NUM_BOOTINFO_UNTYPED_CAPS;
  bo_caps : 0 ≤ bi_untyped_start bi ∧ bi_untyped_end bi < 2 ^ 32;
  bo_obj : ∀ m, 0 ≤ m < n_untyped bi →
    0 ≤ pst bi m ∧ 0 ≤ pbits bi m ≤ 30 ∧ pend bi m < 2 ^ 32
}.

(** The table lists exactly the objects [l]. *)
Record view (t : ut_table) (bi : bootinfo) (l : list Z) : Prop := {
  vw_bi : tb_bi t = Some bi;
  vw_count : tb_count t = Zlength l;
  vw_map : take (length l) (tb_map t) = l;
  vw_len : Zlength (tb_map t) = CONFIG_MAX_NUM_BOOTINFO_UNTYPED_CAPS;
  vw_valid : Forall (λ m, 0 ≤ m < n_untyped bi) l
}.

Lemma view_rd (t : ut_table) (bi : bootinfo) (l : list Z) (i m : Z) :
  view t bi l → rd l i = Ret m → rd (tb_map t) i = Ret m ∧ 0 ≤ m < n_untyped bi.
Proof.
  intros [Hbi Hc Hm Hl Hv] [Hi Hx]%rd_Ret. split.
  - apply rd_Ret. split; [done |]. rewrite <- Hm in Hx.
    by apply lookup_take_Some in Hx as [? _].
  - by eapply (Forall_lookup_1 _ _ _ _ Hv).
Qed.

Section accessors.
Context (t : ut_table) (bi : bootinfo) (l : list Z).
Hypothesis Hok : bi_ok bi.
Hypothesis Hv : view t bi l.

Lemma rd_default (a : list Z) (m : Z) :
  0 ≤ m < Zlength a → rd a m = Ret (default 0 (a !! Z.to_nat m)).
Proof. intros H. destruct (rd_in a m H) as [x Hx]. rewrite Hx. by apply rd_Ret in Hx as [_ ->]. Qed.

Lemma UT_PSTART_spec (i m : Z) : rd l i = Ret m → UT_PSTART t i = Ret (pst bi m).
Proof.
  intros Hi. destruct (view_rd t bi l i m Hv Hi) as [Hr Hm].
  unfold UT_PSTART. rewrite (vw_bi _ _ _ Hv). simpl. rewrite Hr. simpl.
  apply rd_default. rewrite (bo_paddr _ Hok). pose proof (bo_count _ Hok). lia.
Qed.

Lemma UT_SIZEBITS_spec (i m : Z) : rd l i = Ret m → UT_SIZEBITS t i = Ret (pbits bi m).
Proof.
  intros Hi. destruct (view_rd t bi l i m Hv Hi) as [Hr Hm].
  unfold UT_SIZEBITS. rewrite (vw_bi _ _ _ Hv). simpl. rewrite Hr. simpl.
  apply rd_default. rewrite (bo_bits _ Hok). pose proof (bo_count _ Hok). lia.
Qed.

Lemma psz_pos (m : Z) : 0 ≤ m < n_untyped bi → 0 < psz bi m ≤ 2 ^ 30.
Proof.
  intros Hm. destruct (bo_obj _ Hok m Hm) as (_ & Hb & _). unfold psz. split.
  - apply Z.pow_pos_nonneg; lia.
  - apply Z.pow_le_mono_r; lia.
Qed.

Lemma UT_PEND_spec (i m : Z) : rd l i = Ret m → UT_PEND t i = Ret (pend bi m).
Proof.
  intros Hi. destruct (view_rd t bi l i m Hv Hi) as [_ Hm].
  unfold UT_PEND. rewrite (UT_PSTART_spec i m Hi), (UT_SIZEBITS_spec i m Hi). simpl.
  destruct (bo_obj _ Hok m Hm) as (? & ? & ?). pose proof (psz_pos m Hm).
  rewrite Z.shiftl_1_l. fold (psz bi m). unfold pend in *. by rewrite u32_small by lia.
Qed.

Lemma UT_CAP_spec (i m : Z) : rd l i = Ret m → UT_CAP t i = Ret (bi_untyped_start bi + m).
Proof.
  intros Hi. destruct (view_rd t bi l i m Hv Hi) as [Hr Hm].
  unfold UT_CAP. rewrite (vw_bi _ _ _ Hv). simpl. rewrite Hr. simpl.
  destruct (bo_caps _ Hok). unfold n_untyped in Hm. by rewrite u32_small by lia.
Qed.
End accessors.

(** * The in-place loops *)

Lemma fill_loop_spec (n : nat) (map : list Z) (i : Z) :
  0 ≤ i → i + Z.of_nat n ≤ Zlength map →
  ∃ map', fill_loop map i n = Ret map' ∧ Zlength map' = Zlength map ∧
    (∀ k, (k < Z.to_nat i)%nat → map' !! k = map !! k) ∧
    (∀ k, i ≤ k < i + Z.of_nat n → map' !! Z.to_nat k = Some k).
Proof.
  revert map i. induction n as [|n IH]; intros map i Hi Hn; simpl.
  { exists map. split_and!; [done .. | lia]. }
  rewrite wr_in by lia. simpl.
  destruct (IH (<[Z.to_nat i := i]> map) (i + 1)) as (map' & -> & Hl & Hlow & Hk);
    [lia | rewrite Zlength_insert; lia |].
  exists map'. rewrite Zlength_insert in Hl. split_and!; [done | done | |].
  - intros k Hk'. rewrite Hlow by lia. by rewrite list_lookup_insert_ne by lia.
  - intros k Hk'. destruct (decide (k = i)) as [-> |]; [| apply Hk; lia].
    rewrite Hlow by lia. apply list_lookup_insert_eq. unfold Zlength in Hn. lia.
Qed.

Lemma strip_loop_spec (sizebits : list Z) (keep : Z → bool) (l done_ : list Z)
    (map : list Z) (i j : Z) :
  Forall (λ m, 0 ≤ m < Zlength sizebits) l →
  0 ≤ j ≤ i → take (Z.to_nat j) map = done_ → Zlength done_ = j →
  (∀ k, l !! k = map !! (Z.to_nat i + k)%nat ∨ (length l ≤ k)%nat) →
  i + Zlength l ≤ Zlength map →
  ∃ map', strip_loop sizebits keep map i j (length l) =
      Ret (map', Zlength (done_ ++ filter (λ m, keep (default 0 (sizebits !! Z.to_nat m)) = true) l)) ∧
    Zlength map' = Zlength map ∧
    take (length (done_ ++ filter (λ m, keep (default 0 (sizebits !! Z.to_nat m)) = true) l)) map' =
      done_ ++ filter (λ m, keep (default 0 (sizebits !! Z.to_nat m)) = true) l.
Proof.
  revert done_ map i j. induction l as [|m l IH]; intros d map i j Hb Hj Ht Hd Hl Hlen.
  { exists map. rewrite app_nil_r. split_and!; [by rewrite Hd | done |].
    by replace (length d) with (Z.to_nat j) by (unfold Zlength in Hd; lia). }
  apply Forall_cons in Hb as [Hm Hb]. unfold Zlength in Hlen at 1. simpl length in *.
  assert (rd map i = Ret m) as Hi.
  { apply rd_Ret. split; [lia |]. destruct (Hl 0%nat) as [E | ?]; [| lia].
    rewrite Nat.add_0_r in E. by rewrite <- E. }
  simpl. rewrite Hi. simpl. rewrite rd_default by done. simpl.
  destruct (keep _) eqn:Hk.
  - rewrite filter_cons_True by done. rewrite wr_in by lia. simpl.
    destruct (IH (d ++ [m]) (<[Z.to_nat j := m]> map) (i + 1) (j + 1)) as (map' & E & L & T).
    + done.
    + lia.
    + replace (Z.to_nat (j + 1)) with (S (Z.to_nat j)) by lia.
      rewrite (take_S_r _ _ m) by (apply list_lookup_insert_eq; unfold Zlength in Hlen; lia).
      rewrite take_insert_ge by lia. by rewrite Ht.
    + unfold Zlength in *. rewrite length_app. simpl. lia.
    + intros k. destruct (Hl (S k)) as [E | ?]; [| right; lia]. left. simpl in E.
      rewrite E, list_lookup_insert_ne by lia. f_equal. lia.
    + rewrite Zlength_insert. unfold Zlength at 1. lia.
    + rewrite <- app_assoc in E, T. simpl in E, T. exists map'.
      rewrite Zlength_insert in L. done.
  - rewrite filter_cons_False by (by rewrite Hk).
    apply (IH d map (i + 1) j); [done | lia | done | done | |].
    + intros k. destruct (Hl (S k)) as [E | ?]; [| right; lia]. left. simpl in E.
      rewrite E. f_equal. lia.
    + unfold Zlength at 1. lia.
Qed.

Lemma strip_spec (t : ut_table) (bi : bootinfo) (l : list Z) (keep : Z → bool) :
  bi_ok bi → view t bi l →
  ∃ t', strip t keep = Ret t' ∧ view t' bi (filter (λ m, keep (pbits bi m) = true) l) ∧
    tb_low t' = tb_low t ∧ tb_high t' = tb_high t.
Proof.
  intros Hok [Hbi Hc Hm Hl Hv]. unfold strip. rewrite Hbi. simpl.
  rewrite Hc. unfold Zlength at 1. rewrite Nat2Z.id.
  assert (length l ≤ length (tb_map t))%nat as Hle.
  { rewrite <- Hm, length_take. lia. }
  destruct (strip_loop_spec (bi_sizebits bi) keep l [] (tb_map t) 0 0) as (map' & -> & L & T).
  - eapply Forall_impl; [exact Hv |]. intros m Hx. simpl in Hx.
    rewrite (bo_bits _ Hok). pose proof (bo_count _ Hok). lia.
  - lia.
  - done.
  - done.
  - intros k. destruct (decide (k < length l)%nat); [left | right; lia].
    simpl. rewrite <- Hm at 1. by rewrite lookup_take_lt.
  - unfold Zlength. lia.
  - simpl in *. eexists. split; [done |]. split; [| done].
    split; simpl; try done; [congruence |].
    apply Forall_forall. intros m [_ Hin]%list_elem_of_filter.
    by apply (proj1 (Forall_forall _ _) Hv).
Qed.

(** * The largest contiguous run *)

(** Neighbours of the list meet. *)
Definition contig (bi : bootinfo) (l : list Z) : Prop :=
  ∀ i m m', l !! i = Some m → l !! S i = Some m' → pend bi m = pst bi m'.

Definition total (bi : bootinfo) (l : list Z) : Z := foldr (λ m s, psz bi m + s) 0 l.

Lemma total_app (bi : bootinfo) (l1 l2 : list Z) :
  total bi (l1 ++ l2) = total bi l1 + total bi l2.
Proof. induction l1 as [|m l1 IH]; simpl; lia. Qed.

(** Elements [a] to [b] of the list, [b] excluded. *)
Definition slice (l : list Z) (a b : nat) : list Z := take (b - a) (drop a l).

Lemma slice_lookup (l : list Z) (a b i : nat) :
  (i < b - a)%nat → slice l a b !! i = l !! (a + i)%nat.
Proof. intros. unfold slice. by rewrite lookup_take_lt, lookup_drop by done. Qed.

Lemma slice_length (l : list Z) (a b : nat) :
  (b ≤ length l)%nat → length (slice l a b) = (b - a)%nat.
Proof. intros. unfold slice. rewrite length_take, length_drop. lia. Qed.

Lemma slice_snoc (l : list Z) (a b : nat) (m : Z) :
  (a ≤ b)%nat → l !! b = Some m → slice l a (S b) = slice l a b ++ [m].
Proof.
  intros Hab Hb. unfold slice. replace (S b - a)%nat with (S (b - a)) by lia.
  apply take_S_r. rewrite lookup_drop. by replace (a + (b - a))%nat with b by lia.
Qed.

Lemma slice_split (l : list Z) (a c b : nat) :
  (a ≤ c ≤ b)%nat → slice l a b = slice l a c ++ slice l c b.
Proof.
  intros H. unfold slice. replace (b - a)%nat with ((c - a) + (b - c))%nat by lia.
  rewrite <- (take_drop (c - a) (drop a l)) at 1.
  destruct (decide (c ≤ length l)%nat) as [Hc | Hc].
  - rewrite take_app_add' by (rewrite length_take, length_drop; lia).
    rewrite drop_drop. by replace (a + (c - a))%nat with c by lia.
  - rewrite (drop_ge (drop a l)) by (rewrite length_drop; lia).
    rewrite (drop_ge l c) by lia. rewrite take_nil, !app_nil_r.
    rewrite take_take. f_equal. lia.
Qed.

Lemma total_nonneg (bi : bootinfo) (l : list Z) :
  bi_ok bi → Forall (λ m, 0 ≤ m < n_untyped bi) l → 0 ≤ total bi l.
Proof.
  intros Hok Hl. induction Hl as [|m l Hm _ IH]; simpl; [lia |].
  pose proof (psz_pos bi Hok m Hm). lia.
Qed.

Lemma slice_Forall (P : Z → Prop) (l : list Z) (a b : nat) :
  Forall P l → Forall P (slice l a b).
Proof. intros. unfold slice. by apply Forall_take, Forall_drop. Qed.

Section select.
Context (t : ut_table) (bi : bootinfo) (l : list Z).
Hypothesis Hok : bi_ok bi.
Hypothesis Hv : view t bi l.
Hypothesis Hsum : total bi l < 2 ^ 32.

Lemma total_slice_le (a b : nat) : (a ≤ b)%nat →
  0 ≤ total bi (slice l a b) < 2 ^ 32.
Proof.
  intros Hab. pose proof (vw_valid _ _ _ Hv) as Hl. split.
  - apply total_nonneg; [done |]. by apply slice_Forall.
  - assert (l = slice l 0 a ++ slice l a b ++ drop b l) as E.
    { rewrite app_assoc, <- slice_split by lia. unfold slice. simpl.
      by rewrite Nat.sub_0_r, drop_0, take_drop. }
    rewrite E, !total_app in Hsum.
    pose proof (total_nonneg bi (slice l 0 a) Hok (slice_Forall _ _ _ _ Hl)).
    pose proof (total_nonneg bi (drop b l) Hok (Forall_drop _ _ _ Hl)). lia.
Qed.

Lemma total_slice_mono (a b c d : nat) :
  (a ≤ b)%nat → (b ≤ c)%nat → (c ≤ d)%nat → total bi (slice l b c) ≤ total bi (slice l a d).
Proof.
  intros H1 H2 H3. rewrite (slice_split l a b d), (slice_split l b c d), !total_app by lia.
  pose proof (vw_valid _ _ _ Hv) as Hl.
  pose proof (total_nonneg bi (slice l a b) Hok (slice_Forall _ _ _ _ Hl)).
  pose proof (total_nonneg bi (slice l c d) Hok (slice_Forall _ _ _ _ Hl)). lia.
Qed.

(** No gap between neighbours [k] and [k + 1]. *)
Definition meets (k : nat) : Prop :=
  ∃ m m', l !! k = Some m ∧ l !! S k = Some m' ∧ pend bi m = pst bi m'.

Definition run (a b : nat) : Prop :=
  (b ≤ length l)%nat ∧ ∀ k, (a ≤ k)%nat → (S k < b)%nat → meets k.

(** The loop invariant of [_select_largest_contiguous] before iteration [i]. *)
Record select_inv (s : select_state) (i : nat) : Prop := {
  si_range : 0 ≤ this_start s ≤ Z.of_nat i;
  si_this : run (Z.to_nat (this_start s)) i;
  si_sum : this_size s = total bi (slice l (Z.to_nat (this_start s)) i);
  si_gap : this_start s = 0 ∨ ¬ meets (Z.to_nat (this_start s) - 1);
  si_crange : 0 ≤ contig_start s ≤ contig_end s ∧ contig_end s ≤ Z.of_nat i;
  si_contig : run (Z.to_nat (contig_start s)) (Z.to_nat (contig_end s));
  si_csum : contig_size s =
    total bi (slice l (Z.to_nat (contig_start s)) (Z.to_nat (contig_end s)));
  si_best : ∀ a b, run a b → (a ≤ b)%nat → (b ≤ Z.to_nat (this_start s))%nat →
    total bi (slice l a b) ≤ contig_size s
}.

Lemma run_snoc (a b : nat) (m : Z) :
  run a b → l !! b = Some m → (a = b ∨ meets (b - 1)) → run a (S b).
Proof.
  intros [Hb Hr] Hm Hj. split; [by apply lookup_lt_Some in Hm |].
  intros k Ha Hk. destruct (decide (S k = b)) as [<- |].
  - destruct Hj as [-> | Hj]; [lia |]. by replace (S k - 1)%nat with k in Hj by lia.
  - apply Hr; lia.
Qed.

(** A run that ends at [S i] and is cut off there. *)
Lemma best_extend (s : select_state) (i : nat) (a b : nat) :
  select_inv s i → run a b → (a ≤ b)%nat → (b ≤ S i)%nat →
  total bi (slice l a b) ≤ contig_size s ∨
  ((Z.to_nat (this_start s) ≤ a)%nat ∧
   total bi (slice l a b) ≤ total bi (slice l (Z.to_nat (this_start s)) (S i))).
Proof.
  intros [S1 S2 S3 S4 S5 S6 S7 S8] [Hb Hr] Hab Hbi.
  destruct (decide (b ≤ Z.to_nat (this_start s))%nat) as [Hle | Hgt].
  { left. by apply S8. }
  destruct (decide (Z.to_nat (this_start s) ≤ a)%nat) as [Hts | Hts].
  - right. split; [done |]. apply total_slice_mono; lia.
  - exfalso. destruct S4 as [? | Hg]; [lia |]. apply Hg, Hr; lia.
Qed.

Lemma select_step_inv (s : select_state) (i : nat) :
  select_inv s i → (i < length l)%nat → this_start s = Z.of_nat i ∨ meets (i - 1) →
  ∃ s', select_step t s (Z.of_nat i) = Ret s' ∧ select_inv s' (S i) ∧
    (this_start s' = Z.of_nat (S i) ∨ (S i < length l)%nat ∧ meets i).
Proof.
  intros Hinv Hi Hj. pose proof Hinv as [S1 S2 S3 S4 S5 S6 S7 S8].
  destruct (lookup_lt_is_Some_2 l i Hi) as [m Hm].
  assert (rd l (Z.of_nat i) = Ret m) as Hrd by (apply rd_Ret; rewrite Nat2Z.id; split; [lia | done]).
  assert (0 ≤ m < n_untyped bi) as Hmv by (by eapply (Forall_lookup_1 _ _ _ _ (vw_valid _ _ _ Hv))).
  unfold select_step. rewrite (UT_SIZEBITS_spec t bi l Hok Hv _ m Hrd). cbn [mbind outcome_bind].
  set (ts := Z.to_nat (this_start s)) in *.
  assert (run ts (S i)) as Hrun.
  { apply run_snoc with m; [done | done |]. destruct Hj as [E | ?]; [left; unfold ts; lia | by right]. }
  assert (u32 (this_size s + Z.shiftl 1 (pbits bi m)) = total bi (slice l ts (S i))) as ->.
  { rewrite Z.shiftl_1_l. fold (psz bi m). rewrite S3.
    pose proof (total_slice_le ts (S i) ltac:(unfold ts; lia)) as Hle.
    rewrite (slice_snoc l ts i m), total_app in * by (done || unfold ts; lia).
    simpl in *. rewrite Z.add_0_r in *. by apply u32_small. }
  rewrite (vw_count _ _ _ Hv).
  set (stop := (length l ≤ S i)%nat ∨ ¬ meets i).
  assert (∃ b, (if Zlength l <=? Z.of_nat i + 1 then mret true
          else e ← UT_PEND t (Z.of_nat i); p ← UT_PSTART t (Z.of_nat i + 1); mret (negb (e =? p)))
          = Ret b ∧ if b : bool then stop else (S i < length l)%nat ∧ meets i) as (b & -> & Hb).
  { unfold stop, Zlength. bdestruct (Z.of_nat (length l) <=? Z.of_nat i + 1).
    { exists true. split; [done | left; lia]. }
    destruct (lookup_lt_is_Some_2 l (S i)) as [m' Hm']; [lia |].
    rewrite (UT_PEND_spec t bi l Hok Hv _ m Hrd).
    rewrite (UT_PSTART_spec t bi l Hok Hv (Z.of_nat i + 1) m')
      by (apply rd_Ret; replace (Z.to_nat (Z.of_nat i + 1)) with (S i) by lia; split; [lia | done]).
    simpl. eexists. split; [done |]. destruct (Z.eqb_spec (pend bi m) (pst bi m')); simpl.
    - split; [lia | by exists m, m'].
    - right. intros (? & ? & ? & ? & ?). congruence. }
  cbn [mbind outcome_bind]. destruct b.
  - assert (∀ a b, run a b → (a ≤ b)%nat → (b ≤ S i)%nat →
       total bi (slice l a b) ≤ Z.max (contig_size s) (total bi (slice l ts (S i)))) as Hbest.
    { intros a b Hr Hab Hbi. destruct (best_extend s i a b Hinv Hr Hab Hbi) as [? | [_ ?]];
        unfold ts; lia. }
    assert (run (S i) (S i)) as Hempty by (split; [lia | intros; lia]).
    assert (Z.of_nat i + 1 = 0 ∨ ¬ meets (Z.to_nat (Z.of_nat i + 1) - 1)) as Hgap.
    { right. replace (Z.to_nat (Z.of_nat i + 1) - 1)%nat with i by lia.
      destruct Hb as [Hb | ?]; [| done]. intros (? & ? & _ & Hx & _).
      apply lookup_lt_Some in Hx. lia. }
    assert (total bi (slice l (S i) (S i)) = 0) as Hzero.
    { unfold slice. by rewrite Nat.sub_diag. }
    bdestruct (contig_size s <? total bi (slice l ts (S i)));
      (eexists; split; [done |]; split; [| simpl; left; lia]);
      split; simpl; replace (Z.to_nat (Z.of_nat i + 1)) with (S i) in * by lia; try done; try lia.
    + intros a b Hr Hab Hbi. pose proof (Hbest a b Hr Hab Hbi). lia.
    + intros a b Hr Hab Hbi. pose proof (Hbest a b Hr Hab Hbi). lia.
  - eexists. split; [done |]. split; [| by right]. split; simpl; fold ts; try done; try lia.
Qed.
End select.

Section select_all.
Context (t : ut_table) (bi : bootinfo) (l : list Z).
Hypothesis Hok : bi_ok bi.
Hypothesis Hv : view t bi l.
Hypothesis Hsum : total bi l < 2 ^ 32.

Lemma select_loop_inv (n i : nat) (s : select_state) :
  select_inv bi l s i → (i + n)%nat = length l →
  this_start s = Z.of_nat i ∨ meets bi l (i - 1) →
  (n = 0%nat → this_start s = Z.of_nat i) →
  ∃ s', select_loop t s (Z.of_nat i) n = Ret s' ∧ select_inv bi l s' (length l) ∧
    this_start s' = Zlength l.
Proof.
  revert i s. induction n as [|n IH]; intros i s Hinv Hn Hj Hend; simpl.
  { exists s. split; [done |]. replace (length l) with i by lia. split; [done |].
    rewrite Hend by done. unfold Zlength. f_equal. lia. }
  destruct (select_step_inv t bi l Hok Hv Hsum s i Hinv) as (s' & -> & Hinv' & Hj');
    [lia | done |]. cbn [mbind outcome_bind].
  replace (Z.of_nat i + 1) with (Z.of_nat (S i)) by lia. apply IH; [done | lia | |].
  - replace (S i - 1)%nat with i by lia. destruct Hj' as [? | [_ ?]]; auto.
  - intros ->. destruct Hj' as [? | [? _]]; [done | lia].
Qed.

Lemma move_loop_spec (n : nat) (map : list Z) (i from : Z) :
  0 ≤ i ≤ from → from + Z.of_nat n ≤ Zlength map →
  ∃ map', move_loop map i from n = Ret map' ∧ Zlength map' = Zlength map ∧
    (∀ k, (k < Z.to_nat i)%nat → map' !! k = map !! k) ∧
    (∀ k, (k < n)%nat → map' !! (Z.to_nat i + k)%nat = map !! (Z.to_nat from + k)%nat).
Proof.
  revert map i from. induction n as [|n IH]; intros map i from Hi Hn; simpl.
  { exists map. split_and!; [done .. | lia]. }
  destruct (rd_in map from) as [m Hm]; [lia |]. rewrite Hm. simpl.
  rewrite wr_in by lia. simpl. apply rd_Ret in Hm as [_ Hm].
  destruct (IH (<[Z.to_nat i := m]> map) (i + 1) (from + 1)) as (map' & -> & Hl & H1 & H2);
    [lia | rewrite Zlength_insert; lia |].
  rewrite Zlength_insert in Hl. exists map'. split_and!; [done | done | |].
  - intros k Hk. rewrite H1 by lia. by rewrite list_lookup_insert_ne by lia.
  - intros [|k] Hk.
    + rewrite !Nat.add_0_r, H1, Hm by lia.
      apply list_lookup_insert_eq. unfold Zlength in Hn. lia.
    + replace (Z.to_nat i + S k)%nat with (Z.to_nat (i + 1) + k)%nat by lia.
      rewrite H2, list_lookup_insert_ne by lia. f_equal. lia.
Qed.

(** [_select_largest_contiguous] keeps a contiguous run of the table that no
    other contiguous run exceeds in size. *)
Lemma select_spec :
  l ≠ [] →
  ∃ t' l', select_largest_contiguous t = Ret t' ∧ view t' bi l' ∧
    tb_low t' = tb_low t ∧ tb_high t' = tb_high t ∧
    (∃ a b, l = a ++ l' ++ b) ∧ contig bi l' ∧ l' ≠ [] ∧
    ∀ a r b, l = a ++ r ++ b → contig bi r → total bi r ≤ total bi l'.
Proof.
  intros Hne. unfold select_largest_contiguous.
  rewrite (vw_count _ _ _ Hv).
  destruct (Z.eqb_spec (Zlength l) 0) as [E | Hlen]; simpl.
  { exfalso. apply Hne, nil_length_inv. unfold Zlength in E. lia. }
  unfold Zlength at 1. rewrite Nat2Z.id.
  destruct (select_loop_inv (length l) 0 (mk_select 0 0 0 0 0)) as (s & Hs & Hinv & Hts).
  { split; simpl; try done; try lia.
    - split; [lia | intros; lia].
    - split; [lia | intros; lia].
    - intros a b _ ? ?. replace a with 0%nat by lia. by replace b with 0%nat by lia. }
  { lia. }
  { by left. }
  { done. }
  change (Z.of_nat 0) with 0 in Hs. rewrite Hs. cbn [mbind outcome_bind].
  destruct Hinv as [_ _ _ _ S5 S6 S7 S8]. rewrite Hts in S8.
  set (ca := Z.to_nat (contig_start s)) in *. set (ce := Z.to_nat (contig_end s)) in *.
  assert (length l ≤ length (tb_map t))%nat as Hmap.
  { rewrite <- (vw_map _ _ _ Hv) at 1. rewrite length_take. lia. }
  destruct (move_loop_spec (Z.to_nat (contig_end s - contig_start s)) (tb_map t) 0 (contig_start s))
    as (map' & -> & Hl' & _ & Hmv); [lia | unfold Zlength; lia |].
  cbn [mbind outcome_bind]. eexists _, (slice l ca ce). split; [done |].
  assert (ca ≤ ce ≤ length l)%nat as Hce by (unfold ca, ce; lia).
  assert (Z.to_nat (contig_end s - contig_start s) = (ce - ca)%nat) as Hn by (unfold ca, ce; lia).
  rewrite Hn in *.
  assert (slice l ca ce ≠ []) as Hnonempty.
  { intros E. rewrite E in S7. simpl in S7.
    destruct l as [|m l0] eqn:El; [done |]. rewrite <- El in *.
    assert (run bi l 0 1) as Hr by (split; [rewrite El; simpl; lia | intros; lia]).
    apply S8 in Hr; [| lia | unfold Zlength; rewrite El; simpl; lia].
    rewrite S7, El in Hr. unfold slice in Hr. simpl in Hr.
    pose proof (psz_pos bi Hok m). pose proof (vw_valid _ _ _ Hv) as Hva.
    rewrite El in Hva. apply Forall_cons in Hva as [? _]. lia. }
  split_and!; try done.
  - split; simpl.
    + apply Hv.
    + unfold Zlength. by rewrite slice_length by lia.
    + rewrite slice_length by lia. apply list_eq. intros i.
      destruct (decide (i < ce - ca)%nat).
      * rewrite lookup_take_lt, slice_lookup by lia.
        pose proof (Hmv i ltac:(lia)) as Hmi. simpl in Hmi. rewrite Hmi.
        fold ca. rewrite <- (vw_map _ _ _ Hv) at 1. by rewrite lookup_take_lt by lia.
      * rewrite lookup_take_ge by lia. symmetry. apply lookup_ge_None.
        rewrite slice_length; lia.
    + rewrite Hl'. apply Hv.
    + apply slice_Forall, Hv.
  - exists (slice l 0 ca), (drop ce l). rewrite app_assoc, <- slice_split by lia.
    unfold slice. simpl. by rewrite Nat.sub_0_r, drop_0, take_drop.
  - intros i m m' Hm Hm'. apply lookup_lt_Some in Hm' as Hlt. rewrite slice_length in Hlt by lia.
    rewrite slice_lookup in Hm, Hm' by lia.
    destruct (proj2 S6 (ca + i)%nat) as (x & y & Hx & Hy & Hxy); [lia | lia |].
    replace (ca + S i)%nat with (S (ca + i)) in Hm' by lia. congruence.
  - intros a r b Hsplit Hr. rewrite <- S7.
    assert (slice l (length a) (length a + length r) = r) as Hsl.
    { rewrite Hsplit. unfold slice. rewrite drop_app_length.
      replace (length a + length r - length a)%nat with (length r) by lia.
      apply take_app_length. }
    assert (length a + length r ≤ length l)%nat as Hle.
    { rewrite Hsplit, !length_app. lia. }
    rewrite <- Hsl. apply S8; [| lia | unfold Zlength; lia].
    split; [lia |]. intros k Hk1 Hk2.
    destruct (lookup_lt_is_Some_2 l k) as [x Hx]; [lia |].
    destruct (lookup_lt_is_Some_2 l (S k)) as [y Hy]; [lia |].
    exists x, y. split_and!; [done | done |].
    apply (Hr (k - length a)%nat); rewrite <- Hsl, slice_lookup by lia;
      [rewrite <- Hx | rewrite <- Hy]; f_equal; lia.
Qed.
End select_all.

(** * Translation of addresses *)

(** Object [m] contains the address. *)
Definition holds_addr (bi : bootinfo) (m addr : Z) : Prop :=
  pst bi m ≤ addr < pend bi m.

Definition sorted_table (bi : bootinfo) (l : list Z) : Prop :=
  ∀ i j m m', i < j → rd l i = Ret m → rd l j = Ret m' → pend bi m ≤ pst bi m'.

Section translate.
Context (t : ut_table) (bi : bootinfo) (l : list Z) (addr : Z).
Hypothesis Hok : bi_ok bi.
Hypothesis Hv : view t bi l.
Hypothesis Hsorted : sorted_table bi l.
Hypothesis Haddr : 0 ≤ addr < 2 ^ 32.

Lemma search_loop_spec (fuel : nat) (start end_ : Z) :
  0 ≤ start ≤ end_ → end_ ≤ Zlength l → end_ - start < Z.of_nat fuel →
  ∃ r, search_loop t addr start end_ fuel = Ret r ∧
    match r with
    | Some (cap, off) => ∃ m, m ∈ l ∧ holds_addr bi m addr ∧
        cap = bi_untyped_start bi + m ∧ off = addr - pst bi m
    | None => ∀ i m, start ≤ i < end_ → rd l i = Ret m → ¬ holds_addr bi m addr
    end.
Proof.
  revert start end_. induction fuel as [|fuel IH]; intros start end_ Hs He Hf; simpl.
  { exfalso. lia. }
  bdestruct (start <? end_); cycle 1.
  { exists None. split; [done | lia]. }
  rewrite Z.shiftr_div_pow2 by lia. change (2 ^ 1) with 2. set (ix := (start + end_) / 2).
  assert (start ≤ ix < end_) as Hix by (unfold ix; divmod). clearbody ix.
  destruct (rd_in l ix) as [m Hm]; [lia |].
  rewrite (UT_PSTART_spec t bi l Hok Hv ix m Hm). cbn [mbind outcome_bind].
  rewrite (UT_PEND_spec t bi l Hok Hv ix m Hm), (UT_CAP_spec t bi l Hok Hv ix m Hm).
  destruct (view_rd t bi l ix m Hv Hm) as [_ Hmv].
  pose proof (psz_pos bi Hok m Hmv) as Hpos.
  bdestruct (addr <? pst bi m).
  - destruct (IH start ix) as (r & -> & Hr); [lia | lia | lia |]. exists r. split; [done |].
    destruct r as [[cap off]|]; [done |]. intros i m' Hi Hm'.
    destruct (decide (i < ix)); [apply (Hr i); [lia | done] |].
    unfold holds_addr. destruct (decide (i = ix)) as [-> |];
      [assert (m' = m) as -> by congruence; lia |].
    pose proof (Hsorted ix i m m' ltac:(lia) Hm Hm'). unfold pend in *. lia.
  - cbn [mbind outcome_bind]. bdestruct (pend bi m <=? addr).
    + destruct (IH (ix + 1) end_) as (r & -> & Hr); [lia | lia | lia |]. exists r. split; [done |].
      destruct r as [[cap off]|]; [done |]. intros i m' Hi Hm'.
      destruct (decide (ix < i)); [apply (Hr i); [lia | done] |].
      unfold holds_addr. destruct (decide (i = ix)) as [-> |];
      [assert (m' = m) as -> by congruence; lia |].
      pose proof (Hsorted i ix m' m ltac:(lia) Hm' Hm). unfold pend in *. lia.
    + cbn [mbind outcome_bind]. eexists (Some (_, _)). split; [done |]. exists m.
      apply rd_Ret in Hm as [_ Hm]. destruct (bo_obj _ Hok m Hmv) as (? & _ & _).
      split_and!; [by eapply list_elem_of_lookup_2 | unfold holds_addr; lia | done |].
      apply u32_small. lia.
Qed.

(** The outcome of [ut_translate] in terms of the table. *)
Lemma ut_translate_spec :
  (∃ m, m ∈ l ∧ holds_addr bi m addr ∧
     ut_translate t addr = Ret (Some (bi_untyped_start bi + m, addr - pst bi m))) ∨
  ((∀ m, m ∈ l → ¬ holds_addr bi m addr) ∧ ut_translate t addr = ut_translate_device t addr).
Proof.
  unfold ut_translate. rewrite (vw_count _ _ _ Hv).
  destruct (search_loop_spec (S (Z.to_nat (Zlength l))) 0 (Zlength l)) as (r & -> & Hr);
    [pose proof (Zlength_nonneg l); lia .. |].
  cbn [mbind outcome_bind]. destruct r as [[cap off]|].
  - left. destruct Hr as (m & Hin & Hh & -> & ->). by exists m.
  - right. split; [| done]. intros m [i Hi]%list_elem_of_lookup.
    apply (Hr (Z.of_nat i) m).
    + unfold Zlength. apply lookup_lt_Some in Hi. lia.
    + apply rd_Ret. rewrite Nat2Z.id. split; [lia | done].
Qed.
End translate.

(** The binary search of [ut_translate] terminates and agrees with the
    table: it answers with a capability and an offset exactly when an untyped
    object of the table contains the address, names that object and the offset
    inside it, and otherwise leaves the answer to the device objects. *)
Theorem ut_translate_correct (t : ut_table) (bi : bootinfo) (l : list Z) (addr : Z) :
  bi_ok bi → view t bi l → sorted_table bi l → 0 ≤ addr < 2 ^ 32 →
  (∀ m, m ∈ l → holds_addr bi m addr →
     ut_translate t addr = Ret (Some (bi_untyped_start bi + m, addr - pst bi m))) ∧
  ((∀ m, m ∈ l → ¬ holds_addr bi m addr) →
     ut_translate t addr = ut_translate_device t addr).
Proof.
  intros Hok Hv Hs Ha.
  destruct (ut_translate_spec t bi l addr Hok Hv Hs Ha) as [(m & Hm & Hh & ->) | [Hno ->]].
  - split; [| intros Hno; by destruct (Hno m Hm)].
    intros m' Hm' Hh'. apply list_elem_of_lookup in Hm as [i Hi], Hm' as [j Hj].
    assert (∀ k (x : Z), l !! k = Some x → rd l (Z.of_nat k) = Ret x) as Hrd.
    { intros k x Hk. apply rd_Ret. rewrite Nat2Z.id. split; [lia | done]. }
    unfold holds_addr in *.
    destruct (lt_eq_lt_dec i j) as [[Hlt | ->] | Hlt].
    + pose proof (Hs (Z.of_nat i) (Z.of_nat j) m m' ltac:(lia) (Hrd _ _ Hi) (Hrd _ _ Hj)). lia.
    + congruence.
    + pose proof (Hs (Z.of_nat j) (Z.of_nat i) m' m ltac:(lia) (Hrd _ _ Hj) (Hrd _ _ Hi)). lia.
  - split; [| done]. intros m Hm Hh. by destruct (Hno m Hm).
Qed.

(** * [ut_table_init] *)

(** Untyped objects do not overlap, and lie within 2 GiB of each other. *)
Record bi_layout (bi : bootinfo) : Prop := {
  bl_disjoint : ∀ m m', 0 ≤ m < n_untyped bi → 0 ≤ m' < n_untyped bi → m ≠ m' →
    pend bi m ≤ pst bi m' ∨ pend bi m' ≤ pst bi m;
  bl_close : ∀ m m', 0 ≤ m < n_untyped bi → 0 ≤ m' < n_untyped bi →
    pst bi m - pst bi m' < 2 ^ 31
}.

Lemma i32_exact (x : Z) : - 2 ^ 31 ≤ x < 2 ^ 31 → i32 x = x.
Proof.
  intros Hx. unfold i32, u32. destruct (decide (0 ≤ x)).
  - rewrite Z.mod_small by lia.
    destruct (Z.ltb_spec x (2 ^ 31)); lia.
  - replace (x mod 2 ^ 32) with (x + 2 ^ 32)
      by (symmetry; rewrite <- (Z.mod_add x 1 (2 ^ 32)) by lia; apply Z.mod_small; lia).
    destruct (Z.ltb_spec (x + 2 ^ 32) (2 ^ 31)); lia.
Qed.

Lemma ut_cmp_spec (bi : bootinfo) (a b : Z) :
  bi_layout bi → 0 ≤ a < n_untyped bi → 0 ≤ b < n_untyped bi →
  ut_cmp (bi_paddr bi) a b = pst bi a - pst bi b.
Proof.
  intros [_ Hc] Ha Hb. unfold ut_cmp. fold (pst bi a). fold (pst bi b).
  apply i32_exact. pose proof (Hc a b Ha Hb). pose proof (Hc b a Hb Ha). lia.
Qed.

(** The first size objects of the table, all of them. *)
Lemma fill_table_spec (t : ut_table) (bi : bootinfo) :
  bi_ok bi → Zlength (tb_map t) = CONFIG_MAX_NUM_BOOTINFO_UNTYPED_CAPS →
  ∃ t', fill_table t bi = Ret t' ∧ view t' bi (seqZ 0 (n_untyped bi)).
Proof.
  intros Hok Hl. destruct (bo_count _ Hok) as [Hn1 Hn2]. unfold fill_table.
  fold (n_untyped bi). rewrite i32_small by (unfold CONFIG_MAX_NUM_BOOTINFO_UNTYPED_CAPS in *; lia).
  destruct (fill_loop_spec (Z.to_nat (n_untyped bi)) (tb_map t) 0)
    as (map' & -> & Hl' & _ & Hk); [lia | lia |].
  simpl. eexists. split; [done |]. split; simpl; [done | | | congruence |].
  - unfold Zlength. rewrite length_seqZ. lia.
  - rewrite length_seqZ. apply list_eq. intros i.
    destruct (decide (i < Z.to_nat (n_untyped bi))%nat) as [Hi | Hi].
    + rewrite lookup_take_lt, lookup_seqZ_lt by lia.
      specialize (Hk (Z.of_nat i)). rewrite Nat2Z.id in Hk. rewrite Hk by lia. done.
    + rewrite lookup_take_ge, lookup_seqZ_ge by lia. done.
  - apply Forall_forall. intros m Hm%elem_of_seqZ. lia.
Qed.

Lemma StronglySorted_lookup (R : Z → Z → Prop) (l : list Z) (i j : nat) (a b : Z) :
  StronglySorted R l → (i < j)%nat → l !! i = Some a → l !! j = Some b → R a b.
Proof.
  intros Hs. revert i j. induction Hs as [|x l Hs IH Hx]; intros i j Hij Hi Hj; [done |].
  destruct i as [|i], j as [|j]; simpl in *; [lia | | lia | by eapply (IH i j); [lia | |]].
  simplify_eq. rewrite List.Forall_forall in Hx. apply Hx.
  apply list_elem_of_In. by eapply list_elem_of_lookup_2.
Qed.

Lemma view_within (t : ut_table) (bi : bootinfo) (l : list Z) :
  view t bi l → NoDup l → l ⊆+ seqZ 0 (n_untyped bi).
Proof.
  intros [_ _ _ _ Hva] Hnd. apply NoDup_submseteq; [done |]. intros m Hm. apply elem_of_seqZ.
  rewrite Forall_forall in Hva. specialize (Hva m Hm). lia.
Qed.

Lemma sort_table_spec (t : ut_table) (bi : bootinfo) (l : list Z) :
  bi_ok bi → bi_layout bi → view t bi l → NoDup l →
  ∃ t' l', sort_table t = Ret t' ∧ view t' bi l' ∧ l' ≡ₚ l ∧ sorted_table bi l'.
Proof.
  intros Hok Hlay Hv Hnd. pose proof Hv as [Hbi Hc Hm Hl Hva].
  unfold sort_table. rewrite Hbi. simpl. rewrite Hc.
  replace (Z.to_nat (Zlength l)) with (length l) by (unfold Zlength; lia). rewrite Hm.
  assert (∃ xs, mapM (M := outcome) (rd (bi_paddr bi)) l = Ret xs) as [xs ->].
  { clear - Hva Hok. induction Hva as [|m l Hm' _ [xs IH]]; simpl; [by eexists |].
    rewrite rd_default; [simpl; rewrite IH; by eexists |].
    rewrite (bo_paddr _ Hok). pose proof (bo_count _ Hok). lia. }
  pose proof (bo_count _ Hok) as Hn. pose proof (submseteq_length _ _ (view_within t bi l Hv Hnd)) as Hfew.
  rewrite length_seqZ in Hfew.
  destruct (qsort_ints (ut_cmp (bi_paddr bi)) l) as (bytes & -> & Hp & Hsort).
  { eapply Forall_impl; [exact Hva |]. unfold CONFIG_MAX_NUM_BOOTINFO_UNTYPED_CAPS in *. cbv beta. lia. }
  { unfold Zlength, CONFIG_MAX_NUM_BOOTINFO_UNTYPED_CAPS in *. lia. }
  cbn [mbind outcome_bind]. set (l' := bytes_int <$> _) in *.
  assert (length l' = length l) as Hlen by (by rewrite Hp).
  assert (Forall (λ m, 0 ≤ m < n_untyped bi) l') as Hva' by (by rewrite Hp).
  eexists _, l'. split; [done |]. split_and!; [| done |].
  - split; simpl; [done | | | | done].
    + unfold Zlength. by rewrite Hlen.
    + by rewrite take_app_length.
    + unfold Zlength in *. rewrite length_app, Hlen, length_drop. rewrite <- Hm in *.
      rewrite length_take in *. lia.
  - assert (StronglySorted (λ a b, ut_cmp (bi_paddr bi) a b ≤ 0) l') as Hss.
    { rewrite Forall_forall in Hva. apply Hsort.
      - intros a b Ha Hb. rewrite !ut_cmp_spec by auto. lia.
      - intros a b c Ha Hb Hc'. rewrite !ut_cmp_spec by auto. lia. }
    intros i j m m' Hij [Hi Hmi]%rd_Ret [Hj Hmj]%rd_Ret.
    pose proof (StronglySorted_lookup _ l' (Z.to_nat i) (Z.to_nat j) m m' Hss ltac:(lia) Hmi Hmj) as Hle.
    simpl in Hle. pose proof (Forall_lookup_1 _ _ _ _ Hva' Hmi) as V1.
    pose proof (Forall_lookup_1 _ _ _ _ Hva' Hmj) as V2. simpl in V1, V2.
    rewrite ut_cmp_spec in Hle by done. rewrite <- Hp in Hnd.
    assert (m ≠ m').
    { intros ->. assert (Z.to_nat i = Z.to_nat j) by (by eapply (NoDup_lookup l')). lia. }
    pose proof (psz_pos bi Hok m' V2). pose proof (psz_pos bi Hok m V1).
    destruct (bl_disjoint _ Hlay m m') as [? | ?]; [done .. |]. unfold pend in *. lia.
Qed.

Lemma sorted_tail (bi : bootinfo) (m : Z) (l : list Z) :
  sorted_table bi (m :: l) → sorted_table bi l ∧ ∀ m', m' ∈ l → pend bi m ≤ pst bi m'.
Proof.
  intros Hs. split.
  - intros i j a b Hij [Hi Ha]%rd_Ret [Hj Hb]%rd_Ret.
    apply (Hs (i + 1) (j + 1)); [lia | |]; apply rd_Ret; (split; [lia |]).
    + by replace (Z.to_nat (i + 1)) with (S (Z.to_nat i)) by lia.
    + by replace (Z.to_nat (j + 1)) with (S (Z.to_nat j)) by lia.
  - intros m' [k Hk]%list_elem_of_lookup. apply (Hs 0 (Z.of_nat (S k))); [lia | done |].
    apply rd_Ret. rewrite Nat2Z.id. split; [lia | done].
Qed.

Lemma sorted_total (bi : bootinfo) (l : list Z) (lo hi : Z) :
  sorted_table bi l → lo ≤ hi → Forall (λ m, lo ≤ pst bi m ∧ pend bi m ≤ hi) l →
  total bi l ≤ hi - lo.
Proof.
  revert lo. induction l as [|m l IH]; intros lo Hs Hlh Hf; simpl; [lia |].
  apply Forall_cons in Hf as [[H1 H2] Hf]. apply sorted_tail in Hs as [Hs Hm].
  assert (total bi l ≤ hi - pend bi m); [| unfold pend in *; lia].
  apply IH; [done | done |]. apply Forall_forall. intros m' Hm'.
  rewrite Forall_forall in Hf. split; [by apply Hm | by apply Hf].
Qed.

(** A contiguous run covers every address between its ends. *)
Lemma contig_covers (bi : bootinfo) (l : list Z) (m0 ml addr : Z) :
  contig bi l → head l = Some m0 → last l = Some ml →
  pst bi m0 ≤ addr < pend bi ml → ∃ m, m ∈ l ∧ holds_addr bi m addr.
Proof.
  revert m0. induction l as [|m l IH]; intros m0 Hc Hh Hl Ha; [done |].
  simpl in Hh. injection Hh as ->.
  destruct (decide (addr < pend bi m0)) as [| Hge].
  { exists m0. split; [left | unfold holds_addr; lia]. }
  destruct l as [|m1 l].
  { simpl in Hl. injection Hl as ->. lia. }
  destruct (IH m1) as (m & Hm & Hh).
  - intros i a b Hi Hj. by apply (Hc (S i)).
  - done.
  - done.
  - rewrite <- (Hc 0%nat m0 m1) by done. lia.
  - exists m. split; [by right | done].
Qed.

(** The run that [ut_table_init] selects. *)
Lemma ut_table_init_spec (t : ut_table) (bi : bootinfo) :
  bi_ok bi → bi_layout bi →
  Zlength (tb_map t) = CONFIG_MAX_NUM_BOOTINFO_UNTYPED_CAPS →
  (∃ m, 0 ≤ m < n_untyped bi ∧ MIN_UT_SIZE_BITS ≤ pbits bi m) →
  ∃ t' l m0 ml, ut_table_init t (Some bi) = Ret (0, t') ∧ view t' bi l ∧
    sorted_table bi l ∧ contig bi l ∧
    Forall (λ m, MIN_UT_SIZE_BITS ≤ pbits bi m) l ∧
    head l = Some m0 ∧ last l = Some ml ∧
    tb_low t' = pst bi m0 ∧ tb_high t' = pend bi ml.
Proof.
  intros Hok Hlay Hlen (mx & Hmx & Hbx). unfold ut_table_init.
  destruct (fill_table_spec t bi Hok Hlen) as (t1 & -> & V1). cbn [mbind outcome_bind].
  unfold reduce_table. change (0 <? MIN_UT_SIZE_BITS) with true.
  change (0 <? 0) with false. unfold strip_min. cbv iota.
  destruct (strip_spec t1 bi _ (λ b, MIN_UT_SIZE_BITS <=? b) Hok V1) as (t2 & -> & V2 & _).
  cbn [mbind outcome_bind mret outcome_ret].
  set (l2 := filter _ _) in V2.
  assert (NoDup l2) as Hnd by (apply NoDup_filter, NoDup_seqZ).
  assert (Forall (λ m, MIN_UT_SIZE_BITS ≤ pbits bi m) l2) as Hmin.
  { apply Forall_forall. intros m [Hb _]%list_elem_of_filter. by apply Z.leb_le. }
  assert (mx ∈ l2) as Hin.
  { apply list_elem_of_filter. split; [by apply Z.leb_le |]. apply elem_of_seqZ. lia. }
  destruct (sort_table_spec t2 bi l2 Hok Hlay V2 Hnd)
    as (t3 & l3 & -> & V3 & Hp & Hs3). cbn [mbind outcome_bind].
  assert (total bi l3 < 2 ^ 32) as Htot.
  { assert (total bi l3 ≤ (2 ^ 32 - 1) - 0); [| lia]. apply sorted_total; [done | lia |].
    eapply Forall_impl; [apply V3 |]. intros m Hm. simpl in Hm.
    destruct (bo_obj _ Hok m Hm) as (? & _ & ?). lia. }
  assert (l3 ≠ []) as Hne by (intros ->; rewrite <- Hp in Hin; by apply elem_of_nil in Hin).
  destruct (select_spec t3 bi l3 Hok V3 Htot Hne)
    as (t4 & l & -> & V4 & _ & _ & (a & b & Hsplit) & Hc & Hne' & _). cbn [mbind outcome_bind].
  destruct l as [|m0 l'] eqn:El; [done |]. rewrite <- El in *.
  destruct (last l) as [ml|] eqn:Elast; [| by apply last_None in Elast; subst].
  assert (rd l 0 = Ret m0) as R0 by (by rewrite El).
  assert (rd l (tb_count t4 - 1) = Ret ml) as Rl.
  { rewrite (vw_count _ _ _ V4). rewrite last_lookup in Elast. apply rd_Ret.
    unfold Zlength. split; [rewrite El; simpl; lia |]. rewrite <- Elast. f_equal. lia. }
  rewrite (UT_PSTART_spec t4 bi l Hok V4 0 m0 R0), (UT_PEND_spec t4 bi l Hok V4 _ ml Rl).
  cbn [mbind outcome_bind]. eexists _, l, m0, ml. split; [done |].
  destruct V4 as [W1 W2 W3 W4 W5]. split_and!; try done.
  - intros i j m m' Hij [Hi Hmi]%rd_Ret [Hj Hmj]%rd_Ret.
    assert (∀ k x, l !! k = Some x → rd l3 (Z.of_nat (length a + k)) = Ret x) as Hrd.
    { intros k x Hk. apply rd_Ret. rewrite Nat2Z.id. split; [lia |].
      rewrite Hsplit, lookup_app_r, lookup_app_l by (apply lookup_lt_Some in Hk; lia).
      rewrite <- Hk. f_equal. lia. }
    eapply (Hs3 (Z.of_nat (length a + Z.to_nat i)) (Z.of_nat (length a + Z.to_nat j)));
      [lia | by apply Hrd | by apply Hrd].
  - rewrite <- Hp in Hmin. rewrite Hsplit, !Forall_app in Hmin. tauto.
  - by rewrite El.
Qed.

(** After [ut_table_init] on boot information whose untyped objects do
    not overlap, [ut_find_memory] names a range every address of which
    [ut_translate] maps to an untyped object of at least 16 KiB that contains
    it, with the offset of the address in that object. *)
Theorem ut_table_init_covers (bi : bootinfo) :
  bi_ok bi → bi_layout bi →
  (∃ m, 0 ≤ m < n_untyped bi ∧ MIN_UT_SIZE_BITS ≤ pbits bi m) →
  ∃ t, ut_table_init tb_boot (Some bi) = Ret (0, t) ∧
    let '(low, high) := ut_find_memory t in
    low < high ∧
    ∀ addr, low ≤ addr < high →
      ∃ m, 0 ≤ m < n_untyped bi ∧ MIN_UT_SIZE_BITS ≤ pbits bi m ∧ holds_addr bi m addr ∧
        ut_translate t addr = Ret (Some (bi_untyped_start bi + m, addr - pst bi m)).
Proof.
  intros Hok Hlay Hmx.
  destruct (ut_table_init_spec tb_boot bi Hok Hlay eq_refl Hmx)
    as (t & l & m0 & ml & E & Hv & Hs & Hc & Hmin & Hh & Hl & Elow & Ehigh).
  exists t. split; [exact E |]. unfold ut_find_memory. rewrite Elow, Ehigh.
  pose proof (vw_valid _ _ _ Hv) as Hva. rewrite Forall_forall in Hva, Hmin.
  assert (m0 ∈ l) as H0 by (by apply head_Some_elem_of).
  assert (ml ∈ l) as H1 by (by apply last_Some_elem_of).
  destruct (bo_obj _ Hok m0 (Hva _ H0)) as (? & _ & _).
  destruct (bo_obj _ Hok ml (Hva _ H1)) as (_ & _ & ?).
  split.
  - pose proof (psz_pos bi Hok m0 (Hva _ H0)). pose proof (psz_pos bi Hok ml (Hva _ H1)).
    destruct l as [|x l]; [done |]. injection Hh as ->. apply sorted_tail in Hs as [_ Hs].
    apply elem_of_cons in H1 as [-> | H1]; [unfold pend; lia |].
    pose proof (Hs ml H1). unfold pend in *. lia.
  - intros addr Ha. destruct (contig_covers bi l m0 ml addr Hc Hh Hl Ha) as (m & Hm & Hold).
    destruct (ut_translate_spec t bi l addr Hok Hv Hs) as [(m' & Hm' & Hold' & ->) | [Hno _]].
    + lia.
    + exists m'. split; [by apply Hva |]. split; [by apply Hmin | done].
    + by destruct (Hno m Hm).
Qed.

(** * Stealing memory *)

Lemma ALIGN_TOP_spec (x s : Z) :
  0 ≤ s ≤ 31 → 0 ≤ x → x + 2 ^ s - 1 < 2 ^ 32 →
  ALIGN_TOP x (Z.shiftl 1 s) = 2 ^ s * ((x + (2 ^ s - 1)) / 2 ^ s).
Proof.
  intros Hs Hx Hlt. unfold ALIGN_TOP, ALIGN. rewrite Z.shiftl_1_l.
  assert (0 < 2 ^ s) by (apply Z.pow_pos_nonneg; lia).
  rewrite u32_small by lia. apply andnot32_low; lia.
Qed.

(** [ut_steal_mem] takes an aligned block from the bottom of the range
    that [ut_find_memory] reports: a non-zero answer is aligned to its size, lies
    inside the old range and below the new one, and 0 leaves the range alone. *)
Theorem ut_steal_mem_correct (t : ut_table) (sizebits : Z) :
  0 ≤ sizebits ≤ 30 → 0 < tb_low t ≤ tb_high t → tb_high t + 2 * 2 ^ sizebits ≤ 2 ^ 32 →
  let '(paddr, t') := ut_steal_mem t sizebits in
  (paddr = 0 ∧ t' = t ∧
     ∀ p, tb_low t ≤ p → p mod 2 ^ sizebits = 0 → tb_high t < p + 2 ^ sizebits) ∨
  (paddr mod 2 ^ sizebits = 0 ∧ tb_low t ≤ paddr ∧ tb_low t' = paddr + 2 ^ sizebits ∧
     tb_low t' ≤ tb_high t ∧ tb_high t' = tb_high t ∧
     ∀ p, tb_low t ≤ p → p mod 2 ^ sizebits = 0 → paddr ≤ p).
Proof.
  intros Hs Hl Hh. unfold ut_steal_mem.
  assert (0 < 2 ^ sizebits) as Hpos by (apply Z.pow_pos_nonneg; lia).
  assert (2 ^ sizebits ≤ 2 ^ 30) as Hle by (apply Z.pow_le_mono_r; lia).
  rewrite ALIGN_TOP_spec by lia. rewrite Z.shiftl_1_l. set (u := 2 ^ sizebits) in *.
  set (p := u * ((tb_low t + (u - 1)) / u)).
  assert (tb_low t ≤ p < tb_low t + u ∧ p mod u = 0) as (Hp & Hpm).
  { unfold p. split; [| rewrite Z.mul_comm; apply Z.mod_mul; lia].
    pose proof (Z.div_mod (tb_low t + (u - 1)) u ltac:(lia)).
    pose proof (Z.mod_pos_bound (tb_low t + (u - 1)) u Hpos). lia. }
  assert (∀ q, tb_low t ≤ q → q mod u = 0 → p ≤ q) as Hleast.
  { intros q Hq1 Hq2. unfold p.
    pose proof (Z.div_mod q u ltac:(lia)) as Hdm. rewrite Hq2, Z.add_0_r in Hdm.
    rewrite Hdm. apply Z.mul_le_mono_nonneg_l; [lia |].
    assert ((tb_low t + (u - 1)) / u < q / u + 1); [| lia].
    apply Z.div_lt_upper_bound; lia. }
  clearbody p. rewrite u32_small by lia.
  destruct (Z.leb_spec (p + u) (tb_high t)); [right | left]; simpl.
  - split_and!; [done | lia | lia | lia | done | done].
  - split_and!; [done | done |]. intros q Hq1 Hq2. pose proof (Hleast q Hq1 Hq2). lia.
Qed.

(** * Witnesses *)

(** Three untyped objects, out of order; the first is too small. *)
Definition bi_example : bootinfo :=
  mk_bootinfo 100 103 200 200
    ([4096; 65536; 32768] ++ replicate 164 0) ([12; 16; 15] ++ replicate 164 0).

Lemma bi_example_index (m : Z) : 0 ≤ m < n_untyped bi_example → m = 0 ∨ m = 1 ∨ m = 2.
Proof. unfold n_untyped. simpl. lia. Qed.

Lemma bi_example_ok : bi_ok bi_example.
Proof.
  split; [done | done | by vm_compute | by vm_compute |].
  intros m [-> | [-> | ->]]%bi_example_index; by vm_compute.
Qed.

Lemma bi_example_layout : bi_layout bi_example.
Proof.
  split.
  - intros m m' [-> | [-> | ->]]%bi_example_index [-> | [-> | ->]]%bi_example_index Hne;
      first [done | left; by vm_compute | right; by vm_compute].
  - intros m m' [-> | [-> | ->]]%bi_example_index [-> | [-> | ->]]%bi_example_index;
      by vm_compute.
Qed.

Lemma ut_table_init_covers_witness :
  ∃ t, ut_table_init tb_boot (Some bi_example) = Ret (0, t) ∧
    ut_find_memory t = (32768, 131072) ∧
    ∃ m, ut_translate t 70000 = Ret (Some (100 + m, 70000 - pst bi_example m)).
Proof.
  destruct (ut_table_init_covers bi_example) as (t & H1 & H2).
  - exact bi_example_ok.
  - exact bi_example_layout.
  - exists 1. split; vm_compute; [split |]; congruence.
  - assert (ut_find_memory t = (32768, 131072)) as H3.
    { apply (f_equal (λ o, match o with Ret (_, u) => ut_find_memory u | Fault _ => (0, 0) end)) in H1.
      vm_compute in H1. symmetry. exact H1. }
    rewrite H3 in H2. destruct H2 as [_ H2].
    destruct (H2 70000) as (m & _ & _ & _ & H4); [lia |].
    exists t. split; [exact H1 | split; [exact H3 |]]. exists m. exact H4.
Defined.

(** The table that [ut_table_init] builds from the example. *)
Definition tb_example : ut_table :=
  mk_ut_table (Some bi_example) ([2; 1] ++ replicate 165 0) 2 32768 131072.

Lemma tb_example_view : view tb_example bi_example [2; 1].
Proof. split; [done | done | done | done |]. repeat constructor; by vm_compute. Qed.

Lemma tb_example_sorted : sorted_table bi_example [2; 1].
Proof.
  intros i j m m' Hij Hi Hj. apply rd_bounds in Hi as Bi, Hj as Bj.
  unfold Zlength in *. simpl in *. assert (i = 0) as -> by lia. assert (j = 1) as -> by lia.
  injection Hi as <-. injection Hj as <-. by vm_compute.
Qed.

Lemma ut_translate_correct_witness :
  ut_translate tb_example 40000 = Ret (Some (102, 7232)) ∧
  ut_translate tb_example 200000 = ut_translate_device tb_example 200000.
Proof.
  destruct (ut_translate_correct tb_example bi_example [2; 1] 40000) as [H1 _];
    [exact bi_example_ok | exact tb_example_view | exact tb_example_sorted | lia |].
  destruct (ut_translate_correct tb_example bi_example [2; 1] 200000) as [_ H2];
    [exact bi_example_ok | exact tb_example_view | exact tb_example_sorted | lia |].
  split.
  - apply (H1 2); [left | by vm_compute].
  - apply H2. intros m Hm. apply elem_of_cons in Hm as [-> | Hm].
    + intros [_ Hb]. by vm_compute in Hb.
    + apply list_elem_of_singleton in Hm as ->. intros [_ Hb]. by vm_compute in Hb.
Defined.

Lemma ut_steal_mem_correct_witness :
  ut_steal_mem (mk_ut_table None [] 0 33000 131072) 14 =
    (49152, mk_ut_table None [] 0 65536 131072) ∧ 49152 mod 2 ^ 14 = 0.
Proof.
  split; [reflexivity |].
  destruct (ut_steal_mem_correct (mk_ut_table None [] 0 33000 131072) 14) as [H | H];
    [lia | simpl; lia | simpl; lia | |].
  - destruct H as [H _]. vm_compute in H. discriminate.
  - destruct H as [H _]. exact H.
Defined.

(** The comparison of [_sort_table] is not an order on all of the
    physical address space: two objects more than 2 GiB apart compare the wrong
    way round, because the difference of the unsigned addresses is read as a
    signed integer. *)
Theorem ut_cmp_wraps (a b : Z) :
  0 ≤ a → a + 2 ^ 31 < b → b < 2 ^ 32 →
  ut_cmp [a; b] 0 1 > 0 ∧ ut_cmp [a; b] 1 0 < 0.
Proof.
  intros Ha Hab Hb. unfold ut_cmp. simpl (default 0 _).
  replace (a - b) with (a - b + 2 ^ 32 + -1 * 2 ^ 32) by lia.
  replace (b - a) with (b - a - 2 ^ 32 + 1 * 2 ^ 32) by lia.
  unfold i32, u32. rewrite !Z.mod_add by lia.
  change (((a - b + 2 ^ 32) mod 2 ^ 32)) with (u32 (a - b + 2 ^ 32)).
  rewrite (u32_small (a - b + 2 ^ 32)) by lia.
  assert ((b - a - 2 ^ 32) mod 2 ^ 32 = b - a) as ->.
  { rewrite <- (Z.mod_add _ 1) by lia. replace (b - a - 2 ^ 32 + 1 * 2 ^ 32) with (b - a) by lia.
    apply Z.mod_small. lia. }
  destruct (Z.ltb_spec (a - b + 2 ^ 32) (2 ^ 31)), (Z.ltb_spec (b - a) (2 ^ 31)); lia.
Qed.

Lemma ut_cmp_wraps_witness : ut_cmp [0; 2 ^ 31 + 4096] 1 0 < 0.
Proof. apply (ut_cmp_wraps 0 (2 ^ 31 + 4096)); lia. Defined.
