(* ===== verification/Cspace.v ===== *)
(** The capability slot allocator (libs/libsel4cspace/src/cspace.c and
    helpers.c).

    A cspace is one node of 1024 capability slots, or a node of 1024 such nodes
    that are made when they are needed.  The free slots are kept in lists that
    run through the arrays of the cspace; the library wraps the operations of
    seL4 that need a free slot.  Untyped memory, malloc and seL4 are reached
    through the functions [cspace_root_task_bootstrap] is given, which are a
    type class here. *)

From S2P Require Import Prelude UtAllocator UtTable.

(** * Constants *)

Definition CSPACE_NODE_SIZE_IN_MEM_BITS : Z := 14.
Definition CSPACE_NODE_SIZE_IN_SLOTS_BITS : Z := 10.
Definition CSPACE_NODE_SIZE_IN_SLOTS : Z := 1024.
Definition CSPACE_NULL : Z := 0.
Definition CSPACE_DEPTH : Z := 32.
Definition CSPACE_NOERROR : Z := 0.
Definition CSPACE_NOSLOT : Z := -1.
Definition CSPACE_ONE_LEVEL_SKIP_BITS : Z := 32 - CSPACE_NODE_SIZE_IN_SLOTS_BITS.
Definition CSPACE_TWO_LEVEL_SKIP_BITS : Z := 32 - 2 * CSPACE_NODE_SIZE_IN_SLOTS_BITS.
Definition CSPACE_LEAF_OFFSET (x : Z) : Z := Z.land x (CSPACE_NODE_SIZE_IN_SLOTS - 1).

Definition seL4_CapTableObject : Z := 4.
Definition seL4_AllRights : Z := 7.
Definition seL4_NotEnoughMemory : Z := 10.
Definition seL4_CapInitThreadTCB : Z := 1.
Definition seL4_CapInitThreadCNode : Z := 2.
Definition seL4_CapInitThreadPD : Z := 3.

(** Slots of the initial cspace that hold no capability. *)
Definition seL4_CapIOPort : Z := 5.
Definition seL4_CapIOSpace : Z := 6.
Definition seL4_CapArchBootInfoFrame : Z := 8.
Definition seL4_CapIPI : Z := 10.

(** The fields of a guard word: a tag, 18 bits of guard, 5 bits of its size. *)
Definition seL4_CapData_Guard_new (bits size : Z) : Z :=
  Z.lor (2 ^ 31) (Z.lor (Z.shiftl bits 8) (Z.shiftl size 3)).

(** * State *)

(** [cspace_t]; a table of the second level is NULL until it is allocated.  The
    fields of the second level are not initialised in a one-level cspace, and
    not used. *)
Record cspace : Type := mk_cspace {
  cs_levels : Z;
  cs_root_cnode : Z;
  cs_guard : Z;
  cs_addr : Z;
  cs_next1 : Z;
  cs_next2 : Z;
  cs_num : Z;
  cs_table1 : list Z;
  cs_table2 : list (option (list Z))
}.

Definition set_cs_root_cnode (v : Z) (c : cspace) : cspace :=
  mk_cspace (cs_levels c) v (cs_guard c) (cs_addr c) (cs_next1 c) (cs_next2 c) (cs_num c)
    (cs_table1 c) (cs_table2 c).
Definition set_cs_guard (v : Z) (c : cspace) : cspace :=
  mk_cspace (cs_levels c) (cs_root_cnode c) v (cs_addr c) (cs_next1 c) (cs_next2 c) (cs_num c)
    (cs_table1 c) (cs_table2 c).
Definition set_cs_next1 (v : Z) (c : cspace) : cspace :=
  mk_cspace (cs_levels c) (cs_root_cnode c) (cs_guard c) (cs_addr c) v (cs_next2 c) (cs_num c)
    (cs_table1 c) (cs_table2 c).
Definition set_cs_next2 (v : Z) (c : cspace) : cspace :=
  mk_cspace (cs_levels c) (cs_root_cnode c) (cs_guard c) (cs_addr c) (cs_next1 c) v (cs_num c)
    (cs_table1 c) (cs_table2 c).
Definition set_cs_num (v : Z) (c : cspace) : cspace :=
  mk_cspace (cs_levels c) (cs_root_cnode c) (cs_guard c) (cs_addr c) (cs_next1 c) (cs_next2 c) v
    (cs_table1 c) (cs_table2 c).
Definition set_cs_table1 (v : list Z) (c : cspace) : cspace :=
  mk_cspace (cs_levels c) (cs_root_cnode c) (cs_guard c) (cs_addr c) (cs_next1 c) (cs_next2 c)
    (cs_num c) v (cs_table2 c).
Definition set_cs_table2 (v : list (option (list Z))) (c : cspace) : cspace :=
  mk_cspace (cs_levels c) (cs_root_cnode c) (cs_guard c) (cs_addr c) (cs_next1 c) (cs_next2 c)
    (cs_num c) (cs_table1 c) v.

(** Invocations of seL4. *)
Inductive cap_call : Type :=
  | Untyped_RetypeAtOffset (ut type offset size root index depth slot : Z)
  | CNode_Copy (root slot depth src cap rights : Z)
  | CNode_Mint (root slot depth src cap rights badge : Z)
  | CNode_Move (root slot src cap : Z)
  | CNode_Mutate (root slot src cap badge : Z)
  | CNode_Delete (root cap depth : Z)
  | CNode_Recycle (root cap : Z)
  | CNode_Revoke (root cap : Z)
  | CNode_SaveCaller (root slot : Z)
  | IRQControl_Get (irq_cap irq root slot : Z)
  | TCB_SetSpace (tcb root guard pd : Z)
  | TCB_BindAEP (tcb aep : Z)
  | IRQHandler_SetEndpoint (cap aep : Z)
  | IRQHandler_Ack (cap : Z).

(** What the library is given by its user, and seL4.  [w_malloc] gives the
    contents of a new table, or [None] for NULL. *)
Class cspace_world (W : Type) : Type := {
  w_ut_alloc : Z → W → outcome (Z * W);
  w_ut_free : Z → Z → W → outcome W;
  w_ut_translate : Z → W → outcome (option (Z * Z));
  w_malloc : W → option (list Z) * W;
  w_sel4 : cap_call → W → Z * W
}.

(** A new table has an entry for every slot of a node. *)
Class malloc_sized (W : Type) `{!cspace_world W} : Prop :=
  malloc_size : ∀ w b w', w_malloc w = (Some b, w') → Zlength b = CSPACE_NODE_SIZE_IN_SLOTS.

(** The cspaces by their addresses, and [cur_cspace]. *)
Record cspaces (W : Type) : Type := mk_cspaces {
  sp_heap : gmap Z cspace;
  sp_next : Z;
  sp_cur : Z;
  sp_world : W
}.
Arguments mk_cspaces {W} sp_heap sp_next sp_cur sp_world.
Arguments sp_heap {W} c.
Arguments sp_next {W} c.
Arguments sp_cur {W} c.
Arguments sp_world {W} c.

Section cspace.
Context {W : Type} `{!cspace_world W}.

Definition CS (A : Type) : Type := cspaces W → outcome (A * cspaces W).

#[global] Instance CS_ret : MRet CS := λ A a s, Ret (a, s).

#[global] Instance CS_bind : MBind CS := λ A B k m s,
  match m s with
  | Ret (a, s') => k a s'
  | Fault f => Fault f
  end.

Definition liftC {A : Type} (o : outcome A) : CS A := λ s, a ← o; Ret (a, s).
Definition assertC (b : bool) : CS unit := liftC (c_assert b).

Definition set_world (w : W) (s : cspaces W) : cspaces W :=
  mk_cspaces (sp_heap s) (sp_next s) (sp_cur s) w.

Definition load_cs (p : Z) : CS cspace := λ s,
  if p =? 0 then Fault NullDeref
  else match sp_heap s !! p with
       | Some c => Ret (c, s)
       | None => Fault Dangling
       end.

Definition store_cs (p : Z) (c : cspace) : CS unit := λ s,
  Ret (tt, mk_cspaces (<[p := c]> (sp_heap s)) (sp_next s) (sp_cur s) (sp_world s)).

Definition new_cs (c : cspace) : CS Z := λ s,
  Ret (sp_next s, mk_cspaces (<[sp_next s := c]> (sp_heap s)) (sp_next s + 1) (sp_cur s) (sp_world s)).

Definition free_cs (p : Z) : CS unit := λ s,
  Ret (tt, mk_cspaces (delete p (sp_heap s)) (sp_next s) (sp_cur s) (sp_world s)).

Definition cur_cspace : CS Z := λ s, Ret (sp_cur s, s).

Definition set_cur_cspace (p : Z) : CS unit := λ s,
  Ret (tt, mk_cspaces (sp_heap s) (sp_next s) p (sp_world s)).

Definition ut_allocC (sizebits : Z) : CS Z := λ s,
  '(a, w) ← w_ut_alloc sizebits (sp_world s); Ret (a, set_world w s).
Definition ut_freeC (addr sizebits : Z) : CS unit := λ s,
  w ← w_ut_free addr sizebits (sp_world s); Ret (tt, set_world w s).
Definition ut_translateC (addr : Z) : CS (option (Z * Z)) := λ s,
  r ← w_ut_translate addr (sp_world s); Ret (r, s).
Definition mallocC : CS (option (list Z)) := λ s,
  let '(b, w) := w_malloc (sp_world s) in Ret (b, set_world w s).
Definition sel4 (k : cap_call) : CS Z := λ s,
  let '(e, w) := w_sel4 k (sp_world s) in Ret (e, set_world w s).

(** [sel4_error]: an error ends the program. *)
Definition sel4_error (err : Z) : CS unit := assertC (err =? 0).

(** [cspace_ut_translate] and the assertion that it succeeds. *)
Definition translated (addr : Z) : CS (Z * Z) :=
  r ← ut_translateC addr;
  match r with
  | Some x => mret x
  | None => liftC (Fault AssertFail)
  end.

(** * Helpers (helpers.c) *)

Definition cspace_retype_depth (c : cspace) : outcome Z :=
  if cs_levels c =? 1 then Ret 0
  else if cs_levels c =? 2 then Ret (32 - CSPACE_NODE_SIZE_IN_SLOTS_BITS)
  else Fault AssertFail.

Definition cspace_alloc_level1_index (c : cspace) : outcome (Z * cspace) :=
  let s := cs_next1 c in
  _ ← c_assert (negb (s =? CSPACE_NOSLOT));
  n ← rd (cs_table1 c) s;
  Ret (s, set_cs_next1 (i32 n) c).

Definition cspace_free_level1_index (c : cspace) (s : Z) : outcome cspace :=
  _ ← c_assert ((0 <=? s) && (s <? CSPACE_NODE_SIZE_IN_SLOTS));
  t ← wr (cs_table1 c) s (u32 (cs_next1 c));
  Ret (set_cs_next1 s (set_cs_table1 t c)).

(** The free list of a new node whose slots start at [base]. *)
Definition node_list (base : Z) : list Z :=
  ((λ k : nat, u32 (base + Z.of_nat k + 1)) <$> seq 0 (Z.to_nat CSPACE_NODE_SIZE_IN_SLOTS - 1)) ++
  [CSPACE_NULL].

(** The branch of [cspace_alloc_level2_slot] that makes a new node. *)
Definition grow_level2 (c : cspace) : CS cspace :=
  '(l1, c) ← liftC (cspace_alloc_level1_index c);
  _ ← assertC (negb (u32 l1 =? u32 CSPACE_NOSLOT));
  v ← ut_allocC CSPACE_NODE_SIZE_IN_MEM_BITS;
  _ ← assertC (negb (v =? 0));
  '(ut_cptr, offset) ← translated v;
  t1 ← liftC (wr (cs_table1 c) l1 v);
  serr ← sel4 (Untyped_RetypeAtOffset ut_cptr seL4_CapTableObject offset
                 CSPACE_NODE_SIZE_IN_SLOTS_BITS (cs_root_cnode c) 0 0 l1);
  _ ← assertC (serr =? 0);
  block ← mallocC;
  match block with
  | None => liftC (Fault AssertFail)
  | Some _ =>
      let base := Z.shiftl l1 CSPACE_NODE_SIZE_IN_SLOTS_BITS in
      t2 ← liftC (wr (cs_table2 c) l1 (Some (node_list base)));
      mret (set_cs_next2 (i32 base)
              (set_cs_num CSPACE_NODE_SIZE_IN_SLOTS (set_cs_table2 t2 (set_cs_table1 t1 c))))
  end.

(** The entry of a slot in its table. *)
Definition level2_entry (c : cspace) (s : Z) : outcome Z :=
  t ← rd (cs_table2 c) (Z.shiftr s CSPACE_NODE_SIZE_IN_SLOTS_BITS);
  t ← deref t;
  rd t (CSPACE_LEAF_OFFSET s).

(** [level2_alloc_tables[i][k] = v]. *)
Definition set_entry (t2 : list (option (list Z))) (i k v : Z) : outcome (list (option (list Z))) :=
  t ← rd t2 i;
  t ← deref t;
  t ← wr t k v;
  wr t2 i (Some t).

Definition set_level2_entry (c : cspace) (s v : Z) : outcome cspace :=
  t2 ← set_entry (cs_table2 c) (Z.shiftr s CSPACE_NODE_SIZE_IN_SLOTS_BITS) (CSPACE_LEAF_OFFSET s) v;
  Ret (set_cs_table2 t2 c).

Definition cspace_alloc_level2_slot (p : Z) : CS Z :=
  c ← load_cs p;
  c ← (if cs_num c <=? 0 then grow_level2 c else mret c);
  let s := u32 (cs_next2 c) in
  n ← liftC (level2_entry c s);
  _ ← store_cs p (set_cs_num (u32 (cs_num c - 1)) (set_cs_next2 (i32 n) c));
  mret s.

Definition cspace_free_level2_slot (c : cspace) (s : Z) : outcome cspace :=
  _ ← c_assert ((0 <=? s) && (s <? CSPACE_NODE_SIZE_IN_SLOTS * CSPACE_NODE_SIZE_IN_SLOTS));
  c ← set_level2_entry c s (u32 (cs_next2 c));
  Ret (set_cs_num (u32 (cs_num c + 1)) (set_cs_next2 (i32 s) c)).

(** * Slots *)

Definition cspace_alloc_slot (p : Z) : CS Z :=
  _ ← assertC (negb (p =? 0));
  c ← load_cs p;
  if cs_levels c =? 1 then
    if 0 <? cs_num c then
      '(r, c) ← liftC (cspace_alloc_level1_index (set_cs_num (cs_num c - 1) c));
      _ ← store_cs p c;
      mret (if u32 r =? u32 CSPACE_NOSLOT then CSPACE_NULL else u32 r)
    else mret CSPACE_NULL
  else if cs_levels c =? 2 then cspace_alloc_level2_slot p
  else liftC (Fault AssertFail).

Definition cspace_free_slot (p slot : Z) : CS Z :=
  _ ← assertC (negb (p =? 0));
  _ ← assertC (negb (slot =? CSPACE_NULL));
  c ← load_cs p;
  c ← liftC (if cs_levels c =? 1 then
               cspace_free_level1_index (set_cs_num (u32 (cs_num c + 1)) c) (i32 slot)
             else if cs_levels c =? 2 then cspace_free_level2_slot c slot
             else Fault AssertFail);
  _ ← store_cs p c;
  mret CSPACE_NOERROR.

(** * Operations on capabilities *)

(** [cspace_ut_retype_addr]: the error, and [*p] when it is set. *)
Definition cspace_ut_retype_addr (addr type size_bits p : Z) : CS (Z * option Z) :=
  new ← cspace_alloc_slot p;
  if new =? CSPACE_NULL then mret (seL4_NotEnoughMemory, None) else
  r ← ut_translateC addr;
  match r with
  | None => mret (1, Some new)
  | Some (ut_cptr, offset) =>
      c ← load_cs p;
      err ← sel4 (Untyped_RetypeAtOffset ut_cptr type offset size_bits (cs_root_cnode c)
                    (Z.shiftr new CSPACE_NODE_SIZE_IN_SLOTS_BITS)
                    (CSPACE_DEPTH - CSPACE_NODE_SIZE_IN_SLOTS_BITS) (CSPACE_LEAF_OFFSET new));
      mret (err, Some new)
  end.

(** A new slot of [dest], and what [call] of the two roots and the slot does. *)
Definition with_slot (dest src : Z) (call : Z → Z → Z → cap_call) : CS Z :=
  _ ← assertC (negb (dest =? 0) && negb (src =? 0));
  slot ← cspace_alloc_slot dest;
  _ ← assertC (negb (slot =? CSPACE_NULL));
  d ← load_cs dest;
  c ← load_cs src;
  err ← sel4 (call (cs_root_cnode d) slot (cs_root_cnode c));
  _ ← sel4_error err;
  mret slot.

Definition cspace_copy_cap (dest src src_cap rights : Z) : CS Z :=
  with_slot dest src (λ root slot sroot, CNode_Copy root slot CSPACE_DEPTH sroot src_cap rights).

Definition cspace_mint_cap (dest src src_cap rights badge : Z) : CS Z :=
  with_slot dest src (λ root slot sroot, CNode_Mint root slot CSPACE_DEPTH sroot src_cap rights badge).

Definition cspace_move_cap (dest src src_cap : Z) : CS Z :=
  with_slot dest src (λ root slot sroot, CNode_Move root slot sroot src_cap).

Definition cspace_mutate_cap (dest src src_cap badge : Z) : CS Z :=
  with_slot dest src (λ root slot sroot, CNode_Mutate root slot sroot src_cap badge).

Definition cspace_save_reply_cap (p : Z) : CS Z :=
  with_slot p p (λ root slot _, CNode_SaveCaller root slot).

Definition cspace_irq_control_get_cap (dest irq_cap irq : Z) : CS Z :=
  with_slot dest dest (λ root slot _, IRQControl_Get irq_cap irq root slot).

(** A call on a capability of [p] that must succeed. *)
Definition on_cap (p : Z) (call : Z → cap_call) : CS unit :=
  _ ← assertC (negb (p =? 0));
  c ← load_cs p;
  err ← sel4 (call (cs_root_cnode c));
  sel4_error err.

Definition cspace_delete_cap (p cap : Z) : CS Z :=
  _ ← on_cap p (λ root, CNode_Delete root cap CSPACE_DEPTH);
  cspace_free_slot p cap.

Definition cspace_recycle_cap (p cap : Z) : CS Z :=
  _ ← on_cap p (λ root, CNode_Recycle root cap);
  mret CSPACE_NOERROR.

Definition cspace_revoke_cap (p cap : Z) : CS Z :=
  _ ← on_cap p (λ root, CNode_Revoke root cap);
  mret CSPACE_NOERROR.

(** * Making and destroying a cspace *)

(** The free list of level 1, over all slots of the node. *)
Definition level1_list : list Z :=
  ((λ k : nat, Z.of_nat k + 1) <$> seq 0 (Z.to_nat CSPACE_NODE_SIZE_IN_SLOTS - 1)) ++
  [u32 CSPACE_NOSLOT].

Definition no_tables : list (option (list Z)) :=
  replicate (Z.to_nat CSPACE_NODE_SIZE_IN_SLOTS) None.

(** The second level of a new cspace; the result of malloc is not checked. *)
Definition create_level2 (c : cspace) : CS cspace :=
  addr ← ut_allocC CSPACE_NODE_SIZE_IN_MEM_BITS;
  _ ← assertC (negb (addr =? 0));
  '(ut_cptr, offset) ← translated addr;
  '(l1index, c) ← liftC (cspace_alloc_level1_index c);
  _ ← assertC (negb (u32 l1index =? u32 CSPACE_NOSLOT));
  let l1slot := Z.shiftl l1index CSPACE_NODE_SIZE_IN_SLOTS_BITS in
  t1 ← liftC (wr (cs_table1 c) l1index addr);
  r ← sel4 (Untyped_RetypeAtOffset ut_cptr seL4_CapTableObject offset
              CSPACE_NODE_SIZE_IN_SLOTS_BITS (cs_root_cnode c) 0 0 l1index);
  _ ← sel4_error r;
  block ← mallocC;
  match block with
  | None => liftC (Fault NullDeref)
  | Some _ =>
      t2 ← liftC (wr no_tables l1index (Some (node_list l1slot)));
      mret (set_cs_next2 (i32 (l1slot + 1))
              (set_cs_num (CSPACE_NODE_SIZE_IN_SLOTS - 1) (set_cs_table2 t2 (set_cs_table1 t1 c))))
  end.

Definition cspace_create (levels : Z) : CS Z :=
  block ← mallocC;
  _ ← assertC (bool_decide (is_Some block));
  addr ← ut_allocC CSPACE_NODE_SIZE_IN_MEM_BITS;
  _ ← assertC (negb (addr =? 0));
  '(ut_cptr, offset) ← translated addr;
  cur ← cur_cspace;
  slot ← cspace_alloc_slot cur;
  _ ← assertC (negb (slot =? CSPACE_NULL));
  cc ← load_cs cur;
  depth ← liftC (cspace_retype_depth cc);
  r ← sel4 (Untyped_RetypeAtOffset ut_cptr seL4_CapTableObject offset
              CSPACE_NODE_SIZE_IN_SLOTS_BITS (cs_root_cnode cc)
              (Z.shiftr slot CSPACE_NODE_SIZE_IN_SLOTS_BITS) depth (CSPACE_LEAF_OFFSET slot));
  _ ← sel4_error r;
  _ ← assertC ((levels =? 1) || (levels =? 2));
  let c := mk_cspace levels slot 0 addr (if levels =? 1 then 1 else 0) 0
             (CSPACE_NODE_SIZE_IN_SLOTS - 1) level1_list no_tables in
  c ← (if levels =? 2 then create_level2 c else mret c);
  let guard := seL4_CapData_Guard_new 0
                 (if levels =? 1 then CSPACE_ONE_LEVEL_SKIP_BITS else CSPACE_TWO_LEVEL_SKIP_BITS) in
  root ← cspace_mint_cap cur cur slot seL4_AllRights guard;
  _ ← assertC (negb (root =? CSPACE_NULL));
  _ ← cspace_delete_cap cur slot;
  new_cs (set_cs_root_cnode root (set_cs_guard guard c)).

(** The loop of [cspace_destroy] over the tables from index [i] on. *)
Fixpoint destroy_level2 (root i : Z) (t1 : list Z) (t2 : list (option (list Z))) : CS unit :=
  match t2 with
  | [] => mret tt
  | None :: t2' => destroy_level2 root (i + 1) t1 t2'
  | Some _ :: t2' =>
      serr ← sel4 (CNode_Delete root i (CSPACE_DEPTH - CSPACE_NODE_SIZE_IN_SLOTS_BITS));
      _ ← sel4_error serr;
      addr ← liftC (rd t1 i);
      _ ← ut_freeC addr CSPACE_NODE_SIZE_IN_MEM_BITS;
      destroy_level2 root (i + 1) t1 t2'
  end.

Definition cspace_destroy (p : Z) : CS Z :=
  cur ← cur_cspace;
  _ ← assertC (negb (cur =? p));
  _ ← assertC (negb (cur =? 0));
  c ← load_cs p;
  _ ← (if cs_levels c =? 2 then destroy_level2 (cs_root_cnode c) 0 (cs_table1 c) (cs_table2 c)
       else mret tt);
  _ ← cspace_delete_cap cur (cs_root_cnode c);
  _ ← ut_freeC (cs_addr c) CSPACE_NODE_SIZE_IN_MEM_BITS;
  _ ← free_cs p;
  mret CSPACE_NOERROR.

(** * The first cspace *)

(** The level-2 nodes from index [i] on; their addresses go into the table. *)
Fixpoint boot_nodes (n : nat) (level1_cptr i : Z) (t1 : list Z) : CS (list Z) :=
  match n with
  | O => mret t1
  | S n' =>
      addr ← ut_allocC CSPACE_NODE_SIZE_IN_MEM_BITS;
      _ ← assertC (negb (addr =? 0));
      '(ut_cptr, offset) ← translated addr;
      t1 ← liftC (wr t1 i addr);
      err ← sel4 (Untyped_RetypeAtOffset ut_cptr seL4_CapTableObject offset
                    CSPACE_NODE_SIZE_IN_SLOTS_BITS seL4_CapInitThreadCNode level1_cptr
                    CSPACE_DEPTH i);
      _ ← sel4_error err;
      boot_nodes n' level1_cptr (i + 1) t1
  end.

(** The capabilities of the boot cspace from [i] on are moved to the new one. *)
Fixpoint boot_moves (n : nat) (i : Z) : CS unit :=
  match n with
  | O => mret tt
  | S n' =>
      _ ← (if (i =? seL4_CapInitThreadCNode) || (i =? seL4_CapIPI) || (i =? seL4_CapIOPort) ||
              (i =? seL4_CapIOSpace) || (i =? seL4_CapArchBootInfoFrame)
           then mret tt
           else
             err ← sel4 (CNode_Move seL4_CapInitThreadCNode i 0 i);
             sel4_error err);
      boot_moves n' (i + 1)
  end.

(** The slots that are in use get the entry 0; a table is made at the first slot
    of every node.  The result has the index of the last node. *)
Fixpoint boot_used (n : nat) (j i : Z) (t2 : list (option (list Z))) :
    CS (Z * list (option (list Z))) :=
  match n with
  | O => mret (i, t2)
  | S n' =>
      '(i, t2) ← (if CSPACE_LEAF_OFFSET j =? 0 then
                    block ← mallocC;
                    match block with
                    | None => liftC (Fault AssertFail)
                    | Some b =>
                        let i := Z.shiftr j CSPACE_NODE_SIZE_IN_SLOTS_BITS in
                        t2 ← liftC (wr t2 i (Some b));
                        mret (i, t2)
                    end
                  else mret (i, t2));
      t2 ← liftC (set_entry t2 i (CSPACE_LEAF_OFFSET j) 0);
      boot_used n' (j + 1) i t2
  end.

(** The remaining slots of the last node form the free list. *)
Fixpoint boot_free (fuel : nat) (j i : Z) (t2 : list (option (list Z))) :
    outcome (list (option (list Z))) :=
  match fuel with
  | O => Fault OutOfFuel
  | S fuel' =>
      if CSPACE_LEAF_OFFSET j <? CSPACE_NODE_SIZE_IN_SLOTS - 1 then
        t2 ← set_entry t2 i (CSPACE_LEAF_OFFSET j) (j + 1);
        boot_free fuel' (j + 1) i t2
      else set_entry t2 i (CSPACE_LEAF_OFFSET j) CSPACE_NULL
  end.

(** [start] and [end_] are the empty slots of the boot cspace. *)
Definition cspace_root_task_bootstrap (start end_ : Z) : CS Z :=
  _ ← assertC (2 <=? u32 (end_ - start));
  block ← mallocC;
  _ ← assertC (bool_decide (is_Some block));
  addr ← ut_allocC CSPACE_NODE_SIZE_IN_MEM_BITS;
  _ ← assertC (negb (addr =? 0));
  '(ut_cptr, offset) ← translated addr;
  err ← sel4 (Untyped_RetypeAtOffset ut_cptr seL4_CapTableObject offset
                CSPACE_NODE_SIZE_IN_SLOTS_BITS seL4_CapInitThreadCNode seL4_CapInitThreadCNode
                CSPACE_DEPTH start);
  _ ← sel4_error err;
  let nodes := Z.shiftr (u32 (start - 1)) CSPACE_NODE_SIZE_IN_SLOTS_BITS + 1 in
  t1 ← boot_nodes (Z.to_nat nodes) start 0 level1_list;
  err ← sel4 (CNode_Copy start 0 (2 * CSPACE_NODE_SIZE_IN_SLOTS_BITS) seL4_CapInitThreadCNode
                seL4_CapInitThreadCNode seL4_AllRights);
  _ ← sel4_error err;
  let guard := seL4_CapData_Guard_new 0 CSPACE_TWO_LEVEL_SKIP_BITS in
  err ← sel4 (CNode_Mint start seL4_CapInitThreadCNode (2 * CSPACE_NODE_SIZE_IN_SLOTS_BITS)
                seL4_CapInitThreadCNode start seL4_AllRights guard);
  _ ← sel4_error err;
  err ← sel4 (TCB_SetSpace seL4_CapInitThreadTCB start guard seL4_CapInitThreadPD);
  _ ← sel4_error err;
  _ ← boot_moves (Z.to_nat (start - 1)) 1;
  err ← sel4 (CNode_Delete seL4_CapInitThreadCNode 0 CSPACE_DEPTH);
  _ ← sel4_error err;
  '(i, t2) ← boot_used (Z.to_nat start) 0 0 no_tables;
  t2 ← liftC (boot_free (Z.to_nat CSPACE_NODE_SIZE_IN_SLOTS) start i t2);
  space ← new_cs (mk_cspace 2 seL4_CapInitThreadCNode guard addr nodes (i32 start)
                    (CSPACE_NODE_SIZE_IN_SLOTS - CSPACE_LEAF_OFFSET start) t1 t2);
  _ ← set_cur_cspace space;
  mret CSPACE_NOERROR.
End cspace.

Arguments CS W A : clear implicits.

(** * SOS as the user of the library *)

(** [main] passes [ut_alloc], [ut_free] and [ut_translate]; malloc and seL4 answer
    from the environment: [sw_malloc] gives the words of a new table. *)
Record sos_world : Type := mk_sos_world {
  sw_ut : ut_state;
  sw_table : ut_table;
  sw_malloc : nat → option (nat → Z);
  sw_sel4 : nat → Z;
  sw_tick : nat;
  sw_calls : list cap_call
}.

#[export] Instance sos_cspace_world : cspace_world sos_world := {
  w_ut_alloc sizebits w :=
    '(a, u) ← ut_alloc (sw_ut w) sizebits;
    Ret (a, mk_sos_world u (sw_table w) (sw_malloc w) (sw_sel4 w) (sw_tick w) (sw_calls w));
  w_ut_free addr sizebits w :=
    u ← ut_free (sw_ut w) addr sizebits;
    Ret (mk_sos_world u (sw_table w) (sw_malloc w) (sw_sel4 w) (sw_tick w) (sw_calls w));
  w_ut_translate addr w := ut_translate (sw_table w) addr;
  w_malloc w :=
    ((λ word, word <$> seq 0 (Z.to_nat CSPACE_NODE_SIZE_IN_SLOTS)) <$> sw_malloc w (sw_tick w),
     mk_sos_world (sw_ut w) (sw_table w) (sw_malloc w) (sw_sel4 w) (S (sw_tick w)) (sw_calls w));
  w_sel4 k w :=
    (sw_sel4 w (sw_tick w),
     mk_sos_world (sw_ut w) (sw_table w) (sw_malloc w) (sw_sel4 w) (S (sw_tick w))
       (sw_calls w ++ [k]))
}.

#[export] Instance sos_malloc_sized : malloc_sized sos_world.
Proof.
  intros w b w' E. cbn [w_malloc sos_cspace_world] in E. destruct (sw_malloc w (sw_tick w)) as [f |]; [| done].
  assert (b = f <$> seq 0 (Z.to_nat CSPACE_NODE_SIZE_IN_SLOTS)) as -> by (cbn [fmap option_fmap option_map] in E; congruence).
  unfold Zlength. by rewrite length_fmap, length_seq.
Qed.
