(* ===== verification/CspaceInv.v ===== *)
(** The slot allocator hands out free slots.

    The free slots of a cspace are the list that its links spell out.  Allocating
    takes the head of the list, or the slots of a new node when the list is empty
    and the cspace has two levels; freeing puts a slot in front.  So a slot is not
    handed out again before it is freed.  [cspace_create] makes a cspace in such a
    state, and so does [cspace_root_task_bootstrap] unless the empty slots of the
    boot cspace start at the beginning of a node. *)

From S2P Require Import Prelude UtAllocator UtTable Cspace.

(** * Linked lists in arrays *)

Fixpoint chain (next : Z → option Z) (stop h : Z) (l : list Z) : Prop :=
  match l with
  | [] => h = stop
  | x :: l' => h = x ∧ x ≠ stop ∧ ∃ n, next x = Some n ∧ chain next stop n l'
  end.

Lemma chain_ext next next' stop h l :
  (∀ x, x ∈ l → next' x = next x) → chain next stop h l → chain next' stop h l.
Proof.
  revert h. induction l as [|x l IH]; intros h Hn; [done |]. intros (-> & Hx & n & E & Hc).
  split_and!; [done.. |]. exists n. split; [by rewrite Hn by left |].
  apply IH; [| done]. intros y Hy. apply Hn. by right.
Qed.

(** * The entries of the tables *)

Definition next1 (c : cspace) (i : Z) : option Z := i32 <$> cs_table1 c !! Z.to_nat i.

Definition next2 (c : cspace) (s : Z) : option Z :=
  match level2_entry c s with
  | Ret n => Some (i32 n)
  | Fault _ => None
  end.

(** The node of a slot has been allocated. *)
Definition has_table (c : cspace) (s : Z) : Prop :=
  ∃ t, cs_table2 c !! Z.to_nat (s / 1024) = Some (Some t) ∧ length t = 1024%nat.

Lemma slot_node s : Z.shiftr s CSPACE_NODE_SIZE_IN_SLOTS_BITS = s / 1024.
Proof. by rewrite Z.shiftr_div_pow2. Qed.

Lemma slot_offset s : CSPACE_LEAF_OFFSET s = s mod 1024.
Proof. unfold CSPACE_LEAF_OFFSET, CSPACE_NODE_SIZE_IN_SLOTS. change (1024 - 1) with (Z.ones 10). by rewrite Z.land_ones. Qed.

Lemma rd_lookup {A : Type} (l : list A) i a : 0 ≤ i → l !! Z.to_nat i = Some a → rd l i = Ret a.
Proof. intros Hi E. unfold rd. rewrite decide_True by done. by rewrite E. Qed.

Lemma level2_entry_eq c s t n :
  0 ≤ s → cs_table2 c !! Z.to_nat (s / 1024) = Some (Some t) → t !! Z.to_nat (s mod 1024) = Some n →
  level2_entry c s = Ret n.
Proof.
  intros Hs Ht Hn. unfold level2_entry. rewrite slot_node, slot_offset.
  rewrite (rd_lookup _ _ (Some t)) by (try done; apply Z.div_pos; lia). cbn [mbind outcome_bind deref].
  apply rd_lookup; [apply Z.mod_pos_bound; lia | done].
Qed.

Lemma level2_entry_ext c c' s :
  0 ≤ s → cs_table2 c' !! Z.to_nat (s / 1024) = cs_table2 c !! Z.to_nat (s / 1024) →
  level2_entry c' s = level2_entry c s.
Proof.
  intros Hs E. unfold level2_entry. rewrite slot_node.
  assert (rd (cs_table2 c') (s / 1024) = rd (cs_table2 c) (s / 1024)) as -> by (unfold rd; by rewrite E).
  done.
Qed.

Lemma has_table_entry c s : 0 ≤ s → has_table c s → ∃ n, level2_entry c s = Ret n.
Proof.
  intros Hs (t & Ht & Hl). assert (is_Some (t !! Z.to_nat (s mod 1024))) as [n Hn].
  { apply lookup_lt_is_Some. pose proof (Z.mod_pos_bound s 1024). lia. }
  exists n. by eapply level2_entry_eq.
Qed.

(** Writing the entry of a slot. *)
Lemma set_level2_entry_eq c s v :
  0 ≤ s → length (cs_table2 c) = 1024%nat → s < 2 ^ 20 → has_table c s →
  ∃ t2, set_level2_entry c s v = Ret (set_cs_table2 t2 c) ∧ length t2 = 1024%nat ∧
    (∀ i, (∃ t, t2 !! i = Some (Some t) ∧ length t = 1024%nat) ↔
          ∃ t, cs_table2 c !! i = Some (Some t) ∧ length t = 1024%nat) ∧
    (∀ i, t2 !! i = Some None ↔ cs_table2 c !! i = Some None) ∧
    level2_entry (set_cs_table2 t2 c) s = Ret v ∧
    (∀ s', 0 ≤ s' → s' ≠ s → level2_entry (set_cs_table2 t2 c) s' = level2_entry c s').
Proof.
  intros Hs Hl Hs2 (t & Ht & Hlt). pose proof (Z.mod_pos_bound s 1024 ltac:(lia)) as Hm.
  assert (0 ≤ s / 1024 < 1024) as Hd by (split; [apply Z.div_pos; lia | apply Z.div_lt_upper_bound; lia]).
  set (i := Z.to_nat (s / 1024)) in *. set (k := Z.to_nat (s mod 1024)) in *.
  exists (<[i := Some (<[k := v]> t)]> (cs_table2 c)).
  assert (i < length (cs_table2 c))%nat as Hi by (apply lookup_lt_Some in Ht; lia).
  split_and!.
  - unfold set_level2_entry, set_entry. rewrite slot_node, slot_offset.
    rewrite (rd_lookup _ _ (Some t)) by (done || lia). cbn [mbind outcome_bind deref].
    rewrite wr_in by (unfold Zlength; lia). cbn [mbind outcome_bind].
    by rewrite wr_in by (unfold Zlength; lia).
  - by rewrite length_insert.
  - intros j. destruct (decide (j = i)) as [-> | Hj]; [| by rewrite list_lookup_insert_ne].
    rewrite list_lookup_insert_eq by done. split; intros _; eauto.
    exists (<[k := v]> t). by rewrite length_insert.
  - intros j. destruct (decide (j = i)) as [-> | Hj]; [| by rewrite list_lookup_insert_ne].
    rewrite list_lookup_insert_eq by done. by rewrite Ht.
  - eapply level2_entry_eq; [done | cbn [cs_table2 set_cs_table2]; by apply list_lookup_insert_eq |].
    apply list_lookup_insert_eq. lia.
  - intros s' Hs' Hne. destruct (decide (s' / 1024 = s / 1024)) as [E | E].
    + assert (Z.to_nat (s' mod 1024) ≠ k) as Hk.
      { intros Ek. apply Hne. pose proof (Z.mod_pos_bound s' 1024 ltac:(lia)).
        rewrite (Z.div_mod s' 1024), (Z.div_mod s 1024) by lia. lia. }
      unfold level2_entry. rewrite slot_node, slot_offset, E. fold i.
      rewrite (rd_lookup _ _ (Some (<[k := v]> t))) by (lia || (cbn [cs_table2 set_cs_table2]; by apply list_lookup_insert_eq)).
      rewrite (rd_lookup (cs_table2 c) _ (Some t)) by (lia || done). cbn [mbind outcome_bind deref].
      unfold rd. by rewrite list_lookup_insert_ne by done.
    + apply level2_entry_ext; [done |]. cbn [cs_table2 set_cs_table2]. apply list_lookup_insert_ne.
      assert (0 ≤ s' / 1024) by (apply Z.div_pos; lia). lia.
Qed.

(** * Representation *)

(** The free slots of a cspace with one level. *)
Record rep1 (c : cspace) (F : list Z) : Prop := {
  r1_levels : cs_levels c = 1;
  r1_num : cs_num c = Zlength F;
  r1_len : length (cs_table1 c) = 1024%nat;
  r1_chain : chain (next1 c) CSPACE_NOSLOT (cs_next1 c) F;
  r1_nodup : NoDup F;
  r1_range : Forall (λ s, 0 < s < 1024) F
}.

(** The free slots of a cspace with two levels, and the indices for new nodes. *)
Record rep2 (c : cspace) (F G : list Z) : Prop := {
  r2_levels : cs_levels c = 2;
  r2_num : cs_num c = Zlength F;
  r2_len1 : length (cs_table1 c) = 1024%nat;
  r2_len2 : length (cs_table2 c) = 1024%nat;
  r2_chain1 : chain (next1 c) CSPACE_NOSLOT (cs_next1 c) G;
  r2_nodup1 : NoDup G;
  r2_range1 : Forall (λ g, 0 < g < 1024 ∧ cs_table2 c !! Z.to_nat g = Some None) G;
  r2_chain2 : chain (next2 c) CSPACE_NULL (cs_next2 c) F;
  r2_nodup2 : NoDup F;
  r2_range2 : Forall (λ s, 0 < s < 2 ^ 20 ∧ has_table c s) F
}.

Lemma chain_head next stop h x l : chain next stop h (x :: l) → h = x ∧ ∃ n, next x = Some n ∧ chain next stop n l.
Proof. intros (-> & _ & n & E & H). split; [done |]. by exists n. Qed.

Lemma Zlength_length {A : Type} (l : list A) n : length l = n → Zlength l = Z.of_nat n.
Proof. by intros <-. Qed.

Lemma slots_few (F : list Z) k : NoDup F → 0 ≤ k → Forall (λ x, 0 < x < k) F → Zlength F ≤ k.
Proof.
  intros Hd Hk Hr. assert (F ⊆ seqZ 0 k) as Hsub.
  { intros x Hx. apply elem_of_seqZ. rewrite Forall_forall in Hr. specialize (Hr x Hx). lia. }
  pose proof (submseteq_length _ _ (NoDup_submseteq _ _ Hd Hsub)) as H. rewrite length_seqZ in H.
  unfold Zlength. lia.
Qed.

(** * One level *)

Lemma alloc1_eq c s F :
  rep1 c (s :: F) →
  ∃ c', cspace_alloc_level1_index (set_cs_num (cs_num c - 1) c) = Ret (s, c') ∧ rep1 c' F.
Proof.
  intros [Hv Hn Hl Hc Hd Hr]. apply chain_head in Hc as (Hh & n & En & Hc).
  apply NoDup_cons in Hd as [_ Hd]. apply Forall_cons in Hr as [Hs Hr].
  unfold cspace_alloc_level1_index. cbn [cs_next1 set_cs_num]. rewrite Hh.
  rewrite c_assert_true by (apply negb_true_iff, Z.eqb_neq; unfold CSPACE_NOSLOT; lia). cbn [mbind outcome_bind].
  unfold next1 in En. destruct (cs_table1 c !! Z.to_nat s) as [v |] eqn:Ev; [| done]. injection En as <-.
  cbn [cs_table1 set_cs_num]. rewrite (rd_lookup _ _ v) by (lia || done). cbn [mbind outcome_bind].
  eexists. split; [done |]. split; try done. cbn [cs_num set_cs_next1 set_cs_num].
  rewrite Hn, Zlength_cons. lia.
Qed.

Lemma free1_eq c s F :
  rep1 c F → 0 < s < 1024 → s ∉ F →
  ∃ c', cspace_free_level1_index (set_cs_num (u32 (cs_num c + 1)) c) s = Ret c' ∧ rep1 c' (s :: F).
Proof.
  intros [Hv Hn Hl Hc Hd Hr] Hs Hin. unfold cspace_free_level1_index, CSPACE_NODE_SIZE_IN_SLOTS.
  rewrite c_assert_true by (apply andb_true_intro; split; [apply Z.leb_le | apply Z.ltb_lt]; lia).
  cbn [mbind outcome_bind cs_table1 cs_next1 set_cs_num].
  rewrite wr_in by (rewrite (Zlength_length _ _ Hl); lia). cbn [mbind outcome_bind].
  eexists. split; [done |].
  assert (Zlength F < 2 ^ 32 - 1) as Hlen.
  { pose proof (slots_few F 1024 Hd ltac:(lia) Hr). lia. }
  split; cbn [cs_levels cs_num cs_table1 cs_next1 set_cs_next1 set_cs_table1 set_cs_num]; try done.
  - rewrite Hn, Zlength_cons. pose proof (Zlength_nonneg F). rewrite u32_small; lia.
  - by rewrite length_insert.
  - split_and!; [done | unfold CSPACE_NOSLOT; lia |]. exists (cs_next1 c). split.
    + unfold next1. cbn [cs_table1 set_cs_next1 set_cs_table1 set_cs_num].
      rewrite list_lookup_insert_eq by lia. cbn. f_equal.
      assert (cs_next1 c = -1 ∨ 0 < cs_next1 c < 1024) as [-> | Hx]; [| reflexivity |].
      { destruct F as [|x F]; [by left |]. right. apply chain_head in Hc as [-> _]. by apply Forall_cons in Hr as []. }
      rewrite u32_small by lia. by rewrite i32_small by lia.
    + eapply chain_ext; [| exact Hc]. intros x Hx. unfold next1.
      cbn [cs_table1 set_cs_next1 set_cs_table1 set_cs_num]. rewrite list_lookup_insert_ne; [done |].
      rewrite Forall_forall in Hr. specialize (Hr x Hx). intros E. apply Hin.
      assert (s = x) as -> by lia. done.
  - by apply NoDup_cons.
  - by apply Forall_cons.
Qed.

(** * Two levels *)

Lemma has_table_ext c c' s : cs_table2 c' = cs_table2 c → has_table c s → has_table c' s.
Proof. unfold has_table. by intros ->. Qed.

(** The head of the list. *)
Lemma take2_eq c s F G :
  rep2 c (s :: F) G →
  ∃ n, u32 (cs_next2 c) = s ∧ level2_entry c s = Ret n ∧
    rep2 (set_cs_num (u32 (cs_num c - 1)) (set_cs_next2 (i32 n) c)) F G.
Proof.
  intros [Hv Hn Hl1 Hl2 Hc1 Hd1 Hr1 Hc2 Hd2 Hr2]. apply chain_head in Hc2 as (Hh & n & En & Hc2).
  apply NoDup_cons in Hd2 as [_ Hd2]. apply Forall_cons in Hr2 as [[Hs _] Hr2].
  unfold next2 in En. destruct (level2_entry c s) as [v |] eqn:Ev; [| done]. injection En as <-.
  exists v. rewrite Hh, u32_small by lia. split_and!; [done.. |]. split; try done.
  cbn [cs_num set_cs_num set_cs_next2]. rewrite Hn, Zlength_cons. pose proof (Zlength_nonneg F).
  assert (Zlength F < 2 ^ 32 - 1) as Hlen.
  { assert (Forall (λ x, 0 < x < 2 ^ 20) F) as Hr' by (eapply Forall_impl; [exact Hr2 |]; by intros x []).
    pose proof (slots_few F (2 ^ 20) Hd2 ltac:(lia) Hr'). lia. }
  rewrite u32_small; lia.
Qed.

Lemma free2_eq c s F G :
  rep2 c F G → 0 < s < 2 ^ 20 → has_table c s → s ∉ F →
  ∃ c', cspace_free_level2_slot c s = Ret c' ∧ rep2 c' (s :: F) G ∧ ∀ x, has_table c' x ↔ has_table c x.
Proof.
  intros [Hv Hn Hl1 Hl2 Hc1 Hd1 Hr1 Hc2 Hd2 Hr2] Hs Ht Hin.
  unfold cspace_free_level2_slot, CSPACE_NODE_SIZE_IN_SLOTS.
  rewrite c_assert_true by (apply andb_true_intro; split; [apply Z.leb_le | apply Z.ltb_lt]; lia).
  cbn [mbind outcome_bind].
  destruct (set_level2_entry_eq c s (u32 (cs_next2 c))) as (t2 & E & Hlt & Htab & Hnone & Ent & Eoth);
    [lia | done | lia | done |].
  rewrite E. cbn [mbind outcome_bind]. eexists. split; [done |].
  assert (∀ x, has_table (set_cs_num (u32 (cs_num (set_cs_table2 t2 c) + 1))
            (set_cs_next2 (i32 s) (set_cs_table2 t2 c))) x ↔ has_table c x) as Htabs.
  { intros x. unfold has_table. cbn [cs_table2 set_cs_num set_cs_next2 set_cs_table2]. apply Htab. }
  split; [| done].
  assert (Zlength F < 2 ^ 32 - 1) as Hlen.
  { assert (Forall (λ x, 0 < x < 2 ^ 20) F) as Hr' by (eapply Forall_impl; [exact Hr2 |]; by intros x []).
    pose proof (slots_few F (2 ^ 20) Hd2 ltac:(lia) Hr'). lia. }
  split; cbn [cs_levels cs_num cs_table1 cs_table2 cs_next1 cs_next2 set_cs_next2 set_cs_num set_cs_table2]; try done.
  - rewrite Hn, Zlength_cons. pose proof (Zlength_nonneg F). rewrite u32_small; lia.
  - eapply Forall_impl; [exact Hr1 |]. intros g [Hg Hg']. split; [done |]. by apply Hnone.
  - rewrite i32_small by lia. split_and!; [done | unfold CSPACE_NULL; lia |]. exists (cs_next2 c). split.
    + unfold next2. rewrite (level2_entry_ext (set_cs_table2 t2 c)) by (done || lia). rewrite Ent. f_equal.
      assert (0 ≤ cs_next2 c < 2 ^ 20) as Hx.
      { destruct F as [|x F]; [by rewrite Hc2 |]. apply chain_head in Hc2 as [-> _]. apply Forall_cons in Hr2 as [[] _]. lia. }
      rewrite u32_small by lia. by rewrite i32_small by lia.
    + eapply chain_ext; [| exact Hc2]. intros x Hx. rewrite Forall_forall in Hr2. destruct (Hr2 x Hx) as [Hxr _].
      unfold next2. rewrite (level2_entry_ext (set_cs_table2 t2 c)) by (done || lia).
      rewrite Eoth; [done | lia | by intros ->].
  - by apply NoDup_cons.
  - apply Forall_cons. split; [split; [done | by apply Htabs] |].
    eapply Forall_impl; [exact Hr2 |]. intros x [Hx Hx']. split; [done | by apply Htabs].
Qed.

(** * New nodes *)

(** A list that runs through consecutive slots. *)
Lemma chain_seq next stop base n :
  0 < n → (∀ k, base ≤ k < base + n - 1 → next k = Some (k + 1)) → next (base + n - 1) = Some stop →
  (∀ k, base ≤ k < base + n → k ≠ stop) → chain next stop base (seqZ base n).
Proof.
  intros Hn. revert base. replace n with (Z.of_nat (S (Z.to_nat (n - 1)))) by lia.
  clear Hn. induction (Z.to_nat (n - 1)) as [|m IH]; intros base Hk Hl Hs.
  - cbn. split_and!; [done | apply Hs; lia |]. exists stop. split; [| done].
    rewrite <- Hl. f_equal. lia.
  - rewrite seqZ_cons by lia. split_and!; [done | apply Hs; lia |]. exists (base + 1).
    split; [apply Hk; lia |]. replace (Z.succ base) with (base + 1) by lia.
    replace (Z.pred (Z.of_nat (S (S m)))) with (Z.of_nat (S m)) by lia. apply IH.
    + intros k Hk'. apply Hk. lia.
    + rewrite <- Hl. f_equal. lia.
    + intros k Hk'. apply Hs. lia.
Qed.

Lemma length_node_list base : length (node_list base) = 1024%nat.
Proof. unfold node_list. by rewrite length_app, length_fmap, length_seq. Qed.

Lemma node_list_next base k :
  0 ≤ base → base + 1024 < 2 ^ 32 → 0 ≤ k < 1023 → node_list base !! Z.to_nat k = Some (base + k + 1).
Proof.
  intros Hb Hb' Hk. unfold node_list. change (Z.to_nat CSPACE_NODE_SIZE_IN_SLOTS - 1)%nat with 1023%nat.
  rewrite lookup_app_l by (rewrite length_fmap, length_seq; lia).
  rewrite list_lookup_fmap, lookup_seq_lt by lia. cbn. f_equal.
  replace (base + Z.of_nat (Z.to_nat k) + 1) with (base + k + 1) by lia. apply u32_small. lia.
Qed.

Lemma node_list_last base : node_list base !! 1023%nat = Some CSPACE_NULL.
Proof.
  unfold node_list. change (Z.to_nat CSPACE_NODE_SIZE_IN_SLOTS - 1)%nat with 1023%nat.
  rewrite lookup_app_r by (rewrite length_fmap, length_seq; lia). by rewrite length_fmap, length_seq.
Qed.

(** The list of a node that has just been made. *)
Lemma node_chain c g n :
  0 < g < 1024 ∨ g = 0 ∧ n < 1024 → 0 < n ≤ 1024 →
  cs_table2 c !! Z.to_nat g = Some (Some (node_list (1024 * g))) →
  chain (next2 c) CSPACE_NULL (1024 * g + 1024 - n) (seqZ (1024 * g + 1024 - n) n).
Proof.
  intros Hg Hn Ht.
  assert (∀ k, 1024 * g ≤ k < 1024 * g + 1024 → k / 1024 = g ∧ k mod 1024 = k - 1024 * g) as Hdiv by (intros; divmod).
  apply chain_seq; [lia | | |].
  - intros k Hk. destruct (Hdiv k) as [Ed Em]; [lia |]. unfold next2.
    rewrite (level2_entry_eq c k (node_list (1024 * g)) (k + 1)); [| lia | by rewrite Ed |].
    + by rewrite i32_small by lia.
    + rewrite Em, node_list_next by lia. f_equal. lia.
  - destruct (Hdiv (1024 * g + 1023)) as [Ed Em]; [lia |].
    replace (1024 * g + 1024 - n + n - 1) with (1024 * g + 1023) by lia. unfold next2.
    rewrite (level2_entry_eq c _ (node_list (1024 * g)) CSPACE_NULL); [done | lia | by rewrite Ed |].
    rewrite Em. replace (1024 * g + 1023 - 1024 * g) with 1023 by lia. apply node_list_last.
  - unfold CSPACE_NULL. lia.
Qed.

(** * Runs of the library *)

Section runs.
Context {W : Type} `{!cspace_world W}.
Implicit Types (st : cspaces W).

Lemma CS_bind_Ret {A B : Type} (m : CS W A) (k : A → CS W B) st b st' :
  (m ≫= k) st = Ret (b, st') → ∃ a st1, m st = Ret (a, st1) ∧ k a st1 = Ret (b, st').
Proof. unfold mbind, CS_bind. destruct (m st) as [[a st1] |]; [| done]. eauto. Qed.

Lemma CS_bind_eq {A B : Type} (m : CS W A) (k : A → CS W B) st a st1 :
  m st = Ret (a, st1) → (m ≫= k) st = k a st1.
Proof. unfold mbind, CS_bind. by intros ->. Qed.

Lemma liftC_Ret {A : Type} (o : outcome A) st a st' : liftC o st = Ret (a, st') → o = Ret a ∧ st' = st.
Proof. unfold liftC. destruct o; [| done]. by intros [= -> ->]. Qed.

Lemma liftC_eq {A : Type} (o : outcome A) st a : o = Ret a → liftC o st = Ret (a, st).
Proof. by intros ->. Qed.

Lemma assertC_eq b st : b = true → assertC b st = Ret (tt, st).
Proof. by intros ->. Qed.

(** Nothing but the world has changed. *)
Definition same_heap st st' : Prop :=
  sp_heap st' = sp_heap st ∧ sp_cur st' = sp_cur st ∧ sp_next st' = sp_next st.

Lemma same_heap_refl st : same_heap st st.
Proof. done. Qed.

Lemma same_heap_trans st1 st2 st3 : same_heap st1 st2 → same_heap st2 st3 → same_heap st1 st3.
Proof. unfold same_heap. intuition congruence. Qed.

Lemma ut_alloc_heap n st a st' : ut_allocC n st = Ret (a, st') → same_heap st st'.
Proof. unfold ut_allocC. destruct (w_ut_alloc n (sp_world st)) as [[x w] |]; [| done]. by intros [= <- <-]. Qed.

Lemma translated_heap a st r st' : translated a st = Ret (r, st') → st' = st.
Proof.
  unfold translated, ut_translateC, mbind, CS_bind.
  destruct (w_ut_translate a (sp_world st)) as [[x |] |]; cbn; [| done..]. by intros [= <- <-].
Qed.

Lemma sel4_heap k st e st' : sel4 k st = Ret (e, st') → same_heap st st'.
Proof. unfold sel4. destruct (w_sel4 k (sp_world st)). by intros [= <- <-]. Qed.

Lemma malloc_heap st b st' : mallocC st = Ret (b, st') → same_heap st st'.
Proof. unfold mallocC. destruct (w_malloc (sp_world st)). by intros [= <- <-]. Qed.

(** Level 1 gives the head of its list. *)
Lemma alloc_level1_rep2 c F g G :
  rep2 c F (g :: G) →
  ∃ n, cspace_alloc_level1_index c = Ret (g, set_cs_next1 n c) ∧ chain (next1 c) CSPACE_NOSLOT n G.
Proof.
  intros [Hv Hn Hl1 Hl2 Hc1 Hd1 Hr1 Hc2 Hd2 Hr2]. apply chain_head in Hc1 as (Hh & n & En & Hc1).
  apply Forall_cons in Hr1 as [[Hg _] _]. unfold cspace_alloc_level1_index. rewrite Hh.
  rewrite c_assert_true by (apply negb_true_iff, Z.eqb_neq; unfold CSPACE_NOSLOT; lia). cbn [mbind outcome_bind].
  unfold next1 in En. destruct (cs_table1 c !! Z.to_nat g) as [v |] eqn:Ev; [| done]. injection En as <-.
  rewrite (rd_lookup _ _ v) by (lia || done). cbn [mbind outcome_bind]. by exists (i32 v).
Qed.

(** The cspace with the new node [g], whose address is [v]. *)
Definition grown (c : cspace) (g v n : Z) : cspace :=
  set_cs_next2 (i32 (Z.shiftl g CSPACE_NODE_SIZE_IN_SLOTS_BITS))
    (set_cs_num CSPACE_NODE_SIZE_IN_SLOTS
       (set_cs_table2 (<[Z.to_nat g := Some (node_list (1024 * g))]> (cs_table2 c))
          (set_cs_table1 (<[Z.to_nat g := v]> (cs_table1 c)) (set_cs_next1 n c)))).

Lemma grown_rep c g G v n :
  rep2 c [] (g :: G) → chain (next1 c) CSPACE_NOSLOT n G →
  rep2 (grown c g v n) (seqZ (1024 * g) 1024) G ∧
  ∀ x, 0 ≤ x → has_table (grown c g v n) x ↔ x / 1024 = g ∨ has_table c x.
Proof.
  intros [Hv Hn Hl1 Hl2 Hc1 Hd1 Hr1 Hc2 Hd2 Hr2] Hc. apply NoDup_cons in Hd1 as [Hg Hd1].
  apply Forall_cons in Hr1 as [[Hgr Hgt] Hr1]. unfold grown.
  assert (cs_table2 (grown c g v n) !! Z.to_nat g = Some (Some (node_list (1024 * g)))) as Ht
    by (apply list_lookup_insert_eq; lia).
  assert (∀ x, 0 ≤ x → has_table (grown c g v n) x ↔ x / 1024 = g ∨ has_table c x) as Htab.
  { intros x Hx. assert (0 ≤ x / 1024) by (apply Z.div_pos; lia).
    destruct (decide (x / 1024 = g)) as [<- | E].
    - split; [by left |]. intros _. exists (node_list (1024 * (x / 1024))). split; [done | apply length_node_list].
    - unfold has_table. cbn [cs_table2 grown set_cs_next2 set_cs_num set_cs_table2].
      rewrite list_lookup_insert_ne by lia. tauto. }
  split; [| done].
  split; cbn [cs_levels cs_num cs_table1 cs_table2 cs_next1 cs_next2 set_cs_next1 set_cs_next2 set_cs_num
              set_cs_table1 set_cs_table2]; try done.
  - by rewrite length_insert.
  - by rewrite length_insert.
  - eapply chain_ext; [| exact Hc]. intros x Hx. unfold next1.
    cbn [cs_table1 set_cs_next1 set_cs_next2 set_cs_num set_cs_table1 set_cs_table2].
    rewrite list_lookup_insert_ne; [done |]. rewrite Forall_forall in Hr1. destruct (Hr1 x Hx). intros E.
    apply Hg. by replace g with x by lia.
  - apply Forall_forall. intros x Hx. rewrite Forall_forall in Hr1. destruct (Hr1 x Hx) as [Hxr Hxt].
    split; [done |]. rewrite list_lookup_insert_ne; [done |]. intros E. apply Hg. by replace g with x by lia.
  - rewrite Z.shiftl_mul_pow2 by done. change (2 ^ CSPACE_NODE_SIZE_IN_SLOTS_BITS) with 1024.
    rewrite i32_small by lia. replace (g * 1024) with (1024 * g + 1024 - 1024) by lia.
    replace (1024 * g) with (1024 * g + 1024 - 1024) at 4 by lia. apply node_chain; [by left | lia | exact Ht].
  - apply NoDup_seqZ.
  - apply Forall_forall. intros x Hx. apply elem_of_seqZ in Hx. split; [lia |].
    exists (node_list (1024 * g)). replace (x / 1024) with g by divmod. split; [exact Ht | apply length_node_list].
Qed.

Lemma grow_rep c g G st c' st' :
  rep2 c [] (g :: G) → grow_level2 c st = Ret (c', st') →
  rep2 c' (seqZ (1024 * g) 1024) G ∧ (∀ x, 0 ≤ x → has_table c' x ↔ x / 1024 = g ∨ has_table c x) ∧
  same_heap st st'.
Proof.
  intros Hrep E. destruct (alloc_level1_rep2 _ _ _ _ Hrep) as (n & E1 & Hc).
  pose proof (r2_len1 _ _ _ Hrep) as Hl1. pose proof (r2_len2 _ _ _ Hrep) as Hl2.
  pose proof (r2_range1 _ _ _ Hrep) as Hr1. apply Forall_cons in Hr1 as [[Hg _] _].
  unfold grow_level2 in E. erewrite CS_bind_eq in E by (apply liftC_eq; exact E1).
  apply CS_bind_Ret in E as ([] & s1 & H1 & E). apply liftC_Ret in H1 as [_ ->].
  apply CS_bind_Ret in E as (v & s2 & H2 & E). apply ut_alloc_heap in H2.
  apply CS_bind_Ret in E as ([] & s3 & H3 & E). apply liftC_Ret in H3 as [_ ->].
  apply CS_bind_Ret in E as ([cptr off] & s4 & H4 & E). apply translated_heap in H4 as ->.
  apply CS_bind_Ret in E as (t1 & s5 & H5 & E). apply liftC_Ret in H5 as [H5 ->].
  apply CS_bind_Ret in E as (err & s6 & H6 & E). apply sel4_heap in H6.
  apply CS_bind_Ret in E as ([] & s7 & H7 & E). apply liftC_Ret in H7 as [_ ->].
  apply CS_bind_Ret in E as (b & s8 & H8 & E). apply malloc_heap in H8. destruct b as [b |]; [| done].
  apply CS_bind_Ret in E as (t2 & s9 & H9 & E). apply liftC_Ret in H9 as [H9 ->]. injection E as <- <-.
  apply wr_Ret in H5 as [_ ->]. apply wr_Ret in H9 as [_ ->].
  rewrite Z.shiftl_mul_pow2 by done. change (2 ^ CSPACE_NODE_SIZE_IN_SLOTS_BITS) with 1024.
  rewrite (Z.mul_comm g). destruct (grown_rep c g G v n Hrep Hc) as [Hrep' Htab].
  unfold grown in *. rewrite Z.shiftl_mul_pow2 in * by done. change (2 ^ CSPACE_NODE_SIZE_IN_SLOTS_BITS) with 1024 in *.
  rewrite (Z.mul_comm g) in *. split_and!; [exact Hrep' | exact Htab |].
  eapply same_heap_trans; [exact H2 |]. by eapply same_heap_trans.
Qed.

(** * Slots in use *)

(** The slots [A] are in use in the cspace [c]. *)
Definition cspace_ok (c : cspace) (A : gset Z) : Prop :=
  (∃ F, rep1 c F ∧ ∀ s, s ∈ A → 0 < s < 1024 ∧ s ∉ F) ∨
  (∃ F G, rep2 c F G ∧ ∀ s, s ∈ A → 0 < s < 2 ^ 20 ∧ has_table c s ∧ s ∉ F).

Definition cspace_at (p : Z) st (A : gset Z) : Prop :=
  p ≠ 0 ∧ ∃ c, sp_heap st !! p = Some c ∧ cspace_ok c A.

Lemma load_cs_eq p st c : p ≠ 0 → sp_heap st !! p = Some c → load_cs p st = Ret (c, st).
Proof. intros Hp E. unfold load_cs. destruct (Z.eqb_spec p 0); [done |]. by rewrite E. Qed.

(** The state with the cspace [c] at [p]. *)
Definition put (p : Z) (c : cspace) st : cspaces W :=
  mk_cspaces (<[p := c]> (sp_heap st)) (sp_next st) (sp_cur st) (sp_world st).

(** Among the cspaces only the one at [p] has changed. *)
Definition only (p : Z) st st' : Prop :=
  (∀ q, q ≠ p → sp_heap st' !! q = sp_heap st !! q) ∧ sp_cur st' = sp_cur st ∧ sp_next st' = sp_next st.

Lemma only_put p c st : only p st (put p c st).
Proof. split_and!; [| done..]. intros q Hq. cbn. by rewrite lookup_insert_ne. Qed.

Lemma only_trans p st1 st2 st3 : only p st1 st2 → only p st2 st3 → only p st1 st3.
Proof.
  intros (H1 & H2 & H3) (H4 & H5 & H6). split_and!; [| congruence..]. intros q Hq. by rewrite H4, H1.
Qed.

Lemma only_same p st1 st2 : same_heap st1 st2 → only p st1 st2.
Proof. intros (E1 & E2 & E3). unfold only. by rewrite E1, E2, E3. Qed.

Lemma cspace_at_same p st st' A : same_heap st st' → cspace_at p st A → cspace_at p st' A.
Proof. intros (E & _ & _). unfold cspace_at. by rewrite E. Qed.

Lemma alloc_slot1 p st c s F :
  p ≠ 0 → sp_heap st !! p = Some c → rep1 c (s :: F) →
  ∃ c', cspace_alloc_slot p st = Ret (s, put p c' st) ∧ rep1 c' F.
Proof.
  intros Hp Ec Hrep. destruct (alloc1_eq c s F Hrep) as (c' & E & Hrep'). exists c'. split; [| done].
  pose proof (r1_range _ _ Hrep) as Hr. apply Forall_cons in Hr as [Hs _].
  unfold cspace_alloc_slot. erewrite CS_bind_eq by (apply assertC_eq; by destruct (Z.eqb_spec p 0)).
  erewrite CS_bind_eq by (by apply load_cs_eq). rewrite (r1_levels _ _ Hrep), (r1_num _ _ Hrep).
  change (1 =? 1) with true. cbv iota. rewrite Zlength_cons. pose proof (Zlength_nonneg F).
  destruct (Z.ltb_spec 0 (1 + Zlength F)); [| lia].
  rewrite (r1_num _ _ Hrep), Zlength_cons in E. erewrite CS_bind_eq by (apply liftC_eq; exact E).
  cbv beta iota. erewrite CS_bind_eq by reflexivity. rewrite u32_small by lia.
  change (u32 CSPACE_NOSLOT) with (2 ^ 32 - 1). by destruct (Z.eqb_spec s (2 ^ 32 - 1)); [lia |].
Qed.

Lemma alloc_slot1_full p st c :
  p ≠ 0 → sp_heap st !! p = Some c → rep1 c [] → cspace_alloc_slot p st = Ret (CSPACE_NULL, st).
Proof.
  intros Hp Ec Hrep. unfold cspace_alloc_slot.
  erewrite CS_bind_eq by (apply assertC_eq; by destruct (Z.eqb_spec p 0)).
  erewrite CS_bind_eq by (by apply load_cs_eq). by rewrite (r1_levels _ _ Hrep), (r1_num _ _ Hrep).
Qed.

(** The last part of [cspace_alloc_level2_slot]. *)
Lemma alloc_slot2 p st c s F G :
  p ≠ 0 → sp_heap st !! p = Some c → rep2 c (s :: F) G →
  ∃ c', cspace_alloc_slot p st = Ret (s, put p c' st) ∧ rep2 c' F G ∧ ∀ x, has_table c' x ↔ has_table c x.
Proof.
  intros Hp Ec Hrep. destruct (take2_eq c s F G Hrep) as (n & Es & En & Hrep').
  eexists. split; [| split; [exact Hrep' | done]].
  unfold cspace_alloc_slot. erewrite CS_bind_eq by (apply assertC_eq; by destruct (Z.eqb_spec p 0)).
  erewrite CS_bind_eq by (by apply load_cs_eq). rewrite (r2_levels _ _ _ Hrep).
  change (2 =? 1) with false. change (2 =? 2) with true. cbv iota. unfold cspace_alloc_level2_slot.
  erewrite CS_bind_eq by (by apply load_cs_eq). rewrite (r2_num _ _ _ Hrep), Zlength_cons.
  pose proof (Zlength_nonneg F). destruct (Z.leb_spec (1 + Zlength F) 0); [lia |].
  erewrite CS_bind_eq by reflexivity. cbv zeta. rewrite Es.
  erewrite CS_bind_eq by (apply liftC_eq; exact En).
  erewrite CS_bind_eq by reflexivity. by rewrite (r2_num _ _ _ Hrep), Zlength_cons.
Qed.

(** An empty list: a new node, if there is one. *)
Lemma alloc_slot2_grow p st c G s st' :
  p ≠ 0 → sp_heap st !! p = Some c → rep2 c [] G → cspace_alloc_slot p st = Ret (s, st') →
  ∃ g G' c', G = g :: G' ∧ s = 1024 * g ∧ sp_heap st' !! p = Some c' ∧ only p st st' ∧
    rep2 c' (seqZ (1024 * g + 1) 1023) G' ∧ ∀ x, 0 ≤ x → has_table c' x ↔ x / 1024 = g ∨ has_table c x.
Proof.
  intros Hp Ec Hrep E. unfold cspace_alloc_slot in E.
  erewrite CS_bind_eq in E by (apply assertC_eq; by destruct (Z.eqb_spec p 0)).
  erewrite CS_bind_eq in E by (by apply load_cs_eq). rewrite (r2_levels _ _ _ Hrep) in E.
  change (2 =? 1) with false in E. change (2 =? 2) with true in E. cbv iota in E.
  unfold cspace_alloc_level2_slot in E. erewrite CS_bind_eq in E by (by apply load_cs_eq).
  rewrite (r2_num _ _ _ Hrep) in E. change (Zlength [] <=? 0) with true in E. cbv iota in E.
  apply CS_bind_Ret in E as (c1 & st1 & Eg & E). destruct G as [|g G'].
  { unfold grow_level2 in Eg. apply CS_bind_Ret in Eg as (x & s1 & E1 & _). apply liftC_Ret in E1 as [E1 _].
    unfold cspace_alloc_level1_index in E1. by rewrite (r2_chain1 _ _ _ Hrep) in E1. }
  destruct (grow_rep _ _ _ _ _ _ Hrep Eg) as (Hrep1 & Htab & Hsame).
  rewrite seqZ_cons in Hrep1 by lia. destruct (take2_eq _ _ _ _ Hrep1) as (n & Es & En & Hrep2).
  cbv zeta in E. rewrite Es in E. erewrite CS_bind_eq in E by (apply liftC_eq; exact En).
  injection E as <- <-. exists g, G', (set_cs_num (u32 (cs_num c1 - 1)) (set_cs_next2 (i32 n) c1)).
  split_and!; [done | done | apply lookup_insert_eq | | | done].
  { eapply only_trans; [by apply only_same |]. apply only_put. }
  by replace (1024 * g + 1) with (Z.succ (1024 * g)) by lia.
Qed.

Lemma alloc_slot_ok p st A s st' :
  cspace_at p st A → cspace_alloc_slot p st = Ret (s, st') →
  s = CSPACE_NULL ∧ st' = st ∨
  s ≠ CSPACE_NULL ∧ s ∉ A ∧ cspace_at p st' ({[s]} ∪ A) ∧ only p st st'.
Proof.
  intros (Hp & c & Ec & [(F & Hrep & HA) | (F & G & Hrep & HA)]) E.
  - destruct F as [|x F].
    { left. rewrite (alloc_slot1_full _ _ _ Hp Ec Hrep) in E. by injection E as <- <-. }
    right. destruct (alloc_slot1 _ _ _ _ _ Hp Ec Hrep) as (c' & E' & Hrep'). rewrite E' in E. injection E as <- <-.
    pose proof (r1_range _ _ Hrep) as Hr. apply Forall_cons in Hr as [Hx _].
    pose proof (r1_nodup _ _ Hrep) as Hd. apply NoDup_cons in Hd as [Hd _].
    split_and!; [unfold CSPACE_NULL; lia | intros Hin; apply HA in Hin as [_ []]; left | | apply only_put].
    split; [done |]. exists c'. split; [apply lookup_insert_eq |]. left. exists F. split; [done |].
    intros y [Hy%elem_of_singleton | Hy]%elem_of_union; [by subst |]. apply HA in Hy as [? Hy].
    split; [done |]. set_solver.
  - right. destruct F as [|x F].
    + destruct (alloc_slot2_grow _ _ _ _ _ _ Hp Ec Hrep E) as (g & G' & c' & -> & -> & Eh & Hon & Hrep' & Htab).
      pose proof (r2_range1 _ _ _ Hrep) as Hr. apply Forall_cons in Hr as [[Hg Hn] _].
      assert (∀ y, y ∈ A → y / 1024 ≠ g) as Hne.
      { intros y Hy <-. apply HA in Hy as (_ & (t & Ht & _) & _). by rewrite Ht in Hn. }
      split_and!; [unfold CSPACE_NULL; lia | intros Hin; apply (Hne _ Hin); divmod | | done].
      split; [done |]. exists c'. split; [done |]. right.
      exists (seqZ (1024 * g + 1) 1023), G'. split; [done |].
      intros y [Hy%elem_of_singleton | Hy]%elem_of_union.
      * subst y. split_and!; [lia | lia | | rewrite elem_of_seqZ; lia]. apply Htab; [lia |]. left. divmod.
      * destruct (HA y Hy) as (? & Ht & _). split_and!; [lia | lia | apply Htab; [lia | by right] |].
        rewrite elem_of_seqZ. intros Hr. apply (Hne y Hy). divmod.
    + destruct (alloc_slot2 _ _ _ _ _ _ Hp Ec Hrep) as (c' & E' & Hrep' & Htab). rewrite E' in E. injection E as <- <-.
      pose proof (r2_range2 _ _ _ Hrep) as Hr. apply Forall_cons in Hr as [[Hx Ht] _].
      pose proof (r2_nodup2 _ _ _ Hrep) as Hd. apply NoDup_cons in Hd as [Hd _].
      split_and!; [unfold CSPACE_NULL; lia | intros Hin; apply HA in Hin as (_ & _ & []); left | | apply only_put].
      split; [done |]. exists c'. split; [apply lookup_insert_eq |]. right. exists F, G. split; [done |].
      intros y [Hy%elem_of_singleton | Hy]%elem_of_union; [subst; by rewrite Htab |].
      apply HA in Hy as (? & ? & Hy). split_and!; [lia | lia | by apply Htab | set_solver].
Qed.

Lemma free_slot_ok p st A s :
  cspace_at p st A → s ∈ A →
  ∃ c, cspace_free_slot p s st = Ret (CSPACE_NOERROR, put p c st) ∧ cspace_at p (put p c st) (A ∖ {[s]}).
Proof.
  intros (Hp & c & Ec & Hok) Hs. unfold cspace_free_slot.
  assert (∃ c', (if cs_levels c =? 1 then
               cspace_free_level1_index (set_cs_num (u32 (cs_num c + 1)) c) (i32 s)
             else if cs_levels c =? 2 then cspace_free_level2_slot c s
             else Fault AssertFail) = Ret c' ∧ cspace_ok c' (A ∖ {[s]}) ∧ s ≠ CSPACE_NULL) as (c' & E & Hok' & Hz).
  { destruct Hok as [(F & Hrep & HA) | (F & G & Hrep & HA)].
    - destruct (HA s Hs) as [Hr HF]. rewrite (r1_levels _ _ Hrep). change (1 =? 1) with true. cbv iota.
      rewrite i32_small by lia. destruct (free1_eq c s F Hrep Hr HF) as (c' & E & Hrep').
      exists c'. split_and!; [done | | unfold CSPACE_NULL; lia]. left. exists (s :: F). split; [done |]. set_solver.
    - destruct (HA s Hs) as (Hr & Ht & HF). rewrite (r2_levels _ _ _ Hrep).
      destruct (free2_eq c s F G Hrep Hr Ht HF) as (c' & E & Hrep' & Htab).
      exists c'. split_and!; [done | | unfold CSPACE_NULL; lia]. right. exists (s :: F), G. split; [done |].
      intros y [Hy Hne]%elem_of_difference. destruct (HA y Hy) as (? & ? & ?). split_and!; [lia | lia | by apply Htab | set_solver]. }
  exists c'. split; [| split; [done |]; exists c'; split; [apply lookup_insert_eq | done]].
  erewrite CS_bind_eq by (apply assertC_eq; by destruct (Z.eqb_spec p 0)).
  erewrite CS_bind_eq by (apply assertC_eq; by destruct (Z.eqb_spec s CSPACE_NULL)).
  erewrite CS_bind_eq by (by apply load_cs_eq).
  erewrite CS_bind_eq by (apply liftC_eq; exact E). reflexivity.
Qed.

(** ** No slot is lost *)

(** The slots [A] are those that cannot be taken from the cspace [c]: every other
    slot is in the list of free slots or in a node that can still be made. *)
Definition cspace_exact_ok (c : cspace) (A : gset Z) : Prop :=
  (∃ F, rep1 c F ∧ ∀ s, s ∈ A ↔ 0 < s < 1024 ∧ s ∉ F) ∨
  (∃ F G, rep2 c F G ∧ (∀ s, s ∈ A ↔ 0 < s < 2 ^ 20 ∧ has_table c s ∧ s ∉ F) ∧
     ∀ g, 0 ≤ g < 1024 → g ∈ G ∨ has_table c (1024 * g)).

Definition cspace_exact (p : Z) st (A : gset Z) : Prop :=
  p ≠ 0 ∧ ∃ c, sp_heap st !! p = Some c ∧ cspace_exact_ok c A.

Lemma cspace_exact_at p st A : cspace_exact p st A → cspace_at p st A.
Proof.
  intros (Hp & c & Ec & [(F & Hrep & HA) | (F & G & Hrep & HA & _)]); split; try done; exists c;
    (split; [done |]); [left; exists F | right; exists F, G]; (split; [done |]); intros s; apply HA.
Qed.

Lemma alloc_slot_exact p st A s st' :
  cspace_exact p st A → cspace_alloc_slot p st = Ret (s, st') → s ≠ CSPACE_NULL →
  cspace_exact p st' ({[s]} ∪ A).
Proof.
  intros (Hp & c & Ec & [(F & Hrep & HA) | (F & G & Hrep & HA & HG)]) E Hz; (split; [done |]).
  - destruct F as [|x F].
    { rewrite (alloc_slot1_full _ _ _ Hp Ec Hrep) in E. by injection E as <- <-. }
    destruct (alloc_slot1 _ _ _ _ _ Hp Ec Hrep) as (c' & E' & Hrep'). rewrite E' in E. injection E as <- <-.
    pose proof (r1_range _ _ Hrep) as Hr. apply Forall_cons in Hr as [Hx _].
    pose proof (r1_nodup _ _ Hrep) as Hd. apply NoDup_cons in Hd as [Hd _].
    exists c'. split; [apply lookup_insert_eq |]. left. exists F. split; [done |].
    intros y. rewrite elem_of_union, elem_of_singleton, HA, elem_of_cons.
    destruct (decide (y = x)) as [-> |]; naive_solver.
  - destruct F as [|x F].
    + destruct (alloc_slot2_grow _ _ _ _ _ _ Hp Ec Hrep E) as (g & G' & c' & -> & -> & Eh & Hon & Hrep' & Htab).
      pose proof (r2_range1 _ _ _ Hrep) as Hr. apply Forall_cons in Hr as [[Hg Hn] _].
      exists c'. split; [done |]. right. exists (seqZ (1024 * g + 1) 1023), G'. split_and!; [done | |].
      * intros y. rewrite elem_of_union, elem_of_singleton, HA, elem_of_seqZ. split.
        -- intros [-> | (Hy & Ht & _)].
           ++ split_and!; [lia | lia | apply Htab; [lia | left; divmod] | lia].
           ++ split_and!; [lia | lia | apply Htab; [lia | by right] |]. intros Hyr.
              destruct Ht as (t & Ht & _). replace (y / 1024) with g in Ht by divmod. by rewrite Hn in Ht.
        -- intros (Hy & Ht & Hyr). apply Htab in Ht as [Hyg | Ht]; [left; divmod | right | lia].
           split_and!; [lia | lia | done | apply not_elem_of_nil].
      * intros g' Hg'. destruct (HG g' Hg') as [[-> | ?]%elem_of_cons | ?]; [right | by left | right].
        -- apply Htab; [lia | left; divmod].
        -- apply Htab; [lia | by right].
    + destruct (alloc_slot2 _ _ _ _ _ _ Hp Ec Hrep) as (c' & E' & Hrep' & Htab). rewrite E' in E. injection E as <- <-.
      pose proof (r2_range2 _ _ _ Hrep) as Hr. apply Forall_cons in Hr as [[Hx Ht] _].
      pose proof (r2_nodup2 _ _ _ Hrep) as Hd. apply NoDup_cons in Hd as [Hd _].
      exists c'. split; [apply lookup_insert_eq |]. right. exists F, G. split_and!; [done | |].
      * intros y. rewrite elem_of_union, elem_of_singleton, HA, elem_of_cons, Htab.
        destruct (decide (y = x)) as [-> |]; naive_solver.
      * intros g Hg. rewrite Htab. by apply HG.
Qed.

Lemma free_slot_exact p st A s st' :
  cspace_exact p st A → s ∈ A → cspace_free_slot p s st = Ret (CSPACE_NOERROR, st') →
  cspace_exact p st' (A ∖ {[s]}).
Proof.
  intros (Hp & c & Ec & Hok) Hs E. unfold cspace_free_slot in E.
  erewrite CS_bind_eq in E by (apply assertC_eq; by destruct (Z.eqb_spec p 0)).
  apply CS_bind_Ret in E as (u & st1 & E1 & E). apply liftC_Ret in E1 as [_ ->].
  erewrite CS_bind_eq in E by (by apply load_cs_eq).
  apply CS_bind_Ret in E as (c1 & st1 & E1 & E). apply liftC_Ret in E1 as [E1 ->]. injection E as <-.
  split; [done |]. exists c1. split; [apply lookup_insert_eq |].
  destruct Hok as [(F & Hrep & HA) | (F & G & Hrep & HA & HG)].
  - destruct (proj1 (HA s) Hs) as [Hr HF]. rewrite (r1_levels _ _ Hrep) in E1. change (1 =? 1) with true in E1.
    cbv iota in E1. rewrite i32_small in E1 by lia. destruct (free1_eq c s F Hrep Hr HF) as (c' & E' & Hrep').
    rewrite E' in E1. injection E1 as <-. left. exists (s :: F). split; [done |].
    intros y. rewrite elem_of_difference, elem_of_singleton, HA, elem_of_cons. tauto.
  - destruct (proj1 (HA s) Hs) as (Hr & Ht & HF). rewrite (r2_levels _ _ _ Hrep) in E1.
    change (2 =? 1) with false in E1. change (2 =? 2) with true in E1. cbv iota in E1.
    destruct (free2_eq c s F G Hrep Hr Ht HF) as (c' & E' & Hrep' & Htab).
    rewrite E' in E1. injection E1 as <-. right. exists (s :: F), G. split_and!; [done | |].
    + intros y. rewrite elem_of_difference, elem_of_singleton, HA, elem_of_cons, Htab. tauto.
    + intros g Hg. rewrite Htab. by apply HG.
Qed.

(** Both ways to say which slots are in use. *)
Record slots_law (P : Z → cspaces W → gset Z → Prop) : Prop := {
  sl_at : ∀ p st A, P p st A → cspace_at p st A;
  sl_heap : ∀ p st st' A, sp_heap st' !! p = sp_heap st !! p → P p st A → P p st' A;
  sl_alloc : ∀ p st A s st',
    P p st A → cspace_alloc_slot p st = Ret (s, st') → s ≠ CSPACE_NULL → P p st' ({[s]} ∪ A);
  sl_free : ∀ p st A s st',
    P p st A → s ∈ A → cspace_free_slot p s st = Ret (CSPACE_NOERROR, st') → P p st' (A ∖ {[s]})
}.

Lemma cspace_at_law : slots_law cspace_at.
Proof.
  split; [done | | |].
  - intros p st st' A E (Hp & c & Ec & H). split; [done |]. exists c. by rewrite E.
  - intros p st A s st' Hat E Hz. destruct (alloc_slot_ok _ _ _ _ _ Hat E) as [[? _] | (_ & _ & H & _)]; done.
  - intros p st A s st' Hat Hs E. destruct (free_slot_ok _ _ _ _ Hat Hs) as (c & E' & H).
    rewrite E in E'. by injection E' as ->.
Qed.

Lemma cspace_exact_law : slots_law cspace_exact.
Proof.
  split; [apply cspace_exact_at | | apply alloc_slot_exact | apply free_slot_exact].
  intros p st st' A E (Hp & c & Ec & H). split; [done |]. exists c. by rewrite E.
Qed.

(** Programs that use the slots of the cspace [p]: they take slots and give back
    slots they have. *)
Inductive slot_step (p : Z) : cspaces W * gset Z → cspaces W * gset Z → Prop :=
  | step_alloc st A s st' :
      cspace_alloc_slot p st = Ret (s, st') →
      slot_step p (st, A) (st', if s =? CSPACE_NULL then A else {[s]} ∪ A)
  | step_free st A s st' :
      s ∈ A → cspace_free_slot p s st = Ret (CSPACE_NOERROR, st') →
      slot_step p (st, A) (st', A ∖ {[s]}).

Lemma slot_step_law P p st A st' A' :
  slots_law P → slot_step p (st, A) (st', A') → P p st A → P p st' A'.
Proof.
  intros HP Hstep Hat. inversion Hstep as [? ? s ? E | ? ? s ? Hs E]; subst.
  - destruct (Z.eqb_spec s CSPACE_NULL) as [Ez | Hz]; [| by eapply sl_alloc].
    destruct (alloc_slot_ok _ _ _ _ _ (sl_at _ HP _ _ _ Hat) E) as [[_ Est] | (? & _)]; [by rewrite Est | done].
  - by eapply sl_free.
Qed.

Lemma slot_steps_law P p x y : slots_law P → rtc (slot_step p) x y → P p x.1 x.2 → P p y.1 y.2.
Proof.
  intros HP. induction 1 as [|[st A] [st' A'] y Hs _ IH]; [done |]. intros Hat. apply IH. by eapply slot_step_law.
Qed.

Lemma cspace_at_not_null p st A : cspace_at p st A → CSPACE_NULL ∉ A.
Proof. unfold CSPACE_NULL. intros (_ & c & _ & [(F & _ & HA) | (F & G & _ & HA)]) Hin; apply HA in Hin; lia. Qed.

Lemma alloc_slot_has p st A c :
  cspace_at p st A → sp_heap st !! p = Some c → 0 < cs_num c →
  ∃ s st', cspace_alloc_slot p st = Ret (s, st') ∧ s ≠ CSPACE_NULL.
Proof.
  intros (Hp & ? & Ec & Hok) E Hn. rewrite E in Ec. injection Ec as <-. unfold CSPACE_NULL.
  destruct Hok as [(F & Hrep & _) | (F & G & Hrep & _)].
  - rewrite (r1_num _ _ Hrep) in Hn. destruct F as [|x F]; [done |].
    destruct (alloc_slot1 _ _ _ _ _ Hp E Hrep) as (c' & E' & _). do 2 eexists. split; [exact E' |].
    pose proof (r1_range _ _ Hrep) as Hr. apply Forall_cons in Hr as [Hx _]. lia.
  - rewrite (r2_num _ _ _ Hrep) in Hn. destruct F as [|x F]; [done |].
    destruct (alloc_slot2 _ _ _ _ _ _ Hp E Hrep) as (c' & E' & _). do 2 eexists. split; [exact E' |].
    pose proof (r2_range2 _ _ _ Hrep) as Hr. apply Forall_cons in Hr as [[Hx _] _]. lia.
Qed.

(** [C13] Whatever slots a program has taken from a cspace and given back, a slot it takes next
    is one it does not have, there is one as long as the count of free slots is
    not zero, and a slot it has can be given back. *)
Theorem cspace_slots_distinct p st A st' A' :
  cspace_at p st A → rtc (slot_step p) (st, A) (st', A') →
  CSPACE_NULL ∉ A' ∧
  (∀ s st'', cspace_alloc_slot p st' = Ret (s, st'') → s ∉ A') ∧
  (∀ c, sp_heap st' !! p = Some c → 0 < cs_num c →
     ∃ s st'', cspace_alloc_slot p st' = Ret (s, st'') ∧ s ≠ CSPACE_NULL) ∧
  (∀ s, s ∈ A' → ∃ st'', cspace_free_slot p s st' = Ret (CSPACE_NOERROR, st'')).
Proof.
  intros Hat Hsteps. pose proof (slot_steps_law _ _ _ _ cspace_at_law Hsteps Hat) as Hat'. cbn in Hat'.
  split_and!.
  - by eapply cspace_at_not_null.
  - intros s st'' E. destruct (alloc_slot_ok _ _ _ _ _ Hat' E) as [[-> _] | (_ & Hs & _)]; [| done].
    by eapply cspace_at_not_null.
  - intros c. by apply alloc_slot_has with A'.
  - intros s Hs. destruct (free_slot_ok _ _ _ _ Hat' Hs) as (c & E & _). eauto.
Qed.

(** * Operations that use slots *)

Lemma assertC_Ret b st u st' : assertC b st = Ret (u, st') → b = true ∧ st' = st.
Proof. intros E. apply liftC_Ret in E as [E ->]. by destruct b. Qed.

Lemma load_cs_Ret p st c st' : load_cs p st = Ret (c, st') → sp_heap st !! p = Some c ∧ st' = st.
Proof.
  unfold load_cs. destruct (p =? 0); [done |]. destruct (sp_heap st !! p); [| done]. by intros [= -> ->].
Qed.

End runs.

(** The next call of a run that returns. *)
Ltac next E x :=
  let s := fresh "s" in let H := fresh "R" in
  apply CS_bind_Ret in E as (x & s & H & E);
  first [apply assertC_Ret in H as [H ->] | apply load_cs_Ret in H as [H ->] | apply translated_heap in H as ->
        | apply liftC_Ret in H as [H ->] | idtac].

Section operations.
Context {W : Type} `{!cspace_world W}.
Implicit Types (st : cspaces W).

Lemma slots_same P p st st' A : slots_law P → same_heap st st' → P p st A → P p st' A.
Proof. intros HP (E & _ & _). apply (sl_heap _ HP). by rewrite E. Qed.

Lemma with_slot_law P p q call st A s st' :
  slots_law P → P p st A → with_slot p q call st = Ret (s, st') →
  s ≠ CSPACE_NULL ∧ s ∉ A ∧ P p st' ({[s]} ∪ A) ∧ only p st st'.
Proof.
  intros HP Hat E. unfold with_slot in E. next E u. next E x. next E u'. next E d. next E c. next E e.
  unfold sel4_error in E. next E u''. injection E as <- <-.
  destruct (alloc_slot_ok _ _ _ _ _ (sl_at _ HP _ _ _ Hat) R0) as [[-> _] | (Hz & Hs & _ & Hon)]; [done |].
  apply sel4_heap in R4. split_and!; [done | done | |].
  - eapply slots_same; [done | exact R4 |]. by eapply sl_alloc.
  - eapply only_trans; [exact Hon | by apply only_same].
Qed.

Lemma with_slot_ok p q call st A s st' :
  cspace_at p st A → with_slot p q call st = Ret (s, st') →
  s ≠ CSPACE_NULL ∧ s ∉ A ∧ cspace_at p st' ({[s]} ∪ A) ∧ only p st st'.
Proof. apply with_slot_law, cspace_at_law. Qed.

Lemma delete_cap_law P p st A s e st' :
  slots_law P → P p st A → s ∈ A → cspace_delete_cap p s st = Ret (e, st') →
  e = CSPACE_NOERROR ∧ P p st' (A ∖ {[s]}) ∧ only p st st'.
Proof.
  intros HP Hat Hs E. unfold cspace_delete_cap, on_cap in E. apply CS_bind_Ret in E as (u & st1 & E1 & E).
  next E1 u'. next E1 c. next E1 e1. apply assertC_Ret in E1 as [_ ->]. apply sel4_heap in R1.
  pose proof (slots_same _ _ _ _ _ HP R1 Hat) as Hat1.
  destruct (free_slot_ok _ _ _ _ (sl_at _ HP _ _ _ Hat1) Hs) as (c' & E' & _).
  rewrite E' in E. injection E as <- <-. split_and!; [done | by eapply sl_free |].
  eapply only_trans; [by apply only_same | apply only_put].
Qed.

(** * New cspaces *)

Lemma level1_next k : 0 ≤ k < 1023 → level1_list !! Z.to_nat k = Some (k + 1).
Proof.
  intros Hk. unfold level1_list. change (Z.to_nat CSPACE_NODE_SIZE_IN_SLOTS - 1)%nat with 1023%nat.
  rewrite lookup_app_l by (rewrite length_fmap, length_seq; lia).
  rewrite list_lookup_fmap, lookup_seq_lt by lia. cbn. f_equal. lia.
Qed.

Lemma level1_last : level1_list !! 1023%nat = Some (u32 CSPACE_NOSLOT).
Proof.
  unfold level1_list. change (Z.to_nat CSPACE_NODE_SIZE_IN_SLOTS - 1)%nat with 1023%nat.
  rewrite lookup_app_r by (rewrite length_fmap, length_seq; lia). by rewrite length_fmap, length_seq.
Qed.

Lemma length_level1 : length level1_list = 1024%nat.
Proof. unfold level1_list. by rewrite length_app, length_fmap, length_seq. Qed.

(** Level 1 from the index [k] on, which is as it was made. *)
Lemma level1_chain c k :
  0 < k < 1024 → (∀ i, k ≤ i < 1024 → cs_table1 c !! Z.to_nat i = level1_list !! Z.to_nat i) →
  chain (next1 c) CSPACE_NOSLOT k (seqZ k (1024 - k)).
Proof.
  intros Hk Ht. apply chain_seq; [lia | | | unfold CSPACE_NOSLOT; lia].
  - intros i Hi. unfold next1. rewrite Ht, level1_next by lia. cbn. by rewrite i32_small by lia.
  - unfold next1. rewrite Ht by lia. replace (Z.to_nat (k + (1024 - k) - 1)) with 1023%nat by lia.
    by rewrite level1_last.
Qed.

(** The cspaces that [cspace_create] makes. *)
Definition new_cspace (levels slot addr : Z) : cspace :=
  mk_cspace levels slot 0 addr (if levels =? 1 then 1 else 0) 0 (CSPACE_NODE_SIZE_IN_SLOTS - 1) level1_list no_tables.

Lemma new_rep1 slot addr : rep1 (new_cspace 1 slot addr) (seqZ 1 1023).
Proof.
  split; [done | done | apply length_level1 | | apply NoDup_seqZ |].
  - apply (level1_chain _ 1); [lia | done].
  - apply Forall_forall. intros x Hx%elem_of_seqZ. lia.
Qed.

Lemma Ret_inj {A : Type} (a b : A) : Ret a = Ret b → a = b.
Proof. congruence. Qed.

Lemma length_no_tables : length no_tables = 1024%nat.
Proof. apply length_replicate. Qed.

Lemma create_level2_rep slot addr st c st' :
  create_level2 (new_cspace 2 slot addr) st = Ret (c, st') →
  rep2 c (seqZ 1 1023) (seqZ 1 1023) ∧ cs_num c = 1023 ∧ same_heap st st' ∧
  ∀ s, 0 ≤ s < 2 ^ 20 → has_table c s ↔ s / 1024 = 0.
Proof.
  intros E. unfold create_level2 in E. next E a. next E u. next E t. destruct t as [ut_cptr offset].
  next E r. destruct r as [l1 c1]. unfold cspace_alloc_level1_index in R1. cbn [cs_next1 new_cspace cs_table1] in R1.
  change (2 =? 1) with false in R1. cbv iota in R1. rewrite (rd_lookup _ _ 1) in R1 by (done || lia).
  injection R1 as <- <-. next E u'. cbv zeta in E. next E t1. next E e. unfold sel4_error in E. next E u''. next E b.
  destruct b as [b |]; [| done]. next E t2. injection E as <- <-.
  rewrite wr_in in R2 by (cbn [cs_table1 set_cs_next1 new_cspace]; rewrite (Zlength_length _ _ length_level1); lia).
  rewrite wr_in in R6 by (rewrite (Zlength_length _ 1024) by apply length_no_tables; lia).
  apply Ret_inj in R2 as <-. apply Ret_inj in R6 as <-.
  apply ut_alloc_heap in R. apply sel4_heap in R3. apply malloc_heap in R5.
  split_and!; [| done | by eauto using same_heap_trans |]; last first.
  { intros s' Hs'. unfold has_table. cbn [cs_table2 set_cs_next2 set_cs_num set_cs_table2].
    assert (0 ≤ s' / 1024 < 1024) by (split; [apply Z.div_pos; lia | apply Z.div_lt_upper_bound; lia]).
    destruct (decide (s' / 1024 = 0)) as [-> | Hne].
    - split; [done |]. intros _. exists (node_list 0). split; [| apply length_node_list].
      apply list_lookup_insert_eq. rewrite length_no_tables. lia.
    - split; [| done]. intros (t & Ht & _). rewrite list_lookup_insert_ne in Ht by lia.
      by apply lookup_replicate in Ht as [? _]. }
  split; [reflexivity | reflexivity | | | | | | | |].
  - cbn [cs_table1 set_cs_next2 set_cs_num set_cs_table2 set_cs_table1 set_cs_next1 new_cspace].
    rewrite length_insert. apply length_level1.
  - cbn [cs_table2 set_cs_next2 set_cs_num set_cs_table2]. rewrite length_insert. apply length_no_tables.
  - apply (level1_chain _ 1); [lia |]. intros i Hi.
    cbn [cs_table1 set_cs_next2 set_cs_num set_cs_table2 set_cs_table1 set_cs_next1 new_cspace]. by rewrite list_lookup_insert_ne by lia.
  - apply NoDup_seqZ.
  - apply Forall_forall. intros x Hx%elem_of_seqZ. split; [lia |].
    cbn [cs_table2 set_cs_next2 set_cs_num set_cs_table2]. rewrite list_lookup_insert_ne by lia.
    apply lookup_replicate. split; [done |]. change (Z.to_nat CSPACE_NODE_SIZE_IN_SLOTS) with 1024%nat. lia.
  - apply (node_chain _ 0 1023); [lia | lia |]. apply list_lookup_insert_eq. rewrite length_no_tables. lia.
  - apply NoDup_seqZ.
  - apply Forall_forall. intros x Hx%elem_of_seqZ. split; [lia |]. exists (node_list 0).
    replace (x / 1024) with 0 by divmod. split; [| apply length_node_list].
    apply list_lookup_insert_eq. rewrite length_no_tables. lia.
Qed.

(** The cspaces have addresses below the next one. *)
Definition heap_ok st : Prop := ∀ q, is_Some (sp_heap st !! q) → 0 < q < sp_next st.

(** A cspace that is ready after its root capability is known. *)
Lemma cspace_exact_root c g r A :
  cspace_exact_ok c A → cspace_exact_ok (set_cs_root_cnode r (set_cs_guard g c)) A.
Proof.
  intros [(F & [] & HA) | (F & G & [] & HA)]; [left | right].
  - exists F. split; [| exact HA]. by split.
  - exists F, G. split; [| exact HA]. by split.
Qed.

(** The part of [cspace_create] before the root capability is minted. *)
Lemma create_table levels slot addr st c st' :
  (levels =? 1) || (levels =? 2) = true →
  (if levels =? 2 then create_level2 (new_cspace levels slot addr) else mret (new_cspace levels slot addr)) st
    = Ret (c, st') →
  cspace_exact_ok c ∅ ∧ cs_num c = 1023 ∧ same_heap st st'.
Proof.
  intros Hl E. apply orb_true_iff in Hl as [Hl | Hl]; apply Z.eqb_eq in Hl as ->.
  - change (1 =? 2) with false in E. injection E as <- <-. split_and!; [left | done | done].
    exists (seqZ 1 1023). split; [apply new_rep1 |]. intros s. rewrite elem_of_seqZ.
    split; [by intros ?%not_elem_of_empty | lia].
  - change (2 =? 2) with true in E. cbv iota in E. destruct (create_level2_rep _ _ _ _ _ E) as (Hrep & Hn & Hs & Ht).
    split_and!; [right | done | done..]. exists (seqZ 1 1023), (seqZ 1 1023). split_and!; [done | |].
    + intros s. rewrite elem_of_seqZ. split; [by intros ?%not_elem_of_empty |].
      intros (Hr & Hts & Hn'). apply Ht in Hts; [| lia]. exfalso. apply Hn'. divmod.
    + intros g Hg. rewrite elem_of_seqZ. destruct (decide (g = 0)) as [-> |]; [right | left; lia].
      by apply Ht.
Qed.

Lemma create_ok levels st p st' A :
  heap_ok st → cspace_exact (sp_cur st) st A → cspace_create levels st = Ret (p, st') →
  ∃ c, p = sp_next st ∧ sp_heap st' !! p = Some c ∧ cspace_exact_ok c ∅ ∧ cs_num c = 1023 ∧
    cs_root_cnode c ∉ A ∧ cspace_exact (sp_cur st) st' ({[cs_root_cnode c]} ∪ A) ∧
    sp_cur st' = sp_cur st ∧ sp_next st' = sp_next st + 1 ∧
    ∀ q, q ≠ p → q ≠ sp_cur st → sp_heap st' !! q = sp_heap st !! q.
Proof.
  intros Hh Hat E. unfold cspace_create in E. next E b. next E u. next E addr. next E u2. next E t.
  destruct t as [ut_cptr offset]. next E cur. injection R3 as <- <-.
  apply malloc_heap in R. apply ut_alloc_heap in R1. pose proof (same_heap_trans _ _ _ R R1) as Hs1.
  assert (sp_cur s0 = sp_cur st) as Hcur by apply Hs1. rewrite Hcur in E.
  next E slot. next E u3. next E cc. next E depth. next E e. unfold sel4_error in E. next E u4. next E u5.
  cbv zeta in E. fold (new_cspace levels slot addr) in E. next E c.
  destruct (create_table _ _ _ _ _ _ R9 R10) as (Hok & Hnum & Hs2).
  next E root. next E u6. next E e2. injection E as <- <-.
  pose proof (slots_same _ _ _ _ _ cspace_exact_law Hs1 Hat) as Hat0.
  destruct (alloc_slot_ok _ _ _ _ _ (cspace_exact_at _ _ _ Hat0) R3) as [[-> _] | (Hz & Hfresh & _ & Hon1)]; [done |].
  pose proof (alloc_slot_exact _ _ _ _ _ Hat0 R3 Hz) as Hat1. apply sel4_heap in R7. pose proof (same_heap_trans _ _ _ R7 Hs2) as Hs3.
  destruct (with_slot_law _ _ _ _ _ _ _ _ cspace_exact_law (slots_same _ _ _ _ _ cspace_exact_law Hs3 Hat1) R11)
    as (_ & Hroot & Hat2 & Hon2).
  destruct (delete_cap_law _ _ _ _ slot _ _ cspace_exact_law Hat2 ltac:(set_solver) R13) as (_ & Hat3 & Hon3).
  assert (only (sp_cur st) st s5) as (Hon & Hc & Hn)
    by eauto 10 using only_trans, only_same.
  assert (0 < sp_cur st < sp_next st) as Hlt by (destruct Hat as (_ & c0 & E & _); by apply Hh).
  exists (set_cs_root_cnode root (set_cs_guard (seL4_CapData_Guard_new 0
    (if levels =? 1 then CSPACE_ONE_LEVEL_SKIP_BITS else CSPACE_TWO_LEVEL_SKIP_BITS)) c)).
  cbn [sp_heap sp_cur sp_next cs_root_cnode set_cs_root_cnode].
  split_and!; [done | apply lookup_insert_eq | by apply cspace_exact_root | done | set_solver | | done | by rewrite Hn |].
  - replace ({[root]} ∪ A) with (({[root]} ∪ ({[slot]} ∪ A)) ∖ {[slot]} : gset Z) by (apply set_eq; set_solver).
    eapply (sl_heap _ cspace_exact_law); [| exact Hat3]. cbn [sp_heap]. by rewrite lookup_insert_ne by lia.
  - intros q Hq Hq'. rewrite lookup_insert_ne by done. by apply Hon.
Qed.

Lemma destroy_level2_heap root i t1 t2 st u st' :
  destroy_level2 root i t1 t2 st = Ret (u, st') → same_heap st st'.
Proof.
  revert i st. induction t2 as [|[t |] t2 IH]; intros i st E.
  - by injection E as <- <-.
  - cbn [destroy_level2] in E. next E e. unfold sel4_error in E. next E u1. next E a. next E u2.
    apply sel4_heap in R. apply IH in E. unfold ut_freeC in R2.
    destruct (w_ut_free a CSPACE_NODE_SIZE_IN_MEM_BITS (sp_world s)) as [w |]; [| done]. injection R2 as <- <-.
    by eapply same_heap_trans, E.
  - by eapply IH.
Qed.

Lemma destroy_ok p st e st' A c :
  cspace_exact (sp_cur st) st A → sp_heap st !! p = Some c → cs_root_cnode c ∈ A →
  cspace_destroy p st = Ret (e, st') →
  e = CSPACE_NOERROR ∧ sp_heap st' !! p = None ∧ cspace_exact (sp_cur st) st' (A ∖ {[cs_root_cnode c]}) ∧
  sp_cur st' = sp_cur st ∧ sp_next st' = sp_next st ∧
  ∀ q, q ≠ p → q ≠ sp_cur st → sp_heap st' !! q = sp_heap st !! q.
Proof.
  intros Hat Ec Hr E. unfold cspace_destroy in E. next E cur. injection R as <- <-.
  next E u. next E u2. next E c'. rewrite Ec in R1. injection R1 as <-. next E u3.
  assert (same_heap st s) as Hs.
  { destruct (cs_levels c =? 2); [by eapply destroy_level2_heap | by injection R1 as _ <-]. }
  next E e1. next E u4. next E u5. injection R4 as _ <-. injection E as <- <-.
  destruct (delete_cap_law _ _ _ _ _ _ _ cspace_exact_law (slots_same _ _ _ _ _ cspace_exact_law Hs Hat) Hr R2)
    as (_ & Hat1 & Hon1).
  assert (same_heap s0 s1) as Hs2.
  { unfold ut_freeC in R3. destruct (w_ut_free (cs_addr c) CSPACE_NODE_SIZE_IN_MEM_BITS (sp_world s0)); [| done].
    by injection R3 as _ <-. }
  assert (only (sp_cur st) st s1) as (Hon & Hc & Hn) by eauto 10 using only_trans, only_same.
  apply negb_true_iff, Z.eqb_neq in R. cbn [sp_heap sp_cur sp_next].
  split_and!; [done | apply lookup_delete_eq | | done | done |].
  - eapply (sl_heap _ cspace_exact_law); [| exact (slots_same _ _ _ _ _ cspace_exact_law Hs2 Hat1)].
    cbn [sp_heap]. by rewrite lookup_delete_ne.
  - intros q Hq Hq'. rewrite lookup_delete_ne by done. by apply Hon.
Qed.

(** [C28] A new cspace is at a new address and has 1023 free slots; none of its
    slots is in use.  It takes exactly one slot of the current cspace, for the
    capability to its root.  Destroying it removes it and gives that slot back:
    the slots in use in the current cspace are then exactly those from before, and
    no other cspace has changed. *)
Theorem cspace_create_destroy levels st p st1 A :
  heap_ok st → cspace_exact (sp_cur st) st A → cspace_create levels st = Ret (p, st1) →
  sp_heap st !! p = None ∧ cspace_exact p st1 ∅ ∧ heap_ok st1 ∧
  (∃ c, sp_heap st1 !! p = Some c ∧ cs_num c = 1023 ∧ cs_root_cnode c ∉ A ∧
     cspace_exact (sp_cur st) st1 ({[cs_root_cnode c]} ∪ A)) ∧
  ∀ e st2, cspace_destroy p st1 = Ret (e, st2) →
    e = CSPACE_NOERROR ∧ sp_heap st2 !! p = None ∧ cspace_exact (sp_cur st) st2 A ∧
    ∀ q, q ≠ sp_cur st → sp_heap st2 !! q = sp_heap st !! q.
Proof.
  intros Hh Hat E. destruct (create_ok _ _ _ _ _ Hh Hat E) as (c & Hp & Ec & Hok & Hn & Hr & Hat1 & Hc & Hnext & Ho).
  assert (0 < sp_cur st < sp_next st) as Hlt by (destruct Hat as (_ & c0 & E0 & _); by apply Hh).
  assert (sp_heap st !! p = None) as Hnone.
  { destruct (sp_heap st !! p) eqn:Ep; [| done]. assert (0 < p < sp_next st) by (apply Hh; eauto). lia. }
  split_and!; [done | split; [lia | eauto] | | by exists c |].
  - intros q Hq. rewrite Hnext. destruct (decide (q = p)); [lia |]. destruct (decide (q = sp_cur st)); [lia |].
    rewrite Ho in Hq by done. apply Hh in Hq. lia.
  - intros e st2 Ed. rewrite <- Hc in Hat1.
    destruct (destroy_ok _ _ _ _ _ _ Hat1 Ec ltac:(set_solver) Ed) as (-> & Hd & Hat2 & _ & _ & Ho2).
    split_and!; [done | done | |].
    + replace A with (({[cs_root_cnode c]} ∪ A) ∖ {[cs_root_cnode c]} : gset Z) by (apply set_eq; set_solver).
      by rewrite <- Hc.
    + intros q Hq. destruct (decide (q = p)) as [-> | Hne]; [by rewrite Hd |].
      rewrite Ho2 by (done || by rewrite Hc). by apply Ho.
Qed.

(** * The first cspace *)

(** The tables alone. *)
Definition tables (t2 : list (option (list Z))) : cspace := mk_cspace 2 0 0 0 0 0 0 [] t2.

Lemma set_entry_eq t2 s v :
  0 ≤ s < 2 ^ 20 → length t2 = 1024%nat → has_table (tables t2) s →
  ∃ t2', set_entry t2 (s / 1024) (CSPACE_LEAF_OFFSET s) v = Ret t2' ∧ length t2' = 1024%nat ∧
    (∀ i, (∃ t, t2' !! i = Some (Some t) ∧ length t = 1024%nat) ↔
          ∃ t, t2 !! i = Some (Some t) ∧ length t = 1024%nat) ∧
    (∀ i, t2' !! i = Some None ↔ t2 !! i = Some None) ∧
    level2_entry (tables t2') s = Ret v ∧
    (∀ s', 0 ≤ s' → s' ≠ s → level2_entry (tables t2') s' = level2_entry (tables t2) s').
Proof.
  intros Hs Hl Ht. destruct (set_level2_entry_eq (tables t2) s v) as (t2' & E & H); [lia | done | lia | done |].
  exists t2'. split; [| exact H]. unfold set_level2_entry in E. rewrite slot_node in E. cbn [cs_table2 tables] in E.
  destruct (set_entry t2 (s / 1024) (CSPACE_LEAF_OFFSET s) v) as [x |]; [| done]. by injection E as ->.
Qed.

(** The tables of the nodes with a slot below [j]. *)
Record boot_tables (j : Z) (t2 : list (option (list Z))) : Prop := {
  bt_len : length t2 = 1024%nat;
  bt_some : ∀ k, 0 ≤ k → 1024 * k < j → ∃ t, t2 !! Z.to_nat k = Some (Some t) ∧ length t = 1024%nat;
  bt_none : ∀ k, k < 1024 → j ≤ 1024 * k → t2 !! Z.to_nat k = Some None
}.

Lemma boot_tables_ext j t2 t2' :
  boot_tables j t2 → length t2' = 1024%nat →
  (∀ i, (∃ t, t2' !! i = Some (Some t) ∧ length t = 1024%nat) ↔ ∃ t, t2 !! i = Some (Some t) ∧ length t = 1024%nat) →
  (∀ i, t2' !! i = Some None ↔ t2 !! i = Some None) → boot_tables j t2'.
Proof.
  intros [Hl Hs Hn] Hl' Hs' Hn'. split; [done | |].
  - intros k Hk Hj. by apply Hs', Hs.
  - intros k Hk Hj. by apply Hn', Hn.
Qed.

Lemma boot_tables_has j t2 s : boot_tables j t2 → 0 ≤ s → 1024 * (s / 1024) < j → has_table (tables t2) s.
Proof. intros Hb Hs Hj. apply (bt_some _ _ Hb); [apply Z.div_pos; lia | done]. Qed.

Lemma boot_tables_new j t2 t :
  boot_tables j t2 → 0 ≤ j < 2 ^ 20 → j mod 1024 = 0 → length t = 1024%nat →
  boot_tables (j + 1) (<[Z.to_nat (j / 1024) := Some t]> t2).
Proof.
  intros [Hl Hs Hn] Hj Hm Ht. assert (0 ≤ j / 1024 < 1024) by (split; [apply Z.div_pos; lia | apply Z.div_lt_upper_bound; lia]).
  assert (j = 1024 * (j / 1024)) as Ej by divmod. split.
  - by rewrite length_insert.
  - intros k Hk Hk'. destruct (decide (k = j / 1024)) as [-> | Hne].
    + exists t. by rewrite list_lookup_insert_eq by lia.
    + rewrite list_lookup_insert_ne by lia. apply Hs; lia.
  - intros k Hk Hk'. rewrite list_lookup_insert_ne by lia. apply Hn; lia.
Qed.

Lemma boot_tables_mono j t2 : boot_tables j t2 → 0 ≤ j → j mod 1024 ≠ 0 → boot_tables (j + 1) t2.
Proof.
  intros [Hl Hs Hn] Hj Hm. split; [done | |]; intros k Hk Hk'.
  - apply Hs; [done |]. assert (1024 * k ≠ j); [| lia]. intros <-. apply Hm. divmod.
  - apply Hn; lia.
Qed.

Lemma boot_tables_init : boot_tables 0 no_tables.
Proof.
  split; [apply length_no_tables | lia |]. intros k Hk Hk'. apply lookup_replicate. split; [done |].
  change (Z.to_nat CSPACE_NODE_SIZE_IN_SLOTS) with 1024%nat. lia.
Qed.

Context `{!malloc_sized W}.

Lemma boot_used_tables n j i t2 st i' t2' st' :
  boot_tables j t2 → 0 ≤ j → j + Z.of_nat n ≤ 2 ^ 20 → (0 < j → i = (j - 1) / 1024) →
  boot_used n j i t2 st = Ret ((i', t2'), st') →
  boot_tables (j + Z.of_nat n) t2' ∧ (0 < j + Z.of_nat n → i' = (j + Z.of_nat n - 1) / 1024) ∧ same_heap st st'.
Proof.
  revert j i t2 st. induction n as [|n IH]; intros j i t2 st Hb Hj Hn Hi E.
  { injection E as <- <- <-. by replace (j + Z.of_nat 0) with j by lia. }
  cbn [boot_used] in E. apply CS_bind_Ret in E as ([i1 t1] & st1 & E1 & E).
  assert (i1 = j / 1024 ∧ boot_tables (j + 1) t1 ∧ same_heap st st1) as (-> & Hb1 & Hs1).
  { rewrite slot_offset in E1. destruct (Z.eqb_spec (j mod 1024) 0) as [Hm | Hm].
    - apply CS_bind_Ret in E1 as (b & s & Em & E1). destruct b as [b |]; [| done].
      cbv zeta in E1. rewrite slot_node in E1. next E1 x. injection E1 as <- <- <-.
      assert (0 ≤ j / 1024 < 1024) by (split; [apply Z.div_pos; lia | apply Z.div_lt_upper_bound; lia]).
      rewrite wr_in in R by (rewrite (Zlength_length _ _ (bt_len _ _ Hb)); lia). apply Ret_inj in R as <-.
      split_and!; [done | | by eapply malloc_heap]. apply boot_tables_new; [done | lia | done |].
      unfold mallocC in Em. destruct (w_malloc (sp_world st)) as [b' w] eqn:Ew. injection Em as -> _.
      apply malloc_size in Ew. unfold Zlength, CSPACE_NODE_SIZE_IN_SLOTS in Ew. lia.
    - injection E1 as <- <- <-. split_and!; [| by apply boot_tables_mono | done..].
      rewrite Hi; [divmod |]. destruct (decide (j = 0)) as [-> |]; [done | lia]. }
  next E t3. destruct (set_entry_eq t1 j 0) as (t3' & Et & Hl & H1 & H2 & _ & _); [lia | by apply bt_len in Hb1 | |].
  { eapply boot_tables_has; [exact Hb1 | lia |]. pose proof (Z.mul_div_le j 1024). lia. }
  rewrite Et in R. apply Ret_inj in R as <-.
  destruct (IH (j + 1) (j / 1024) t3' st1) as (Hb' & Hi' & Hs'); try done; try lia.
  { by eapply boot_tables_ext. }
  { intros _. f_equal. lia. }
  replace (j + Z.of_nat (S n)) with (j + 1 + Z.of_nat n) by lia. split_and!; [done | done |].
  by eapply same_heap_trans.
Qed.

(** The rest of the node of [j] becomes a list that ends at its last slot. *)
Lemma boot_free_list fuel j t2 b :
  boot_tables b t2 → 0 ≤ j < 2 ^ 20 → 1024 * (j / 1024) < b → 1024 - j mod 1024 ≤ Z.of_nat fuel →
  ∃ t2', boot_free fuel j (j / 1024) t2 = Ret t2' ∧ boot_tables b t2' ∧
    (∀ k, j ≤ k < 1024 * (j / 1024) + 1023 → level2_entry (tables t2') k = Ret (k + 1)) ∧
    level2_entry (tables t2') (1024 * (j / 1024) + 1023) = Ret CSPACE_NULL ∧
    (∀ k, 0 ≤ k < j → level2_entry (tables t2') k = level2_entry (tables t2) k).
Proof.
  revert j t2. induction fuel as [|fuel IH]; intros j t2 Hb Hj Hk Hf; pose proof (Z.mod_pos_bound j 1024 ltac:(lia)); [lia |].
  cbn [boot_free]. pose proof (boot_tables_has _ _ _ Hb (proj1 Hj) Hk) as Ht.
  replace (CSPACE_LEAF_OFFSET j <? CSPACE_NODE_SIZE_IN_SLOTS - 1) with (j mod 1024 <? 1024 - 1) by (by rewrite slot_offset).
  destruct (Z.ltb_spec (j mod 1024) (1024 - 1)) as [Hm | Hm].
  - destruct (set_entry_eq t2 j (j + 1) Hj (bt_len _ _ Hb) Ht) as (t3 & E & Hl & H1 & H2 & Ej & Eo).
    rewrite E. cbn [mbind outcome_bind]. assert ((j + 1) / 1024 = j / 1024) as Ed by divmod.
    destruct (IH (j + 1) t3) as (t2' & E' & Hb' & Hn & Hlast & Hlow).
    { by eapply boot_tables_ext. } { divmod. } { by rewrite Ed. } { divmod. }
    rewrite Ed in E', Hn, Hlast. exists t2'. split_and!; [done | done | | done |].
    + intros k Hk'. destruct (decide (k = j)) as [-> | Hne]; [| apply Hn; lia]. rewrite Hlow by lia. exact Ej.
    + intros k Hk'. rewrite Hlow by lia. apply Eo; lia.
  - destruct (set_entry_eq t2 j CSPACE_NULL Hj (bt_len _ _ Hb) Ht) as (t3 & E & Hl & H1 & H2 & Ej & Eo).
    exists t3. assert (1024 * (j / 1024) + 1023 = j) as -> by divmod. split_and!; [done | by eapply boot_tables_ext | lia | done |].
    intros k Hk'. apply Eo; lia.
Qed.

(** 1024 rounds are enough for every start: the loop does not run out of them. *)
Lemma boot_free_ends fuel j i t2 :
  1024 - j mod 1024 ≤ Z.of_nat fuel → boot_free fuel j i t2 ≠ Fault OutOfFuel.
Proof.
  assert (∀ t i k v, set_entry t i k v ≠ Fault OutOfFuel) as Hset.
  { intros t i' k v. unfold set_entry, rd, wr, deref, c_assert. cbn [mbind outcome_bind].
    repeat (case_match; simplify_eq/=; try done). }
  revert j t2. induction fuel as [|fuel IH]; intros j t2 Hf; pose proof (Z.mod_pos_bound j 1024 ltac:(lia)); [lia |].
  cbn [boot_free]. replace (CSPACE_LEAF_OFFSET j <? CSPACE_NODE_SIZE_IN_SLOTS - 1) with (j mod 1024 <? 1024 - 1) by (by rewrite slot_offset).
  destruct (Z.ltb_spec (j mod 1024) (1024 - 1)) as [Hm | Hm]; [| apply Hset].
  pose proof (Hset t2 i (CSPACE_LEAF_OFFSET j) (j + 1)) as Hs. destruct (set_entry _ _ _ _) as [t3 | f]; cbn [mbind outcome_bind].
  - apply IH. divmod.
  - congruence.
Qed.

(** Only the table of the node [i] changes. *)
Lemma boot_free_other fuel j i t2 t2' x :
  boot_free fuel j i t2 = Ret t2' → x ≠ Z.to_nat i → t2' !! x = t2 !! x.
Proof.
  assert (∀ t t' k v, set_entry t i k v = Ret t' → x ≠ Z.to_nat i → t' !! x = t !! x) as Hset.
  { intros t t' k v E Hx. unfold set_entry in E. destruct (rd t i) as [o |]; [| done]. destruct o as [o |]; [| done].
    cbn in E. destruct (wr o k v) as [o' |]; [| done]. cbn in E. apply wr_Ret in E as [_ ->].
    by rewrite list_lookup_insert_ne. }
  revert j t2. induction fuel as [|fuel IH]; intros j t2 E Hx; [done |]. cbn [boot_free] in E.
  destruct (CSPACE_LEAF_OFFSET j <? CSPACE_NODE_SIZE_IN_SLOTS - 1); [| by eapply Hset].
  destruct (set_entry t2 i (CSPACE_LEAF_OFFSET j) (j + 1)) as [t3 |] eqn:E3; [| done].
  rewrite (IH _ _ E Hx). by eapply Hset.
Qed.

Lemma boot_nodes_table n cptr i t1 st t1' st' :
  0 ≤ i → boot_nodes n cptr i t1 st = Ret (t1', st') →
  length t1' = length t1 ∧ (∀ k, i + Z.of_nat n ≤ k → t1' !! Z.to_nat k = t1 !! Z.to_nat k) ∧ same_heap st st'.
Proof.
  revert i t1 st. induction n as [|n IH]; intros i t1 st Hi E; [by injection E as <- <- |].
  cbn [boot_nodes] in E. next E a. next E u. next E t. destruct t as [ut_cptr offset]. next E t2. next E e.
  unfold sel4_error in E. next E u2. apply wr_Ret in R1 as [_ ->]. apply ut_alloc_heap in R. apply sel4_heap in R2.
  apply IH in E as (Hl & Hk & Hs); [| lia]. rewrite length_insert in Hl.
  split_and!; [done | | by eauto using same_heap_trans].
  intros k Hk'. rewrite Hk by lia. by rewrite list_lookup_insert_ne by lia.
Qed.

Lemma boot_moves_heap n i st u st' : boot_moves n i st = Ret (u, st') → same_heap st st'.
Proof.
  revert i st. induction n as [|n IH]; intros i st E; [by injection E as <- <- |].
  cbn [boot_moves] in E. apply CS_bind_Ret in E as (u1 & s1 & E1 & E). apply IH in E.
  eapply same_heap_trans; [| exact E].
  destruct ((i =? seL4_CapInitThreadCNode) || (i =? seL4_CapIPI) || (i =? seL4_CapIOPort) ||
            (i =? seL4_CapIOSpace) || (i =? seL4_CapArchBootInfoFrame)); [by injection E1 as _ <- |].
  next E1 e. apply assertC_Ret in E1 as [_ ->]. by apply sel4_heap in R.
Qed.

(** What [cspace_root_task_bootstrap] leaves behind. *)
Lemma bootstrap_runs start end_ st e st' :
  0 < start ≤ 1023 * 1024 → cspace_root_task_bootstrap start end_ st = Ret (e, st') →
  ∃ addr g t1 t2 t2', sp_heap st' !! sp_cur st' = Some (mk_cspace 2 seL4_CapInitThreadCNode g addr
      ((start - 1) / 1024 + 1) start (1024 - start mod 1024) t1 t2') ∧
    sp_cur st' = sp_next st ∧ length t1 = 1024%nat ∧
    (∀ k, (start - 1) / 1024 + 1 ≤ k → t1 !! Z.to_nat k = level1_list !! Z.to_nat k) ∧
    boot_tables start t2 ∧ boot_free 1024 start ((start - 1) / 1024) t2 = Ret t2'.
Proof.
  intros Hs E. unfold cspace_root_task_bootstrap in E. next E u. next E b. next E u2. next E a. next E u3. next E t.
  destruct t as [ut_cptr offset]. unfold sel4_error in E. next E e1. next E u4. cbv zeta in E.
  rewrite (u32_small (start - 1)), slot_node in E by lia. next E t1. next E e2. next E u5. next E e3. next E u6.
  next E e4. next E u7. next E v8. next E e5. next E u9. next E x. destruct x as [i t2]. next E t2'.
  next E p. injection R18 as <- <-. next E u10. injection R18 as _ <-. injection E as <- <-.
  assert (0 ≤ (start - 1) / 1024) by (apply Z.div_pos; lia).
  apply boot_nodes_table in R6 as (Hl & Hk & Hs6); [| lia]. rewrite length_level1 in Hl.
  apply boot_used_tables in R16 as (Hb & Hi & Hs17); [| apply boot_tables_init | lia..].
  replace (0 + Z.of_nat (Z.to_nat start)) with start in Hb, Hi by lia. rewrite (Hi ltac:(lia)) in *.
  apply malloc_heap in R0. apply ut_alloc_heap in R2. apply sel4_heap in R4, R7, R9, R11, R14. apply boot_moves_heap in R13.
  exists a, (seL4_CapData_Guard_new 0 CSPACE_TWO_LEVEL_SKIP_BITS), t1, t2, t2'. cbn [sp_heap sp_cur sp_next].
  split_and!; [| | done | | done | done].
  - rewrite lookup_insert_eq, slot_offset. by rewrite (i32_small start) by lia.
  - unfold same_heap in *. intuition congruence.
  - intros k Hk'. apply Hk. lia.
Qed.

(** The free slots when the first of them is not the first of its node. *)
Lemma boot_rep g addr start t1 t2 t2' :
  0 < start ≤ 1023 * 1024 → start mod 1024 ≠ 0 → length t1 = 1024%nat →
  (∀ k, (start - 1) / 1024 + 1 ≤ k → t1 !! Z.to_nat k = level1_list !! Z.to_nat k) →
  boot_tables start t2 → boot_free 1024 start ((start - 1) / 1024) t2 = Ret t2' →
  let c := mk_cspace 2 seL4_CapInitThreadCNode g addr ((start - 1) / 1024 + 1) start (1024 - start mod 1024) t1 t2' in
  rep2 c (seqZ start (1024 - start mod 1024)) (seqZ (start / 1024 + 1) (1024 - (start / 1024 + 1))) ∧
  ∀ s, 0 ≤ s < 2 ^ 20 → has_table c s ↔ s / 1024 ≤ start / 1024.
Proof.
  intros Hs Hm Hl Ht1 Hb E c. assert ((start - 1) / 1024 = start / 1024) as Ed by divmod.
  assert (0 ≤ start / 1024 < 1023) as Hd by (split; [apply Z.div_pos; lia | apply Z.div_lt_upper_bound; [lia |]; divmod]).
  destruct (boot_free_list 1024 start t2 start) as (t3 & E' & Hb' & Hn & Hlast & _);
    [done | lia | divmod | pose proof (Z.mod_pos_bound start 1024); lia |].
  rewrite Ed, E' in E. injection E as ->. pose proof (Z.mod_pos_bound start 1024 ltac:(lia)) as Hmp.
  assert (∀ s, 0 ≤ s → s / 1024 ≤ start / 1024 → has_table c s) as Htab.
  { intros s Hs0 Hsd. apply (bt_some _ _ Hb'); [apply Z.div_pos; lia | divmod]. }
  split; last first.
  { intros s Hss. split; [| apply Htab; lia]. intros (t & Ht & _).
    destruct (decide (s / 1024 ≤ start / 1024)); [done |].
    assert (s / 1024 < 1024) by (apply Z.div_lt_upper_bound; lia).
    assert (t2' !! Z.to_nat (s / 1024) = Some None) as Hnone by (apply (bt_none _ _ Hb'); [lia | divmod]).
    cbn [cs_table2 c] in Ht. by rewrite Hnone in Ht. }
  split; cbn [cs_levels cs_num cs_table1 cs_table2 cs_next1 cs_next2 c]; [done | | done | apply Hb' | | apply NoDup_seqZ | | | apply NoDup_seqZ |].
  - rewrite (Zlength_length _ (Z.to_nat (1024 - start mod 1024))) by apply length_seqZ. lia.
  - rewrite Ed. apply level1_chain; [lia |]. intros i Hi. apply Ht1. lia.
  - apply Forall_forall. intros x Hx%elem_of_seqZ. split; [lia |]. apply (bt_none _ _ Hb'); [lia | divmod].
  - apply chain_seq; [lia | | | unfold CSPACE_NULL; lia].
    + intros k Hk. unfold next2. rewrite (level2_entry_ext (tables t2')) by (done || lia).
      rewrite Hn by divmod. by rewrite i32_small by divmod.
    + replace (start + (1024 - start mod 1024) - 1) with (1024 * (start / 1024) + 1023) by divmod.
      unfold next2. rewrite (level2_entry_ext (tables t2')) by (done || lia). by rewrite Hlast.
  - apply Forall_forall. intros x Hx%elem_of_seqZ. split; [divmod |]. apply Htab; [lia |]. divmod.
Qed.

Lemma bootstrap_at start end_ st e st' :
  0 < start ≤ 1023 * 1024 → 0 < sp_next st → cspace_root_task_bootstrap start end_ st = Ret (e, st') →
  start mod 1024 ≠ 0 →
  cspace_exact (sp_cur st') st' (list_to_set (seqZ 1 (start - 1))) ∧
  ∃ st'', cspace_alloc_slot (sp_cur st') st' = Ret (start, st'').
Proof.
  intros Hs Hz E Hm. destruct (bootstrap_runs _ _ _ _ _ Hs E) as (addr & g & t1 & t2 & t2' & Ec & Hcur & Hl & Ht1 & Hb & Ef).
  assert (sp_cur st' ≠ 0) as Hp by lia.
  destruct (boot_rep g addr _ _ _ _ Hs Hm Hl Ht1 Hb Ef) as [Hrep Htab]. split.
  - split; [done |]. eexists. split; [exact Ec |]. right. do 2 eexists. split; [exact Hrep |]. split.
    + intros s. rewrite elem_of_list_to_set, !elem_of_seqZ. split.
      * intros Hr. split_and!; [lia | lia | apply Htab; [lia | apply Z.div_le_mono; lia] | lia].
      * intros (Hr & Ht & Hn). apply Htab in Ht; [| lia]. divmod.
    + intros g' Hg. rewrite elem_of_seqZ. destruct (decide (g' ≤ start / 1024)); [right | left; lia].
      apply Htab; [lia |]. by replace (1024 * g' / 1024) with g' by divmod.
  - pose proof (Z.mod_pos_bound start 1024 ltac:(lia)). rewrite seqZ_cons in Hrep by lia.
    destruct (alloc_slot2 _ _ _ _ _ _ Hp Ec Hrep) as (c' & E' & _). eauto.
Qed.

(** [C27] The first cspace.  When the boot slots do not end at the end of a node, the
    slots in use are exactly those below [start], every other slot being free or in
    a node that can still be made, and [start] is the first slot to be handed out;
    from then on the slots in use are exactly those that were taken and not given
    back.  When the boot slots end at the end of a node, the next node has no table:
    the first allocation follows a null pointer. *)
Theorem cspace_bootstrap_correct start end_ st e st' :
  0 < start ≤ 1023 * 1024 → 0 < sp_next st → cspace_root_task_bootstrap start end_ st = Ret (e, st') →
  (start mod 1024 ≠ 0 →
     let boot := list_to_set (seqZ 1 (start - 1)) in
     cspace_exact (sp_cur st') st' boot ∧
     (∃ st'', cspace_alloc_slot (sp_cur st') st' = Ret (start, st'')) ∧
     ∀ st'' A, rtc (slot_step (sp_cur st')) (st', boot) (st'', A) → cspace_exact (sp_cur st') st'' A) ∧
  (start mod 1024 = 0 → cspace_alloc_slot (sp_cur st') st' = Fault NullDeref).
Proof.
  intros Hs Hz E. split; intros Hm.
  { intros boot. destruct (bootstrap_at _ _ _ _ _ Hs Hz E Hm) as [Hx Ha]. split_and!; [done | done |].
    intros st'' A Hst. exact (slot_steps_law _ _ _ _ cspace_exact_law Hst Hx). }
  destruct (bootstrap_runs _ _ _ _ _ Hs E) as (addr & g & t1 & t2 & t2' & Ec & Hcur & Hl & Ht1 & Hb & Ef).
  assert (sp_cur st' ≠ 0) as Hp by lia.
  unfold cspace_alloc_slot. erewrite CS_bind_eq by (apply assertC_eq; by destruct (Z.eqb_spec (sp_cur st') 0)).
  erewrite CS_bind_eq by (by apply load_cs_eq). cbn [cs_levels]. change (2 =? 1) with false. change (2 =? 2) with true.
  cbv iota. unfold cspace_alloc_level2_slot. erewrite CS_bind_eq by (by apply load_cs_eq). cbn [cs_num].
  destruct (Z.leb_spec (1024 - start mod 1024) 0); [lia |]. erewrite CS_bind_eq by reflexivity. cbn [cs_next2].
  rewrite (u32_small start) by lia. unfold mbind at 1, CS_bind, liftC, level2_entry. cbn [cs_table2].
  assert (0 ≤ start / 1024 < 1024) by (split; [apply Z.div_pos; lia | apply Z.div_lt_upper_bound; lia]).
  assert (t2' !! Z.to_nat (start / 1024) = Some None) as Hnone.
  { rewrite (boot_free_other _ _ _ _ _ _ Ef); [apply (bt_none _ _ Hb); [lia | divmod] |].
    assert (0 ≤ (start - 1) / 1024) by (apply Z.div_pos; lia). divmod. }
  rewrite slot_node. by rewrite (rd_lookup _ _ None) by (done || lia).
Qed.
End operations.

(** * Examples *)

(** A machine with four blocks of memory on which every call succeeds. *)
Definition example_world : sos_world :=
  mk_sos_world
  match ut_allocator_init (ut_boot (replicate 40 true)) 32768 98304 with
    | Ret u => u
    | Fault _ => ut_boot []
    end
    tb_example (λ _, Some (λ _, 0)) (λ _, 0) 0 [].

Definition boot_example (start : Z) : cspaces sos_world :=
  match cspace_root_task_bootstrap start 4096 (mk_cspaces ∅ 1 0 example_world) with
  | Ret (_, st) => st
  | Fault _ => mk_cspaces ∅ 1 0 example_world
  end.

Lemma boot_example_runs start :
  start = 1020 ∨ start = 1024 →
  cspace_root_task_bootstrap start 4096 (mk_cspaces ∅ 1 0 example_world) = Ret (CSPACE_NOERROR, boot_example start).
Proof.
  assert (∀ (o : outcome (Z * cspaces sos_world)) d,
    match o with Ret (e, _) => e =? 0 | Fault _ => false end = true →
    o = Ret (CSPACE_NOERROR, match o with Ret (_, st) => st | Fault _ => d end)) as H.
  { intros [[e st] |] d; [| discriminate]. intros ->%Z.eqb_eq. reflexivity. }
  intros [-> | ->]; apply H; vm_compute; reflexivity.
Qed.

(** [n] allocations from the first cspace, as far as they succeed. *)
Fixpoint allocs (n : nat) (x : cspaces sos_world * gset Z) : cspaces sos_world * gset Z :=
  match n with
  | O => x
  | S n' =>
      match cspace_alloc_slot 1 x.1 with
      | Ret (s, st) => allocs n' (st, if s =? CSPACE_NULL then x.2 else {[s]} ∪ x.2)
      | Fault _ => x
      end
  end.

Lemma allocs_steps n x : rtc (slot_step 1) x (allocs n x).
Proof.
  revert x. induction n as [|n IH]; intros [st A]; [done |]. cbn [allocs fst snd].
  destruct (cspace_alloc_slot 1 st) as [[s st'] |] eqn:E; [| done].
  eapply rtc_l; [| apply IH]. by constructor.
Qed.

Lemma allocs_union n st A B : (allocs n (st, A ∪ B)).2 = (allocs n (st, A)).2 ∪ B.
Proof.
  revert st A. induction n as [|n IH]; intros st A; [done |]. cbn [allocs fst snd].
  destruct (cspace_alloc_slot 1 st) as [[s st'] |]; [| done].
  destruct (s =? CSPACE_NULL); [apply IH |]. rewrite <- IH. f_equal. f_equal. f_equal. by rewrite (assoc_L (∪)).
Qed.

Lemma allocs_empty n st A s : s ∈ (allocs n (st, ∅)).2 → s ∈ (allocs n (st, A)).2.
Proof. intros Hs. rewrite <- (left_id_L ∅ (∪) A), allocs_union. by apply elem_of_union_l. Qed.

Lemma boot_example_at :
  cspace_exact 1 (boot_example 1020) (list_to_set (seqZ 1 (1020 - 1))) ∧ sp_cur (boot_example 1020) = 1.
Proof.
  assert (sp_cur (boot_example 1020) = 1) as Hc by (vm_compute; reflexivity). split; [| exact Hc].
  destruct (bootstrap_at 1020 4096 (mk_cspaces ∅ 1 0 example_world) CSPACE_NOERROR (boot_example 1020)) as [H _];
    [lia | cbn; lia | apply boot_example_runs; left; reflexivity | discriminate |].
  rewrite Hc in H. exact H.
Qed.

Lemma boot_example_heap : heap_ok (boot_example 1020).
Proof.
  intros q [c Hq]. assert (q ∈ dom (sp_heap (boot_example 1020))) as Hd by (apply elem_of_dom; eauto).
  assert (dom (sp_heap (boot_example 1020)) = {[1]}) as Ed by (vm_compute; reflexivity).
  rewrite Ed in Hd. apply elem_of_singleton in Hd as ->.
  assert (sp_next (boot_example 1020) = 2) as -> by (vm_compute; reflexivity). lia.
Qed.

(** The fifth slot is the first of a new node. *)
Lemma fifth_slot (A : gset Z) : 1024 ∈ (allocs 5 (boot_example 1020, A)).2.
Proof.
  apply allocs_empty. vm_compute. reflexivity.
Qed.

Lemma cspace_slots_distinct_witness :
  let x := allocs 5 (boot_example 1020, list_to_set (seqZ 1 (1020 - 1))) in
  1024 ∈ x.2 ∧ ∃ st, cspace_free_slot 1 1024 x.1 = Ret (CSPACE_NOERROR, st).
Proof.
  intros x. destruct (cspace_slots_distinct 1 (boot_example 1020) (list_to_set (seqZ 1 (1020 - 1))) x.1 x.2) as (_ & _ & _ & H).
  - apply cspace_exact_at, boot_example_at.
  - rewrite <- surjective_pairing. apply allocs_steps.
  - assert (1024 ∈ x.2) as Hin.
    { apply fifth_slot. }
    split; [exact Hin | apply H; exact Hin].
Defined.

Lemma outcome_returns {A : Type} (o : outcome A) :
  match o with Ret _ => true | Fault _ => false end = true → ∃ a, o = Ret a.
Proof. destruct o as [a |]; [eauto | discriminate]. Qed.

Lemma create_destroy_example :
  ∃ p st1 e st2, cspace_create 2 (boot_example 1020) = Ret (p, st1) ∧ cspace_destroy p st1 = Ret (e, st2).
Proof.
  destruct (outcome_returns ((cspace_create 2 ≫= cspace_destroy) (boot_example 1020))) as [[e st2] E];
    [vm_compute; reflexivity |].
  apply CS_bind_Ret in E as (p & st1 & E1 & E2). exists p, st1, e, st2. split; [exact E1 | exact E2].
Qed.

Lemma cspace_create_destroy_witness :
  ∃ p st1 st2, cspace_create 2 (boot_example 1020) = Ret (p, st1) ∧ cspace_destroy p st1 = Ret (CSPACE_NOERROR, st2) ∧
    cspace_exact p st1 ∅ ∧ cspace_exact 1 st2 (list_to_set (seqZ 1 (1020 - 1))).
Proof.
  destruct create_destroy_example as (p & st1 & e & st2 & E & Ed). destruct boot_example_at as [Hat Hc].
  destruct (cspace_create_destroy 2 (boot_example 1020) p st1 (list_to_set (seqZ 1 (1020 - 1)))) as (_ & Hat1 & _ & _ & Hd).
  - exact boot_example_heap.
  - rewrite Hc. exact Hat.
  - exact E.
  - destruct (Hd e st2 Ed) as (He & _ & Hat2 & _). rewrite Hc in Hat2. rewrite He in Ed.
    exists p, st1, st2. split_and!; [exact E | exact Ed | exact Hat1 | exact Hat2].
Defined.

Lemma cspace_bootstrap_correct_witness :
  (∃ st, cspace_alloc_slot (sp_cur (boot_example 1020)) (boot_example 1020) = Ret (1020, st)) ∧
  cspace_alloc_slot (sp_cur (boot_example 1024)) (boot_example 1024) = Fault NullDeref.
Proof.
  split.
  - apply (cspace_bootstrap_correct 1020 4096 (mk_cspaces ∅ 1 0 example_world) CSPACE_NOERROR);
      [lia | cbn; lia | apply boot_example_runs; left; reflexivity | discriminate].
  - apply (cspace_bootstrap_correct 1024 4096 (mk_cspaces ∅ 1 0 example_world) CSPACE_NOERROR);
      [lia | cbn; lia | apply boot_example_runs; right; reflexivity | reflexivity].
Defined.
