(* ===== verification/Startup.v ===== *)
(** Starting up (apps/sos/src/main.c, and the interrupts of dev/network.c).

    [_sos_init] builds the memory managers on top of each other: the table of
    untyped objects, the memory for DMA, the allocator, the first cspace.
    [boot_memory] is its first part; [main_caps] makes the endpoints and the
    interrupt handlers out of the allocator and the cspace.  The theorems put the
    theorems of the components together. *)

From S2P Require Import Prelude UtAllocator UtTable Cspace CspaceInv.

Definition DMA_BITS : Z := 22.
Definition seL4_EndpointBits : Z := 4.
Definition seL4_EndpointObject : Z := 2.
Definition seL4_AsyncEndpointObject : Z := 3.
Definition seL4_CapIRQControl : Z := 4.
Definition EPIT1_IRQ : Z := 88.
Definition EPIT2_IRQ : Z := 89.

(** * Memory *)

(** [_sos_init] up to the allocator; [malloc] says which of its calls find
    memory. *)
Definition boot_memory (bi : option bootinfo) (malloc : list bool) :
    outcome (Z * ut_table * ut_state) :=
  _ ← c_assert (bool_decide (is_Some bi));
  '(err, t) ← ut_table_init tb_boot bi;
  _ ← c_assert (err =? 0);
  let '(dma_addr, t) := ut_steal_mem t DMA_BITS in
  _ ← c_assert (negb (dma_addr =? 0));
  let '(low, high) := ut_find_memory t in
  u ← ut_allocator_init (ut_boot malloc) low high;
  Ret (dma_addr, t, u).

(** * Endpoints and interrupts *)

Section caps.
Context {W : Type} `{!cspace_world W}.

(** An object in a new slot of the current cspace; an error ends the program. *)
Definition new_object (type bits : Z) : CS W Z :=
  addr ← ut_allocC bits;
  _ ← assertC (negb (addr =? 0));
  cur ← cur_cspace;
  '(err, cap) ← cspace_ut_retype_addr addr type bits cur;
  _ ← assertC (err =? 0);
  mret (default 0 cap).

(** [_sos_ipc_init]: the endpoint for processes and the one for interrupts. *)
Definition sos_ipc_init : CS W (Z * Z) :=
  async_ep ← new_object seL4_AsyncEndpointObject seL4_EndpointBits;
  err ← sel4 (TCB_BindAEP seL4_CapInitThreadTCB async_ep);
  _ ← assertC (err =? 0);
  ipc_ep ← new_object seL4_EndpointObject seL4_EndpointBits;
  mret (ipc_ep, async_ep).

(** [badge_irq_ep], with the badge bit of interrupts; a badge has 28 bits. *)
Definition badge_irq_ep (ep badge : Z) : CS W Z :=
  cur ← cur_cspace;
  cap ← cspace_mint_cap cur cur ep seL4_AllRights (Z.lor badge (Z.shiftl 1 27) mod 2 ^ 28);
  _ ← assertC (negb (cap =? 0));
  mret cap.

(** [enable_irq] of network.c. *)
Definition enable_irq (irq aep : Z) : CS W Z :=
  cur ← cur_cspace;
  cap ← cspace_irq_control_get_cap cur seL4_CapIRQControl irq;
  _ ← assertC (negb (cap =? 0));
  err ← sel4 (IRQHandler_SetEndpoint cap aep);
  _ ← assertC (err =? 0);
  err ← sel4 (IRQHandler_Ack cap);
  _ ← assertC (err =? 0);
  mret cap.

(** The loop of [network_init] over the interrupts of the card. *)
Fixpoint enable_irqs (irqs : list Z) (aep : Z) : CS W (list Z) :=
  match irqs with
  | [] => mret []
  | irq :: irqs' =>
      cap ← enable_irq irq aep;
      caps ← enable_irqs irqs' aep;
      mret (cap :: caps)
  end.

(** The acknowledgements of [network_irq]. *)
Fixpoint ack_irqs (caps : list Z) : CS W unit :=
  match caps with
  | [] => mret tt
  | cap :: caps' =>
      err ← sel4 (IRQHandler_Ack cap);
      _ ← assertC (err =? 0);
      ack_irqs caps'
  end.

(** The capabilities for messages and interrupts that [main] makes, in its order: the two
    endpoints of [_sos_ipc_init], the badged one for the network and the handlers of the
    network's interrupts ([network_init]), the badged one for the timer and the handlers of
    the two EPITs ([start_timer], whose [_enable_irq] is the same code as [enable_irq]).
    The capabilities of mapped frames and devices are not among them. *)
Definition main_caps (irqs : list Z) : CS W (list Z) :=
  '(ipc_ep, async_ep) ← sos_ipc_init;
  net ← badge_irq_ep async_ep 1;
  caps ← enable_irqs irqs net;
  timer ← badge_irq_ep async_ep 2;
  epits ← enable_irqs [EPIT1_IRQ; EPIT2_IRQ] timer;
  mret (rev epits ++ timer :: rev caps ++ [net; ipc_ep; async_ep]).

(** * Slots *)

(** The slots [caps] have been taken from the current cspace. *)
Definition took (st : cspaces W) (A : gset Z) (caps : list Z) (st' : cspaces W) : Prop :=
  sp_cur st' = sp_cur st ∧ NoDup caps ∧ (∀ c, c ∈ caps → c ∉ A ∧ c ≠ CSPACE_NULL) ∧
  cspace_at (sp_cur st) st' (list_to_set caps ∪ A).

Lemma took_one st A c st' :
  c ≠ CSPACE_NULL → c ∉ A → cspace_at (sp_cur st) st' ({[c]} ∪ A) → sp_cur st' = sp_cur st → took st A [c] st'.
Proof.
  intros Hz Hc Hat Hcur. split_and!; [done | apply NoDup_singleton | | ].
  - by intros x ->%list_elem_of_singleton.
  - by replace (list_to_set [c] ∪ A) with ({[c]} ∪ A) by (apply set_eq; set_solver).
Qed.

Lemma took_app st A l1 st1 l2 st2 :
  took st A l1 st1 → took st1 (list_to_set l1 ∪ A) l2 st2 → took st A (l2 ++ l1) st2.
Proof.
  intros (C1 & N1 & F1 & A1) (C2 & N2 & F2 & A2). split_and!.
  - congruence.
  - apply NoDup_app. split_and!; [done | | done]. intros x Hx Hx1. destruct (F2 x Hx). set_solver.
  - intros c [Hc | Hc]%elem_of_app; [| by apply F1]. destruct (F2 c Hc). set_solver.
  - rewrite C1 in A2. by replace (list_to_set (l2 ++ l1) ∪ A) with (list_to_set l2 ∪ (list_to_set l1 ∪ A) : gset Z)
      by (apply set_eq; set_solver).
Qed.

Lemma took_same st st1 A l st2 : same_heap st st1 → took st1 A l st2 → took st A l st2.
Proof. intros (_ & E & _) (C & N & F & Hat). split_and!; [congruence | done | done | by rewrite <- E]. Qed.

Lemma took_same_r st A l st1 st2 : took st A l st1 → same_heap st1 st2 → took st A l st2.
Proof.
  intros (C & N & F & Hat) Hs. split_and!; [| done | done | by eapply cspace_at_same].
  destruct Hs as (_ & E & _). congruence.
Qed.

Lemma retype_ok addr type bits p st A cap st' :
  cspace_at p st A → cspace_ut_retype_addr addr type bits p st = Ret ((0, cap), st') →
  ∃ c, cap = Some c ∧ c ≠ CSPACE_NULL ∧ c ∉ A ∧ cspace_at p st' ({[c]} ∪ A) ∧ only p st st'.
Proof.
  intros Hat E. unfold cspace_ut_retype_addr in E. next E new.
  destruct (Z.eqb_spec new CSPACE_NULL) as [-> | Hz]; [by injection E |].
  destruct (alloc_slot_ok _ _ _ _ _ Hat R) as [[-> _] | (_ & Hfresh & Hat1 & Hon)]; [done |].
  next E r. destruct r as [[ut_cptr offset] |]; [| by injection E].
  next E c. next E err. injection E as _ <- <-. apply sel4_heap in R2. exists new.
  split_and!; [done | done | done | by eapply cspace_at_same |].
  eapply only_trans; [exact Hon | by apply only_same].
Qed.

Lemma new_object_took type bits st A c st' :
  cspace_at (sp_cur st) st A → new_object type bits st = Ret (c, st') → took st A [c] st'.
Proof.
  intros Hat E. unfold new_object in E. next E a. next E u. next E cur. injection R1 as <- <-.
  apply ut_alloc_heap in R. pose proof (cspace_at_same _ _ _ _ R Hat) as Hat1.
  destruct R as (Hh & Hcur & Hn). rewrite <- Hcur in Hat1.
  apply CS_bind_Ret in E as ([err cap] & s1 & Er & E). next E u'. injection E as <- <-.
  apply Z.eqb_eq in R as ->. destruct (retype_ok _ _ _ _ _ _ _ _ Hat1 Er) as (c & -> & Hz & Hc & Hat2 & _ & Hcur2 & _).
  rewrite Hcur in *. apply took_one; [done | done | done | congruence].
Qed.

Lemma sos_ipc_init_took st A ipc_ep async_ep st' :
  cspace_at (sp_cur st) st A → sos_ipc_init st = Ret ((ipc_ep, async_ep), st') → took st A [ipc_ep; async_ep] st'.
Proof.
  intros Hat E. unfold sos_ipc_init in E. apply CS_bind_Ret in E as (aep & s1 & E1 & E).
  pose proof (new_object_took _ _ _ _ _ _ Hat E1) as H1. next E err. next E u.
  apply CS_bind_Ret in E as (ep & s2 & E2 & E). injection E as <- <- <-. apply sel4_heap in R.
  pose proof (took_same_r _ _ _ _ _ H1 R) as H1'. pose proof H1' as (C1 & _ & _ & Hat1). rewrite <- C1 in Hat1.
  apply (took_app _ _ [aep] s [ep]); [done |]. by eapply new_object_took.
Qed.

Lemma with_slot_took call st A c st' :
  cspace_at (sp_cur st) st A → with_slot (sp_cur st) (sp_cur st) call st = Ret (c, st') → took st A [c] st'.
Proof.
  intros Hat E. destruct (with_slot_ok _ _ _ _ _ _ _ Hat E) as (Hz & Hc & Hat' & _ & Hcur & _).
  by apply took_one.
Qed.

Lemma badge_irq_ep_took ep badge st A c st' :
  cspace_at (sp_cur st) st A → badge_irq_ep ep badge st = Ret (c, st') → took st A [c] st'.
Proof.
  intros Hat E. unfold badge_irq_ep in E. next E cur. injection R as <- <-. next E cap. next E u. injection E as <- <-.
  by eapply with_slot_took.
Qed.

Lemma enable_irq_took irq aep st A c st' :
  cspace_at (sp_cur st) st A → enable_irq irq aep st = Ret (c, st') → took st A [c] st'.
Proof.
  intros Hat E. unfold enable_irq in E. next E cur. injection R as <- <-. next E cap. next E u. next E e1.
  next E u1. next E e2. next E u2. injection E as <- <-. apply sel4_heap in R1, R3.
  eapply took_same_r; [| exact (same_heap_trans _ _ _ R1 R3)]. by eapply with_slot_took.
Qed.

Lemma enable_irqs_took irqs aep st A caps st' :
  cspace_at (sp_cur st) st A → enable_irqs irqs aep st = Ret (caps, st') → took st A (rev caps) st'.
Proof.
  revert st A caps. induction irqs as [|irq irqs IH]; intros st A caps Hat E.
  - injection E as <- <-. cbn [rev]. unfold took. split_and!; [done | by apply NoDup_nil | by intros c ?%elem_of_nil |].
    by replace (list_to_set [] ∪ A) with A by (apply set_eq; set_solver).
  - cbn [enable_irqs] in E. apply CS_bind_Ret in E as (cap & s1 & E1 & E). apply CS_bind_Ret in E as (caps' & s2 & E2 & E).
    injection E as <- <-. pose proof (enable_irq_took _ _ _ _ _ _ Hat E1) as H1.
    pose proof H1 as (C1 & _ & _ & Hat1). rewrite <- C1 in Hat1. cbn [rev]. eapply took_app; [exact H1 |]. by eapply IH.
Qed.

Lemma enable_irqs_length irqs aep st caps st' :
  enable_irqs irqs aep st = Ret (caps, st') → Zlength caps = Zlength irqs.
Proof.
  revert st caps st'. induction irqs as [|i irqs IH]; intros st caps st' E; [by injection E as <- <- |].
  cbn [enable_irqs] in E. next E c. next E cs. injection E as <- <-. rewrite !Zlength_cons. by rewrite (IH _ _ _ R0).
Qed.

(** The capabilities for messages and interrupts that SOS makes when it starts are in slots of their own: no two are
    the same, none is in use before, and the cspace counts them as in use. *)
Theorem startup_caps irqs st A caps st' :
  cspace_at (sp_cur st) st A → main_caps irqs st = Ret (caps, st') →
  NoDup caps ∧ (∀ c, c ∈ caps → c ∉ A ∧ c ≠ CSPACE_NULL) ∧ Zlength caps = 6 + Zlength irqs ∧
  cspace_at (sp_cur st) st' (list_to_set caps ∪ A).
Proof.
  intros Hat E. unfold main_caps in E. apply CS_bind_Ret in E as ([ipc async] & s1 & E1 & E).
  apply CS_bind_Ret in E as (net & s2 & E2 & E). apply CS_bind_Ret in E as (cs & s3 & E3 & E).
  apply CS_bind_Ret in E as (tim & s4 & E4 & E). apply CS_bind_Ret in E as (ep & s5 & E5 & E). injection E as <- <-.
  pose proof (sos_ipc_init_took _ _ _ _ _ Hat E1) as H1. pose proof H1 as (C1 & _ & _ & Hat1). rewrite <- C1 in Hat1.
  pose proof (took_app _ _ _ _ _ _ H1 (badge_irq_ep_took _ _ _ _ _ _ Hat1 E2)) as H2.
  pose proof H2 as (C2 & _ & _ & Hat2). rewrite <- C2 in Hat2.
  pose proof (took_app _ _ _ _ _ _ H2 (enable_irqs_took _ _ _ _ _ _ Hat2 E3)) as H3.
  pose proof H3 as (C3 & _ & _ & Hat3). rewrite <- C3 in Hat3.
  pose proof (took_app _ _ _ _ _ _ H3 (badge_irq_ep_took _ _ _ _ _ _ Hat3 E4)) as H4.
  pose proof H4 as (C4 & _ & _ & Hat4). rewrite <- C4 in Hat4.
  destruct (took_app _ _ _ _ _ _ H4 (enable_irqs_took _ _ _ _ _ _ Hat4 E5)) as (_ & Hnd & Hf & Hat5).
  split_and!; [done | done | | done]. apply enable_irqs_length in E3, E5.
  unfold Zlength in *. cbn [length] in E5. rewrite !length_app, length_cons, !length_app, !length_rev. cbn [length]. lia.
Qed.
End caps.

(** * The memory managers *)

(** seL4 aligns an untyped object to its size. *)
Definition bi_aligned (bi : bootinfo) : Prop :=
  ∀ m, 0 ≤ m < n_untyped bi → pst bi m mod 2 ^ pbits bi m = 0.

(** Memory starts above address 0 and leaves room for rounding at its end. *)
Definition bi_room (bi : bootinfo) : Prop :=
  ∀ m, 0 ≤ m < n_untyped bi → 0 < pst bi m ∧ pend bi m + 2 * 2 ^ DMA_BITS ≤ 2 ^ 32.

Lemma pend_slab bi m :
  bi_aligned bi → 0 ≤ m < n_untyped bi → MIN_UT_SIZE_BITS ≤ pbits bi m → pend bi m mod 2 ^ 14 = 0.
Proof.
  intros Ha Hm Hb. unfold MIN_UT_SIZE_BITS in Hb. specialize (Ha m Hm). unfold pend, psz.
  assert (0 < 2 ^ (pbits bi m - 14)) as Hk by (apply Z.pow_pos_nonneg; lia).
  assert (2 ^ pbits bi m = 2 ^ (pbits bi m - 14) * 2 ^ 14) as E by (rewrite <- Z.pow_add_r by lia; f_equal; lia).
  apply Z.mod_divide in Ha; [| lia]. apply Z.mod_divide; [lia |].
  assert ((2 ^ 14 | 2 ^ pbits bi m)) as Hd by (rewrite E; apply Z.divide_factor_r).
  apply Z.divide_add_r; [| done]. by etrans.
Qed.

(** What lies between the multiples of 16 KiB that the allocator rounds to. *)
Lemma slabs_exact low high :
  low mod 2 ^ 14 = 0 → high mod 2 ^ 14 = 0 → low ≤ high →
  2 ^ 14 * (low / 2 ^ 14) = low ∧
  low + ((high + 2 ^ 14 - 1) / 2 ^ 14 - low / 2 ^ 14) * 2 ^ 14 = high.
Proof. change (2 ^ 14) with 16384. intros H1 H2 H3. split; divmod. Qed.

(** [C26] The memory managers after [_sos_init].  When a block for DMA fits into the memory that the
    table reports, start-up reserves the first one and gives exactly the rest to the
    allocator; every address of the two is in an untyped object, and [ut_translate] finds
    it. *)
Theorem boot_memory_backed bi ms t0 :
  bi_ok bi → bi_layout bi → bi_aligned bi → bi_room bi →
  (∃ m, 0 ≤ m < n_untyped bi ∧ MIN_UT_SIZE_BITS ≤ pbits bi m) →
  ut_table_init tb_boot (Some bi) = Ret (0, t0) →
  (∃ p, tb_low t0 ≤ p ∧ p mod 2 ^ DMA_BITS = 0 ∧ p + 2 ^ DMA_BITS ≤ tb_high t0) →
  ∃ dma t u n, boot_memory (Some bi) (replicate 6 true ++ ms) = Ret (dma, t, u) ∧
    dma mod 2 ^ DMA_BITS = 0 ∧ tb_low t0 ≤ dma ∧
    ut_repr (dma + 2 ^ DMA_BITS) n u ∅ ∧ hints_ok u ∧
    dma + 2 ^ DMA_BITS + n * 2 ^ 14 = tb_high t0 ∧
    ∀ addr, dma ≤ addr < tb_high t0 →
      ∃ m, 0 ≤ m < n_untyped bi ∧ holds_addr bi m addr ∧
        ut_translate t addr = Ret (Some (bi_untyped_start bi + m, addr - pst bi m)).
Proof.
  intros Hok Hlay Hal Hroom Hmx E0 (p & Hp1 & Hp2 & Hp3).
  destruct (ut_table_init_spec tb_boot bi Hok Hlay eq_refl Hmx)
    as (t & l & m0 & ml & E & Hv & Hs & Hc & Hmin & Hh & Hl & Elow & Ehigh).
  rewrite E0 in E. injection E as <-.
  pose proof (vw_valid _ _ _ Hv) as Hva. rewrite Forall_forall in Hva, Hmin.
  assert (m0 ∈ l) as H0 by (by apply head_Some_elem_of). assert (ml ∈ l) as H1 by (by apply last_Some_elem_of).
  destruct (Hroom m0 (Hva _ H0)) as [Hlow0 _]. destruct (Hroom ml (Hva _ H1)) as [_ Hhigh0].
  pose proof (ut_steal_mem_correct t0 DMA_BITS) as Hst. destruct (ut_steal_mem t0 DMA_BITS) as [dma t1] eqn:Est.
  destruct Hst as [(-> & -> & Hno) | (Hd1 & Hd2 & Hd3 & Hd4 & Hd5 & _)]; [unfold DMA_BITS; lia | lia | lia | |].
  { specialize (Hno p Hp1 Hp2). lia. }
  assert (dma + 2 ^ DMA_BITS ≤ tb_high t0) as Hd6 by lia. unfold DMA_BITS in *.
  assert ((dma + 2 ^ 22) mod 2 ^ 14 = 0) as Hm1.
  { change (2 ^ 22) with 4194304 in *. change (2 ^ 14) with 16384. divmod. }
  assert (tb_high t0 mod 2 ^ 14 = 0) as Hm2 by (rewrite Ehigh; apply pend_slab; auto).
  destruct (ut_allocator_init_spec (dma + 2 ^ 22) (tb_high t0) (ut_boot (replicate 6 true ++ ms)) ms) as (u & Eu & Hhint & Hrep);
    [done | done | done | lia | lia | lia |].
  destruct (slabs_exact _ _ Hm1 Hm2 ltac:(lia)) as [Eb En]. rewrite Eb in Hrep.
  exists dma, t1, u, ((tb_high t0 + 2 ^ 14 - 1) / 2 ^ 14 - (dma + 2 ^ 22) / 2 ^ 14).
  split_and!; [| done | done | done | done | done |].
  - unfold boot_memory. cbn [mbind outcome_bind c_assert bool_decide]. rewrite bool_decide_eq_true_2 by eauto.
    cbn [c_assert mbind outcome_bind]. rewrite E0. cbn [mbind outcome_bind]. change (0 =? 0) with true.
    cbn [c_assert mbind outcome_bind]. unfold DMA_BITS. rewrite Est.
    destruct (Z.eqb_spec dma 0); [lia |]. cbn [negb c_assert mbind outcome_bind]. unfold ut_find_memory.
    rewrite Hd3, Hd5, Eu. done.
  - intros addr Ha. assert (view t1 bi l) as Hv1.
    { unfold ut_steal_mem in Est. destruct (u32 _ <=? _); injection Est as <- <-; destruct Hv; by split. }
    rewrite Ehigh in Ha. destruct (contig_covers bi l m0 ml addr Hc Hh Hl ltac:(lia)) as (m & Hm & Hold).
    destruct (ut_translate_spec t1 bi l addr Hok Hv1 Hs) as [(m' & Hm' & Hold' & ->) | [Hno _]].
    + destruct (bo_obj _ Hok ml (Hva _ H1)) as (_ & _ & ?). lia.
    + exists m'. split; [by apply Hva |]. split; [exact Hold' | reflexivity].
    + by destruct (Hno m Hm).
Qed.

(** * Examples *)

(** A machine with one untyped object of 16 MiB. *)
Definition bi_boot : bootinfo :=
  mk_bootinfo 100 101 200 200 (0x10000000 :: replicate 166 0) (24 :: replicate 166 0).

Lemma bi_boot_index m : 0 ≤ m < n_untyped bi_boot → m = 0.
Proof. unfold n_untyped. cbn. lia. Qed.

Lemma bi_boot_ok : bi_ok bi_boot ∧ bi_layout bi_boot ∧ bi_aligned bi_boot ∧ bi_room bi_boot.
Proof.
  split_and!.
  - split; [done | done | by vm_compute | by vm_compute |]. intros m ->%bi_boot_index. by vm_compute.
  - split; intros m m' ->%bi_boot_index ->%bi_boot_index; [done | by vm_compute].
  - intros m ->%bi_boot_index. by vm_compute.
  - intros m ->%bi_boot_index. by vm_compute.
Qed.

Definition tb_booted : ut_table :=
  mk_ut_table (Some bi_boot) (replicate 167 0) 1 0x10000000 0x11000000.

Lemma boot_memory_backed_witness :
  ∃ dma t u n, boot_memory (Some bi_boot) (replicate 6 true ++ []) = Ret (dma, t, u) ∧
    ut_repr (dma + 2 ^ DMA_BITS) n u ∅ ∧ dma + 2 ^ DMA_BITS + n * 2 ^ 14 = 0x11000000.
Proof.
  destruct bi_boot_ok as (Hok & Hlay & Hal & Hroom).
  destruct (boot_memory_backed bi_boot [] tb_booted) as (dma & t & u & n & E & _ & _ & Hr & _ & Hn & _).
  - exact Hok.
  - exact Hlay.
  - exact Hal.
  - exact Hroom.
  - exists 0. split; vm_compute; [split |]; congruence.
  - vm_compute. reflexivity.
  - exists 0x10000000. split; [cbn; lia |]. split; [reflexivity |]. vm_compute. discriminate.
  - exists dma, t, u, n. split; [exact E |]. split; [exact Hr | exact Hn].
Defined.

Lemma main_caps_example : ∃ caps st, main_caps [150; 151] (boot_example 1020) = Ret (caps, st).
Proof.
  destruct (outcome_returns (main_caps [150; 151] (boot_example 1020))) as [[caps st] E]; [vm_compute; reflexivity |].
  exists caps, st. exact E.
Qed.

Lemma startup_caps_witness :
  ∃ caps st, main_caps [150; 151] (boot_example 1020) = Ret (caps, st) ∧ NoDup caps ∧ Zlength caps = 8.
Proof.
  destruct main_caps_example as (caps & st & E). destruct boot_example_at as [Hat Hc].
  destruct (startup_caps [150; 151] (boot_example 1020) (list_to_set (seqZ 1 (1020 - 1))) caps st) as (Hnd & _ & Hlen & _).
  - rewrite Hc. apply cspace_exact_at, Hat.
  - exact E.
  - exists caps, st. split; [exact E |]. split; [exact Hnd | exact Hlen].
Defined.
