(* ===== verification/Morecore.v ===== *)
(** The memory behind malloc (apps/sos/src/sys/sys_morecore.c and
    libs/libsos/src/sys_morecore.c).

    SOS and every process have a static array, the morecore area.  The C library
    asks for memory with brk, which takes from the bottom of the area, and with
    mmap, which takes from the top; [mc_base] and [mc_top] are the two static
    pointers.  In a process brk is a system call (see Libsos.v) and only mmap uses
    the area. *)

From S2P Require Import Prelude.

Definition SOS_MORECORE_AREA_BYTE_SIZE : Z := 0x100000.
Definition APP_MORECORE_AREA_BYTE_SIZE : Z := 0x10000.
Definition MAP_ANONYMOUS : Z := 0x20.
Definition MC_ENOMEM : Z := 12.

Record morecore : Type := mk_morecore {
  mc_base : Z;
  mc_top : Z
}.

Definition morecore_init (area size : Z) : morecore := mk_morecore area (area + size).

(** [sys_brk] of SOS. *)
Definition morecore_brk (area newbrk : Z) (m : morecore) : Z * morecore :=
  if newbrk =? 0 then (mc_base m, m)
  else if (newbrk <? mc_top m) && (area <? newbrk) then (newbrk, mk_morecore newbrk (mc_top m))
  else (0, m).

(** [sys_mmap2]: the address of the block, as an unsigned number, or an error. *)
Definition sys_mmap2 (length flags : Z) (m : morecore) : outcome (Z * morecore) :=
  if negb (Z.land flags MAP_ANONYMOUS =? 0) then
    let base := u32 (mc_top m - length) in
    if base <? mc_base m then Ret (u32 (- MC_ENOMEM), m)
    else Ret (base, mk_morecore (mc_base m) base)
  else Fault AssertFail.

Definition sys_mremap : outcome Z := Fault AssertFail.

(** [__syscall_ret] of the C library, around every call. *)
Definition syscall_ret (r : Z) : Z := if 2 ^ 32 - 4096 <? u32 r then -1 else r.

(** * Blocks *)

(** The calls of the C library; [bs] are the blocks mmap has given out.  A block
    is smaller than the addresses below the top pointer. *)
Inductive mc_step (area : Z) : morecore * list (Z * Z) → morecore * list (Z * Z) → Prop :=
  | mc_step_brk newbrk m bs :
      0 ≤ newbrk < 2 ^ 32 → mc_step area (m, bs) ((morecore_brk area newbrk m).2, bs)
  | mc_step_mmap length flags a m m' bs :
      0 ≤ length ≤ mc_top m → sys_mmap2 length flags m = Ret (a, m') →
      mc_step area (m, bs) (m', if a =? u32 (- MC_ENOMEM) then bs else (a, length) :: bs).

(** The pointers stay in the area; the blocks lie above the top pointer and do
    not meet. *)
Record mc_ok (area size : Z) (x : morecore * list (Z * Z)) : Prop := {
  mc_order : area ≤ mc_base x.1 ≤ mc_top x.1;
  mc_limit : mc_top x.1 ≤ area + size;
  mc_blocks : Forall (λ b, 0 ≤ b.2 ∧ mc_top x.1 ≤ b.1 ∧ b.1 + b.2 ≤ area + size) x.2;
  mc_apart : ∀ i j b c, (i < j)%nat → x.2 !! i = Some b → x.2 !! j = Some c → b.1 + b.2 ≤ c.1
}.

Lemma brk_ok area size newbrk m bs :
  mc_ok area size (m, bs) → mc_ok area size ((morecore_brk area newbrk m).2, bs).
Proof.
  intros [Ho Hl Hb Ha]. unfold morecore_brk. destruct (newbrk =? 0); [by split |].
  destruct (Z.ltb_spec newbrk (mc_top m)) as [H1 |]; [| by split].
  destruct (Z.ltb_spec area newbrk) as [H2 |]; [| by split]. split; cbn in *; [lia | done | done | done].
Qed.

(** A block that is taken from the top. *)
Lemma mmap_in length flags a m m' :
  mc_base m ≤ mc_top m < 2 ^ 32 → 0 ≤ mc_base m → 0 ≤ length ≤ mc_top m →
  sys_mmap2 length flags m = Ret (a, m') →
  a = u32 (- MC_ENOMEM) ∧ m' = m ∧ mc_top m < mc_base m + length ∨
  a = mc_top m - length ∧ mc_base m ≤ a ∧ m' = mk_morecore (mc_base m) a.
Proof.
  intros Hm Hb Hl E. unfold sys_mmap2 in E. destruct (Z.land flags MAP_ANONYMOUS =? 0); [done |]. cbn in E.
  rewrite u32_small in E by lia. destruct (Z.ltb_spec (mc_top m - length) (mc_base m)) as [H | H].
  - injection E as <- <-. left. split_and!; [done | done | lia].
  - injection E as <- <-. right. split_and!; [done | lia | done].
Qed.

Lemma mmap_ok area size length flags a m m' bs :
  0 ≤ area → area + size < 2 ^ 32 - 12 → mc_ok area size (m, bs) → 0 ≤ length ≤ mc_top m →
  sys_mmap2 length flags m = Ret (a, m') →
  mc_ok area size (m', if a =? u32 (- MC_ENOMEM) then bs else (a, length) :: bs).
Proof.
  intros Hz Hs [Ho Hl Hb Ha] Hlen E. cbn in *.
  destruct (mmap_in length flags a m m') as [(-> & -> & _) | (Ea & Hba & ->)]; [lia | lia | done | done | |].
  - rewrite Z.eqb_refl. by split.
  - assert (a =? u32 (- MC_ENOMEM) = false) as ->.
    { apply Z.eqb_neq. change (u32 (- MC_ENOMEM)) with (2 ^ 32 - 12). lia. }
    split; cbn.
    + lia.
    + lia.
    + constructor; [cbn; lia |]. eapply Forall_impl; [exact Hb |]. cbn. lia.
    + intros [|i] [|j] b c Hij Hi Hj; [lia | | lia |].
      * injection Hi as <-. cbn. cbn in Hj. apply list_elem_of_lookup_2 in Hj. rewrite Forall_forall in Hb.
        destruct (Hb c Hj) as (_ & Hc & _). lia.
      * by apply (Ha i j b c); [lia | |].
Qed.

Lemma mc_steps_ok area size x y :
  0 ≤ area → area + size < 2 ^ 32 - 12 → mc_ok area size x → rtc (mc_step area) x y → mc_ok area size y.
Proof.
  intros Hz Hs Hok Hsteps. induction Hsteps as [|x y z Hstep _ IH]; [done |]. apply IH.
  destruct Hstep; [by apply brk_ok | by eapply mmap_ok].
Qed.

(** [C36] Whatever the C library asks for, the blocks of mmap lie in the area, do not
    meet each other and lie above the break, as long as no request is larger than
    the address of the top pointer.  A larger request wraps around: it is granted,
    and its block starts above the top pointer. *)
Theorem morecore_blocks area size m bs :
  0 ≤ area → 0 ≤ size → area + size < 2 ^ 32 - 12 →
  rtc (mc_step area) (morecore_init area size, []) (m, bs) →
  mc_base m ≤ mc_top m ∧
  (∀ i b, bs !! i = Some b → mc_base m ≤ b.1 ∧ b.1 + b.2 ≤ area + size) ∧
  (∀ i j b c, (i < j)%nat → bs !! i = Some b → bs !! j = Some c → b.1 + b.2 ≤ c.1) ∧
  (∀ length, mc_top m < length < 2 ^ 32 →
     ∃ a, sys_mmap2 length MAP_ANONYMOUS m = Ret (a, mk_morecore (mc_base m) a) ∧
       a = 2 ^ 32 - (length - mc_top m) ∧ mc_top m < a).
Proof.
  intros Hz Hp Hs Hsteps.
  assert (mc_ok area size (m, bs)) as [Ho Hl Hb Ha].
  { eapply mc_steps_ok; [done | done | | exact Hsteps]. split; cbn; [lia | lia | constructor |].
    intros i j b c _ Hi. by rewrite lookup_nil in Hi. }
  cbn in *. split_and!; [lia | | done |].
  - intros i b Hi. apply list_elem_of_lookup_2 in Hi. rewrite Forall_forall in Hb.
    destruct (Hb b Hi) as (? & ? & ?). lia.
  - intros length Hlen. exists (2 ^ 32 - (length - mc_top m)).
    assert (u32 (mc_top m - length) = 2 ^ 32 - (length - mc_top m)) as Eu.
    { unfold u32. symmetry. apply (Z.mod_unique_pos _ _ (-1)); lia. }
    split_and!; [| done | lia]. unfold sys_mmap2. cbn [Z.land MAP_ANONYMOUS]. rewrite Eu.
    change (negb (Z.land MAP_ANONYMOUS MAP_ANONYMOUS =? 0)) with true. cbv iota zeta.
    destruct (Z.ltb_spec (2 ^ 32 - (length - mc_top m)) (mc_base m)); [lia | done].
Qed.

Lemma morecore_blocks_witness :
  ∃ m, rtc (mc_step 0x20000) (morecore_init 0x20000 0x10000, []) (m, [(0x2e000, 0x1000); (0x2f000, 0x1000)]) ∧
    sys_mmap2 0x40000 MAP_ANONYMOUS m = Ret (0xfffee000, mk_morecore (mc_base m) 0xfffee000).
Proof.
  set (x1 := mk_morecore 0x20000 0x2f000). set (x2 := mk_morecore 0x20000 0x2e000).
  assert (rtc (mc_step 0x20000) (morecore_init 0x20000 0x10000, []) (x2, [(0x2e000, 0x1000); (0x2f000, 0x1000)])) as H.
  { eapply rtc_l; [apply (mc_step_mmap _ 0x1000 MAP_ANONYMOUS 0x2f000 _ x1); [cbn; lia | reflexivity] |].
    eapply rtc_l; [apply (mc_step_mmap _ 0x1000 MAP_ANONYMOUS 0x2e000 _ x2); [cbn; lia | reflexivity] |].
    apply rtc_refl. }
  exists x2. split; [exact H |].
  destruct (morecore_blocks 0x20000 0x10000 x2 [(0x2e000, 0x1000); (0x2f000, 0x1000)]) as (_ & _ & _ & Hw);
    [lia | lia | lia | exact H |].
  destruct (Hw 0x40000 ltac:(cbn; lia)) as (a & E & Ea & _). rewrite E. rewrite Ea. reflexivity.
Defined.
