(* ===== verification/Malloc.v ===== *)
(** malloc of the C library on the heap of SOS (libs/libmuslc/src/malloc/malloc.c and
    calloc.c, over apps/sos/src/sys/sys_morecore.c).

    The heap is a row of chunks, each with its size and the size of the chunk before it
    in two words at its start; the lowest bit of both says whether the chunk is in use.
    Free chunks are in one of 64 doubly linked rings, the bins, by their size.  The
    memory is a map from addresses to 32-bit words whose domain is what may be accessed:
    the morecore area and the array of bins, which are static arrays.  [area] and [bins]
    are their addresses; a bin [{lock; lock; head; tail}] is read as a chunk
    [{psize; csize; next; prev}], as the code does.  SOS has one thread, so the locks do
    nothing.  [errno] is left out. *)

From S2P Require Import Prelude Qsort Morecore.

(** * State *)

Definition SIZE_ALIGN : Z := 16.
Definition OVERHEAD : Z := 8.
Definition MMAP_THRESHOLD : Z := 0x1c00 * SIZE_ALIGN.
Definition DONTCARE : Z := 16.
Definition RECLAIM : Z := 163840.
Definition LIBC_PAGE_SIZE : Z := 4096.
Definition SIZE_MAX : Z := 2 ^ 32 - 1.
Definition PTRDIFF_MAX : Z := 2 ^ 31 - 1.
Definition C_INUSE : Z := 1.
Definition MAP_PRIVATE : Z := 0x02.
Definition MAP_FIXED : Z := 0x10.

(** [mal] without its bins, the variable [init] of [init_malloc], and the morecore area. *)
Record regs : Type := mk_regs {
  mal_brk : Z;
  mal_heap : Z;
  mal_binmap : Z;
  mal_init : Z;
  mal_core : morecore
}.

Definition set_brk (v : Z) (r : regs) : regs := mk_regs v (mal_heap r) (mal_binmap r) (mal_init r) (mal_core r).
Definition set_heap (v : Z) (r : regs) : regs := mk_regs (mal_brk r) v (mal_binmap r) (mal_init r) (mal_core r).
Definition set_binmap (v : Z) (r : regs) : regs := mk_regs (mal_brk r) (mal_heap r) v (mal_init r) (mal_core r).
Definition set_init (v : Z) (r : regs) : regs := mk_regs (mal_brk r) (mal_heap r) (mal_binmap r) v (mal_core r).
Definition set_core (v : morecore) (r : regs) : regs := mk_regs (mal_brk r) (mal_heap r) (mal_binmap r) (mal_init r) v.

Record mstate : Type := mk_mstate {
  ms_mem : gmap Z Z;
  ms_regs : regs
}.

(** The monad of the code. *)
Definition MM (A : Type) : Type := mstate → outcome (A * mstate).

#[export] Instance MM_ret : MRet MM := λ A a s, Ret (a, s).

#[export] Instance MM_bind : MBind MM := λ A B k m s,
  match m s with
  | Ret (a, s') => k a s'
  | Fault f => Fault f
  end.

Definition mfault {A} (f : fault) : MM A := λ _, Fault f.

Definition lw (a : Z) : MM Z := λ s,
  match ms_mem s !! a with
  | Some v => Ret (v, s)
  | None => Fault OutOfBounds
  end.

Definition sw (a v : Z) : MM unit := λ s,
  match ms_mem s !! a with
  | Some _ => Ret (tt, mk_mstate (<[a := v]> (ms_mem s)) (ms_regs s))
  | None => Fault OutOfBounds
  end.

Definition getr : MM regs := λ s, Ret (ms_regs s, s).
Definition modr (f : regs → regs) : MM unit := λ s, Ret (tt, mk_mstate (ms_mem s) (f (ms_regs s))).

(** * Sizes and bins *)

(** [struct chunk]. *)
Definition psize (c : Z) : Z := c.
Definition csize (c : Z) : Z := c + 4.
Definition next (c : Z) : Z := c + 8.
Definition prev (c : Z) : Z := c + 12.

Definition size_of (w : Z) : Z := Z.land w (2 ^ 32 - 2).

Definition CHUNK_SIZE (c : Z) : MM Z := w ← lw (csize c); mret (size_of w).
Definition CHUNK_PSIZE (c : Z) : MM Z := w ← lw (psize c); mret (size_of w).
Definition PREV_CHUNK (c : Z) : MM Z := n ← CHUNK_PSIZE c; mret (c - n).
Definition NEXT_CHUNK (c : Z) : MM Z := n ← CHUNK_SIZE c; mret (c + n).
Definition MEM_TO_CHUNK (p : Z) : Z := p - OVERHEAD.
Definition CHUNK_TO_MEM (c : Z) : Z := c + OVERHEAD.

Definition in_use (w : Z) : bool := negb (Z.land w C_INUSE =? 0).

(** The bits of [(float)x], for integers that a float holds exactly. *)
Definition float_bits (x : Z) : Z :=
  let e := Z.log2 x in (127 + e) * 2 ^ 23 + (x - 2 ^ e) * 2 ^ (23 - e).

Definition bin_index (x : Z) : Z :=
  let x := u32 (x / SIZE_ALIGN - 1) in
  if x <=? 32 then x
  else if 0x1c00 <? x then 63
  else Z.shiftr (float_bits x) 21 - 496.

Definition bin_index_up (x : Z) : Z :=
  let x := u32 (x / SIZE_ALIGN - 1) in
  if x <=? 32 then x
  else Z.shiftr (u32 (float_bits x + 0x1fffff)) 21 - 496.

(** [a_ctz_64]. *)
Definition first_set (x : Z) : MM Z := λ s,
  match ntz x with
  | Ret i => Ret (i, s)
  | Fault f => Fault f
  end.

Definition adjust_size (n : Z) : option Z :=
  if PTRDIFF_MAX - SIZE_ALIGN - LIBC_PAGE_SIZE <? u32 (n - 1) then
    if negb (n =? 0) then None else Some SIZE_ALIGN
  else Some (Z.land (u32 (n + OVERHEAD + SIZE_ALIGN - 1)) (2 ^ 32 - SIZE_ALIGN)).

(** [x & -LIBC_PAGE_SIZE]. *)
Definition page_down (x : Z) : Z := Z.land x (2 ^ 32 - LIBC_PAGE_SIZE).

Section malloc.
Context (area bins : Z).

(** ** System calls *)

Definition libc__brk (newbrk : Z) : MM Z := λ s,
  let '(r, m) := morecore_brk area newbrk (mal_core (ms_regs s)) in
  Ret (u32 (syscall_ret r), mk_mstate (ms_mem s) (set_core m (ms_regs s))).

(** The area ignores the address, also with [MAP_FIXED]. *)
Definition libc__mmap (len flags : Z) : MM Z := λ s,
  match sys_mmap2 len flags (mal_core (ms_regs s)) with
  | Ret (r, m) => Ret (u32 (syscall_ret r), mk_mstate (ms_mem s) (set_core m (ms_regs s)))
  | Fault f => Fault f
  end.

(** [sys_munmap] of SOS is a failing assertion. *)
Definition libc__munmap : MM unit := mfault AssertFail.

Definition libc__mremap : MM Z := λ s,
  match sys_mremap with
  | Ret r => Ret (u32 (syscall_ret r), s)
  | Fault f => Fault f
  end.

(** ** Bins *)

Definition BIN_TO_CHUNK (i : Z) : Z := bins + 16 * i.

Definition lock_bin (i : Z) : MM unit :=
  h ← lw (next (BIN_TO_CHUNK i));
  if h =? 0 then
    _ ← sw (prev (BIN_TO_CHUNK i)) (BIN_TO_CHUNK i);
    sw (next (BIN_TO_CHUNK i)) (BIN_TO_CHUNK i)
  else mret tt.

Definition unbin (c i : Z) : MM unit :=
  p ← lw (prev c);
  n ← lw (next c);
  _ ← (if p =? n then modr (λ r, set_binmap (Z.ldiff (mal_binmap r) (Z.shiftl 1 i)) r) else mret tt);
  p ← lw (prev c);
  n ← lw (next c);
  _ ← sw (next p) n;
  n ← lw (next c);
  p ← lw (prev c);
  _ ← sw (prev n) p;
  w ← lw (csize c);
  _ ← sw (csize c) (Z.lor w C_INUSE);
  d ← NEXT_CHUNK c;
  w ← lw (psize d);
  sw (psize d) (Z.lor w C_INUSE).

(** No other thread changes the size between its two readings, so the loop of
    [alloc_fwd] and of [alloc_rev] runs at most once. *)
Definition alloc_fwd (c : Z) : MM bool :=
  k ← lw (csize c);
  if in_use k then mret false else
  let i := bin_index k in
  _ ← lock_bin i;
  k' ← lw (csize c);
  if k' =? k then _ ← unbin c i; mret true
  else mfault OutOfFuel.

Definition alloc_rev (c : Z) : MM bool :=
  k ← lw (psize c);
  if in_use k then mret false else
  let i := bin_index k in
  _ ← lock_bin i;
  k' ← lw (psize c);
  if k' =? k then p ← PREV_CHUNK c; _ ← unbin p i; mret true
  else mfault OutOfFuel.

(** ** free *)

(** [self->psize & next->csize & C_INUSE]. *)
Definition both_in_use (self nxt : Z) : MM bool :=
  a ← lw (psize self);
  b ← lw (csize nxt);
  mret (in_use (Z.land a b)).

Definition reclaim_pages (self nxt : Z) : MM unit :=
  let a := page_down (u32 (self + SIZE_ALIGN + LIBC_PAGE_SIZE - 1)) in
  let b := page_down (u32 (nxt - SIZE_ALIGN)) in
  _ ← libc__mmap (u32 (b - a)) (Z.lor MAP_PRIVATE (Z.lor MAP_ANONYMOUS MAP_FIXED));
  mret tt.

(** The part of the loop up to [break], with the bin when it is reached. *)
Definition free_try (self nxt final_size : Z) (reclaim : bool) : MM (option Z) :=
  b ← both_in_use self nxt;
  _ ← (if reclaim && b then reclaim_pages self nxt else mret tt);
  b ← both_in_use self nxt;
  if b : bool then
    _ ← sw (csize self) (Z.lor final_size C_INUSE);
    _ ← sw (psize nxt) (Z.lor final_size C_INUSE);
    let i := bin_index final_size in
    _ ← lock_bin i;
    b ← both_in_use self nxt;
    mret (if b : bool then Some i else None)
  else mret None.

Definition reclaims (new_size size : Z) : bool :=
  (RECLAIM <? u32 (new_size + size)) && (size <? Z.lxor (u32 (new_size + size)) size).

(** The rest of the loop. *)
Definition free_merge (self nxt final_size new_size : Z) (reclaim : bool) : MM (Z * Z * Z * bool) :=
  b ← alloc_rev self;
  '(self, final_size, reclaim) ←
    (if b : bool then
       self ← PREV_CHUNK self;
       size ← CHUNK_SIZE self;
       mret (self, u32 (final_size + size), reclaim || reclaims new_size size)
     else mret (self, final_size, reclaim));
  b ← alloc_fwd nxt;
  if b : bool then
    size ← CHUNK_SIZE nxt;
    nxt ← NEXT_CHUNK nxt;
    mret (self, nxt, u32 (final_size + size), reclaim || reclaims new_size size)
  else mret (self, nxt, final_size, reclaim).

Fixpoint free_loop (fuel : nat) (self nxt final_size new_size : Z) (reclaim : bool) : MM (Z * Z * Z * Z) :=
  match fuel with
  | O => mfault OutOfFuel
  | S fuel =>
      o ← free_try self nxt final_size reclaim;
      match o with
      | Some i => mret (self, nxt, final_size, i)
      | None =>
          '(self, nxt, final_size, reclaim) ← free_merge self nxt final_size new_size reclaim;
          free_loop fuel self nxt final_size new_size reclaim
      end
  end.

(** Two free chunks never meet, so the second round is the last. *)
Definition free_rounds : nat := 2.

(** The chunk goes to the end of its bin. *)
Definition put_bin (self i : Z) : MM unit :=
  _ ← sw (next self) (BIN_TO_CHUNK i);
  t ← lw (prev (BIN_TO_CHUNK i));
  _ ← sw (prev self) t;
  n ← lw (next self);
  _ ← sw (prev n) self;
  p ← lw (prev self);
  _ ← sw (next p) self;
  modr (λ r, if negb (Z.testbit (mal_binmap r) i) then set_binmap (Z.lor (mal_binmap r) (Z.shiftl 1 i)) r else r).

(** [extra & 1] is a write to address 0. *)
Definition free_mmapped (self : Z) : MM unit :=
  extra ← lw (psize self);
  if in_use extra then mfault NullDeref else libc__munmap.

Definition free (p : Z) : MM unit :=
  let self := MEM_TO_CHUNK p in
  if p =? 0 then mret tt else
  w ← lw (csize self);
  if negb (in_use w) then free_mmapped self else
  new_size ← CHUNK_SIZE self;
  nxt ← NEXT_CHUNK self;
  '(self, nxt, final_size, i) ← free_loop free_rounds self nxt new_size new_size false;
  _ ← sw (csize self) final_size;
  _ ← sw (psize nxt) final_size;
  put_bin self i.

(** ** malloc *)

(** The new chunk, or NULL. *)
Definition expand_heap (n : Z) : MM Z :=
  r ← getr;
  let brk := mal_brk r in
  if u32 (SIZE_MAX - brk - 2 * LIBC_PAGE_SIZE) <? n then mret 0 else
  let new := page_down (u32 (brk + n + SIZE_ALIGN + LIBC_PAGE_SIZE - 1)) in
  let n := u32 (new - brk) in
  b ← libc__brk new;
  if negb (b =? new) then mret 0 else
  let w := MEM_TO_CHUNK new in
  _ ← sw (psize w) (Z.lor n C_INUSE);
  _ ← sw (csize w) (Z.lor 0 C_INUSE);
  let w := MEM_TO_CHUNK brk in
  _ ← sw (csize w) (Z.lor n C_INUSE);
  _ ← modr (set_brk new);
  mret w.

(** With one thread nobody is waited for: [init] is not 1 here. *)
Definition init_malloc (n : Z) : MM Z :=
  r ← getr;
  if mal_init r =? 2 then mret 0 else
  _ ← modr (set_init 1);
  if mal_init r =? 1 then mfault OutOfFuel else
  if negb (mal_init r =? 0) then _ ← modr (set_init 2); mret 0 else
  b ← libc__brk 0;
  _ ← modr (set_brk (Z.land (u32 (b + 2 * SIZE_ALIGN - 1)) (2 ^ 32 - SIZE_ALIGN)));
  c ← expand_heap n;
  if c =? 0 then _ ← modr (set_init 0); mret (-1) else
  _ ← modr (set_heap c);
  _ ← sw (psize c) (Z.lor 0 C_INUSE);
  _ ← free (CHUNK_TO_MEM c);
  _ ← modr (set_init 2);
  mret 1.

(** The chunk is split before it leaves its bin, when the rest stays in that bin. *)
Definition pretrim (self n i j : Z) : MM bool :=
  if j <? 40 then mret false else
  n1 ← CHUNK_SIZE self;
  if (j <? i + 3) && (negb (j =? 63) || (u32 (n1 - n) <=? MMAP_THRESHOLD)) then mret false else
  if negb (bin_index (u32 (n1 - n)) =? j) then mret false else
  nxt ← NEXT_CHUNK self;
  let split := self + n in
  p ← lw (prev self);
  _ ← sw (prev split) p;
  q ← lw (next self);
  _ ← sw (next split) q;
  p ← lw (prev split);
  _ ← sw (next p) split;
  q ← lw (next split);
  _ ← sw (prev q) split;
  _ ← sw (psize split) (Z.lor n C_INUSE);
  _ ← sw (csize split) (u32 (n1 - n));
  _ ← sw (psize nxt) (u32 (n1 - n));
  _ ← sw (csize self) (Z.lor n C_INUSE);
  mret true.

Definition trim (self n : Z) : MM unit :=
  n1 ← CHUNK_SIZE self;
  if u32 (n1 - DONTCARE) <=? n then mret tt else
  nxt ← NEXT_CHUNK self;
  let split := self + n in
  _ ← sw (psize split) (Z.lor n C_INUSE);
  _ ← sw (csize split) (Z.lor (u32 (n1 - n)) C_INUSE);
  _ ← sw (psize nxt) (Z.lor (u32 (n1 - n)) C_INUSE);
  _ ← sw (csize self) (Z.lor n C_INUSE);
  free (CHUNK_TO_MEM split).

(** The branch of the loop that takes the first chunk of the bin [j]. *)
Definition take_bin (n i j : Z) : MM (option Z) :=
  _ ← lock_bin j;
  c ← lw (next (BIN_TO_CHUNK j));
  if c =? BIN_TO_CHUNK j then mret None else
  w ← lw (csize c);
  if negb (j =? bin_index w) then mret None else
  b ← pretrim c n i j;
  _ ← (if b : bool then mret tt else unbin c j);
  mret (Some c).

(** The branch that extends the heap; NULL when it cannot. *)
Definition grow_heap (n : Z) : MM Z :=
  c ← expand_heap n;
  if c =? 0 then mret 0 else
  b ← alloc_rev c;
  if b : bool then
    let x := c in
    c ← PREV_CHUNK x;
    wx ← lw (csize x);
    n0 ← CHUNK_SIZE c;
    _ ← sw (csize c) (u32 (wx + n0));
    d ← NEXT_CHUNK x;
    _ ← sw (psize d) (u32 (wx + n0));
    mret c
  else mret c.

Fixpoint malloc_loop (fuel : nat) (n i : Z) : MM Z :=
  match fuel with
  | O => mfault OutOfFuel
  | S fuel =>
      r ← getr;
      let mask := Z.land (mal_binmap r) (2 ^ 64 - Z.shiftl 1 i) in
      if mask =? 0 then
        t ← init_malloc n;
        if 0 <? t then malloc_loop fuel n i else grow_heap n
      else
        j ← first_set mask;
        o ← take_bin n i j;
        match o with
        | Some c => mret c
        | None => malloc_loop fuel n i
        end
  end.

(** The loop is only repeated after the heap has been set up. *)
Definition malloc_rounds : nat := 2.

Definition malloc_mmap (n : Z) : MM Z :=
  let len := page_down (u32 (n + OVERHEAD + LIBC_PAGE_SIZE - 1)) in
  base ← libc__mmap len (Z.lor MAP_PRIVATE MAP_ANONYMOUS);
  if base =? 2 ^ 32 - 1 then mret 0 else
  let c := base + (SIZE_ALIGN - OVERHEAD) in
  _ ← sw (csize c) (len - (SIZE_ALIGN - OVERHEAD));
  _ ← sw (psize c) (SIZE_ALIGN - OVERHEAD);
  mret (CHUNK_TO_MEM c).

Definition malloc (n : Z) : MM Z :=
  match adjust_size n with
  | None => mret 0
  | Some n =>
      if MMAP_THRESHOLD <? n then malloc_mmap n else
      c ← malloc_loop malloc_rounds n (bin_index_up n);
      if c =? 0 then mret 0 else
      _ ← trim c n;
      mret (CHUNK_TO_MEM c)
  end.

(** ** calloc and realloc *)

(** [n] words. *)
Fixpoint clear_words (z : Z) (n : nat) : MM unit :=
  match n with
  | O => mret tt
  | S n => w ← lw z; _ ← (if negb (w =? 0) then sw z 0 else mret tt); clear_words (z + 4) n
  end.

Definition calloc (m n : Z) : MM Z :=
  if negb (n =? 0) && ((2 ^ 32 - 1) / n <? m) then mret 0 else
  let n := u32 (n * m) in
  p ← malloc n;
  if p =? 0 then mret 0 else
  w ← lw (p - 4);
  _ ← (if negb (Z.land w 7 =? 0) then clear_words p (Z.to_nat (u32 (n + 4 - 1) / 4)) else mret tt);
  mret p.

Fixpoint copy_words (dst src : Z) (n : nat) : MM unit :=
  match n with
  | O => mret tt
  | S n => w ← lw src; _ ← sw dst w; copy_words (dst + 4) (src + 4) n
  end.

(** [memcpy] of a whole number of words. *)
Definition memcpy_words (dst src n : Z) : MM unit := copy_words dst src (Z.to_nat (n / 4)).

Definition realloc_mmapped (p n self n0 : Z) : MM Z :=
  extra ← lw (psize self);
  let oldlen := u32 (n0 + extra) in
  let newlen := u32 (n + extra) in
  if in_use extra then mfault NullDeref else
  new ← (if newlen <? LIBC_PAGE_SIZE then malloc n else mret 0);
  if negb (new =? 0) then
    _ ← memcpy_words new p (n - OVERHEAD);
    _ ← free p;
    mret new
  else
    let newlen := page_down (u32 (newlen + LIBC_PAGE_SIZE - 1)) in
    if oldlen =? newlen then mret p else
    base ← libc__mremap;
    if base =? 2 ^ 32 - 1 then mret (if newlen <? oldlen then p else 0) else
    let self := base + extra in
    _ ← sw (csize self) (u32 (newlen - extra));
    mret (CHUNK_TO_MEM self).

Definition realloc (p n : Z) : MM Z :=
  if p =? 0 then malloc n else
  match adjust_size n with
  | None => mret 0
  | Some n =>
      let self := MEM_TO_CHUNK p in
      n0 ← CHUNK_SIZE self;
      w ← lw (csize self);
      if negb (in_use w) then realloc_mmapped p n self n0 else
      nxt ← NEXT_CHUNK self;
      b ← (if n0 <? n then alloc_fwd nxt else mret false);
      '(n1, nxt) ←
        (if b : bool then
           s ← CHUNK_SIZE nxt;
           nxt ← NEXT_CHUNK nxt;
           mret (u32 (n0 + s), nxt)
         else mret (n0, nxt));
      _ ← sw (csize self) (Z.lor n1 C_INUSE);
      _ ← sw (psize nxt) (Z.lor n1 C_INUSE);
      if n <=? n1 then
        _ ← trim self n;
        mret (CHUNK_TO_MEM self)
      else
        new ← malloc (n - OVERHEAD);
        if new =? 0 then mret 0 else
        _ ← memcpy_words new p (n0 - OVERHEAD);
        _ ← free (CHUNK_TO_MEM self);
        mret new
  end.

(** ** Start *)

(** [n] words from [a] on, all zero. *)
Fixpoint zero_words (a : Z) (n : nat) : gmap Z Z :=
  match n with
  | O => ∅
  | S n => <[a := 0]> (zero_words (a + 4) n)
  end.

(** The static data before the first call. *)
Definition malloc_start (size : Z) : mstate :=
  mk_mstate (zero_words bins 256 ∪ zero_words area (Z.to_nat (size / 4)))
    (mk_regs 0 0 0 0 (morecore_init area size)).
End malloc.
