(* ===== verification/MallocHeap.v ===== *)
(** The data of malloc: tags of chunks, bins, and the list of chunks that the words of the
    heap describe.  The separation logic of MallocInv.v uses it. *)

From S2P Require Import Prelude Qsort Morecore Malloc.

(** * Words *)

Definition tag (s : Z) (u : bool) : Z := s + b2z u.

(** [x & -2^k] rounds down. *)
Lemma land_down k x : 0 ≤ k ≤ 32 → 0 ≤ x < 2 ^ 32 → Z.land x (2 ^ 32 - 2 ^ k) = 2 ^ k * (x / 2 ^ k).
Proof. intros Hk Hx. rewrite <- (andnot32_low x k) by done. unfold andnot32. f_equal. lia. Qed.

Lemma size_of_tag s u : 0 ≤ s < 2 ^ 32 → s mod 16 = 0 → size_of (tag s u) = s.
Proof. intros Hs Hm. unfold size_of, tag. change (2 ^ 32 - 2) with (2 ^ 32 - 2 ^ 1).
  rewrite land_down by (destruct u; cbn [b2z]; divmod). destruct u; cbn [b2z]; divmod. Qed.

Lemma lor_1 s : s mod 2 = 0 → Z.lor s C_INUSE = s + 1.
Proof.
  intros He. unfold C_INUSE. rewrite <- Z.lxor_lor; [rewrite <- Z.add_nocarry_lxor; [done |] |];
    (change 1 with (Z.ones 1); rewrite Z.land_ones by lia; exact He).
Qed.

Lemma lor_tag s u : s mod 16 = 0 → Z.lor (tag s u) C_INUSE = tag s true.
Proof.
  intros Hm. destruct u; cbn [tag b2z]; unfold tag, b2z.
  - rewrite <- lor_1 by divmod. by rewrite <- Z.lor_assoc.
  - rewrite Z.add_0_r. apply lor_1. divmod.
Qed.

Lemma in_use_odd w : in_use w = Z.odd w.
Proof.
  unfold in_use, C_INUSE. change 1 with (Z.ones 1). rewrite Z.land_ones by lia. change (2 ^ 1) with 2.
  rewrite Zmod_odd. by destruct (Z.odd w).
Qed.

Lemma odd_tag s u : s mod 16 = 0 → Z.odd (tag s u) = u.
Proof.
  intros Hm. unfold tag. rewrite Z.odd_add. replace (Z.odd s) with false; [by destruct u |].
  pose proof (Zmod_odd s) as H. destruct (Z.odd s); [divmod | done].
Qed.

Lemma in_use_tag s u : s mod 16 = 0 → in_use (tag s u) = u.
Proof. rewrite in_use_odd. apply odd_tag. Qed.

Lemma in_use_land v w : in_use (Z.land v w) = in_use v && in_use w.
Proof. rewrite !in_use_odd, <- !Z.bit0_odd. apply Z.land_spec. Qed.

Lemma page_down_spec x : 0 ≤ x < 2 ^ 32 → page_down x = LIBC_PAGE_SIZE * (x / LIBC_PAGE_SIZE).
Proof. intros Hx. unfold page_down, LIBC_PAGE_SIZE. change 4096 with (2 ^ 12). by rewrite land_down by lia. Qed.

(** The size of the chunk for a request. *)
Lemma adjust_size_spec n :
  0 ≤ n < 2 ^ 32 →
  adjust_size n = None ∧ 2 ^ 31 - 4112 < n ∨
  ∃ k, adjust_size n = Some k ∧ n ≤ 2 ^ 31 - 4112 ∧ 16 ≤ k ∧ k mod 16 = 0 ∧ n + 8 ≤ k ≤ n + 23 ∧
    (MMAP_THRESHOLD < k ↔ 114680 < n).
Proof.
  intros Hn. unfold adjust_size, PTRDIFF_MAX, SIZE_ALIGN, LIBC_PAGE_SIZE, OVERHEAD, MMAP_THRESHOLD, SIZE_ALIGN.
  destruct (Z.eq_dec n 0) as [-> | Hn0].
  { right. exists 16. split_and!; first [reflexivity | lia | split; lia]. }
  rewrite (u32_small (n - 1)) by lia. destruct (Z.ltb_spec (2 ^ 31 - 1 - 16 - 4096) (n - 1)).
  - left. rewrite (proj2 (Z.eqb_neq n 0)) by done. split; [done | lia].
  - right. rewrite u32_small by lia. change (2 ^ 32 - 16) with (2 ^ 32 - 2 ^ 4).
    rewrite land_down by lia. change (2 ^ 4) with 16. eexists. split; [done |]. split_and!; [lia | divmod.. |]. split; divmod.
Qed.

(** * Bins *)

(** The bin of [x + 1] units, and the first bin whose chunks all have [x + 1] units. *)
Definition unit_bin (x : Z) : Z :=
  if x <=? 32 then x else if 0x1c00 <? x then 63 else Z.shiftr (float_bits x) 21 - 496.

Definition unit_bin_up (x : Z) : Z :=
  if x <=? 32 then x else Z.shiftr (u32 (float_bits x + 0x1fffff)) 21 - 496.

Fixpoint all_from (f : Z → bool) (x : Z) (n : nat) : bool :=
  match n with
  | O => true
  | S n => f x && all_from f (x + 1) n
  end.

Lemma all_from_spec f x n : all_from f x n = true → ∀ y, x ≤ y < x + Z.of_nat n → f y = true.
Proof.
  revert x. induction n as [|n IH]; intros x H y Hy; [lia |]. apply andb_prop in H as [H1 H2].
  destruct (Z.eq_dec y x) as [-> |]; [done |]. apply (IH (x + 1) H2). lia.
Qed.

(** The values below the last bin, by evaluation. *)
Lemma unit_bin_table : all_from (λ x, (unit_bin (x - 1) <=? unit_bin x) && (unit_bin x <=? 63)) 1 (Z.to_nat 0x1c01) = true.
Proof. vm_compute. reflexivity. Qed.

Lemma unit_bin_up_table : all_from (λ x, (unit_bin (x - 1) <? unit_bin_up x) && (unit_bin x <=? unit_bin_up x) && (unit_bin_up x <=? 63)) 1 (Z.to_nat 0x1bff) = true.
Proof. vm_compute. reflexivity. Qed.

Lemma unit_bin_step x : 1 ≤ x → unit_bin (x - 1) ≤ unit_bin x ≤ 63.
Proof.
  intros Hx. destruct (Z.leb_spec x 0x1c01) as [H |].
  - pose proof (all_from_spec _ _ _ unit_bin_table x ltac:(lia)) as Ht. cbv beta in Ht.
    apply andb_prop in Ht. rewrite !Z.leb_le in Ht. lia.
  - unfold unit_bin. rewrite (proj2 (Z.leb_gt x 32)), (proj2 (Z.leb_gt (x - 1) 32)) by lia.
    rewrite (proj2 (Z.ltb_lt 0x1c00 x)), (proj2 (Z.ltb_lt 0x1c00 (x - 1))) by lia. lia.
Qed.

Lemma unit_bin_up_step x : 1 ≤ x ≤ 0x1bff → unit_bin (x - 1) < unit_bin_up x ≤ 63 ∧ unit_bin x ≤ unit_bin_up x.
Proof.
  intros Hx. pose proof (all_from_spec _ _ _ unit_bin_up_table x ltac:(lia)) as Ht. cbv beta in Ht.
  rewrite !andb_true_iff, Z.ltb_lt, !Z.leb_le in Ht. lia.
Qed.

Lemma unit_bin_mono x y : 0 ≤ x ≤ y → unit_bin x ≤ unit_bin y.
Proof.
  intros [H0 H]. pattern y. apply (Zlt_lower_bound_ind _ x); [| exact H]. clear y H. intros y IH Hy.
  destruct (Z.eq_dec y x) as [-> |]; [lia |]. pose proof (unit_bin_step y ltac:(lia)). specialize (IH (y - 1)). lia.
Qed.

Lemma bin_index_unit s : 16 ≤ s < 2 ^ 32 → bin_index s = unit_bin (s / 16 - 1).
Proof. intros Hs. unfold bin_index, SIZE_ALIGN. by rewrite u32_small by divmod. Qed.

Lemma bin_index_range s : 16 ≤ s < 2 ^ 32 → 0 ≤ bin_index s < 64.
Proof.
  intros Hs. rewrite bin_index_unit by done. pose proof (unit_bin_mono 0 (s / 16 - 1) ltac:(divmod)).
  change (unit_bin 0) with 0 in *. destruct (Z.eq_dec (s / 16 - 1) 0) as [-> |]; [done |].
  pose proof (unit_bin_step (s / 16 - 1) ltac:(divmod)). lia.
Qed.

Lemma bin_index_up_range n : 16 ≤ n ≤ MMAP_THRESHOLD → 0 ≤ bin_index_up n < 64.
Proof.
  unfold MMAP_THRESHOLD, SIZE_ALIGN. intros Hn. unfold bin_index_up, SIZE_ALIGN. rewrite u32_small by divmod.
  fold (unit_bin_up (n / 16 - 1)). destruct (Z.eq_dec (n / 16 - 1) 0) as [-> |]; [done |].
  pose proof (unit_bin_up_step (n / 16 - 1) ltac:(divmod)). pose proof (unit_bin_mono 0 (n / 16 - 1 - 1) ltac:(divmod)).
  change (unit_bin 0) with 0 in *. lia.
Qed.

Lemma bin_index_up_ge n : 16 ≤ n ≤ MMAP_THRESHOLD → bin_index n ≤ bin_index_up n.
Proof.
  unfold MMAP_THRESHOLD, SIZE_ALIGN. intros Hn. rewrite bin_index_unit by lia. unfold bin_index_up, SIZE_ALIGN.
  rewrite u32_small by divmod. fold (unit_bin_up (n / 16 - 1)). destruct (Z.eq_dec (n / 16 - 1) 0) as [-> |]; [done |].
  pose proof (unit_bin_up_step (n / 16 - 1) ltac:(divmod)). lia.
Qed.

(** Every chunk of the bins from [bin_index_up n] on has [n] bytes. *)
Lemma bin_fits n s :
  16 ≤ n ≤ MMAP_THRESHOLD → n mod 16 = 0 → 16 ≤ s < 2 ^ 32 → bin_index_up n ≤ bin_index s → n ≤ s.
Proof.
  unfold MMAP_THRESHOLD, SIZE_ALIGN. intros Hn Hm Hs Hle. rewrite bin_index_unit in Hle by done.
  unfold bin_index_up, SIZE_ALIGN in Hle. rewrite u32_small in Hle by divmod.
  fold (unit_bin_up (n / 16 - 1)) in Hle. destruct (Z.le_gt_cases (n / 16) (s / 16)); [divmod |]. exfalso.
  pose proof (unit_bin_up_step (n / 16 - 1) ltac:(divmod)). pose proof (unit_bin_mono (s / 16 - 1) (n / 16 - 1 - 1) ltac:(divmod)). lia.
Qed.

(** * Lists of chunks *)

(** A chunk is its size and whether it is in use. *)
Definition chunks : Type := list (Z * bool).

Fixpoint extent (cs : chunks) : Z :=
  match cs with
  | [] => 0
  | (s, _) :: cs => s + extent cs
  end.

(** The chunks in the given state, with their addresses. *)
Fixpoint select (v : bool) (a : Z) (cs : chunks) : list (Z * Z) :=
  match cs with
  | [] => []
  | (s, u) :: cs => (if eqb u v then [(a, s)] else []) ++ select v (a + s) cs
  end.

Notation frees := (select false).
Notation useds := (select true).

Definition wfc (cs : chunks) : Prop := Forall (λ x, 16 ≤ x.1 ∧ x.1 mod 16 = 0) cs.

(** No two free chunks meet, after one that is in use or not. *)
Fixpoint apart (b : bool) (cs : chunks) : Prop :=
  match cs with
  | [] => True
  | (_, u) :: cs => b || u = true ∧ apart u cs
  end.

Definition last_used (b : bool) (cs : chunks) : bool := default b (snd <$> last cs).

Lemma extent_app p q : extent (p ++ q) = extent p + extent q.
Proof. induction p as [|[s u] p IH]; cbn; lia. Qed.

Lemma extent_nonneg cs : wfc cs → 0 ≤ extent cs ∧ extent cs mod 16 = 0.
Proof.
  induction 1 as [|[s u] cs [H1 H2] H IH]; cbn in *; [done |]. split; [lia |]. destruct IH. divmod.
Qed.

Lemma wfc_app p s u q : wfc p → 16 ≤ s ∧ s mod 16 = 0 → wfc q → wfc (p ++ (s, u) :: q).
Proof. intros Hp Hs Hq. apply Forall_app. split; [done |]. by constructor. Qed.

Lemma select_app v a p q : select v a (p ++ q) = select v a p ++ select v (a + extent p) q.
Proof.
  revert a. induction p as [|[s u] p IH]; intros a; cbn; [by rewrite Z.add_0_r |].
  rewrite IH, <- app_assoc. do 3 f_equal. lia.
Qed.

Lemma last_used_snoc b p s u : last_used b (p ++ [(s, u)]) = u.
Proof. unfold last_used. by rewrite last_snoc. Qed.

Lemma last_used_cons b s u p : last_used b ((s, u) :: p) = last_used u p.
Proof. unfold last_used. destruct p; [done |]. cbn [last]. by destruct (last _) eqn:E; [| apply last_None in E]. Qed.

Lemma apart_app b p q : apart b (p ++ q) ↔ apart b p ∧ apart (last_used b p) q.
Proof.
  revert b. induction p as [|[s u] p IH]; intros b; [cbn; tauto |]. cbn [app apart]. rewrite IH, last_used_cons. tauto.
Qed.

Lemma apart_weaken b cs : apart b cs → apart true cs.
Proof. destruct cs as [|[s u] cs]; [done |]. cbn. tauto. Qed.

(** A chunk among the selected ones is a place in the list. *)
Lemma select_split v a cs f1 f2 c s :
  select v a cs = f1 ++ (c, s) :: f2 →
  ∃ p q, cs = p ++ (s, v) :: q ∧ c = a + extent p ∧ f1 = select v a p ∧ f2 = select v (c + s) q.
Proof.
  revert a f1. induction cs as [|[t u] cs IH]; intros a f1 E; cbn in E; [by destruct f1 |].
  destruct (eqb u v) eqn:Eu.
  - apply eqb_prop in Eu as ->. destruct f1 as [|x f1]; cbn in E; injection E as E1 E2.
    + subst. exists [], cs. cbn. by rewrite Z.add_0_r.
    + destruct (IH _ _ E2) as (p & q & -> & Hc & -> & ->). exists ((t, v) :: p), q. cbn.
      rewrite eqb_reflx, E1. cbn. split_and!; [done | lia | done | done].
  - destruct (IH _ _ E) as (p & q & -> & Hc & -> & ->). exists ((t, u) :: p), q. cbn. rewrite Eu. cbn. split_and!; [done | lia | done | done].
Qed.

(** * Which chunk is in which bin *)

Definition in_bin (i : nat) (fr : list (Z * Z)) : list Z := (filter (λ x, bin_index x.2 = Z.of_nat i) fr).*1.

Definition placed (fr : list (Z * Z)) (bl : list (list Z)) : Prop :=
  length bl = 64%nat ∧ ∀ i l, bl !! i = Some l → l ≡ₚ in_bin i fr.

Definition binmap_ok (bm : Z) (bl : list (list Z)) : Prop :=
  0 ≤ bm < 2 ^ 64 ∧ ∀ i l, bl !! i = Some l → Z.testbit bm (Z.of_nat i) = bool_decide (l ≠ []).

Lemma in_bin_app i f1 f2 : in_bin i (f1 ++ f2) = in_bin i f1 ++ in_bin i f2.
Proof. unfold in_bin. by rewrite filter_app, fmap_app. Qed.

Lemma in_bin_cons i c s f : in_bin i ((c, s) :: f) = (if decide (bin_index s = Z.of_nat i) then [c] else []) ++ in_bin i f.
Proof. unfold in_bin. rewrite filter_cons. cbn. by destruct (decide _). Qed.

Lemma placed_lookup fr bl s :
  placed fr bl → 16 ≤ s < 2 ^ 32 → ∃ i l, bin_index s = Z.of_nat i ∧ bl !! i = Some l.
Proof.
  intros [Hl _] Hs. pose proof (bin_index_range s Hs). exists (Z.to_nat (bin_index s)).
  destruct (lookup_lt_is_Some_2 bl (Z.to_nat (bin_index s))) as [l El]; [lia |]. exists l. split; [lia | done].
Qed.

Lemma placed_remove f1 c s f2 bl i :
  placed (f1 ++ (c, s) :: f2) bl → bin_index s = Z.of_nat i → (i < 64)%nat →
  ∃ l1 l2, bl !! i = Some (l1 ++ c :: l2) ∧ placed (f1 ++ f2) (<[i := l1 ++ l2]> bl).
Proof.
  intros [Hl Hp] Hi Hlt. destruct (lookup_lt_is_Some_2 bl i) as [l El]; [lia |].
  pose proof (Hp _ _ El) as Hpl. rewrite in_bin_app, in_bin_cons, decide_True in Hpl by done. cbn in Hpl.
  assert (c ∈ l) as (l1 & l2 & ->)%list_elem_of_split by (rewrite Hpl; set_solver).
  exists l1, l2. split; [done |]. split; [by rewrite length_insert |]. intros j k [[-> [<- _]] | [Hne Hj]]%list_lookup_insert_Some.
  - rewrite in_bin_app. apply (Permutation_cons_inv (a := c)). rewrite Permutation_middle, Hpl. by rewrite <- Permutation_middle.
  - rewrite (Hp _ _ Hj), !in_bin_app, in_bin_cons, decide_False by lia. done.
Qed.

Lemma placed_add f1 c s f2 bl i l l' :
  placed (f1 ++ f2) bl → bin_index s = Z.of_nat i → bl !! i = Some l → l' ≡ₚ c :: l →
  placed (f1 ++ (c, s) :: f2) (<[i := l']> bl).
Proof.
  intros [Hl Hp] Hi El Hl'. split; [by rewrite length_insert |]. intros j k [[-> [<- _]] | [Hne Hj]]%list_lookup_insert_Some.
  - rewrite Hl', (Hp _ _ El), !in_bin_app, in_bin_cons, decide_True by done. cbn. by rewrite Permutation_middle.
  - rewrite (Hp _ _ Hj), !in_bin_app, in_bin_cons, decide_False by lia. done.
Qed.

Lemma placed_find fr bl i c l :
  placed fr bl → bl !! i = Some (c :: l) → ∃ f1 s f2, fr = f1 ++ (c, s) :: f2 ∧ bin_index s = Z.of_nat i.
Proof.
  intros [_ Hp] El. assert (c ∈ in_bin i fr) as Hc by (rewrite <- (Hp _ _ El); left).
  apply list_elem_of_fmap in Hc as ([c' s] & -> & [Hb Hin]%list_elem_of_filter).
  apply list_elem_of_split in Hin as (f1 & f2 & ->). by exists f1, s, f2.
Qed.

(** ** The map of the bins *)

Lemma binmap_clear bm bl i : binmap_ok bm bl → (i < 64)%nat → binmap_ok (Z.ldiff bm (Z.shiftl 1 (Z.of_nat i))) (<[i := []]> bl).
Proof.
  intros [Hb Hm] Hi. rewrite Z.shiftl_1_l. split.
  - split; [apply Z.ldiff_nonneg; lia |]. apply Z.bounded_iff_bits_nonneg; [lia | apply Z.ldiff_nonneg; lia |].
    intros k Hk. rewrite Z.ldiff_spec, (proj1 (Z.bounded_iff_bits_nonneg 64 bm ltac:(lia) ltac:(lia)) ltac:(lia) k Hk). done.
  - intros j l Hj. rewrite Z.ldiff_spec, Z.pow2_bits_eqb by lia.
    apply list_lookup_insert_Some in Hj as [[-> [<- _]] | [Hne Hj]].
    + rewrite Z.eqb_refl, andb_false_r. done.
    + rewrite (proj2 (Z.eqb_neq _ _)) by lia. rewrite andb_true_r. by apply Hm.
Qed.

Lemma binmap_same bm bl i l l' :
  binmap_ok bm bl → bl !! i = Some l → (l = [] ↔ l' = []) → binmap_ok bm (<[i := l']> bl).
Proof.
  intros [Hb Hm] Hi Hl. split; [done |]. intros j k [[-> [<- _]] | [Hne Hj]]%list_lookup_insert_Some; [| by apply Hm].
  rewrite (Hm _ _ Hi). apply bool_decide_ext. by rewrite Hl.
Qed.

Lemma binmap_set bm bl i l :
  binmap_ok bm bl → (i < 64)%nat → l ≠ [] → binmap_ok (Z.lor bm (Z.shiftl 1 (Z.of_nat i))) (<[i := l]> bl).
Proof.
  intros [Hb Hm] Hi Hl. rewrite Z.shiftl_1_l. split.
  - assert (0 < 2 ^ Z.of_nat i) as Hp by (apply Z.pow_pos_nonneg; lia).
    assert (0 ≤ Z.lor bm (2 ^ Z.of_nat i)) as Hn by (apply Z.lor_nonneg; lia). split; [exact Hn |].
    destruct (Z.eq_dec bm 0) as [-> | Hbm]; [rewrite Z.lor_0_l; apply Z.pow_lt_mono_r; lia |].
    apply Z.log2_lt_pow2.
    + apply Z.le_neq. split; [exact Hn |]. intros E. symmetry in E. apply Z.lor_eq_0_iff in E. lia.
    + rewrite Z.log2_lor, Z.log2_pow2 by lia. pose proof (proj1 (Z.log2_lt_pow2 bm 64 ltac:(lia)) ltac:(lia)). lia.
  - intros j k Hj. rewrite Z.lor_spec, Z.pow2_bits_eqb by lia.
    apply list_lookup_insert_Some in Hj as [[-> [<- _]] | [Hne Hj]].
    + rewrite Z.eqb_refl, orb_true_r. by rewrite bool_decide_true.
    + rewrite (proj2 (Z.eqb_neq _ _)) by lia. rewrite orb_false_r. by apply Hm.
Qed.

Lemma ctz_pos_bit x : 0 ≤ ctz_pos x ∧ Z.testbit (Zpos x) (ctz_pos x) = true.
Proof.
  induction x as [x _ | x [H1 H2] |]; [done | | done]. cbn [ctz_pos]. split; [lia |].
  replace (1 + ctz_pos x) with (Z.succ (ctz_pos x)) by lia. rewrite <- Z.div2_bits, <- ?Z.div2_div by lia. exact H2.
Qed.

(** The first bin that is not empty from the bin [i] on. *)
Lemma first_set_spec bm i :
  0 ≤ bm < 2 ^ 64 → 0 ≤ i < 64 → Z.land bm (2 ^ 64 - Z.shiftl 1 i) ≠ 0 →
  ∃ j, ntz (Z.land bm (2 ^ 64 - Z.shiftl 1 i)) = Ret j ∧ i ≤ j < 64 ∧ Z.testbit bm j = true.
Proof.
  intros Hb Hi. rewrite Z.shiftl_1_l. intros Hne. remember (Z.land bm (2 ^ 64 - 2 ^ i)) as x eqn:Ex.
  assert (0 ≤ x) as Hx by (subst x; apply Z.land_nonneg; lia). destruct x as [|y|y]; [done | | lia].
  pose proof (ctz_pos_bit y) as [H0 Hbit]. exists (ctz_pos y). split; [done |].
  rewrite Ex in Hbit. rewrite Z.land_spec in Hbit. apply andb_prop in Hbit as [H1 H2].
  assert (2 ^ 64 - 2 ^ i = Z.shiftl (Z.ones (64 - i)) i) as E.
  { rewrite Z.shiftl_mul_pow2, Z.ones_equiv by lia. replace 64 with (64 - i + i) at 1 by lia. rewrite Z.pow_add_r by lia. lia. }
  rewrite E, Z.shiftl_spec in H2 by lia. destruct (Z.ltb_spec (ctz_pos y) i); [by rewrite Z.testbit_neg_r in H2 by lia |].
  rewrite Z.testbit_ones_nonneg, Z.ltb_lt in H2 by lia. split; [lia | done].
Qed.

(** * The morecore area *)

Lemma mmap_cases len flags m :
  Z.land flags MAP_ANONYMOUS ≠ 0 → 0 ≤ mc_base m ≤ mc_top m → mc_top m < 2 ^ 32 → 0 ≤ len ≤ mc_top m →
  sys_mmap2 len flags m = Ret (2 ^ 32 - 12, m) ∧ mc_top m < mc_base m + len ∨
  sys_mmap2 len flags m = Ret (mc_top m - len, mk_morecore (mc_base m) (mc_top m - len)) ∧ mc_base m ≤ mc_top m - len.
Proof.
  intros Hf Hb Ht Hl. unfold sys_mmap2. rewrite (proj2 (Z.eqb_neq _ _)) by done. cbn [negb].
  rewrite (u32_small (mc_top m - len)) by lia. destruct (Z.ltb_spec (mc_top m - len) (mc_base m)); [left | right]; (split; [done | lia]).
Qed.

Lemma syscall_ret_small r : 0 ≤ r ≤ 2 ^ 32 - 4096 → u32 (syscall_ret r) = r.
Proof. intros Hr. unfold syscall_ret. rewrite (u32_small r) by lia. destruct (Z.ltb_spec (2 ^ 32 - 4096) r); [lia |]. apply u32_small. lia. Qed.

(** The pages inside a large chunk. *)
Lemma reclaim_len self nxt :
  0 < self → RECLAIM < nxt - self → nxt + 8 < 2 ^ 32 - 4096 →
  0 ≤ u32 (page_down (u32 (nxt - SIZE_ALIGN)) - page_down (u32 (self + SIZE_ALIGN + LIBC_PAGE_SIZE - 1))) ≤ nxt ∧
  u32 (page_down (u32 (nxt - SIZE_ALIGN)) - page_down (u32 (self + SIZE_ALIGN + LIBC_PAGE_SIZE - 1))) mod 4 = 0.
Proof.
  unfold RECLAIM, SIZE_ALIGN. intros H1 H2 H3. rewrite !page_down_spec by apply u32_range.
  unfold LIBC_PAGE_SIZE. rewrite (u32_small (nxt - 16)), (u32_small (self + 16 + 4096 - 1)) by lia.
  rewrite u32_small by divmod. divmod.
Qed.

(** The new end of the heap. *)
Lemma expand_new brk n :
  0 < brk < 2 ^ 32 - 8192 → brk mod 16 = 0 → 0 ≤ n → n ≤ u32 (SIZE_MAX - brk - 2 * LIBC_PAGE_SIZE) →
  let new := page_down (u32 (brk + n + SIZE_ALIGN + LIBC_PAGE_SIZE - 1)) in
  brk + n + 16 ≤ new < 2 ^ 32 ∧ (new - brk) mod 16 = 0 ∧ u32 (new - brk) = new - brk.
Proof.
  unfold SIZE_MAX, LIBC_PAGE_SIZE, SIZE_ALIGN. intros Hb Hm Hn Hle. rewrite u32_small in Hle by lia.
  rewrite page_down_spec by apply u32_range. unfold LIBC_PAGE_SIZE. rewrite u32_small by lia. cbv zeta.
  rewrite u32_small by divmod. divmod.
Qed.

Lemma brk_cases area new m :
  0 < new → mc_top m ≤ 2 ^ 32 - 4096 →
  ∃ m', morecore_brk area new m = (if (new <? mc_top m) && (area <? new) then new else 0, m') ∧
    m' = if (new <? mc_top m) && (area <? new) then mk_morecore new (mc_top m) else m.
Proof.
  intros Hn Ht. unfold morecore_brk. rewrite (proj2 (Z.eqb_neq new 0)) by lia.
  destruct ((new <? mc_top m) && (area <? new)); by eexists.
Qed.

(** [calloc] does not overflow. *)
Lemma calloc_fits m n :
  0 ≤ m < 2 ^ 32 → 0 ≤ n < 2 ^ 32 → negb (n =? 0) && ((2 ^ 32 - 1) / n <? m) = false → 0 ≤ n * m < 2 ^ 32.
Proof.
  intros Hm Hn H. split; [nia |]. destruct (Z.eqb_spec n 0) as [-> |]; [lia |]. cbn in H. apply Z.ltb_ge in H.
  pose proof (Z.mul_div_le (2 ^ 32 - 1) n ltac:(lia)). nia.
Qed.
