(* ===== verification/MallocLogic.v ===== *)
(** A separation logic for the code of Malloc.v, on the resources of Iris, and the rings of
    free chunks and the row of chunks described in it. *)

From iris.proofmode Require Import proofmode.
From iris.base_logic.lib Require Import gen_heap ghost_map.
From S2P Require Import Prelude Qsort Morecore Malloc MallocHeap.

Notation "l ↦ v" := (pointsto (L := Z) (V := Z) l (DfracOwn 1) v) (at level 20) : bi_scope.

(** No word can be accessed that could not be accessed before. *)
Definition no_more (m m' : gmap Z Z) : Prop := ∀ a, is_Some (m' !! a) → is_Some (m !! a).

Lemma no_more_refl m : no_more m m.
Proof. by intros a. Qed.
#[local] Hint Resolve no_more_refl : core.

Section wp.
Context `{!gen_heapGS Z Z Σ}.

(** * Weakest preconditions *)

(** The code returns from the registers [r] and the memory that is owned, and [Φ] holds
    of the result and the registers then. *)
Definition wp {A} (c : MM A) (r : regs) (Φ : A → regs → iProp Σ) : iProp Σ :=
  ∀ m, gen_heap_interp m ==∗
    ∃ a m' r', ⌜c (mk_mstate m r) = Ret (a, mk_mstate m' r') ∧ no_more m m'⌝ ∗ gen_heap_interp m' ∗ Φ a r'.

Lemma wp_ret {A} (a : A) r Φ : Φ a r ⊢ wp (mret a) r Φ.
Proof. iIntros "H %m Hm". iModIntro. iExists a, m, r. iFrame. auto. Qed.

Lemma wp_bind {A B} (c : MM A) (k : A → MM B) r Φ :
  wp c r (λ a r', wp (k a) r' Φ) ⊢ wp (c ≫= k) r Φ.
Proof.
  iIntros "H %m Hm". iMod ("H" with "Hm") as (a m' r' [E D]) "[Hm H]".
  iMod ("H" with "Hm") as (b m2 r2 [E2 D2]) "H". iModIntro. iExists b, m2, r2. iFrame. iPureIntro.
  rewrite /mbind /MM_bind E. split; [done |]. intros x Hx. by apply D, D2.
Qed.

Lemma wp_mono {A} (c : MM A) r Φ Ψ : wp c r Φ -∗ (∀ a r', Φ a r' -∗ Ψ a r') -∗ wp c r Ψ.
Proof.
  iIntros "H K %m Hm". iMod ("H" with "Hm") as (a m' r' E) "[Hm H]". iModIntro. iExists a, m', r'. iFrame.
  iSplit; [done |]. by iApply "K".
Qed.

Lemma wp_lw a v r Φ : a ↦ v -∗ (a ↦ v -∗ Φ v r) -∗ wp (lw a) r Φ.
Proof.
  iIntros "H K %m Hm". iDestruct (gen_heap_valid with "Hm H") as %E. iModIntro. iExists v, m, r.
  iFrame. iSplit; [| by iApply "K"]. iPureIntro. rewrite /lw /= E. auto.
Qed.

Lemma wp_sw a w v r Φ : a ↦ w -∗ (a ↦ v -∗ Φ tt r) -∗ wp (sw a v) r Φ.
Proof.
  iIntros "H K %m Hm". iDestruct (gen_heap_valid with "Hm H") as %E.
  iMod (gen_heap_update with "Hm H") as "[Hm H]". iModIntro. iExists tt, _, r.
  iFrame. iSplit; [| by iApply "K"]. iPureIntro. rewrite /sw /= E. split; [done |].
  intros x [<- | [_ Hx]]%lookup_insert_is_Some; [by rewrite E | done].
Qed.

Lemma wp_getr r Φ : Φ r r ⊢ wp getr r Φ.
Proof. iIntros "H %m Hm". iModIntro. iExists r, m, r. iFrame. auto. Qed.

Lemma wp_modr f r Φ : Φ tt (f r) ⊢ wp (modr f) r Φ.
Proof. iIntros "H %m Hm". iModIntro. iExists tt, m, (f r). iFrame. auto. Qed.

(** A step that touches no memory. *)
Lemma wp_pure {A} (c : MM A) r a r' Φ :
  (∀ m, c (mk_mstate m r) = Ret (a, mk_mstate m r')) → Φ a r' ⊢ wp c r Φ.
Proof. iIntros (E) "H %m Hm". iModIntro. iExists a, m, r'. iFrame. iPureIntro. auto. Qed.

End wp.

(** Step over a load or a store of the word in the given hypothesis. *)
Ltac wload H := iApply wp_bind; iApply (wp_lw with H); iIntros H.
Ltac wstore H := iApply wp_bind; iApply (wp_sw with H); iIntros H.

Section heap.
Context `{!gen_heapGS Z Z Σ}.

(** * Stretches of memory *)

Fixpoint words (a : Z) (n : nat) : iProp Σ :=
  match n with
  | O => emp
  | S n => (∃ v, a ↦ v) ∗ words (a + 4) n
  end.

(** The words from [a] up to [b]. *)
Definition raw (a b : Z) : iProp Σ := ⌜a ≤ b ∧ (b - a) mod 4 = 0⌝ ∗ words a (Z.to_nat ((b - a) / 4)).

Lemma raw_pure a b : raw a b ⊢ ⌜a ≤ b ∧ (b - a) mod 4 = 0⌝.
Proof. by iIntros "[$ _]". Qed.

Lemma words_app a n k : words a (n + k) ⊣⊢ words a n ∗ words (a + 4 * Z.of_nat n) k.
Proof.
  revert a. induction n as [|n IH]; intros a.
  - by rewrite /= Z.add_0_r left_id.
  - cbn [words Nat.add]. rewrite IH -bi.sep_assoc. by replace (a + 4 + 4 * Z.of_nat n) with (a + 4 * Z.of_nat (S n)) by lia.
Qed.

Lemma raw_split a b c : a ≤ b ≤ c → (b - a) mod 4 = 0 → (c - b) mod 4 = 0 → raw a c ⊣⊢ raw a b ∗ raw b c.
Proof.
  intros H1 H2 H3. rewrite /raw.
  replace (Z.to_nat ((c - a) / 4)) with (Z.to_nat ((b - a) / 4) + Z.to_nat ((c - b) / 4))%nat by divmod.
  rewrite words_app. replace (a + 4 * Z.of_nat (Z.to_nat ((b - a) / 4))) with b by divmod.
  iSplit; [iIntros "[_ [H1 H2]]" | iIntros "[[_ H1] [_ H2]]"]; iFrame; iPureIntro; split_and?; divmod.
Qed.

Lemma raw_1 a : raw a (a + 4) ⊣⊢ ∃ v, a ↦ v.
Proof.
  rewrite /raw. replace (Z.to_nat ((a + 4 - a) / 4)) with 1%nat by divmod. rewrite /= right_id.
  iSplit; [iIntros "[_ $]" | iIntros "$"]. iPureIntro. split; divmod.
Qed.

Lemma raw_cons a b : a < b → (b - a) mod 4 = 0 → raw a b ⊣⊢ (∃ v, a ↦ v) ∗ raw (a + 4) b.
Proof. intros H1 H2. rewrite (raw_split a (a + 4) b); [by rewrite raw_1 | divmod..]. Qed.

Lemma raw_nil a : ⊢ raw a a.
Proof. rewrite /raw Z.sub_diag. iSplit; [| done]. iPureIntro. split; divmod. Qed.

Lemma raw_2 a : raw a (a + 8) ⊣⊢ (∃ v, a ↦ v) ∗ (∃ v, (a + 4) ↦ v).
Proof. rewrite (raw_cons a) ?(raw_cons (a + 4)); [| divmod..]. replace (a + 4 + 4) with (a + 8) by lia. iSplit; [iIntros "($ & $ & _)" | iIntros "[$ $]"]. iApply raw_nil. Qed.

(** Words with their contents. *)
Fixpoint cells (a : Z) (ws : list Z) : iProp Σ :=
  match ws with
  | [] => emp
  | w :: ws => a ↦ w ∗ cells (a + 4) ws
  end.

Lemma cells_app a us ws : cells a (us ++ ws) ⊣⊢ cells a us ∗ cells (a + 4 * Zlength us) ws.
Proof.
  revert a. induction us as [|u us IH]; intros a.
  - by rewrite /= Z.add_0_r left_id.
  - cbn [cells app]. rewrite IH -bi.sep_assoc Zlength_cons. by replace (a + 4 + 4 * Zlength us) with (a + 4 * (1 + Zlength us)) by lia.
Qed.

Lemma words_cells a n : words a n ⊣⊢ ∃ ws, ⌜length ws = n⌝ ∗ cells a ws.
Proof.
  revert a. induction n as [|n IH]; intros a; cbn [words].
  - iSplit; [iIntros "_"; by iExists [] | by iIntros "H"].
  - rewrite IH. iSplit.
    + iIntros "[[%v Hv] (%ws & %Hl & Hws)]". iExists (v :: ws). cbn. iFrame. by rewrite Hl.
    + iIntros "(%ws & %Hl & Hws)". destruct ws as [|v ws]; [done |]. iDestruct "Hws" as "[Hv Hws]". iSplitL "Hv"; [by eauto |].
      iExists ws. iFrame. iPureIntro. by injection Hl.
Qed.

Lemma raw_cells a b : raw a b ⊣⊢ ∃ ws, ⌜b = (a + 4 * Zlength ws)%Z⌝ ∗ cells a ws.
Proof.
  rewrite /raw words_cells. iSplit.
  - iIntros "([%H1 %H2] & %ws & %Hl & H)". iExists ws. iFrame. iPureIntro. rewrite /Zlength. divmod.
  - iIntros "(%ws & -> & H)". rewrite /Zlength. iSplit; [iPureIntro; split; divmod |]. iExists ws. iFrame. iPureIntro. divmod.
Qed.

(** Words that have never been written. *)
Definition zeroed (a b : Z) : iProp Σ := ⌜a ≤ b ∧ (b - a) mod 4 = 0⌝ ∗ cells a (replicate (Z.to_nat ((b - a) / 4)) 0).

Lemma zeroed_pure a b : zeroed a b ⊢ ⌜a ≤ b ∧ (b - a) mod 4 = 0⌝.
Proof. by iIntros "[$ _]". Qed.

Lemma zeroed_raw a b : zeroed a b ⊢ raw a b.
Proof. rewrite raw_cells. iIntros "([%H1 %H2] & H)". iExists _. iFrame. iPureIntro. rewrite /Zlength length_replicate. divmod. Qed.

Lemma zeroed_split a b c : a ≤ b ≤ c → (b - a) mod 4 = 0 → (c - b) mod 4 = 0 → zeroed a c ⊣⊢ zeroed a b ∗ zeroed b c.
Proof.
  intros H1 H2 H3. rewrite /zeroed.
  replace (Z.to_nat ((c - a) / 4)) with (Z.to_nat ((b - a) / 4) + Z.to_nat ((c - b) / 4))%nat by divmod.
  rewrite replicate_add cells_app /Zlength length_replicate. replace (a + 4 * Z.of_nat (Z.to_nat ((b - a) / 4))) with b by divmod.
  iSplit; [iIntros "[_ [H1 H2]]" | iIntros "[[_ H1] [_ H2]]"]; iFrame; iPureIntro; split_and?; divmod.
Qed.

(** * Rings *)

(** The links from the chunk [x] over the chunks of [l] to [y]. *)
Fixpoint links (x : Z) (l : list Z) (y : Z) : iProp Σ :=
  match l with
  | [] => next x ↦ y ∗ prev y ↦ x
  | c :: l => next x ↦ c ∗ prev c ↦ x ∗ links c l y
  end.

Lemma links_app x l1 c l2 y : links x (l1 ++ c :: l2) y ⊣⊢ links x l1 c ∗ links c l2 y.
Proof. revert x. induction l1 as [|d l1 IH]; intros x; [by rewrite /= assoc |]. rewrite /= IH. by rewrite -!assoc. Qed.

Lemma links_next_ne z v x l y : next z ↦ v -∗ links x l y -∗ ⌜z ≠ x⌝.
Proof.
  iIntros "Hz Hl". iAssert (∃ w, next x ↦ w)%I with "[Hl]" as (w) "Hx".
  { destruct l; iDestruct "Hl" as "[Hl _]"; eauto. }
  iDestruct (pointsto_ne with "Hz Hx") as %Hne. iPureIntro. congruence.
Qed.

Lemma links_prev_ne z v x l y : prev z ↦ v -∗ links x l y -∗ ⌜z ≠ y⌝.
Proof.
  revert x. induction l as [|c l IH]; iIntros (x) "Hz Hl /=".
  - iDestruct "Hl" as "[_ Hy]". iDestruct (pointsto_ne with "Hz Hy") as %Hne. iPureIntro. congruence.
  - iDestruct "Hl" as "(_ & _ & Hl)". iApply (IH with "Hz Hl").
Qed.

Lemma links_first x l y : links x l y ⊢ next x ↦ default y (head l) ∗ (next x ↦ default y (head l) -∗ links x l y).
Proof. destruct l; iIntros "[$ H] $"; iFrame. Qed.

(** The neighbours of a chunk in a ring; without it, or with another in its place, they
    are still a ring. *)
Lemma links_cut B l1 c l2 :
  links B (l1 ++ c :: l2) B ⊢ ∃ p q, next p ↦ c ∗ prev c ↦ p ∗ next c ↦ q ∗ prev q ↦ c ∗
    ⌜p = q ↔ l1 ++ l2 = []⌝ ∗
    ((next p ↦ q -∗ prev q ↦ p -∗ links B (l1 ++ l2) B) ∧
     (∀ d, next p ↦ d -∗ prev d ↦ p -∗ next d ↦ q -∗ prev q ↦ d -∗ links B (l1 ++ d :: l2) B)).
Proof.
  rewrite links_app. iIntros "[H1 H2]".
  destruct l1 as [|p l1 _] using rev_ind; destruct l2 as [|q l2]; cbn [links].
  - iDestruct "H1" as "[Hp Hc]". iDestruct "H2" as "[Hn Hq]". iExists B, B. iFrame. iSplit; [done |].
    iSplit; [iIntros "H1 H2"; iFrame | iIntros (d) "H1 H2 H3 H4"; iFrame].
  - iDestruct "H1" as "[Hp Hc]". iDestruct "H2" as "(Hn & Hq & Hl)".
    iDestruct (links_next_ne with "Hp Hl") as %Hne. iExists B, q. iFrame. iSplit; [done |].
    iSplit; [iIntros "H1 H2"; iFrame | iIntros (d) "H1 H2 H3 H4"; iFrame].
  - rewrite links_app. iDestruct "H1" as "(Hl & Hp & Hc)". iDestruct "H2" as "[Hn Hq]".
    iDestruct (links_prev_ne with "Hq Hl") as %Hne. iExists p, B. iFrame.
    iSplit; [iPureIntro; split; [congruence | by destruct l1] |]. rewrite app_nil_r.
    iSplit; [iIntros "H1 H2" | iIntros (d) "H1 H2 H3 H4"; rewrite links_app]; rewrite links_app; iFrame.
  - rewrite links_app. iDestruct "H1" as "(Hl & Hp & Hc)". iDestruct "H2" as "(Hn & Hq & Hr)".
    iDestruct (links_next_ne with "Hp Hr") as %Hne. iExists p, q. iFrame.
    iSplit; [iPureIntro; split; [congruence | by destruct l1] |]. rewrite -!app_assoc.
    iSplit; [iIntros "H1 H2" | iIntros (d) "H1 H2 H3 H4"]; rewrite /= !links_app /=; iFrame.
Qed.

(** The end of a ring. *)
Lemma links_end B l :
  links B l B ⊢ ∃ p, next p ↦ B ∗ prev B ↦ p ∗
    (∀ d, next p ↦ d -∗ prev d ↦ p -∗ next d ↦ B -∗ prev B ↦ d -∗ links B (l ++ [d]) B).
Proof.
  iIntros "H". destruct l as [|p l _] using rev_ind.
  - iDestruct "H" as "[Hn Hp]". iExists B. iFrame. iIntros (d) "H1 H2 H3 H4". rewrite /=. iFrame.
  - rewrite links_app. iDestruct "H" as "(Hl & Hn & Hp)". iExists p. iFrame. iIntros (d) "H1 H2 H3 H4".
    rewrite !links_app /=. iFrame.
Qed.

(** * Bins *)

Context (bins : Z) (Hbins : 0 < bins).

Local Notation B i := (BIN_TO_CHUNK bins (Z.of_nat i)).

(** A bin that was never used has a null head. *)
Definition bin_at (i : nat) (l : list Z) : iProp Σ :=
  links (B i) l (B i) ∨ ⌜l = []⌝ ∗ next (B i) ↦ 0 ∗ prev (B i) ↦ 0.

(** The bins hold exactly the free chunks [fr]. *)
Definition binned (r : regs) (fr : list (Z * Z)) : iProp Σ :=
  ∃ bl, ⌜placed fr bl ∧ binmap_ok (mal_binmap r) bl ∧ Forall (λ x, 0 < x.1) fr⌝ ∗ [∗ list] i ↦ l ∈ bl, bin_at i l.

(** The same with the bin [i] taken out. *)
Definition binned_open (r : regs) (fr : list (Z * Z)) (i : nat) : iProp Σ :=
  ∃ bl l, ⌜placed fr bl ∧ binmap_ok (mal_binmap r) bl ∧ Forall (λ x, 0 < x.1) fr ∧ bl !! i = Some l⌝ ∗
    links (B i) l (B i) ∗ (∀ l', bin_at i l' -∗ [∗ list] k ↦ l ∈ <[i := l']> bl, bin_at k l).

Lemma binned_lookup fr bl i c l : placed fr bl → Forall (λ x, 0 < x.1) fr → bl !! i = Some l → c ∈ l → 0 < c.
Proof.
  intros [_ Hp] Hpos El Hc. rewrite (Hp _ _ El) in Hc. apply list_elem_of_fmap in Hc as (x & -> & [_ Hx]%list_elem_of_filter).
  by eapply Forall_forall in Hpos.
Qed.

Lemma wp_lock_bin i r fr Φ :
  (i < 64)%nat → binned r fr -∗ (binned_open r fr i -∗ Φ tt r) -∗ wp (lock_bin bins (Z.of_nat i)) r Φ.
Proof.
  iIntros (Hi) "(%bl & (%Hp & %Hm & %Hpos) & Hb) K". destruct (lookup_lt_is_Some_2 bl i) as [l El]; [by rewrite (proj1 Hp) |].
  iDestruct (big_sepL_insert_acc with "Hb") as "[Hl Hb]"; [exact El |].
  iDestruct "Hl" as "[Hl | (-> & Hn & Hpr)]".
  - iDestruct (links_first with "Hl") as "[Hn Hl]". wload "Hn". rewrite (proj2 (Z.eqb_neq _ _)).
    + iApply wp_ret. iApply "K". iExists bl, l. iSplit; [done |]. iFrame. by iApply "Hl".
    + destruct l as [|c l]; cbn; [rewrite /BIN_TO_CHUNK; lia |].
      pose proof (binned_lookup _ _ _ c _ Hp Hpos El ltac:(left)). lia.
  - wload "Hn". wstore "Hpr". iApply (wp_sw with "Hn"). iIntros "Hn". iApply "K". iExists bl, []. by iFrame.
Qed.

Definition good (s : Z) : Prop := 16 ≤ s < 2 ^ 32 ∧ s mod 16 = 0.

Lemma set_binmap_same r : set_binmap (mal_binmap r) r = r.
Proof. by destruct r. Qed.

Lemma wp_CHUNK_SIZE c s u r Φ :
  good s → csize c ↦ tag s u -∗ (csize c ↦ tag s u -∗ Φ s r) -∗ wp (CHUNK_SIZE c) r Φ.
Proof.
  iIntros ([Hs Hm]) "Hc K". wload "Hc". rewrite size_of_tag //; [| lia]. iApply wp_ret. by iApply "K".
Qed.

Lemma wp_NEXT_CHUNK c s u r Φ :
  good s → csize c ↦ tag s u -∗ (csize c ↦ tag s u -∗ Φ (c + s) r) -∗ wp (NEXT_CHUNK c) r Φ.
Proof.
  iIntros (Hs) "Hc K". iApply wp_bind. iApply (wp_CHUNK_SIZE with "Hc"); [done |]. iIntros "Hc". iApply wp_ret. by iApply "K".
Qed.

Lemma wp_PREV_CHUNK c s u r Φ :
  good s → psize c ↦ tag s u -∗ (psize c ↦ tag s u -∗ Φ (c - s) r) -∗ wp (PREV_CHUNK c) r Φ.
Proof.
  iIntros ([Hs Hm]) "Hc K". iApply wp_bind. wload "Hc". rewrite size_of_tag //; [| lia]. do 2 iApply wp_ret. by iApply "K".
Qed.

(** The two link words of a chunk. *)
Lemma links_raw c v w : next c ↦ v -∗ prev c ↦ w -∗ raw (c + 8) (c + 16).
Proof.
  iIntros "Hn Hp". replace (c + 16) with (c + 8 + 8) by lia. rewrite raw_2 /next /prev.
  replace (c + 8 + 4) with (c + 12) by lia. iSplitL "Hn"; eauto.
Qed.

Lemma raw_links c : raw (c + 8) (c + 16) ⊢ ∃ v w, next c ↦ v ∗ prev c ↦ w.
Proof.
  iIntros "H". replace (c + 16) with (c + 8 + 8) by lia. rewrite raw_2 /next /prev.
  replace (c + 8 + 4) with (c + 12) by lia. iDestruct "H" as "[[% H1] [% H2]]". iExists _, _. iFrame.
Qed.

(** The bin of a free chunk has been used. *)
Lemma binned_reopen r f1 c s f2 i :
  bin_index s = Z.of_nat i → (i < 64)%nat → binned r (f1 ++ (c, s) :: f2) ⊢ binned_open r (f1 ++ (c, s) :: f2) i.
Proof.
  iIntros (Hi Hlt) "(%bl & (%Hp & %Hm & %Hpos) & Hb)". destruct (placed_remove f1 c s f2 bl i Hp Hi Hlt) as (l1 & l2 & El & _).
  iDestruct (big_sepL_insert_acc with "Hb") as "[Hl Hb]"; [exact El |]. iDestruct "Hl" as "[Hl | (%E & _)]"; [| by destruct l1].
  iExists bl, _. by iFrame.
Qed.

(** [unbin] takes the chunk out of its bin and marks it. *)
Lemma wp_unbin c s w i f1 f2 r Φ :
  good s → bin_index s = Z.of_nat i → (i < 64)%nat →
  binned_open r (f1 ++ (c, s) :: f2) i -∗ csize c ↦ tag s false -∗ psize (c + s) ↦ w -∗
  (∀ bm, binned (set_binmap bm r) (f1 ++ f2) -∗ csize c ↦ tag s true -∗ psize (c + s) ↦ Z.lor w C_INUSE -∗
     raw (c + 8) (c + 16) -∗ Φ tt (set_binmap bm r)) -∗
  wp (unbin c (Z.of_nat i)) r Φ.
Proof.
  iIntros (Hs Hi Hlt) "(%bl & %l & (%Hp & %Hm & %Hpos & %El) & Hl & Hb) Hc Hd K".
  destruct (placed_remove f1 c s f2 bl i Hp Hi Hlt) as (l1 & l2 & El' & Hp'). rewrite El in El'. injection El' as ->.
  iDestruct (links_cut with "Hl") as (p q) "(Hpn & Hcp & Hcn & Hqp & %Hpq & Hl)".
  iDestruct "Hl" as "[Hl _]". wload "Hcp". wload "Hcn". iApply wp_bind.
  set (bm := if p =? q then Z.ldiff (mal_binmap r) (Z.shiftl 1 (Z.of_nat i)) else mal_binmap r).
  iAssert (wp (if p =? q then modr (λ r, set_binmap (Z.ldiff (mal_binmap r) (Z.shiftl 1 (Z.of_nat i))) r) else mret tt) r
    (λ _ r', ⌜r' = set_binmap bm r⌝)%I) as "H0".
  { rewrite /bm. destruct (p =? q); [by iApply wp_modr | iApply wp_ret; by rewrite set_binmap_same]. }
  iApply (wp_mono with "H0"). iIntros ([] r' ->). wload "Hcp". wload "Hcn". wstore "Hpn". wload "Hcn". wload "Hcp".
  wstore "Hqp". wload "Hc". wstore "Hc". rewrite lor_tag; [| by destruct Hs].
  iApply wp_bind. iApply (wp_NEXT_CHUNK with "Hc"); [done |]. iIntros "Hc". wload "Hd".
  iApply (wp_sw with "Hd"). iIntros "Hd". iApply ("K" with "[Hl Hb Hpn Hqp] Hc Hd [Hcn Hcp]"); [| by iApply (links_raw with "Hcn Hcp")].
  iExists (<[i := l1 ++ l2]> bl). iSplit; [iPureIntro; split; [done |] |].
  - split; [| by apply Forall_app in Hpos as [? ?%Forall_cons]; apply Forall_app; naive_solver].
    rewrite /bm /=. destruct (Z.eqb_spec p q) as [E | E].
    + rewrite (proj1 Hpq E). by apply binmap_clear.
    + eapply binmap_same; [done | done |]. split; [by destruct l1 | tauto].
  - iApply "Hb". iLeft. iApply ("Hl" with "Hpn Hqp").
Qed.

(** The end of [free] puts a chunk into its bin. *)
Lemma wp_put_bin c s i f1 f2 r Φ :
  0 < c → bin_index s = Z.of_nat i → (i < 64)%nat →
  binned_open r (f1 ++ f2) i -∗ raw (c + 8) (c + 16) -∗
  (∀ bm, binned (set_binmap bm r) (f1 ++ (c, s) :: f2) -∗ Φ tt (set_binmap bm r)) -∗
  wp (put_bin bins c (Z.of_nat i)) r Φ.
Proof.
  iIntros (Hc Hi Hlt) "(%bl & %l & (%Hp & %Hm & %Hpos & %El) & Hl & Hb) Hraw K".
  iDestruct (raw_links with "Hraw") as (v w) "[Hcn Hcp]". iDestruct (links_end with "Hl") as (t) "(Htn & HBp & Hl)".
  wstore "Hcn". wload "HBp". wstore "Hcp". wload "Hcn". wstore "HBp". wload "Hcp". wstore "Htn". iApply wp_modr.
  set (bm := if Z.testbit (mal_binmap r) (Z.of_nat i) then mal_binmap r else Z.lor (mal_binmap r) (Z.shiftl 1 (Z.of_nat i))).
  replace (if negb _ then _ else r) with (set_binmap bm r); last first.
  { rewrite /bm. destruct (Z.testbit _ _); [by rewrite set_binmap_same | done]. }
  iApply "K". iExists (<[i := l ++ [c]]> bl). iSplit; [iPureIntro; split_and! |].
  - eapply placed_add; [done | done | exact El |]. by rewrite Permutation_app_comm.
  - rewrite /bm /=. destruct (Z.testbit _ _) eqn:E.
    + eapply binmap_same; [done | exact El |]. destruct Hm as [_ Hm]. rewrite (Hm _ _ El) in E. apply bool_decide_eq_true in E.
      split; [done | by destruct l].
    + apply binmap_set; [done | done | by destruct l].
  - apply Forall_app in Hpos as [? ?]. apply Forall_app. split; [done |]. by constructor.
  - iApply "Hb". iLeft. iApply ("Hl" with "Htn Hcp Hcn HBp").
Qed.

(** * Chunks *)

(** The memory of a free chunk behind its links. *)
Definition body (a s : Z) (u : bool) : iProp Σ := (if u then emp else raw (a + 16) (a + s))%I.

(** The words of the chunks from the address [a] on that the allocator owns: all but the
    memory of chunks in use and the links of free ones. *)
Fixpoint segm (a : Z) (cs : chunks) : iProp Σ :=
  match cs with
  | [] => emp
  | (s, u) :: cs =>
      csize a ↦ tag s u ∗ body a s u ∗ psize (a + s) ↦ tag s u ∗ segm (a + s) cs
  end.

(** The chunks before an address and those from it on. *)
Definition front (h : Z) (p : chunks) : iProp Σ := psize h ↦ 1 ∗ segm h p.
Definition back (b : Z) (q : chunks) : iProp Σ := segm b q ∗ csize (b + extent q) ↦ 1.

Definition first_used (q : chunks) : bool := match q with [] => true | (_, u) :: _ => u end.

Lemma segm_app a p q : segm a (p ++ q) ⊣⊢ segm a p ∗ segm (a + extent p) q.
Proof.
  revert a. induction p as [|[s u] p IH]; intros a; cbn [segm app extent].
  - by rewrite Z.add_0_r left_id.
  - rewrite IH -!bi.sep_assoc. by replace (a + s + extent p) with (a + (s + extent p)) by lia.
Qed.

Lemma front_snoc h p s u :
  front h (p ++ [(s, u)]) ⊣⊢ front h p ∗ csize (h + extent p) ↦ tag s u ∗
    body (h + extent p) s u ∗ psize (h + extent p + s) ↦ tag s u.
Proof. rewrite /front segm_app /= right_id. by rewrite -!bi.sep_assoc. Qed.

Lemma back_cons b s u q :
  back b ((s, u) :: q) ⊣⊢ csize b ↦ tag s u ∗ body b s u ∗ psize (b + s) ↦ tag s u ∗ back (b + s) q.
Proof. rewrite /back /= -!bi.sep_assoc. by replace (b + (s + extent q)) with (b + s + extent q) by lia. Qed.

Lemma front_read h p :
  wfc p → front h p ⊢ ∃ w, ⌜in_use w = last_used true p⌝ ∗ psize (h + extent p) ↦ w ∗ (psize (h + extent p) ↦ w -∗ front h p).
Proof.
  iIntros (Hw) "H". destruct p as [|[s u] p _] using rev_ind.
  - iExists 1. iDestruct "H" as "[H _]". rewrite /= Z.add_0_r. iFrame. iSplit; [done |]. iIntros "$".
  - apply Forall_app in Hw as [_ [[_ Hm] _]%Forall_cons]. 
    assert (h + extent (p ++ [(s, u)]) = h + extent p + s) as -> by (rewrite extent_app /=; lia).
    iDestruct (front_snoc with "H") as "(H1 & H2 & H3 & H4)". iExists _. iFrame "H4".
    iSplit; [by rewrite last_used_snoc in_use_tag |]. iIntros "H4". iApply front_snoc. iFrame.
Qed.

Lemma back_read b q :
  wfc q → back b q ⊢ ∃ w, ⌜in_use w = first_used q⌝ ∗ csize b ↦ w ∗ (csize b ↦ w -∗ back b q).
Proof.
  iIntros (Hw) "H". destruct q as [|[s u] q].
  - iExists 1. iDestruct "H" as "[_ H]". rewrite /back /= Z.add_0_r. iFrame. iSplit; [done |]. by iIntros "$".
  - apply Forall_cons in Hw as [[_ Hm] _]. iDestruct (back_cons with "H") as "(H1 & H2 & H3 & H4)". iExists _. iFrame "H1".
    iSplit; [by rewrite in_use_tag |]. iIntros "H1". iApply back_cons. iFrame.
Qed.

Lemma wp_both_in_use h p b q r Φ :
  wfc p → wfc q → front h p -∗ back b q -∗
  (front h p -∗ back b q -∗ Φ (last_used true p && first_used q) r) -∗ wp (both_in_use (h + extent p) b) r Φ.
Proof.
  iIntros (Hp Hq) "Hf Hb K". iDestruct (front_read with "Hf") as (v) "(%Ev & Hv & Hf)"; [done |].
  iDestruct (back_read with "Hb") as (w) "(%Ew & Hw & Hb)"; [done |]. wload "Hv". wload "Hw". iApply wp_ret.
  rewrite in_use_land Ev Ew. iApply ("K" with "[Hf Hv] [Hb Hw]"); [by iApply "Hf" | by iApply "Hb"].
Qed.

(** ** Taking the neighbours *)

Lemma bin_nat s : good s → ∃ i, bin_index s = Z.of_nat i ∧ (i < 64)%nat.
Proof. intros [Hs _]. pose proof (bin_index_range s Hs). exists (Z.to_nat (bin_index s)). lia. Qed.

Lemma raw_chunk c s : good s → raw (c + 8) (c + 16) -∗ raw (c + 16) (c + s) -∗ raw (c + 8) (c + s).
Proof. iIntros ([Hs Hm]) "H1 H2". rewrite (raw_split (c + 8) (c + 16) (c + s)); [by iFrame | divmod..]. Qed.

Lemma wp_alloc_rev_used h p a r Φ :
  a = h + extent p → wfc p → last_used true p = true → front h p -∗ (front h p -∗ Φ false r) -∗ wp (alloc_rev bins a) r Φ.
Proof.
  iIntros (-> Hp Hu) "Hf K". iDestruct (front_read with "Hf") as (v) "(%Ev & Hv & Hf)"; [done |]. wload "Hv".
  rewrite Ev Hu. iApply wp_ret. iApply "K". by iApply "Hf".
Qed.

Lemma wp_alloc_rev_free h p c s f1 f2 r Φ :
  good s → c = h + extent p →
  front h (p ++ [(s, false)]) -∗ binned r (f1 ++ (c, s) :: f2) -∗
  (∀ bm, front h p -∗ csize c ↦ tag s true -∗ raw (c + 8) (c + s) -∗ psize (c + s) ↦ tag s true -∗
     binned (set_binmap bm r) (f1 ++ f2) -∗ Φ true (set_binmap bm r)) -∗
  wp (alloc_rev bins (c + s)) r Φ.
Proof.
  iIntros (Hs Hc) "Hf Hb K". rewrite front_snoc -Hc. iDestruct "Hf" as "(Hf & Hc & Hraw & Hd)". wload "Hd".
  destruct (bin_nat s Hs) as (i & Ei & Hi). pose proof Hs as [_ Hm]. rewrite in_use_tag //.
  assert (bin_index (tag s false) = Z.of_nat i) as -> by by rewrite /tag Z.add_0_r. iApply wp_bind. iApply (wp_lock_bin with "Hb"); [done |]. iIntros "Hb". wload "Hd".
  rewrite Z.eqb_refl. iApply wp_bind. iApply (wp_PREV_CHUNK with "Hd"); [done |]. iIntros "Hd".
  replace (c + s - s) with c by lia. iApply wp_bind. iApply (wp_unbin with "Hb Hc Hd"); [done | done | done |].
  iIntros (bm) "Hb Hc Hd Hl". iApply wp_ret. rewrite lor_tag //. iApply ("K" with "Hf Hc [Hl Hraw] Hd Hb").
  by iApply (raw_chunk with "Hl Hraw").
Qed.

Lemma wp_alloc_fwd_used b q r Φ :
  wfc q → first_used q = true → back b q -∗ (back b q -∗ Φ false r) -∗ wp (alloc_fwd bins b) r Φ.
Proof.
  iIntros (Hq Hu) "Hf K". iDestruct (back_read with "Hf") as (v) "(%Ev & Hv & Hf)"; [done |]. wload "Hv".
  rewrite Ev Hu. iApply wp_ret. iApply "K". by iApply "Hf".
Qed.

Lemma wp_alloc_fwd_free b s q f1 f2 r Φ :
  good s → back b ((s, false) :: q) -∗ binned r (f1 ++ (b, s) :: f2) -∗
  (∀ bm, csize b ↦ tag s true -∗ raw (b + 8) (b + s) -∗ psize (b + s) ↦ tag s true -∗ back (b + s) q -∗
     binned (set_binmap bm r) (f1 ++ f2) -∗ Φ true (set_binmap bm r)) -∗
  wp (alloc_fwd bins b) r Φ.
Proof.
  iIntros (Hs) "Hf Hb K". rewrite back_cons. iDestruct "Hf" as "(Hc & Hraw & Hd & Hq)". wload "Hc".
  destruct (bin_nat s Hs) as (i & Ei & Hi). pose proof Hs as [_ Hm]. rewrite in_use_tag //.
  assert (bin_index (tag s false) = Z.of_nat i) as -> by by rewrite /tag Z.add_0_r. iApply wp_bind. iApply (wp_lock_bin with "Hb"); [done |]. iIntros "Hb". wload "Hc".
  rewrite Z.eqb_refl. iApply wp_bind. iApply (wp_unbin with "Hb Hc Hd"); [done | done | done |].
  iIntros (bm) "Hb Hc Hd Hl". iApply wp_ret. rewrite lor_tag //. iApply ("K" with "Hc [Hl Hraw] Hd Hq Hb").
  by iApply (raw_chunk with "Hl Hraw").
Qed.
End heap.
