(* ===== verification/MallocFree.v ===== *)
(** free and the splitting of chunks keep the shape of the heap. *)

From iris.proofmode Require Import proofmode.
From iris.base_logic.lib Require Import gen_heap.
From S2P Require Import Prelude Qsort Morecore Malloc MallocHeap MallocLogic.

Section heap.
Context `{!gen_heapGS Z Z Σ} (bins : Z) (Hbins : 0 < bins).

Local Notation binned := (binned bins).

(** * The heap *)

(** The part of the area that is not used yet. *)
Definition coreR (r : regs) : iProp Σ :=
  ⌜mal_brk r = mc_base (mal_core r) ∧ mc_top (mal_core r) < 2 ^ 32 - 8192⌝ ∗ zeroed (mal_brk r) (mc_top (mal_core r)).

(** A heap from [h] on with [p], a chunk of [s] bytes that is not in use and in no bin, and [q]. *)
Record open_ok (r : regs) (h : Z) (p : chunks) (a s : Z) (q : chunks) : Prop := {
  oo_a : a = h + extent p;
  oo_h : 0 < h ∧ h mod 16 = 8;
  oo_s : 16 ≤ s ∧ s mod 16 = 0;
  oo_p : wfc p ∧ apart true p;
  oo_q : wfc q ∧ apart true q;
  oo_end : a + s + extent q + 8 = mal_brk r
}.

Definition opened (r : regs) (h : Z) (p : chunks) (a s : Z) (q : chunks) : iProp Σ :=
  ⌜open_ok r h p a s q⌝ ∗ front h p ∗ (∃ w, csize a ↦ w) ∗ raw (a + 8) (a + s) ∗
  (∃ w, psize (a + s) ↦ w) ∗ back (a + s) q ∗ binned r (frees h p ++ frees (a + s) q) ∗ coreR r.

(** The heap between two calls. *)
Record heap_ok (r : regs) (h : Z) (cs : chunks) : Prop := {
  ho_h : 0 < h ∧ h mod 16 = 8;
  ho_cs : wfc cs ∧ apart true cs;
  ho_end : h + extent cs + 8 = mal_brk r
}.

Definition heapR (r : regs) (h : Z) (cs : chunks) : iProp Σ :=
  ⌜heap_ok r h cs⌝ ∗ front h cs ∗ csize (h + extent cs) ↦ 1 ∗ binned r (frees h cs) ∗ coreR r.

Definition same_heap (r r' : regs) : Prop :=
  mal_brk r' = mal_brk r ∧ mal_heap r' = mal_heap r ∧ mal_init r' = mal_init r.

Lemma coreR_bounds r : coreR r ⊢ ⌜mal_brk r ≤ mc_top (mal_core r) < 2 ^ 32 - 8192⌝.
Proof. iIntros "[[_ %] [[% _] _]]". iPureIntro. lia. Qed.

Lemma open_good r h p a s q : opened r h p a s q ⊢ ⌜good s ∧ 0 < a ∧ a + s + 8 ≤ mal_brk r < 2 ^ 32 - 8192⌝.
Proof.
  iIntros "(%Ho & _ & _ & _ & _ & _ & _ & Hc)". iDestruct (coreR_bounds with "Hc") as %Hb. iPureIntro.
  destruct Ho as [-> [] [] [Hp _] [Hq _] He]. pose proof (extent_nonneg p Hp). pose proof (extent_nonneg q Hq). rewrite /good. lia.
Qed.

(** * free *)

Lemma wp_reclaim_pages self nxt r Φ :
  0 < self → RECLAIM < nxt - self → nxt + 8 ≤ mal_brk r →
  coreR r -∗ (∀ m, coreR (set_core m r) -∗ Φ tt (set_core m r)) -∗ wp (reclaim_pages self nxt) r Φ.
Proof.
  iIntros (H1 H2 H3) "Hc K". iDestruct (coreR_bounds with "Hc") as %Hb. iDestruct "Hc" as "[[%Hbase %Htop] Hraw]".
  destruct (reclaim_len self nxt) as [Hlen Hmod]; [lia.. |]. set (len := u32 _) in Hlen, Hmod.
  rewrite /reclaim_pages. set (flags := Z.lor MAP_PRIVATE _). iApply wp_bind.
  destruct (mmap_cases len flags (mal_core r)) as [[E _] | [E He]]; [done | lia.. | |].
  - iApply wp_pure; [intros m; rewrite /libc__mmap /= E //|]. iApply wp_ret. iApply "K". rewrite /coreR. by iFrame.
  - iApply wp_pure; [intros m; rewrite /libc__mmap /= E //|]. iApply wp_ret. iApply "K". rewrite /coreR /=. iSplit; [iPureIntro; lia |].
    iDestruct (zeroed_pure with "Hraw") as %Hr. rewrite (zeroed_split _ (mc_top (mal_core r) - len)); [| divmod..].
    iDestruct "Hraw" as "[$ _]".
Qed.

(** One try to put the chunk away; it fails as long as a neighbour is free. *)
Lemma wp_free_try r h p a s q reclaim Φ :
  (reclaim = true → RECLAIM < s) → opened r h p a s q -∗
  (if last_used true p && first_used q then
     ∀ m i, ⌜bin_index s = Z.of_nat i ∧ (i < 64)%nat⌝ -∗ ⌜open_ok r h p a s q⌝ -∗ front h p -∗ csize a ↦ tag s true -∗
       raw (a + 8) (a + s) -∗ psize (a + s) ↦ tag s true -∗ back (a + s) q -∗
       binned_open bins (set_core m r) (frees h p ++ frees (a + s) q) i -∗ coreR (set_core m r) -∗
       Φ (Some (Z.of_nat i)) (set_core m r)
   else opened r h p a s q -∗ Φ None r) -∗
  wp (free_try bins a (a + s) s reclaim) r Φ.
Proof.
  iIntros (Hrec) "Ho K". iDestruct (open_good with "Ho") as %(Hg & Ha & Hs).
  iDestruct "Ho" as "(%Ho & Hf & Hca & Hraw & Hpa & Hb & Hbin & Hcore)". pose proof Ho as [-> _ _ [Hp _] [Hq _] _].
  iApply wp_bind. iApply (wp_both_in_use with "Hf Hb"); [done | done |]. iIntros "Hf Hb".
  destruct (last_used true p && first_used q) eqn:Eb; last first.
  { rewrite andb_false_r. iApply wp_bind. iApply wp_ret. iApply wp_bind. iApply (wp_both_in_use with "Hf Hb"); [done | done |].
    iIntros "Hf Hb". rewrite Eb. iApply wp_ret. iApply "K". rewrite /opened. by iFrame. }
  rewrite andb_true_r. iApply wp_bind.
  iAssert (wp (if reclaim then reclaim_pages (h + extent p) (h + extent p + s) else mret tt) r
    (λ _ r', ∃ m, ⌜r' = set_core m r⌝ ∗ coreR (set_core m r))%I) with "[Hcore]" as "Hw".
  { destruct reclaim.
    - iApply (wp_reclaim_pages with "Hcore"); [done | specialize (Hrec eq_refl); lia | lia |]. iIntros (m) "H". iExists m. by iFrame.
    - iApply wp_ret. iExists (mal_core r). replace (set_core (mal_core r) r) with r by by destruct r. by iFrame. }
  iApply (wp_mono with "Hw"). iIntros ([] r') "(%m & -> & Hcore)".
  iApply wp_bind. iApply (wp_both_in_use with "Hf Hb"); [done | done |]. iIntros "Hf Hb". rewrite Eb.
  iDestruct "Hca" as (w) "Hca". iDestruct "Hpa" as (v) "Hpa". wstore "Hca". wstore "Hpa".
  destruct (bin_nat s Hg) as (i & Ei & Hi). rewrite Ei. iApply wp_bind. iApply (wp_lock_bin with "[Hbin]"); [done | done | |].
  { iExact "Hbin". }
  iIntros "Hbin". iApply wp_bind. iApply (wp_both_in_use with "Hf Hb"); [done | done |]. iIntros "Hf Hb". rewrite Eb.
  iApply wp_ret. destruct Hg as [_ Hm]. rewrite lor_1; [| divmod]. iApply ("K" with "[//] [//] Hf Hca Hraw Hpa Hb Hbin Hcore").
Qed.

(** Two neighbouring chunks are one. *)
Lemma raw_join c t s v w :
  16 ≤ t ∧ t mod 16 = 0 → 16 ≤ s ∧ s mod 16 = 0 →
  raw (c + 8) (c + t) -∗ psize (c + t) ↦ v -∗ csize (c + t) ↦ w -∗ raw (c + t + 8) (c + t + s) -∗ raw (c + 8) (c + t + s).
Proof.
  iIntros (Ht Hs) "H1 Hp Hc H2". rewrite (raw_split (c + 8) (c + t) (c + t + s)); [| divmod..]. iFrame "H1".
  rewrite (raw_split (c + t) (c + t + 8) (c + t + s)); [| divmod..]. iFrame "H2". rewrite raw_2 /psize /csize.
  iSplitL "Hp"; eauto.
Qed.

Lemma reclaims_size ns t s reclaim :
  0 ≤ ns ≤ s → 0 ≤ t → s + t < 2 ^ 32 → (reclaim = true → RECLAIM < s) → reclaim || reclaims ns t = true → RECLAIM < s + t.
Proof.
  intros Hn Ht Hs Hr [H | H]%orb_true_iff; [specialize (Hr H); lia |]. rewrite /reclaims in H.
  apply andb_prop in H as [H _]. rewrite u32_small in H; [| lia]. apply Z.ltb_lt in H. lia.
Qed.

(** The chunk takes in the one before it when that is free. *)
Lemma wp_merge_rev {A} r h p a s q ns reclaim (k : Z * Z * bool → MM A) Φ :
  0 ≤ ns ≤ s → (reclaim = true → RECLAIM < s) → opened r h p a s q -∗
  (∀ bm p' a' s' rc, ⌜last_used true p' = true ∧ (a' + s' = a + s)%Z ∧ ns ≤ s' ∧ (rc = true → RECLAIM < s') ∧ useds h p' = useds h p⌝ -∗
     opened (set_binmap bm r) h p' a' s' q -∗ wp (k (a', s', rc)) (set_binmap bm r) Φ) -∗
  wp (b ← alloc_rev bins a;
      x ← (if b : bool then
             self ← PREV_CHUNK a; size ← CHUNK_SIZE self;
             mret (self, u32 (s + size), reclaim || reclaims ns size)
           else mret (a, s, reclaim));
      k x) r Φ.
Proof.
  iIntros (Hns Hrec) "Ho K". iDestruct (open_good with "Ho") as %(Hg & Ha & Hs).
  iDestruct "Ho" as "(%Ho & Hf & Hca & Hraw & Hpa & Hb & Hbin & Hcore)". pose proof Ho as [Ea Hh Hs' [Hp Hap] Hq He].
  iApply wp_bind. destruct (last_used true p) eqn:El.
  { iApply (wp_alloc_rev_used with "Hf"); [done | done | done |]. iIntros "Hf". iApply wp_bind. iApply wp_ret.
    iSpecialize ("K" $! (mal_binmap r) p a s reclaim with "[]"); [iPureIntro; by destruct Hns |]. rewrite set_binmap_same. iApply "K". rewrite /opened. by iFrame. }
  destruct p as [|[t u] p _] using rev_ind; [done |]. rewrite last_used_snoc in El. subst u.
  apply apart_app in Hap as [Hap [Hu _]]. rewrite orb_false_r in Hu. apply Forall_app in Hp as [Hp [Ht _]%Forall_cons]. cbn in Ht.
  pose proof (extent_nonneg p Hp). pose proof (extent_nonneg q (proj1 Hq)). rewrite extent_app /= in Ea.
  rewrite select_app -app_assoc /=. remember (h + extent p) as c' eqn:Ec. assert (a = c' + t) as -> by (subst; lia). clear Ea.
  assert (good t) as Hgt by (rewrite /good; lia).
  iApply (wp_alloc_rev_free with "Hf Hbin"); [done | exact Hgt | done |]. iIntros (bm) "Hf Hcc Hrc Hpc Hbin".
  iApply wp_bind. iApply wp_bind. iApply (wp_PREV_CHUNK with "Hpc"); [done |]. iIntros "Hpc". replace (c' + t - t) with c' by lia.
  iApply wp_bind. iApply (wp_CHUNK_SIZE with "Hcc"); [done |]. iIntros "Hcc". iApply wp_ret.
  rewrite u32_small; [| lia]. iApply ("K" $! bm p c' (s + t)).
  - iPureIntro. split_and!; [done | lia | lia | | by rewrite select_app /= app_nil_r]. apply reclaims_size; [done | lia | lia | done].
  - iDestruct "Hca" as (w) "Hca". iDestruct (raw_join with "Hrc Hpc Hca Hraw") as "Hraw"; [done | done |].
    replace (c' + t + s) with (c' + (s + t)) by lia. iFrame. iPureIntro.
    split; cbn [set_binmap mal_brk]; try done; [split; [lia | divmod] | lia].
Qed.

(** And the one behind it. *)
Lemma wp_merge_fwd r h p a s q ns reclaim Φ :
  0 ≤ ns ≤ s → (reclaim = true → RECLAIM < s) → opened r h p a s q -∗
  (∀ bm s' q' rc, ⌜first_used q' = true ∧ (a + s' + extent q' = a + s + extent q)%Z ∧ (rc = true → RECLAIM < s') ∧
       useds (a + s') q' = useds (a + s) q⌝ -∗
     opened (set_binmap bm r) h p a s' q' -∗ Φ (a, (a + s')%Z, s', rc) (set_binmap bm r)) -∗
  wp (b ← alloc_fwd bins (a + s);
      if b : bool then
        size ← CHUNK_SIZE (a + s);
        nxt ← NEXT_CHUNK (a + s);
        mret (a, nxt, u32 (s + size), reclaim || reclaims ns size)
      else mret (a, a + s, s, reclaim)) r Φ.
Proof.
  iIntros (Hns Hrec) "Ho K". iDestruct (open_good with "Ho") as %(Hg & Ha & Hs).
  iDestruct "Ho" as "(%Ho & Hf & Hca & Hraw & Hpa & Hb & Hbin & Hcore)". pose proof Ho as [Ea Hh Hs' Hp [Hq Haq] He].
  iApply wp_bind. destruct (first_used q) eqn:El.
  { iApply (wp_alloc_fwd_used with "Hb"); [done | done |]. iIntros "Hb". iApply wp_ret.
    iSpecialize ("K" $! (mal_binmap r) s q reclaim with "[//]"). rewrite set_binmap_same. iApply "K". rewrite /opened. by iFrame. }
  destruct q as [|[t u] q]; [done |]. cbn in El. subst u. cbn in Haq. destruct Haq as [_ Haq].
  apply Forall_cons in Hq as [Ht Hq]. cbn in Ht. pose proof (extent_nonneg q Hq). cbn [extent] in He.
  assert (good t) as Hgt by (rewrite /good; lia). cbn [select eqb app]. remember (a + s) as b eqn:Eb.
  iApply (wp_alloc_fwd_free with "Hb Hbin"); [done | exact Hgt |]. iIntros (bm) "Hcb Hrb Hpb Hb Hbin".
  iApply wp_bind. iApply (wp_CHUNK_SIZE with "Hcb"); [done |]. iIntros "Hcb".
  iApply wp_bind. iApply (wp_NEXT_CHUNK with "Hcb"); [done |]. iIntros "Hcb". iApply wp_ret.
  rewrite u32_small; [| lia]. iSpecialize ("K" $! bm (s + t) q). replace (a + (s + t)) with (b + t) by lia. iApply "K".
  - iPureIntro. split_and!; [| cbn; lia | apply reclaims_size; [done | lia | lia | done] | done].
    destruct q as [|[t' u'] q]; [done |]. by destruct Haq as [Hu _].
  - iDestruct "Hpa" as (v) "Hpa". subst b. iDestruct (raw_join with "Hraw Hpa Hcb Hrb") as "Hraw"; [done | done |].
    rewrite /opened. replace (a + (s + t)) with (a + s + t) by lia. iFrame. iPureIntro.
    split; cbn [set_binmap mal_brk]; try done; [split; [lia | divmod] | split; [done | by eapply apart_weaken] | lia].
Qed.

(** After a round no neighbour is free. *)
Lemma wp_free_merge r h p a s q ns reclaim Φ :
  0 ≤ ns ≤ s → (reclaim = true → RECLAIM < s) → opened r h p a s q -∗
  (∀ bm p' a' s' q' rc, ⌜last_used true p' && first_used q' = true ∧ (a' + s' + extent q' = a + s + extent q)%Z ∧
       (rc = true → RECLAIM < s') ∧ useds h p' = useds h p ∧ useds (a' + s') q' = useds (a + s) q⌝ -∗
     opened (set_binmap bm r) h p' a' s' q' -∗ Φ (a', (a' + s')%Z, s', rc) (set_binmap bm r)) -∗
  wp (free_merge bins a (a + s) s ns reclaim) r Φ.
Proof.
  iIntros (Hns Hrec) "Ho K". iApply (wp_merge_rev with "Ho"); [done | done |].
  iIntros (bm p' a' s' rc (Hl & Es & Hs & Hrc & Hu)) "Ho". rewrite -Es.
  iApply (wp_merge_fwd with "Ho"); [lia | done |]. iIntros (bm' s2 q' rc' (Hf & Et & Hrc' & Hu')) "Ho".
  iApply ("K" $! bm' p' a' s2 q' rc' with "[] Ho"). iPureIntro. rewrite Hl Hf Hu Hu'. split_and!; [done | lia | done..].
Qed.

Definition freed (h : Z) (p : chunks) (a s : Z) (q : chunks) (r : regs) (cs : chunks) (r' : regs) : Prop :=
  useds h cs = useds h p ++ useds (a + s) q ∧ same_heap r r'.

(** The chunk goes to its bin. *)
Lemma wp_free_finish r h p a s q i Φ :
  open_ok r h p a s q → last_used true p && first_used q = true → bin_index s = Z.of_nat i ∧ (i < 64)%nat →
  front h p -∗ csize a ↦ tag s true -∗ raw (a + 8) (a + s) -∗ psize (a + s) ↦ tag s true -∗ back (a + s) q -∗
  binned_open bins r (frees h p ++ frees (a + s) q) i -∗ coreR r -∗
  (∀ bm cs, ⌜freed h p a s q r cs (set_binmap bm r)⌝ -∗ heapR (set_binmap bm r) h cs -∗ Φ tt (set_binmap bm r)) -∗
  wp (_ ← sw (csize a) s; _ ← sw (psize (a + s)) s; put_bin bins a (Z.of_nat i)) r Φ.
Proof.
  iIntros (Ho [Hl Hf]%andb_prop [Ei Hi]) "Hf Hca Hraw Hpa Hb Hbin Hcore K". destruct Ho as [Ea Hh Hs [Hp Hap] [Hq Haq] He].
  pose proof (extent_nonneg p Hp). wstore "Hca". wstore "Hpa".
  rewrite (raw_split (a + 8) (a + 16) (a + s)); [| divmod..]. iDestruct "Hraw" as "[Hl Hraw]".
  iApply (wp_put_bin with "Hbin Hl"); [lia | done | done |]. iIntros (bm) "Hbin".
  iApply ("K" $! bm (p ++ (s, false) :: q)).
  - iPureIntro. split; [| done]. by rewrite select_app /= -Ea.
  - iDestruct "Hb" as "[Hb He]". rewrite /heapR /front segm_app select_app extent_app /= -Ea. iDestruct "Hf" as "[$ $]".
    replace (tag s false) with s by (rewrite /tag /=; lia). replace (h + (extent p + (s + extent q))) with (a + s + extent q) by lia.
    iFrame. iPureIntro. split; [done | split | rewrite extent_app /=; lia].
    + by apply wfc_app.
    + apply apart_app. split; [done |]. rewrite Hl. split; [done |]. destruct q as [|[t u] q]; [done |]. cbn in Hf. subst u. done.
Qed.

(** [free] of a chunk in use that the caller gives back with its memory. *)
Lemma wp_free h p a s q r w Φ :
  open_ok r h p a s q → 
  front h p -∗ csize a ↦ tag s true -∗ raw (a + 8) (a + s) -∗ psize (a + s) ↦ w -∗ back (a + s) q -∗
  binned r (frees h p ++ frees (a + s) q) -∗ coreR r -∗
  (∀ cs r', ⌜freed h p a s q r cs r'⌝ -∗ heapR r' h cs -∗ Φ tt r') -∗
  wp (free bins (a + 8)) r Φ.
Proof.
  iIntros (Ho) "Hf Hca Hraw Hpa Hb Hbin Hcore K".
  iAssert (⌜good s ∧ 0 < a ∧ a + s + 8 ≤ mal_brk r < 2 ^ 32 - 8192⌝)%I as %(Hg & Ha & Hs).
  { iApply open_good. rewrite /opened. by iFrame. }
  rewrite /free /MEM_TO_CHUNK /OVERHEAD. replace (a + 8 - 8) with a by lia. rewrite (proj2 (Z.eqb_neq _ _)); [| lia].
  wload "Hca". rewrite in_use_tag; [| by destruct Hg]. cbn [negb].
  iApply wp_bind. iApply (wp_CHUNK_SIZE with "Hca"); [done |]. iIntros "Hca".
  iApply wp_bind. iApply (wp_NEXT_CHUNK with "Hca"); [done |]. iIntros "Hca". iApply wp_bind.
  iAssert (opened r h p a s q) with "[$Hf Hca $Hraw Hpa $Hb $Hbin $Hcore]" as "Ho"; [by eauto with iFrame |].
  rewrite /free_rounds. cbn [free_loop]. iApply wp_bind. iApply (wp_free_try with "Ho"); [done |].
  destruct (last_used true p && first_used q) eqn:Eb.
  - iIntros (m i Hi _) "Hf Hca Hraw Hpa Hb Hbin Hcore". iApply wp_ret.
    iApply (wp_free_finish with "Hf Hca Hraw Hpa Hb Hbin Hcore"); [by destruct Ho | done | done |].
    iIntros (bm cs Hfr) "H". by iApply ("K" with "[] H").
  - iIntros "Ho". iApply wp_bind. iApply (wp_free_merge with "Ho"); [destruct Hg; lia | done |].
    iIntros (bm p' a' s' q' rc (Hlf & Et & Hrc & Hu1 & Hu2)) "Ho". iApply wp_bind. iApply (wp_free_try with "Ho"); [done |]. rewrite Hlf.
    iIntros (m i Hi Ho') "Hf Hca Hraw Hpa Hb Hbin Hcore". iApply wp_ret.
    iApply (wp_free_finish with "Hf Hca Hraw Hpa Hb Hbin Hcore"); [by destruct Ho' | done | done |].
    iIntros (bm' cs [Hfr Hsame]) "H". iApply ("K" with "[] H"). iPureIntro. split; [by rewrite Hfr Hu1 Hu2 | done].
Qed.

(** * Splitting *)

(** A heap with a chunk in use, and the parts around it. *)
Lemma heap_split r h p a s q :
  a = h + extent p →
  heapR r h (p ++ (s, true) :: q) ⊣⊢ ⌜open_ok r h p a s q⌝ ∗ front h p ∗ csize a ↦ tag s true ∗ psize (a + s) ↦ tag s true ∗
    back (a + s) q ∗ binned r (frees h p ++ frees (a + s) q) ∗ coreR r.
Proof.
  intros Ea. rewrite /heapR /front /back segm_app select_app extent_app /= -Ea.
  replace (h + (extent p + (s + extent q))) with (a + s + extent q) by lia. iSplit.
  - iIntros "(%Ho & ($ & $ & $ & _ & $ & $) & $ & $ & $)". iPureIntro. destruct Ho as [Hh [Hw Ha] He].
    apply Forall_app in Hw as [Hp [Hs Hq]%Forall_cons]. apply apart_app in Ha as [Hap [_ Haq]].
    rewrite extent_app /= in He. split; [done | done | done | done | done | lia].
  - iIntros "(%Ho & ($ & $) & $ & $ & ($ & $) & $ & $)". iPureIntro. destruct Ho as [_ Hh Hs [Hp Hap] [Hq Haq] He].
    split; [done | | rewrite extent_app /=; lia]. split; [by apply wfc_app |].
    apply apart_app. split; [done |]. split; [by rewrite orb_true_r | done].
Qed.

Lemma raw_header a s : 16 ≤ s ∧ s mod 16 = 0 → raw a (a + s) ⊣⊢ (∃ v, psize a ↦ v) ∗ (∃ v, csize a ↦ v) ∗ raw (a + 8) (a + s).
Proof. intros Hs. rewrite (raw_split a (a + 8) (a + s)); [| divmod..]. rewrite raw_2 -bi.sep_assoc. done. Qed.

(** [trim] gives back what is left over. *)
Lemma wp_trim r h p a s q n Φ :
  a = h + extent p → good n → n ≤ s → heapR r h (p ++ (s, true) :: q) -∗ raw (a + n) (a + s) -∗
  (∀ cs s' r', ⌜n ≤ s' ∧ s' mod 16 = 0 ∧ useds h cs = useds h p ++ (a, s') :: useds (a + s) q ∧ same_heap r r'⌝ -∗
     heapR r' h cs -∗ raw (a + n) (a + s') -∗ Φ tt r') -∗
  wp (trim bins a n) r Φ.
Proof.
  iIntros (Ea Hn Hle) "H Hraw K". rewrite (heap_split r h p a s q Ea).
  iDestruct "H" as "(%Ho & Hf & Hca & Hpa & Hb & Hbin & Hcore)". pose proof Ho as [_ Hh Hs [Hp Hap] [Hq Haq] He].
  iDestruct (coreR_bounds with "Hcore") as %Hbd. pose proof (extent_nonneg p Hp). pose proof (extent_nonneg q Hq).
  assert (good s) as Hg by (rewrite /good; lia).
  iApply wp_bind. iApply (wp_CHUNK_SIZE with "Hca"); [done |]. iIntros "Hca". rewrite /DONTCARE u32_small; [| lia].
  destruct (Z.leb_spec (s - 16) n) as [Hsmall | Hbig].
  { iApply wp_ret. iApply ("K" $! (p ++ (s, true) :: q) s r with "[] [-Hraw] Hraw").
    - iPureIntro. split_and!; [done | by destruct Hg | by rewrite select_app /= -Ea | done].
    - rewrite (heap_split r h p a s q Ea). by iFrame. }
  iApply wp_bind. iApply (wp_NEXT_CHUNK with "Hca"); [done |]. iIntros "Hca". destruct Hn as [Hn Hnm].
  replace (a + s) with (a + n + (s - n)) by lia. rewrite (raw_header (a + n) (s - n)); [| split; [lia | divmod]].
  iDestruct "Hraw" as "([%v Hp2] & [%w Hc2] & Hrest)". wstore "Hp2". wstore "Hc2". wstore "Hpa". wstore "Hca".
  rewrite u32_small; [| lia]. rewrite !lor_1; [| divmod..].
  iApply (wp_free h (p ++ [(n, true)]) (a + n) (s - n) q with "[Hf Hca Hp2] Hc2 Hrest Hpa Hb [Hbin] Hcore").
  - split; rewrite ?extent_app /=; try done; [lia | split; [lia | divmod] | | lia]. split; [apply wfc_app; [done | split; [lia | done] | constructor] |].
    apply apart_app. split; [done |]. split; [by rewrite orb_true_r | done].
  - rewrite front_snoc -Ea. by iFrame.
  - by rewrite select_app /= app_nil_r.
  - iIntros (cs r' [Hu Hsame]) "H". iApply ("K" $! cs n r' with "[] H []"); [| iApply raw_nil]. iPureIntro.
    split_and!; [done | done | | done]. rewrite Hu select_app /= -Ea -app_assoc /=. by replace (a + n + (s - n)) with (a + s) by lia.
Qed.
End heap.
