(* ===== verification/MallocInv.v ===== *)
(** malloc is correct: the functions of Malloc.v keep the shape of the heap, and a program
    that uses malloc, calloc, realloc and free gets what they promise. *)

From iris.proofmode Require Import proofmode.
From iris.base_logic.lib Require Import gen_heap ghost_map.
From S2P Require Import Prelude Qsort Morecore Malloc MallocHeap MallocLogic MallocFree.

Section malloc.
Context `{!gen_heapGS Z Z Σ} (area bins : Z) (Hbins : 0 < bins).

Local Notation binned := (binned bins).
Local Notation heapR := (heapR bins).

(** * Taking a chunk from a bin *)

(** [pretrim] splits a free chunk and leaves the rest in the bin, or does nothing. *)
Lemma wp_pretrim r f1 c s f2 j n w Φ :
  good s → good n → n ≤ MMAP_THRESHOLD → bin_index s = Z.of_nat j → (j < 64)%nat → n ≤ s → 0 < c → c + s < 2 ^ 32 →
  binned_open bins r (f1 ++ (c, s) :: f2) j -∗ csize c ↦ tag s false -∗ raw (c + 16) (c + s) -∗ psize (c + s) ↦ w -∗
  (binned_open bins r (f1 ++ (c, s) :: f2) j -∗ csize c ↦ tag s false -∗ raw (c + 16) (c + s) -∗ psize (c + s) ↦ w -∗ Φ false r) ∧
  (⌜n + 16 ≤ s⌝ -∗ binned r (f1 ++ ((c + n)%Z, (s - n)%Z) :: f2) -∗ csize c ↦ tag n true -∗ raw (c + 8) (c + n) -∗
     psize (c + n) ↦ tag n true -∗ csize (c + n) ↦ tag (s - n) false -∗ raw (c + n + 16) (c + s) -∗ psize (c + s) ↦ tag (s - n) false -∗
     Φ true r) -∗
  wp (pretrim c n (bin_index_up n) (Z.of_nat j)) r Φ.
Proof.
  iIntros (Hs Hn Hmax Ej Hj Hle Hc Hcs) "Hbin Hcc Hraw Hpc K". rewrite /pretrim.
  destruct (Z.ltb_spec (Z.of_nat j) 40); [iDestruct "K" as "[K _]"; iApply wp_ret; by iApply ("K" with "Hbin Hcc Hraw Hpc") |].
  iApply wp_bind. iApply (wp_CHUNK_SIZE with "Hcc"); [done |]. iIntros "Hcc". rewrite u32_small; [| rewrite /good in Hs, Hn; lia].
  destruct (_ && _) eqn:Eb; [iDestruct "K" as "[K _]"; iApply wp_ret; by iApply ("K" with "Hbin Hcc Hraw Hpc") |].
  destruct (Z.eqb_spec (bin_index (s - n)) (Z.of_nat j)) as [Ed |]; cbn [negb];
    [| iDestruct "K" as "[K _]"; iApply wp_ret; by iApply ("K" with "Hbin Hcc Hraw Hpc")].
  assert (n + 16 ≤ s) as Hrest.
  { destruct Hs as [Hs Hsm], Hn as [Hn Hnm]. destruct (Z.eq_dec n s) as [-> |]; [exfalso | divmod].
    pose proof (bin_index_up_ge s ltac:(lia)). rewrite Z.sub_diag in Eb. apply andb_false_iff in Eb as [E%Z.ltb_ge | E]; [lia |].
    apply orb_false_iff in E as [_ E]. done. }
  iDestruct "K" as "[_ K]". iApply wp_bind. iApply (wp_NEXT_CHUNK with "Hcc"); [done |]. iIntros "Hcc".
  destruct Hs as [Hs Hsm], Hn as [Hn Hnm]. rewrite (raw_split (c + 16) (c + n) (c + s)); [| divmod..].
  iDestruct "Hraw" as "[Hraw Hrest]". replace (c + s) with (c + n + (s - n)) by lia. remember (c + n) as d eqn:Ed'.
  rewrite (raw_header d (s - n)); [| split; [lia | divmod]]. iDestruct "Hrest" as "([%v1 Hd] & [%v2 Hdc] & Hrest)".
  rewrite (raw_split (d + 8) (d + 16)); [| divmod..]. iDestruct "Hrest" as "[Hdl Hrest]".
  iDestruct (raw_links with "Hdl") as (v3 v4) "[Hdn Hdp]". iDestruct "Hbin" as (bl l) "(%Hb & Hl & Hbin)".
  destruct Hb as (Hp & Hm & Hpos & El). destruct (placed_remove f1 c s f2 bl j Hp Ej Hj) as (l1 & l2 & El' & Hp').
  rewrite El in El'. injection El' as ->. iDestruct (links_cut with "Hl") as (p q) "(Hpn & Hcp & Hcn & Hqp & _ & [_ Hl])".
  wload "Hcp". wstore "Hdp". wload "Hcn". wstore "Hdn". wload "Hdp". wstore "Hpn". wload "Hdn". wstore "Hqp".
  wstore "Hd". wstore "Hdc". wstore "Hpc". wstore "Hcc". iApply wp_ret. rewrite !lor_1; [| divmod..].
  replace (tag (s - n) false) with (s - n) by (rewrite /tag /=; lia).
  iApply ("K" with "[//] [Hbin Hl Hpn Hdp Hdn Hqp] Hcc [Hcn Hcp Hraw] Hd Hdc Hrest Hpc").
  - iExists (<[j := l1 ++ d :: l2]> bl). iSplit; [iPureIntro; split_and! |].
    + rewrite -(list_insert_insert_eq bl j _ (l1 ++ l2)). eapply placed_add; [done | done | | by rewrite -Permutation_middle].
      apply list_lookup_insert_eq. by apply lookup_lt_Some in El.
    + eapply binmap_same; [done | done |]. split; by destruct l1.
    + apply Forall_app in Hpos as [? [_ ?]%Forall_cons]. apply Forall_app. split; [done |]. constructor; [cbn; lia | done].
    + iApply "Hbin". iLeft. iApply ("Hl" with "Hpn Hdp Hdn Hqp").
  - iDestruct (links_raw with "Hcn Hcp") as "Hcl". subst d. rewrite (raw_split (c + 8) (c + 16) (c + n)); [by iFrame | divmod..].
Qed.

(** A heap with a free chunk, and the parts around it. *)
Lemma heap_split_free r h p c s q :
  c = h + extent p → heapR r h (p ++ (s, false) :: q) -∗
  ⌜open_ok r h p c s q ∧ apart false q ∧ good s ∧ 0 < c ∧ (c + s < 2 ^ 32)%Z⌝ ∗ front h p ∗ csize c ↦ tag s false ∗
    raw (c + 16) (c + s) ∗ psize (c + s) ↦ tag s false ∗
    back (c + s) q ∗ binned r (frees h p ++ (c, s) :: frees (c + s) q) ∗ coreR r.
Proof.
  iIntros (Ec) "H". rewrite /heapR /MallocFree.heapR /front /back segm_app select_app extent_app /= -Ec.
  replace (h + (extent p + (s + extent q))) with (c + s + extent q) by lia.
  iDestruct "H" as "(%Ho & ($ & $ & $ & $ & $ & $) & $ & $ & Hcore)". iDestruct (coreR_bounds with "Hcore") as %Hb. iFrame.
  iPureIntro. destruct Ho as [Hh [Hw Ha] He].
  apply Forall_app in Hw as [Hp [Hs Hq]%Forall_cons]. apply apart_app in Ha as [Hap [_ Haq]]. cbn in Hs.
  pose proof (extent_nonneg p Hp). pose proof (extent_nonneg q Hq). rewrite extent_app /= in He. split_and!; [| done | rewrite /good; lia | lia | lia].
  split; [done | done | done | done | split; [done | by eapply apart_weaken] | lia].
Qed.

(** The bin is not empty, and its first chunk is large enough. *)
Lemma wp_take_bin r h cs n j Φ :
  good n → n ≤ MMAP_THRESHOLD → bin_index_up n ≤ Z.of_nat j → (j < 64)%nat → Z.testbit (mal_binmap r) (Z.of_nat j) = true →
  heapR r h cs -∗
  (∀ p s q c r', ⌜(c = h + extent p)%Z ∧ n ≤ s ∧ useds h p ++ useds (c + s) q = useds h cs ∧ same_heap r r'⌝ -∗
     heapR r' h (p ++ (s, true) :: q) -∗ raw (c + 8) (c + s) -∗ Φ (Some c) r') -∗
  wp (take_bin bins n (bin_index_up n) (Z.of_nat j)) r Φ.
Proof.
  iIntros (Hn Hmax Hup Hj Hbit) "(%Ho & Hf & He & Hbin & Hcore) K". iApply wp_bind. iApply (wp_lock_bin with "Hbin"); [done | done |].
  iIntros "(%bl & %l & (%Hp & %Hm & %Hpos & %El) & Hl & Hbin)".
  destruct l as [|c l]. { rewrite (proj2 Hm _ _ El) in Hbit. done. }
  iDestruct "Hl" as "(HB & Hc & Hl)". iDestruct (links_next_ne with "HB Hl") as %Hne. wload "HB".
  rewrite (proj2 (Z.eqb_neq _ _)); [| congruence].
  destruct (placed_find _ _ _ _ _ Hp El) as (f1 & s & f2 & Efr & Ej).
  destruct (select_split _ _ _ _ _ _ _ Efr) as (p & q & -> & Ec & -> & ->).
  iDestruct (heap_split_free r h p c s q Ec with "[Hf He Hc Hl HB Hbin Hcore]") as "(%Hk & Hf & Hcc & Hraw & Hpc & Hb & Hbin & Hcore)".
  { iFrame "Hf He Hcore". iSplit; [done |]. iExists bl. iSplit; [done |]. rewrite -{2}(list_insert_id bl j (c :: l) El). iApply "Hbin". iLeft. iFrame. }
  destruct Hk as (Hop & Haq & Hgs & Hc0 & Hcs). wload "Hcc". assert (bin_index (tag s false) = Z.of_nat j) as -> by by rewrite /tag Z.add_0_r.
  rewrite Z.eqb_refl. cbn [negb]. pose proof (bin_fits n s (conj (proj1 (proj1 Hn)) Hmax) (proj2 Hn) (proj1 Hgs) ltac:(lia)) as Hfit.
  iDestruct (binned_reopen with "Hbin") as "Hbin"; [exact Ej | done |].
  iApply wp_bind. iApply (wp_pretrim with "Hbin Hcc Hraw Hpc"); [done.. |]. iSplit.
  - iIntros "Hbin Hcc Hraw Hpc". iApply wp_bind. iApply (wp_unbin with "Hbin Hcc Hpc"); [done.. |].
    iIntros (bm) "Hbin Hcc Hpc Hl". iApply wp_ret. rewrite lor_tag; [| by destruct Hgs].
    iApply ("K" $! p s q c with "[] [Hf Hcc Hpc Hb Hbin Hcore]"); [| | by iApply (raw_chunk with "Hl Hraw")].
    + iPureIntro. split_and!; [done | done | by rewrite select_app /= -Ec | done].
    + rewrite heap_split //. iFrame. iPureIntro. by destruct Hop.
  - iIntros (Hrest) "Hbin Hcc Hrc Hpn Hcn Hrn Hpc". iApply wp_bind. iApply wp_ret. iApply wp_ret.
    iApply ("K" $! p n ((s - n, false) :: q) c r with "[] [-Hrc] Hrc").
    + iPureIntro. split_and!; [done | done | | done]. rewrite select_app /= -Ec. by replace (c + n + (s - n)) with (c + s) by lia.
    + rewrite heap_split // back_cons /=. replace (c + n + (s - n)) with (c + s) by lia. iFrame. iPureIntro.
      destruct Hop as [_ Hh Hs Hpp [Hq _] He]. destruct Hn as [Hn Hnm]. split; cbn [extent]; [done | done | split; [lia | done] | done | | lia].
      split; [constructor; [cbn; split; [lia | divmod] | done] |]. done.
Qed.

(** * Extending the heap *)

(** The area has no room for [n] more bytes. *)
Definition no_room (r : regs) (n : Z) : bool :=
  let new := page_down (u32 (mal_brk r + n + SIZE_ALIGN + LIBC_PAGE_SIZE - 1)) in
  (u32 (SIZE_MAX - mal_brk r - 2 * LIBC_PAGE_SIZE) <? n) || negb ((new <? mc_top (mal_core r)) && (area <? new)).

Lemma wp_expand_fails r n Φ :
  0 < mal_brk r < 2 ^ 32 - 8192 → mal_brk r mod 16 = 0 → 0 ≤ n → mc_top (mal_core r) < 2 ^ 32 - 8192 →
  no_room r n = true → Φ 0 r ⊢ wp (expand_heap area n) r Φ.
Proof.
  iIntros (Hb Hm Hn Ht Hno) "K". iApply wp_bind. iApply wp_getr. rewrite /no_room in Hno.
  destruct (Z.ltb_spec (u32 (SIZE_MAX - mal_brk r - 2 * LIBC_PAGE_SIZE)) n) as [| Hle]; [by iApply wp_ret |].
  destruct (expand_new _ n Hb Hm Hn Hle) as (Hnew & _ & _). apply negb_true_iff in Hno.
  destruct (brk_cases area (page_down (u32 (mal_brk r + n + SIZE_ALIGN + LIBC_PAGE_SIZE - 1))) (mal_core r)) as (m' & E & Em); [lia | lia |].
  rewrite Hno in E, Em. iApply wp_bind. iApply wp_pure; [intros m; rewrite /libc__brk /= E //|].
  rewrite (syscall_ret_small 0); [| lia]. rewrite (proj2 (Z.eqb_neq 0 _)); [| lia]. iApply wp_ret. rewrite Em.
  by replace (set_core (mal_core r) r) with r by by destruct r.
Qed.

Lemma no_room_false r n :
  0 < mal_brk r < 2 ^ 32 - 8192 → mal_brk r mod 16 = 0 → 0 ≤ n → no_room r n = false →
  mal_brk r + n + 16 < mc_top (mal_core r) ∧ area < mc_top (mal_core r).
Proof.
  intros Hb Hm Hn [H1%Z.ltb_ge H2%negb_false_iff]%orb_false_iff. destruct (expand_new _ n Hb Hm Hn H1) as (Hnew & _ & _).
  apply andb_prop in H2 as [?%Z.ltb_lt ?%Z.ltb_lt]. lia.
Qed.

(** What is left of the area is not enough for a request that takes [n] bytes. *)
Definition short (r : regs) (n : Z) : Prop := mc_top (mal_core r) < mc_base (mal_core r) + n + 4160.

Lemma no_room_short r n :
  0 < mal_brk r < 2 ^ 32 - 8192 → mal_brk r mod 16 = 0 → 0 ≤ n → mc_top (mal_core r) < 2 ^ 32 - 8192 → area < mal_brk r →
  mal_brk r ≤ mc_base (mal_core r) + 31 → no_room r n = true → short r n.
Proof.
  intros Hb Hm Hn Ht Ha Hbase Hno. rewrite /no_room in Hno. rewrite /short.
  destruct (Z.ltb_spec (u32 (SIZE_MAX - mal_brk r - 2 * LIBC_PAGE_SIZE)) n) as [Hlt | Hle].
  { rewrite /SIZE_MAX /LIBC_PAGE_SIZE u32_small in Hlt; lia. }
  destruct (expand_new _ n Hb Hm Hn Hle) as (Hnew & _ & _). rewrite page_down_spec in Hno, Hnew; [| apply u32_range].
  rewrite /SIZE_MAX /LIBC_PAGE_SIZE u32_small in Hle; [| lia]. rewrite /LIBC_PAGE_SIZE /SIZE_ALIGN u32_small in Hno, Hnew; [| lia].
  apply negb_true_iff, andb_false_iff in Hno as [?%Z.ltb_ge | ?%Z.ltb_ge]; divmod.
Qed.

Lemma wp_expand_heap r e top n w Φ :
  mal_brk r = e + 8 → mc_top (mal_core r) = top → 0 < e + 8 < 2 ^ 32 - 8192 → (e + 8) mod 16 = 0 → 0 ≤ n →
  top < 2 ^ 32 - 8192 → csize e ↦ w -∗ zeroed (e + 8) top -∗
  (⌜no_room r n = true⌝ -∗ csize e ↦ w -∗ zeroed (e + 8) top -∗ Φ 0 r) ∧
  (∀ N, ⌜(n + 16 ≤ N)%Z ∧ N mod 16 = 0 ∧ (e + 8 + N < top)%Z⌝ -∗ csize e ↦ tag N true -∗ raw (e + 8) (e + N) -∗
     psize (e + N) ↦ tag N true -∗ csize (e + N) ↦ 1 -∗ zeroed (e + 8 + N) top -∗
     Φ e (set_brk (e + 8 + N) (set_core (mk_morecore (e + 8 + N) top) r))) -∗
  wp (expand_heap area n) r Φ.
Proof.
  iIntros (Hbrk Htop Hb Hm Hn Ht) "Hc Hraw K". destruct (no_room r n) eqn:Eno.
  { iDestruct "K" as "[K _]". iApply wp_expand_fails; [by rewrite Hbrk.. | done | by rewrite Htop | done |]. by iApply ("K" with "[] Hc Hraw"). }
  iApply wp_bind. iApply wp_getr. rewrite /no_room Hbrk Htop in Eno. rewrite Hbrk. remember (e + 8) as brk eqn:Ebrk.
  apply orb_false_iff in Eno as [Eno1 Eno]. rewrite Eno1. apply Z.ltb_ge in Eno1. apply negb_false_iff in Eno.
  destruct (expand_new brk n Hb Hm Hn Eno1) as (Hnew & Hmod & EN). remember (page_down _) as new eqn:Enew. clear Enew.
  destruct (brk_cases area new (mal_core r)) as (m' & E & Em); [lia | lia |]. rewrite Htop Eno in E, Em. iApply wp_bind.
  iApply wp_pure; [intros m; rewrite /libc__brk /= E //|]. apply andb_prop in Eno as [Hlt%Z.ltb_lt Hgt%Z.ltb_lt].
  rewrite syscall_ret_small; [| lia]. rewrite Z.eqb_refl. cbn [negb]. rewrite EN. iDestruct (zeroed_pure with "Hraw") as %Hr.
  rewrite (zeroed_split brk new top); [| divmod..]. iDestruct "Hraw" as "[Hraw Hrest]". iDestruct (zeroed_raw with "Hraw") as "Hraw".
  rewrite (raw_split brk (new - 8) new); [| divmod..]. iDestruct "Hraw" as "[Hraw Hend]". pose proof (raw_2 (new - 8)) as H2.
  replace (new - 8 + 8) with new in H2 by lia. rewrite H2. iDestruct "Hend" as "[[%v1 Hp] [%v2 Hce]]". rewrite /MEM_TO_CHUNK /OVERHEAD.
  replace (brk - 8) with e by lia. wstore "Hp". wstore "Hce". wstore "Hc". iApply wp_bind. iApply wp_modr. iApply wp_ret. iDestruct "K" as "[_ K]".
  rewrite lor_1; [| divmod]. iSpecialize ("K" $! (new - brk)). replace (e + (new - brk)) with (new - 8) by lia.
  replace (brk + (new - brk)) with new by lia. rewrite Em. iApply ("K" with "[] Hc Hraw Hp Hce Hrest"). iPureIntro. split_and!; [lia | done | done].
Qed.

(** The heap stays set up and does not shrink. *)
Definition later (r r' : regs) : Prop := mal_init r' = mal_init r ∧ mal_brk r ≤ mal_brk r'.

(** A chunk in use whose memory the caller owns, next to the chunks in use [us]. *)
Definition got (r : regs) (h : Z) (us : list (Z * Z)) (n c : Z) (r' : regs) : iProp Σ :=
  ∃ p s q, ⌜(c = h + extent p)%Z ∧ n ≤ s ∧ useds h p ++ useds (c + s) q = us ∧ later r r'⌝ ∗
    heapR r' h (p ++ (s, true) :: q) ∗ raw (c + 8) (c + s).

Lemma wp_grow_heap r h cs n Φ :
  good n → heapR r h cs -∗
  (⌜area < mal_brk r → short r n⌝ -∗ heapR r h cs -∗ Φ 0 r) ∧ (∀ c r', got r h (useds h cs) n c r' -∗ Φ c r') -∗
  wp (grow_heap area bins n) r Φ.
Proof.
  iIntros (Hn) "(%Ho & Hf & He & Hbin & Hcore) K". pose proof Ho as [Hh [Hw Hap] Hend]. pose proof (extent_nonneg cs Hw) as Ht.
  iDestruct (coreR_bounds with "Hcore") as %Hb. iDestruct "Hcore" as "[[%Hbase %Htop] Hraw]".
  remember (h + extent cs) as e eqn:Ee. iApply wp_bind. assert ((e + 8) mod 16 = 0) as Hmod by (destruct Hh, Ht; divmod).
  rewrite -Hend. iApply (wp_expand_heap with "He Hraw"); [done | done | lia | done | rewrite /good in Hn; lia | done |]. iSplit.
  { iIntros (Hno) "He Hraw". iApply wp_ret. iDestruct "K" as "[K _]". iApply "K".
    { iPureIntro. intros Ha. apply no_room_short; [lia | by rewrite -Hend | rewrite /good in Hn; lia | done | lia | lia | done]. }
    rewrite /MallocFree.heapR /coreR -Ee -Hend. iFrame.
    iPureIntro. rewrite Hend. done. }
  iDestruct "K" as "[_ K]". iIntros (N (HN & HNm & HNt)) "Hce Hraw Hpe Hend Hcore". rewrite (proj2 (Z.eqb_neq _ 0)); [| lia].
  set (r1 := set_brk _ _).
  assert (good N) as HgN by (rewrite /good in Hn |- *; lia).
  iAssert (coreR r1) with "[Hcore]" as "Hcore". { rewrite /coreR /r1 /=. iFrame. by iPureIntro. }
  iApply wp_bind. destruct (last_used true cs) eqn:El.
  - iApply (wp_alloc_rev_used with "Hf"); [lia | done | done |]. iIntros "Hf". iApply wp_ret. iApply ("K" $! e r1).
    iExists cs, N, []. iSplit; [iPureIntro; split_and!; [lia | lia | by rewrite app_nil_r | split; [done | rewrite /r1 /=; rewrite /good in HgN; lia]] |].
    rewrite (heap_split bins r1 h cs e N []); [| lia]. rewrite /= app_nil_r /back /=. replace (e + N + 0) with (e + N) by lia. iFrame. iPureIntro.
    split; cbn [extent]; [lia | done | rewrite /good in HgN; lia | done | split; [by constructor | done] | cbn; lia].
  - destruct cs as [|[t u] p _] using rev_ind; [done |]. rewrite last_used_snoc in El. subst u. rewrite extent_app /= in Ee.
    apply Forall_app in Hw as [Hp [Hts _]%Forall_cons]. apply apart_app in Hap as [Hap _]. cbn in Hts. pose proof (extent_nonneg p Hp) as Hpp.
    rewrite !select_app /= app_nil_r. remember (h + extent p) as c eqn:Ec. assert (e = c + t) as -> by lia. clear Ee.
    assert (good t) as Hgt by (rewrite /good; lia). iApply (wp_alloc_rev_free with "Hf [Hbin]"); [done | exact Hgt | done | iExact "Hbin" |].
    iIntros (bm) "Hf Hcc Hrc Hpc Hbin". iApply wp_bind. iApply (wp_PREV_CHUNK with "Hpc"); [done |]. iIntros "Hpc".
    replace (c + t - t) with c by lia. wload "Hce". iApply wp_bind. iApply (wp_CHUNK_SIZE with "Hcc"); [done |]. iIntros "Hcc".
    wstore "Hcc". iApply wp_bind. iApply (wp_NEXT_CHUNK with "Hce"); [done |]. iIntros "Hce". wstore "Hpe". iApply wp_ret.
    assert (u32 (tag N true + t) = tag (t + N) true) as -> by (rewrite /tag /= u32_small; rewrite /good in HgN; lia).
    iApply ("K" $! c). iExists p, (t + N), []. iSplit; [iPureIntro; split_and!; [done | lia | by rewrite app_nil_r | split; [done | rewrite /r1 /=; rewrite /good in HgN; lia]] |].
    iDestruct (raw_join with "Hrc Hpc Hce Hraw") as "Hraw"; [done | rewrite /good in HgN; lia |].
    rewrite (heap_split bins _ h p c (t + N) []); [| done]. rewrite /= !app_nil_r /back /=.
    replace (c + (t + N) + 0) with (c + t + N) by lia. replace (c + (t + N)) with (c + t + N) by lia. iFrame. iPureIntro.
    destruct HgN as [HgN _]. split; cbn [extent]; [done | done | split; [lia | divmod] | done | split; [by constructor | done] | cbn; lia].
Qed.

Lemma wp_grow_fails r n Φ :
  0 < mal_brk r < 2 ^ 32 - 8192 → mal_brk r mod 16 = 0 → 0 ≤ n → mc_top (mal_core r) < 2 ^ 32 - 8192 →
  no_room r n = true → Φ 0 r ⊢ wp (grow_heap area bins n) r Φ.
Proof. iIntros (? ? ? ? ?) "K". iApply wp_bind. iApply wp_expand_fails; [done.. |]. by iApply wp_ret. Qed.

(** * The allocator *)

Context (Harea : 0 < area < 2 ^ 32 - 8256) (Hareamod : area mod 4 = 0).

(** Before the first call the area is not touched; then it has a heap.  [us] are the
    chunks that the program has. *)
Definition allocR (r : regs) (us : list (Z * Z)) : iProp Σ :=
  (⌜mal_init r = 0 ∧ us = [] ∧ mc_base (mal_core r) = area ∧ mc_top (mal_core r) < 2 ^ 32 - 8192⌝ ∗
     zeroed area (mc_top (mal_core r)) ∗ binned r []) ∨
  (⌜mal_init r = 2 ∧ area < mal_brk r⌝ ∗ ∃ h cs, ⌜useds h cs = us⌝ ∗ heapR r h cs).

(** The first chunk is at a multiple of 16 plus 8. *)
Lemma first_brk b : b = area → let b0 := Z.land (u32 (b + 2 * SIZE_ALIGN - 1)) (2 ^ 32 - SIZE_ALIGN) in area + 16 ≤ b0 ≤ area + 31 ∧ b0 mod 16 = 0.
Proof.
  intros ->. rewrite /SIZE_ALIGN u32_small; [| lia]. change (2 ^ 32 - 16) with (2 ^ 32 - 2 ^ 4). rewrite land_down; [| lia..].
  change (2 ^ 4) with 16. cbv zeta. split; divmod.
Qed.

Lemma wp_init_malloc r us n Φ :
  good n → allocR r us -∗
  (allocR r us -∗ ⌜mal_init r = 2⌝ -∗ Φ 0 r) ∧
  (∀ r', allocR r' us -∗ ⌜mal_init r' = 0 ∧ no_room r' n = true ∧ 0 < mal_brk r' < 2 ^ 32 - 8192 ∧ mal_brk r' mod 16 = 0 ∧
     mc_top (mal_core r') < 2 ^ 32 - 8192 ∧ short r' n⌝ -∗ Φ (-1) r') ∧
  (∀ r', allocR r' us -∗ ⌜mal_init r' = 2⌝ -∗ Φ 1 r') -∗
  wp (init_malloc area bins n) r Φ.
Proof.
  iIntros (Hn) "H K". iApply wp_bind. iApply wp_getr. iDestruct "H" as "[(%Hr & Hraw & Hbin) | [[%Hi %Hbrk] H]]"; last first.
  { rewrite Hi. iApply wp_ret. iDestruct "K" as "[K _]". iApply ("K" with "[H]"); [| done]. iRight. by iFrame. }
  iDestruct "K" as "[_ K]". destruct Hr as (Hi & -> & Hbase & Htop). rewrite Hi /=. iApply wp_bind. iApply wp_modr.
  iApply wp_bind. iApply wp_pure; [intros m; rewrite /libc__brk /morecore_brk /= //|]. iApply wp_bind. iApply wp_modr.
  rewrite Hbase (syscall_ret_small area); [| lia]. destruct (first_brk area eq_refl) as [Hb0 Hmod]. remember (Z.land _ _) as b0 eqn:Eb0. clear Eb0.
  iApply wp_bind. iDestruct (zeroed_pure with "Hraw") as %Hr. set (r1 := set_brk b0 _). assert (0 ≤ n) as Hn0 by (destruct Hn; lia).
  destruct (no_room r1 n) eqn:Eno.
  - iApply wp_expand_fails; [cbn; lia | done | done | done | done |]. iApply wp_bind. iApply wp_modr. iApply wp_ret.
    iDestruct "K" as "[K _]". iApply ("K" with "[Hraw Hbin]"); [iLeft; by iFrame |]. iPureIntro. split_and!; [done | done | cbn; lia.. | done | done |].
    apply no_room_short; [cbn; lia | done | done | done | cbn; lia | cbn; lia | done].
  - iDestruct "K" as "[_ K]". pose proof (no_room_false r1 n) as Hroom. cbn in Hroom. destruct Hroom as [Hroom1 Hroom2]; [lia | done | done | done |].
    rewrite (zeroed_split area (b0 - 8)); [| divmod..]. iDestruct "Hraw" as "[_ Hraw]".
    rewrite (zeroed_split (b0 - 8) (b0 - 8 + 8)); [| divmod..]. iDestruct "Hraw" as "[Hhd Hraw]". iDestruct (zeroed_raw with "Hhd") as "Hhd". rewrite raw_2.
    iDestruct "Hhd" as "[[%v Hp] [%w Hc]]". iApply (wp_expand_heap r1 (b0 - 8) with "Hc Hraw"); [cbn; lia | done | lia | divmod | done | done |].
    iSplit; [iIntros (Hno); congruence |]. iIntros (N (HN & HNm & HNt)) "Hc Hraw Hpe Hce Hcore". rewrite (proj2 (Z.eqb_neq _ 0)); [| lia].
    iApply wp_bind. iApply wp_modr. wstore "Hp". iApply wp_bind. rewrite /CHUNK_TO_MEM /OVERHEAD. remember (b0 - 8) as e eqn:Ee.
    iApply (wp_free bins Hbins e [] e N [] with "[Hp] Hc Hraw Hpe [Hce] [Hbin] [Hcore]").
    + split; cbn; [lia | split; [lia | divmod] | split; [lia | done] | split; [constructor | done] | split; [constructor | done] | lia].
    + rewrite /front. by iFrame.
    + rewrite /back /= Z.add_0_r. by iFrame.
    + iExact "Hbin".
    + rewrite /coreR /=. by iFrame.
    + iIntros (cs r' [Hu Hsame]) "H". iApply wp_bind. iApply wp_modr. iApply wp_ret. iApply ("K" with "[H]"); [| done].
      iRight. iSplit; [iPureIntro; split; [done |]; destruct Hsame as [Es _]; cbn in Es |- *; lia |]. iExists e, cs. iSplit; [done |]. iDestruct "H" as "(%Ho & H)". iFrame. iPureIntro. by destruct Ho.
Qed.

Lemma binned_binmap r fr : binned r fr ⊢ ⌜0 ≤ mal_binmap r < 2 ^ 64⌝.
Proof. by iIntros "(%bl & (%Hp & [%Hm _] & _) & _)". Qed.

Lemma binned_nil r j : (j < 64)%nat → binned r [] ⊢ ⌜Z.testbit (mal_binmap r) (Z.of_nat j) = false⌝.
Proof.
  iIntros (Hj) "(%bl & ([%Hl %Hp] & [_ %Hm] & _) & _)". iPureIntro. destruct (lookup_lt_is_Some_2 bl j) as [l El]; [lia |].
  rewrite (Hm _ _ El). pose proof (Hp _ _ El) as Hn. apply Permutation_nil_r in Hn as ->. done.
Qed.

(** The loop once the heap is there. *)
Lemma wp_malloc_ready fuel r h cs n Φ :
  good n → n ≤ MMAP_THRESHOLD → mal_init r = 2 → heapR r h cs -∗
  (⌜area < mal_brk r → short r n⌝ -∗ heapR r h cs -∗ Φ 0 r) ∧ (∀ c r', got r h (useds h cs) n c r' -∗ Φ c r') -∗
  wp (malloc_loop area bins (S fuel) n (bin_index_up n)) r Φ.
Proof.
  iIntros (Hn Hmax Hi) "H K". cbn [malloc_loop]. iApply wp_bind. iApply wp_getr.
  pose proof (bin_index_up_range n (conj (proj1 (proj1 Hn)) Hmax)) as Hup.
  iAssert (⌜0 ≤ mal_binmap r < 2 ^ 64⌝)%I as %Hbm. { iDestruct "H" as "(_ & _ & _ & Hb & _)". by iApply binned_binmap. }
  destruct (Z.eqb_spec (Z.land (mal_binmap r) (2 ^ 64 - Z.shiftl 1 (bin_index_up n))) 0) as [| Hne].
  - iApply wp_bind. iApply (wp_pure _ _ 0 r); [intros m; by rewrite /init_malloc /mbind /MM_bind /getr /= Hi |].
    iApply (wp_grow_heap with "H K"). done.
  - destruct (first_set_spec _ _ Hbm Hup Hne) as (j & Ej & Hj & Hbit). iApply wp_bind.
    iApply wp_pure; [intros m; rewrite /first_set Ej //|]. replace j with (Z.of_nat (Z.to_nat j)) by lia.
    iApply wp_bind. iApply (wp_take_bin with "H"); [done | done | lia | lia | by rewrite Z2Nat.id; [| lia] |].
    iIntros (p s q c r' (Ec & Hns & Hu & Hsame)) "H Hraw". iApply wp_ret. iDestruct "K" as "[_ K]". iApply "K".
    iExists p, s, q. iFrame. iPureIntro. split_and!; [done | done | done |]. destruct Hsame as (E1 & _ & E2). split; [done | lia].
Qed.

Lemma wp_malloc_loop r us n Φ :
  good n → n ≤ MMAP_THRESHOLD → allocR r us -∗
  (∀ r', ⌜short r' n⌝ -∗ allocR r' us -∗ Φ 0 r') ∧
  (∀ h c r0 r', ⌜mal_init r0 = 2 ∧ area < mal_brk r0⌝ -∗ got r0 h us n c r' -∗ Φ c r') -∗
  wp (malloc_loop area bins malloc_rounds n (bin_index_up n)) r Φ.
Proof.
  iIntros (Hn Hmax) "[(%Hr & Hraw & Hbin) | ([%Hi %Hbrk] & %h & %cs & %Hu & H)] K"; rewrite /malloc_rounds; last first.
  { iApply (wp_malloc_ready with "H"); [done.. |]. iSplit.
    - iIntros (Hs) "H". iDestruct "K" as "[K _]". iApply "K"; [by iPureIntro; auto |]. iRight. iSplit; [done |]. iExists h, cs. by iFrame.
    - iIntros (c r') "Hg". iDestruct "K" as "[_ K]". rewrite Hu. by iApply ("K" with "[//] Hg"). }
  pose proof (bin_index_up_range n (conj (proj1 (proj1 Hn)) Hmax)) as Hup. remember 1%nat as f eqn:Ef. cbn [malloc_loop].
  iApply wp_bind. iApply wp_getr. iDestruct (binned_binmap with "Hbin") as %Hbm.
  destruct (Z.eqb_spec (Z.land (mal_binmap r) (2 ^ 64 - Z.shiftl 1 (bin_index_up n))) 0) as [| Hne]; last first.
  { destruct (first_set_spec _ _ Hbm Hup Hne) as (j & Ej & Hj & Hbit). iDestruct (binned_nil r (Z.to_nat j) with "Hbin") as %Hf; [lia |].
    rewrite Z2Nat.id in Hf; [congruence | lia]. }
  iApply wp_bind. iApply (wp_init_malloc r us n with "[Hraw Hbin]"); [done | iLeft; by iFrame |]. iSplit; [| iSplit].
  - iIntros "_ %Hi". destruct Hr as [Hi' _]. congruence.
  - iIntros (r') "H (%Hi & %Hno & %Hb & %Hm & %Ht & %Hs)". iApply wp_grow_fails; [done.. | by destruct Hn; lia | done | done |].
    iDestruct "K" as "[K _]". by iApply "K".
  - iIntros (r') "[(%Hr' & _) | ([_ %Hbrk] & %h & %cs & %Hu & H)] %Hi"; [destruct Hr' as [? _]; congruence |].
    rewrite Ef. iApply (wp_malloc_ready with "H"); [done.. |]. iSplit.
    + iIntros (Hs) "H". iDestruct "K" as "[K _]". iApply "K"; [by iPureIntro; auto |]. iRight. iSplit; [done |]. iExists h, cs. by iFrame.
    + iIntros (c r'') "Hg". iDestruct "K" as "[_ K]". rewrite Hu. by iApply ("K" with "[//] Hg").
Qed.
End malloc.
