(* ===== verification/MallocSpec.v ===== *)
(** What malloc, calloc, realloc and free do to the blocks of a program, and the theorem that
    every program which uses them gets what they promise. *)

From iris.proofmode Require Import proofmode.
From iris.base_logic.lib Require Import gen_heap.
From S2P Require Import Prelude Qsort Morecore Malloc MallocHeap MallocLogic MallocFree MallocInv.

(** The length of the mapping that is asked for, for a chunk of [k] bytes. *)
Definition map_len (k : Z) : Z := page_down (u32 (k + OVERHEAD + LIBC_PAGE_SIZE - 1)).

(** A request whose mapping is longer than the address of the top pointer. *)
Definition too_long (n : Z) (r : regs) : bool :=
  match adjust_size n with
  | Some k => (MMAP_THRESHOLD <? k) && (mc_top (mal_core r) <? map_len k)
  | None => false
  end.

Lemma map_len_spec k : 0 ≤ k ≤ 2 ^ 31 → k + 8 ≤ map_len k ≤ k + 4103 ∧ map_len k mod 4096 = 0.
Proof.
  intros Hk. rewrite /map_len page_down_spec; [| apply u32_range]. rewrite /OVERHEAD /LIBC_PAGE_SIZE u32_small; [| lia]. divmod.
Qed.

(** The size of a chunk is adjusted to itself, or is too large. *)
Lemma adjust_again n k : 0 ≤ n < 2 ^ 32 → adjust_size n = Some k → adjust_size (k - OVERHEAD) = Some k ∨ adjust_size (k - OVERHEAD) = None.
Proof.
  intros Hn E. destruct (adjust_size_spec n Hn) as [[E' _] | (k' & E' & Hn' & Hk & Hkm & Hnk & _)]; rewrite E in E'; [done |]. injection E' as <-.
  rewrite /OVERHEAD. destruct (adjust_size_spec (k - 8)) as [[-> _] | (k' & -> & _ & Hk' & Hkm' & Hnk' & _)]; [lia | by right |].
  left. f_equal. divmod.
Qed.

Lemma too_long_again n k r : 0 ≤ n < 2 ^ 32 → adjust_size n = Some k → too_long n r = false → too_long (k - OVERHEAD) r = false.
Proof. intros Hn E. rewrite /too_long E. by destruct (adjust_again n k Hn E) as [-> | ->]. Qed.

Lemma MM_bind_eq {A B} (c : MM A) (k : A → MM B) s a s' : c s = Ret (a, s') → (c ≫= k) s = k a s'.
Proof. by rewrite /mbind /MM_bind => ->. Qed.

Lemma size_of_even w : w mod 2 = 0 → 0 ≤ w < 2 ^ 32 → size_of w = w.
Proof.
  intros He Hw. rewrite /size_of. change (2 ^ 32 - 2) with (2 ^ 32 - 2 ^ 1). rewrite land_down; [| lia | done]. change (2 ^ 1) with 2. divmod.
Qed.

Lemma even_free w : w mod 8 = 0 → in_use w = false.
Proof. intros Hw. rewrite in_use_odd Zodd_even_bool. apply negb_false_iff, Zeven_bool_iff, Zeven_ex_iff. exists (w / 2). divmod. Qed.

Section spec.
Context `{!gen_heapGS Z Z Σ} (area bins : Z) (Hbins : 0 < bins).
Context (Harea : 0 < area < 2 ^ 32 - 8256) (Hareamod : area mod 4 = 0).

Local Notation heapR := (heapR bins).
Local Notation allocR := (allocR area bins).

(** * Blocks *)

(** The allocator, with the chunks in use in any order. *)
Definition allocP (r : regs) (xs : list (Z * Z)) : iProp Σ := ∃ us, ⌜us ≡ₚ xs⌝ ∗ allocR r us.

(** A block is the memory of a chunk of [s] bytes, or has its own mapping. *)
Definition us_of (p : Z) (o : option Z) : list (Z * Z) := match o with Some s => [(p - 8, s)] | None => [] end.

Definition header (p : Z) (o : option Z) (lim : Z) : iProp Σ :=
  match o with
  | Some s => ⌜(lim = p - 8 + s)%Z ∧ 16 ≤ s ∧ s mod 16 = 0 ∧ p mod 16 = 0⌝
  | None => ⌜(lim - p + 16) mod 4096 = 0 ∧ 4096 < lim - p + 16 < 2 ^ 32⌝ ∗ psize (p - 8) ↦ 8 ∗ csize (p - 8) ↦ (lim - p + 8)%Z
  end.

(** A block with the contents [ws], all of it. *)
Definition owned (p : Z) (o : option Z) (ws : list Z) : iProp Σ := ⌜0 < p⌝ ∗ header p o (p + 4 * Zlength ws) ∗ cells p ws.

(** * malloc *)

Lemma allocR_core r us :
  allocR r us ⊢ ⌜mc_base (mal_core r) ≤ mc_top (mal_core r) < 2 ^ 32 - 8192 ∧ area ≤ mc_base (mal_core r)⌝ ∗
    zeroed (mc_base (mal_core r)) (mc_top (mal_core r)) ∗
    (∀ m, ⌜mc_base m = mc_base (mal_core r) ∧ mc_top m ≤ mc_top (mal_core r)⌝ -∗ zeroed (mc_base m) (mc_top m) -∗ allocR (set_core m r) us).
Proof.
  iIntros "[(%Hr & Hz & Hbin) | ([%Hi %Hbrk] & %h & %cs & %Hu & %Ho & Hf & He & Hbin & [%Hc Hz])]".
  - destruct Hr as (Hi & -> & Hb & Ht). rewrite Hb. iDestruct (zeroed_pure with "Hz") as %Hz. iFrame "Hz". iSplit; [iPureIntro; lia |].
    iIntros (m [Hm1 Hm2]) "Hz". iLeft. rewrite /= Hm1. iFrame. iPureIntro. split_and!; [done | done | done | lia].
  - destruct Hc as [Hb Ht]. rewrite Hb. iDestruct (zeroed_pure with "Hz") as %Hz. iFrame "Hz". iSplit; [iPureIntro; lia |].
    iIntros (m [Hm1 Hm2]) "Hz". iRight. iSplit; [done |]. iExists h, cs. iSplit; [done |]. iFrame. rewrite /coreR /= Hb -Hm1. iFrame.
    iPureIntro. split; [by destruct Ho | lia].
Qed.

(** A large block has its own mapping, at the top of the area. *)
Lemma wp_malloc_mmap r xs n k Φ :
  n + 8 ≤ k → MMAP_THRESHOLD < k ≤ 2 ^ 31 → map_len k ≤ mc_top (mal_core r) → allocP r xs -∗
  (∀ r', ⌜short r' k⌝ -∗ allocP r' xs -∗ Φ 0 r') ∧
  (∀ p ws r', ⌜n ≤ 4 * Zlength ws ∧ ws = replicate (length ws) 0⌝ -∗ allocP r' xs -∗ owned p None ws -∗ Φ p r') -∗
  wp (malloc_mmap k) r Φ.
Proof.
  iIntros (Hk [Hbig Hmax] Hna) "(%us & %Hus & H) K". iDestruct (allocR_core with "H") as "([%Ht %Hb] & Hz & H)". rewrite /malloc_mmap.
  rewrite /MMAP_THRESHOLD /SIZE_ALIGN in Hbig. destruct (map_len_spec k) as [Hlen Hmod]; [lia |]. fold (map_len k). remember (map_len k) as len eqn:Elen. clear Elen.
  iDestruct (zeroed_pure with "Hz") as %Hzm. set (top := mc_top (mal_core r)) in *. set (base := mc_base (mal_core r)) in *. iApply wp_bind.
  destruct (mmap_cases len (Z.lor MAP_PRIVATE MAP_ANONYMOUS) (mal_core r)) as [[E Hno] | [E Hle]]; [done | lia | lia | lia | |].
  - iApply wp_pure; [intros m; rewrite /libc__mmap /= E //|]. change (u32 (syscall_ret (2 ^ 32 - 12)) =? 2 ^ 32 - 1) with true.
    iApply wp_ret. iDestruct "K" as "[K _]".
    iApply "K"; [iPureIntro; rewrite /short /=; lia |]. iExists us. iSplit; [done |]. iApply ("H" with "[] Hz"). by iPureIntro.
  - fold top base in E, Hle. iApply wp_pure; [intros m; rewrite /libc__mmap /= E //|]. rewrite syscall_ret_small; [| lia].
    rewrite (proj2 (Z.eqb_neq _ (2 ^ 32 - 1))); [| lia]. rewrite (zeroed_split base (top - len) top); [| divmod..].
    iDestruct "Hz" as "[Hz Hm]". remember (top - len) as b eqn:Eb. rewrite (zeroed_split b (b + 8) top); [| divmod..].
    iDestruct "Hm" as "[_ Hm]". rewrite (zeroed_split (b + 8) (b + 8 + 8) top); [| divmod..]. iDestruct "Hm" as "[Hh Hm]".
    iDestruct (zeroed_raw with "Hh") as "Hh". rewrite raw_2. iDestruct "Hh" as "[[%v1 Hp] [%v2 Hc]]". rewrite /SIZE_ALIGN /OVERHEAD.
    replace (b + (16 - 8)) with (b + 8) by lia. wstore "Hc". wstore "Hp". iApply wp_ret. rewrite /CHUNK_TO_MEM /OVERHEAD.
    iDestruct "K" as "[_ K]". iDestruct "Hm" as "[_ Hm]". iApply ("K" with "[] [H Hz] [Hp Hc Hm]"); [| | rewrite /owned]; last iFrame "Hm".
    + iPureIntro. rewrite length_replicate. split; [rewrite /Zlength length_replicate; divmod | done].
    + iExists us. iSplit; [done |]. iApply ("H" $! (mk_morecore base b) with "[] Hz"). iPureIntro. cbn. split; [done | lia].
    + iSplit; [iPureIntro; lia |]. rewrite /header. replace (b + 8 + 8 - 8) with (b + 8) by lia.
      assert (4 * Zlength (replicate (Z.to_nat ((top - (b + 8 + 8)) / 4)) 0) = len - 16) as -> by (rewrite /Zlength length_replicate; divmod).
      rewrite /SIZE_ALIGN /OVERHEAD. replace (b + 8 + 8 + (len - 16) - (b + 8 + 8) + 8) with (len - (16 - 8)) by lia. iFrame. iPureIntro.
      replace (b + 8 + 8 + (len - 16) - (b + 8 + 8) + 16) with len by lia. split; [done | lia].
Qed.

(** A small one is the memory of a chunk. *)
Lemma wp_malloc_heap r xs n k Φ :
  good k → k ≤ MMAP_THRESHOLD → n + 8 ≤ k → allocP r xs -∗
  (∀ r', ⌜short r' k⌝ -∗ allocP r' xs -∗ Φ 0 r') ∧
  (∀ p s ws r', ⌜n ≤ 4 * Zlength ws⌝ -∗ allocP r' ((p - 8, s)%Z :: xs) -∗ owned p (Some s) ws -∗ Φ p r') -∗
  wp (c ← malloc_loop area bins malloc_rounds k (bin_index_up k);
      if c =? 0 then mret 0 else _ ← trim bins c k; mret (CHUNK_TO_MEM c)) r Φ.
Proof.
  iIntros (Hk Hmax Hn) "(%us & %Hus & H) K". iApply wp_bind. iApply (wp_malloc_loop with "H"); [done.. |]. iSplit.
  { iIntros (r' Hs) "H". iApply wp_ret. iDestruct "K" as "[K _]". iApply "K"; [done |]. iExists us. by iFrame. }
  iDestruct "K" as "[_ K]". iIntros (h c r0 r1 [Hi Hb]) "(%p & %s & %q & (%Ec & %Hs & %Hu & %Hl) & H & Hraw)".
  iAssert (⌜0 < c ∧ c mod 16 = 8⌝)%I as %[Hc Hcm].
  { iDestruct "H" as "(%Ho & _)". iPureIntro. destruct Ho as [[H0 H1] [Hw _] _]. apply Forall_app in Hw as [Hw _].
    pose proof (extent_nonneg p Hw) as [? ?]. split; [lia | divmod]. }
  rewrite (proj2 (Z.eqb_neq c 0)); [| lia]. iDestruct (raw_pure with "Hraw") as %Hr. destruct Hk as [Hk Hkm].
  rewrite (raw_split (c + 8) (c + k)); [| divmod..]. iDestruct "Hraw" as "[Hraw Hrest]".
  iApply wp_bind. iApply (wp_trim with "H Hrest"); [done.. |]. iIntros (cs s' r' (Hks & Hsm & Hus' & Hsame)) "H Hrest".
  iAssert (raw (c + 8) (c + s')) with "[Hraw Hrest]" as "Hraw"; [rewrite (raw_split (c + 8) (c + k) (c + s')); [by iFrame | divmod..] |]. iApply wp_ret. rewrite /CHUNK_TO_MEM /OVERHEAD.
  rewrite raw_cells. iDestruct "Hraw" as (ws) "[%Hlen Hw]". destruct Hsame as (E1 & _ & E2), Hl as [E3 E4].
  iApply ("K" $! (c + 8) s' ws r' with "[] [H] [Hw]").
  - iPureIntro. lia.
  - iExists (useds h cs). replace (c + 8 - 8) with c by lia. iSplit; [iPureIntro; by rewrite Hus' -Permutation_middle Hu Hus |].
    iRight. iSplit; [iPureIntro; split; [congruence | lia] |]. iExists h, cs. by iFrame.
  - iFrame. iPureIntro. split_and!; [lia | lia | lia | done | divmod].
Qed.

(** [malloc] gives a new block, or NULL when the request is too large for a pointer difference
    or what is left of the area does not suffice; a block with its own mapping is zero. *)
Lemma wp_malloc r xs n Φ :
  0 ≤ n < 2 ^ 32 → too_long n r = false → allocP r xs -∗
  (∀ r', ⌜n ≤ 2 ^ 31 - 4112 → short r' (n + 24)⌝ -∗ allocP r' xs -∗ Φ 0 r') ∧
  (∀ p o ws r', ⌜n ≤ 4 * Zlength ws ∧ (o = None → ws = replicate (length ws) 0) ∧ (o = None ↔ 114680 < n)⌝ -∗
     allocP r' (us_of p o ++ xs) -∗ owned p o ws -∗ Φ p r') -∗
  wp (malloc area bins n) r Φ.
Proof.
  iIntros (Hn Hok) "H K". rewrite /malloc. rewrite /too_long in Hok.
  destruct (adjust_size_spec n Hn) as [[-> Hhuge] | (k & Ek & Hn' & Hk & Hkm & Hnk & Hiff)]; [| rewrite Ek in Hok |- *].
  { iApply wp_ret. iDestruct "K" as "[K _]". iApply ("K" with "[] H"). iPureIntro. lia. }
  assert (∀ r', short r' k → short r' (n + 24)) as Hshort by (rewrite /short; lia).
  destruct (Z.ltb_spec MMAP_THRESHOLD k) as [Hbig | Hsmall].
  - cbn [andb] in Hok. apply Z.ltb_ge in Hok. iApply (wp_malloc_mmap r xs n k with "H"); [lia | lia | done |]. iSplit.
    { iIntros (r' Hs). iDestruct "K" as "[K _]". iApply "K". by auto. }
    iIntros (p ws r' [Hlen Hz]) "H Hw". iDestruct "K" as "[_ K]".
    iApply ("K" $! p None with "[] H Hw"). iPureIntro. split_and!; [done | done | tauto].
  - iApply (wp_malloc_heap r xs n with "H"); [rewrite /MMAP_THRESHOLD /SIZE_ALIGN in Hsmall; split; [lia | done] | done | lia |].
    iSplit. { iIntros (r' Hs). iDestruct "K" as "[K _]". iApply "K". by auto. }
    iIntros (p s ws r' Hlen) "H Hw". iDestruct "K" as "[_ K]".
    iApply ("K" $! p (Some s) with "[] H Hw"). iPureIntro. split_and!; [done | done |]. split; [done | lia].
Qed.

(** * free *)

Lemma allocP_chunk r c s xs :
  allocP r ((c, s) :: xs) ⊢ ∃ h p q, ⌜(c = h + extent p)%Z ∧ mal_init r = 2 ∧ area < mal_brk r ∧ useds h p ++ useds (c + s) q ≡ₚ xs⌝ ∗
    heapR r h (p ++ (s, true) :: q).
Proof.
  iIntros "(%us & %Hus & [(%Hr & _) | ([%Hi %Hbrk] & %h & %cs & %Hu & H)])".
  { destruct Hr as (_ & -> & _). by apply Permutation_nil_cons in Hus. }
  assert ((c, s) ∈ us) as (u1 & u2 & Eus)%list_elem_of_split by (rewrite Hus; left). subst us.
  destruct (select_split _ _ _ _ _ _ _ Eus) as (p & q & -> & Ec & -> & ->). iExists h, p, q. iFrame. iPureIntro.
  split_and!; [done | done | done |]. rewrite Eus -Permutation_middle in Hus. by apply Permutation_cons_inv in Hus.
Qed.

Lemma wp_free_chunk r c s xs Φ :
  allocP r ((c, s) :: xs) -∗ raw (c + 8) (c + s) -∗ (∀ r', allocP r' xs -∗ Φ tt r') -∗ wp (free bins (c + 8)) r Φ.
Proof.
  iIntros "H Hraw K". iDestruct (allocP_chunk with "H") as (h p q (Ec & Hi & Hbrk & Hp)) "H". rewrite (heap_split bins r h p c s q Ec).
  iDestruct "H" as "(%Ho & Hf & Hca & Hpa & Hb & Hbin & Hcore)".
  iApply (wp_free with "Hf Hca Hraw Hpa Hb Hbin Hcore"); [done | done |]. iIntros (cs r' [Hu (E1 & _ & E2)]) "H". iApply "K".
  iExists (useds h cs). iSplit; [by rewrite Hu Hp |]. iRight. iSplit; [iPureIntro; split; [congruence | lia] |]. iExists h, cs. by iFrame.
Qed.

(** * calloc *)

Lemma allocP_csize r c s xs :
  allocP r ((c, s) :: xs) ⊢ csize c ↦ tag s true ∗ (csize c ↦ tag s true -∗ allocP r ((c, s) :: xs)).
Proof.
  iIntros "H". iDestruct (allocP_chunk with "H") as (h p q (Ec & Hi & Hbrk & Hp)) "H". iDestruct (heap_split bins r h p c s q Ec with "H") as "H".
  iDestruct "H" as "(%Ho & Hf & $ & Hpa & Hb & Hbin & Hcore)". iIntros "Hca". iExists (useds h p ++ (c, s) :: useds (c + s) q).
  iSplit; [by rewrite -Permutation_middle Hp |]. iRight. iSplit; [done |]. iExists h, (p ++ (s, true) :: q).
  rewrite (heap_split bins r h p c s q Ec). iFrame. iPureIntro. by rewrite select_app /= -Ec.
Qed.

Lemma wp_clear_words z us ws k r Φ :
  length us = k → cells z (us ++ ws) -∗ (cells z (replicate k 0 ++ ws) -∗ Φ tt r) -∗ wp (clear_words z k) r Φ.
Proof.
  intros <-. revert z. induction us as [|u us IH]; iIntros (z) "H K"; cbn [length clear_words app replicate cells].
  { iApply wp_ret. by iApply "K". }
  iDestruct "H" as "[Hu H]". wload "Hu". iApply wp_bind.
  iAssert (wp (if negb (u =? 0) then sw z 0 else mret tt) r (λ _ r', ⌜r' = r⌝ ∗ z ↦ 0))%I with "[Hu]" as "Hw".
  { destruct (Z.eqb_spec u 0) as [-> |]; [iApply wp_ret; by iFrame |]. iApply (wp_sw with "Hu"). iIntros "$". done. }
  iApply (wp_mono with "Hw"). iIntros ([] r') "[-> Hz]". iApply (IH with "H"). iIntros "H". iApply "K". iFrame.
Qed.

Lemma land_7 w : Z.land w 7 = w mod 8.
Proof. change 7 with (Z.ones 3). by rewrite Z.land_ones. Qed.

(** [calloc] gives zero words. *)
Lemma wp_calloc r xs m n Φ :
  0 ≤ m < 2 ^ 32 → 0 ≤ n < 2 ^ 32 → (n * m < 2 ^ 32 → too_long (n * m) r = false) → allocP r xs -∗
  (∀ r', allocP r' xs -∗ Φ 0 r') ∧
  (∀ p o ws r', ⌜n * m ≤ 4 * Zlength ws ∧ take (Z.to_nat ((n * m + 3) / 4)) ws = replicate (Z.to_nat ((n * m + 3) / 4)) 0 ∧
       (o = None → 114680 < n * m)⌝ -∗
     allocP r' (us_of p o ++ xs) -∗ owned p o ws -∗ Φ p r') -∗
  wp (calloc area bins m n) r Φ.
Proof.
  iIntros (Hm Hn Hok) "H K". rewrite /calloc. destruct (negb (n =? 0) && ((2 ^ 32 - 1) / n <? m)) eqn:Eov.
  { iApply wp_ret. iDestruct "K" as "[K _]". by iApply "K". }
  assert (0 ≤ n * m < 2 ^ 32) as Hnm by by apply calloc_fits. rewrite (u32_small (n * m)); [| done]. specialize (Hok (proj2 Hnm)). remember (n * m) as t eqn:Et.
  iApply wp_bind. iApply (wp_malloc with "H"); [done | done |]. iSplit.
  { iIntros (r' _) "H". iApply wp_ret. iDestruct "K" as "[K _]". by iApply "K". }
  iDestruct "K" as "[_ K]". iIntros (p o ws r' (Hlen & Hz & Hiff)) "H (%Hp & Hh & Hw)". rewrite (proj2 (Z.eqb_neq p 0)); [| lia].
  replace (p - 4) with (csize (p - 8)) by (rewrite /csize; lia). destruct o as [s |]; cbn [us_of header app].
  - iDestruct "Hh" as %(Hlim & Hs & Hsm & Hpm). iDestruct (allocP_csize with "H") as "[Hc H]". wload "Hc". iDestruct ("H" with "Hc") as "H".
    rewrite land_7. replace (tag s true mod 8 =? 0) with false by (symmetry; apply Z.eqb_neq; rewrite /tag /=; divmod). cbn [negb].
    assert (t ≤ 114680) as Ht by (destruct (Z.le_gt_cases t 114680) as [| Hgt]; [done |]; apply Z.lt_gt, Z.gt_lt, (proj2 Hiff) in Hgt; done).
    rewrite u32_small; [| lia]. replace (t + 4 - 1) with (t + 3) by lia. remember (Z.to_nat ((t + 3) / 4)) as k eqn:Ek.
    assert (k ≤ length ws)%nat as Hk by (rewrite /Zlength in Hlen; divmod). rewrite -{1}(take_drop k ws).
    iApply wp_bind. iApply (wp_clear_words with "Hw"); [rewrite length_take; lia |]. iIntros "Hw". iApply wp_ret. iApply ("K" $! p (Some s) (replicate k 0 ++ drop k ws) with "[] H [Hw]").
    + iPureIntro. split_and!; [rewrite Zlength_app /Zlength length_replicate length_drop; rewrite /Zlength in Hlen; lia | | done].
      by rewrite take_app_length'; [| rewrite length_replicate].
    + iFrame. iSplit; [done |]. iPureIntro. rewrite Zlength_app /Zlength length_replicate length_drop. rewrite /Zlength in Hlim. split_and!; [lia | done..].
  - iDestruct "Hh" as "([%Hmod %Hlt] & Hp & Hc)". wload "Hc". rewrite land_7. remember (p + 4 * Zlength ws - p + 8)%Z as w eqn:Ew.
    assert (w mod 8 = 0) as -> by divmod. rewrite Z.eqb_refl. cbn [negb]. subst w. iApply wp_bind. iApply wp_ret. iApply wp_ret.
    iApply ("K" $! p None ws with "[] H [Hp Hc Hw]"); [| by iFrame]. iPureIntro. split_and!; [done | | tauto].
    rewrite {1}(Hz eq_refl) take_replicate Nat.min_l; [done |]. rewrite /Zlength in Hlen. divmod.
Qed.

(** * realloc *)

(** The chunk takes in the free one behind it when it is too small. *)
Lemma wp_widen {A} r h p c s q n (k : Z → MM A) Φ :
  c = h + extent p → heapR r h (p ++ (s, true) :: q) -∗
  (∀ bm n1 q1, ⌜s ≤ n1 ∧ n1 mod 16 = 0 ∧ useds (c + n1) q1 = useds (c + s) q⌝ -∗
     heapR (set_binmap bm r) h (p ++ (n1, true) :: q1) -∗ raw (c + s) (c + n1) -∗ wp (k n1) (set_binmap bm r) Φ) -∗
  wp (b ← (if s <? n then alloc_fwd bins (c + s) else mret false);
      '(n1, nxt) ←
        (if b : bool then
           t ← CHUNK_SIZE (c + s);
           nxt ← NEXT_CHUNK (c + s);
           mret (u32 (s + t), nxt)
         else mret (s, c + s));
      _ ← sw (csize c) (Z.lor n1 C_INUSE);
      _ ← sw (psize nxt) (Z.lor n1 C_INUSE);
      k n1) r Φ.
Proof.
  iIntros (Ec) "H K". rewrite (heap_split bins r h p c s q Ec). iDestruct "H" as "(%Ho & Hf & Hca & Hpa & Hb & Hbin & Hcore)".
  pose proof Ho as [_ Hh Hs [Hp Hap] [Hq Haq] He]. iDestruct (coreR_bounds with "Hcore") as %Hbd. pose proof (extent_nonneg p Hp).
  pose proof (extent_nonneg q Hq). iApply wp_bind. destruct ((s <? n) && negb (first_used q)) eqn:Eb; last first.
  - iAssert (wp (if s <? n then alloc_fwd bins (c + s) else mret false) r (λ b r', ⌜b = false ∧ r' = r⌝ ∗ back (c + s) q))%I with "[Hb]" as "Hw".
    { destruct (s <? n); [| iApply wp_ret; by iFrame]. iApply (wp_alloc_fwd_used with "Hb"); [done | by destruct (first_used q) |]. iIntros "$". done. }
    iApply (wp_mono with "Hw"). iIntros (b r') "([-> ->] & Hb)". iApply wp_bind. iApply wp_ret. wstore "Hca". wstore "Hpa".
    rewrite lor_1; [| divmod]. iSpecialize ("K" $! (mal_binmap r) s q). rewrite set_binmap_same. iApply ("K" with "[] [-]").
    + iPureIntro. by destruct Hs.
    + rewrite (heap_split bins r h p c s q Ec). by iFrame.
    + iApply raw_nil.
  - apply andb_prop in Eb as [-> Hfu]. destruct q as [|[t u] q]; [done |]. cbn in Hfu. destruct u; [done |]. cbn [extent select eqb app] in *.
    apply Forall_cons in Hq as [Ht Hq]. cbn in Ht. destruct Haq as [_ Haq]. pose proof (extent_nonneg q Hq).
    assert (good t) as Hgt by (rewrite /good; lia). remember (c + s) as b eqn:Eb.
    iApply (wp_alloc_fwd_free with "Hb Hbin"); [done | exact Hgt |]. iIntros (bm) "Hcb Hrb Hpb Hb Hbin". iApply wp_bind. iApply wp_bind.
    iApply (wp_CHUNK_SIZE with "Hcb"); [done |]. iIntros "Hcb". iApply wp_bind. iApply (wp_NEXT_CHUNK with "Hcb"); [done |]. iIntros "Hcb".
    iApply wp_ret. rewrite u32_small; [| lia]. wstore "Hca". wstore "Hpb". rewrite lor_1; [| divmod].
    iSpecialize ("K" $! bm (s + t) q). replace (c + (s + t)) with (b + t) by lia. iApply ("K" with "[] [-Hpa Hcb Hrb]").
    + iPureIntro. split_and!; [lia | divmod | done].
    + rewrite (heap_split bins _ h p c (s + t) q Ec). replace (c + (s + t)) with (b + t) by lia. iFrame. iPureIntro.
      split; cbn; [done | done | split; [lia | divmod] | done | split; [done | by eapply apart_weaken] | lia].
    + rewrite raw_header; [| done]. iFrame.
Qed.

Lemma wp_copy_words dst src us vs ws r Φ :
  length us = length vs → cells src us -∗ cells dst (vs ++ ws) -∗ (cells src us -∗ cells dst (us ++ ws) -∗ Φ tt r) -∗
  wp (copy_words dst src (length us)) r Φ.
Proof.
  revert dst src vs. induction us as [|u us IH]; iIntros (dst src vs Hl) "Hs Hd K".
  { destruct vs; [| done]. iApply wp_ret. iApply ("K" with "Hs Hd"). }
  destruct vs as [|v vs]; [done |]. injection Hl as Hl. cbn [cells app length copy_words]. iDestruct "Hs" as "[Hu Hs]". iDestruct "Hd" as "[Hv Hd]".
  wload "Hu". wstore "Hv". iApply (IH with "Hs Hd"); [done |]. iIntros "Hs Hd". iApply ("K" with "[Hu Hs] [Hv Hd]"); iFrame.
Qed.

(** The words of [ws] that a block of [n] bytes has are in [ws'] too. *)
Definition kept (n : Z) (ws ws' : list Z) : Prop := ∀ i, 4 * Z.of_nat i < n → (i < length ws)%nat → ws' !! i = ws !! i.

(** The block is cut to [k] bytes in place. *)
Lemma wp_realloc_trim r h p c s q us xs ws n k Φ :
  c = h + extent p → good k → k ≤ s → 0 ≤ n → n + 8 ≤ k → us = useds h p ++ useds (c + s) q → us ≡ₚ xs → mal_init r = 2 ∧ area < mal_brk r →
  heapR r h (p ++ (s, true) :: q) -∗ owned (c + 8) (Some s) ws -∗
  (∀ s' ws' r', ⌜n ≤ 4 * Zlength ws' ∧ kept n ws ws'⌝ -∗ allocP r' ((c, s') :: xs) -∗ owned (c + 8) (Some s') ws' -∗ Φ (c + 8)%Z r') -∗
  wp (_ ← trim bins c k; mret (CHUNK_TO_MEM c)) r Φ.
Proof.
  iIntros (Ec [Hk Hkm] Hks Hn Hnk -> Hus [Hi Hbrk]) "H (%Hp & (%Hlim & %Hs & %Hsm & %Hpm) & Hw) K".
  remember (Z.to_nat ((k - 8) / 4)) as j eqn:Ej0. assert (j ≤ length ws)%nat as Hj by (rewrite /Zlength in Hlim; divmod).
  rewrite -{1}(take_drop j ws) cells_app. iDestruct "Hw" as "[Hw Hd]".
  assert (c + 8 + 4 * Zlength (take j ws) = c + k) as Ej by (rewrite /Zlength length_take Nat.min_l; [| done]; divmod).
  iAssert (raw (c + k) (c + s)) with "[Hd]" as "Hd".
  { rewrite raw_cells Ej. iExists (drop j ws). iFrame. iPureIntro. rewrite /Zlength length_drop. rewrite /Zlength in Hlim. divmod. }
  iApply wp_bind. iApply (wp_trim with "H Hd"); [done | done | done | done |].
  iIntros (cs s' r' (Hks' & Hsm' & Hu & E1 & _ & E2)) "H Hd". iApply wp_ret. rewrite raw_cells. iDestruct "Hd" as (ws2) "[%Hl2 Hd]".
  iApply ("K" $! s' (take j ws ++ ws2) with "[] [H] [Hw Hd]").
  - iPureIntro. rewrite Zlength_app. split; [pose proof (Zlength_nonneg ws2); lia |]. intros i Hi1 Hi2.
    rewrite lookup_app_l; [| rewrite length_take; divmod]. apply lookup_take_lt. divmod.
  - iExists (useds h cs). iSplit; [by rewrite Hu -Permutation_middle Hus |]. iRight. iSplit; [iPureIntro; split; [congruence | lia] |].
    iExists h, cs. by iFrame.
  - rewrite /owned cells_app Ej Zlength_app. iFrame. iPureIntro. split; [done |]. split_and!; [lia | lia | done | done].
Qed.

Lemma wp_realloc_chunk r xs p s ws n Φ :
  0 ≤ n < 2 ^ 32 → too_long n r = false → allocP r ((p - 8, s) :: xs) -∗ owned p (Some s) ws -∗
  (∀ s' ws' r', allocP r' (((p - 8)%Z, s') :: xs) -∗ owned p (Some s') (ws ++ ws') -∗ Φ 0 r') ∧
  (∀ p' o ws' r', ⌜n ≤ 4 * Zlength ws' ∧ kept n ws ws' ∧ (o = None → 114680 < n)⌝ -∗ allocP r' (us_of p' o ++ xs) -∗ owned p' o ws' -∗
     Φ p' r') -∗
  wp (realloc area bins p n) r Φ.
Proof.
  iIntros (Hn Hok) "H Hw K". iDestruct "Hw" as "(%Hp & (%Hlim & %Hs & %Hsm & %Hpm) & Hw)". rewrite /realloc.
  rewrite (proj2 (Z.eqb_neq p 0)); [| lia]. remember (p - 8) as c eqn:Ec. assert (p = c + 8) as -> by lia. clear Ec.
  destruct (adjust_size_spec n Hn) as [[-> _] | (k & Ek & Hn' & Hk & Hkm & Hnk & Hiff)]; [| rewrite Ek].
  { iApply wp_ret. iDestruct "K" as "[K _]". iApply ("K" $! s [] r with "H"). rewrite /owned app_nil_r.
    iFrame. iPureIntro. split_and!; [done | lia | done..]. }
  iDestruct (allocP_chunk with "H") as (h p q (Ec & Hi & Hbrk & Hx)) "H". rewrite /MEM_TO_CHUNK /OVERHEAD. replace (c + 8 - 8) with c by lia.
  iDestruct (heap_split bins r h p c s q Ec with "H") as "(%Ho & Hf & Hca & Hpa & Hb & Hbin & Hcore)".
  iDestruct (coreR_bounds with "Hcore") as %Hbd. pose proof Ho as [_ Hh _ [Hwp _] [Hwq _] He]. pose proof (extent_nonneg p Hwp). pose proof (extent_nonneg q Hwq).
  assert (good s) as Hg by (rewrite /good; lia). iApply wp_bind. iApply (wp_CHUNK_SIZE with "Hca"); [done |]. iIntros "Hca". wload "Hca".
  rewrite in_use_tag; [| done]. iApply wp_bind. iApply (wp_NEXT_CHUNK with "Hca"); [done |]. iIntros "Hca".
  iAssert (heapR r h (p ++ (s, true) :: q)) with "[Hf Hca Hpa Hb Hbin Hcore]" as "H"; [rewrite (heap_split bins r h p c s q Ec); by iFrame |].
  iApply (wp_widen with "H"); [done |]. iIntros (bm n1 q1 (Hsn & Hnm & Hu)) "H Hraw".
  rewrite raw_cells. iDestruct "Hraw" as (wr) "[%Hlr Hr]". set (r1 := set_binmap bm r).
  assert (useds h p ++ useds (c + n1) q1 ≡ₚ xs) as Hx' by by rewrite Hu Hx.
  iAssert (owned (c + 8) (Some n1) (ws ++ wr)) with "[Hw Hr]" as "Hw".
  { rewrite /owned cells_app Zlength_app Hlim. iFrame. iPureIntro. split_and!; [done | lia | lia | done | done]. }
  destruct (Z.leb_spec k n1) as [Hle | Hgt].
  - iApply (wp_realloc_trim r1 h p c n1 q1 _ xs (ws ++ wr) n k with "H Hw"); [done | split; [lia | done] | done | lia | lia | done | done | done |].
    iIntros (s' ws' r' [Hlen Hkept]) "H Hw". iDestruct "K" as "[_ K]". iApply ("K" $! (c + 8) (Some s') with "[] [H] Hw").
    + iPureIntro. split_and!; [done | | done]. intros i Hi1 Hi2. rewrite Hkept; [by apply lookup_app_l | done | rewrite length_app; lia].
    + rewrite /us_of. by replace (c + 8 - 8) with c by lia.
  - iAssert (allocP r1 ((c, n1) :: xs)) with "[H]" as "H".
    { iExists (useds h p ++ (c, n1) :: useds (c + n1) q1). iSplit; [iPureIntro; by rewrite -Permutation_middle Hx' |]. iRight. iSplit; [done |].
      iExists h, (p ++ (n1, true) :: q1). iFrame. by rewrite select_app /= -Ec. }
    iApply wp_bind. iApply (wp_malloc with "H"); [rewrite /OVERHEAD; lia | by apply (too_long_again n k r) |]. iSplit.
    { iIntros (r' _) "H". iApply wp_ret. iDestruct "K" as "[K _]". iApply ("K" with "H Hw"). }
    iDestruct "K" as "[_ K]". iIntros (p' o ws' r' (Hlen & _ & Hnone)) "H (%Hp' & Hh & Hw')". rewrite (proj2 (Z.eqb_neq p' 0)); [| lia].
    iDestruct "Hw" as "(_ & _ & Hw)". rewrite cells_app. iDestruct "Hw" as "[Hw Hr]".
    rewrite /memcpy_words. replace (Z.to_nat ((s - 8) / 4)) with (length ws) by (rewrite /Zlength in Hlim; divmod).
    assert (length ws ≤ length ws')%nat as Hll by (rewrite /Zlength in Hlim, Hlen; lia).
    iAssert (cells p' (take (length ws) ws' ++ drop (length ws) ws')) with "[Hw']" as "Hw'"; [by rewrite take_drop |].
    iApply wp_bind. iApply (wp_copy_words with "Hw Hw'"); [rewrite length_take; lia |]. iIntros "Hw Hw'". iApply wp_bind.
    rewrite /CHUNK_TO_MEM /OVERHEAD. iApply (wp_free_chunk r' c n1 (us_of p' o ++ xs) with "[H] [Hw Hr]").
    + iDestruct "H" as (us) "[%Hus H]". iExists us. iFrame. iPureIntro. by rewrite Hus Permutation_middle.
    + rewrite raw_cells. iExists (ws ++ wr). rewrite cells_app Zlength_app. iFrame. iPureIntro. lia.
    + iIntros (r2) "H". iApply wp_ret. iApply ("K" $! p' o (ws ++ drop (length ws) ws') with "[] H [Hh Hw']").
      * iPureIntro. rewrite Zlength_app /Zlength length_drop. rewrite /Zlength in Hlen. split_and!; [lia | |].
        -- intros i _ Hlt. by apply lookup_app_l.
        -- intros ->. rewrite /MMAP_THRESHOLD /SIZE_ALIGN in Hiff. pose proof (proj1 Hnone eq_refl). lia.
      * assert (Zlength (ws ++ drop (length ws) ws') = Zlength ws') as El by (rewrite Zlength_app /Zlength length_drop; lia).
        rewrite /owned El. by iFrame.
Qed.
(** ** Blocks with their own mapping *)

(** The words of its header. *)
Lemma mapped_header (m : gmap Z Z) p ws :
  gen_heap_interp m -∗ owned p None ws -∗ ⌜0 < p ∧ (4 * Zlength ws + 16) mod 4096 = 0 ∧ 4096 < 4 * Zlength ws + 16 < 2 ^ 32 ∧
    m !! psize (p - 8) = Some 8 ∧ m !! csize (p - 8) = Some (4 * Zlength ws + 8)%Z⌝.
Proof.
  clear area bins Hbins Harea Hareamod. iIntros "Hm (%Hp & ([%Hmod %Hlt] & H1 & H2) & _)". iDestruct (gen_heap_valid with "Hm H1") as %E1. iDestruct (gen_heap_valid with "Hm H2") as %E2.
  iPureIntro. replace (p + 4 * Zlength ws - p) with (4 * Zlength ws) in * by lia. done.
Qed.

(** SOS has no munmap. *)
Lemma free_mapped m p ws r : gen_heap_interp m -∗ owned p None ws -∗ ⌜free bins p (mk_mstate m r) = Fault AssertFail⌝.
Proof.
  clear area Harea Hareamod Hbins. iIntros "Hm H". iDestruct (mapped_header with "Hm H") as %(Hp & Hmod & Hlt & E1 & E2). iPureIntro.
  rewrite /free /MEM_TO_CHUNK /OVERHEAD (proj2 (Z.eqb_neq p 0)); [| lia]. rewrite /mbind /MM_bind /lw /= E2 even_free; [| divmod].
  by rewrite /= /free_mmapped /mbind /MM_bind /lw /= E1.
Qed.

(** What [realloc] does with such a block. *)
Lemma realloc_mapped_eq m r p n k w :
  0 < p → adjust_size n = Some k → 16 ≤ k ≤ 2 ^ 31 → m !! psize (p - 8) = Some 8 → m !! csize (p - 8) = Some w → w mod 8 = 0 → 0 ≤ w < 2 ^ 32 - 8 →
  realloc area bins p n (mk_mstate m r) =
    (new ← (if k + 8 <? 4096 then malloc area bins k else mret 0);
     if negb (new =? 0) then _ ← memcpy_words new p (k - 8); _ ← free bins p; mret new
     else if w + 8 =? map_len k then mret p else mfault AssertFail) (mk_mstate m r).
Proof.
  intros Hp Ek Hk E1 E2 Hw Hw'. rewrite /realloc (proj2 (Z.eqb_neq p 0)); [| lia]. rewrite Ek /MEM_TO_CHUNK /OVERHEAD.
  set (s := mk_mstate m r). assert (lw (csize (p - 8)) s = Ret (w, s)) as L2 by rewrite /lw /= E2 //.
  assert (lw (psize (p - 8)) s = Ret (8, s)) as L1 by rewrite /lw /= E1 //.
  assert (CHUNK_SIZE (p - 8) s = Ret (w, s)) as L3. { rewrite /CHUNK_SIZE (MM_bind_eq _ _ _ _ _ L2) size_of_even //; [divmod | lia]. }
  rewrite (MM_bind_eq _ _ _ _ _ L3) (MM_bind_eq _ _ _ _ _ L2) even_free; [| done]. cbn [negb].
  rewrite /realloc_mmapped (MM_bind_eq _ _ _ _ _ L1). change (in_use 8) with false. cbv iota zeta.
  rewrite (u32_small (k + 8)); [| lia]. rewrite (u32_small (w + 8)); [| lia]. rewrite /LIBC_PAGE_SIZE /mbind /MM_bind.
  destruct ((if k + 8 <? 4096 then malloc area bins k else mret 0) s) as [[new s'] |]; [| done].
  destruct (negb (new =? 0)); [done |]. rewrite /map_len /OVERHEAD /LIBC_PAGE_SIZE. by destruct (w + 8 =? _).
Qed.

(** The mapping is as long as before. *)
Lemma wp_realloc_mapped r p ws n k Φ :
  0 ≤ n < 2 ^ 32 → adjust_size n = Some k → map_len k = 4 * Zlength ws + 16 → owned p None ws -∗
  (⌜n ≤ 4 * Zlength ws⌝ -∗ owned p None ws -∗ Φ p r) -∗ wp (realloc area bins p n) r Φ.
Proof.
  iIntros (Hn Ek Hlen) "H K %m Hm". iDestruct (mapped_header with "Hm H") as %(Hp & Hmod & Hlt & E1 & E2).
  destruct (adjust_size_spec n Hn) as [[E _] | (k' & E & Hn' & Hk & _ & Hnk & _)]; rewrite Ek in E; [done |]. injection E as <-.
  destruct (map_len_spec k) as [Hml _]; [lia |]. iModIntro. iExists p, m, r. iFrame "Hm". iSplit; [iPureIntro; split; [| by intros a] |].
  - rewrite (realloc_mapped_eq m r p n k (4 * Zlength ws + 8)); [| done | done | lia | done | done | divmod | lia].
    destruct (Z.ltb_spec (k + 8) 4096); [divmod |]. rewrite /mbind /MM_bind /=. by rewrite (proj2 (Z.eqb_eq _ (map_len k))); [| lia].
  - iApply ("K" with "[] H"). iPureIntro. lia.
Qed.

(** Another length needs mremap, or munmap. *)
Lemma realloc_mapped_stops m r xs p ws n k :
  0 ≤ n < 2 ^ 32 → adjust_size n = Some k → map_len k ≠ 4 * Zlength ws + 16 →
  gen_heap_interp m -∗ allocP r xs -∗ owned p None ws -∗ ⌜realloc area bins p n (mk_mstate m r) = Fault AssertFail⌝.
Proof.
  iIntros (Hn Ek Hlen) "Hm H Hw". iDestruct (mapped_header with "Hm Hw") as %(Hp & Hmod & Hlt & E1 & E2).
  destruct (adjust_size_spec n Hn) as [[E _] | (k' & E & Hn' & Hk & Hkm & Hnk & _)]; rewrite Ek in E; [done |]. injection E as <-.
  rewrite (realloc_mapped_eq m r p n k (4 * Zlength ws + 8)); [| done | done | lia | done | done | divmod | lia].
  assert ((4 * Zlength ws + 8 + 8 =? map_len k) = false) as -> by (apply Z.eqb_neq; lia).
  destruct (Z.ltb_spec (k + 8) 4096) as [Hsmall |]; [| done].
  assert (too_long k r = false) as Hok.
  { rewrite /too_long. destruct (adjust_size_spec k) as [[-> _] | (k2 & -> & _ & _ & _ & ? & _)]; [lia | done |].
    destruct (Z.ltb_spec MMAP_THRESHOLD k2) as [Hgt |]; [| done]. rewrite /MMAP_THRESHOLD /SIZE_ALIGN in Hgt. lia. }
  iAssert (wp (malloc area bins k) r (λ q _, ⌜q = 0⌝ ∨ ∃ o ws', ⌜k ≤ 4 * Zlength ws' ∧ 0 < q⌝ ∗ owned q o ws'))%I with "[H]" as "Hwp".
  { iApply (wp_malloc with "H"); [lia | done |]. iSplit; [iIntros (r' _) "_"; by iLeft |].
    iIntros (q o ws' r' (Hl & _)) "_ H". iRight. iExists o, ws'. iAssert (⌜0 < q⌝)%I as %?; [by iDestruct "H" as "[% _]" |]. by iFrame. }
  iMod ("Hwp" with "Hm") as (q m1 r1 [E _]) "(Hm & Hq)". rewrite /mbind /MM_bind E. iDestruct "Hq" as "[-> | (%o & %ws' & [%Hl %Hq] & _ & _ & Hq)]"; [done |].
  rewrite (proj2 (Z.eqb_neq q 0)); [| lia]. cbn [negb]. iDestruct "Hw" as "(%Hp' & Hh & Hw)".
  set (j := Z.to_nat ((k - 8) / 4)). assert (j ≤ length ws ∧ j ≤ length ws')%nat as [Hj1 Hj2] by (rewrite /j; rewrite /Zlength in Hlt, Hl; divmod).
  iAssert (cells p (take j ws ++ drop j ws)) with "[Hw]" as "Hw"; [by rewrite take_drop |]. rewrite cells_app. iDestruct "Hw" as "[Hw1 Hw2]".
  iAssert (cells q (take j ws' ++ drop j ws')) with "[Hq]" as "Hq"; [by rewrite take_drop |].
  iAssert (wp (memcpy_words q p (k - 8)) r1 (λ _ _, owned p None ws)) with "[Hh Hw1 Hw2 Hq]" as "Hwp".
  { rewrite /memcpy_words. replace (Z.to_nat ((k - 8) / 4)) with (length (take j ws)) by (rewrite length_take; lia).
    iApply (wp_copy_words with "Hw1 Hq"); [rewrite !length_take; lia |]. iIntros "Hw1 _". iSplit; [done |]. iFrame "Hh".
    iAssert (cells p (take j ws ++ drop j ws)) with "[Hw1 Hw2]" as "H"; [rewrite cells_app; iFrame |]. by rewrite take_drop. }
  iMod ("Hwp" with "Hm") as ([] m2 r2 [E3 _]) "[Hm Hw]". rewrite E3. iDestruct (free_mapped _ _ _ r2 with "Hm Hw") as %->. done.
Qed.
End spec.
