(* ===== verification/MallocProg.v ===== *)
(** Programs that use the allocator: every sequence of malloc, calloc, realloc, free and
    writes to the blocks. *)

From iris.proofmode Require Import proofmode.
From iris.base_logic.lib Require Import gen_heap.
From S2P Require Import Prelude Qsort Morecore Malloc MallocHeap MallocLogic MallocFree MallocInv MallocSpec.

(** * Programs *)

(** A block with the size that was asked for, and the words that the program expects in it. *)
Record block : Type := mk_block {
  b_addr : Z;
  b_size : Z;
  b_words : list Z
}.

Inductive op : Type :=
  | OMalloc (n : Z)
  | OCalloc (m n : Z)
  | ORealloc (k : nat) (n : Z)
  | OFree (k : nat)
  | OWrite (k i : nat) (v : Z).

Definition nwords (n : Z) : nat := Z.to_nat ((n + 3) / 4).

Section programs.
Context (area bins : Z).

Fixpoint read_words (a : Z) (n : nat) : MM (list Z) :=
  match n with
  | O => mret []
  | S n => w ← lw a; ws ← read_words (a + 4) n; mret (w :: ws)
  end.

Definition exec_malloc (n : Z) (bs : list block) : MM (list block) :=
  p ← malloc area bins n;
  if p =? 0 then mret bs else ws ← read_words p (nwords n); mret (mk_block p n ws :: bs).

Definition exec_calloc (m n : Z) (bs : list block) : MM (list block) :=
  p ← calloc area bins m n;
  if p =? 0 then mret bs else mret (mk_block p (n * m) (replicate (nwords (n * m)) 0) :: bs).

Definition exec_realloc (k : nat) (b : block) (n : Z) (bs : list block) : MM (list block) :=
  p ← realloc area bins (b_addr b) n;
  if p =? 0 then mret bs else
  ws ← read_words p (nwords n);
  mret (<[k := mk_block p n (take (nwords n) (b_words b) ++ drop (length (take (nwords n) (b_words b))) ws)]> bs).

(** One operation; the sizes are of type [size_t].  A write changes one word of its block
    and calloc gives zeros; nothing else changes what the program expects in a block.  An
    operation on a block that the program does not have is none. *)
Definition exec (o : op) (bs : list block) : MM (list block) :=
  match o with
  | OMalloc n => exec_malloc (u32 n) bs
  | OCalloc m n => exec_calloc (u32 m) (u32 n) bs
  | ORealloc k n => match bs !! k with Some b => exec_realloc k b (u32 n) bs | None => mret bs end
  | OFree k => match bs !! k with Some b => _ ← free bins (b_addr b); mret (delete k bs) | None => mret bs end
  | OWrite k i v =>
      match bs !! k with
      | Some b =>
          if decide (i < length (b_words b))%nat then
            _ ← sw (b_addr b + 4 * Z.of_nat i) (u32 v);
            mret (<[k := mk_block (b_addr b) (b_size b) (<[i := u32 v]> (b_words b))]> bs)
          else mret bs
      | None => mret bs
      end
  end.

Fixpoint run (os : list op) (bs : list block) : MM (list block) :=
  match os with
  | [] => mret bs
  | o :: os => bs ← exec o bs; run os bs
  end.
End programs.

(** The length of the block's own mapping, which its header tells. *)
Definition mapping (m : gmap Z Z) (b : block) : option Z :=
  match m !! csize (MEM_TO_CHUNK (b_addr b)), m !! psize (MEM_TO_CHUNK (b_addr b)) with
  | Some w, Some x => if in_use w then None else Some (u32 (w + x))
  | _, _ => None
  end.

(** The operation gives a mapping back, or changes its length. *)
Definition unmaps (o : op) (bs : list block) (s : mstate) : bool :=
  match o with
  | OFree k => match bs !! k ≫= mapping (ms_mem s) with Some _ => true | None => false end
  | ORealloc k n =>
      match bs !! k ≫= mapping (ms_mem s), adjust_size (u32 n) with
      | Some len, Some c => negb (len =? map_len c)
      | _, _ => false
      end
  | _ => false
  end.

(** The operation asks for a mapping that is longer than the address of the top pointer. *)
Definition wraps (o : op) (bs : list block) (s : mstate) : bool :=
  match o with
  | OMalloc n => too_long (u32 n) (ms_regs s)
  | OCalloc m n => (u32 n * u32 m <? 2 ^ 32) && too_long (u32 n * u32 m) (ms_regs s)
  | ORealloc k n =>
      match bs !! k with
      | Some b => match mapping (ms_mem s) b with Some _ => false | None => too_long (u32 n) (ms_regs s) end
      | None => false
      end
  | _ => false
  end.

(** What the program sees of a block: it is aligned, unless it has its own mapping, has the
    size that was asked for, and holds what the program expects. *)
Record block_ok (m : gmap Z Z) (b : block) : Prop := {
  bk_addr : 0 < b_addr b;
  bk_align : mapping m b = None → b_addr b mod 16 = 0;
  bk_size : 0 ≤ b_size b ≤ 4 * Zlength (b_words b);
  bk_words : ∀ i w, b_words b !! i = Some w → m !! (b_addr b + 4 * Z.of_nat i) = Some w
}.

(** No word belongs to two blocks. *)
Definition blocks_apart (bs : list block) : Prop :=
  ∀ i j b c k l, i ≠ j → bs !! i = Some b → bs !! j = Some c → (k < length (b_words b))%nat → (l < length (b_words c))%nat →
    b_addr b + 4 * Z.of_nat k ≠ b_addr c + 4 * Z.of_nat l.

(** What is left of the area between the heap and the mappings. *)
Definition area_left (s : mstate) : Z := mc_top (mal_core (ms_regs s)) - mc_base (mal_core (ms_regs s)).

(** * The invariant *)

(** The words that [realloc] keeps. *)
Lemma realloc_words n ws ws' :
  kept n ws ws' → (nwords n ≤ length ws')%nat → 0 ≤ n →
  take (nwords n) ws ++ drop (length (take (nwords n) ws)) (take (nwords n) ws') = take (nwords n) ws'.
Proof.
  intros Hk Hl Hn. rewrite -{2}(take_drop (length (take (nwords n) ws)) (take (nwords n) ws')). f_equal.
  rewrite length_take. apply list_eq. intros i. destruct (decide (i < nwords n `min` length ws)%nat) as [Hi | Hi].
  - rewrite lookup_take_lt; [| lia]. rewrite !lookup_take_lt; [| lia..]. symmetry. apply Hk; [| lia]. rewrite /nwords in Hi. divmod.
  - rewrite !lookup_ge_None_2 // ?length_take; lia.
Qed.

Lemma kept_app n ws rest ws' : kept n (ws ++ rest) ws' → kept n ws ws'.
Proof. intros Hk i H1 H2. rewrite Hk; [by apply lookup_app_l | done |]. rewrite length_app. lia. Qed.

Section inv.
Context `{!gen_heapGS Z Z Σ} (area bins : Z) (Hbins : 0 < bins).
Context (Harea : 0 < area < 2 ^ 32 - 8256) (Hareamod : area mod 4 = 0).

Local Notation allocP := (allocP area bins).

(** A block of the program; what the chunk has beyond the request is not used. *)
Definition blockR (b : block) (o : option Z) : iProp Σ :=
  ∃ rest, ⌜0 ≤ b_size b ∧ length (b_words b) = nwords (b_size b)⌝ ∗ owned (b_addr b) o (b_words b ++ rest).

Definition heap_chunks (xs : list (block * option Z)) : list (Z * Z) := xs ≫= λ x, us_of (b_addr x.1) x.2.

Definition progR (r : regs) (bs : list block) : iProp Σ :=
  ∃ xs, ⌜xs.*1 = bs⌝ ∗ allocP r (heap_chunks xs) ∗ [∗ list] x ∈ xs, blockR x.1 x.2.

Lemma wp_read_words a ws k r Φ : length ws = k → cells a ws -∗ (cells a ws -∗ Φ ws r) -∗ wp (read_words a k) r Φ.
Proof.
  intros <-. revert a Φ. induction ws as [|w ws IH]; iIntros (a Φ) "H K"; cbn [length read_words cells]; [by iApply wp_ret; iApply "K" |].
  iDestruct "H" as "[Hw H]". wload "Hw". iApply wp_bind. iApply (IH with "H"). iIntros "H". iApply wp_ret. iApply "K". iFrame.
Qed.

(** The words of a new block. *)
Lemma wp_read_block p n ws r Φ :
  0 ≤ n → n ≤ 4 * Zlength ws → cells p ws -∗ (cells p ws -∗ Φ (take (nwords n) ws) r) -∗ wp (read_words p (nwords n)) r Φ.
Proof.
  iIntros (Hn Hlen) "H K". assert (nwords n ≤ length ws)%nat as Hle by (rewrite /nwords; rewrite /Zlength in Hlen; divmod).
  iAssert (cells p (take (nwords n) ws ++ drop (nwords n) ws)) with "[H]" as "H"; [by rewrite take_drop |].
  rewrite cells_app. iDestruct "H" as "[H1 H2]". assert (length (take (nwords n) ws) = nwords n) as El by (rewrite length_take; lia).
  iApply (wp_read_words with "H1"); [done |]. iIntros "H1". iApply "K".
  iAssert (cells p (take (nwords n) ws ++ drop (nwords n) ws)) with "[H1 H2]" as "H"; [rewrite cells_app; iFrame |]. by rewrite take_drop.
Qed.

Lemma allocP_perm r xs ys : xs ≡ₚ ys → allocP r xs ⊢ allocP r ys.
Proof. iIntros (Hp) "(%us & %Hus & H)". iExists us. iFrame. iPureIntro. by rewrite Hus. Qed.

Lemma heap_chunks_app x1 x2 : heap_chunks (x1 ++ x2) = heap_chunks x1 ++ heap_chunks x2.
Proof. apply bind_app. Qed.

(** One block of the program and the others. *)
Lemma prog_split r k bs b :
  bs !! k = Some b → progR r bs ⊢ ∃ o ys, allocP r (us_of (b_addr b) o ++ ys) ∗ blockR b o ∗
    ((∀ r' b' o', allocP r' (us_of (b_addr b') o' ++ ys) -∗ blockR b' o' -∗ progR r' (<[k := b']> bs)) ∧
     (∀ r', allocP r' ys -∗ progR r' (delete k bs))).
Proof.
  iIntros (Hk) "(%xs & <- & H & Hb)". rewrite list_lookup_fmap in Hk. destruct (xs !! k) as [[b' o] |] eqn:Ek; [| done]. injection Hk as ->.
  pose proof (take_drop_middle xs k (b, o) Ek) as Exs. remember (take k xs) as x1 eqn:E1. remember (drop (S k) xs) as x2 eqn:E2.
  assert (length x1 = k) as El by (rewrite E1 length_take; apply lookup_lt_Some in Ek; lia). rewrite -Exs. clear Exs E1 E2 Ek xs. subst k.
  iExists o, (heap_chunks (x1 ++ x2)). iDestruct (big_sepL_app with "Hb") as "(H1 & $ & H2)". iSplitL "H"; [| iSplit].
  - iApply (allocP_perm with "H"). rewrite !heap_chunks_app /heap_chunks bind_cons /=. solve_Permutation.
  - iIntros (r' b' o') "H Hb". iExists (x1 ++ (b', o') :: x2). iSplit; [| iSplitL "H"].
    + iPureIntro. rewrite !fmap_app insert_app_r_alt length_fmap // Nat.sub_diag //.
    + iApply (allocP_perm with "H"). rewrite !heap_chunks_app /heap_chunks bind_cons /=. solve_Permutation.
    + iApply big_sepL_app. iFrame.
  - iIntros (r') "H". iExists (x1 ++ x2). iFrame "H". iSplit; [| iApply big_sepL_app; iFrame].
    iPureIntro. rewrite !fmap_app. cbn. rewrite -(length_fmap fst x1). symmetry. apply delete_middle.
Qed.

(** A block that the program gets. *)
Lemma prog_new r bs xs p o n ws :
  0 ≤ n → n ≤ 4 * Zlength ws → xs.*1 = bs →
  allocP r (us_of p o ++ heap_chunks xs) -∗ owned p o ws -∗ ([∗ list] x ∈ xs, blockR x.1 x.2) -∗
  progR r (mk_block p n (take (nwords n) ws) :: bs).
Proof.
  iIntros (Hn Hlen <-) "H Hw Hb". iExists ((mk_block p n (take (nwords n) ws), o) :: xs). iSplit; [done |].
  rewrite /heap_chunks bind_cons /=. iFrame "H Hb". iExists (drop (nwords n) ws). rewrite /= take_drop. iFrame. iPureIntro.
  split; [done |]. rewrite length_take. rewrite /nwords. rewrite /Zlength in Hlen. divmod.
Qed.

(** ** Mappings *)

Definition mapped (m : gmap Z Z) (b : block) (o : option Z) (ws : list Z) : Prop :=
  mapping m b = match o with Some _ => None | None => Some (4 * Zlength ws + 16) end.

(** The header tells whether the block has its own mapping. *)
Lemma header_mapping m r b o ws ys :
  gen_heap_interp m -∗ allocP r (us_of (b_addr b) o ++ ys) -∗ owned (b_addr b) o ws -∗ ⌜mapped m b o ws⌝.
Proof.
  iIntros "Hm H Hw". rewrite /mapped /mapping /MEM_TO_CHUNK /OVERHEAD. destruct o as [s |].
  - iAssert (⌜s mod 16 = 0⌝)%I as %Hs; [by iDestruct "Hw" as "(_ & (_ & _ & % & _) & _)" |].
    iDestruct (allocP_csize with "H") as "[Hc _]". iDestruct (gen_heap_valid with "Hm Hc") as %->. iPureIntro.
    rewrite in_use_tag; [| done]. by destruct (m !! psize _).
  - iDestruct (mapped_header with "Hm Hw") as %(Hp & Hmod & Hlt & E1 & E2). iPureIntro. rewrite E1 E2 even_free; [| divmod].
    rewrite u32_small; [f_equal; lia | lia].
Qed.

(** ** The operations *)

Lemma wp_exec_malloc n bs r :
  0 ≤ n < 2 ^ 32 → too_long n r = false → progR r bs -∗ wp (exec_malloc area bins n bs) r (λ bs' r', progR r' bs').
Proof.
  iIntros (Hn Hok) "H". iDestruct "H" as (xs) "(%Hx & H & Hb)".
  iApply wp_bind. iApply (wp_malloc with "H"); [done | done | done | done | done |]. iSplit.
  { iIntros (r' _) "H". iApply wp_ret. iExists xs. by iFrame. }
  iIntros (p o ws r' (Hlen & _ & Ho)) "H (%Hp & Hh & Hw)". rewrite (proj2 (Z.eqb_neq p 0)); [| lia].
  iApply wp_bind. iApply (wp_read_block with "Hw"); [lia | done |]. iIntros "Hw". iApply wp_ret.
  iApply (prog_new with "H [Hh Hw] Hb"); [lia | done | done |]. by iFrame.
Qed.

Lemma wp_exec_calloc m n bs r :
  0 ≤ m < 2 ^ 32 → 0 ≤ n < 2 ^ 32 → (n * m < 2 ^ 32 → too_long (n * m) r = false) →
  progR r bs -∗ wp (exec_calloc area bins m n bs) r (λ bs' r', progR r' bs').
Proof.
  iIntros (Hm Hn Hok) "H". iDestruct "H" as (xs) "(%Hx & H & Hb)".
  iApply wp_bind. iApply (wp_calloc with "H"); [done | done | done | done | done | done |]. iSplit.
  { iIntros (r') "H". iApply wp_ret. iExists xs. by iFrame. }
  iIntros (p o ws r' (Hlen & Hz & Ho)) "H Hw". iDestruct "Hw" as "[%Hp Hw]". rewrite (proj2 (Z.eqb_neq p 0)); [| lia]. iApply wp_ret.
  rewrite /nwords -Hz. iApply (prog_new with "H [Hw] Hb"); [lia | done | done | by iFrame].
Qed.

(** A block at [p'] takes the place of the block [b]. *)
Lemma prog_moved k b bs n p' o ws' r ys :
  0 ≤ n → n ≤ 4 * Zlength ws' → kept n (b_words b) ws' → allocP r (us_of p' o ++ ys) -∗ owned p' o ws' -∗
  (∀ r' b' o', allocP r' (us_of (b_addr b') o' ++ ys) -∗ blockR b' o' -∗ progR r' (<[k := b']> bs)) -∗
  wp (ws ← read_words p' (nwords n);
      mret (<[k := mk_block p' n (take (nwords n) (b_words b) ++ drop (length (take (nwords n) (b_words b))) ws)]> bs)) r (λ bs' r', progR r' bs').
Proof.
  iIntros (Hn Hlen Hkept) "H (%Hp & Hh & Hw) Hk". iApply wp_bind. iApply (wp_read_block with "Hw"); [lia | done |]. iIntros "Hw". iApply wp_ret.
  iApply ("Hk" $! r (mk_block p' n _) o with "H"). iExists (drop (nwords n) ws'). cbn [b_words b_size b_addr].
  rewrite realloc_words; [| done | rewrite /nwords; rewrite /Zlength in Hlen; divmod | lia].
  rewrite take_drop. iFrame. iPureIntro. split; [| done]. split; [lia |]. rewrite length_take /nwords. rewrite /Zlength in Hlen. divmod.
Qed.

Lemma exec_realloc_step m k b n bs r :
  bs !! k = Some b → 0 ≤ n < 2 ^ 32 → (mapping m b = None → too_long n r = false) →
  (∀ len c, mapping m b = Some len → adjust_size n = Some c → len = map_len c) →
  gen_heap_interp m -∗ progR r bs -∗ gen_heap_interp m ∗ wp (exec_realloc area bins k b n bs) r (λ bs' r', progR r' bs').
Proof.
  iIntros (Ek Hn Hok Hsame) "Hm H". iDestruct (prog_split with "H") as (o ys) "(H & (%rest & (%Hsz & %Hlw) & Hw) & Hk)"; [exact Ek |].
  iDestruct (header_mapping with "Hm H Hw") as %Hmap. iFrame "Hm". iApply wp_bind. destruct o as [s |].
  - iApply (wp_realloc_chunk with "H Hw"); [done.. | by apply Hok |]. iSplit.
    + iIntros (s' ws' r') "H Hw". iApply wp_ret. iDestruct "Hk" as "[Hk _]". rewrite -{2}(list_insert_id bs k b Ek).
      iApply ("Hk" $! r' b (Some s') with "H"). iExists (rest ++ ws'). rewrite -app_assoc. iFrame. iPureIntro. done.
    + iIntros (p' o ws' r' (Hlen & Hkept & _)) "H Hw". iAssert (⌜0 < p'⌝)%I as %Hp; [by iDestruct "Hw" as "[% _]" |].
      rewrite (proj2 (Z.eqb_neq p' 0)); [| lia]. iDestruct "Hk" as "[Hk _]".
      iApply (prog_moved with "H Hw Hk"); [lia | done | by eapply kept_app].
  - iAssert (⌜0 < b_addr b⌝)%I as %Hp; [by iDestruct "Hw" as "[% _]" |]. destruct (adjust_size n) as [c |] eqn:Ec.
    + iApply (wp_realloc_mapped with "Hw"); [done.. | symmetry; by apply Hsame |]. iIntros (Hlen) "Hw". rewrite (proj2 (Z.eqb_neq _ 0)); [| lia].
      iDestruct "Hk" as "[Hk _]". iApply (prog_moved with "H Hw Hk"); [lia | done |]. apply (kept_app _ _ rest). by intros i.
    + rewrite /realloc (proj2 (Z.eqb_neq _ 0)); [| lia]. rewrite Ec. iApply wp_ret. iApply wp_ret. iDestruct "Hk" as "[Hk _]".
      rewrite -{2}(list_insert_id bs k b Ek). iApply ("Hk" $! r b None with "H"). iExists rest. by iFrame.
Qed.

Lemma exec_free_step m k b bs r :
  bs !! k = Some b → mapping m b = None → gen_heap_interp m -∗ progR r bs -∗
  gen_heap_interp m ∗ wp (_ ← free bins (b_addr b); mret (delete k bs)) r (λ bs' r', progR r' bs').
Proof.
  iIntros (Ek Hnone) "Hm H". iDestruct (prog_split with "H") as (o ys) "(H & (%rest & (%Hsz & %Hlw) & Hw) & Hk)"; [exact Ek |].
  iDestruct (header_mapping with "Hm H Hw") as %Hmap. rewrite /mapped Hnone in Hmap. iFrame "Hm". destruct o as [s |]; [| done].
  iDestruct "Hw" as "(%Hp & (%Hlim & %Hs & %Hsm & %Hpm) & Hw)". iApply wp_bind.
  cbn [us_of app]. remember (b_addr b - 8) as c eqn:Ec. replace (b_addr b) with (c + 8) in * by lia.
  iApply (wp_free_chunk with "H [Hw]"); [done.. | |].
  - rewrite raw_cells. iExists (b_words b ++ rest). iFrame. iPureIntro. lia.
  - iIntros (r') "H". iApply wp_ret. iDestruct "Hk" as "[_ Hk]". by iApply "Hk".
Qed.

Lemma cells_insert a ws i v :
  (i < length ws)%nat → cells a ws ⊢ ∃ w, (a + 4 * Z.of_nat i)%Z ↦ w ∗ ((a + 4 * Z.of_nat i)%Z ↦ v -∗ cells a (<[i := v]> ws)).
Proof.
  iIntros (Hi) "H". destruct (lookup_lt_is_Some_2 ws i Hi) as [w Ew]. assert (Zlength (take i ws) = Z.of_nat i) as El by (rewrite /Zlength length_take; lia).
  iAssert (cells a (take i ws ++ w :: drop (S i) ws)) with "[H]" as "H"; [by rewrite take_drop_middle |].
  rewrite (insert_take_drop ws i v Hi) cells_app El. iDestruct "H" as "(H0 & H1 & H2)". iExists w. iFrame "H1". iIntros "H1".
  rewrite cells_app El. iFrame.
Qed.

Lemma wp_exec_write k i v bs r : progR r bs -∗ wp (exec area bins (OWrite k i v) bs) r (λ bs' r', progR r' bs').
Proof.
  iIntros "H". cbn [exec]. destruct (bs !! k) as [b |] eqn:Ek; [| by iApply wp_ret].
  destruct (decide _) as [Hi |]; [| by iApply wp_ret].
  iDestruct (prog_split with "H") as (o ys) "(H & (%rest & (%Hsz & %Hlw) & %Hp & Hh & Hw) & Hk)"; [exact Ek |].
  iDestruct (cells_insert _ _ i (u32 v) with "Hw") as (w) "[Hi Hw]"; [rewrite length_app; lia |]. wstore "Hi". iApply wp_ret.
  iDestruct ("Hw" with "Hi") as "Hw". iDestruct "Hk" as "[Hk _]". iApply ("Hk" $! r (mk_block _ _ _) o with "H").
  iExists rest. cbn [b_words b_size b_addr]. rewrite insert_app_l; [| done].
  assert (Zlength (<[i:=u32 v]> (b_words b) ++ rest) = Zlength (b_words b ++ rest)) as El by rewrite !Zlength_app Zlength_insert //.
  rewrite /owned El. iFrame. iPureIntro. rewrite length_insert. done.
Qed.

(** One operation keeps the invariant. *)
Lemma exec_step o bs m r :
  unmaps o bs (mk_mstate m r) = false → wraps o bs (mk_mstate m r) = false →
  gen_heap_interp m -∗ progR r bs -∗ gen_heap_interp m ∗ wp (exec area bins o bs) r (λ bs' r', progR r' bs').
Proof.
  iIntros (Hu Hw) "Hm H". destruct o as [n | n1 n | k n | k | k i v]; cbn [exec unmaps wraps ms_mem ms_regs] in *.
  - iFrame "Hm". iApply (wp_exec_malloc with "H"); [apply u32_range | done].
  - iFrame "Hm". iApply (wp_exec_calloc with "H"); [apply u32_range | apply u32_range |]. intros Hlt. apply Z.ltb_lt in Hlt. by rewrite Hlt in Hw.
  - destruct (bs !! k) as [b |] eqn:Ek; [| iFrame "Hm"; by iApply wp_ret]. cbn [mbind option_bind] in Hu.
    iApply (exec_realloc_step with "Hm H"); [done | apply u32_range | by intros E; rewrite E in Hw |].
    intros len c E Ec. rewrite E Ec in Hu. apply negb_false_iff, Z.eqb_eq in Hu. done.
  - destruct (bs !! k) as [b |] eqn:Ek; [| iFrame "Hm"; by iApply wp_ret]. cbn [mbind option_bind] in Hu.
    iApply (exec_free_step with "Hm H"); [done |]. by destruct (mapping m b).
  - iFrame "Hm". iApply (wp_exec_write with "H").
Qed.

(** An operation that gives a mapping back stops the program. *)
Lemma exec_unmaps o bs m r :
  unmaps o bs (mk_mstate m r) = true → gen_heap_interp m -∗ progR r bs -∗ ⌜exec area bins o bs (mk_mstate m r) = Fault AssertFail⌝.
Proof.
  iIntros (Hu) "Hm H". destruct o as [n | n1 n | k n | k | k i v]; cbn [exec unmaps ms_mem] in *; try done;
    (destruct (bs !! k) as [b |] eqn:Ek; [| done]); cbn [mbind option_bind] in Hu;
    (iDestruct (prog_split with "H") as (o ys) "(H & (%rest & _ & Hw) & _)"; [exact Ek |]);
    iDestruct (header_mapping with "Hm H Hw") as %Hmap; rewrite /mapped in Hmap; rewrite Hmap in Hu; (destruct o as [s |]; [done |]).
  - destruct (adjust_size (u32 n)) as [c |] eqn:Ec; [| done]. apply negb_true_iff, Z.eqb_neq in Hu.
    iDestruct (realloc_mapped_stops with "Hm H Hw") as %E; [done | done | done | apply u32_range | exact Ec | done |].
    iPureIntro. by rewrite /exec_realloc /mbind /MM_bind E.
  - iDestruct (free_mapped bins _ _ _ r with "Hm Hw") as %E. iPureIntro. by rewrite /mbind /MM_bind E.
Qed.

(** A program runs up to an operation that gives a mapping back or asks for too long a
    one. *)
Lemma prog_run os bs m r :
  gen_heap_interp m -∗ progR r bs ==∗ ∃ os1 os2 bs' m' r',
    ⌜os = os1 ++ os2 ∧ run area bins os1 bs (mk_mstate m r) = Ret (bs', mk_mstate m' r') ∧ no_more m m' ∧
     (∀ o, head os2 = Some o → unmaps o bs' (mk_mstate m' r') = true ∨ wraps o bs' (mk_mstate m' r') = true)⌝ ∗
    gen_heap_interp m' ∗ progR r' bs'.
Proof.
  revert bs m r. induction os as [|o os IH]; iIntros (bs m r) "Hm H".
  { iModIntro. iExists [], [], bs, m, r. iFrame. iPureIntro. split_and!; [done | done | by intros a | done]. }
  destruct (unmaps o bs (mk_mstate m r) || wraps o bs (mk_mstate m r)) eqn:Eo.
  { iModIntro. iExists [], (o :: os), bs, m, r. iFrame. iPureIntro. split_and!; [done | done | by intros a |].
    intros o' [= <-]. by apply orb_prop. }
  apply orb_false_elim in Eo as [Hu Hw]. iDestruct (exec_step with "Hm H") as "[Hm H]"; [done | done |].
  iMod ("H" with "Hm") as (bs1 m1 r1 [E1 D1]) "[Hm H]". iMod (IH with "Hm H") as (os1 os2 bs' m' r' (-> & E & D & Hst)) "[Hm H]".
  iModIntro. iExists (o :: os1), os2, bs', m', r'. iFrame. iPureIntro. split_and!; [done | | | done].
  - cbn [run]. by rewrite (MM_bind_eq _ _ _ _ _ E1).
  - intros a Ha. by apply D1, D.
Qed.

(** ** What the invariant says *)

Lemma cells_lookup a ws i w : ws !! i = Some w → cells a ws ⊢ (a + 4 * Z.of_nat i)%Z ↦ w ∗ True.
Proof.
  iIntros (Hi) "H". assert (i < length ws)%nat as Hl by by eapply lookup_lt_Some.
  assert (Zlength (take i ws) = Z.of_nat i) as El by (rewrite /Zlength length_take; lia).
  iAssert (cells a (take i ws ++ w :: drop (S i) ws)) with "[H]" as "H"; [by rewrite take_drop_middle |].
  rewrite cells_app El. iDestruct "H" as "(_ & $ & _)".
Qed.

Lemma block_words b o i w : b_words b !! i = Some w → blockR b o ⊢ (b_addr b + 4 * Z.of_nat i)%Z ↦ w ∗ True.
Proof.
  iIntros (Hi) "(%rest & _ & _ & _ & H)". iApply (cells_lookup with "H"). by apply lookup_app_l_Some.
Qed.

Lemma blockR_ok m b o : gen_heap_interp m -∗ blockR b o -∗ ⌜block_ok m b⌝.
Proof.
  iIntros "Hm Hb". iAssert (⌜∀ i w, b_words b !! i = Some w → m !! (b_addr b + 4 * Z.of_nat i)%Z = Some w⌝)%I as %Hw.
  { iIntros (i w Hi). iDestruct (block_words with "Hb") as "[Hi _]"; [exact Hi |]. iApply (gen_heap_valid with "Hm Hi"). }
  iDestruct "Hb" as (rest) "((%Hs & %Hl) & Hb)". iAssert (⌜0 < b_addr b⌝)%I as %Hp; [by iDestruct "Hb" as "[% _]" |].
  iAssert (⌜mapping m b = None → b_addr b mod 16 = 0⌝)%I as %Ha.
  { iIntros (Hnone). destruct o as [s |]; [by iDestruct "Hb" as "(_ & (_ & _ & _ & %) & _)" |].
    iDestruct (mapped_header with "Hm Hb") as %(_ & Hmod & Hlt & E1 & E2). iPureIntro.
    rewrite /mapping /MEM_TO_CHUNK /OVERHEAD E1 E2 even_free in Hnone; [done | divmod]. }
  iPureIntro. split; [done | done | | done]. rewrite /Zlength Hl /nwords. divmod.
Qed.

Lemma progR_ok r m bs : gen_heap_interp m -∗ progR r bs -∗ ⌜Forall (block_ok m) bs ∧ blocks_apart bs⌝.
Proof.
  iIntros "Hm (%xs & <- & _ & Hb)". iSplit.
  - rewrite Forall_lookup. iIntros (i b Hi). rewrite list_lookup_fmap in Hi. destruct (xs !! i) as [[b' o] |] eqn:Ei; [| done]. injection Hi as ->.
    iDestruct (big_sepL_lookup _ _ i with "Hb") as "Hb"; [exact Ei |]. iApply (blockR_ok with "Hm Hb").
  - iIntros (i j b c k l Hij Hi Hj Hk Hl). rewrite !list_lookup_fmap in Hi, Hj. destruct (xs !! i) as [[b' o] |] eqn:Ei; [| done]. injection Hi as ->.
    destruct (xs !! j) as [[c' o'] |] eqn:Ej; [| done]. injection Hj as ->.
    rewrite (big_sepL_delete' _ _ i); [| exact Ei]. iDestruct "Hb" as "[H1 H2]". iDestruct (big_sepL_lookup _ _ j with "H2") as "H2"; [exact Ej |].
    iDestruct ("H2" with "[]") as "H2"; [iPureIntro; congruence |].
    destruct (lookup_lt_is_Some_2 _ _ Hk) as [v Hv]. destruct (lookup_lt_is_Some_2 _ _ Hl) as [w Hw].
    iDestruct (block_words with "H1") as "[H1 _]"; [exact Hv |]. iDestruct (block_words with "H2") as "[H2 _]"; [exact Hw |].
    iApply (pointsto_ne with "H1 H2").
Qed.

Lemma progR_malloc r m bs n s' :
  0 ≤ n ≤ 2 ^ 31 - 4112 → too_long n r = false → malloc area bins n (mk_mstate m r) = Ret (0, s') →
  gen_heap_interp m -∗ progR r bs -∗ ⌜area_left s' < n + 4200⌝.
Proof.
  iIntros (Hn Hok E) "Hm (%xs & _ & H & _)".
  iAssert (wp (malloc area bins n) r (λ p' r', ⌜0 < p' ∨ (n ≤ 2 ^ 31 - 4112 → short r' (n + 24))⌝)%I) with "[H]" as "Hw".
  { iApply (wp_malloc with "H"); [done | done | done | lia | done |]. iSplit; [iIntros (r' Hr) "_"; by iRight |].
    iIntros (p' o ws r' _) "_ (%Hp & _)". by iLeft. }
  iMod ("Hw" with "Hm") as (p' m' r' [E' _]) "(Hm & %Hr)". rewrite E in E'. injection E' as <- ->. iPureIntro.
  destruct Hr as [| Hr]; [lia |]. specialize (Hr (proj2 Hn)). rewrite /short in Hr. rewrite /area_left /=. lia.
Qed.

Lemma progR_core r bs : progR r bs ⊢ ⌜0 < mc_base (mal_core r) ≤ mc_top (mal_core r)⌝.
Proof. iIntros "(%xs & _ & (%us & _ & H) & _)". iDestruct (allocR_core with "H") as "([% %] & _)". iPureIntro. lia. Qed.
End inv.

(** Too long a mapping is granted: it begins near the end of the addresses, where SOS has
    no memory, or is taken for an error when it begins in the last page. *)
Lemma malloc_wraps area bins m r n :
  0 < mc_base (mal_core r) ≤ mc_top (mal_core r) → (∀ a, is_Some (m !! a) → a < 2 ^ 31) → 0 ≤ n < 2 ^ 32 → too_long n r = true →
  malloc area bins n (mk_mstate m r) = Fault OutOfBounds ∨
  ∃ s', malloc area bins n (mk_mstate m r) = Ret (0, s') ∧ 2 ^ 32 - 4096 < mc_top (mal_core (ms_regs s')).
Proof.
  intros Hc Hm Hn Hl. rewrite /too_long in Hl. rewrite /malloc.
  destruct (adjust_size_spec n Hn) as [[E _] | (k & E & Hn' & Hk & Hkm & Hnk & _)]; rewrite E in Hl |- *; [done |].
  apply andb_prop in Hl as [Hbig Htop%Z.ltb_lt]. rewrite Hbig. destruct (map_len_spec k) as [Hml Hmod]; [lia |].
  rewrite /malloc_mmap. fold (map_len k). remember (map_len k) as len eqn:El. clear El. assert (len ≤ 2 ^ 31) by divmod.
  set (top := mc_top (mal_core r)) in *. assert (u32 (top - len) = 2 ^ 32 + top - len) as Eu.
  { rewrite /u32. symmetry. apply (Z.mod_unique_pos _ _ (-1)); lia. }
  assert (libc__mmap len (Z.lor MAP_PRIVATE MAP_ANONYMOUS) (mk_mstate m r) =
    Ret (u32 (syscall_ret (2 ^ 32 + top - len)), mk_mstate m (set_core (mk_morecore (mc_base (mal_core r)) (2 ^ 32 + top - len)) r))) as Em.
  { rewrite /libc__mmap /sys_mmap2 /= Eu. by destruct (Z.ltb_spec (2 ^ 32 + top - len) (mc_base (mal_core r))); [lia |]. }
  rewrite (MM_bind_eq _ _ _ _ _ Em). destruct (Z.le_gt_cases (2 ^ 32 + top - len) (2 ^ 32 - 4096)) as [Hle | Hgt].
  - left. rewrite syscall_ret_small; [| lia]. rewrite (proj2 (Z.eqb_neq _ (2 ^ 32 - 1))); [| lia].
    rewrite /mbind /MM_bind /sw /=. destruct (m !! _) as [v |] eqn:Ev; [| done].
    specialize (Hm _ (mk_is_Some _ _ Ev)). rewrite /csize /SIZE_ALIGN /OVERHEAD in Hm. lia.
  - right. rewrite /syscall_ret (u32_small (2 ^ 32 + top - len)); [| lia]. rewrite (proj2 (Z.ltb_lt _ _)); [| lia].
    change (u32 (-1) =? 2 ^ 32 - 1) with true. eexists. split; [reflexivity |]. cbn. lia.
Qed.

(** * From the start *)

Section start.
Context `{!gen_heapGS Z Z Σ} (area bins : Z).

Lemma zero_words_lookup a n x : is_Some (zero_words a n !! x) → a ≤ x < a + 4 * Z.of_nat n.
Proof.
  revert a. induction n as [|n IH]; intros a; cbn [zero_words]; [by rewrite lookup_empty; intros [] |].
  destruct (decide (a = x)) as [-> | Hne]; [lia |]. rewrite lookup_insert_ne // => H. specialize (IH _ H). lia.
Qed.

Lemma zero_words_cells a n : ([∗ map] l ↦ v ∈ zero_words a n, l ↦ v) ⊢ cells a (replicate n 0).
Proof.
  revert a. induction n as [|n IH]; intros a; cbn [zero_words cells replicate]; [by rewrite big_sepM_empty |].
  rewrite big_sepM_insert; [by rewrite IH |]. apply eq_None_not_Some => H. apply zero_words_lookup in H. lia.
Qed.

(** The bins are empty. *)
Lemma empty_bins i n :
  cells (BIN_TO_CHUNK bins (Z.of_nat i)) (replicate (4 * n) 0) ⊢ [∗ list] k ↦ l ∈ replicate n ([] : list Z), bin_at bins (i + k) l.
Proof.
  revert i. induction n as [|n IH]; intros i; [by iIntros |]. replace (4 * S n)%nat with (4 + 4 * n)%nat by lia.
  rewrite replicate_add cells_app. iIntros "[H Hr]". cbn [replicate big_opL]. iSplitL "H".
  - iDestruct "H" as "(_ & _ & H1 & H2 & _)". iRight. iSplit; [done |]. rewrite Nat.add_0_r /next /prev.
    replace (BIN_TO_CHUNK bins i + 4 + 4) with (BIN_TO_CHUNK bins i + 8) by lia. 
    replace (BIN_TO_CHUNK bins i + 8 + 4) with (BIN_TO_CHUNK bins i + 12) by lia. iFrame.
  - iDestruct (IH (S i) with "[Hr]") as "H".
    { replace (BIN_TO_CHUNK bins (S i)) with (BIN_TO_CHUNK bins i + 4 * Zlength (replicate 4 0)); [done |].
      change (Zlength (replicate 4 0)) with 4. rewrite /BIN_TO_CHUNK. lia. }
    iApply (big_sepL_impl with "H"). iIntros "!>" (k l _) "H". by rewrite Nat.add_succ_comm.
Qed.

Lemma start_progR size :
  0 < area → area mod 4 = 0 → size mod 4 = 0 → 0 ≤ size → area + size < 2 ^ 32 - 8192 →
  bins + 1024 ≤ area ∨ area + size ≤ bins →
  ([∗ map] l ↦ v ∈ ms_mem (malloc_start area bins size), l ↦ v) ⊢ progR area bins (ms_regs (malloc_start area bins size)) [].
Proof.
  iIntros (Ha Ham Hsm Hs Htop Hdis) "H". rewrite /malloc_start. cbn [ms_mem ms_regs]. rewrite big_sepM_union; last first.
  { apply map_disjoint_spec => x v w H1 H2. pose proof (zero_words_lookup bins 256 x ltac:(eauto)) as L1.
    pose proof (zero_words_lookup area (Z.to_nat (size / 4)) x ltac:(eauto)) as L2. divmod. }
  iDestruct "H" as "[H1 H2]". iExists []. iSplit; [done |]. iSplit; [| done]. iExists []. iSplit; [done |]. iLeft. cbn [mal_core morecore_init mc_top mc_base mal_init].
  iSplit; [iPureIntro; split_and!; [done | done | done | lia] |]. iSplitL "H2".
  - iSplit; [iPureIntro; split; [lia | divmod] |]. rewrite zero_words_cells. by replace (area + size - area) with size by lia.
  - iExists (replicate 64 []). iSplit; [iPureIntro; split_and! |].
    + split; [by rewrite length_replicate |]. intros i l [-> _]%lookup_replicate. done.
    + split; [done |]. intros i l [-> _]%lookup_replicate. by rewrite Z.bits_0.
    + constructor.
    + rewrite zero_words_cells. iDestruct (empty_bins 0 64 with "[H1]") as "H"; [| done]. rewrite /BIN_TO_CHUNK Z.add_0_r. iExact "H1".
Qed.
End start.

(** What the program can rely on, and what it cannot, in a state it has reached. *)
Record prog_ok (area bins : Z) (bs : list block) (s : mstate) : Prop := {
  pk_blocks : Forall (block_ok (ms_mem s)) bs;
  pk_apart : blocks_apart bs;
  pk_null : ∀ n s', 0 ≤ n ≤ 2 ^ 31 - 4112 → too_long n (ms_regs s) = false →
    malloc area bins n s = Ret (0, s') → area_left s' < n + 4200;
  pk_unmaps : ∀ o, unmaps o bs s = true → exec area bins o bs s = Fault AssertFail;
  pk_wraps : ∀ n, 0 ≤ n < 2 ^ 32 → too_long n (ms_regs s) = true →
    malloc area bins n s = Fault OutOfBounds ∨
    ∃ s', malloc area bins n s = Ret (0, s') ∧ 2 ^ 32 - 4096 < mc_top (mal_core (ms_regs s'))
}.

Lemma start_low area bins size a :
  size mod 4 = 0 → 0 ≤ size → area + size ≤ 2 ^ 31 → bins + 1024 ≤ 2 ^ 31 →
  is_Some (ms_mem (malloc_start area bins size) !! a) → a < 2 ^ 31.
Proof.
  intros Hsm Hs Ha Hb. rewrite /malloc_start. cbn [ms_mem]. intros [v Hv]. apply lookup_union_Some_raw in Hv as [Hv | [_ Hv]].
  - pose proof (zero_words_lookup bins 256 a ltac:(eauto)) as H. cbn in H. lia.
  - pose proof (zero_words_lookup area (Z.to_nat (size / 4)) a ltac:(eauto)) as H. divmod.
Qed.

(** [C5] The allocator of the C library on the heap of SOS.  A program does what it likes
    with malloc, calloc, realloc, free and the blocks it has, with any sizes.  The calls
    return, up to the first operation that frees or resizes a block with its own mapping,
    or asks for a mapping that is longer than the address of the top pointer; programs
    without these run to their end.  In every state that is reached the blocks are as large
    as was asked for, those of the heap at multiples of 16; no word belongs to two of them;
    and each holds what the program has written to it, or the zeros of calloc, whatever was
    allocated, moved and freed since.  malloc gives NULL only when less than the request and
    4200 bytes are left of the area.  The two operations: SOS has no munmap and no mremap,
    and stops; and too long a mapping is granted at an address without memory, which faults,
    or is taken for an error after the top pointer has been lost. *)
Theorem malloc_correct area bins size os :
  0 < bins → 0 < area → area mod 4 = 0 → size mod 4 = 0 → 64 ≤ size → area + size ≤ 2 ^ 31 → bins + 1024 ≤ 2 ^ 31 →
  bins + 1024 ≤ area ∨ area + size ≤ bins →
  ∃ os1 os2 bs s, os = os1 ++ os2 ∧ run area bins os1 [] (malloc_start area bins size) = Ret (bs, s) ∧
    prog_ok area bins bs s ∧
    (∀ o, head os2 = Some o → unmaps o bs s = true ∨ wraps o bs s = true).
Proof.
  intros Hb Ha Ham Hsm Hs Htop Hbt Hdis. apply (pure_soundness (PROP := iPropI #[gen_heapΣ Z Z])). iStartProof.
  set (st := malloc_start area bins size). iMod (gen_heap_init (ms_mem st)) as (H) "(Hm & Hp & _)".
  iDestruct (start_progR with "Hp") as "H"; [done | done | done | lia | lia | done |].
  iMod (prog_run area bins Hb ltac:(lia) Ham os with "Hm H") as (os1 os2 bs m r (Eos & E & D & Hst)) "[Hm H]".
  iExists os1, os2, bs, (mk_mstate m r). iSplit; [done |]. iSplit; [done |]. iSplit; [| done].
  iDestruct (progR_ok with "Hm H") as %[H1 H2]. iDestruct (progR_core with "H") as %Hc; [lia |].
  iAssert (⌜∀ n s', 0 ≤ n ≤ 2 ^ 31 - 4112 → too_long n r = false → malloc area bins n (mk_mstate m r) = Ret (0, s') → area_left s' < n + 4200⌝)%I as %H3.
  { iIntros (n s' Hn Hl En). iApply (progR_malloc with "Hm H"); first [done | lia]. }
  iAssert (⌜∀ o, unmaps o bs (mk_mstate m r) = true → exec area bins o bs (mk_mstate m r) = Fault AssertFail⌝)%I as %H4.
  { iIntros (o Ho). iApply (exec_unmaps with "Hm H"); first [done | lia]. }
  iPureIntro. split; [done | done | done | done |]. intros n Hn Hl. apply malloc_wraps; [done | | done | done].
  intros a Hin. apply D in Hin. by apply (start_low area bins size); [| lia | | |].
Qed.

(** A program with blocks of the heap, one of which it resizes, and a block with its own
    mapping, which it then cannot free. *)
Definition example_ops : list op :=
  [OMalloc 100; OCalloc 10 6; OWrite 0 3 7; OMalloc 200000; OMalloc 200; OFree 0; ORealloc 1 400].

(** One of the two operations comes next after [i] operations. *)
Definition example_stops (i : nat) : bool :=
  match run 0x20000 0x8000 (take i example_ops) [] (malloc_start 0x20000 0x8000 0x40000), example_ops !! i with
  | Ret (bs, s), Some o => unmaps o bs s || wraps o bs s
  | _, _ => false
  end.

Lemma example_stops_at i bs s o :
  run 0x20000 0x8000 (take i example_ops) [] (malloc_start 0x20000 0x8000 0x40000) = Ret (bs, s) →
  example_ops !! i = Some o → unmaps o bs s = true ∨ wraps o bs s = true → example_stops i = true.
Proof. rewrite /example_stops. intros -> -> H. apply orb_true_iff. exact H. Qed.

Lemma malloc_correct_witness :
  ∃ bs s, run 0x20000 0x8000 example_ops [] (malloc_start 0x20000 0x8000 0x40000) = Ret (bs, s) ∧
    Forall (block_ok (ms_mem s)) bs ∧ length bs = 3%nat ∧ exec 0x20000 0x8000 (OFree 0) bs s = Fault AssertFail.
Proof.
  destruct (malloc_correct 0x20000 0x8000 0x40000 example_ops)
    as (os1 & os2 & bs & s & Eos & E & [Hok _ _ Hun _] & Hst); [lia | lia | reflexivity | reflexivity | lia | lia | lia | left; lia |].
  assert (existsb example_stops (seq 0 7) = false) as Hno by (vm_compute; reflexivity).
  destruct os2 as [|o os2].
  - rewrite app_nil_r in Eos. rewrite <- Eos in E. exists bs, s. split; [exact E |]. split; [exact Hok |].
    pose (f := λ r : outcome (list block * mstate),
      match r with Ret (bs, s) => (length bs, unmaps (OFree 0) bs s) | Fault _ => (0%nat, false) end).
    assert (f (run 0x20000 0x8000 example_ops [] (malloc_start 0x20000 0x8000 0x40000)) = (3%nat, true)) as Hf by (vm_compute; reflexivity).
    rewrite E in Hf. injection Hf as Hl Hu. split; [exact Hl | exact (Hun (OFree 0) Hu)].
  - assert (example_stops (length os1) = true) as Hs.
    { apply (example_stops_at _ bs s o); [rewrite Eos take_app_length; exact E | rewrite Eos; by apply list_lookup_middle | by apply Hst]. }
    exfalso. apply not_true_iff_false in Hno. apply Hno, existsb_exists. exists (length os1). split; [| exact Hs].
    apply in_seq. apply (f_equal length) in Eos. rewrite length_app in Eos. cbn in Eos. cbn. lia.
Defined.

(** Freeing a large stretch asks for fresh pages at its place; [sys_mmap2] of SOS ignores
    the place and takes as many from the top of the area, where they are lost. *)
Example reclaim_leaks :
  let os := [OMalloc 60000; OMalloc 60000; OMalloc 60000; OFree 0; OFree 0; OFree 0] in
  match run 0x20000 0x8000 os [] (malloc_start 0x20000 0x8000 0x80000) with
  | Ret (bs, s) => bs = [] ∧ mc_top (mal_core (ms_regs s)) = 0xa0000 - 0x2c000
  | Fault _ => False
  end.
Proof. vm_compute. done. Qed.
