(* ===== verification/Sos.v ===== *)
(** The state of SOS and the monad its code runs in.

    SOS is one event loop.  A request that has to wait (for an NFS reply, for a
    frame to be written to the swap file, for a process to end) stores what is
    left to do in a continuation structure obtained from malloc, hands a
    function pointer and that structure's address to the code it calls, and
    returns to the loop.  The model keeps this shape.

    - A function pointer is a constructor of one of the callback types below,
      one type per C signature; calling it is [call], interpreted in Machine.v.
    - A structure obtained from malloc is an entry of the [heap], a finite map
      from addresses; reading a freed structure, or freeing one twice, is the
      fault [Dangling].
    - Frames, character buffers and page tables are bytes of [mem], so a page
      table that lives in a frame and the frame itself are the same bytes.
    - What seL4, malloc, the network and the devices answer is read from the
      environment [env], a record of functions of a counter that every such
      question advances.  Theorems hold for every environment.

    Singly linked lists that the code only extends at the head and walks
    (regions, seL4 page tables, waiters, the vnode table) are lists. *)

From S2P Require Import Prelude UtAllocator.

(** * Function pointers, one type per C signature *)

(** [void f(void* token, seL4_Word kvaddr)]. *)
Inductive frame_cb : Type :=
  | cb_sos_page_map_2_alloc_cap_pt
  | cb_sos_page_map_3
  | cb_sos_page_map_5
  | cb_as_create_pagedir_caps_allocated
  | cb_as_create_pagedir_regs_allocated
  | cb_serv_sys_write_get_kbuf.

(** [void f(void* token, int err)]. *)
Inductive err_cb : Type :=
  | cb_frame_alloc_end
  | cb_swap_out_2_init_callback
  | cb_swap_in_page_map_cb
  | cb_sos_VMFaultHandler_reply
  | cb_copyin_do_copy
  | cb_copyout_do_copy
  | cb_load_segment2
  | cb_elf_load_load_segments
  | cb_proc_create_part4
  | cb_vfs_open_3_end_create
  | cb_vfs_stat_end
  | cb_serv_proc_create_part2
  | cb_serv_proc_status_end
  | cb_serv_sys_open_copyin_cb
  | cb_serv_sys_write_do_write
  | cb_serv_sys_stat_copyin_cb
  | cb_serv_sys_stat_end
  | cb_nfs_dev_read_end
  | cb_nfs_dev_getdirent_done_copyout
  | cb_nfs_dev_stat_copyout_cb
  | cb_nfs_dev_getstat_lookup_end
  | cb_con_read_part2
  | cb_con_read_end.

(** [void f(void* token, int err, struct vnode* vn)]. *)
Inductive vnode_cb : Type :=
  | cb_swap_init_end
  | cb_file_open_end
  | cb_filetable_init_end.

(** [void f(void* token, int err, int fd)]. *)
Inductive open_cb : Type := cb_serv_sys_open_end.

(** [void f(void* token, addrspace_t* as)]. *)
Inductive as_cb : Type := cb_proc_create_part2.

(** [void f(void* token, int err, seL4_Word elf_entry)]. *)
Inductive elf_cb : Type := cb_proc_create_part3.

(** [void f(void* token, int err, pid_t pid)]. *)
Inductive proc_cb : Type := cb_serv_proc_create_end | cb_first_process_created.

(** [void f(void* token, pid_t pid)]. *)
Inductive wait_cb : Type := cb_serv_proc_wait_cb.

(** [void f(void* token, int err, size_t size, bool more_to_read)]. *)
Inductive read_cb : Type := cb_serv_sys_read_end.

(** [void f(void* token, int err, size_t size)], for writing and for
    directory entries. *)
Inductive write_cb : Type := cb_serv_sys_write_copyin.
Inductive dirent_cb : Type := cb_serv_sys_getdirent_end.

(** [void f(uint32_t id, void* data)]. *)
Inductive timer_cb : Type := cb_sleep_callback | cb_nfs_dev_timeout_handler.

(** The handlers of NFS replies. *)
Inductive rpc_read_cb : Type :=
  | cb_swap_in_nfs_read_handler
  | cb_load_segment3
  | cb_elf_load_read_elfheader_cb
  | cb_elf_load_read_progheaders_cb
  | cb_nfs_dev_read_handler.

Inductive rpc_write_cb : Type :=
  | cb_swap_out_4_nfs_write_cb
  | cb_nfs_dev_write_handler.

Inductive rpc_lookup_cb : Type :=
  | cb_nfs_dev_lookup_handler
  | cb_nfs_dev_create_handler
  | cb_elf_load_lookup_cb
  | cb_nfs_dev_getstat_lookup_cb.

(** Where the operations of a vnode point: nowhere yet, at the functions of
    console.c, or at those of nfs_dev.c. *)
Inductive ops_table : Type := ops_none | ops_console | ops_nfs.

(** * Structures *)

(** [frame_entry_t]. *)
Record frame_entry : Type := mk_fte {
  fte_status : Z;
  fte_cap : Z;
  fte_paddr : Z;
  fte_kvaddr : Z;
  fte_vaddr : Z;
  fte_as : Z;
  fte_pid : Z;
  fte_next_free : Z;
  fte_locked : bool;
  fte_noswap : bool;
  fte_referenced : bool
}.

Definition set_fte_status (v : Z) (r : frame_entry) : frame_entry :=
  mk_fte v (fte_cap r) (fte_paddr r) (fte_kvaddr r) (fte_vaddr r) (fte_as r) (fte_pid r)
    (fte_next_free r) (fte_locked r) (fte_noswap r) (fte_referenced r).

Definition set_fte_cap (v : Z) (r : frame_entry) : frame_entry :=
  mk_fte (fte_status r) v (fte_paddr r) (fte_kvaddr r) (fte_vaddr r) (fte_as r)
    (fte_pid r) (fte_next_free r) (fte_locked r) (fte_noswap r) (fte_referenced r).

Definition set_fte_paddr (v : Z) (r : frame_entry) : frame_entry :=
  mk_fte (fte_status r) (fte_cap r) v (fte_kvaddr r) (fte_vaddr r) (fte_as r) (fte_pid r)
    (fte_next_free r) (fte_locked r) (fte_noswap r) (fte_referenced r).

Definition set_fte_kvaddr (v : Z) (r : frame_entry) : frame_entry :=
  mk_fte (fte_status r) (fte_cap r) (fte_paddr r) v (fte_vaddr r) (fte_as r) (fte_pid r)
    (fte_next_free r) (fte_locked r) (fte_noswap r) (fte_referenced r).

Definition set_fte_vaddr (v : Z) (r : frame_entry) : frame_entry :=
  mk_fte (fte_status r) (fte_cap r) (fte_paddr r) (fte_kvaddr r) v (fte_as r) (fte_pid r)
    (fte_next_free r) (fte_locked r) (fte_noswap r) (fte_referenced r).

Definition set_fte_as (v : Z) (r : frame_entry) : frame_entry :=
  mk_fte (fte_status r) (fte_cap r) (fte_paddr r) (fte_kvaddr r) (fte_vaddr r) v
    (fte_pid r) (fte_next_free r) (fte_locked r) (fte_noswap r) (fte_referenced r).

Definition set_fte_pid (v : Z) (r : frame_entry) : frame_entry :=
  mk_fte (fte_status r) (fte_cap r) (fte_paddr r) (fte_kvaddr r) (fte_vaddr r)
    (fte_as r) v (fte_next_free r) (fte_locked r) (fte_noswap r) (fte_referenced r).

Definition set_fte_next_free (v : Z) (r : frame_entry) : frame_entry :=
  mk_fte (fte_status r) (fte_cap r) (fte_paddr r) (fte_kvaddr r) (fte_vaddr r) (fte_as r)
    (fte_pid r) v (fte_locked r) (fte_noswap r) (fte_referenced r).

Definition set_fte_locked (v : bool) (r : frame_entry) : frame_entry :=
  mk_fte (fte_status r) (fte_cap r) (fte_paddr r) (fte_kvaddr r) (fte_vaddr r) (fte_as r)
    (fte_pid r) (fte_next_free r) v (fte_noswap r) (fte_referenced r).

Definition set_fte_noswap (v : bool) (r : frame_entry) : frame_entry :=
  mk_fte (fte_status r) (fte_cap r) (fte_paddr r) (fte_kvaddr r) (fte_vaddr r) (fte_as r)
    (fte_pid r) (fte_next_free r) (fte_locked r) v (fte_referenced r).

Definition set_fte_referenced (v : bool) (r : frame_entry) : frame_entry :=
  mk_fte (fte_status r) (fte_cap r) (fte_paddr r) (fte_kvaddr r) (fte_vaddr r) (fte_as r)
    (fte_pid r) (fte_next_free r) (fte_locked r) (fte_noswap r) v.

(** The static variables of frametable.c. *)
Record ftab : Type := mk_ftab {
  ft : list frame_entry;
  first_free : Z;
  frame_initialised : bool;
  frametable_reserved : Z;
  victim : Z
}.

Definition set_ft (v : list frame_entry) (r : ftab) : ftab :=
  mk_ftab v (first_free r) (frame_initialised r) (frametable_reserved r) (victim r).

Definition set_first_free (v : Z) (r : ftab) : ftab :=
  mk_ftab (ft r) v (frame_initialised r) (frametable_reserved r) (victim r).

Definition set_frame_initialised (v : bool) (r : ftab) : ftab :=
  mk_ftab (ft r) (first_free r) v (frametable_reserved r) (victim r).

Definition set_frametable_reserved (v : Z) (r : ftab) : ftab :=
  mk_ftab (ft r) (first_free r) (frame_initialised r) v (victim r).

Definition set_victim (v : Z) (r : ftab) : ftab :=
  mk_ftab (ft r) (first_free r) (frame_initialised r) (frametable_reserved r) v.

(** The static variables of swap.c; [swap_fh] is the handle of the swap file. *)
Record swapst : Type := mk_swapst {
  free_slots : list Z;
  swap_fh : option Z
}.

Definition set_free_slots (v : list Z) (r : swapst) : swapst :=
  mk_swapst v (swap_fh r).

Definition set_swap_fh (v : option Z) (r : swapst) : swapst :=
  mk_swapst (free_slots r) v.

(** [region_t] without its link: the lists of regions are lists. *)
Record region : Type := mk_region {
  vbase : Z;
  vtop : Z;
  r_rights : Z
}.

Definition set_vtop (v : Z) (r : region) : region :=
  mk_region (vbase r) v (r_rights r).

(** [addrspace_t]; the page directories are kernel addresses, 0 for NULL. *)
Record addrspace : Type := mk_as {
  as_pd_caps : Z;
  as_pd_regs : Z;
  as_rhead : list region;
  as_stack : option region;
  as_heap : option region;
  as_sel4_pd : Z;
  as_pt_head : list (Z * Z)
}.

Definition set_as_pd_caps (v : Z) (r : addrspace) : addrspace :=
  mk_as v (as_pd_regs r) (as_rhead r) (as_stack r) (as_heap r) (as_sel4_pd r)
    (as_pt_head r).

Definition set_as_pd_regs (v : Z) (r : addrspace) : addrspace :=
  mk_as (as_pd_caps r) v (as_rhead r) (as_stack r) (as_heap r) (as_sel4_pd r)
    (as_pt_head r).

Definition set_as_rhead (v : list region) (r : addrspace) : addrspace :=
  mk_as (as_pd_caps r) (as_pd_regs r) v (as_stack r) (as_heap r) (as_sel4_pd r)
    (as_pt_head r).

Definition set_as_stack (v : option region) (r : addrspace) : addrspace :=
  mk_as (as_pd_caps r) (as_pd_regs r) (as_rhead r) v (as_heap r) (as_sel4_pd r)
    (as_pt_head r).

Definition set_as_heap (v : option region) (r : addrspace) : addrspace :=
  mk_as (as_pd_caps r) (as_pd_regs r) (as_rhead r) (as_stack r) v (as_sel4_pd r)
    (as_pt_head r).

Definition set_as_pt_head (v : list (Z * Z)) (r : addrspace) : addrspace :=
  mk_as (as_pd_caps r) (as_pd_regs r) (as_rhead r) (as_stack r) (as_heap r)
    (as_sel4_pd r) v.

(** [process_t]; [croot], [as] and [p_filetable] are pointers, 0 for NULL. *)
Record process : Type := mk_proc {
  tcb_addr : Z;
  tcb_cap : Z;
  vroot_addr : Z;
  vroot : Z;
  ipc_buffer_addr : Z;
  ipc_buffer_cap : Z;
  p_croot : Z;
  p_as : Z;
  p_pid : Z;
  p_size : Z;
  p_stime : Z;
  p_name : option (list Z);
  p_name_len : Z;
  p_filetable : Z;
  p_wait_queue : list (wait_cb * Z);
  p_initialised : bool
}.

Definition set_tcb_addr (v : Z) (r : process) : process :=
  mk_proc v (tcb_cap r) (vroot_addr r) (vroot r) (ipc_buffer_addr r) (ipc_buffer_cap r)
    (p_croot r) (p_as r) (p_pid r) (p_size r) (p_stime r) (p_name r) (p_name_len r)
    (p_filetable r) (p_wait_queue r) (p_initialised r).

Definition set_tcb_cap (v : Z) (r : process) : process :=
  mk_proc (tcb_addr r) v (vroot_addr r) (vroot r) (ipc_buffer_addr r) (ipc_buffer_cap r)
    (p_croot r) (p_as r) (p_pid r) (p_size r) (p_stime r) (p_name r) (p_name_len r)
    (p_filetable r) (p_wait_queue r) (p_initialised r).

Definition set_vroot_addr (v : Z) (r : process) : process :=
  mk_proc (tcb_addr r) (tcb_cap r) v (vroot r) (ipc_buffer_addr r) (ipc_buffer_cap r)
    (p_croot r) (p_as r) (p_pid r) (p_size r) (p_stime r) (p_name r) (p_name_len r)
    (p_filetable r) (p_wait_queue r) (p_initialised r).

Definition set_vroot (v : Z) (r : process) : process :=
  mk_proc (tcb_addr r) (tcb_cap r) (vroot_addr r) v (ipc_buffer_addr r) (ipc_buffer_cap r)
    (p_croot r) (p_as r) (p_pid r) (p_size r) (p_stime r) (p_name r) (p_name_len r)
    (p_filetable r) (p_wait_queue r) (p_initialised r).

Definition set_ipc_buffer_addr (v : Z) (r : process) : process :=
  mk_proc (tcb_addr r) (tcb_cap r) (vroot_addr r) (vroot r) v (ipc_buffer_cap r)
    (p_croot r) (p_as r) (p_pid r) (p_size r) (p_stime r) (p_name r) (p_name_len r)
    (p_filetable r) (p_wait_queue r) (p_initialised r).

Definition set_ipc_buffer_cap (v : Z) (r : process) : process :=
  mk_proc (tcb_addr r) (tcb_cap r) (vroot_addr r) (vroot r) (ipc_buffer_addr r) v
    (p_croot r) (p_as r) (p_pid r) (p_size r) (p_stime r) (p_name r) (p_name_len r)
    (p_filetable r) (p_wait_queue r) (p_initialised r).

Definition set_p_croot (v : Z) (r : process) : process :=
  mk_proc (tcb_addr r) (tcb_cap r) (vroot_addr r) (vroot r) (ipc_buffer_addr r)
    (ipc_buffer_cap r) v (p_as r) (p_pid r) (p_size r) (p_stime r) (p_name r)
    (p_name_len r) (p_filetable r) (p_wait_queue r) (p_initialised r).

Definition set_p_as (v : Z) (r : process) : process :=
  mk_proc (tcb_addr r) (tcb_cap r) (vroot_addr r) (vroot r) (ipc_buffer_addr r)
    (ipc_buffer_cap r) (p_croot r) v (p_pid r) (p_size r) (p_stime r) (p_name r)
    (p_name_len r) (p_filetable r) (p_wait_queue r) (p_initialised r).

Definition set_p_pid (v : Z) (r : process) : process :=
  mk_proc (tcb_addr r) (tcb_cap r) (vroot_addr r) (vroot r) (ipc_buffer_addr r)
    (ipc_buffer_cap r) (p_croot r) (p_as r) v (p_size r) (p_stime r) (p_name r)
    (p_name_len r) (p_filetable r) (p_wait_queue r) (p_initialised r).

Definition set_p_size (v : Z) (r : process) : process :=
  mk_proc (tcb_addr r) (tcb_cap r) (vroot_addr r) (vroot r) (ipc_buffer_addr r)
    (ipc_buffer_cap r) (p_croot r) (p_as r) (p_pid r) v (p_stime r) (p_name r)
    (p_name_len r) (p_filetable r) (p_wait_queue r) (p_initialised r).

Definition set_p_stime (v : Z) (r : process) : process :=
  mk_proc (tcb_addr r) (tcb_cap r) (vroot_addr r) (vroot r) (ipc_buffer_addr r)
    (ipc_buffer_cap r) (p_croot r) (p_as r) (p_pid r) (p_size r) v (p_name r)
    (p_name_len r) (p_filetable r) (p_wait_queue r) (p_initialised r).

Definition set_p_name (v : option (list Z)) (r : process) : process :=
  mk_proc (tcb_addr r) (tcb_cap r) (vroot_addr r) (vroot r) (ipc_buffer_addr r)
    (ipc_buffer_cap r) (p_croot r) (p_as r) (p_pid r) (p_size r) (p_stime r) v
    (p_name_len r) (p_filetable r) (p_wait_queue r) (p_initialised r).

Definition set_p_name_len (v : Z) (r : process) : process :=
  mk_proc (tcb_addr r) (tcb_cap r) (vroot_addr r) (vroot r) (ipc_buffer_addr r)
    (ipc_buffer_cap r) (p_croot r) (p_as r) (p_pid r) (p_size r) (p_stime r) (p_name r) v
    (p_filetable r) (p_wait_queue r) (p_initialised r).

Definition set_p_filetable (v : Z) (r : process) : process :=
  mk_proc (tcb_addr r) (tcb_cap r) (vroot_addr r) (vroot r) (ipc_buffer_addr r)
    (ipc_buffer_cap r) (p_croot r) (p_as r) (p_pid r) (p_size r) (p_stime r) (p_name r)
    (p_name_len r) v (p_wait_queue r) (p_initialised r).

Definition set_p_wait_queue (v : list (wait_cb * Z)) (r : process) : process :=
  mk_proc (tcb_addr r) (tcb_cap r) (vroot_addr r) (vroot r) (ipc_buffer_addr r)
    (ipc_buffer_cap r) (p_croot r) (p_as r) (p_pid r) (p_size r) (p_stime r) (p_name r)
    (p_name_len r) (p_filetable r) v (p_initialised r).

Definition set_p_initialised (v : bool) (r : process) : process :=
  mk_proc (tcb_addr r) (tcb_cap r) (vroot_addr r) (vroot r) (ipc_buffer_addr r)
    (ipc_buffer_cap r) (p_croot r) (p_as r) (p_pid r) (p_size r) (p_stime r) (p_name r)
    (p_name_len r) (p_filetable r) (p_wait_queue r) v.

(** The static variables of proc.c; [processes] and [cur_proc_ptr] hold pointers. *)
Record procst : Type := mk_procst {
  processes : list Z;
  first_free_pslot : Z;
  next_free_pslot : list Z;
  next_free_pid : list Z;
  wait_queue : list (wait_cb * Z);
  cur_proc_ptr : Z
}.

Definition set_processes (v : list Z) (r : procst) : procst :=
  mk_procst v (first_free_pslot r) (next_free_pslot r) (next_free_pid r) (wait_queue r)
    (cur_proc_ptr r).

Definition set_first_free_pslot (v : Z) (r : procst) : procst :=
  mk_procst (processes r) v (next_free_pslot r) (next_free_pid r) (wait_queue r)
    (cur_proc_ptr r).

Definition set_next_free_pslot (v : list Z) (r : procst) : procst :=
  mk_procst (processes r) (first_free_pslot r) v (next_free_pid r) (wait_queue r)
    (cur_proc_ptr r).

Definition set_next_free_pid (v : list Z) (r : procst) : procst :=
  mk_procst (processes r) (first_free_pslot r) (next_free_pslot r) v (wait_queue r)
    (cur_proc_ptr r).

Definition set_wait_queue (v : list (wait_cb * Z)) (r : procst) : procst :=
  mk_procst (processes r) (first_free_pslot r) (next_free_pslot r) (next_free_pid r) v
    (cur_proc_ptr r).

Definition set_cur_proc_ptr (v : Z) (r : procst) : procst :=
  mk_procst (processes r) (first_free_pslot r) (next_free_pslot r) (next_free_pid r)
    (wait_queue r) v.

(** The attributes of an NFS file that the code reads. *)
Record fattr : Type := mk_fattr {
  fa_mode : Z;
  fa_size : Z;
  fa_mtime : Z * Z
}.

(** [sos_stat_t]. *)
Record sos_stat : Type := mk_stat {
  st_type : Z;
  st_mode : Z;
  st_size : Z;
  st_mtime : Z * Z
}.

Definition set_st_mode (v : Z) (r : sos_stat) : sos_stat :=
  mk_stat (st_type r) v (st_size r) (st_mtime r).

(** [struct nfs_data]. *)
Record nfs_data : Type := mk_nfs_data {
  nd_fh : Z;
  nd_fattr : option fattr
}.

Definition set_nd_fattr (v : option fattr) (r : nfs_data) : nfs_data :=
  mk_nfs_data (nd_fh r) v.

(** [struct vnode]; [vn_ops] is the table the operations pointer was filled from. *)
Record vnode : Type := mk_vnode {
  vn_initialised : bool;
  vn_opencount : Z;
  vn_name : list Z;
  vn_data : option nfs_data;
  vn_sattr : sos_stat;
  vn_ops : ops_table
}.

Definition set_vn_opencount (v : Z) (r : vnode) : vnode :=
  mk_vnode (vn_initialised r) v (vn_name r) (vn_data r) (vn_sattr r) (vn_ops r).

Definition set_vn_data (v : option nfs_data) (r : vnode) : vnode :=
  mk_vnode (vn_initialised r) (vn_opencount r) (vn_name r) v (vn_sattr r) (vn_ops r).

(** [struct openfile]. *)
Record openfile : Type := mk_openfile {
  of_vnode : Z;
  of_offset : Z;
  of_accmode : Z;
  of_refcount : Z
}.

Definition set_of_offset (v : Z) (r : openfile) : openfile :=
  mk_openfile (of_vnode r) v (of_accmode r) (of_refcount r).

Definition set_of_refcount (v : Z) (r : openfile) : openfile :=
  mk_openfile (of_vnode r) (of_offset r) (of_accmode r) v.

(** [struct console]; the character buffer is at address [CONSOLE_BUF]. *)
Record con_dev : Type := mk_con {
  con_buf_size : Z;
  con_start : Z;
  con_end : Z;
  con_serial : bool
}.

Definition set_con_buf_size (v : Z) (r : con_dev) : con_dev :=
  mk_con v (con_start r) (con_end r) (con_serial r).

Definition set_con_start (v : Z) (r : con_dev) : con_dev :=
  mk_con (con_buf_size r) v (con_end r) (con_serial r).

Definition set_con_end (v : Z) (r : con_dev) : con_dev :=
  mk_con (con_buf_size r) (con_start r) v (con_serial r).

Definition set_con_serial (v : bool) (r : con_dev) : con_dev :=
  mk_con (con_buf_size r) (con_start r) (con_end r) v.

(** [struct _con_read_state]. *)
Record con_reader : Type := mk_conr {
  opened_for_reading : bool;
  is_blocked : bool;
  cr_buf : Z;
  cr_nbytes : Z;
  cr_offset : Z;
  cr_pid : Z;
  cr_callback : read_cb;
  cr_token : Z;
  cr_file : Z
}.

Definition set_opened_for_reading (v : bool) (r : con_reader) : con_reader :=
  mk_conr v (is_blocked r) (cr_buf r) (cr_nbytes r) (cr_offset r) (cr_pid r)
    (cr_callback r) (cr_token r) (cr_file r).

Definition set_is_blocked (v : bool) (r : con_reader) : con_reader :=
  mk_conr (opened_for_reading r) v (cr_buf r) (cr_nbytes r) (cr_offset r) (cr_pid r)
    (cr_callback r) (cr_token r) (cr_file r).

Definition set_cr_pid (v : Z) (r : con_reader) : con_reader :=
  mk_conr (opened_for_reading r) (is_blocked r) (cr_buf r) (cr_nbytes r) (cr_offset r) v
    (cr_callback r) (cr_token r) (cr_file r).

(** [timer_t]. *)
Record timer : Type := mk_timer {
  t_id : Z;
  t_endtime : Z;
  t_callback : timer_cb;
  t_data : Z;
  t_registered : bool
}.

Definition set_t_registered (v : bool) (r : timer) : timer :=
  mk_timer (t_id r) (t_endtime r) (t_callback r) (t_data r) v.

(** [clock_register_t]. *)
Record epit : Type := mk_epit {
  epit_cr : Z;
  epit_sr : Z;
  epit_lr : Z;
  epit_cnr : Z
}.

Definition set_epit_cr (v : Z) (r : epit) : epit :=
  mk_epit v (epit_sr r) (epit_lr r) (epit_cnr r).

Definition set_epit_sr (v : Z) (r : epit) : epit :=
  mk_epit (epit_cr r) v (epit_lr r) (epit_cnr r).

Definition set_epit_lr (v : Z) (r : epit) : epit :=
  mk_epit (epit_cr r) (epit_sr r) v (epit_cnr r).

Definition set_epit_cnr (v : Z) (r : epit) : epit :=
  mk_epit (epit_cr r) (epit_sr r) (epit_lr r) v.

(** The static variables of clock.c. *)
Record clockst : Type := mk_clock {
  jiffy : Z;
  ntimers : Z;
  timers : list timer;
  clk_initialised : bool;
  irq_handler1 : Z;
  irq_handler2 : Z;
  epit1 : epit;
  epit2 : epit
}.

Definition set_jiffy (v : Z) (r : clockst) : clockst :=
  mk_clock v (ntimers r) (timers r) (clk_initialised r) (irq_handler1 r) (irq_handler2 r)
    (epit1 r) (epit2 r).

Definition set_ntimers (v : Z) (r : clockst) : clockst :=
  mk_clock (jiffy r) v (timers r) (clk_initialised r) (irq_handler1 r) (irq_handler2 r)
    (epit1 r) (epit2 r).

Definition set_timers (v : list timer) (r : clockst) : clockst :=
  mk_clock (jiffy r) (ntimers r) v (clk_initialised r) (irq_handler1 r) (irq_handler2 r)
    (epit1 r) (epit2 r).

Definition set_clk_initialised (v : bool) (r : clockst) : clockst :=
  mk_clock (jiffy r) (ntimers r) (timers r) v (irq_handler1 r) (irq_handler2 r) (epit1 r)
    (epit2 r).

Definition set_irq_handler1 (v : Z) (r : clockst) : clockst :=
  mk_clock (jiffy r) (ntimers r) (timers r) (clk_initialised r) v (irq_handler2 r)
    (epit1 r) (epit2 r).

Definition set_irq_handler2 (v : Z) (r : clockst) : clockst :=
  mk_clock (jiffy r) (ntimers r) (timers r) (clk_initialised r) (irq_handler1 r) v
    (epit1 r) (epit2 r).

Definition set_epit1 (v : epit) (r : clockst) : clockst :=
  mk_clock (jiffy r) (ntimers r) (timers r) (clk_initialised r) (irq_handler1 r)
    (irq_handler2 r) v (epit2 r).

Definition set_epit2 (v : epit) (r : clockst) : clockst :=
  mk_clock (jiffy r) (ntimers r) (timers r) (clk_initialised r) (irq_handler1 r)
    (irq_handler2 r) (epit1 r) v.

(** The static variables of dma.c. *)
Record dmast : Type := mk_dma {
  dma_caps : list Z;
  dma_pstart : Z;
  dma_pend : Z;
  dma_pnext : Z;
  dma_alloc_cached : Z
}.

Definition set_dma_caps (v : list Z) (r : dmast) : dmast :=
  mk_dma v (dma_pstart r) (dma_pend r) (dma_pnext r) (dma_alloc_cached r).

Definition set_dma_pstart (v : Z) (r : dmast) : dmast :=
  mk_dma (dma_caps r) v (dma_pend r) (dma_pnext r) (dma_alloc_cached r).

Definition set_dma_pend (v : Z) (r : dmast) : dmast :=
  mk_dma (dma_caps r) (dma_pstart r) v (dma_pnext r) (dma_alloc_cached r).

Definition set_dma_pnext (v : Z) (r : dmast) : dmast :=
  mk_dma (dma_caps r) (dma_pstart r) (dma_pend r) v (dma_alloc_cached r).

Definition set_dma_alloc_cached (v : Z) (r : dmast) : dmast :=
  mk_dma (dma_caps r) (dma_pstart r) (dma_pend r) (dma_pnext r) v.

(** * Continuation structures *)

(** [frame_alloc_cont_t]. *)
Record frame_alloc_cont : Type := mk_fa {
  fa_callback : frame_cb;
  fa_token : Z;
  fa_as : Z;
  fa_vaddr : Z;
  fa_pid : Z;
  fa_noswap : bool
}.

(** [sos_page_map_cont_t]. *)
Record page_map_cont : Type := mk_pm {
  pm_callback : err_cb;
  pm_token : Z;
  pm_pid : Z;
  pm_as : Z;
  pm_vpage : Z;
  pm_permissions : Z;
  pm_noswap : bool
}.

(** [swap_init_cont_t]. *)
Record swap_init_cont : Type := mk_si {
  si_callback : err_cb;
  si_token : Z
}.

(** [swap_in_cont_t]. *)
Record swap_in_cont : Type := mk_in {
  in_callback : err_cb;
  in_token : Z;
  in_kvaddr : Z;
  in_vpage : Z;
  in_swap_slot : Z;
  in_as : Z;
  in_rights : Z;
  in_is_code : bool;
  in_bytes_read : Z;
  in_pid : Z
}.

Definition set_in_kvaddr (v : Z) (r : swap_in_cont) : swap_in_cont :=
  mk_in (in_callback r) (in_token r) v (in_vpage r) (in_swap_slot r) (in_as r)
    (in_rights r) (in_is_code r) (in_bytes_read r) (in_pid r).

Definition set_in_bytes_read (v : Z) (r : swap_in_cont) : swap_in_cont :=
  mk_in (in_callback r) (in_token r) (in_kvaddr r) (in_vpage r) (in_swap_slot r) (in_as r)
    (in_rights r) (in_is_code r) v (in_pid r).

(** [swap_out_cont_t]. *)
Record swap_out_cont : Type := mk_out {
  out_callback : err_cb;
  out_token : Z;
  out_kvaddr : Z;
  out_free_slot : Z;
  out_written : Z;
  out_pid : Z
}.

Definition set_out_free_slot (v : Z) (r : swap_out_cont) : swap_out_cont :=
  mk_out (out_callback r) (out_token r) (out_kvaddr r) v (out_written r) (out_pid r).

Definition set_out_written (v : Z) (r : swap_out_cont) : swap_out_cont :=
  mk_out (out_callback r) (out_token r) (out_kvaddr r) (out_free_slot r) v (out_pid r).

(** [as_create_cont_t]. *)
Record as_create_cont : Type := mk_ac {
  ac_as : Z;
  ac_callback : as_cb;
  ac_token : Z
}.

(** [VMF_cont_t]. *)
Record vmf_cont : Type := mk_vmf {
  vmf_reply_cap : Z;
  vmf_as : Z;
  vmf_vaddr : Z;
  vmf_is_code : bool;
  vmf_reg : region;
  vmf_pid : Z
}.

(** [copyin_cont_t] and [copyout_cont_t]; [cp_kbuf] is the kernel side, [cp_buf] the user side. *)
Record copy_cont : Type := mk_copy {
  cp_callback : err_cb;
  cp_token : Z;
  cp_kbuf : Z;
  cp_buf : Z;
  cp_nbyte : Z;
  cp_pos : Z;
  cp_as : Z;
  cp_reg : option region
}.

Definition set_cp_kbuf (v : Z) (r : copy_cont) : copy_cont :=
  mk_copy (cp_callback r) (cp_token r) v (cp_buf r) (cp_nbyte r) (cp_pos r) (cp_as r)
    (cp_reg r).

Definition set_cp_buf (v : Z) (r : copy_cont) : copy_cont :=
  mk_copy (cp_callback r) (cp_token r) (cp_kbuf r) v (cp_nbyte r) (cp_pos r) (cp_as r)
    (cp_reg r).

Definition set_cp_pos (v : Z) (r : copy_cont) : copy_cont :=
  mk_copy (cp_callback r) (cp_token r) (cp_kbuf r) (cp_buf r) (cp_nbyte r) v (cp_as r)
    (cp_reg r).

(** [load_segment_cont_t]. *)
Record load_segment_cont : Type := mk_ls {
  ls_pid : Z;
  ls_as : Z;
  ls_file_offset : Z;
  ls_segment_size : Z;
  ls_file_size : Z;
  ls_dst : Z;
  ls_permissions : Z;
  ls_pos : Z;
  ls_wanna_read : Z;
  ls_proc : Z;
  ls_fh : option Z;
  ls_callback : err_cb;
  ls_token : Z
}.

Definition set_ls_dst (v : Z) (r : load_segment_cont) : load_segment_cont :=
  mk_ls (ls_pid r) (ls_as r) (ls_file_offset r) (ls_segment_size r) (ls_file_size r) v
    (ls_permissions r) (ls_pos r) (ls_wanna_read r) (ls_proc r) (ls_fh r) (ls_callback r)
    (ls_token r).

Definition set_ls_pos (v : Z) (r : load_segment_cont) : load_segment_cont :=
  mk_ls (ls_pid r) (ls_as r) (ls_file_offset r) (ls_segment_size r) (ls_file_size r)
    (ls_dst r) (ls_permissions r) v (ls_wanna_read r) (ls_proc r) (ls_fh r)
    (ls_callback r) (ls_token r).

Definition set_ls_wanna_read (v : Z) (r : load_segment_cont) : load_segment_cont :=
  mk_ls (ls_pid r) (ls_as r) (ls_file_offset r) (ls_segment_size r) (ls_file_size r)
    (ls_dst r) (ls_permissions r) (ls_pos r) v (ls_proc r) (ls_fh r) (ls_callback r)
    (ls_token r).

(** [struct Elf32_Phdr], the fields the loader reads. *)
Record phdr : Type := mk_phdr {
  p_type : Z;
  p_offset : Z;
  p_vaddr : Z;
  p_filesz : Z;
  p_memsz : Z;
  p_flags : Z
}.

(** [elf_load_cont_t]. *)
Record elf_load_cont : Type := mk_el {
  el_i : Z;
  el_pid : Z;
  el_as : Z;
  el_file_name : list Z;
  el_proc : Z;
  el_fh : option Z;
  el_entry : Z;
  el_prog_hdrs : option (list Z);
  el_ph_num : Z;
  el_ph_size : Z;
  el_callback : elf_cb;
  el_token : Z
}.

Definition set_el_i (v : Z) (r : elf_load_cont) : elf_load_cont :=
  mk_el v (el_pid r) (el_as r) (el_file_name r) (el_proc r) (el_fh r) (el_entry r)
    (el_prog_hdrs r) (el_ph_num r) (el_ph_size r) (el_callback r) (el_token r).

Definition set_el_fh (v : option Z) (r : elf_load_cont) : elf_load_cont :=
  mk_el (el_i r) (el_pid r) (el_as r) (el_file_name r) (el_proc r) v (el_entry r)
    (el_prog_hdrs r) (el_ph_num r) (el_ph_size r) (el_callback r) (el_token r).

Definition set_el_entry (v : Z) (r : elf_load_cont) : elf_load_cont :=
  mk_el (el_i r) (el_pid r) (el_as r) (el_file_name r) (el_proc r) (el_fh r) v
    (el_prog_hdrs r) (el_ph_num r) (el_ph_size r) (el_callback r) (el_token r).

Definition set_el_prog_hdrs (v : option (list Z)) (r : elf_load_cont) : elf_load_cont :=
  mk_el (el_i r) (el_pid r) (el_as r) (el_file_name r) (el_proc r) (el_fh r)
    (el_entry r) v (el_ph_num r) (el_ph_size r) (el_callback r) (el_token r).

Definition set_el_ph_num (v : Z) (r : elf_load_cont) : elf_load_cont :=
  mk_el (el_i r) (el_pid r) (el_as r) (el_file_name r) (el_proc r) (el_fh r) (el_entry r)
    (el_prog_hdrs r) v (el_ph_size r) (el_callback r) (el_token r).

Definition set_el_ph_size (v : Z) (r : elf_load_cont) : elf_load_cont :=
  mk_el (el_i r) (el_pid r) (el_as r) (el_file_name r) (el_proc r) (el_fh r) (el_entry r)
    (el_prog_hdrs r) (el_ph_num r) v (el_callback r) (el_token r).

(** [process_create_cont_t]. *)
Record proc_create_cont : Type := mk_pc {
  pc_elf_entry : Z;
  pc_proc : Z;
  pc_callback : proc_cb;
  pc_token : Z
}.

Definition set_pc_elf_entry (v : Z) (r : proc_create_cont) : proc_create_cont :=
  mk_pc v (pc_proc r) (pc_callback r) (pc_token r).

Definition set_pc_proc (v : Z) (r : proc_create_cont) : proc_create_cont :=
  mk_pc (pc_elf_entry r) v (pc_callback r) (pc_token r).

(** [serv_proc_create_cont_t]. *)
Record serv_proc_create_cont : Type := mk_spc {
  spc_kpath : Z;
  spc_len : Z;
  spc_fault_ep : Z;
  spc_reply_cap : Z
}.

Definition set_spc_kpath (v : Z) (r : serv_proc_create_cont) : serv_proc_create_cont :=
  mk_spc v (spc_len r) (spc_fault_ep r) (spc_reply_cap r).

(** [serv_proc_wait_cont_t]. *)
Record serv_proc_wait_cont : Type := mk_spw {
  spw_reply_cap : Z;
  spw_pid : Z
}.

(** [serv_proc_status_cont_t]. *)
Record serv_proc_status_cont : Type := mk_sps {
  sps_kbuf : Z;
  sps_num : Z;
  sps_reply_cap : Z;
  sps_pid : Z
}.

Definition set_sps_kbuf (v : Z) (r : serv_proc_status_cont) : serv_proc_status_cont :=
  mk_sps v (sps_num r) (sps_reply_cap r) (sps_pid r).

Definition set_sps_num (v : Z) (r : serv_proc_status_cont) : serv_proc_status_cont :=
  mk_sps (sps_kbuf r) v (sps_reply_cap r) (sps_pid r).

(** [cont_open_t]. *)
Record cont_open : Type := mk_open {
  open_reply_cap : Z;
  open_kbuf : Z;
  open_nbyte : Z;
  open_flags : Z;
  open_pid : Z
}.

Definition set_open_kbuf (v : Z) (r : cont_open) : cont_open :=
  mk_open (open_reply_cap r) v (open_nbyte r) (open_flags r) (open_pid r).

(** [cont_read_t]. *)
Record cont_read : Type := mk_read {
  read_reply_cap : Z;
  read_file : Z;
  read_bytes_read : Z;
  read_bytes_wanted : Z;
  read_buf : Z;
  read_pid : Z
}.

Definition set_read_file (v : Z) (r : cont_read) : cont_read :=
  mk_read (read_reply_cap r) v (read_bytes_read r) (read_bytes_wanted r) (read_buf r)
    (read_pid r).

Definition set_read_bytes_read (v : Z) (r : cont_read) : cont_read :=
  mk_read (read_reply_cap r) (read_file r) v (read_bytes_wanted r) (read_buf r)
    (read_pid r).

(** [cont_write_t]. *)
Record cont_write : Type := mk_write {
  write_reply_cap : Z;
  write_file : Z;
  write_buf : Z;
  write_kbuf : Z;
  write_nbyte : Z;
  write_byte_written : Z;
  write_wanna_send : Z;
  write_pid : Z
}.

Definition set_write_file (v : Z) (r : cont_write) : cont_write :=
  mk_write (write_reply_cap r) v (write_buf r) (write_kbuf r) (write_nbyte r)
    (write_byte_written r) (write_wanna_send r) (write_pid r).

Definition set_write_kbuf (v : Z) (r : cont_write) : cont_write :=
  mk_write (write_reply_cap r) (write_file r) (write_buf r) v (write_nbyte r)
    (write_byte_written r) (write_wanna_send r) (write_pid r).

Definition set_write_byte_written (v : Z) (r : cont_write) : cont_write :=
  mk_write (write_reply_cap r) (write_file r) (write_buf r) (write_kbuf r)
    (write_nbyte r) v (write_wanna_send r) (write_pid r).

Definition set_write_wanna_send (v : Z) (r : cont_write) : cont_write :=
  mk_write (write_reply_cap r) (write_file r) (write_buf r) (write_kbuf r) (write_nbyte r)
    (write_byte_written r) v (write_pid r).

(** [cont_getdirent_t]. *)
Record cont_getdirent : Type := mk_gd {
  gd_reply_cap : Z;
  gd_pid : Z
}.

(** [cont_stat_t]. *)
Record cont_stat : Type := mk_cstat {
  cstat_reply_cap : Z;
  cstat_kbuf : Z;
  cstat_buf : Z;
  cstat_path_len : Z;
  cstat_pid : Z
}.

Definition set_cstat_kbuf (v : Z) (r : cont_stat) : cont_stat :=
  mk_cstat (cstat_reply_cap r) v (cstat_buf r) (cstat_path_len r) (cstat_pid r).

(** [cont_file_open_t]. *)
Record cont_file_open : Type := mk_fo {
  fo_callback : open_cb;
  fo_token : Z;
  fo_flags : Z
}.

(** [cont_filetable_init_t]. *)
Record cont_filetable_init : Type := mk_fti {
  fti_filetable : Z;
  fti_callback : err_cb;
  fti_token : Z
}.

(** [cont_vfs_open_t]. *)
Record cont_vfs_open : Type := mk_vo {
  vo_callback : vnode_cb;
  vo_token : Z;
  vo_vn : Z;
  vo_openflags : Z
}.

(** [cont_vfs_stat_t]. *)
Record cont_vfs_stat : Type := mk_vs {
  vs_callback : err_cb;
  vs_token : Z
}.

(** [nfs_init_state_t]. *)
Record nfs_init_state : Type := mk_ni {
  ni_file : Z;
  ni_callback : err_cb;
  ni_token : Z;
  ni_pid : Z
}.

(** [nfs_write_state]. *)
Record nfs_write_state : Type := mk_nw {
  nw_callback : write_cb;
  nw_token : Z;
  nw_file : Z;
  nw_pid : Z
}.

(** [nfs_read_state]. *)
Record nfs_read_state : Type := mk_nr {
  nr_file : Z;
  nr_app_buf : Z;
  nr_count : Z;
  nr_callback : read_cb;
  nr_token : Z;
  nr_data_backup : Z;
  nr_pid : Z
}.

Definition set_nr_count (v : Z) (r : nfs_read_state) : nfs_read_state :=
  mk_nr (nr_file r) (nr_app_buf r) v (nr_callback r) (nr_token r) (nr_data_backup r)
    (nr_pid r).

Definition set_nr_data_backup (v : Z) (r : nfs_read_state) : nfs_read_state :=
  mk_nr (nr_file r) (nr_app_buf r) (nr_count r) (nr_callback r) (nr_token r) v (nr_pid r).

(** [nfs_getdirent_state_t]. *)
Record nfs_getdirent_state : Type := mk_ng {
  ng_pos : Z;
  ng_nbyte : Z;
  ng_size : Z;
  ng_name : Z;
  ng_app_buf : Z;
  ng_cookie : Z;
  ng_callback : dirent_cb;
  ng_token : Z;
  ng_pid : Z
}.

Definition set_ng_pos (v : Z) (r : nfs_getdirent_state) : nfs_getdirent_state :=
  mk_ng v (ng_nbyte r) (ng_size r) (ng_name r) (ng_app_buf r) (ng_cookie r)
    (ng_callback r) (ng_token r) (ng_pid r).

Definition set_ng_size (v : Z) (r : nfs_getdirent_state) : nfs_getdirent_state :=
  mk_ng (ng_pos r) (ng_nbyte r) v (ng_name r) (ng_app_buf r) (ng_cookie r) (ng_callback r)
    (ng_token r) (ng_pid r).

Definition set_ng_name (v : Z) (r : nfs_getdirent_state) : nfs_getdirent_state :=
  mk_ng (ng_pos r) (ng_nbyte r) (ng_size r) v (ng_app_buf r) (ng_cookie r) (ng_callback r)
    (ng_token r) (ng_pid r).

Definition set_ng_cookie (v : Z) (r : nfs_getdirent_state) : nfs_getdirent_state :=
  mk_ng (ng_pos r) (ng_nbyte r) (ng_size r) (ng_name r) (ng_app_buf r) v (ng_callback r)
    (ng_token r) (ng_pid r).

(** [nfs_stat_state_t]. *)
Record nfs_stat_state : Type := mk_ns {
  ns_callback : err_cb;
  ns_token : Z;
  ns_stat : Z;
  ns_pid : Z
}.

(** [nfs_dev_getstat_state_t]. *)
Record nfs_getstat_state : Type := mk_ngs {
  ngs_stat_buf : Z;
  ngs_callback : err_cb;
  ngs_token : Z;
  ngs_stat : Z;
  ngs_path : list Z;
  ngs_pid : Z
}.

Definition set_ngs_stat (v : Z) (r : nfs_getstat_state) : nfs_getstat_state :=
  mk_ngs (ngs_stat_buf r) (ngs_callback r) (ngs_token r) v (ngs_path r) (ngs_pid r).

(** [_con_read_cont_t]. *)
Record con_read_cont : Type := mk_crc {
  crc_len : Z;
  crc_first_half_size : Z;
  crc_second_half_size : Z;
  crc_buf : Z;
  crc_callback : read_cb;
  crc_token : Z
}.

Definition set_crc_second_half_size (v : Z) (r : con_read_cont) : con_read_cont :=
  mk_crc (crc_len r) (crc_first_half_size r) v (crc_buf r) (crc_callback r) (crc_token r).

(** [struct sleep_state]. *)
Record sleep_state : Type := mk_sleep {
  sl_reply_cap : Z;
  sl_pid : Z
}.

(** * The heap *)

Inductive obj : Type :=
  | OBuf (size : Z)
  | OAddrspace (x : addrspace)
  | OProcess (x : process)
  | OVnode (x : vnode)
  | OOpenfile (x : openfile)
  | OFiletable (x : list Z)
  | OFrameAlloc (x : frame_alloc_cont)
  | OPageMap (x : page_map_cont)
  | OSwapInit (x : swap_init_cont)
  | OSwapIn (x : swap_in_cont)
  | OSwapOut (x : swap_out_cont)
  | OAsCreate (x : as_create_cont)
  | OVmf (x : vmf_cont)
  | OCopy (x : copy_cont)
  | OLoadSegment (x : load_segment_cont)
  | OElfLoad (x : elf_load_cont)
  | OProcCreate (x : proc_create_cont)
  | OServProcCreate (x : serv_proc_create_cont)
  | OServProcWait (x : serv_proc_wait_cont)
  | OServProcStatus (x : serv_proc_status_cont)
  | OOpen (x : cont_open)
  | ORead (x : cont_read)
  | OWrite (x : cont_write)
  | OGetdirent (x : cont_getdirent)
  | OStat (x : cont_stat)
  | OFileOpen (x : cont_file_open)
  | OFiletableInit (x : cont_filetable_init)
  | OVfsOpen (x : cont_vfs_open)
  | OVfsStat (x : cont_vfs_stat)
  | ONfsInit (x : nfs_init_state)
  | ONfsWrite (x : nfs_write_state)
  | ONfsRead (x : nfs_read_state)
  | ONfsGetdirent (x : nfs_getdirent_state)
  | ONfsStat (x : nfs_stat_state)
  | ONfsGetstat (x : nfs_getstat_state)
  | OConRead (x : con_read_cont)
  | OSleep (x : sleep_state).

(** A C structure type and its place in the heap. *)
Class HeapType (T : Type) : Type := {
  to_obj : T → obj;
  of_obj : obj → option T;
  of_to_obj : ∀ x, of_obj (to_obj x) = Some x
}.

#[export] Instance heap_addrspace : HeapType addrspace := {|
  to_obj := OAddrspace;
  of_obj o := match o with OAddrspace x => Some x | _ => None end;
  of_to_obj x := eq_refl
|}.

#[export] Instance heap_process : HeapType process := {|
  to_obj := OProcess;
  of_obj o := match o with OProcess x => Some x | _ => None end;
  of_to_obj x := eq_refl
|}.

#[export] Instance heap_vnode : HeapType vnode := {|
  to_obj := OVnode;
  of_obj o := match o with OVnode x => Some x | _ => None end;
  of_to_obj x := eq_refl
|}.

#[export] Instance heap_openfile : HeapType openfile := {|
  to_obj := OOpenfile;
  of_obj o := match o with OOpenfile x => Some x | _ => None end;
  of_to_obj x := eq_refl
|}.

#[export] Instance heap_filetable : HeapType (list Z) := {|
  to_obj := OFiletable;
  of_obj o := match o with OFiletable x => Some x | _ => None end;
  of_to_obj x := eq_refl
|}.

#[export] Instance heap_framealloc : HeapType frame_alloc_cont := {|
  to_obj := OFrameAlloc;
  of_obj o := match o with OFrameAlloc x => Some x | _ => None end;
  of_to_obj x := eq_refl
|}.

#[export] Instance heap_pagemap : HeapType page_map_cont := {|
  to_obj := OPageMap;
  of_obj o := match o with OPageMap x => Some x | _ => None end;
  of_to_obj x := eq_refl
|}.

#[export] Instance heap_swapinit : HeapType swap_init_cont := {|
  to_obj := OSwapInit;
  of_obj o := match o with OSwapInit x => Some x | _ => None end;
  of_to_obj x := eq_refl
|}.

#[export] Instance heap_swapin : HeapType swap_in_cont := {|
  to_obj := OSwapIn;
  of_obj o := match o with OSwapIn x => Some x | _ => None end;
  of_to_obj x := eq_refl
|}.

#[export] Instance heap_swapout : HeapType swap_out_cont := {|
  to_obj := OSwapOut;
  of_obj o := match o with OSwapOut x => Some x | _ => None end;
  of_to_obj x := eq_refl
|}.

#[export] Instance heap_ascreate : HeapType as_create_cont := {|
  to_obj := OAsCreate;
  of_obj o := match o with OAsCreate x => Some x | _ => None end;
  of_to_obj x := eq_refl
|}.

#[export] Instance heap_vmf : HeapType vmf_cont := {|
  to_obj := OVmf;
  of_obj o := match o with OVmf x => Some x | _ => None end;
  of_to_obj x := eq_refl
|}.

#[export] Instance heap_copy : HeapType copy_cont := {|
  to_obj := OCopy;
  of_obj o := match o with OCopy x => Some x | _ => None end;
  of_to_obj x := eq_refl
|}.

#[export] Instance heap_loadsegment : HeapType load_segment_cont := {|
  to_obj := OLoadSegment;
  of_obj o := match o with OLoadSegment x => Some x | _ => None end;
  of_to_obj x := eq_refl
|}.

#[export] Instance heap_elfload : HeapType elf_load_cont := {|
  to_obj := OElfLoad;
  of_obj o := match o with OElfLoad x => Some x | _ => None end;
  of_to_obj x := eq_refl
|}.

#[export] Instance heap_proccreate : HeapType proc_create_cont := {|
  to_obj := OProcCreate;
  of_obj o := match o with OProcCreate x => Some x | _ => None end;
  of_to_obj x := eq_refl
|}.

#[export] Instance heap_servproccreate : HeapType serv_proc_create_cont := {|
  to_obj := OServProcCreate;
  of_obj o := match o with OServProcCreate x => Some x | _ => None end;
  of_to_obj x := eq_refl
|}.

#[export] Instance heap_servprocwait : HeapType serv_proc_wait_cont := {|
  to_obj := OServProcWait;
  of_obj o := match o with OServProcWait x => Some x | _ => None end;
  of_to_obj x := eq_refl
|}.

#[export] Instance heap_servprocstatus : HeapType serv_proc_status_cont := {|
  to_obj := OServProcStatus;
  of_obj o := match o with OServProcStatus x => Some x | _ => None end;
  of_to_obj x := eq_refl
|}.

#[export] Instance heap_open : HeapType cont_open := {|
  to_obj := OOpen;
  of_obj o := match o with OOpen x => Some x | _ => None end;
  of_to_obj x := eq_refl
|}.

#[export] Instance heap_read : HeapType cont_read := {|
  to_obj := ORead;
  of_obj o := match o with ORead x => Some x | _ => None end;
  of_to_obj x := eq_refl
|}.

#[export] Instance heap_write : HeapType cont_write := {|
  to_obj := OWrite;
  of_obj o := match o with OWrite x => Some x | _ => None end;
  of_to_obj x := eq_refl
|}.

#[export] Instance heap_getdirent : HeapType cont_getdirent := {|
  to_obj := OGetdirent;
  of_obj o := match o with OGetdirent x => Some x | _ => None end;
  of_to_obj x := eq_refl
|}.

#[export] Instance heap_stat : HeapType cont_stat := {|
  to_obj := OStat;
  of_obj o := match o with OStat x => Some x | _ => None end;
  of_to_obj x := eq_refl
|}.

#[export] Instance heap_fileopen : HeapType cont_file_open := {|
  to_obj := OFileOpen;
  of_obj o := match o with OFileOpen x => Some x | _ => None end;
  of_to_obj x := eq_refl
|}.

#[export] Instance heap_filetableinit : HeapType cont_filetable_init := {|
  to_obj := OFiletableInit;
  of_obj o := match o with OFiletableInit x => Some x | _ => None end;
  of_to_obj x := eq_refl
|}.

#[export] Instance heap_vfsopen : HeapType cont_vfs_open := {|
  to_obj := OVfsOpen;
  of_obj o := match o with OVfsOpen x => Some x | _ => None end;
  of_to_obj x := eq_refl
|}.

#[export] Instance heap_vfsstat : HeapType cont_vfs_stat := {|
  to_obj := OVfsStat;
  of_obj o := match o with OVfsStat x => Some x | _ => None end;
  of_to_obj x := eq_refl
|}.

#[export] Instance heap_nfsinit : HeapType nfs_init_state := {|
  to_obj := ONfsInit;
  of_obj o := match o with ONfsInit x => Some x | _ => None end;
  of_to_obj x := eq_refl
|}.

#[export] Instance heap_nfswrite : HeapType nfs_write_state := {|
  to_obj := ONfsWrite;
  of_obj o := match o with ONfsWrite x => Some x | _ => None end;
  of_to_obj x := eq_refl
|}.

#[export] Instance heap_nfsread : HeapType nfs_read_state := {|
  to_obj := ONfsRead;
  of_obj o := match o with ONfsRead x => Some x | _ => None end;
  of_to_obj x := eq_refl
|}.

#[export] Instance heap_nfsgetdirent : HeapType nfs_getdirent_state := {|
  to_obj := ONfsGetdirent;
  of_obj o := match o with ONfsGetdirent x => Some x | _ => None end;
  of_to_obj x := eq_refl
|}.

#[export] Instance heap_nfsstat : HeapType nfs_stat_state := {|
  to_obj := ONfsStat;
  of_obj o := match o with ONfsStat x => Some x | _ => None end;
  of_to_obj x := eq_refl
|}.

#[export] Instance heap_nfsgetstat : HeapType nfs_getstat_state := {|
  to_obj := ONfsGetstat;
  of_obj o := match o with ONfsGetstat x => Some x | _ => None end;
  of_to_obj x := eq_refl
|}.

#[export] Instance heap_conread : HeapType con_read_cont := {|
  to_obj := OConRead;
  of_obj o := match o with OConRead x => Some x | _ => None end;
  of_to_obj x := eq_refl
|}.

#[export] Instance heap_sleep : HeapType sleep_state := {|
  to_obj := OSleep;
  of_obj o := match o with OSleep x => Some x | _ => None end;
  of_to_obj x := eq_refl
|}.

(** * Requests, events and the environment *)

(** A request handed to libnfs whose reply has not arrived.  When a write could
    not be sent, the wrapper [nfs_write] puts around its token is freed although
    the request stays in the queue ([rpc_write_freed]). *)
Inductive rpc : Type :=
  | rpc_lookup (dir : Z) (name : list Z) (cb : rpc_lookup_cb) (token : Z)
  | rpc_create (dir : Z) (name : list Z) (cb : rpc_lookup_cb) (token : Z)
  | rpc_read (fh offset count : Z) (cb : rpc_read_cb) (token : Z)
  | rpc_write (fh offset : Z) (data : list Z) (cb : rpc_write_cb) (token : Z)
  | rpc_write_freed (fh offset : Z) (data : list Z)
  | rpc_readdir (dir cookie : Z) (token : Z).

(** What libnfs does with a request: it queues and sends it; it has no memory or
    no packet buffer for it; or it queues it, cannot send it, and reports an
    error although the request will be sent later. *)
Inductive rpc_answer : Type := rpc_sent | rpc_refused | rpc_unsent.

(** What is queued for a request that could not be sent. *)
Definition unsent (r : rpc) : rpc :=
  match r with
  | rpc_write fh offset data _ _ => rpc_write_freed fh offset data
  | _ => r
  end.

Definition NFS_OK : Z := 0.

(** The reply to an NFS request, as libnfs hands it to the callback. *)
Record nfs_reply : Type := mk_reply {
  rep_status : Z;
  rep_fh : Z;
  rep_fattr : fattr;
  rep_has_attr : bool;
  rep_count : Z;
  rep_data : list Z;
  rep_names : list (list Z);
  rep_cookie : Z
}.

(** Invocations of seL4 and of the cspace library, with their arguments. *)
Inductive invocation : Type :=
  | Page_Map (cap pd vaddr rights attr : Z)
  | Page_Unmap (cap : Z)
  | Page_Unify_Instruction (cap : Z)
  | PageTable_Map (cap pd vaddr attr : Z)
  | PageTable_Unmap (cap : Z)
  | Cspace_ut_retype_addr (addr type sizebits : Z)
  | Cspace_copy_cap (cap rights : Z)
  | Cspace_mint_cap (dest cap rights badge : Z)
  | Cspace_delete_cap (cap : Z)
  | Cspace_create
  | Cspace_destroy (cspace : Z)
  | Cspace_save_reply_cap
  | TCB_Configure (tcb fault_ep prio croot vroot ipc_addr ipc_cap : Z)
  | TCB_WriteRegisters (tcb pc sp : Z)
  | Cspace_irq_control_get_cap (irq : Z)
  | IRQHandler_SetEndpoint (irq aep : Z)
  | IRQHandler_Ack (irq : Z)
  | IRQHandler_Clear (irq : Z)
  | Cache_op (op from upto : Z).

(** What SOS does to the outside, in the order it happens. *)
Inductive event : Type :=
  | EvSend (cap label : Z) (mrs : list Z)
  | EvFreeSlot (cap : Z)
  | EvInvoke (i : invocation) (answer : Z)
  | EvRpc (r : rpc)
  | EvSerial (bytes : list Z).

(** The answers of everything SOS does not control: whether malloc finds
    memory, the results of seL4 and of the cspace library, what libnfs does with
    a request, how many bytes the serial port accepts, the contents of
    uninitialised variables, and the handle [mnt_point] of the directory that
    was mounted when the network was set up. *)
Record env : Type := mk_env {
  e_malloc : nat → bool;
  e_sel4 : nat → Z;
  e_rpc : nat → rpc_answer;
  e_serial : nat → Z;
  e_serial_ok : nat → bool;
  e_junk : nat → Z;
  e_mnt : Z
}.

(** The state of SOS; [s_virt] is the static variable of [map_device]. *)
Record sos : Type := mk_sos {
  s_ft : ftab;
  s_swap : swapst;
  s_mem : Z → Z;
  s_heap : gmap Z obj;
  s_brk : Z;
  s_proc : procst;
  s_starting : bool;
  s_vnt : list Z;
  s_con : con_dev;
  s_conr : con_reader;
  s_clock : clockst;
  s_dma : dmast;
  s_virt : Z;
  s_ut : ut_state;
  s_rpcs : list rpc;
  s_log : list event;
  s_env : env;
  s_tick : nat
}.

Definition set_s_ft (v : ftab) (r : sos) : sos :=
  mk_sos v (s_swap r) (s_mem r) (s_heap r) (s_brk r) (s_proc r) (s_starting r) (s_vnt r)
    (s_con r) (s_conr r) (s_clock r) (s_dma r) (s_virt r) (s_ut r) (s_rpcs r) (s_log r)
    (s_env r) (s_tick r).

Definition set_s_swap (v : swapst) (r : sos) : sos :=
  mk_sos (s_ft r) v (s_mem r) (s_heap r) (s_brk r) (s_proc r) (s_starting r) (s_vnt r)
    (s_con r) (s_conr r) (s_clock r) (s_dma r) (s_virt r) (s_ut r) (s_rpcs r) (s_log r)
    (s_env r) (s_tick r).

Definition set_s_mem (v : Z → Z) (r : sos) : sos :=
  mk_sos (s_ft r) (s_swap r) v (s_heap r) (s_brk r) (s_proc r) (s_starting r) (s_vnt r)
    (s_con r) (s_conr r) (s_clock r) (s_dma r) (s_virt r) (s_ut r) (s_rpcs r) (s_log r)
    (s_env r) (s_tick r).

Definition set_s_heap (v : gmap Z obj) (r : sos) : sos :=
  mk_sos (s_ft r) (s_swap r) (s_mem r) v (s_brk r) (s_proc r) (s_starting r) (s_vnt r)
    (s_con r) (s_conr r) (s_clock r) (s_dma r) (s_virt r) (s_ut r) (s_rpcs r) (s_log r)
    (s_env r) (s_tick r).

Definition set_s_brk (v : Z) (r : sos) : sos :=
  mk_sos (s_ft r) (s_swap r) (s_mem r) (s_heap r) v (s_proc r) (s_starting r) (s_vnt r)
    (s_con r) (s_conr r) (s_clock r) (s_dma r) (s_virt r) (s_ut r) (s_rpcs r) (s_log r)
    (s_env r) (s_tick r).

Definition set_s_proc (v : procst) (r : sos) : sos :=
  mk_sos (s_ft r) (s_swap r) (s_mem r) (s_heap r) (s_brk r) v (s_starting r) (s_vnt r)
    (s_con r) (s_conr r) (s_clock r) (s_dma r) (s_virt r) (s_ut r) (s_rpcs r) (s_log r)
    (s_env r) (s_tick r).

Definition set_s_starting (v : bool) (r : sos) : sos :=
  mk_sos (s_ft r) (s_swap r) (s_mem r) (s_heap r) (s_brk r) (s_proc r) v (s_vnt r)
    (s_con r) (s_conr r) (s_clock r) (s_dma r) (s_virt r) (s_ut r) (s_rpcs r) (s_log r)
    (s_env r) (s_tick r).

Definition set_s_vnt (v : list Z) (r : sos) : sos :=
  mk_sos (s_ft r) (s_swap r) (s_mem r) (s_heap r) (s_brk r) (s_proc r) (s_starting r) v
    (s_con r) (s_conr r) (s_clock r) (s_dma r) (s_virt r) (s_ut r) (s_rpcs r) (s_log r)
    (s_env r) (s_tick r).

Definition set_s_con (v : con_dev) (r : sos) : sos :=
  mk_sos (s_ft r) (s_swap r) (s_mem r) (s_heap r) (s_brk r) (s_proc r) (s_starting r)
    (s_vnt r) v (s_conr r) (s_clock r) (s_dma r) (s_virt r) (s_ut r) (s_rpcs r) (s_log r)
    (s_env r) (s_tick r).

Definition set_s_conr (v : con_reader) (r : sos) : sos :=
  mk_sos (s_ft r) (s_swap r) (s_mem r) (s_heap r) (s_brk r) (s_proc r) (s_starting r)
    (s_vnt r) (s_con r) v (s_clock r) (s_dma r) (s_virt r) (s_ut r) (s_rpcs r) (s_log r)
    (s_env r) (s_tick r).

Definition set_s_clock (v : clockst) (r : sos) : sos :=
  mk_sos (s_ft r) (s_swap r) (s_mem r) (s_heap r) (s_brk r) (s_proc r) (s_starting r)
    (s_vnt r) (s_con r) (s_conr r) v (s_dma r) (s_virt r) (s_ut r) (s_rpcs r) (s_log r)
    (s_env r) (s_tick r).

Definition set_s_dma (v : dmast) (r : sos) : sos :=
  mk_sos (s_ft r) (s_swap r) (s_mem r) (s_heap r) (s_brk r) (s_proc r) (s_starting r)
    (s_vnt r) (s_con r) (s_conr r) (s_clock r) v (s_virt r) (s_ut r) (s_rpcs r) (s_log r)
    (s_env r) (s_tick r).

Definition set_s_virt (v : Z) (r : sos) : sos :=
  mk_sos (s_ft r) (s_swap r) (s_mem r) (s_heap r) (s_brk r) (s_proc r) (s_starting r)
    (s_vnt r) (s_con r) (s_conr r) (s_clock r) (s_dma r) v (s_ut r) (s_rpcs r) (s_log r)
    (s_env r) (s_tick r).

Definition set_s_ut (v : ut_state) (r : sos) : sos :=
  mk_sos (s_ft r) (s_swap r) (s_mem r) (s_heap r) (s_brk r) (s_proc r) (s_starting r)
    (s_vnt r) (s_con r) (s_conr r) (s_clock r) (s_dma r) (s_virt r) v (s_rpcs r) (s_log r)
    (s_env r) (s_tick r).

Definition set_s_rpcs (v : list rpc) (r : sos) : sos :=
  mk_sos (s_ft r) (s_swap r) (s_mem r) (s_heap r) (s_brk r) (s_proc r) (s_starting r)
    (s_vnt r) (s_con r) (s_conr r) (s_clock r) (s_dma r) (s_virt r) (s_ut r) v (s_log r)
    (s_env r) (s_tick r).

Definition set_s_log (v : list event) (r : sos) : sos :=
  mk_sos (s_ft r) (s_swap r) (s_mem r) (s_heap r) (s_brk r) (s_proc r) (s_starting r)
    (s_vnt r) (s_con r) (s_conr r) (s_clock r) (s_dma r) (s_virt r) (s_ut r) (s_rpcs r) v
    (s_env r) (s_tick r).

Definition set_s_tick (v : nat) (r : sos) : sos :=
  mk_sos (s_ft r) (s_swap r) (s_mem r) (s_heap r) (s_brk r) (s_proc r) (s_starting r)
    (s_vnt r) (s_con r) (s_conr r) (s_clock r) (s_dma r) (s_virt r) (s_ut r) (s_rpcs r)
    (s_log r) (s_env r) v.

(** * The monad *)

Definition M (A : Type) : Type := sos → outcome (A * sos).

#[export] Instance M_ret : MRet M := λ A a s, Ret (a, s).

#[export] Instance M_bind : MBind M := λ A B k m s,
  match m s with
  | Ret (a, s') => k a s'
  | Fault f => Fault f
  end.

Definition fail {A : Type} (f : fault) : M A := λ _, Fault f.
Definition gets {A : Type} (f : sos → A) : M A := λ s, Ret (f s, s).
Definition modify (f : sos → sos) : M unit := λ s, Ret (tt, f s).

(** A computation that cannot change the state. *)
Definition lift {A : Type} (o : outcome A) : M A := λ s,
  match o with
  | Ret a => Ret (a, s)
  | Fault f => Fault f
  end.

(** [assert(c)]. *)
Definition assertM (c : bool) : M unit := if c then mret tt else fail AssertFail.

(** Run [m] when the condition holds. *)
Definition whenM (c : bool) (m : M unit) : M unit := if c then m else mret tt.

(** One step of the environment. *)
Definition ask {A : Type} (f : env → nat → A) : M A := λ s,
  Ret (f (s_env s) (s_tick s), set_s_tick (S (s_tick s)) s).

Definition emit (e : event) : M unit := modify (λ s, set_s_log (s_log s ++ [e]) s).

(** An invocation of the kernel or of the cspace library: an error code, or the
    capability it returns. *)
Definition invoke (i : invocation) : M Z :=
  r ← ask e_sel4;
  _ ← emit (EvInvoke i r);
  mret r.

(** [seL4_Send(cap, seL4_MessageInfo_new(label, 0, 0, n))] with the message
    registers set. *)
Definition seL4_Send (cap label : Z) (mrs : list Z) : M unit := emit (EvSend cap label mrs).
Definition cspace_free_slot (cap : Z) : M unit := emit (EvFreeSlot cap).

(** * Memory *)

Definition PAGE_SIZE : Z := 4096.
Definition PAGE_ALIGN (a : Z) : Z := andnot32 a (PAGE_SIZE - 1).
Definition PAGE_OFFSET (a : Z) : Z := Z.land a (PAGE_SIZE - 1).

Definition FRAME_VSTART : Z := 0x20000000.
Definition FRAME_MEMORY : Z := 2 ^ 17.
Definition NFRAMES : Z := FRAME_MEMORY / PAGE_SIZE.

(** Fixed addresses of the console's buffer and of a stack variable, and the
    arena malloc serves from. *)
Definition CONSOLE_BUF : Z := 0x30000000.
Definition KSTACK : Z := 0x38000000.
Definition HEAP_START : Z := 0x40000000.
Definition HEAP_END : Z := 0x70000000.
Definition MAX_IO_BUF : Z := 0x1000.

(** [sizeof(frame_entry_t)]: eight words and three booleans. *)
Definition SIZEOF_FRAME_ENTRY : Z := 36.

(** The frame table is at the start of the first frame; it ends here. *)
Definition FRAMETABLE_END : Z := FRAME_VSTART + NFRAMES * SIZEOF_FRAME_ENTRY.

(** The bytes from [a] on belong to frames that are mapped in the kernel, and not
    to the frame table: [s_ft] holds that, so an access to its bytes as plain
    memory is outside the model and stops it. *)
Definition in_frames (fs : list frame_entry) (a n : Z) : bool :=
  (FRAMETABLE_END <=? a) && (a + n <=? FRAME_VSTART + FRAME_MEMORY) &&
  forallb (λ i : nat,
    let lo := FRAME_VSTART + Z.of_nat i * PAGE_SIZE in
    (lo + PAGE_SIZE <=? a) || (a + n <=? lo) ||
    match fs !! i with Some e => negb (fte_status e =? 0) | None => false end)
    (seq 0 (length fs)).

Definition in_buf (a n : Z) (p : Z * obj) : bool :=
  match p.2 with
  | OBuf size => (p.1 <=? a) && (a + n <=? p.1 + size)
  | _ => false
  end.

Definition in_static (a n : Z) : bool :=
  ((CONSOLE_BUF <=? a) && (a + n <=? CONSOLE_BUF + MAX_IO_BUF)) ||
  ((KSTACK <=? a) && (a + n <=? KSTACK + 20)).

(** The kernel may access the [n] bytes at [a]. *)
Definition accessible (s : sos) (a n : Z) : bool :=
  (n <=? 0) || in_frames (ft (s_ft s)) a n || in_static a n ||
  existsb (in_buf a n) (map_to_list (s_heap s)).

Definition check_access (a n : Z) : M unit := λ s,
  if accessible s a n then Ret (tt, s) else Fault OutOfBounds.

(** [n] bytes from [a], and their replacement. *)
Definition bytes_at (m : Z → Z) (a : Z) (n : nat) : list Z :=
  (λ i : nat, m (a + Z.of_nat i)) <$> seq 0 n.

Definition put_bytes (m : Z → Z) (a : Z) (l : list Z) : Z → Z := λ x,
  if (a <=? x) && (x <? a + Zlength l) then nth (Z.to_nat (x - a)) l 0 else m x.

Definition read_mem (a n : Z) : M (list Z) :=
  _ ← check_access a n;
  gets (λ s, bytes_at (s_mem s) a (Z.to_nat n)).

Definition write_mem (a : Z) (l : list Z) : M unit :=
  _ ← check_access a (Zlength l);
  modify (λ s, set_s_mem (put_bytes (s_mem s) a l) s).

(** [memcpy(dst, src, n)] and [bzero(a, n)]. *)
Definition memcpy (dst src n : Z) : M unit :=
  l ← read_mem src n;
  write_mem dst l.

Definition bzero (a n : Z) : M unit :=
  _ ← check_access a n;
  modify (λ s, set_s_mem
    (λ x, if (a <=? x) && (x <? a + n) then 0 else s_mem s x) s).

(** 32-bit words, little endian. *)
Definition word_of (m : Z → Z) (a : Z) : Z :=
  m a + 2 ^ 8 * m (a + 1) + 2 ^ 16 * m (a + 2) + 2 ^ 24 * m (a + 3).

Definition word_bytes (v : Z) : list Z :=
  [v mod 2 ^ 8; v / 2 ^ 8 mod 2 ^ 8; v / 2 ^ 16 mod 2 ^ 8; v / 2 ^ 24 mod 2 ^ 8].

Definition load_word (a : Z) : M Z :=
  _ ← check_access a 4;
  gets (λ s, word_of (s_mem s) a).

Definition store_word (a v : Z) : M unit := write_mem a (word_bytes v).

(** The characters of a string up to its terminator. *)
Fixpoint cstring (m : Z → Z) (a : Z) (n : nat) : list Z :=
  match n with
  | O => []
  | S n' => if m a =? 0 then [] else m a :: cstring m (a + 1) n'
  end.

(** * The heap *)

(** The bytes a block of [malloc(size)] takes with its header, as [adjust_size]
    of the C library rounds them, and those the caller may use. *)
Definition chunk_size (size : Z) : Z := 16 * ((size + 23) / 16).

Definition usable_size (size : Z) : Z := chunk_size size - 8.

Definition malloc_at (size : Z) (o : obj) : M Z := λ s,
  let s1 := set_s_tick (S (s_tick s)) s in
  let p := s_brk s in
  let top := p + chunk_size size in
  if e_malloc (s_env s) (s_tick s) && (0 <=? size) && (top <=? HEAP_END)
  then Ret (p, set_s_brk top (set_s_heap (<[p := o]> (s_heap s)) s1))
  else Ret (0, s1).

(** [malloc(sizeof(T))] followed by the assignments that fill the structure;
    0 when there is no memory. *)
Definition malloc {T : Type} `{HeapType T} (x : T) : M Z := malloc_at 8 (to_obj x).

(** [malloc(n)] for a character buffer. *)
Definition malloc_buf (n : Z) : M Z := malloc_at n (OBuf (usable_size n)).

Definition load {T : Type} `{HeapType T} (p : Z) : M T := λ s,
  if p =? 0 then Fault NullDeref
  else match s_heap s !! p with
       | Some o => match of_obj o with
                   | Some x => Ret (x, s)
                   | None => Fault Dangling
                   end
       | None => Fault Dangling
       end.

Definition store {T : Type} `{HeapType T} (p : Z) (x : T) : M unit :=
  _ ← load (T := T) p;
  modify (λ s, set_s_heap (<[p := to_obj x]> (s_heap s)) s).

Definition update {T : Type} `{HeapType T} (p : Z) (f : T → T) : M unit :=
  x ← load p;
  store p (f x).

Definition free (p : Z) : M unit := λ s,
  if p =? 0 then Ret (tt, s)
  else match s_heap s !! p with
       | Some _ => Ret (tt, set_s_heap (delete p (s_heap s)) s)
       | None => Fault Dangling
       end.

(** * Untyped memory *)

Definition run_ut {A : Type} (f : ut_state → outcome (A * ut_state)) : M A := λ s,
  match f (s_ut s) with
  | Ret (a, u) => Ret (a, set_s_ut u s)
  | Fault e => Fault e
  end.

Definition ut_allocM (sizebits : Z) : M Z := run_ut (λ u, ut_alloc u sizebits).

Definition ut_freeM (addr sizebits : Z) : M unit :=
  run_ut (λ u, u' ← ut_free u addr sizebits; Ret (tt, u')).

(** * NFS requests *)

Definition queue_rpc (r : rpc) : M unit :=
  _ ← modify (λ s, set_s_rpcs (s_rpcs s ++ [r]) s);
  emit (EvRpc r).

(** Hand a request to libnfs; [true] for [RPC_OK]. *)
Definition send_rpc (r : rpc) : M bool :=
  a ← ask e_rpc;
  match a with
  | rpc_sent => _ ← queue_rpc r; mret true
  | rpc_refused => mret false
  | rpc_unsent => _ ← queue_rpc (unsent r); mret false
  end.

(** The handle of the mounted directory. *)
Definition mnt_point : M Z := gets (λ s, e_mnt (s_env s)).

(** * Calls through function pointers, and calls between files that call each
    other *)

Inductive call : Type :=
  | CallFrame (cb : frame_cb) (token kvaddr : Z)
  | CallErr (cb : err_cb) (token err : Z)
  | CallVnode (cb : vnode_cb) (token err vn : Z)
  | CallOpen (cb : open_cb) (token err fd : Z)
  | CallAs (cb : as_cb) (token asp : Z)
  | CallElf (cb : elf_cb) (token err entry : Z)
  | CallProc (cb : proc_cb) (token err pid : Z)
  | CallWait (cb : wait_cb) (token pid : Z)
  | CallRead (cb : read_cb) (token err size : Z) (more : bool)
  | CallWrite (cb : write_cb) (token err size : Z)
  | CallDirent (cb : dirent_cb) (token err size : Z)
  | CallTimer (cb : timer_cb) (id data : Z)
  | Call_swap_out (kvaddr : Z) (cb : err_cb) (token : Z)
  | Call_vfs_open (path : list Z) (flags : Z) (cb : vnode_cb) (token : Z).

(** The interpreter of calls that the definitions of each component take as a
    parameter; it is tied in Machine.v. *)
Definition interp : Type := call → M Z.

(** A call whose result is ignored, or that returns void. *)
Definition call_ (rec : interp) (c : call) : M unit := _ ← rec c; mret tt.

(** * Before [main] *)

(** The static variables have the values C gives them, the heap is empty, and
    the untyped allocator has been set up. *)
Definition sos_start (e : env) (u : ut_state) : sos :=
  mk_sos
    (mk_ftab [] 0 false 0 0)
    (mk_swapst (replicate 1024 0) None)
    (λ _, 0) ∅ HEAP_START
    (mk_procst (replicate 64 0) 0 (replicate 64 0) (replicate 64 0) [] 0)
    false []
    (mk_con 0 0 0 false)
    (mk_conr false false 0 0 0 0 cb_serv_sys_read_end 0 0)
    (mk_clock 0 0 (replicate 64 (mk_timer 0 0 cb_sleep_callback 0 false)) false 0 0
       (mk_epit 0 0 0 0) (mk_epit 0 0 0 0))
    (mk_dma [] 0 0 0 0)
    0xB0000000 u [] [] e 0.

(** An environment in which malloc, seL4 and the devices always succeed; every
    capability is 0 (no error) and uninitialised variables hold 0. *)
Definition env_ok : env :=
  mk_env (λ _, true) (λ _, 0) (λ _, rpc_sent) (λ _, 1) (λ _, true) (λ _, 0) 0.
