(* ===== verification/Hoare.v ===== *)
(** Reasoning about computations of the monad.

    [keeps P m]: when [m] returns, [P] still holds.  The tactic [keeps] walks
    through the code of a function and closes every call with a lemma of the
    hint database [keeps]; the classes below collect what a property has to be
    insensitive to for every function of SOS to keep it. *)

From S2P Require Import Prelude UtAllocator Sos.

Definition keeps (P : sos → Prop) {A : Type} (m : M A) : Prop :=
  ∀ s a s', P s → m s = Ret (a, s') → P s'.

(** [m] leaves a part of the state alone. *)
Definition leaves {B : Type} (f : sos → B) {A : Type} (m : M A) : Prop :=
  ∀ s a s', m s = Ret (a, s') → f s' = f s.

(** * Steps of the monad *)

Lemma M_bind_Ret {A B : Type} (m : M A) (k : A → M B) (s s' : sos) (b : B) :
  (m ≫= k) s = Ret (b, s') ↔ ∃ a s1, m s = Ret (a, s1) ∧ k a s1 = Ret (b, s').
Proof.
  unfold mbind, M_bind. destruct (m s) as [[a s1] | f]; split.
  - eauto.
  - by intros (? & ? & [= <- <-] & ?).
  - discriminate.
  - by intros (? & ? & ? & ?).
Qed.

(** The rest of a computation after a step that is known to return. *)
Lemma M_bind_eq {A B : Type} (m : M A) (k : A → M B) (s s1 : sos) (a : A) :
  m s = Ret (a, s1) → (m ≫= k) s = k a s1.
Proof. unfold mbind, M_bind. by intros ->. Qed.

Lemma M_bind_Fault {A B : Type} (m : M A) (k : A → M B) (s : sos) (f : fault) :
  m s = Fault f → (m ≫= k) s = Fault f.
Proof. unfold mbind, M_bind. by intros ->. Qed.

Lemma mret_eq {A : Type} (a : A) (s : sos) : (mret a : M A) s = Ret (a, s).
Proof. done. Qed.

Lemma gets_eq {A : Type} (f : sos → A) (s : sos) : gets f s = Ret (f s, s).
Proof. done. Qed.

Lemma modify_eq (f : sos → sos) (s : sos) : modify f s = Ret (tt, f s).
Proof. done. Qed.

Lemma lift_eq {A : Type} (o : outcome A) (s : sos) (a : A) : o = Ret a → lift o s = Ret (a, s).
Proof. by intros ->. Qed.

Lemma assertM_eq (c : bool) (s : sos) : c = true → assertM c s = Ret (tt, s).
Proof. by intros ->. Qed.

Lemma load_eq {T : Type} `{HeapType T} (p : Z) (x : T) (s : sos) :
  p ≠ 0 → s_heap s !! p = Some (to_obj x) → load p s = Ret (x, s).
Proof.
  intros Hp Hx. unfold load. destruct (Z.eqb_spec p 0); [done |].
  by rewrite Hx, of_to_obj.
Qed.

Lemma load_Ret {T : Type} `{HeapType T} (p : Z) (x : T) (s s' : sos) :
  load p s = Ret (x, s') →
  s' = s ∧ p ≠ 0 ∧ ∃ o, s_heap s !! p = Some o ∧ of_obj o = Some x.
Proof.
  unfold load. destruct (Z.eqb_spec p 0); [discriminate |].
  destruct (s_heap s !! p) as [o |] eqn:E; [| discriminate].
  destruct (of_obj o) as [y |] eqn:E'; [| discriminate].
  intros [= <- <-]. eauto 6.
Qed.

Lemma store_eq {T : Type} `{HeapType T} (p : Z) (x y : T) (s : sos) :
  p ≠ 0 → s_heap s !! p = Some (to_obj y) →
  store p x s = Ret (tt, set_s_heap (<[p := to_obj x]> (s_heap s)) s).
Proof.
  intros Hp Hy. unfold store. erewrite M_bind_eq; [| by apply load_eq]. done.
Qed.

Lemma update_eq {T : Type} `{HeapType T} (p : Z) (f : T → T) (y : T) (s : sos) :
  p ≠ 0 → s_heap s !! p = Some (to_obj y) →
  update p f s = Ret (tt, set_s_heap (<[p := to_obj (f y)]> (s_heap s)) s).
Proof.
  intros Hp Hy. unfold update. erewrite M_bind_eq; [| by apply load_eq].
  by eapply store_eq.
Qed.

Lemma free_eq (p : Z) (o : obj) (s : sos) :
  p ≠ 0 → s_heap s !! p = Some o →
  free p s = Ret (tt, set_s_heap (delete p (s_heap s)) s).
Proof. intros Hp Ho. unfold free. destruct (Z.eqb_spec p 0); [done |]. by rewrite Ho. Qed.

(** [malloc] gives memory: the environment grants it and the arena has room. *)
Definition malloc_gives (s : sos) : Prop :=
  e_malloc (s_env s) (s_tick s) = true ∧ s_brk s + 16 ≤ HEAP_END.

Lemma malloc_eq {T : Type} `{HeapType T} (x : T) (s : sos) :
  malloc_gives s →
  malloc x s = Ret (s_brk s, set_s_brk (s_brk s + 16)
    (set_s_heap (<[s_brk s := to_obj x]> (s_heap s)) (set_s_tick (S (s_tick s)) s))).
Proof.
  intros [Hm Ht]. unfold malloc, malloc_at. rewrite Hm. cbn [andb Z.leb Z.compare].
  change (chunk_size 8) with 16. by destruct (Z.leb_spec (s_brk s + 16) HEAP_END); [| lia].
Qed.

#[export] Instance malloc_gives_dec (s : sos) : Decision (malloc_gives s).
Proof. unfold malloc_gives. apply _. Defined.

Lemma malloc_refused {T : Type} `{HeapType T} (x : T) (s : sos) :
  ¬ malloc_gives s → malloc x s = Ret (0, set_s_tick (S (s_tick s)) s).
Proof.
  unfold malloc_gives, malloc, malloc_at. change (chunk_size 8) with 16. intros Hn.
  destruct (e_malloc (s_env s) (s_tick s)); [| done]. cbn [andb Z.leb Z.compare].
  destruct (Z.leb_spec (s_brk s + 16) HEAP_END); [| done]. destruct Hn. by split.
Qed.

Lemma M_bind_ext {A B : Type} (m : M A) (k k' : A → M B) (s : sos) :
  (∀ a s', m s = Ret (a, s') → k a s' = k' a s') → mbind k m s = mbind k' m s.
Proof. unfold mbind, M_bind. destruct (m s) as [[a s'] |]; auto. Qed.

Lemma M_bind_left {A B : Type} (m m' : M A) (k : A → M B) (s s' : sos) :
  m s = m' s' → mbind k m s = mbind k m' s'.
Proof. intros E. unfold mbind, M_bind. by rewrite E. Qed.

Lemma M_bind_assoc {A B C : Type} (m : M A) (k : A → M B) (l : B → M C) (s : sos) :
  mbind l (mbind k m) s = mbind (λ a, mbind l (k a)) m s.
Proof. unfold mbind, M_bind. by destruct (m s) as [[??]|]. Qed.

(** * Running the monad *)

(** Take a computation that returned apart, up to the first call. *)
Ltac minv1 H :=
  match type of H with
  | (mbind _ _) _ = Ret _ =>
      let a := fresh "v" in let s1 := fresh "s" in
      let H1 := fresh "H" in let H2 := fresh "H" in
      apply M_bind_Ret in H as (a & s1 & H1 & H2);
      minv1 H1; minv1 H2
  | mret _ _ = Ret _ => injection H as <- <-
  | gets _ _ = Ret _ => injection H as <- <-
  | modify _ _ = Ret _ => injection H as <- <-
  | fail _ _ = Ret _ => discriminate H
  | assertM ?c _ = Ret _ =>
      let E := fresh "A" in destruct c eqn:E; [injection H as <- <- | discriminate H]
  | lift ?o _ = Ret _ =>
      let E := fresh "L" in unfold lift in H; destruct o eqn:E; [injection H as <- <- | discriminate H]
  | _ => idtac
  end.

(** Run the first call of the goal's computation, whose result is known. *)
Tactic Notation "mstep" uconstr(E) := erewrite M_bind_eq by (exact E); cbv beta iota.
Tactic Notation "mstep" uconstr(E) "by" tactic3(t) :=
  erewrite M_bind_eq by (eapply E; t); cbv beta iota.

(** Run the steps of the goal's computation that need no hypothesis. *)
Ltac mpure :=
  repeat first
    [ erewrite M_bind_eq by (apply gets_eq)
    | erewrite M_bind_eq by (apply modify_eq)
    | erewrite M_bind_eq by (apply mret_eq)
    | erewrite M_bind_eq by (apply assertM_eq; done) ];
  cbv beta iota.

(** Asking seL4: the answer of the environment is logged. *)
Lemma invoke_eq (i : invocation) (s : sos) :
  invoke i s =
    Ret (e_sel4 (s_env s) (s_tick s),
      set_s_log (s_log s ++ [EvInvoke i (e_sel4 (s_env s) (s_tick s))]) (set_s_tick (S (s_tick s)) s)).
Proof. done. Qed.

(** * Memory *)

Lemma check_access_eq a n s : accessible s a n = true → check_access a n s = Ret (tt, s).
Proof. intros H. unfold check_access. by rewrite H. Qed.

Lemma write_mem_eq a l s :
  accessible s a (Zlength l) = true →
  write_mem a l s = Ret (tt, set_s_mem (put_bytes (s_mem s) a l) s).
Proof. intros H. unfold write_mem. by mstep (check_access_eq _ _ _ H). Qed.

Lemma read_mem_eq a n s :
  accessible s a n = true → read_mem a n s = Ret (bytes_at (s_mem s) a (Z.to_nat n), s).
Proof. intros H. unfold read_mem. by mstep (check_access_eq _ _ _ H). Qed.

Lemma bzero_eq a n s :
  accessible s a n = true →
  bzero a n s =
    Ret (tt, set_s_mem (λ x, if (a <=? x) && (x <? a + n) then 0 else s_mem s x) s).
Proof. intros H. unfold bzero. by mstep (check_access_eq _ _ _ H). Qed.

(** * Keeping a property *)

Section keeps.
Context (P : sos → Prop).

Lemma keeps_ret {A : Type} (a : A) : keeps P (mret a).
Proof. by intros s b s' HP [= <- <-]. Qed.

Lemma keeps_fail {A : Type} (f : fault) : keeps P (fail (A := A) f).
Proof. by intros s b s' HP [=]. Qed.

Lemma keeps_gets {A : Type} (f : sos → A) : keeps P (gets f).
Proof. by intros s b s' HP [= <- <-]. Qed.

Lemma keeps_lift {A : Type} (o : outcome A) : keeps P (lift o).
Proof. intros s b s' HP. unfold lift. destruct o; [by intros [= <- <-] | done]. Qed.

Lemma keeps_modify (f : sos → sos) : (∀ s, P s → P (f s)) → keeps P (modify f).
Proof. intros Hf s b s' HP [= <- <-]. auto. Qed.

Lemma keeps_bind {A B : Type} (m : M A) (k : A → M B) :
  keeps P m → (∀ a, keeps P (k a)) → keeps P (m ≫= k).
Proof.
  intros Hm Hk s b s' HP (a & s1 & H1 & H2)%M_bind_Ret.
  exact (Hk a s1 b s' (Hm s a s1 HP H1) H2).
Qed.

Lemma keeps_assertM (c : bool) : keeps P (assertM c).
Proof. destruct c; [apply keeps_ret | apply keeps_fail]. Qed.

Lemma keeps_check_access (a n : Z) : keeps P (check_access a n).
Proof. intros s b s' HP. unfold check_access. by destruct accessible; [intros [= <- <-] |]. Qed.

Lemma keeps_load {T : Type} `{HeapType T} (p : Z) : keeps P (load p).
Proof. intros s b s' HP (-> & _)%load_Ret. done. Qed.

End keeps.

Create HintDb keeps.
#[export] Hint Resolve keeps_ret keeps_fail keeps_gets keeps_lift keeps_assertM
  keeps_check_access keeps_load : keeps.

(** Walk through the code of a function. *)
Ltac keeps_step :=
  match goal with
  | |- keeps _ (mbind _ _) => apply keeps_bind; [| intros ?]
  | |- keeps _ (let _ := _ in _) => cbv zeta
  | |- keeps _ (if ?b then _ else _) => destruct b
  | |- keeps _ (match ?x with _ => _ end) => destruct x
  | |- keeps _ _ => solve [eauto 3 with keeps]
  end.

Ltac keeps := repeat keeps_step.

(** * Properties that most of the code cannot affect *)

(** [P] does not depend on memory, the heap, the processes, the devices and the
    outside; it may depend on the frame table and the clock. *)
Class Stable (P : sos → Prop) : Prop := {
  st_swap : ∀ v s, P s → P (set_s_swap v s);
  st_mem : ∀ v s, P s → P (set_s_mem v s);
  st_heap : ∀ v s, P s → P (set_s_heap v s);
  st_brk : ∀ v s, P s → P (set_s_brk v s);
  st_proc : ∀ v s, P s → P (set_s_proc v s);
  st_starting : ∀ v s, P s → P (set_s_starting v s);
  st_vnt : ∀ v s, P s → P (set_s_vnt v s);
  st_con : ∀ v s, P s → P (set_s_con v s);
  st_conr : ∀ v s, P s → P (set_s_conr v s);
  st_ut : ∀ v s, P s → P (set_s_ut v s);
  st_rpcs : ∀ v s, P s → P (set_s_rpcs v s);
  st_log : ∀ v s, P s → P (set_s_log v s);
  st_tick : ∀ v s, P s → P (set_s_tick v s)
}.

(** Push a property through updates of the state. *)
Ltac stable :=
  repeat first
    [ assumption | apply st_swap | apply st_mem | apply st_heap | apply st_brk | apply st_proc
    | apply st_starting | apply st_vnt | apply st_con | apply st_conr | apply st_ut
    | apply st_rpcs | apply st_log | apply st_tick ].

Section stable.
Context (P : sos → Prop) `{!Stable P}.

Lemma keeps_ask {A : Type} (f : env → nat → A) : keeps P (ask f).
Proof. intros s b s' HP [= <- <-]. by apply st_tick. Qed.

Lemma keeps_emit (e : event) : keeps P (emit e).
Proof. apply keeps_modify. intros. by apply st_log. Qed.

Lemma keeps_whenM (c : bool) (m : M unit) : keeps P m → keeps P (whenM c m).
Proof. destruct c; [done | intros; apply keeps_ret]. Qed.

Lemma keeps_store {T : Type} `{HeapType T} (p : Z) (x : T) : keeps P (store p x).
Proof.
  apply keeps_bind; [apply keeps_load | intros]. apply keeps_modify. intros. by apply st_heap.
Qed.

Lemma keeps_update {T : Type} `{HeapType T} (p : Z) (f : T → T) : keeps P (update p f).
Proof. apply keeps_bind; [apply keeps_load | intros; apply keeps_store]. Qed.

Lemma keeps_free (p : Z) : keeps P (free p).
Proof.
  intros s b s' HP. unfold free. destruct (p =? 0); [by intros [= <- <-] |].
  destruct (s_heap s !! p); [| done]. intros [= <- <-]. by apply st_heap.
Qed.

Lemma keeps_malloc_at (size : Z) (o : obj) : keeps P (malloc_at size o).
Proof.
  intros s b s' HP. unfold malloc_at.
  destruct (_ && _); intros [= <- <-]; stable.
Qed.

Lemma keeps_malloc {T : Type} `{HeapType T} (x : T) : keeps P (malloc x).
Proof. apply keeps_malloc_at. Qed.

Lemma keeps_run_ut {A : Type} (f : ut_state → outcome (A * ut_state)) : keeps P (run_ut f).
Proof.
  intros s b s' HP. unfold run_ut. destruct (f (s_ut s)) as [[? ?] | ?]; [| done].
  intros [= <- <-]. by apply st_ut.
Qed.

Lemma keeps_call_ (rec : interp) (c : call) : keeps P (rec c) → keeps P (call_ rec c).
Proof. intros H. apply keeps_bind; [exact H | intros; apply keeps_ret]. Qed.

End stable.

#[export] Hint Resolve keeps_ask keeps_emit keeps_whenM keeps_store keeps_update keeps_free
  keeps_malloc_at keeps_malloc keeps_run_ut keeps_call_ : keeps.
#[export] Hint Extern 1 (keeps _ (modify _)) => (apply keeps_modify; intros; stable) : keeps.
#[export] Hint Extern 0 (Stable _) => (typeclasses eauto) : keeps.
