(* ===== verification/Pbuf.v ===== *)
(** Packet buffers (libs/libnfs/src/pbuf_helpers.c, and the parts of lwIP's
    core/pbuf.c and core/def.c it is built on).

    A packet buffer is a chain of segments; lwIP keeps its total length at most
    65535.  The helpers read and write words in network order, strings and raw
    bytes at a position of the chain.  The theorems show that the segments do
    not matter: every read is a slice of the bytes of the chain, every write
    replaces a slice, and whatever does not fit is caught by an assertion. *)

From S2P Require Import Prelude UtAllocator Sos.

(** * The chain *)

Definition u16 (x : Z) : Z := x mod 2 ^ 16.
Global Arguments u16 : simpl never.

(** [struct pbuf]: the payloads along [next]; [len] is the length of a payload,
    [tot_len] that of the chain. *)
Definition pbuf : Type := list (list Z).

Definition tot_len (p : pbuf) : Z := Zlength (concat p).

(** [d] written over [l] from [off] on. *)
Definition splice (l : list Z) (off : Z) (d : list Z) : list Z :=
  take (Z.to_nat off) l ++ d ++ drop (Z.to_nat off + length d) l.

(** [n] bytes of [l] from [off] on. *)
Definition slice (l : list Z) (off n : Z) : list Z :=
  take (Z.to_nat n) (drop (Z.to_nat off) l).

(** * lwIP *)

Definition lwip_htonl (n : Z) : Z :=
  Z.lor (Z.lor (Z.lor (Z.shiftl (Z.land n 0xff) 24) (Z.shiftl (Z.land n 0xff00) 8))
           (Z.shiftr (Z.land n 0xff0000) 8))
    (Z.shiftr (Z.land n 0xff000000) 24).

Definition lwip_ntohl (n : Z) : Z := lwip_htonl n.

Fixpoint pbuf_copy_partial (p : pbuf) (len offset : Z) : list Z :=
  match p with
  | [] => []
  | seg :: p' =>
      if len =? 0 then []
      else if negb (offset =? 0) && (Zlength seg <=? offset) then
        pbuf_copy_partial p' len (offset - Zlength seg)
      else
        let n := Z.min (Zlength seg - offset) len in
        slice seg offset n ++ pbuf_copy_partial p' (len - n) 0
  end.

(** The loop of [pbuf_realloc]: the chain is cut after [rem_len] bytes. *)
Fixpoint pbuf_trim (p : pbuf) (rem_len : Z) : outcome pbuf :=
  match p with
  | [] => Fault AssertFail
  | seg :: p' =>
      if Zlength seg <? rem_len then
        p'' ← pbuf_trim p' (rem_len - Zlength seg);
        Ret (seg :: p'')
      else Ret [take (Z.to_nat rem_len) seg]
  end.

Definition pbuf_realloc (p : pbuf) (new_len : Z) : outcome pbuf :=
  if tot_len p <=? u16 new_len then Ret p else pbuf_trim p (u16 new_len).

(** A chain that goes on after the end of its first packet. *)
Definition is_packet_queue (p : pbuf) : bool :=
  match p with
  | seg :: _ :: _ => Zlength seg =? tot_len p
  | _ => false
  end.

(** The loop of [pbuf_copy]; [off_to] and [off_from] are the offsets in the first
    segments of what is left of the two chains.  The result is the target from
    its current segment on, or [None] for [ERR_ARG] and [ERR_VAL]. *)
Fixpoint pbuf_copy_loop (fuel : nat) (p_to p_from : pbuf) (off_to off_from : Z) :
    outcome (option pbuf) :=
  match fuel with
  | O => Fault OutOfFuel
  | S fuel' =>
      match p_to, p_from with
      | to :: p_to', from :: p_from' =>
          let len := if Zlength from - off_from <=? Zlength to - off_to
                     then Zlength from - off_from else Zlength to - off_to in
          let to := splice to off_to (slice from off_from len) in
          let off_to := off_to + len in
          let off_from := off_from + len in
          let '(p_from, off_from) :=
            if Zlength from <=? off_from then (p_from', 0) else (p_from, off_from) in
          let '(done, p_to, off_to) :=
            if off_to =? Zlength to then ([to], p_to', 0) else ([], to :: p_to', off_to) in
          if bool_decide (p_to = []) && negb (bool_decide (p_from = [])) then Ret None
          else if is_packet_queue p_from || is_packet_queue p_to then Ret None
          else if bool_decide (p_from = []) then Ret (Some (done ++ p_to))
          else
            r ← pbuf_copy_loop fuel' p_to p_from off_to off_from;
            Ret (option_map (app done) r)
      | _, _ => Fault NullDeref
      end
  end.

(** Every turn of the loop finishes a segment of one of the chains. *)
Definition pbuf_copy (p_to p_from : pbuf) : outcome (option pbuf) :=
  if bool_decide (p_to = []) || bool_decide (p_from = []) || (tot_len p_to <? tot_len p_from)
  then Ret None
  else pbuf_copy_loop (length p_to + length p_from) p_to p_from 0 0.

(** * Writing *)

Definition ROUNDDOWN (v r : Z) : Z := v - Z.land v (r - 1).
Definition ROUNDUP (v r : Z) : Z := ROUNDDOWN (v + r - 1) r.

(** Align a position to the start of a network long. *)
Definition pb_alignl (pos : Z) : Z := ROUNDUP pos 4.

(** The second loop of [pbuf_take_partial]: [left] bytes of [data] are still to
    be written, the first at [offset] of the first segment. *)
Fixpoint take_write (p : pbuf) (data : list Z) (left offset : Z) : outcome pbuf :=
  match p with
  | [] => if left <=? 0 then Ret [] else Fault NullDeref
  | seg :: p' =>
      if left <=? 0 then Ret p else
      let bytes := Z.min (Zlength seg - offset) left in
      if Zlength data <? bytes then Fault OutOfBounds else
      p'' ← take_write p' (drop (Z.to_nat bytes) data) (left - bytes) 0;
      Ret (splice seg offset (take (Z.to_nat bytes) data) :: p'')
  end.

(** The first loop of [pbuf_take_partial], which finds the segment of [offset]. *)
Fixpoint take_seek (p : pbuf) (data : list Z) (left offset : Z) : outcome pbuf :=
  match p with
  | [] => Fault NullDeref
  | seg :: p' =>
      if Zlength seg <=? offset then
        p'' ← take_seek p' data left (offset - Zlength seg);
        Ret (seg :: p'')
      else take_write p data left offset
  end.

Definition pbuf_take_partial (p : pbuf) (data : list Z) (len offset : Z) : outcome (Z * pbuf) :=
  if len =? 0 then Ret (0, p) else
  _ ← c_assert (offset <? tot_len p);
  _ ← c_assert (offset + len <=? tot_len p);
  p' ← take_seek p data len offset;
  Ret (len, p').

(** A position is an [int]; the result is the buffer and the new position. *)
Definition pb_write (p : pbuf) (data : list Z) (count pos : Z) : outcome (pbuf * Z) :=
  '(n, p') ← pbuf_take_partial p data (u16 count) (u16 pos);
  Ret (p', pos + n).

Definition pb_write_arrl (p : pbuf) (arr : list Z) (pos : Z) : outcome (pbuf * Z) :=
  let nl_arr := lwip_htonl <$> arr in
  pb_write p (nl_arr ≫= word_bytes) (4 * Zlength arr) pos.

Definition pb_writel (p : pbuf) (v pos : Z) : outcome (pbuf * Z) := pb_write_arrl p [v] pos.

Definition pb_write_str (p : pbuf) (str : list Z) (len pos : Z) : outcome (pbuf * Z) :=
  '(p, pos) ← pb_write_arrl p [len] pos;
  '(p, pos) ← pb_write p str (i32 len) pos;
  pb_write p (word_bytes 0) (ROUNDUP pos 4 - pos) pos.

(** * Reading *)

Definition pb_read (p : pbuf) (count pos : Z) : outcome (list Z * Z) :=
  _ ← c_assert (pos <=? tot_len p);
  _ ← c_assert (pos + count <=? tot_len p);
  let data := pbuf_copy_partial p (u16 count) (u16 pos) in
  _ ← c_assert (count =? Zlength data);
  Ret (data, pos + Zlength data).

(** The words of a byte array, as the processor loads them. *)
Fixpoint words_of (l : list Z) : list Z :=
  match l with
  | a :: b :: c :: d :: l' => a + 256 * b + 65536 * c + 16777216 * d :: words_of l'
  | _ => []
  end.

(** [size] is the size of the array in bytes. *)
Definition pb_read_arrl (p : pbuf) (size pos : Z) : outcome (list Z * Z) :=
  '(l, pos) ← pb_read p size pos;
  Ret (lwip_ntohl <$> words_of l, pos).

Definition pb_readl (p : pbuf) (pos : Z) : outcome (Z * Z) :=
  '(l, pos) ← pb_read_arrl p 4 pos;
  Ret (default 0 (head l), pos).

(** [strlen < maxlen - 1] compares as unsigned numbers. *)
Definition pb_read_str (p : pbuf) (maxlen pos : Z) : outcome (list Z * Z) :=
  '(strlen, pos) ← pb_readl p pos;
  _ ← c_assert (strlen <? u32 (maxlen - 1));
  '(str, pos) ← pb_read p (i32 strlen) pos;
  Ret (str, pb_alignl pos).

(** * Network order *)

(** The bytes of a word in network order, and back. *)
Definition be_bytes (v : Z) : list Z :=
  [v / 2 ^ 24 mod 2 ^ 8; v / 2 ^ 16 mod 2 ^ 8; v / 2 ^ 8 mod 2 ^ 8; v mod 2 ^ 8].

Definition byte (b : Z) : Prop := 0 ≤ b < 2 ^ 8.

Fixpoint be_words (l : list Z) : list Z :=
  match l with
  | a :: b :: c :: d :: l' => a * 2 ^ 24 + b * 2 ^ 16 + c * 2 ^ 8 + d :: be_words l'
  | _ => []
  end.

Lemma htonl_eq n :
  lwip_htonl n = n mod 2 ^ 8 * 2 ^ 24 + (n / 2 ^ 8 mod 2 ^ 8 * 2 ^ 16 +
                 (n / 2 ^ 16 mod 2 ^ 8 * 2 ^ 8 + n / 2 ^ 24 mod 2 ^ 8)).
Proof.
  unfold lwip_htonl.
  change 0xff000000 with (Z.shiftl (Z.ones 8) 24). change 0xff0000 with (Z.shiftl (Z.ones 8) 16).
  change 0xff00 with (Z.shiftl (Z.ones 8) 8). change 0xff with (Z.ones 8).
  rewrite !land_field, Z.land_ones by lia. rewrite !Z.shiftl_mul_pow2, !Z.shiftr_div_pow2 by lia.
  pose proof (Z.mod_pos_bound n (2 ^ 8)). pose proof (Z.mod_pos_bound (n / 2 ^ 8) (2 ^ 8)).
  pose proof (Z.mod_pos_bound (n / 2 ^ 16) (2 ^ 8)). pose proof (Z.mod_pos_bound (n / 2 ^ 24) (2 ^ 8)).
  rewrite <- !Z.lor_assoc.
  replace (n / 2 ^ 16 mod 2 ^ 8 * 2 ^ 16 / 2 ^ 8) with (n / 2 ^ 16 mod 2 ^ 8 * 2 ^ 8)
    by (generalize (n / 2 ^ 16 mod 2 ^ 8); intros; divmod).
  rewrite Z.div_mul by lia.
  replace (n / 2 ^ 8 mod 2 ^ 8 * 2 ^ 8 * 2 ^ 8) with (n / 2 ^ 8 mod 2 ^ 8 * 2 ^ 16) by lia.
  rewrite (lor_high_low (n / 2 ^ 16 mod 2 ^ 8)) by lia.
  rewrite (lor_high_low (n / 2 ^ 8 mod 2 ^ 8)) by lia. by rewrite lor_high_low by lia.
Qed.

Lemma htonl_bytes v : word_bytes (lwip_htonl v) = be_bytes v.
Proof.
  rewrite htonl_eq. unfold word_bytes, be_bytes.
  pose proof (Z.mod_pos_bound v (2 ^ 8)). pose proof (Z.mod_pos_bound (v / 2 ^ 8) (2 ^ 8)).
  pose proof (Z.mod_pos_bound (v / 2 ^ 16) (2 ^ 8)). pose proof (Z.mod_pos_bound (v / 2 ^ 24) (2 ^ 8)).
  generalize dependent (v mod 2 ^ 8). generalize dependent (v / 2 ^ 8 mod 2 ^ 8).
  generalize dependent (v / 2 ^ 16 mod 2 ^ 8). generalize dependent (v / 2 ^ 24 mod 2 ^ 8).
  intros a Ha b Hb c Hc d Hd. repeat f_equal; divmod.
Qed.

Lemma ntohl_words l : Forall byte l → lwip_ntohl <$> words_of l = be_words l.
Proof.
  unfold byte. remember (length l) as n eqn:Hn. revert l Hn.
  induction n as [n IH] using lt_wf_ind; intros l -> Hl.
  destruct l as [|a [|b [|c [|d l]]]]; [done.. |].
  rewrite !Forall_cons in Hl. destruct Hl as (Ha & Hb & Hc & Hd & Hl).
  cbn [words_of be_words fmap list_fmap]. f_equal.
  - unfold lwip_ntohl. rewrite htonl_eq. divmod.
  - by apply (IH (length l)); [cbn [length]; lia | |].
Qed.

Lemma be_words_bytes vs : Forall (λ v, 0 ≤ v < 2 ^ 32) vs → be_words (vs ≫= be_bytes) = vs.
Proof.
  induction 1 as [|v vs Hv _ IH]; [done |].
  cbn [mbind list_bind be_bytes app be_words]. rewrite IH. f_equal. divmod.
Qed.

Lemma be_bytes_byte v : Forall byte (be_bytes v).
Proof. unfold be_bytes, byte. repeat constructor; apply Z.mod_pos_bound; lia. Qed.

(** * Slices *)

Lemma splice_nil l off : splice l off [] = l.
Proof. unfold splice. cbn [length app]. by rewrite Nat.add_0_r, take_drop. Qed.

Lemma length_splice l off d :
  0 ≤ off → off + Zlength d ≤ Zlength l → length (splice l off d) = length l.
Proof.
  unfold splice, Zlength. intros. rewrite !length_app, length_take, length_drop. lia.
Qed.

Lemma splice_app_l l k off d :
  0 ≤ off → off + Zlength d ≤ Zlength l → splice (l ++ k) off d = splice l off d ++ k.
Proof.
  unfold splice, Zlength. intros. rewrite take_app_le, drop_app_le by lia. by rewrite <- !app_assoc.
Qed.

Lemma splice_app_r l k off d :
  Zlength l ≤ off → splice (l ++ k) off d = l ++ splice k (off - Zlength l) d.
Proof.
  unfold splice, Zlength. intros. rewrite take_app_ge, drop_app_ge, <- app_assoc by lia.
  repeat (f_equal; try lia).
Qed.

(** A write that runs over the end of [l]. *)
Lemma splice_app_over l k off d :
  0 ≤ off ≤ Zlength l → Zlength l ≤ off + Zlength d →
  splice (l ++ k) off d =
    splice l off (take (Z.to_nat (Zlength l - off)) d) ++
    splice k 0 (drop (Z.to_nat (Zlength l - off)) d).
Proof.
  unfold splice, Zlength. intros.
  rewrite take_app_le, drop_app_ge, length_take, length_drop by lia.
  rewrite (drop_ge l) by lia. rewrite app_nil_r, <- !app_assoc, take_0. cbn [app].
  rewrite (app_assoc (take _ d)), take_drop. f_equal. f_equal. f_equal. lia.
Qed.

Lemma slice_app l k off n :
  0 ≤ off → 0 ≤ n →
  slice (l ++ k) off n =
    slice l off n ++ slice k (Z.max 0 (off - Zlength l)) (n - Zlength (slice l off n)).
Proof.
  unfold slice, Zlength. intros. rewrite drop_app, take_app, length_take, length_drop.
  f_equal. f_equal; [lia |]. f_equal. lia.
Qed.

Lemma Zlength_slice l off n :
  0 ≤ off → 0 ≤ n → off + n ≤ Zlength l → Zlength (slice l off n) = n.
Proof. unfold slice, Zlength. intros. rewrite length_take, length_drop. lia. Qed.

(** * Chains and their bytes *)

Lemma tot_len_cons seg p : tot_len (seg :: p) = Zlength seg + tot_len p.
Proof. unfold tot_len. cbn [concat]. apply Zlength_app. Qed.

Lemma tot_len_nonneg p : 0 ≤ tot_len p.
Proof. apply Zlength_nonneg. Qed.

Lemma tot_len_eq p q : length <$> p = length <$> q → tot_len p = tot_len q.
Proof.
  revert q. induction p as [|a p IH]; intros [|b q] H; try discriminate; [done |].
  injection H as Hab Hpq. rewrite !tot_len_cons, (IH q) by done. unfold Zlength. lia.
Qed.

Lemma take_write_eq p data left offset :
  0 ≤ left ≤ Zlength data → 0 ≤ offset → offset + left ≤ tot_len p →
  offset ≤ Zlength (default [] (head p)) →
  ∃ p', take_write p data left offset = Ret p' ∧ length <$> p' = length <$> p ∧
    concat p' = splice (concat p) offset (take (Z.to_nat left) data).
Proof.
  revert data left offset. induction p as [|seg p IH]; intros data left offset Hl Ho Ht Hh.
  - change (tot_len []) with 0 in Ht. exists []. assert (left = 0) as -> by lia.
    cbn [take_write]. rewrite splice_nil. done.
  - rewrite tot_len_cons in Ht. change (offset ≤ Zlength seg) in Hh. cbn [take_write].
    destruct (Z.leb_spec left 0) as [Hz | Hz].
    { assert (left = 0) as -> by lia. exists (seg :: p). by rewrite splice_nil. }
    pose proof (tot_len_nonneg p). set (b := Z.min (Zlength seg - offset) left).
    destruct (Z.ltb_spec (Zlength data) b) as [Hb | Hb]; [lia |].
    destruct (IH (drop (Z.to_nat b) data) (left - b) 0) as (p' & E & Hlen & Hc);
      [rewrite Zlength_drop; lia | lia | lia | apply Zlength_nonneg |].
    rewrite E. exists (splice seg offset (take (Z.to_nat b) data) :: p').
    split; [done |]. cbn [fmap list_fmap concat].
    rewrite length_splice by (rewrite ?Zlength_take; lia). split; [by f_equal |]. rewrite Hc.
    destruct (decide (b = left)) as [Hbl | Hbl].
    + rewrite Hbl, Z.sub_diag. change (Z.to_nat 0) with 0%nat. rewrite take_0, splice_nil.
      by rewrite splice_app_l by (rewrite ?Zlength_take; lia).
    + rewrite splice_app_over by (rewrite ?Zlength_take; lia).
      replace (Zlength seg - offset) with b by lia.
      rewrite take_take, skipn_firstn_comm. repeat (f_equal; try lia).
Qed.

Lemma take_seek_eq p data left offset :
  0 ≤ left ≤ Zlength data → 0 ≤ offset → offset < tot_len p → offset + left ≤ tot_len p →
  ∃ p', take_seek p data left offset = Ret p' ∧ length <$> p' = length <$> p ∧
    concat p' = splice (concat p) offset (take (Z.to_nat left) data).
Proof.
  revert offset. induction p as [|seg p IH]; intros offset Hl Ho Hs Ht.
  - change (tot_len []) with 0 in Hs. lia.
  - cbn [take_seek]. destruct (Z.leb_spec (Zlength seg) offset) as [Hz | Hz].
    + rewrite tot_len_cons in *. destruct (IH (offset - Zlength seg)) as (p' & E & Hlen & Hc); [lia.. |].
      rewrite E. exists (seg :: p'). split; [done |]. cbn [fmap list_fmap concat].
      split; [by f_equal |]. by rewrite Hc, splice_app_r by lia.
    + apply take_write_eq; [done.. | cbn; lia].
Qed.

Lemma pbuf_copy_partial_eq p len offset :
  0 ≤ len → 0 ≤ offset → pbuf_copy_partial p len offset = slice (concat p) offset len.
Proof.
  revert len offset. induction p as [|seg p IH]; intros len offset Hl Ho.
  - cbn. unfold slice. by rewrite drop_nil, take_nil.
  - cbn [pbuf_copy_partial concat]. destruct (Z.eqb_spec len 0) as [-> |]; [done |].
    pose proof (Zlength_nonneg seg). rewrite slice_app by done.
    destruct (negb (offset =? 0) && (Zlength seg <=? offset)) eqn:E.
    + apply andb_true_iff in E as [E1 E2]. apply Z.leb_le in E2. rewrite IH by lia.
      assert (slice seg offset len = []) as ->
        by (unfold slice, Zlength in *; by rewrite drop_ge, take_nil by lia).
      cbn [app]. f_equal; [lia |]. change (Zlength []) with 0. lia.
    + assert (offset ≤ Zlength seg) as Hle.
      { apply andb_false_iff in E as [E | E]; [apply negb_false_iff, Z.eqb_eq in E; lia |].
        apply Z.leb_gt in E. lia. }
      rewrite IH by lia. f_equal.
      * unfold slice, Zlength in *. destruct (decide (len ≤ Z.of_nat (length seg) - offset)).
        -- f_equal. lia.
        -- rewrite !take_ge; [done | rewrite length_drop; lia..].
      * f_equal; [lia |]. unfold slice, Zlength in *. rewrite length_take, length_drop. lia.
Qed.

Lemma pbuf_trim_eq p n :
  0 ≤ n → n ≤ tot_len p → p ≠ [] →
  ∃ p', pbuf_trim p n = Ret p' ∧ concat p' = take (Z.to_nat n) (concat p).
Proof.
  revert n. induction p as [|seg p IH]; intros n Hn Ht Hp; [done |].
  rewrite tot_len_cons in Ht. cbn [pbuf_trim].
  destruct (Z.ltb_spec (Zlength seg) n) as [Hz | Hz].
  - destruct (IH (n - Zlength seg)) as (p' & E & Hc); [lia.. | intros ->; change (tot_len []) with 0 in Ht; lia |].
    rewrite E. exists (seg :: p'). split; [done |]. cbn [concat]. rewrite Hc.
    unfold Zlength in *. rewrite take_app_ge by lia. f_equal. f_equal. lia.
  - exists [take (Z.to_nat n) seg]. split; [done |]. cbn [concat]. rewrite app_nil_r.
    unfold Zlength in *. by rewrite take_app_le by lia.
Qed.

(** Copying into one segment, as [my_udp_send] does. *)
Lemma not_packet_queue p : Forall (λ seg, seg ≠ []) p → is_packet_queue p = false.
Proof.
  intros H. destruct p as [|a [|b p]]; [done.. |]. cbn [is_packet_queue].
  apply Z.eqb_neq. rewrite !tot_len_cons. rewrite !Forall_cons in H. destruct H as (_ & Hb & _).
  pose proof (tot_len_nonneg p). destruct b; [done |]. rewrite Zlength_cons.
  pose proof (Zlength_nonneg b). lia.
Qed.

Lemma splice_splice l off d e :
  0 ≤ off → off + Zlength d + Zlength e ≤ Zlength l →
  splice (splice l off d) (off + Zlength d) e = splice l off (d ++ e).
Proof.
  unfold splice, Zlength. intros.
  rewrite (app_assoc (take _ l) d).
  assert (length (take (Z.to_nat off) l ++ d) = Z.to_nat (off + Z.of_nat (length d))) as E
    by (rewrite length_app, length_take; lia).
  rewrite <- E at 1. rewrite take_app_length.
  rewrite drop_app_ge by (rewrite length_app, length_take; lia).
  rewrite drop_drop, <- !app_assoc. do 3 f_equal. rewrite E, length_app. f_equal. lia.
Qed.

Lemma slice_all l : slice l 0 (Zlength l) = l.
Proof. unfold slice, Zlength. rewrite drop_0. apply take_ge. lia. Qed.

Lemma pbuf_copy_loop_eq p to off fuel :
  Forall (λ seg, seg ≠ []) p → p ≠ [] → 0 ≤ off → off + tot_len p ≤ Zlength to →
  (length p ≤ fuel)%nat →
  pbuf_copy_loop fuel [to] p off 0 = Ret (Some [splice to off (concat p)]).
Proof.
  revert to off fuel. induction p as [|seg p IH]; intros to off fuel Hne Hp Ho Ht Hf; [done |].
  destruct fuel as [|fuel]; [cbn [length] in Hf; lia |]. rewrite tot_len_cons in Ht.
  pose proof (tot_len_nonneg p). pose proof (Zlength_nonneg seg) as Hs.
  apply Forall_cons in Hne as [Hseg Hne].
  cbn [pbuf_copy_loop]. rewrite Z.sub_0_r.
  destruct (Z.leb_spec (Zlength seg) (Zlength to - off)) as [_ |]; [| lia].
  rewrite slice_all, Z.add_0_l. destruct (Z.leb_spec (Zlength seg) (Zlength seg)) as [_ |]; [| lia].
  assert (Zlength (splice to off seg) = Zlength to) as Hl
    by (unfold Zlength; rewrite length_splice; [done | lia | unfold Zlength in *; lia]).
  rewrite Hl. destruct p as [|seg' p].
  - cbn [concat]. rewrite app_nil_r.
    by destruct (Z.eqb_spec (off + Zlength seg) (Zlength to)).
  - assert (0 < Zlength seg') by (apply Forall_cons in Hne as [? _]; destruct seg'; [done |];
      rewrite Zlength_cons; pose proof (Zlength_nonneg seg'); lia).
    rewrite tot_len_cons in Ht, H. pose proof (tot_len_nonneg p).
    destruct (Z.eqb_spec (off + Zlength seg) (Zlength to)) as [| _]; [lia |].
    rewrite (not_packet_queue (seg' :: p)) by done. cbn -[pbuf_copy_loop splice Zlength].
    rewrite IH; [| done.. | lia | rewrite Hl, tot_len_cons; lia | cbn [length] in *; lia].
    cbn [concat option_map app]. rewrite splice_splice; [done | lia |].
    rewrite Zlength_app. change (Zlength (concat p)) with (tot_len p). lia.
Qed.

(** * The helpers *)

Lemma u16_small x : 0 ≤ x < 2 ^ 16 → u16 x = x.
Proof. apply Z.mod_small. Qed.

Lemma pb_write_eq p data count pos :
  tot_len p < 2 ^ 16 → 0 ≤ pos → 0 ≤ count ≤ Zlength data → pos + count ≤ tot_len p →
  ∃ p', pb_write p data count pos = Ret (p', pos + count) ∧ length <$> p' = length <$> p ∧
    concat p' = splice (concat p) pos (take (Z.to_nat count) data).
Proof.
  intros Hp Hpos Hc Ht. unfold pb_write, pbuf_take_partial. rewrite !u16_small by lia.
  destruct (Z.eqb_spec count 0) as [-> |].
  - exists p. by rewrite splice_nil.
  - rewrite !c_assert_true by (apply Z.ltb_lt || apply Z.leb_le; lia).
    destruct (take_seek_eq p data count pos) as (p' & E & Hlen & Hcat); [lia.. |].
    exists p'. cbn [mbind outcome_bind]. by rewrite E.
Qed.

Lemma pb_write_full p data count pos :
  tot_len p < 2 ^ 16 → 0 ≤ pos < 2 ^ 16 → 0 < count < 2 ^ 16 → tot_len p < pos + count →
  pb_write p data count pos = Fault AssertFail.
Proof.
  intros Hp Hpos Hc Ht. unfold pb_write, pbuf_take_partial. rewrite !u16_small by lia.
  destruct (Z.eqb_spec count 0) as [-> |]; [lia |]. unfold c_assert.
  destruct (pos <? tot_len p); [| done]. destruct (Z.leb_spec (pos + count) (tot_len p)); [lia | done].
Qed.

Lemma pb_read_eq p count pos :
  tot_len p < 2 ^ 16 → 0 ≤ pos →
  pb_read p count pos =
    if (0 <=? count) && (pos + count <=? tot_len p)
    then Ret (slice (concat p) pos count, pos + count) else Fault AssertFail.
Proof.
  intros Hp Hpos. unfold pb_read.
  destruct (Z.leb_spec pos (tot_len p)) as [H1 | H1]; cbn [c_assert mbind outcome_bind].
  2: { destruct (Z.leb_spec 0 count), (Z.leb_spec (pos + count) (tot_len p)); try done. lia. }
  destruct (Z.leb_spec (pos + count) (tot_len p)) as [H2 | H2]; cbn [c_assert mbind outcome_bind].
  2: by rewrite andb_false_r.
  rewrite andb_true_r, (u16_small pos) by lia.
  rewrite pbuf_copy_partial_eq by (try apply Z.mod_pos_bound; lia).
  destruct (Z.leb_spec 0 count) as [H3 | H3].
  - rewrite u16_small by lia. rewrite Zlength_slice by (try done; unfold tot_len in *; lia).
    by rewrite c_assert_true by (apply Z.eqb_eq; done).
  - pose proof (Zlength_nonneg (slice (concat p) pos (u16 count))).
    by destruct (Z.eqb_spec count (Zlength (slice (concat p) pos (u16 count)))); [lia |].
Qed.

(** Two chains with the same bytes. *)
Definition same_bytes (p q : pbuf) : Prop := concat p = concat q.

#[export] Instance same_bytes_equiv : Equivalence same_bytes.
Proof. split; [done | intros p q; exact (@eq_sym _ _ _) | intros p q r; apply eq_trans]. Qed.

#[export] Instance tot_len_proper : Proper (same_bytes ==> eq) tot_len.
Proof. intros p q H. unfold tot_len. by rewrite H. Qed.

Lemma same_bytes_single p : same_bytes p [concat p].
Proof. unfold same_bytes. cbn. by rewrite app_nil_r. Qed.

(** Functions that only read a buffer give the same for the same bytes: the
    tactic compares the two runs step by step. *)
Ltac same_reads H :=
  repeat first
    [ reflexivity
    | rewrite H; reflexivity
    | match goal with
      | |- (match ?x with _ => _ end) = _ => destruct x
      | |- _ ≫= _ = _ ≫= _ => apply bind_cong; [| intros ?]
      end ].

Lemma copy_partial_proper p q len offset :
  same_bytes p q → 0 ≤ len → 0 ≤ offset →
  pbuf_copy_partial p len offset = pbuf_copy_partial q len offset.
Proof. intros H ? ?. by rewrite !pbuf_copy_partial_eq, H. Qed.

#[export] Instance pb_read_proper : Proper (same_bytes ==> eq ==> eq ==> eq) pb_read.
Proof.
  intros p q H count ? <- pos ? <-. unfold pb_read.
  rewrite (copy_partial_proper p q) by (try done; apply Z.mod_pos_bound; lia). same_reads H.
Qed.

#[export] Instance pb_read_arrl_proper : Proper (same_bytes ==> eq ==> eq ==> eq) pb_read_arrl.
Proof. intros p q H size ? <- pos ? <-. unfold pb_read_arrl. same_reads H. Qed.

#[export] Instance pb_readl_proper : Proper (same_bytes ==> eq ==> eq) pb_readl.
Proof. intros p q H pos ? <-. unfold pb_readl. same_reads H. Qed.

#[export] Instance pb_read_str_proper : Proper (same_bytes ==> eq ==> eq ==> eq) pb_read_str.
Proof. intros p q H maxlen ? <- pos ? <-. unfold pb_read_str. same_reads H. Qed.

(** * Building a packet *)

(** A buffer of one segment has been written up to [pos], with the bytes [b]. *)
Record wrote (p : pbuf) (pos : Z) (b : list Z) : Prop := {
  wr_one : length p = 1%nat;
  wr_small : tot_len p < 2 ^ 16;
  wr_pos : Zlength b = pos;
  wr_max : pos ≤ tot_len p;
  wr_bytes : take (Z.to_nat pos) (concat p) = b
}.

Lemma wrote_start p : length p = 1%nat → tot_len p < 2 ^ 16 → wrote p 0 [].
Proof. split; [done.. | apply tot_len_nonneg | done]. Qed.

Lemma take_splice l off d :
  0 ≤ off → off + Zlength d ≤ Zlength l →
  take (Z.to_nat (off + Zlength d)) (splice l off d) = take (Z.to_nat off) l ++ d.
Proof.
  unfold splice, Zlength. intros. rewrite app_assoc.
  rewrite take_app_le by (rewrite length_app, length_take; lia).
  apply take_ge. rewrite length_app, length_take. lia.
Qed.

Lemma wrote_write p pos b data count :
  wrote p pos b → 0 ≤ count ≤ Zlength data → pos + count ≤ tot_len p →
  ∃ p', pb_write p data count pos = Ret (p', pos + count) ∧
    wrote p' (pos + count) (b ++ take (Z.to_nat count) data) ∧ tot_len p' = tot_len p.
Proof.
  intros [H1 Hs Hp Hm Hb] Hc Ht. pose proof (Zlength_nonneg b).
  destruct (pb_write_eq p data count pos) as (p' & E & Hl & Hcat); [lia.. |].
  assert (length p' = length p) as Hl1 by (by rewrite <- (length_fmap length p'), Hl, length_fmap).
  apply tot_len_eq in Hl. exists p'. split; [done |]. split; [| done]. split; [lia | lia | | lia |].
  - rewrite Zlength_app, Zlength_take by lia. lia.
  - rewrite Hcat. rewrite <- Hb.
    rewrite <- (Zlength_take data count) at 1 by lia.
    apply take_splice; [lia |]. rewrite Zlength_take by lia. done.
Qed.

Lemma length_be_bytes vs : Zlength (vs ≫= be_bytes) = 4 * Zlength vs.
Proof.
  induction vs as [|v vs IH]; [done |]. change ((v :: vs) ≫= be_bytes) with (be_bytes v ++ (vs ≫= be_bytes)).
  rewrite Zlength_app, IH, Zlength_cons. change (Zlength (be_bytes v)) with 4. lia.
Qed.

Lemma htonl_all vs : (lwip_htonl <$> vs) ≫= word_bytes = vs ≫= be_bytes.
Proof.
  induction vs as [|v vs IH]; [done |].
  change (word_bytes (lwip_htonl v) ++ ((lwip_htonl <$> vs) ≫= word_bytes) = be_bytes v ++ (vs ≫= be_bytes)).
  by rewrite htonl_bytes, IH.
Qed.

Lemma wrote_arrl p pos b vs :
  wrote p pos b → pos + 4 * Zlength vs ≤ tot_len p →
  ∃ p', pb_write_arrl p vs pos = Ret (p', pos + 4 * Zlength vs) ∧
    wrote p' (pos + 4 * Zlength vs) (b ++ (vs ≫= be_bytes)) ∧ tot_len p' = tot_len p.
Proof.
  intros H Ht. unfold pb_write_arrl. rewrite htonl_all.
  pose proof (length_be_bytes vs) as Hl. pose proof (Zlength_nonneg vs).
  destruct (wrote_write p pos b (vs ≫= be_bytes) (4 * Zlength vs) H) as (p' & E & Hw & Hp); [lia.. |].
  exists p'. split; [done |]. split; [| done].
  rewrite <- Hl in Hw at 2. unfold Zlength in Hw at 2. by rewrite Nat2Z.id, firstn_all in Hw.
Qed.

(** A string in XDR: its length, its bytes, and zeros up to a multiple of four. *)
Definition pad_len (n : Z) : Z := ROUNDUP n 4 - n.

Definition xdr_string (str : list Z) : list Z :=
  be_bytes (Zlength str) ++ str ++ replicate (Z.to_nat (pad_len (Zlength str))) 0.

Lemma ROUNDUP_4 n : ROUNDUP n 4 = (n + 3) / 4 * 4.
Proof.
  unfold ROUNDUP, ROUNDDOWN. change (4 - 1) with (2 ^ 2 - 1). rewrite land_low_bits by lia. divmod.
Qed.

Lemma pad_len_range n : 0 ≤ pad_len n < 4 ∧ (n + pad_len n) mod 4 = 0.
Proof. unfold pad_len. rewrite ROUNDUP_4. divmod. Qed.

Lemma wrote_str p pos b str :
  wrote p pos b → pos mod 4 = 0 → pos + 4 + Zlength str + pad_len (Zlength str) ≤ tot_len p →
  ∃ p', let pos' := pos + Zlength (xdr_string str) in
    pb_write_str p (str ++ [0]) (Zlength str) pos = Ret (p', pos') ∧
    wrote p' pos' (b ++ xdr_string str) ∧ tot_len p' = tot_len p ∧ pos' mod 4 = 0.
Proof.
  intros H Hal Ht. pose proof (pad_len_range (Zlength str)) as [Hpad Hmod].
  pose proof (Zlength_nonneg str). pose proof (wr_small _ _ _ H).
  assert (0 ≤ pos) by (pose proof (wr_pos _ _ _ H); pose proof (Zlength_nonneg b); lia).
  unfold pb_write_str.
  destruct (wrote_arrl p pos b [Zlength str] H) as (p1 & -> & W1 & Hl1); [change (Zlength [Zlength str]) with 1; lia |].
  change (4 * Zlength [Zlength str]) with 4 in *. cbn [mbind outcome_bind] in *.
  rewrite i32_small by lia.
  destruct (wrote_write p1 (pos + 4) _ (str ++ [0]) (Zlength str) W1) as (p2 & -> & W2 & Hl2);
    [rewrite Zlength_app; change (Zlength [0]) with 1; lia | lia |].
  cbn [mbind outcome_bind].
  assert (ROUNDUP (pos + 4 + Zlength str) 4 - (pos + 4 + Zlength str) = pad_len (Zlength str)) as Er
    by (unfold pad_len; rewrite !ROUNDUP_4; divmod).
  rewrite Er.
  destruct (wrote_write p2 (pos + 4 + Zlength str) _ (word_bytes 0) (pad_len (Zlength str)) W2)
    as (p3 & -> & W3 & Hl3); [change (Zlength (word_bytes 0)) with 4; lia | lia |].
  assert (Zlength (xdr_string str) = 4 + Zlength str + pad_len (Zlength str)) as Hx.
  { unfold xdr_string. rewrite !Zlength_app. change (Zlength (be_bytes (Zlength str))) with 4.
    unfold Zlength at 2. rewrite length_replicate. lia. }
  exists p3. rewrite Hx. replace (pos + (4 + Zlength str + pad_len (Zlength str)))
    with (pos + 4 + Zlength str + pad_len (Zlength str)) by lia.
  split_and!; [done | | lia | divmod].
  replace (b ++ xdr_string str) with
    (((b ++ ([Zlength str] ≫= be_bytes)) ++ take (Z.to_nat (Zlength str)) (str ++ [0])) ++
     take (Z.to_nat (pad_len (Zlength str))) (word_bytes 0)); [done |].
  unfold xdr_string. rewrite <- !app_assoc. f_equal. cbn [mbind list_bind app]. rewrite app_nil_r. f_equal.
  unfold Zlength at 1. rewrite Nat2Z.id, take_app_length. f_equal.
  assert (pad_len (Zlength str) = 0 ∨ pad_len (Zlength str) = 1 ∨ pad_len (Zlength str) = 2 ∨
          pad_len (Zlength str) = 3) as [-> | [-> | [-> | ->]]] by lia; done.
Qed.

(** * Chains are their bytes *)

Lemma slice_splice l off d :
  0 ≤ off → off + Zlength d ≤ Zlength l → slice (splice l off d) off (Zlength d) = d.
Proof.
  intros Ho Hl. unfold slice, splice, Zlength in *.
  rewrite drop_app_ge by (rewrite length_take; lia).
  replace (Z.to_nat off - length (take (Z.to_nat off) l))%nat with 0%nat by (rewrite length_take; lia).
  by rewrite drop_0, Nat2Z.id, take_app_length.
Qed.

(** [C39] However a packet is cut into segments, reading [count] bytes at [pos]
    gives the slice of its bytes, and fails an assertion when it reaches over the
    end; writing keeps the segments and replaces the slice, so that reading there
    gives what was written, and fails an assertion when it does not fit. *)
Theorem chain_read_write p data count pos :
  tot_len p < 2 ^ 16 → 0 ≤ pos < 2 ^ 16 → 0 ≤ count ≤ Zlength data → count < 2 ^ 16 →
  (pb_read p count pos =
     if pos + count <=? tot_len p then Ret (slice (concat p) pos count, pos + count)
     else Fault AssertFail) ∧
  (pos + count ≤ tot_len p →
     ∃ p', pb_write p data count pos = Ret (p', pos + count) ∧ length <$> p' = length <$> p ∧
       concat p' = splice (concat p) pos (take (Z.to_nat count) data) ∧
       pb_read p' count pos = Ret (take (Z.to_nat count) data, pos + count)) ∧
  (tot_len p < pos + count → 0 < count → pb_write p data count pos = Fault AssertFail).
Proof.
  intros Hp Hpos Hc Hc'. split_and!.
  - rewrite pb_read_eq by lia. by destruct (Z.leb_spec 0 count); [| lia].
  - intros Ht. destruct (pb_write_eq p data count pos) as (p' & E & Hl & Hb); [lia.. |].
    exists p'. split_and!; [done.. |].
    assert (Zlength (take (Z.to_nat count) data) = count) as Hd by (apply Zlength_take; lia).
    assert (tot_len p' = tot_len p) as Ht'.
    { unfold tot_len. rewrite Hb. unfold Zlength. rewrite length_splice; [done | lia |].
      rewrite Hd. exact Ht. }
    rewrite pb_read_eq by lia.
    destruct (Z.leb_spec 0 count), (Z.leb_spec (pos + count) (tot_len p')); try lia. cbn [andb].
    rewrite Hb. rewrite <- Hd at 2. by rewrite slice_splice by (unfold tot_len in *; lia).
  - intros Ht Hn. by apply pb_write_full; lia.
Qed.

Lemma chain_read_write_witness :
  ∃ p', pb_write [[1; 2]; [3]; [4; 5; 6]] [7; 8; 9] 3 1 = Ret (p', 4) ∧ concat p' = [1; 7; 8; 9; 5; 6].
Proof.
  destruct (chain_read_write [[1; 2]; [3]; [4; 5; 6]] [7; 8; 9] 3 1) as (_ & H & _);
    [by vm_compute | by vm_compute | by vm_compute | lia |].
  destruct H as (p' & E & _ & Hb & _); [by vm_compute |]. exists p'. split; [exact E | exact Hb].
Defined.
