(* ===== verification/Rpc.v ===== *)
(** The RPC layer of libnfs (libs/libnfs/src/rpc.c).

    A request is a UDP packet with a transaction id; it waits in a queue with
    the function that handles its reply until a packet with that id arrives, and
    is sent again when none arrives in time.  [rpc_call] waits for the reply;
    while it sleeps the packets that arrive are handled. *)

From S2P Require Import Prelude UtAllocator Sos Pbuf.

(** * Constants *)

Definition SRPC_VERSION : Z := 2.
Definition AUTH_STAMP : Z := 37.
Definition ROOT : Z := 0.
Definition NFS_MACHINE_NAME : list Z := [98; 111; 103; 103; 111].
Definition CALL_TIMEOUT_MS : Z := 10.
Definition CALL_RETRIES : Z := 5.
Definition ROOT_PORT_MIN : Z := 45.
Definition ROOT_PORT_MAX : Z := 1024.
Definition UDP_PAYLOAD : Z := 1400.
Definition RETRANSMIT_DELAY_MS : Z := 500.

Definition MSG_CALL : Z := 0.
Definition MSG_REPLY : Z := 1.
Definition MSG_ACCEPTED : Z := 0.
Definition AUTH_NULL : Z := 0.
Definition AUTH_UNIX : Z := 1.
Definition SUCCESS : Z := 0.

(** [enum rpc_reply_err]. *)
Definition RPCERR_OK : Z := 0.
Definition RPCERR_BAD_MSG : Z := -1.
Definition RPCERR_NOT_ACCEPTED : Z := -2.
Definition RPCERR_FAILURE : Z := -3.

(** [enum rpc_stat]. *)
Definition RPC_OK : Z := 0.
Definition RPCERR_NOMEM : Z := 1.
Definition RPCERR_NOBUF : Z := 2.
Definition RPCERR_COMM : Z := 3.
Definition RPCERR_NOSUP : Z := 4.

(** [err_t] of lwIP. *)
Definition ERR_OK : Z := 0.
Definition ERR_MEM : Z := -1.
Definition ERR_RTE : Z := -4.

(** * State *)

(** The callbacks of libnfs's clients; [CbNull] is the NULL pointer. *)
Inductive nfs_callback : Type :=
  | CbGetattr (f : Z)
  | CbLookup (f : rpc_lookup_cb)
  | CbRead (f : rpc_read_cb)
  | CbWrite (f : rpc_write_cb)
  | CbRemove (f : Z)
  | CbReaddir
  | CbNull.

(** The functions that handle replies. *)
Inductive rpc_func : Type :=
  | nfs_getattr_cb | nfs_lookup_cb | nfs_read_cb | nfs_write_cb | nfs_create_cb
  | nfs_remove_cb | nfs_readdir_cb | rpc_call_cb.

#[export] Instance rpc_func_eq_dec : EqDecision rpc_func.
Proof. solve_decision. Defined.

(** The functions that handle the replies [rpc_call] waits for, and what they
    leave in the variables of their callers. *)
Inductive call_func : Type := getport_cb | mountd_print_exports_cb | mountd_mount_cb.

Inductive call_result : Type :=
  | GotPort (port : Z)
  | GotExports (err : Z) (exports : list (list Z * list (list Z)))
  | GotMount (stat : Z) (pfh : option Z).

(** [struct rpc_queue]. *)
Record rpc_item : Type := mk_item {
  q_pcb : Z;
  q_pbuf : pbuf;
  q_xid : Z;
  q_timeout : Z;
  q_func : rpc_func;
  q_callback : nfs_callback;
  q_arg : Z
}.

(** A call of a client's callback. *)
Record upcall : Type := mk_upcall {
  up_callback : nfs_callback;
  up_token : Z;
  up_reply : nfs_reply
}.

(** [struct rpc_call_arg] of the call that is being waited for: its address on
    the stack, the function, and what that gave once the reply was there. *)
Record call_arg : Type := mk_call_arg {
  ca_addr : Z;
  ca_func : call_func;
  ca_complete : option call_result
}.

(** What libnfs does not control: malloc, lwIP's buffers and their contents,
    whether a packet is sent, and the contents of uninitialised variables. *)
Record rpc_env : Type := mk_rpc_env {
  en_malloc : nat → bool;
  en_pbuf : nat → bool;
  en_bytes : nat → nat → Z;
  en_udp_new : nat → bool;
  en_udp_send : nat → Z;
  en_stack : nat → nfs_reply
}.

(** The static variables; [r_wraps] are the live [struct write_token_wrapper]s,
    [r_pcbs] the open UDP connections with their local and remote ports. *)
Record rpc_state : Type := mk_rpc_state {
  r_queue : list rpc_item;
  r_xid : Z;
  r_root_port : Z;
  r_nfs_pcb : Z;
  r_wraps : gmap Z (Z * Z);
  r_pcbs : gmap Z (Z * Z);
  r_next : Z;
  r_call : option call_arg;
  r_upcalls : list upcall;
  r_sent : list (Z * list Z);
  r_env : rpc_env;
  r_tick : nat
}.

Definition set_r_queue (v : list rpc_item) (s : rpc_state) : rpc_state :=
  mk_rpc_state v (r_xid s) (r_root_port s) (r_nfs_pcb s) (r_wraps s) (r_pcbs s) (r_next s)
    (r_call s) (r_upcalls s) (r_sent s) (r_env s) (r_tick s).

Definition set_r_xid (v : Z) (s : rpc_state) : rpc_state :=
  mk_rpc_state (r_queue s) v (r_root_port s) (r_nfs_pcb s) (r_wraps s) (r_pcbs s) (r_next s)
    (r_call s) (r_upcalls s) (r_sent s) (r_env s) (r_tick s).

Definition set_r_root_port (v : Z) (s : rpc_state) : rpc_state :=
  mk_rpc_state (r_queue s) (r_xid s) v (r_nfs_pcb s) (r_wraps s) (r_pcbs s) (r_next s)
    (r_call s) (r_upcalls s) (r_sent s) (r_env s) (r_tick s).

Definition set_r_nfs_pcb (v : Z) (s : rpc_state) : rpc_state :=
  mk_rpc_state (r_queue s) (r_xid s) (r_root_port s) v (r_wraps s) (r_pcbs s) (r_next s)
    (r_call s) (r_upcalls s) (r_sent s) (r_env s) (r_tick s).

Definition set_r_wraps (v : gmap Z (Z * Z)) (s : rpc_state) : rpc_state :=
  mk_rpc_state (r_queue s) (r_xid s) (r_root_port s) (r_nfs_pcb s) v (r_pcbs s) (r_next s)
    (r_call s) (r_upcalls s) (r_sent s) (r_env s) (r_tick s).

Definition set_r_pcbs (v : gmap Z (Z * Z)) (s : rpc_state) : rpc_state :=
  mk_rpc_state (r_queue s) (r_xid s) (r_root_port s) (r_nfs_pcb s) (r_wraps s) v (r_next s)
    (r_call s) (r_upcalls s) (r_sent s) (r_env s) (r_tick s).

Definition set_r_next (v : Z) (s : rpc_state) : rpc_state :=
  mk_rpc_state (r_queue s) (r_xid s) (r_root_port s) (r_nfs_pcb s) (r_wraps s) (r_pcbs s) v
    (r_call s) (r_upcalls s) (r_sent s) (r_env s) (r_tick s).

Definition set_r_call (v : option call_arg) (s : rpc_state) : rpc_state :=
  mk_rpc_state (r_queue s) (r_xid s) (r_root_port s) (r_nfs_pcb s) (r_wraps s) (r_pcbs s)
    (r_next s) v (r_upcalls s) (r_sent s) (r_env s) (r_tick s).

Definition set_r_upcalls (v : list upcall) (s : rpc_state) : rpc_state :=
  mk_rpc_state (r_queue s) (r_xid s) (r_root_port s) (r_nfs_pcb s) (r_wraps s) (r_pcbs s)
    (r_next s) (r_call s) v (r_sent s) (r_env s) (r_tick s).

Definition set_r_sent (v : list (Z * list Z)) (s : rpc_state) : rpc_state :=
  mk_rpc_state (r_queue s) (r_xid s) (r_root_port s) (r_nfs_pcb s) (r_wraps s) (r_pcbs s)
    (r_next s) (r_call s) (r_upcalls s) v (r_env s) (r_tick s).

Definition set_r_tick (v : nat) (s : rpc_state) : rpc_state :=
  mk_rpc_state (r_queue s) (r_xid s) (r_root_port s) (r_nfs_pcb s) (r_wraps s) (r_pcbs s)
    (r_next s) (r_call s) (r_upcalls s) (r_sent s) (r_env s) v.

(** * The monad *)

Definition N (A : Type) : Type := rpc_state → outcome (A * rpc_state).

#[export] Instance N_ret : MRet N := λ A a s, Ret (a, s).

#[export] Instance N_bind : MBind N := λ A B k m s,
  match m s with
  | Ret (a, s') => k a s'
  | Fault f => Fault f
  end.

Definition liftN {A : Type} (o : outcome A) : N A := λ s, a ← o; Ret (a, s).
Definition getsN {A : Type} (f : rpc_state → A) : N A := λ s, Ret (f s, s).
Definition modN (f : rpc_state → rpc_state) : N unit := λ s, Ret (tt, f s).
Definition assertN (c : bool) : N unit := liftN (c_assert c).
Definition failN {A : Type} (f : fault) : N A := λ _, Fault f.

(** The next answer of the environment. *)
Definition askN {A : Type} (f : rpc_env → nat → A) : N A := λ s,
  Ret (f (r_env s) (r_tick s), set_r_tick (S (r_tick s)) s).

(** A new address, for memory or a variable on the stack. *)
Definition fresh : N Z := λ s, Ret (r_next s, set_r_next (r_next s + 1) s).

(** * Packets *)

(** [pbuf_alloc(PBUF_TRANSPORT, length, PBUF_RAM)]: one segment, not cleared. *)
Definition pbuf_new (length : Z) : N (option pbuf) :=
  bytes ← askN (λ e n, if en_pbuf e n then Some (en_bytes e n) else None);
  mret (match bytes with
        | Some f => Some [(λ i, f i mod 2 ^ 8) <$> seq 0 (Z.to_nat length)]
        | None => None
        end).

(** [udp_send] through a connection that is still open. *)
Definition udp_send (pcb : Z) (p : pbuf) : N Z :=
  pcbs ← getsN r_pcbs;
  if negb (bool_decide (is_Some (pcbs !! pcb))) then failN Dangling else
  err ← askN en_udp_send;
  _ ← (if err =? ERR_OK then modN (λ s, set_r_sent (r_sent s ++ [(pcb, concat p)]) s) else mret tt);
  mret err.

Definition my_udp_send (pcb : Z) (p : pbuf) : N Z :=
  copy ← pbuf_new (tot_len p);
  match copy with
  | None => mret RPCERR_NOBUF
  | Some copy =>
      copied ← liftN (pbuf_copy copy p);
      match copied with
      | None => failN AssertFail
      | Some copy =>
          err ← udp_send pcb copy;
          mret (if err =? ERR_MEM then RPCERR_NOMEM
                else if err =? ERR_RTE then RPCERR_COMM
                else if err =? ERR_OK then RPC_OK
                else err)
      end
  end.

(** * Transaction ids *)

Definition extract_xid (p : pbuf) : outcome Z :=
  '(xid, _) ← pb_readl p 0;
  Ret xid.

Definition seed_xid (seed : Z) : N unit := modN (set_r_xid (u32 (seed * 10000))).

Definition get_xid : N Z :=
  _ ← modN (λ s, set_r_xid (u32 (r_xid s + 1)) s);
  getsN r_xid.

(** * The queue *)

(** One item of the loop of [rpc_timeout]. *)
Definition timeout_item (ms : Z) (q : rpc_item) : N rpc_item :=
  let t := q_timeout q + ms in
  let q' := mk_item (q_pcb q) (q_pbuf q) (q_xid q) t (q_func q) (q_callback q) (q_arg q) in
  if RETRANSMIT_DELAY_MS <? t then
    err ← my_udp_send (q_pcb q) (q_pbuf q);
    mret (if err =? 0
          then mk_item (q_pcb q) (q_pbuf q) (q_xid q) 0 (q_func q) (q_callback q) (q_arg q)
          else q')
  else mret q'.

Fixpoint timeout_items (ms : Z) (l : list rpc_item) : N (list rpc_item) :=
  match l with
  | [] => mret []
  | q :: l' =>
      q' ← timeout_item ms q;
      l'' ← timeout_items ms l';
      mret (q' :: l'')
  end.

(** Sending does not change the queue. *)
Definition rpc_timeout (ms : Z) : N unit :=
  l ← getsN r_queue;
  l' ← timeout_items ms l;
  modN (set_r_queue l').

Definition add_to_queue (p : pbuf) (pcb : Z) (func : rpc_func) (callback : nfs_callback)
    (arg : Z) : N unit :=
  ok ← askN en_malloc;
  _ ← assertN ok;
  xid ← liftN (extract_xid p);
  modN (λ s, set_r_queue (r_queue s ++ [mk_item pcb p xid 0 func callback arg]) s).

(** The first item with a transaction id, and the queue without it. *)
Fixpoint take_xid (xid : Z) (l : list rpc_item) : option (rpc_item * list rpc_item) :=
  match l with
  | [] => None
  | q :: l' =>
      if q_xid q =? xid then Some (q, l')
      else match take_xid xid l' with
           | Some (q', l'') => Some (q', q :: l'')
           | None => None
           end
  end.

Definition get_from_queue (xid : Z) : N (option rpc_item) :=
  l ← getsN r_queue;
  match take_xid xid l with
  | Some (q, l') => _ ← modN (set_r_queue l'); mret (Some q)
  | None => mret None
  end.

(** * Transport *)

(** [my_recv]; [handle] calls the function of the queue item. *)
Definition my_recv (handle : rpc_item → pbuf → N unit) (p : pbuf) : N unit :=
  xid ← liftN (extract_xid p);
  item ← get_from_queue xid;
  match item with
  | Some q => handle q p
  | None => mret tt
  end.

Definition rpc_send (p : pbuf) (len pcb : Z) (func : rpc_func) (callback : nfs_callback)
    (token : Z) : N Z :=
  _ ← assertN (negb (pcb =? 0));
  p ← liftN (pbuf_realloc p len);
  _ ← add_to_queue p pcb func callback token;
  my_udp_send pcb p.

(** The packets that are there when [sos_usleep] looks. *)
Fixpoint rpc_input (handle : rpc_item → pbuf → N unit) (packets : list pbuf) : N unit :=
  match packets with
  | [] => mret tt
  | p :: packets' => _ ← my_recv handle p; rpc_input handle packets'
  end.

(** The loop of [rpc_call]; [arrivals i] are the packets that arrive during the
    [i]-th sleep. *)
Fixpoint rpc_wait (fuel : nat) (handle : rpc_item → pbuf → N unit) (arrivals : nat → list pbuf)
    (i : nat) (time_out : Z) : N (option call_result) :=
  match fuel with
  | O => failN OutOfFuel
  | S fuel' =>
      if time_out <? 0 then mret None else
      _ ← rpc_input handle (arrivals i);
      c ← getsN r_call;
      match c with
      | Some (mk_call_arg _ _ (Some r)) => mret (Some r)
      | _ =>
          _ ← rpc_timeout CALL_TIMEOUT_MS;
          rpc_wait fuel' handle arrivals (S i) (time_out - CALL_TIMEOUT_MS)
      end
  end.

(** The loop runs 301 times at most. *)
Definition rpc_wait_fuel : nat := 302.

(** [rpc_call] does not use [len]: the whole buffer is sent. *)
Definition rpc_call (handle : rpc_item → pbuf → N unit) (arrivals : nat → list pbuf)
    (p : pbuf) (len pcb : Z) (func : call_func) : N (Z * option call_result) :=
  _ ← assertN (negb (pcb =? 0));
  arg ← fresh;
  _ ← modN (set_r_call (Some (mk_call_arg arg func None)));
  xid ← liftN (extract_xid p);
  stat ← rpc_send p (tot_len p) pcb rpc_call_cb CbNull arg;
  if negb (stat =? 0) then
    _ ← modN (set_r_call None);
    mret (stat, None)
  else
  r ← rpc_wait rpc_wait_fuel handle arrivals 0 (RETRANSMIT_DELAY_MS * (CALL_RETRIES + 1));
  _ ← modN (set_r_call None);
  match r with
  | Some r => mret (0, Some r)
  | None =>
      item ← get_from_queue xid;
      _ ← assertN (bool_decide (is_Some (q_arg <$> item)));
      mret (RPCERR_COMM, None)
  end.

Definition rpc_new_udp (remote_port : Z) (root : bool) : N Z :=
  ok ← askN en_udp_new;
  _ ← assertN ok;
  pcb ← fresh;
  port ← (if root then
            _ ← modN (λ s,
                  if (ROOT_PORT_MAX <=? r_root_port s) || (r_root_port s <? ROOT_PORT_MIN)
                  then set_r_root_port ROOT_PORT_MIN s else s);
            port ← getsN r_root_port;
            _ ← modN (set_r_root_port (port + 1));
            mret port
          else mret 0);
  _ ← modN (λ s, set_r_pcbs (<[pcb := (port, u16 remote_port)]> (r_pcbs s)) s);
  mret pcb.

Definition udp_remove (pcb : Z) : N unit := modN (λ s, set_r_pcbs (delete pcb (r_pcbs s)) s).

(** * Headers *)

(** The result, and the position behind the header. *)
Definition rpc_read_hdr (p : pbuf) : outcome (Z * Z) :=
  '(hdr, pos) ← pb_read_arrl p 12 0;
  msg_type ← rd hdr 1;
  reply_stat ← rd hdr 2;
  if negb (msg_type =? MSG_REPLY) then Ret (RPCERR_BAD_MSG, pos)
  else if negb (reply_stat =? MSG_ACCEPTED) then
    '(err, pos) ← pb_readl p pos;
    '(_, pos) ← (if err =? 1 then pb_readl p pos else Ret (err, pos));
    Ret (RPCERR_NOT_ACCEPTED, pos)
  else
    '(auth, pos) ← pb_read_arrl p 8 pos;
    flavour ← rd auth 0;
    _ ← c_assert (flavour =? AUTH_NULL);
    '(auth_stat, pos) ← pb_readl p pos;
    Ret (if auth_stat =? SUCCESS then RPCERR_OK else RPCERR_FAILURE, pos).

Definition rpc_write_hdr (xid : Z) (p : pbuf) (prog vers proc : Z) : outcome (pbuf * Z) :=
  let host := NFS_MACHINE_NAME in
  let ids := [ROOT; ROOT; ROOT] in
  '(p, pos) ← pb_write_arrl p [xid; MSG_CALL; SRPC_VERSION; prog; vers; proc] 0;
  '(p, pos) ← pb_write_arrl p [AUTH_UNIX; ROUNDUP (4 + 4 + Zlength host + 12) 4] pos;
  '(p, pos) ← pb_writel p AUTH_STAMP pos;
  '(p, pos) ← pb_write_str p (host ++ [0]) (Zlength host) pos;
  '(p, pos) ← pb_write_arrl p ids pos;
  pb_write_arrl p [AUTH_NULL; 0] pos.

Definition rpcpbuf_init (prognum vernum procnum : Z) : N (option (pbuf * Z)) :=
  p ← pbuf_new UDP_PAYLOAD;
  match p with
  | Some p =>
      xid ← get_xid;
      r ← liftN (rpc_write_hdr xid p prognum vernum procnum);
      mret (Some r)
  | None => mret None
  end.
