(* ===== verification/Nfs.v ===== *)
(** NFS requests and replies (libs/libnfs/src/nfs.c).

    Each request writes its arguments behind the RPC header and hands the packet
    to [rpc_send] with the function that takes the reply apart and calls the
    client back. *)

From S2P Require Import Prelude UtAllocator Sos Pbuf Rpc.

Definition NFS_NUMBER : Z := 100003.
Definition NFS_VERSION : Z := 2.
Definition NFSPROC_GETATTR : Z := 1.
Definition NFSPROC_LOOKUP : Z := 4.
Definition NFSPROC_READ : Z := 6.
Definition NFSPROC_WRITE : Z := 8.
Definition NFSPROC_CREATE : Z := 9.
Definition NFSPROC_REMOVE : Z := 10.
Definition NFSPROC_READDIR : Z := 16.
Definition READDIR_BUF_SIZE : Z := 1024.
Definition NFSERR_COMM : Z := 200.
Definition FHSIZE : Z := 32.

(** [fhandle_t] is an opaque array of [FHSIZE] bytes, kept as the number they
    make up. *)
Definition fh_bytes (fh : Z) : list Z :=
  (λ i : nat, fh / 2 ^ (8 * Z.of_nat i) mod 2 ^ 8) <$> seq 0 (Z.to_nat FHSIZE).

Definition fh_of (l : list Z) : Z := foldr (λ b n, b + 2 ^ 8 * n) 0 l.

(** [fattr_t] is an array of 17 words; the clients read the mode (1), the size
    (5) and the time of the last modification (13 and 14). *)
Definition FATTR_SIZE : Z := 68.

Definition fattr_of (ws : list Z) : fattr :=
  let w i := default 0 (ws !! i) in
  mk_fattr (w 1%nat) (w 5%nat) (w 13%nat, w 14%nat).

(** [sattr_t]. *)
Record sattr_t : Type := mk_sattr {
  sa_mode : Z; sa_uid : Z; sa_gid : Z; sa_size : Z;
  sa_atime : Z * Z; sa_mtime : Z * Z
}.

Definition sattr_words (s : sattr_t) : list Z :=
  [sa_mode s; sa_uid s; sa_gid s; sa_size s; (sa_atime s).1; (sa_atime s).2;
   (sa_mtime s).1; (sa_mtime s).2].

(** A C string in a byte array. *)
Fixpoint cstr (l : list Z) : list Z :=
  match l with
  | [] => []
  | c :: l' => if c =? 0 then [] else c :: cstr l'
  end.

(** [nfs_timeout], which the clock calls every 100 ms. *)
Definition nfs_timeout : N unit := rpc_timeout 100.

(** * Replies *)

Definition is_null (cb : nfs_callback) : bool := match cb with CbNull => true | _ => false end.

(** [cb(token, ...)]; the client runs when libnfs has nothing left to do but to
    free its own memory. *)
Definition call_back (cb : nfs_callback) (token : Z) (r : nfs_reply) : N unit :=
  modN (λ s, set_r_upcalls (r_upcalls s ++ [mk_upcall cb token r]) s).

(** What every handler starts with: the local variables, of which only [status]
    is initialised, and the status of the reply when its header is fine. *)
Definition reply_start (cb : nfs_callback) : N nfs_reply :=
  _ ← assertN (negb (is_null cb));
  junk ← askN en_stack;
  mret (mk_reply NFSERR_COMM (rep_fh junk) (rep_fattr junk) true 0 [] [] 0).

Definition reply_status (p : pbuf) : outcome (option (Z * Z)) :=
  '(err, pos) ← rpc_read_hdr p;
  if err =? RPCERR_OK then
    '(status, pos) ← pb_readl p pos;
    Ret (Some (status, pos))
  else Ret None.

Definition set_status (status : Z) (r : nfs_reply) : nfs_reply :=
  mk_reply status (rep_fh r) (rep_fattr r) (rep_has_attr r) (rep_count r) (rep_data r)
    (rep_names r) (rep_cookie r).
Definition set_attr (fa : fattr) (r : nfs_reply) : nfs_reply :=
  mk_reply (rep_status r) (rep_fh r) fa (rep_has_attr r) (rep_count r) (rep_data r)
    (rep_names r) (rep_cookie r).
Definition set_fh (fh : Z) (r : nfs_reply) : nfs_reply :=
  mk_reply (rep_status r) fh (rep_fattr r) (rep_has_attr r) (rep_count r) (rep_data r)
    (rep_names r) (rep_cookie r).
Definition set_data (count : Z) (data : list Z) (r : nfs_reply) : nfs_reply :=
  mk_reply (rep_status r) (rep_fh r) (rep_fattr r) (rep_has_attr r) count data
    (rep_names r) (rep_cookie r).
Definition set_names (names : list (list Z)) (cookie : Z) (r : nfs_reply) : nfs_reply :=
  mk_reply (rep_status r) (rep_fh r) (rep_fattr r) (rep_has_attr r) (rep_count r) (rep_data r)
    names cookie.

Definition read_fattr (p : pbuf) (pos : Z) : outcome (fattr * Z) :=
  '(ws, pos) ← pb_read_arrl p FATTR_SIZE pos;
  Ret (fattr_of ws, pos).

Definition _nfs_getattr_cb (cb : nfs_callback) (token : Z) (p : pbuf) : N unit :=
  r ← reply_start cb;
  st ← liftN (reply_status p);
  match st with
  | Some (status, pos) =>
      let r := set_status status r in
      if status =? NFS_OK then
        '(fa, _) ← liftN (read_fattr p pos);
        call_back cb token (set_attr fa r)
      else call_back cb token r
  | None => call_back cb token r
  end.

(** [_nfs_lookup_cb], and [_nfs_create_cb], which is the same. *)
Definition _nfs_lookup_cb (cb : nfs_callback) (token : Z) (p : pbuf) : N unit :=
  r ← reply_start cb;
  st ← liftN (reply_status p);
  match st with
  | Some (status, pos) =>
      let r := set_status status r in
      if status =? NFS_OK then
        '(new_fh, pos) ← liftN (pb_read p FHSIZE pos);
        '(fa, _) ← liftN (read_fattr p pos);
        call_back cb token (set_attr fa (set_fh (fh_of new_fh) r))
      else call_back cb token r
  | None => call_back cb token r
  end.

Definition _nfs_create_cb (cb : nfs_callback) (token : Z) (p : pbuf) : N unit :=
  _nfs_lookup_cb cb token p.

Definition _nfs_read_cb (cb : nfs_callback) (token : Z) (p : pbuf) : N unit :=
  r ← reply_start cb;
  st ← liftN (reply_status p);
  match st with
  | Some (status, pos) =>
      let r := set_status status r in
      if status =? NFS_OK then
        '(fa, pos) ← liftN (read_fattr p pos);
        '(size, pos) ← liftN (pb_readl p pos);
        ok ← askN en_malloc;
        _ ← assertN ok;
        '(data, _) ← liftN (pb_read p (i32 size) pos);
        call_back cb token (set_data (i32 size) data (set_attr fa r))
      else call_back cb token r
  | None => call_back cb token r
  end.

(** The token is that of the wrapper, which is freed after the call. *)
Definition _nfs_write_cb (cb : nfs_callback) (token : Z) (p : pbuf) : N unit :=
  r ← reply_start cb;
  st ← liftN (reply_status p);
  r ← match st with
      | Some (status, pos) =>
          let r := set_status status r in
          if status =? NFS_OK then
            '(fa, _) ← liftN (read_fattr p pos);
            mret (set_attr fa r)
          else mret r
      | None => mret r
      end;
  wraps ← getsN r_wraps;
  match wraps !! token with
  | Some (t_token, t_count) =>
      _ ← call_back cb t_token (set_data t_count [] r);
      modN (λ s, set_r_wraps (delete token (r_wraps s)) s)
  | None => failN Dangling
  end.

Definition _nfs_remove_cb (cb : nfs_callback) (token : Z) (p : pbuf) : N unit :=
  r ← reply_start cb;
  st ← liftN (reply_status p);
  match st with
  | Some (status, _) => call_back cb token (set_status status r)
  | None => call_back cb token r
  end.

(** The loop of [_nfs_readdir_cb]: the names, in order, and the last cookie. *)
Fixpoint readdir_entries (fuel : nat) (p : pbuf) (pos cookie : Z) :
    N (list (list Z) * Z) :=
  match fuel with
  | O => failN OutOfFuel
  | S fuel' =>
      '(more, pos) ← liftN (pb_readl p pos);
      if more =? 0 then mret ([], cookie) else
      '(fileid, pos) ← liftN (pb_readl p pos);
      '(size, pos) ← liftN (pb_readl p pos);
      ok ← askN en_malloc;
      if negb ok then (if size =? 0 then failN NullDeref else failN AssertFail) else
      '(name, pos) ← liftN (pb_read p (i32 size) pos);
      let pos := pb_alignl pos in
      '(next_cookie, pos) ← liftN (pb_readl p pos);
      ok ← askN en_malloc;
      if negb ok then failN NullDeref else
      '(names, last) ← readdir_entries fuel' p pos next_cookie;
      mret (cstr name :: names, last)
  end.

(** An entry takes 16 bytes at least. *)
Definition readdir_fuel (p : pbuf) : nat := S (Z.to_nat (tot_len p)).

Definition _nfs_readdir_cb (cb : nfs_callback) (token : Z) (p : pbuf) : N unit :=
  r ← reply_start cb;
  st ← liftN (reply_status p);
  match st with
  | Some (status, pos) =>
      let r := set_status status r in
      if status =? NFS_OK then
        '(names, cookie) ← readdir_entries (readdir_fuel p) p pos 0;
        ok ← askN en_malloc;
        _ ← assertN ok;
        call_back cb token (set_names names cookie r)
      else call_back cb token r
  | None => call_back cb token r
  end.

(** * Requests *)

(** The end of the requests: [rpc_send] on the connection to the NFS server. *)
Definition nfs_send (r : pbuf * Z) (func : rpc_func) (cb : nfs_callback) (token : Z) : N Z :=
  pcb ← getsN r_nfs_pcb;
  rpc_send r.1 r.2 pcb func cb token.

Definition nfs_getattr (fh : Z) (cb : nfs_callback) (token : Z) : N Z :=
  b ← rpcpbuf_init NFS_NUMBER NFS_VERSION NFSPROC_GETATTR;
  match b with
  | None => mret RPCERR_NOBUF
  | Some (p, pos) =>
      r ← liftN (pb_write p (fh_bytes fh) FHSIZE pos);
      nfs_send r nfs_getattr_cb cb token
  end.

(** A file handle and a name, which several requests start with. *)
Definition write_dirop (p : pbuf) (fh : Z) (name : list Z) (pos : Z) : outcome (pbuf * Z) :=
  '(p, pos) ← pb_write p (fh_bytes fh) FHSIZE pos;
  pb_write_str p (name ++ [0]) (Zlength name) pos.

Definition nfs_lookup (cwd : Z) (name : list Z) (cb : nfs_callback) (token : Z) : N Z :=
  b ← rpcpbuf_init NFS_NUMBER NFS_VERSION NFSPROC_LOOKUP;
  match b with
  | None => mret RPCERR_NOBUF
  | Some (p, pos) =>
      r ← liftN (write_dirop p cwd name pos);
      nfs_send r nfs_lookup_cb cb token
  end.

Definition nfs_read (fh offset count : Z) (cb : nfs_callback) (token : Z) : N Z :=
  b ← rpcpbuf_init NFS_NUMBER NFS_VERSION NFSPROC_READ;
  match b with
  | None => mret RPCERR_NOBUF
  | Some (p, pos) =>
      r ← liftN ('(p, pos) ← pb_write p (fh_bytes fh) FHSIZE pos;
                 '(p, pos) ← pb_writel p (u32 offset) pos;
                 '(p, pos) ← pb_writel p (u32 count) pos;
                 pb_writel p 0 pos);
      nfs_send r nfs_read_cb cb token
  end.

(** The arguments of a write, and how many bytes fitted. *)
Definition write_args (p : pbuf) (fh offset count : Z) (data : list Z) (pos : Z) :
    outcome (pbuf * Z * Z) :=
  '(p, pos) ← pb_write p (fh_bytes fh) FHSIZE pos;
  '(p, pos) ← pb_writel p 0 pos;
  '(p, pos) ← pb_writel p (u32 offset) pos;
  '(p, pos) ← pb_writel p 0 pos;
  let limit := i32 (tot_len p - pos - 4) in
  let count := if limit <? count then limit else count in
  '(p, pos) ← pb_writel p (u32 count) pos;
  '(p, pos) ← pb_write p data count pos;
  Ret (p, pb_alignl pos, count).

Definition nfs_write (fh offset count : Z) (data : list Z) (cb : nfs_callback) (token : Z) : N Z :=
  ok ← askN en_malloc;
  if negb ok then mret RPCERR_NOMEM else
  t ← fresh;
  b ← rpcpbuf_init NFS_NUMBER NFS_VERSION NFSPROC_WRITE;
  match b with
  | None => mret RPCERR_NOBUF
  | Some (p, pos) =>
      '(p, pos, count) ← liftN (write_args p fh offset count data pos);
      _ ← modN (λ s, set_r_wraps (<[t := (token, count)]> (r_wraps s)) s);
      err ← nfs_send (p, pos) nfs_write_cb cb t;
      _ ← (if negb (err =? 0) then modN (λ s, set_r_wraps (delete t (r_wraps s)) s) else mret tt);
      mret err
  end.

Definition nfs_create (fh : Z) (name : list Z) (sat : sattr_t) (cb : nfs_callback) (token : Z) :
    N Z :=
  b ← rpcpbuf_init NFS_NUMBER NFS_VERSION NFSPROC_CREATE;
  match b with
  | None => mret RPCERR_NOBUF
  | Some (p, pos) =>
      r ← liftN ('(p, pos) ← write_dirop p fh name pos;
                 pb_write_arrl p (sattr_words sat) pos);
      nfs_send r nfs_create_cb cb token
  end.

Definition nfs_remove (fh : Z) (name : list Z) (cb : nfs_callback) (token : Z) : N Z :=
  b ← rpcpbuf_init NFS_NUMBER NFS_VERSION NFSPROC_REMOVE;
  match b with
  | None => mret RPCERR_NOBUF
  | Some (p, pos) =>
      r ← liftN (write_dirop p fh name pos);
      nfs_send r nfs_remove_cb cb token
  end.

Definition nfs_readdir (pfh cookie : Z) (cb : nfs_callback) (token : Z) : N Z :=
  b ← rpcpbuf_init NFS_NUMBER NFS_VERSION NFSPROC_READDIR;
  match b with
  | None => mret RPCERR_NOBUF
  | Some (p, pos) =>
      r ← liftN ('(p, pos) ← pb_write p (fh_bytes pfh) FHSIZE pos;
                 '(p, pos) ← pb_writel p (u32 cookie) pos;
                 pb_writel p READDIR_BUF_SIZE pos);
      nfs_send r nfs_readdir_cb cb token
  end.
