(* ===== verification/Mount.v ===== *)
(** Starting NFS (libs/libnfs/src/time.c, portmapper.c, mountd.c, and the rest of
    nfs.c; the end of [network_init] of dev/network.c).

    The transaction ids are seeded with the time of the server; its portmapper
    gives the ports of the NFS and mount services; the mount service gives the
    handle of the exported directory.  All this waits for the replies. *)

From S2P Require Import Prelude UtAllocator Sos Pbuf Rpc Nfs.

Definition TIME_PORT : Z := 37.
Definition TIME_RETRIES : Z := 5.
Definition TIME_RETRY_TO_US : Z := 10000.
Definition TIME_DELAY_US : Z := 1000.
Definition PMAP_PORT : Z := 111.
Definition PMAP_NUMBER : Z := 100000.
Definition PMAP_VERSION : Z := 2.
Definition IPPROTO_UDP : Z := 17.
Definition PMAPPROC_GETPORT : Z := 3.
Definition MNT_NUMBER : Z := 100005.
Definition MNT_VERSION : Z := 1.
Definition MNTPROC_EXPORT : Z := 5.
Definition MNTPROC_MNT : Z := 1.

(** * Replies that are waited for *)

Definition getport_reply (p : pbuf) : outcome Z :=
  '(err, pos) ← rpc_read_hdr p;
  if negb (err =? RPCERR_OK) then Ret 0
  else '(port, _) ← pb_readl p pos; Ret port.

(** The groups of an export, up to the end of their list. *)
Fixpoint export_groups (fuel : nat) (p : pbuf) (pos : Z) : outcome (list (list Z) * Z) :=
  match fuel with
  | O => Fault OutOfFuel
  | S fuel' =>
      '(opt, pos) ← pb_readl p pos;
      if opt =? 0 then Ret ([], pos) else
      '(str, pos) ← pb_read_str p 100 pos;
      '(strs, pos) ← export_groups fuel' p pos;
      Ret (str :: strs, pos)
  end.

Fixpoint export_list (fuel : nat) (p : pbuf) (pos : Z) :
    outcome (list (list Z * list (list Z))) :=
  match fuel with
  | O => Fault OutOfFuel
  | S fuel' =>
      '(opt, pos) ← pb_readl p pos;
      if opt =? 0 then Ret [] else
      '(str, pos) ← pb_read_str p 100 pos;
      '(groups, pos) ← export_groups (S (Z.to_nat (tot_len p))) p pos;
      rest ← export_list fuel' p pos;
      Ret ((str, groups) :: rest)
  end.

Definition exports_reply (p : pbuf) : outcome (Z * list (list Z * list (list Z))) :=
  '(err, pos) ← rpc_read_hdr p;
  if err =? RPCERR_OK then
    l ← export_list (S (Z.to_nat (tot_len p))) p pos;
    Ret (err, l)
  else Ret (err, []).

Definition mount_reply (p : pbuf) : outcome (Z * option Z) :=
  '(err, pos) ← rpc_read_hdr p;
  if err =? RPCERR_OK then
    '(status, pos) ← pb_readl p pos;
    if status =? 0 then
      '(fh, _) ← pb_read p FHSIZE pos;
      Ret (RPC_OK, Some (fh_of fh))
    else Ret (RPCERR_NOSUP, None)
  else Ret (RPCERR_NOSUP, None).

Definition call_reply (f : call_func) (p : pbuf) : outcome call_result :=
  match f with
  | getport_cb => port ← getport_reply p; Ret (GotPort port)
  | mountd_print_exports_cb => '(err, l) ← exports_reply p; Ret (GotExports err l)
  | mountd_mount_cb => '(stat, fh) ← mount_reply p; Ret (GotMount stat fh)
  end.

(** [rpc_call_cb]: the argument is on the stack of [rpc_call], which may have
    returned. *)
Definition rpc_call_reply (arg : Z) (p : pbuf) : N unit :=
  _ ← assertN (negb (arg =? 0));
  c ← getsN r_call;
  match c with
  | Some c =>
      if ca_addr c =? arg then
        r ← liftN (call_reply (ca_func c) p);
        modN (set_r_call (Some (mk_call_arg arg (ca_func c) (Some r))))
      else failN Dangling
  | None => failN Dangling
  end.

(** The call of a queue item's function. *)
Definition handle (q : rpc_item) (p : pbuf) : N unit :=
  let cb := q_callback q in
  let token := q_arg q in
  match q_func q with
  | nfs_getattr_cb => _nfs_getattr_cb cb token p
  | nfs_lookup_cb => _nfs_lookup_cb cb token p
  | nfs_read_cb => _nfs_read_cb cb token p
  | nfs_write_cb => _nfs_write_cb cb token p
  | nfs_create_cb => _nfs_create_cb cb token p
  | nfs_remove_cb => _nfs_remove_cb cb token p
  | nfs_readdir_cb => _nfs_readdir_cb cb token p
  | rpc_call_cb => rpc_call_reply token p
  end.

(** * The time server *)

(** [time_recv] on the packets of one sleep. *)
Fixpoint time_recv (seconds : Z) (packets : list pbuf) : outcome Z :=
  match packets with
  | [] => Ret seconds
  | p :: packets' => '(v, _) ← pb_readl p 0; time_recv v packets'
  end.

(** The inner loop: ten sleeps at most; [i] counts the sleeps. *)
Fixpoint time_wait (n : nat) (arrivals : nat → list pbuf) (i : nat) (seconds : Z) :
    outcome (Z * nat) :=
  match n with
  | O => Ret (seconds, i)
  | S n' =>
      if negb (seconds =? 0) then Ret (seconds, i) else
      seconds ← time_recv seconds (arrivals i);
      time_wait n' arrivals (S i) seconds
  end.

(** The outer loop: [retry_count] goes from 5 to 0. *)
Fixpoint time_tries (n : nat) (arrivals : nat → list pbuf) (pcb : Z) (i : nat) (seconds : Z) :
    N Z :=
  match n with
  | O => mret seconds
  | S n' =>
      if negb (seconds =? 0) then mret seconds else
      p ← pbuf_new 0;
      match p with
      | None => failN AssertFail
      | Some p =>
          err ← udp_send pcb p;
          if negb (err =? ERR_OK) then mret seconds else
          '(seconds, i) ← liftN (time_wait (Z.to_nat (TIME_RETRY_TO_US / TIME_DELAY_US))
                                   arrivals i seconds);
          time_tries n' arrivals pcb i seconds
      end
  end.

Definition udp_time_get (arrivals : nat → list pbuf) : N Z :=
  ok ← askN en_udp_new;
  if negb ok then mret 0 else
  pcb ← fresh;
  _ ← modN (λ s, set_r_pcbs (<[pcb := (0, TIME_PORT)]> (r_pcbs s)) s);
  seconds ← time_tries (Z.to_nat (TIME_RETRIES + 1)) arrivals pcb 0 0;
  _ ← udp_remove pcb;
  mret seconds.

Definition init_rpc (arrivals : nat → list pbuf) : N bool :=
  time ← udp_time_get arrivals;
  _ ← seed_xid time;
  mret (time =? 0).

(** * The portmapper and the mount service *)

Definition portmapper_getport (arrivals : nat → list pbuf) (prog vers : Z) : N Z :=
  pcb ← rpc_new_udp PMAP_PORT false;
  b ← rpcpbuf_init PMAP_NUMBER PMAP_VERSION PMAPPROC_GETPORT;
  match b with
  | None => failN AssertFail
  | Some (p, pos) =>
      '(p, pos) ← liftN ('(p, pos) ← pb_writel p prog pos;
                         '(p, pos) ← pb_writel p vers pos;
                         '(p, pos) ← pb_writel p IPPROTO_UDP pos;
                         pb_writel p 0 pos);
      '(err, r) ← rpc_call handle arrivals p pos pcb getport_cb;
      _ ← udp_remove pcb;
      if negb (err =? 0) then mret (-1)
      else match r with
           | Some (GotPort port) => mret (if port =? 0 then -2 else i32 port)
           | _ => mret (-2)
           end
  end.

(** [mnt_new_udp] does not look at the port it gets. *)
Definition mnt_new_udp (arrivals : nat → list pbuf) : N Z :=
  port ← portmapper_getport arrivals MNT_NUMBER MNT_VERSION;
  rpc_new_udp port true.

Definition mountd_print_exports (arr1 arr2 : nat → list pbuf) : N Z :=
  pcb ← mnt_new_udp arr1;
  b ← rpcpbuf_init MNT_NUMBER MNT_VERSION MNTPROC_EXPORT;
  match b with
  | None => failN AssertFail
  | Some (p, pos) =>
      '(err, r) ← rpc_call handle arr2 p pos pcb mountd_print_exports_cb;
      _ ← udp_remove pcb;
      if negb (err =? 0) then mret err
      else match r with
           | Some (GotExports e _) => mret (if negb (e =? 0) then RPCERR_NOSUP else RPC_OK)
           | _ => mret RPCERR_NOSUP
           end
  end.

(** The result, and the handle stored in [*pfh]. *)
Definition mountd_mount (arr1 arr2 : nat → list pbuf) (dir : list Z) : N (Z * option Z) :=
  pcb ← mnt_new_udp arr1;
  b ← rpcpbuf_init MNT_NUMBER MNT_VERSION MNTPROC_MNT;
  match b with
  | None => _ ← udp_remove pcb; mret (RPCERR_NOBUF, None)
  | Some (p, pos) =>
      '(p, pos) ← liftN (pb_write_str p (dir ++ [0]) (Zlength dir) pos);
      '(stat, r) ← rpc_call handle arr2 p pos pcb mountd_mount_cb;
      _ ← udp_remove pcb;
      if negb (stat =? RPC_OK) then mret (stat, None)
      else match r with
           | Some (GotMount stat fh) => mret (stat, fh)
           | _ => mret (RPC_OK, None)
           end
  end.

(** * NFS *)

Definition nfs_init (arr1 arr2 : nat → list pbuf) : N Z :=
  failed ← init_rpc arr1;
  if (failed : bool) then mret RPCERR_NOSUP else
  port ← portmapper_getport arr2 NFS_NUMBER NFS_VERSION;
  if port =? -1 then mret RPCERR_COMM
  else if (port =? 0) || (port =? -2) then mret RPCERR_NOSUP
  else
    pcb ← rpc_new_udp port true;
    _ ← modN (set_r_nfs_pcb pcb);
    mret RPC_OK.

Definition nfs_mount (arr1 arr2 : nat → list pbuf) (dir : list Z) : N (Z * option Z) :=
  pcb ← getsN r_nfs_pcb;
  _ ← assertN (negb (pcb =? 0));
  mountd_mount arr1 arr2 dir.

Definition nfs_print_exports (arr1 arr2 : nat → list pbuf) : N Z :=
  pcb ← getsN r_nfs_pcb;
  _ ← assertN (negb (pcb =? 0));
  mountd_print_exports arr1 arr2.

(** The end of [network_init]: the handle of the mounted directory, if that
    worked.  [arr k] are the packets during the [k]-th wait. *)
Definition network_mount (arr : nat → nat → list pbuf) (dir : list Z) : N (option Z) :=
  if bool_decide (dir = []) then mret None else
  err ← nfs_init (arr 0%nat) (arr 1%nat);
  if negb (err =? 0) then mret None else
  _ ← nfs_print_exports (arr 2%nat) (arr 3%nat);
  '(err, fh) ← nfs_mount (arr 4%nat) (arr 5%nat) dir;
  mret (if err =? 0 then fh else None).
