(* ===== verification/RpcInv.v ===== *)
(** The RPC layer: what is sent, sent again and delivered.

    A request stays in the queue from the moment it is sent until its reply
    arrives; its packet is sent again when it has waited too long; transaction
    ids tell the requests apart, so that a reply reaches the request it answers
    and no other. *)

From S2P Require Import Prelude UtAllocator Sos Pbuf Rpc Nfs Mount.

(** * The monad *)

Lemma N_bind_eq {A B : Type} (m : N A) (k : A → N B) (s s1 : rpc_state) (a : A) :
  m s = Ret (a, s1) → mbind k m s = k a s1.
Proof. unfold mbind, N_bind. by intros ->. Qed.

Lemma N_bind_Fault {A B : Type} (m : N A) (k : A → N B) (s : rpc_state) (f : fault) :
  m s = Fault f → mbind k m s = Fault f.
Proof. unfold mbind, N_bind. by intros ->. Qed.

Lemma N_bind_Ret {A B : Type} (m : N A) (k : A → N B) (s s' : rpc_state) (b : B) :
  mbind k m s = Ret (b, s') → ∃ a s1, m s = Ret (a, s1) ∧ k a s1 = Ret (b, s').
Proof. unfold mbind, N_bind. destruct (m s) as [[a s1] |]; [eauto | discriminate]. Qed.

Lemma liftN_eq {A : Type} (o : outcome A) (a : A) (s : rpc_state) :
  o = Ret a → liftN o s = Ret (a, s).
Proof. by intros ->. Qed.

Lemma liftN_Ret {A : Type} (o : outcome A) (a : A) (s s' : rpc_state) :
  liftN o s = Ret (a, s') → o = Ret a ∧ s' = s.
Proof. unfold liftN. destruct o; [by intros [= -> <-] | discriminate]. Qed.

Lemma assertN_eq (c : bool) (s : rpc_state) : c = true → assertN c s = Ret (tt, s).
Proof. by intros ->. Qed.

Tactic Notation "nstep" uconstr(E) := erewrite N_bind_eq by (exact E); cbv beta iota.
Tactic Notation "nstep" uconstr(E) "by" tactic3(t) :=
  erewrite N_bind_eq by (eapply E; t); cbv beta iota.

(** The steps that need no hypothesis. *)
Lemma getsN_eq {A : Type} (f : rpc_state → A) s : getsN f s = Ret (f s, s).
Proof. done. Qed.
Lemma modN_eq f s : modN f s = Ret (tt, f s).
Proof. done. Qed.
Lemma mretN_eq {A : Type} (a : A) s : (mret a : N A) s = Ret (a, s).
Proof. done. Qed.
Lemma askN_eq {A : Type} (f : rpc_env → nat → A) s :
  askN f s = Ret (f (r_env s) (r_tick s), set_r_tick (S (r_tick s)) s).
Proof. done. Qed.

Ltac npure :=
  repeat first
    [ erewrite N_bind_eq by (apply getsN_eq)
    | erewrite N_bind_eq by (apply modN_eq)
    | erewrite N_bind_eq by (apply mretN_eq)
    | erewrite N_bind_eq by (apply askN_eq)
    | erewrite N_bind_eq by (apply assertN_eq; done) ];
  cbv beta iota.

(** Take a run that returned apart. *)
Ltac ninv H :=
  match type of H with
  | mbind _ _ _ = Ret _ =>
      let a := fresh "v" in let s1 := fresh "s" in
      let H1 := fresh "H" in let H2 := fresh "H" in
      apply N_bind_Ret in H as (a & s1 & H1 & H2); ninv H1; ninv H2
  | mret _ _ = Ret _ => injection H as <- <-
  | getsN _ _ = Ret _ => injection H as <- <-
  | modN _ _ = Ret _ => injection H as <- <-
  | askN _ _ = Ret _ => injection H as <- <-
  | fresh _ = Ret _ => injection H as <- <-
  | failN _ _ = Ret _ => discriminate H
  | assertN ?c _ = Ret _ =>
      let E := fresh "A" in destruct c eqn:E; [injection H as <- <- | discriminate H]
  | liftN _ _ = Ret _ => apply liftN_Ret in H as [? ->]
  | _ => idtac
  end.

(** * Sending *)

(** A packet that can be sent. *)
Record sendable (p : pbuf) : Prop := {
  sd_some : p ≠ [];
  sd_segs : Forall (λ seg, seg ≠ []) p
}.

Definition pcb_open (s : rpc_state) (pcb : Z) : Prop := is_Some (r_pcbs s !! pcb).

(** Only the log of sent packets and the clock of the environment differ. *)
Definition sent_only (s s' : rpc_state) : Prop :=
  ∃ l n, s' = set_r_sent l (set_r_tick n s).

Lemma sent_only_refl s : sent_only s s.
Proof. exists (r_sent s), (r_tick s). by destruct s. Qed.

Lemma sent_only_trans s s1 s2 : sent_only s s1 → sent_only s1 s2 → sent_only s s2.
Proof. intros (l & n & ->) (l' & n' & ->). by exists l', n'. Qed.

(** lwIP always has a buffer and always sends. *)
Definition net_ok (s : rpc_state) : Prop :=
  ∀ n, en_pbuf (r_env s) n = true ∧ en_udp_send (r_env s) n = ERR_OK.

Lemma udp_send_eq s pcb p :
  pcb_open s pcb →
  ∃ err s', udp_send pcb p s = Ret (err, s') ∧ sent_only s s' ∧
    r_sent s' = r_sent s ++ (if err =? ERR_OK then [(pcb, concat p)] else []) ∧
    (net_ok s → err = ERR_OK).
Proof.
  intros Hpcb. unfold udp_send. npure. rewrite bool_decide_true by done. cbn [negb]. npure.
  destruct (en_udp_send (r_env s) (r_tick s) =? ERR_OK) eqn:E; npure; eexists _, _;
    (split; [reflexivity |]); rewrite E; (split; [by eexists _, _ |]);
    (split; [by rewrite ?app_nil_r | intros H; apply (H (r_tick s))]).
Qed.

Lemma pbuf_new_eq s n :
  ∃ o, pbuf_new n s = Ret (o, set_r_tick (S (r_tick s)) s) ∧
    ((o = None ∧ ¬ net_ok s) ∨
     ∃ seg, o = Some [seg] ∧ length seg = Z.to_nat n ∧ Forall byte seg).
Proof.
  unfold pbuf_new. npure. eexists. split; [done |].
  destruct (en_pbuf (r_env s) (r_tick s)) eqn:E.
  2: { left. split; [done |]. intros H. destruct (H (r_tick s)). congruence. }
  right.
  eexists. split; [done |]. split; [by rewrite length_fmap, length_seq |].
  apply Forall_fmap, Forall_true. intros i. apply Z.mod_pos_bound. lia.
Qed.

Lemma pbuf_copy_single seg p :
  sendable p → Zlength seg = tot_len p → pbuf_copy [seg] p = Ret (Some [concat p]).
Proof.
  intros [Hp Hs] Hl. unfold pbuf_copy. assert (tot_len [seg] = tot_len p) as ->.
  { rewrite tot_len_cons, Hl. change (tot_len []) with 0. lia. }
  rewrite (bool_decide_false (p = [])), Z.ltb_irrefl by done. cbn [orb].
  change (bool_decide ([seg] = [])) with false. cbn [orb].
  rewrite pbuf_copy_loop_eq by (try done; cbn [length]; lia).
  unfold splice. change (Z.to_nat 0) with 0%nat. cbn [take Nat.add app].
  rewrite drop_ge, app_nil_r; [done |]. unfold tot_len, Zlength in Hl. lia.
Qed.

(** [my_udp_send] returns; when it says [RPC_OK] exactly the bytes of the packet
    went out, otherwise nothing did. *)
Lemma my_udp_send_eq s pcb p :
  sendable p → pcb_open s pcb →
  ∃ stat s', my_udp_send pcb p s = Ret (stat, s') ∧ sent_only s s' ∧
    r_sent s' = r_sent s ++ (if stat =? RPC_OK then [(pcb, concat p)] else []) ∧
    (net_ok s → stat = RPC_OK).
Proof.
  intros Hp Hpcb. unfold my_udp_send. destruct (pbuf_new_eq s (tot_len p)) as (o & E & Ho).
  nstep E. destruct Ho as [[-> Hno] | (seg & -> & Hl & _)].
  - eexists _, _. split; [done |]. split; [by exists (r_sent s), (S (r_tick s)); destruct s |].
    by rewrite app_nil_r.
  - nstep (liftN_eq _ _ _ (pbuf_copy_single seg p Hp
             ltac:(unfold Zlength; rewrite Hl; pose proof (tot_len_nonneg p); lia))).
    destruct (udp_send_eq (set_r_tick (S (r_tick s)) s) pcb [concat p]) as (err & s' & Eu & Hs & Hsent & Hok);
      [done |].
    nstep Eu. eexists _, _. split; [reflexivity |].
    split; [eapply sent_only_trans; [| exact Hs]; exists (r_sent s), (S (r_tick s)); by destruct s |].
    rewrite Hsent. cbn [concat]. rewrite app_nil_r. unfold ERR_OK, ERR_MEM, ERR_RTE, RPC_OK, RPCERR_NOMEM, RPCERR_COMM.
    change (r_sent (set_r_tick (S (r_tick s)) s)) with (r_sent s).
    split; [f_equal | intros H; by rewrite (Hok H)].
    destruct (Z.eqb_spec err (-1)) as [-> |]; [done |].
    destruct (Z.eqb_spec err (-4)) as [-> |]; [done |].
    destruct (Z.eqb_spec err 0) as [-> |]; [done |]. by destruct (Z.eqb_spec err 0).
Qed.

(** * Sending again *)

Definition aged (ms : Z) (q : rpc_item) : rpc_item :=
  mk_item (q_pcb q) (q_pbuf q) (q_xid q) (q_timeout q + ms) (q_func q) (q_callback q) (q_arg q).

Definition renewed (q : rpc_item) : rpc_item :=
  mk_item (q_pcb q) (q_pbuf q) (q_xid q) 0 (q_func q) (q_callback q) (q_arg q).

(** A request that has waited [ms] longer; [b] tells whether it was sent again. *)
Definition after (ms : Z) (q : rpc_item) (b : bool) : rpc_item :=
  if b then renewed q else aged ms q.

Definition due (ms : Z) (q : rpc_item) : bool := RETRANSMIT_DELAY_MS <? q_timeout q + ms.

(** The packets of the requests that were sent again. *)
Definition resent (l : list rpc_item) (bs : list bool) : list (Z * list Z) :=
  concat (zip_with (λ q (b : bool), if b then [(q_pcb q, concat (q_pbuf q))] else []) l bs).

(** A queue item whose packet can be sent. *)
Definition item_ok (s : rpc_state) (q : rpc_item) : Prop :=
  sendable (q_pbuf q) ∧ pcb_open s (q_pcb q).

Lemma item_ok_sent_only s s' q : sent_only s s' → item_ok s q → item_ok s' q.
Proof. by intros (l & n & ->). Qed.

Lemma net_ok_sent_only s s' : sent_only s s' → net_ok s → net_ok s'.
Proof. by intros (l & n & ->). Qed.

Lemma timeout_item_eq s ms q :
  item_ok s q →
  ∃ b s', timeout_item ms q s = Ret (after ms q b, s') ∧ sent_only s s' ∧
    r_sent s' = r_sent s ++ (if b then [(q_pcb q, concat (q_pbuf q))] else []) ∧
    (b = true → due ms q = true) ∧ (net_ok s → b = due ms q).
Proof.
  intros [Hp Hpcb]. unfold timeout_item, due. destruct (RETRANSMIT_DELAY_MS <? q_timeout q + ms) eqn:E.
  - destruct (my_udp_send_eq s (q_pcb q) (q_pbuf q)) as (stat & s' & Es & Hs & Hsent & Hok); [done.. |].
    nstep Es. exists (stat =? 0), s'. unfold RPC_OK in *.
    split; [by destruct (stat =? 0) |]. split_and!; [done.. |]. intros H. by rewrite (Hok H).
  - exists false, s. rewrite app_nil_r. split_and!; [done | apply sent_only_refl | done..].
Qed.

Lemma timeout_items_eq s ms l :
  Forall (item_ok s) l →
  ∃ bs s', timeout_items ms l s = Ret (zip_with (after ms) l bs, s') ∧ sent_only s s' ∧
    length bs = length l ∧ r_sent s' = r_sent s ++ resent l bs ∧
    Forall2 (λ q b, b = true → due ms q = true) l bs ∧ (net_ok s → bs = due ms <$> l).
Proof.
  revert s. induction l as [|q l IH]; intros s Hl.
  - exists [], s. rewrite app_nil_r. split_and!; [done | apply sent_only_refl | done..].
  - apply Forall_cons in Hl as [Hq Hl]. cbn [timeout_items].
    destruct (timeout_item_eq s ms q Hq) as (b & s1 & E1 & H1 & Hs1 & Hd & Hok).
    destruct (IH s1) as (bs & s2 & E2 & H2 & Hlen & Hs2 & Hds & Hoks).
    { eapply Forall_impl; [exact Hl |]. intros. by eapply item_ok_sent_only. }
    exists (b :: bs), s2. nstep E1. nstep E2.
    split_and!; [done | by eapply sent_only_trans | cbn; lia | | by constructor |].
    + rewrite Hs2, Hs1, <- app_assoc. done.
    + intros H. rewrite (Hok H), Hoks by (by eapply net_ok_sent_only). done.
Qed.

(** A state from which every waiting request can be sent again. *)
Definition queue_ok (s : rpc_state) : Prop := Forall (item_ok s) (r_queue s).

Lemma rpc_timeout_eq s ms :
  queue_ok s →
  ∃ bs s', rpc_timeout ms s = Ret (tt, s') ∧ length bs = length (r_queue s) ∧
    r_queue s' = zip_with (after ms) (r_queue s) bs ∧
    (∃ s1, sent_only s s1 ∧ s' = set_r_queue (r_queue s') s1) ∧
    r_sent s' = r_sent s ++ resent (r_queue s) bs ∧
    Forall2 (λ q b, b = true → due ms q = true) (r_queue s) bs ∧
    (net_ok s → bs = due ms <$> r_queue s).
Proof.
  intros Hq. unfold rpc_timeout. npure.
  destruct (timeout_items_eq s ms (r_queue s) Hq) as (bs & s' & E & Hs & Hl & Hsent & Hd & Hok).
  nstep E. exists bs, (set_r_queue (zip_with (after ms) (r_queue s) bs) s').
  split_and!; [done.. | | done | done | done]. by exists s'.
Qed.

Lemma after_same ms q b :
  q_pcb (after ms q b) = q_pcb q ∧ q_pbuf (after ms q b) = q_pbuf q ∧
  q_xid (after ms q b) = q_xid q ∧ q_func (after ms q b) = q_func q ∧
  q_callback (after ms q b) = q_callback q ∧ q_arg (after ms q b) = q_arg q.
Proof. by destruct b. Qed.

Lemma queue_ok_timeout s s1 ms bs :
  queue_ok s → sent_only s s1 →
  queue_ok (set_r_queue (zip_with (after ms) (r_queue s) bs) s1).
Proof.
  intros Hq (l & n & ->). unfold queue_ok in *. cbn [r_queue set_r_queue].
  rewrite Forall_lookup in Hq. apply Forall_lookup. intros i q' Hi.
  apply lookup_zip_with_Some in Hi as (q & b & -> & Hi & _). specialize (Hq _ _ Hi).
  by destruct b.
Qed.

(** [n] times [nfs_timeout]. *)
Fixpoint timeouts (n : nat) : N unit :=
  match n with
  | O => mret tt
  | S n' => _ ← nfs_timeout; timeouts n'
  end.

Lemma resent_lookup l bs i q :
  l !! i = Some q → bs !! i = Some true → (q_pcb q, concat (q_pbuf q)) ∈ resent l bs.
Proof.
  intros Hl Hb. unfold resent. apply list_elem_of_In, in_concat.
  exists [(q_pcb q, concat (q_pbuf q))]. split; [| by left].
  apply list_elem_of_In, list_elem_of_lookup. exists i. rewrite lookup_zip_with, Hl, Hb. done.
Qed.

Lemma timeouts_total n s :
  queue_ok s → ∃ s' new, timeouts n s = Ret (tt, s') ∧ r_sent s' = r_sent s ++ new.
Proof.
  revert s. induction n as [|n IH]; intros s Hq.
  - exists s, []. by rewrite app_nil_r.
  - cbn [timeouts]. destruct (rpc_timeout_eq s 100 Hq) as (bs & s1 & E & _ & Eq & (s0 & H0 & E1) & Hs & _).
    destruct (IH s1) as (s' & new & E' & Hs').
    { rewrite E1, Eq. by apply queue_ok_timeout. }
    exists s', (resent (r_queue s) bs ++ new). unfold nfs_timeout. nstep E.
    split; [done |]. by rewrite Hs', Hs, app_assoc.
Qed.

Lemma aged_add a b q : aged a (aged b q) = aged (b + a) q.
Proof. unfold aged. cbn. by rewrite Z.add_assoc. Qed.

(** While [n] calls of [nfs_timeout] are made, a waiting request is sent again,
    or it waits on, older by the time that has passed. *)
Lemma timeouts_resend n s i q :
  queue_ok s → r_queue s !! i = Some q →
  ∃ s' new, timeouts n s = Ret (tt, s') ∧ r_sent s' = r_sent s ++ new ∧
    ((q_pcb q, concat (q_pbuf q)) ∈ new ∨
     r_queue s' !! i = Some (aged (100 * Z.of_nat n) q) ∧
     (RETRANSMIT_DELAY_MS < q_timeout q + 100 * Z.of_nat n → n ≠ O → ¬ net_ok s)).
Proof.
  revert s q. induction n as [|n IH]; intros s q Hq Hi.
  { exists s, []. split_and!; [done | by rewrite app_nil_r |]. right. split; [| done].
    rewrite Hi. unfold aged. replace (q_timeout q + _) with (q_timeout q) by (cbn; lia). by destruct q. }
  cbn [timeouts]. unfold nfs_timeout.
  destruct (rpc_timeout_eq s 100 Hq) as (bs & s1 & E & Hl & Eq & (s0 & H0 & E1) & Hs & _ & Hbs).
  nstep E. assert (queue_ok s1) as Hq1.
  { rewrite E1, Eq. by apply queue_ok_timeout. }
  destruct (lookup_lt_is_Some_2 bs i) as [b Hb]; [rewrite Hl; by apply lookup_lt_Some in Hi |].
  destruct b.
  - destruct (timeouts_total n s1 Hq1) as (s' & new & E' & Hs').
    exists s', (resent (r_queue s) bs ++ new). split; [done |].
    split; [by rewrite Hs', Hs, app_assoc |]. left. apply elem_of_app. left. by apply (resent_lookup _ _ i).
  - destruct (IH s1 (aged 100 q)) as (s' & new & E' & Hs' & H); [done | by rewrite Eq, lookup_zip_with, Hi, Hb |].
    exists s', (resent (r_queue s) bs ++ new). split; [done |].
    split; [by rewrite Hs', Hs, app_assoc |].
    destruct H as [Hin | [Hi' Hn]]; [left; apply elem_of_app; by right |]. right.
    rewrite Hi', aged_add. split; [do 2 f_equal; lia |]. intros Hd _ Hok.
    specialize (Hbs Hok). rewrite Hbs, list_lookup_fmap, Hi in Hb. injection Hb as Hb.
    unfold due in Hb. apply Z.ltb_ge in Hb. apply Hn; [cbn; lia | intros ->; lia |].
    rewrite E1. exact (net_ok_sent_only _ _ H0 Hok).
Qed.

(** * Transaction ids *)

Lemma take_xid_Some x l q l' :
  take_xid x l = Some (q, l') → q_xid q = x ∧ ∃ k, l !! k = Some q ∧ l' = delete k l.
Proof.
  revert l'. induction l as [|q' l IH]; intros l'; cbn [take_xid]; [done |].
  destruct (Z.eqb_spec (q_xid q') x) as [Hx |].
  - intros [= -> ->]. split; [done |]. by exists 0%nat.
  - destruct (take_xid x l) as [[q1 l1] |]; [| done]. intros [= -> <-].
    destruct (IH l1) as (Hx & k & Hk & ->); [done |]. split; [done |]. by exists (S k).
Qed.

Lemma take_xid_None x l : take_xid x l = None ↔ x ∉ q_xid <$> l.
Proof.
  induction l as [|q l IH]; cbn [take_xid fmap list_fmap]; [split; [intros _; apply not_elem_of_nil | done] |].
  rewrite not_elem_of_cons. destruct (Z.eqb_spec (q_xid q) x) as [-> |]; [split; [done | by intros [? _]] |].
  destruct (take_xid x l) as [[q1 l1] |]; [| naive_solver].
  split; [done |]. intros [_ H]. by apply IH in H.
Qed.

Lemma take_xid_lookup l k q :
  NoDup (q_xid <$> l) → l !! k = Some q → take_xid (q_xid q) l = Some (q, delete k l).
Proof.
  revert k. induction l as [|q' l IH]; intros k Hn Hk; [done |].
  cbn [take_xid]. apply NoDup_cons in Hn as [Hq Hn]. destruct k as [|k].
  - injection Hk as ->. by rewrite Z.eqb_refl.
  - destruct (Z.eqb_spec (q_xid q') (q_xid q)) as [Hx |].
    + destruct Hq. rewrite Hx. apply list_elem_of_fmap. exists q. split; [done |].
      by apply list_elem_of_lookup_2 with k.
    + by rewrite (IH k).
Qed.

(** [n] ids have been given out since the seed [base]; the waiting requests have
    different ones of them. *)
Record xids_ok (base n : Z) (s : rpc_state) : Prop := {
  xi_cur : r_xid s = u32 (base + n);
  xi_old : Forall (λ q, ∃ i, 0 < i ≤ n ∧ q_xid q = u32 (base + i)) (r_queue s);
  xi_diff : NoDup (q_xid <$> r_queue s)
}.

Lemma u32_offset base i j : 0 ≤ i < 2 ^ 32 → 0 ≤ j < 2 ^ 32 → u32 (base + i) = u32 (base + j) → i = j.
Proof. unfold u32. intros. divmod. Qed.

(** A request with the next id. *)
Lemma xids_ok_add base n s s' q :
  xids_ok base n s → 0 ≤ n → n + 1 < 2 ^ 32 → r_xid s' = u32 (base + (n + 1)) →
  q_xid q = r_xid s' → r_queue s' = r_queue s ++ [q] → xids_ok base (n + 1) s'.
Proof.
  intros [Hc Ho Hd] Hn Hlt Hx Hq Hl. split; [done | |]; rewrite Hl.
  - apply Forall_app. split.
    + eapply Forall_impl; [exact Ho |]. intros q' (i & Hi & Ei). exists i. split; [lia | done].
    + apply Forall_singleton. exists (n + 1). split; [lia | congruence].
  - rewrite fmap_app. apply NoDup_app. split; [done |]. split; [| apply NoDup_singleton].
    intros x Hin Hx1. apply list_elem_of_singleton in Hx1 as ->.
    apply list_elem_of_fmap in Hin as (q' & Eq & Hin). rewrite Forall_forall in Ho.
    destruct (Ho _ Hin) as (i & Hi & Ei).
    assert (i = n + 1); [| lia]. apply (u32_offset base); [lia.. |]. congruence.
Qed.

(** An id that was given out for a request that was not queued. *)
Lemma xids_ok_skip base n s s' :
  xids_ok base n s → r_xid s' = u32 (base + (n + 1)) → r_queue s' = r_queue s →
  xids_ok base (n + 1) s'.
Proof.
  intros [Hc Ho Hd] Hx Hl. split; [done | |]; rewrite Hl; [| done].
  eapply Forall_impl; [exact Ho |]. intros q' (i & Hi & Ei). exists i. split; [lia | done].
Qed.

Lemma xids_ok_delete base n s s' k :
  xids_ok base n s → r_xid s' = r_xid s → r_queue s' = delete k (r_queue s) → xids_ok base n s'.
Proof.
  intros [Hc Ho Hd] Hx Hl. split; [congruence | |]; rewrite Hl.
  - by apply Forall_delete.
  - eapply sublist_NoDup; [exact Hd |]. 
    rewrite delete_take_drop, fmap_app, fmap_take, fmap_drop, <- delete_take_drop.
    apply sublist_delete.
Qed.

Lemma xids_ok_same base n s s' :
  xids_ok base n s → r_xid s' = r_xid s → q_xid <$> r_queue s' = q_xid <$> r_queue s →
  xids_ok base n s'.
Proof.
  intros [Hc Ho Hd] Hx Hl. split; [congruence | | congruence].
  set (P x := ∃ i, 0 < i ≤ n ∧ x = u32 (base + i)).
  change (Forall (P ∘ q_xid) (r_queue s)) in Ho. apply (Forall_fmap q_xid P) in Ho.
  rewrite <- Hl in Ho. by apply (Forall_fmap q_xid P) in Ho.
Qed.
