(* ===== verification/NfsWire.v ===== *)
(** What goes over the wire.

    [server_view] reads a packet the way an NFS server does (XDR, the RPC message
    format of RFC 1057, the procedures of RFC 1094).  Every request of libnfs, as
    it is queued, sent and sent again, is read there as the call it was made
    for. *)

From S2P Require Import Prelude UtAllocator Sos Pbuf Rpc Nfs Mount RpcInv.

(** * XDR *)

Definition xdr_word (l : list Z) : option (Z * list Z) :=
  match l with
  | a :: b :: c :: d :: l' => Some (a * 2 ^ 24 + b * 2 ^ 16 + c * 2 ^ 8 + d, l')
  | _ => None
  end.

Definition xdr_fixed (n : Z) (l : list Z) : option (list Z * list Z) :=
  if n <=? Zlength l then Some (take (Z.to_nat n) l, drop (Z.to_nat n) l) else None.

Definition xdr_opaque (l : list Z) : option (list Z * list Z) :=
  '(n, l) ← xdr_word l;
  '(d, l) ← xdr_fixed n l;
  '(_, l) ← xdr_fixed (pad_len n) l;
  Some (d, l).

Fixpoint xdr_words (n : nat) (l : list Z) : option (list Z * list Z) :=
  match n with
  | O => Some ([], l)
  | S n' =>
      '(w, l) ← xdr_word l;
      '(ws, l) ← xdr_words n' l;
      Some (w :: ws, l)
  end.

(** * Calls *)

(** The credentials of AUTH_UNIX: the machine, the user and the group. *)
Definition parse_auth_unix (body : list Z) : option (list Z * Z * Z) :=
  '(_, l) ← xdr_word body;
  '(machine, l) ← xdr_opaque l;
  '(uid, l) ← xdr_word l;
  '(gid, l) ← xdr_word l;
  '(ngids, l) ← xdr_word l;
  '(_, l) ← xdr_words (Z.to_nat ngids) l;
  if bool_decide (l = []) then Some (machine, uid, gid) else None.

Record call_msg : Type := mk_call {
  c_xid : Z; c_prog : Z; c_vers : Z; c_proc : Z;
  c_machine : list Z; c_uid : Z; c_gid : Z;
  c_args : list Z
}.

Definition parse_call (l : list Z) : option call_msg :=
  '(xid, l) ← xdr_word l;
  '(mtype, l) ← xdr_word l;
  '(rpcvers, l) ← xdr_word l;
  '(prog, l) ← xdr_word l;
  '(vers, l) ← xdr_word l;
  '(proc, l) ← xdr_word l;
  '(flavour, l) ← xdr_word l;
  '(cred, l) ← xdr_opaque l;
  '(_, l) ← xdr_word l;
  '(_, l) ← xdr_opaque l;
  if (mtype =? 0) && (rpcvers =? 2) && (flavour =? 1) then
    '(machine, uid, gid) ← parse_auth_unix cred;
    Some (mk_call xid prog vers proc machine uid gid l)
  else None.

(** The procedures of NFS that are used, with their arguments. *)
Inductive nfs_call : Type :=
  | CallGetattr (fh : Z)
  | CallLookup (fh : Z) (name : list Z)
  | CallRead (fh offset count : Z)
  | CallWriteTo (fh offset : Z) (data : list Z)
  | CallCreate (fh : Z) (name : list Z) (attributes : list Z)
  | CallRemove (fh : Z) (name : list Z)
  | CallReaddir (fh cookie count : Z).

Definition parse_args (proc : Z) (l : list Z) : option (nfs_call * list Z) :=
  '(fh, l) ← xdr_fixed 32 l;
  let fh := fh_of fh in
  match proc with
  | 1 => Some (CallGetattr fh, l)
  | 4 => '(name, l) ← xdr_opaque l; Some (CallLookup fh name, l)
  | 6 => '(offset, l) ← xdr_word l; '(count, l) ← xdr_word l; '(_, l) ← xdr_word l;
         Some (CallRead fh offset count, l)
  | 8 => '(_, l) ← xdr_word l; '(offset, l) ← xdr_word l; '(_, l) ← xdr_word l;
         '(data, l) ← xdr_opaque l; Some (CallWriteTo fh offset data, l)
  | 9 => '(name, l) ← xdr_opaque l; '(ws, l) ← xdr_words 8 l; Some (CallCreate fh name ws, l)
  | 10 => '(name, l) ← xdr_opaque l; Some (CallRemove fh name, l)
  | 16 => '(cookie, l) ← xdr_word l; '(count, l) ← xdr_word l; Some (CallReaddir fh cookie count, l)
  | _ => None
  end.

(** The id and the call of a packet; nothing may be left behind the arguments. *)
Definition server_view (l : list Z) : option (Z * nfs_call) :=
  m ← parse_call l;
  if (c_prog m =? 100003) && (c_vers m =? 2) then
    '(c, rest) ← parse_args (c_proc m) (c_args m);
    if bool_decide (rest = []) then Some (c_xid m, c) else None
  else None.

(** * Reading what was written *)

Definition word (v : Z) : Prop := 0 ≤ v < 2 ^ 32.

Lemma xdr_word_be v l : word v → xdr_word (be_bytes v ++ l) = Some (v, l).
Proof. intros H. unfold word in H. cbn [be_bytes app xdr_word]. do 2 f_equal. divmod. Qed.

Lemma xdr_fixed_app n a l : Zlength a = n → xdr_fixed n (a ++ l) = Some (a, l).
Proof.
  intros <-. unfold xdr_fixed. rewrite Zlength_app. pose proof (Zlength_nonneg l).
  destruct (Z.leb_spec (Zlength a) (Zlength a + Zlength l)); [| lia].
  unfold Zlength. by rewrite Nat2Z.id, take_app_length, drop_app_length.
Qed.

(** Variable length data, whatever its padding. *)
Lemma xdr_opaque_app s pad l :
  word (Zlength s) → Zlength pad = pad_len (Zlength s) →
  xdr_opaque (be_bytes (Zlength s) ++ s ++ pad ++ l) = Some (s, l).
Proof.
  intros Hs Hp. unfold xdr_opaque. rewrite xdr_word_be by done. cbn [mbind option_bind].
  rewrite xdr_fixed_app by done. cbn [mbind option_bind]. by rewrite xdr_fixed_app.
Qed.

Lemma xdr_opaque_string s l : word (Zlength s) → xdr_opaque (xdr_string s ++ l) = Some (s, l).
Proof.
  intros Hs. unfold xdr_string. rewrite <- !app_assoc. apply xdr_opaque_app; [done |].
  unfold Zlength at 1. rewrite length_replicate. pose proof (pad_len_range (Zlength s)). lia.
Qed.

Lemma xdr_words_be vs l :
  Forall word vs → xdr_words (length vs) ((vs ≫= be_bytes) ++ l) = Some (vs, l).
Proof.
  induction 1 as [|v vs Hv _ IH]; [done |]. cbn [xdr_words length].
  change ((v :: vs) ≫= be_bytes) with (be_bytes v ++ (vs ≫= be_bytes)). rewrite <- app_assoc.
  rewrite xdr_word_be by done. cbn [mbind option_bind]. by rewrite IH.
Qed.

(** * The header *)

Definition rpc_hdr (xid prog vers proc : Z) : list Z :=
  ([xid; MSG_CALL; SRPC_VERSION; prog; vers; proc] ≫= be_bytes) ++
  ([AUTH_UNIX; 28; AUTH_STAMP] ≫= be_bytes) ++ xdr_string NFS_MACHINE_NAME ++
  ([ROOT; ROOT; ROOT; AUTH_NULL; 0] ≫= be_bytes).

(** The credentials, without their length. *)
Definition cred_body : list Z :=
  be_bytes AUTH_STAMP ++ xdr_string NFS_MACHINE_NAME ++ ([ROOT; ROOT; ROOT] ≫= be_bytes).

Lemma rpc_hdr_eq xid prog vers proc args :
  rpc_hdr xid prog vers proc ++ args =
    be_bytes xid ++ be_bytes 0 ++ be_bytes 2 ++ be_bytes prog ++ be_bytes vers ++ be_bytes proc ++
    be_bytes 1 ++ (be_bytes (Zlength cred_body) ++ cred_body ++ [] ++
                   be_bytes 0 ++ (be_bytes (Zlength (@nil Z)) ++ [] ++ [] ++ args)).
Proof. done. Qed.

Lemma parse_call_hdr xid prog vers proc args :
  word xid → word prog → word vers → word proc →
  parse_call (rpc_hdr xid prog vers proc ++ args) =
    Some (mk_call xid prog vers proc NFS_MACHINE_NAME 0 0 args).
Proof.
  intros Hx Hp Hv Hc. unfold parse_call. rewrite rpc_hdr_eq.
  do 7 (rewrite xdr_word_be by done; cbn [mbind option_bind]).
  rewrite xdr_opaque_app by done. cbn [mbind option_bind].
  rewrite xdr_word_be by done. cbn [mbind option_bind].
  by rewrite xdr_opaque_app.
Qed.

(** Append an array of words to what has been written ([W]); the side condition
    is that it fits. *)
Ltac write_words W L :=
  let p := fresh "p" in let E := fresh "E" in let W' := fresh "W" in let L' := fresh "L" in
  match type of W with wrote ?q ?pos _ =>
    match goal with |- context [pb_write_arrl q ?vs pos] =>
      destruct (wrote_arrl q pos _ vs W) as (p & E & W' & L'); [rewrite L; done |]
    end
  end;
  rewrite E; cbn [mbind outcome_bind]; clear E W; rename W' into W;
  rewrite L in L'; clear L; rename L' into L.

Lemma rpc_write_hdr_eq xid p prog vers proc :
  length p = 1%nat → tot_len p = UDP_PAYLOAD →
  ∃ p', rpc_write_hdr xid p prog vers proc = Ret (p', 68) ∧
    wrote p' 68 (rpc_hdr xid prog vers proc) ∧ tot_len p' = UDP_PAYLOAD.
Proof.
  intros H1 L. unfold rpc_write_hdr, UDP_PAYLOAD in *.
  assert (wrote p 0 []) as W by (apply wrote_start; [done | rewrite L; done]).
  write_words W L. write_words W L. unfold pb_writel. write_words W L.
  edestruct (wrote_str _ _ _ NFS_MACHINE_NAME W) as (p3 & E & W3 & L3 & _); [done | rewrite L; done |].
  rewrite E. cbn [mbind outcome_bind]. clear E W. rewrite L in L3. clear L.
  write_words W3 L3.
  edestruct (wrote_arrl _ _ _ [AUTH_NULL; 0] W3) as (p' & E & W' & L'); [rewrite L3; done |].
  exists p'. rewrite E, L'. split_and!; [done | | done].
  replace (rpc_hdr xid prog vers proc) with
    (((((([] ++ ([xid; MSG_CALL; SRPC_VERSION; prog; vers; proc] ≫= be_bytes)) ++
     ([AUTH_UNIX; ROUNDUP (4 + 4 + Zlength NFS_MACHINE_NAME + 12) 4] ≫= be_bytes)) ++
     ([AUTH_STAMP] ≫= be_bytes)) ++ xdr_string NFS_MACHINE_NAME) ++
     ([ROOT; ROOT; ROOT] ≫= be_bytes)) ++ ([AUTH_NULL; 0] ≫= be_bytes)) by done.
  exact W'.
Qed.

(** * Sending a request *)

(** The connection to the server is open. *)
Record connected (s : rpc_state) : Prop := {
  co_pcb : r_nfs_pcb s ≠ 0;
  co_open : pcb_open s (r_nfs_pcb s)
}.

(** One of the next [k] answers of the environment is that malloc fails. *)
Definition malloc_fails (s : rpc_state) (k : nat) : Prop :=
  ∃ n, (r_tick s ≤ n < r_tick s + k)%nat ∧ en_malloc (r_env s) n = false.

(** The connection to the server is open, and malloc works. *)
Record nfs_ready (s : rpc_state) : Prop := {
  nr_pcb : r_nfs_pcb s ≠ 0;
  nr_open : pcb_open s (r_nfs_pcb s);
  nr_malloc : ∀ n, en_malloc (r_env s) n = true
}.

(** libnfs with a connection to the NFS server, memory and a network that never
    fail, and nothing to do. *)
Definition good_env : rpc_env :=
  mk_rpc_env (λ _, true) (λ _, true) (λ _ _, 0) (λ _, true) (λ _, ERR_OK)
    (λ _, mk_reply 0 0 (mk_fattr 0 0 (0, 0)) true 0 [] [] 0).

Definition mounted : rpc_state :=
  mk_rpc_state [] 0 ROOT_PORT_MIN 1 ∅ {[1 := (ROOT_PORT_MIN, 2049)]} 2 None [] [] good_env 0.

Lemma nfs_ready_connected s : nfs_ready s → connected s.
Proof. by intros [H1 H2 _]. Qed.

Lemma nfs_ready_malloc s k : nfs_ready s → ¬ malloc_fails s k.
Proof. intros [_ _ H] (n & _ & E). by rewrite H in E. Qed.

Lemma mounted_ready : nfs_ready mounted.
Proof. split; [done | by exists (ROOT_PORT_MIN, 2049) | done]. Qed.

Lemma mounted_net : net_ok mounted.
Proof. intros n. split; reflexivity. Qed.

Lemma rpcpbuf_init_eq s prog vers proc :
  ∃ o s1, rpcpbuf_init prog vers proc s = Ret (o, s1) ∧
    ((o = None ∧ ¬ net_ok s ∧ s1 = set_r_tick (S (r_tick s)) s) ∨
     ∃ p, o = Some (p, 68) ∧ tot_len p = UDP_PAYLOAD ∧
       s1 = set_r_xid (u32 (r_xid s + 1)) (set_r_tick (S (r_tick s)) s) ∧
       wrote p 68 (rpc_hdr (u32 (r_xid s + 1)) prog vers proc)).
Proof.
  unfold rpcpbuf_init. destruct (pbuf_new_eq s UDP_PAYLOAD) as (o & E & Ho). nstep E.
  destruct Ho as [[-> Hno] | (seg & -> & Hl & _)].
  - eexists _, _. split; [reflexivity |]. by left.
  - unfold get_xid. npure.
    destruct (rpc_write_hdr_eq (u32 (r_xid s + 1)) [seg] prog vers proc) as (p & E' & W & L).
    + done.
    + rewrite tot_len_cons. change (tot_len []) with 0. unfold Zlength. rewrite Hl. done.
    + nstep (liftN_eq _ _ _ E'). eexists _, _. split; [reflexivity |]. right. by exists p.
Qed.

(** A request has been queued, and sent when [stat] is [RPC_OK]. *)
Record queued (s s' : rpc_state) (stat : Z) (q : rpc_item) (bytes : list Z) : Prop := {
  qd_queue : r_queue s' = r_queue s ++ [q];
  qd_xid : r_xid s' = r_xid s;
  qd_sent : r_sent s' = r_sent s ++ (if stat =? RPC_OK then [(r_nfs_pcb s, bytes)] else []);
  qd_bytes : concat (q_pbuf q) = bytes;
  qd_sendable : sendable (q_pbuf q);
  qd_pcb : q_pcb q = r_nfs_pcb s;
  qd_timeout : q_timeout q = 0;
  qd_same : ∃ l n, s' = set_r_queue (r_queue s ++ [q]) (set_r_sent l (set_r_tick n s));
  qd_ok : net_ok s → stat = RPC_OK
}.

Lemma pbuf_realloc_wrote p pos b :
  wrote p pos b → 0 < pos →
  ∃ p', pbuf_realloc p pos = Ret p' ∧ concat p' = b ∧ sendable p'.
Proof.
  intros [H1 Hs Hp Hm Hb] Hpos. unfold pbuf_realloc. rewrite u16_small by lia.
  destruct p as [|seg [|]]; [done | | done]. rewrite tot_len_cons in *. change (tot_len []) with 0 in *.
  cbn [concat] in Hb. rewrite app_nil_r in Hb.
  destruct (Z.leb_spec (Zlength seg + 0) pos) as [Hle | Hlt].
  - assert (b = seg) as ->.
    { rewrite <- Hb. apply take_ge. unfold Zlength in *. lia. }
    exists [seg]. split; [done |]. split; [apply app_nil_r |]. split; [done |].
    apply Forall_singleton. intros ->. change (Zlength []) with 0 in Hp. lia.
  - cbn [pbuf_trim]. destruct (Z.ltb_spec (Zlength seg) pos); [lia |].
    exists [take (Z.to_nat pos) seg]. split; [done |]. cbn [concat]. rewrite app_nil_r, Hb.
    split; [done |]. split; [done |]. apply Forall_singleton. intros ->.
    change (Zlength []) with 0 in Hp. lia.
Qed.

Lemma extract_xid_eq p x l : concat p = be_bytes x ++ l → word x → Zlength l < 2 ^ 15 → extract_xid p = Ret x.
Proof.
  intros Hc Hx Hl. unfold extract_xid, pb_readl, pb_read_arrl.
  assert (tot_len p = 4 + Zlength l) as Ht by (unfold tot_len; by rewrite Hc, Zlength_app).
  pose proof (Zlength_nonneg l). rewrite pb_read_eq by lia. rewrite Ht.
  destruct (Z.leb_spec (0 + 4) (4 + Zlength l)); [| lia]. cbn [andb Z.leb Z.compare mbind outcome_bind].
  rewrite Hc. cbn [be_bytes app slice]. unfold slice. change (Z.to_nat 0) with 0%nat.
  change (Z.to_nat 4) with 4%nat. cbn [drop take].
  rewrite ntohl_words by apply be_bytes_byte. f_equal. cbn [be_words head]. change (default 0 (Some ?v)) with v.
  unfold word in Hx. divmod.
Qed.

Lemma nfs_send_eq s p pos b x l func cb token :
  connected s → wrote p pos b → b = be_bytes x ++ l → word x → pos < 2 ^ 15 →
  (nfs_send (p, pos) func cb token s = Fault AssertFail ∧ malloc_fails s 1) ∨
  ∃ stat s' q, nfs_send (p, pos) func cb token s = Ret (stat, s') ∧ queued s s' stat q b ∧
    q_xid q = x ∧ q_func q = func ∧ q_callback q = cb ∧ q_arg q = token.
Proof.
  intros [Hpcb Hopen] W Eb Hx Hpos. unfold nfs_send, rpc_send. npure. cbn [fst snd].
  assert (Zlength b = 4 + Zlength l) as Hb by (by rewrite Eb, Zlength_app).
  pose proof (wr_pos _ _ _ W). pose proof (Zlength_nonneg l).
  destruct (pbuf_realloc_wrote p pos b W) as (p' & Ep & Hc & Hsd); [lia |].
  erewrite N_bind_eq by (apply assertN_eq; by apply negb_true_iff, Z.eqb_neq).
  nstep (liftN_eq _ _ _ Ep). unfold add_to_queue. cbv beta.
  destruct (en_malloc (r_env s) (r_tick s)) eqn:Hm.
  2: { left. split; [| exists (r_tick s); split; [lia | done]].
       unfold mbind, N_bind, askN. rewrite Hm. reflexivity. }
  right. set (q := mk_item (r_nfs_pcb s) p' x 0 func cb token).
  set (s1 := set_r_queue (r_queue s ++ [q]) (set_r_tick (S (r_tick s)) s)).
  erewrite (N_bind_eq _ _ s s1).
  2: { npure. rewrite <- Hc in Eb.
       nstep (liftN_eq _ _ _ (extract_xid_eq p' x l Eb Hx ltac:(lia))). done. }
  destruct (my_udp_send_eq s1 (r_nfs_pcb s) p' Hsd Hopen) as (stat & s' & E & (l' & n & Hs) & Hsent & Hok).
  exists stat, s', q. split; [done |]. split_and!; [| done..]. rewrite Hs in *. rewrite Hc in Hsent.
  split; try done. by exists l', n.
Qed.

(** * File handles *)

Lemma fh_of_bytes n v :
  0 ≤ v → fh_of ((λ i : nat, v / 2 ^ (8 * Z.of_nat i) mod 2 ^ 8) <$> seq 0 n) = v mod 2 ^ (8 * Z.of_nat n).
Proof.
  revert v. induction n as [|n IH]; intros v Hv; [by rewrite Z.mod_1_r |].
  cbn [seq fmap list_fmap fh_of foldr]. rewrite Z.mul_0_r, Z.pow_0_r, Z.div_1_r.
  rewrite <- fmap_S_seq, <- list_fmap_compose.
  change (foldr (λ b m, b + 2 ^ 8 * m) 0 ?l) with (fh_of l).
  rewrite (list_fmap_ext _ (λ i : nat, v / 2 ^ 8 / 2 ^ (8 * Z.of_nat i) mod 2 ^ 8)).
  - rewrite IH by (apply Z.div_pos; lia).
    replace (8 * Z.of_nat (S n)) with (8 + 8 * Z.of_nat n) by lia.
    rewrite Z.pow_add_r by lia. rewrite Z.rem_mul_r; [done | lia |].
    apply Z.pow_pos_nonneg; lia.
  - intros i x _. cbn. rewrite Z.div_div by (try apply Z.pow_pos_nonneg; lia).
    rewrite <- Z.pow_add_r by lia. do 3 f_equal. lia.
Qed.

Lemma fh_roundtrip fh : 0 ≤ fh < 2 ^ 256 → fh_of (fh_bytes fh) = fh.
Proof. intros H. unfold fh_bytes. rewrite fh_of_bytes by lia. apply Z.mod_small. exact H. Qed.

Lemma length_fh_bytes fh : Zlength (fh_bytes fh) = 32.
Proof. unfold Zlength, fh_bytes. by rewrite length_fmap, length_seq. Qed.

(** * Requests *)

Inductive request : Type :=
  | RGetattr (fh : Z)
  | RLookup (cwd : Z) (name : list Z)
  | RRead (fh offset count : Z)
  | RWrite (fh offset count : Z) (data : list Z)
  | RCreate (fh : Z) (name : list Z) (sat : sattr_t)
  | RRemove (fh : Z) (name : list Z)
  | RReaddir (pfh cookie : Z).

Definition do_request (r : request) (cb : nfs_callback) (token : Z) : N Z :=
  match r with
  | RGetattr fh => nfs_getattr fh cb token
  | RLookup cwd name => nfs_lookup cwd name cb token
  | RRead fh offset count => nfs_read fh offset count cb token
  | RWrite fh offset count data => nfs_write fh offset count data cb token
  | RCreate fh name sat => nfs_create fh name sat cb token
  | RRemove fh name => nfs_remove fh name cb token
  | RReaddir pfh cookie => nfs_readdir pfh cookie cb token
  end.

Definition request_func (r : request) : rpc_func :=
  match r with
  | RGetattr _ => nfs_getattr_cb
  | RLookup _ _ => nfs_lookup_cb
  | RRead _ _ _ => nfs_read_cb
  | RWrite _ _ _ _ => nfs_write_cb
  | RCreate _ _ _ => nfs_create_cb
  | RRemove _ _ => nfs_remove_cb
  | RReaddir _ _ => nfs_readdir_cb
  end.

Definition is_write (r : request) : bool := match r with RWrite _ _ _ _ => true | _ => false end.

(** How much of a write fits into the packet. *)
Definition write_limit : Z := 1284.

(** What the client asks for. *)
Definition client_call (r : request) : nfs_call :=
  match r with
  | RGetattr fh => CallGetattr fh
  | RLookup cwd name => CallLookup cwd name
  | RRead fh offset count => CallRead fh (u32 offset) (u32 count)
  | RWrite fh offset count data =>
      CallWriteTo fh (u32 offset) (take (Z.to_nat (Z.min count write_limit)) data)
  | RCreate fh name sat => CallCreate fh name (sattr_words sat)
  | RRemove fh name => CallRemove fh name
  | RReaddir pfh cookie => CallReaddir pfh (u32 cookie) READDIR_BUF_SIZE
  end.

Definition handle_ok (fh : Z) : Prop := 0 ≤ fh < 2 ^ 256.

(** MAXNAMLEN of nfs.h. *)
Definition name_ok (name : list Z) : Prop := Zlength name ≤ 255.

Definition valid_request (r : request) : Prop :=
  match r with
  | RGetattr fh | RRead fh _ _ | RReaddir fh _ => handle_ok fh
  | RLookup fh name | RRemove fh name => handle_ok fh ∧ name_ok name
  | RCreate fh name sat => handle_ok fh ∧ name_ok name ∧ Forall word (sattr_words sat)
  | RWrite fh _ count data => handle_ok fh ∧ 0 ≤ count ≤ Zlength data
  end.

(** The arguments as they are in the packet, except for a write. *)
Definition arg_bytes (r : request) : list Z :=
  match r with
  | RGetattr fh => fh_bytes fh
  | RLookup fh name | RRemove fh name => fh_bytes fh ++ xdr_string name
  | RRead fh offset count => fh_bytes fh ++ ([u32 offset; u32 count; 0] ≫= be_bytes)
  | RWrite _ _ _ _ => []
  | RCreate fh name sat => fh_bytes fh ++ xdr_string name ++ (sattr_words sat ≫= be_bytes)
  | RReaddir fh cookie => fh_bytes fh ++ ([u32 cookie; READDIR_BUF_SIZE] ≫= be_bytes)
  end.

Definition request_proc (r : request) : Z :=
  match r with
  | RGetattr _ => NFSPROC_GETATTR
  | RLookup _ _ => NFSPROC_LOOKUP
  | RRead _ _ _ => NFSPROC_READ
  | RWrite _ _ _ _ => NFSPROC_WRITE
  | RCreate _ _ _ => NFSPROC_CREATE
  | RRemove _ _ => NFSPROC_REMOVE
  | RReaddir _ _ => NFSPROC_READDIR
  end.

Lemma word_u32 v : word (u32 v).
Proof. apply u32_range. Qed.

(** A packet with the arguments of a request is read as its call. *)
Lemma server_view_hdr x proc args c :
  word x → word proc → parse_args proc args = Some (c, []) →
  server_view (rpc_hdr x NFS_NUMBER NFS_VERSION proc ++ args) = Some (x, c).
Proof.
  intros Hx Hp Ha. unfold server_view. rewrite parse_call_hdr by done.
  cbn [mbind option_bind c_prog c_vers c_proc c_args]. change ((NFS_NUMBER =? 100003) && (NFS_VERSION =? 2)) with true.
  rewrite Ha. done.
Qed.

Lemma name_word name : name_ok name → word (Zlength name).
Proof. unfold name_ok, word. pose proof (Zlength_nonneg name). lia. Qed.

Ltac option_step :=
  match goal with
  | |- context [@mbind option ?I ?A ?B ?k (Some ?x)] =>
      change (@mbind option I A B k (Some x)) with (k x); cbv beta iota
  end.

Ltac xdr_next :=
  first [ rewrite xdr_word_be by (apply word_u32 || done)
        | rewrite xdr_opaque_string by (by apply name_word) ];
  option_step.

Lemma parse_arg_bytes r :
  valid_request r → is_write r = false →
  parse_args (request_proc r) (arg_bytes r) = Some (client_call r, []).
Proof.
  intros Hv Hw. unfold parse_args.
  destruct r as [fh | fh name | fh off count | fh off count data | fh name sat | fh name | fh cookie];
    cbn [arg_bytes request_proc client_call valid_request] in *.
  all: try discriminate Hw.
  1: rewrite <- (app_nil_r (fh_bytes fh)).
  all: rewrite xdr_fixed_app by apply length_fh_bytes; option_step;
       rewrite fh_roundtrip by (by destruct Hv || done).
  all: unfold NFSPROC_GETATTR, NFSPROC_LOOKUP, NFSPROC_READ, NFSPROC_CREATE, NFSPROC_REMOVE,
         NFSPROC_READDIR; cbv iota.
  - done.
  - rewrite <- (app_nil_r (xdr_string name)). destruct Hv as [_ Hn]. by xdr_next.
  - change ([u32 off; u32 count; 0] ≫= be_bytes)
      with (be_bytes (u32 off) ++ be_bytes (u32 count) ++ be_bytes 0 ++ []). by repeat xdr_next.
  - destruct Hv as (_ & Hn & Hs). xdr_next.
    rewrite <- (app_nil_r (sattr_words sat ≫= be_bytes)).
    change 8%nat with (length (sattr_words sat)). by rewrite xdr_words_be.
  - rewrite <- (app_nil_r (xdr_string name)). destruct Hv as [_ Hn]. by xdr_next.
  - change ([u32 cookie; READDIR_BUF_SIZE] ≫= be_bytes)
      with (be_bytes (u32 cookie) ++ be_bytes READDIR_BUF_SIZE ++ []). by repeat xdr_next.
Qed.

(** * What a request does *)

(** The request [r] has been queued as [q], with the next transaction id. *)
Definition requested (s s' : rpc_state) (stat : Z) (r : request) (cb : nfs_callback)
    (q : rpc_item) : Prop :=
  ∃ bytes, queued (set_r_xid (u32 (r_xid s + 1)) s) s' stat q bytes ∧
    q_xid q = u32 (r_xid s + 1) ∧ q_func q = request_func r ∧ q_callback q = cb ∧
    server_view bytes = Some (u32 (r_xid s + 1), client_call r).

(** The shape of all requests but the writes. *)
Lemma request_shape s r w cb token :
  connected s → valid_request r → is_write r = false →
  (∀ p b, wrote p 68 b → tot_len p = UDP_PAYLOAD →
     ∃ p' pos, w p 68 = Ret (p', pos) ∧ wrote p' pos (b ++ arg_bytes r) ∧ pos < 2 ^ 15) →
  let m : N Z :=
    b ← rpcpbuf_init NFS_NUMBER NFS_VERSION (request_proc r);
    match b with
    | None => mret RPCERR_NOBUF
    | Some (p, pos) => r' ← liftN (w p pos); nfs_send r' (request_func r) cb token
    end in
  (m s = Fault AssertFail ∧ malloc_fails s 3) ∨
  ∃ stat s', m s = Ret (stat, s') ∧
    ((stat = RPCERR_NOBUF ∧ ¬ net_ok s ∧ s' = set_r_tick (S (r_tick s)) s) ∨
     ∃ q, requested s s' stat r cb q ∧ q_arg q = token).
Proof.
  intros Hr Hv Hw Hwr m. unfold m.
  destruct (rpcpbuf_init_eq s NFS_NUMBER NFS_VERSION (request_proc r)) as (o & s1 & E & Ho). nstep E.
  destruct Ho as [(-> & Hno & ->) | (p & -> & Hl & -> & W)].
  - right. eexists _, _. split; [reflexivity |]. by left.
  - destruct (Hwr _ _ W Hl) as (p' & pos & Ew & W' & Hpos). nstep (liftN_eq _ _ _ Ew).
    set (s1 := set_r_xid (u32 (r_xid s + 1)) (set_r_tick (S (r_tick s)) s)).
    assert (word (request_proc r)) as Hp by (by destruct r).
    set (hdr := rpc_hdr (u32 (r_xid s + 1)) NFS_NUMBER NFS_VERSION (request_proc r)) in *.
    destruct (nfs_send_eq s1 p' pos (hdr ++ arg_bytes r) (u32 (r_xid s + 1))
                (skipn 4 hdr ++ arg_bytes r) (request_func r) cb token)
      as [[Es (k & Hk & Hm)] | (stat & s' & q & Es & Hq & Hx & Hf & Hcb & Ha)];
      [by destruct Hr; split | exact W' | done | apply word_u32 | done | |].
    { left. split; [exact Es |]. exists k. split; [cbn in Hk; lia | exact Hm]. }
    right. eexists _, _. split; [exact Es |]. right. exists q. split; [| done]. eexists.
    split; [| split_and!; [done.. | apply server_view_hdr; [apply word_u32 | done | by apply parse_arg_bytes]]].
    destruct Hq. by split.
Qed.

(** * The arguments *)

Lemma write_fh p b fh :
  wrote p 68 b → tot_len p = UDP_PAYLOAD →
  ∃ p', pb_write p (fh_bytes fh) FHSIZE 68 = Ret (p', 100) ∧ wrote p' 100 (b ++ fh_bytes fh) ∧
    tot_len p' = UDP_PAYLOAD.
Proof.
  intros W L. pose proof (length_fh_bytes fh) as Hl.
  destruct (wrote_write p 68 b (fh_bytes fh) FHSIZE W) as (p' & E & W' & L');
    [rewrite Hl; done | rewrite L; done |].
  exists p'. split; [done |]. split; [| by rewrite L'].
  rewrite take_ge in W' by (unfold fh_bytes; by rewrite length_fmap, length_seq). done.
Qed.

Lemma write_dirop_eq p b fh name :
  wrote p 68 b → tot_len p = UDP_PAYLOAD → name_ok name →
  ∃ p' pos, write_dirop p fh name 68 = Ret (p', pos) ∧
    wrote p' pos (b ++ fh_bytes fh ++ xdr_string name) ∧ pos ≤ 362 ∧ tot_len p' = UDP_PAYLOAD.
Proof.
  intros W L Hn. unfold write_dirop, name_ok in *. destruct (write_fh p b fh W L) as (p1 & -> & W1 & L1).
  cbn [mbind outcome_bind]. pose proof (pad_len_range (Zlength name)). pose proof (Zlength_nonneg name).
  destruct (wrote_str p1 100 _ name W1) as (p2 & E & W2 & L2 & _);
    [done | rewrite L1; unfold UDP_PAYLOAD; lia |].
  exists p2, (100 + Zlength (xdr_string name)). rewrite app_assoc. split_and!; [done.. | | by rewrite L2].
  unfold xdr_string. rewrite !Zlength_app. change (Zlength (be_bytes (Zlength name))) with 4.
  unfold Zlength at 2. rewrite length_replicate. lia.
Qed.

(** All requests but the writes. *)
Lemma do_request_eq s r cb token :
  connected s → valid_request r → is_write r = false →
  (do_request r cb token s = Fault AssertFail ∧ malloc_fails s 3) ∨
  ∃ stat s', do_request r cb token s = Ret (stat, s') ∧
    ((stat = RPCERR_NOBUF ∧ ¬ net_ok s ∧ s' = set_r_tick (S (r_tick s)) s) ∨
     ∃ q, requested s s' stat r cb q ∧ q_arg q = token).
Proof.
  intros Hr Hv Hw.
  destruct r as [fh | fh name | fh off count | fh off count data | fh name sat | fh name | fh cookie];
    cbn [do_request].
  4: discriminate Hw.
  - apply (request_shape s (RGetattr fh) (λ p, pb_write p (fh_bytes fh) FHSIZE)); [done.. |].
    intros p b W L. destruct (write_fh p b fh W L) as (p' & E & W' & _). by exists p', 100.
  - apply (request_shape s (RLookup fh name) (λ p, write_dirop p fh name)); [done.. |].
    intros p b W L. destruct Hv as [_ Hn].
    destruct (write_dirop_eq p b fh name W L Hn) as (p' & pos & E & W' & Hp & _). exists p', pos.
    split_and!; [done.. | lia].
  - eapply (request_shape s (RRead fh off count) (λ p pos, '(p, pos) ← pb_write p (fh_bytes fh) FHSIZE pos;
      '(p, pos) ← pb_writel p (u32 off) pos; '(p, pos) ← pb_writel p (u32 count) pos; pb_writel p 0 pos));
      [done.. |].
    intros p b W L. destruct (write_fh p b fh W L) as (p1 & -> & W1 & L1). cbn [mbind outcome_bind].
    unfold UDP_PAYLOAD, pb_writel in *. write_words W1 L1. write_words W1 L1.
    destruct (wrote_arrl _ _ _ [0] W1) as (p' & E & W' & L'); [rewrite L1; done |].
    exists p', 112. split; [done |]. split; [| done]. cbn [arg_bytes]. rewrite <- !app_assoc in W'. exact W'.
  - eapply (request_shape s (RCreate fh name sat) (λ p pos, '(p, pos) ← write_dirop p fh name pos;
      pb_write_arrl p (sattr_words sat) pos)); [done.. |].
    intros p b W L. destruct Hv as (_ & Hn & _).
    destruct (write_dirop_eq p b fh name W L Hn) as (p1 & pos & -> & W1 & Hp & L1). cbn [mbind outcome_bind].
    destruct (wrote_arrl _ _ _ (sattr_words sat) W1) as (p' & E & W' & L');
      [rewrite L1; change (4 * Zlength (sattr_words sat)) with 32; unfold UDP_PAYLOAD; lia |].
    eexists p', _. split; [done |]. cbn [arg_bytes]. rewrite <- !app_assoc in W'. split; [exact W' |].
    change (4 * Zlength (sattr_words sat)) with 32. lia.
  - apply (request_shape s (RRemove fh name) (λ p, write_dirop p fh name)); [done.. |].
    intros p b W L. destruct Hv as [_ Hn].
    destruct (write_dirop_eq p b fh name W L Hn) as (p' & pos & E & W' & Hp & _). exists p', pos.
    split_and!; [done.. | lia].
  - eapply (request_shape s (RReaddir fh cookie) (λ p pos, '(p, pos) ← pb_write p (fh_bytes fh) FHSIZE pos;
      '(p, pos) ← pb_writel p (u32 cookie) pos; pb_writel p READDIR_BUF_SIZE pos)); [done.. |].
    intros p b W L. destruct (write_fh p b fh W L) as (p1 & -> & W1 & L1). cbn [mbind outcome_bind].
    unfold UDP_PAYLOAD, pb_writel in *. write_words W1 L1.
    destruct (wrote_arrl _ _ _ [READDIR_BUF_SIZE] W1) as (p' & E & W' & L'); [rewrite L1; done |].
    exists p', 108. split; [done |]. split; [| done]. cbn [arg_bytes]. rewrite <- !app_assoc in W'. exact W'.
Qed.

(** * Writes *)

(** Aligning the position takes in bytes that were never written. *)
Lemma wrote_align p pos b :
  wrote p pos b → pos + pad_len pos ≤ tot_len p →
  ∃ pad, Zlength pad = pad_len pos ∧ wrote p (pos + pad_len pos) (b ++ pad).
Proof.
  intros [H1 Hs Hp Hm Hb] Hal. pose proof (pad_len_range pos) as [Hr _].
  pose proof (Zlength_nonneg b). unfold tot_len in *.
  exists (slice (concat p) pos (pad_len pos)). rewrite Zlength_slice by lia. split; [done |].
  split; [done.. | | done |].
  - rewrite Zlength_app, Zlength_slice by lia. lia.
  - rewrite <- Hb. unfold slice. rewrite Z2Nat.inj_add by lia. symmetry. apply take_take_drop.
Qed.

Lemma write_args_eq p b fh off count data :
  wrote p 68 b → tot_len p = UDP_PAYLOAD → 0 ≤ count ≤ Zlength data →
  let n := Z.min count write_limit in
  ∃ p' pos pad, write_args p fh off count data 68 = Ret (p', pos, n) ∧ pos < 2 ^ 15 ∧
    Zlength pad = pad_len n ∧
    wrote p' pos (b ++ fh_bytes fh ++ ([0; u32 off; 0] ≫= be_bytes) ++
                  be_bytes n ++ take (Z.to_nat n) data ++ pad).
Proof.
  intros W L Hc n. unfold write_args. destruct (write_fh p b fh W L) as (p1 & -> & W1 & L1).
  cbn [mbind outcome_bind]. unfold UDP_PAYLOAD, pb_writel in *.
  write_words W1 L1. write_words W1 L1. write_words W1 L1.
  match goal with |- context [i32 (tot_len ?p - ?pos - 4)] =>
    assert (i32 (tot_len p - pos - 4) = write_limit) as -> by (rewrite L1; done) end.
  assert ((if write_limit <? count then write_limit else count) = n) as ->
    by (unfold n; destruct (Z.ltb_spec write_limit count); lia).
  assert (0 ≤ n ≤ 1284 ∧ n ≤ Zlength data) as Hn by (unfold n, write_limit; lia). clearbody n.
  rewrite (u32_small n) by lia. write_words W1 L1.
  change (100 + 4 * Zlength [0] + 4 * Zlength [u32 off] + 4 * Zlength [0] + 4 * Zlength [n]) with 116 in *.
  match type of W1 with wrote ?q ?pos _ =>
    destruct (wrote_write q pos _ data n W1) as (p' & E & W' & L'); [lia | rewrite L1; lia |] end.
  rewrite E. cbn [mbind outcome_bind]. clear E W1. pose proof (pad_len_range n).
  assert (pb_alignl (116 + n) = 116 + n + pad_len n) as Ea.
  { unfold pb_alignl, pad_len. rewrite !ROUNDUP_4. divmod. }
  assert (pad_len (116 + n) = pad_len n) as Ep by (unfold pad_len in *; rewrite !ROUNDUP_4 in *; divmod).
  destruct (wrote_align _ _ _ W') as (pad & Hpad & W2).
  { rewrite Ep, L', L1. unfold pad_len in *. rewrite ROUNDUP_4 in *. divmod. }
  rewrite Ep in *. exists p', (116 + n + pad_len n), pad. rewrite Ea. split; [done |]. split; [lia |].
  split; [done |]. rewrite <- !app_assoc in W2. exact W2.
Qed.

Lemma server_view_write x fh off n data pad :
  word x → handle_ok fh → 0 ≤ n ≤ write_limit → Zlength (take (Z.to_nat n) data) = n →
  Zlength pad = pad_len n →
  server_view (rpc_hdr x NFS_NUMBER NFS_VERSION NFSPROC_WRITE ++ fh_bytes fh ++
               ([0; u32 off; 0] ≫= be_bytes) ++ be_bytes n ++ take (Z.to_nat n) data ++ pad) =
    Some (x, CallWriteTo fh (u32 off) (take (Z.to_nat n) data)).
Proof.
  intros Hx Hf Hn Hd Hp. apply server_view_hdr; [done.. |]. unfold parse_args.
  rewrite xdr_fixed_app by apply length_fh_bytes. option_step. rewrite fh_roundtrip by done.
  unfold NFSPROC_WRITE. cbv iota.
  change ([0; u32 off; 0] ≫= be_bytes) with (be_bytes 0 ++ be_bytes (u32 off) ++ be_bytes 0).
  rewrite <- !app_assoc. do 3 xdr_next. rewrite <- (app_nil_r pad). rewrite <- Hd at 1.
  rewrite xdr_opaque_app; [done | | by rewrite Hd].
  rewrite Hd. unfold word, write_limit in *. lia.
Qed.

(** * What every request does *)

(** The packet of the request [r] is in the queue, and has been sent when [stat]
    is [RPC_OK].  A write waits with the address of a wrapper that holds the
    client's token, which is freed when sending failed. *)
Record posted (s s' : rpc_state) (stat : Z) (r : request) (cb : nfs_callback) (token : Z)
    (q : rpc_item) : Prop := {
  po_queue : r_queue s' = r_queue s ++ [q];
  po_xid : r_xid s' = u32 (r_xid s + 1);
  po_qxid : q_xid q = r_xid s';
  po_view : server_view (concat (q_pbuf q)) = Some (r_xid s', client_call r);
  po_sent : r_sent s' =
    r_sent s ++ (if stat =? RPC_OK then [(r_nfs_pcb s, concat (q_pbuf q))] else []);
  po_item : item_ok s' q ∧ q_timeout q = 0;
  po_func : q_func q = request_func r ∧ q_callback q = cb;
  po_arg :
    match r with
    | RWrite _ _ count _ =>
        q_arg q = r_next s ∧ r_next s < r_next s' ∧
        r_wraps s' = if stat =? RPC_OK
                     then <[r_next s := (token, Z.min count write_limit)]> (r_wraps s)
                     else delete (r_next s) (r_wraps s)
    | _ => q_arg q = token ∧ r_wraps s' = r_wraps s
    end;
  po_ok : net_ok s → stat = RPC_OK
}.

(** Nothing but what requests may change differs. *)
Definition same_net (s s' : rpc_state) : Prop :=
  r_pcbs s' = r_pcbs s ∧ r_nfs_pcb s' = r_nfs_pcb s ∧ r_root_port s' = r_root_port s ∧
  r_call s' = r_call s ∧ r_upcalls s' = r_upcalls s ∧ r_env s' = r_env s ∧ r_next s ≤ r_next s'.

(** A write got no memory for its wrapper. *)
Definition no_memory (s s' : rpc_state) (stat : Z) (r : request) : Prop :=
  stat = RPCERR_NOMEM ∧ is_write r = true ∧ r_queue s' = r_queue s ∧ r_xid s' = r_xid s ∧
  r_sent s' = r_sent s ∧ r_wraps s' = r_wraps s ∧ malloc_fails s 1.

(** libnfs had no buffer for the packet. *)
Definition refused (s s' : rpc_state) (stat : Z) : Prop :=
  stat = RPCERR_NOBUF ∧ r_queue s' = r_queue s ∧ r_xid s' = r_xid s ∧ r_sent s' = r_sent s ∧
  r_wraps s' = r_wraps s ∧ ¬ net_ok s.

Lemma nfs_write_eq s fh off count data cb token :
  connected s → handle_ok fh → 0 ≤ count ≤ Zlength data →
  (nfs_write fh off count data cb token s = Fault AssertFail ∧ malloc_fails s 3) ∨
  ∃ stat s', nfs_write fh off count data cb token s = Ret (stat, s') ∧ same_net s s' ∧
    (no_memory s s' stat (RWrite fh off count data) ∨ refused s s' stat ∨
     ∃ q, posted s s' stat (RWrite fh off count data) cb token q).
Proof.
  intros [Hpcb Hopen] Hf Hc. unfold nfs_write. npure.
  destruct (en_malloc (r_env s) (r_tick s)) eqn:Hm; cbn [negb].
  2: { right. eexists _, _. split; [reflexivity |]. split; [by unfold same_net; cbn; split_and!; try lia |].
       left. split_and!; try done. exists (r_tick s). split; [lia | done]. }
  set (s1 := set_r_next (r_next s + 1) (set_r_tick (S (r_tick s)) s)).
  erewrite (N_bind_eq fresh _ _ s1) by reflexivity.
  destruct (rpcpbuf_init_eq s1 NFS_NUMBER NFS_VERSION NFSPROC_WRITE) as (o & s2 & E & Ho). nstep E.
  destruct Ho as [(-> & Hno & ->) | (p & -> & Hl & -> & W)].
  { right. eexists _, _. split; [reflexivity |]. split; [by unfold same_net; cbn; split_and!; try lia |].
    right. by left. }
  destruct (write_args_eq p _ fh off count data W Hl Hc) as (p' & pos & pad & Ew & Hpos & Hpad & W').
  nstep (liftN_eq _ _ _ Ew). npure. set (n := Z.min count write_limit) in *.
  set (x := u32 (r_xid s + 1)). change (u32 (r_xid s1 + 1)) with x in *.
  set (s3 := set_r_wraps (<[r_next s := (token, n)]> (r_wraps s)) (set_r_xid x (set_r_tick (S (r_tick s1)) s1))).
  match type of W' with wrote _ _ (?h ++ ?a) => set (hdr := h) in *; set (args := a) in * end.
  destruct (nfs_send_eq s3 p' pos (hdr ++ args) x (skipn 4 hdr ++ args) nfs_write_cb cb (r_next s))
    as [[Es (k & Hk & Hmk)] | (stat & s' & q & Es & Hq & Hx & Hfn & Hcb & Ha)];
    [by split | exact W' | done | apply word_u32 | done | |].
  { left. split; [exact (N_bind_Fault _ _ _ _ Es) |]. exists k. split; [cbn in Hk; lia | exact Hmk]. }
  right. nstep Es. destruct Hq as [Hqq Hqx Hqs Hqb Hqd Hqp Hqt (l & m & Hsame) Hok].
  assert (server_view (concat (q_pbuf q)) = Some (x, client_call (RWrite fh off count data))) as Hview.
  { rewrite Hqb. apply server_view_write; [apply word_u32 | done | unfold n, write_limit; lia | | done].
    apply Zlength_take. unfold n, write_limit. lia. }
  rewrite <- Hqb in Hqs. change (r_xid s' = x) in Hqx.
  assert (item_ok s' q) as Hit by (rewrite Hsame; split; [done | by rewrite Hqp]).
  assert (r_wraps s' = <[r_next s := (token, n)]> (r_wraps s)) as Hwr by (by rewrite Hsame).
  assert (same_net s s') as Hnet by (rewrite Hsame; unfold same_net; cbn; split_and!; try done; lia).
  assert (r_next s < r_next s') as Hnext by (rewrite Hsame; cbn; lia).
  unfold RPC_OK in Hqs. destruct (stat =? 0) eqn:Estat; cbn [negb]; npure;
    eexists _, _; (split; [reflexivity |]); (split; [exact Hnet |]); right; right; exists q;
    split; unfold RPC_OK; rewrite ?Estat; cbn [r_queue r_xid r_sent set_r_wraps r_wraps]; try done;
    try congruence; try by rewrite Hqx.
  split_and!; [done.. |]. by rewrite Hwr, delete_insert_eq.
Qed.

Lemma requested_posted s s' stat r cb q :
  connected s → requested s s' stat r cb q → is_write r = false →
  same_net s s' ∧ posted s s' stat r cb (q_arg q) q.
Proof.
  intros [_ Hopen] (bytes & [Hqq Hqx Hqs Hqb Hqd Hqp Hqt (l & m & Hsame) Hok] & Hx & Hf & Hcb & Hv) Hw.
  cbn [r_queue r_xid r_sent set_r_xid r_nfs_pcb] in *. subst bytes.
  assert (item_ok s' q) as Hit by (rewrite Hsame; split; [done | by rewrite Hqp]).
  assert (r_wraps s' = r_wraps s) as Hwr by (by rewrite Hsame).
  split; [rewrite Hsame; unfold same_net; cbn; split_and!; try done; lia |].
  split; try done; try congruence; try by rewrite Hqx.
  by destruct r.
Qed.

(** What a request on an open connection does: it returns, unless malloc gives no
    memory for the queue's item, where it fails its assertion.  Either there was no
    memory or no buffer for it, and nothing has changed, or its packet is in the
    queue under the next transaction id, and has been sent when the result says so;
    the packet is what an NFS server reads as the call the client asked for. *)
Lemma do_request_cases s r cb token :
  connected s → valid_request r →
  (do_request r cb token s = Fault AssertFail ∧ malloc_fails s 3) ∨
  ∃ stat s', do_request r cb token s = Ret (stat, s') ∧ same_net s s' ∧
    (no_memory s s' stat r ∨ refused s s' stat ∨ ∃ q, posted s s' stat r cb token q).
Proof.
  intros Hr Hv. destruct (is_write r) eqn:Hw.
  - destruct r; try discriminate Hw. destruct Hv. by apply nfs_write_eq.
  - destruct (do_request_eq s r cb token Hr Hv Hw) as [? | (stat & s' & E & H)]; [by left |].
    right. exists stat, s'. split; [done |]. destruct H as [(-> & Hno & ->) | (q & Hq & <-)].
    + split; [unfold same_net; cbn; split_and!; try done; lia |]. right. by left.
    + destruct (requested_posted s s' stat r cb q Hr Hq Hw) as [Hn Hp].
      split; [done |]. right. right. by exists q.
Qed.

(** With memory every request returns. *)
Lemma do_request_posts s r cb token :
  nfs_ready s → valid_request r →
  ∃ stat s', do_request r cb token s = Ret (stat, s') ∧ same_net s s' ∧
    (refused s s' stat ∨ ∃ q, posted s s' stat r cb token q).
Proof.
  intros Hr Hv. pose proof (λ k, nfs_ready_malloc s k Hr) as Hm.
  destruct (do_request_cases s r cb token (nfs_ready_connected s Hr) Hv) as [[_ H] | (stat & s' & E & Hn & H)].
  - by apply Hm in H.
  - exists stat, s'. split_and!; [done | done |].
    destruct H as [(_ & _ & _ & _ & _ & _ & H) | H]; [by apply Hm in H | done].
Qed.

(** [C10] A request on an open connection, in a state where malloc and the network
    may fail.  Its packet waits in the queue under the next transaction id, and
    has been sent when the result is [RPC_OK]; a server that follows the RFCs
    reads from the packet's bytes exactly the call the client asked for, under
    that id, and without faults of the network the packet is sent.  Otherwise
    there was no buffer for the packet, or no memory for the wrapper of a write,
    the result says so, and nothing has been queued or sent; or malloc gave no
    memory for the item of the queue, and an assertion fails. *)
Theorem nfs_request_readable s r cb token :
  connected s → valid_request r →
  (do_request r cb token s = Fault AssertFail ∧ malloc_fails s 3) ∨
  ∃ stat s', do_request r cb token s = Ret (stat, s') ∧
    ((stat = RPCERR_NOMEM ∧ is_write r = true ∧ malloc_fails s 1 ∨ stat = RPCERR_NOBUF ∧ ¬ net_ok s) ∧
       r_queue s' = r_queue s ∧ r_sent s' = r_sent s ∨
     ∃ q, r_queue s' = r_queue s ++ [q] ∧ q_xid q = u32 (r_xid s + 1) ∧
       server_view (concat (q_pbuf q)) = Some (q_xid q, client_call r) ∧
       r_sent s' = r_sent s ++ (if stat =? RPC_OK then [(r_nfs_pcb s, concat (q_pbuf q))] else []) ∧
       (net_ok s → stat = RPC_OK)).
Proof.
  intros Hr Hv. destruct (do_request_cases s r cb token Hr Hv) as [H | (stat & s' & E & _ & H)]; [by left |].
  right. exists stat, s'. split; [done |].
  destruct H as [(-> & Hw & Eq & _ & Es & _ & Hm) | [(-> & Eq & _ & Es & _ & Hn) |
    (q & [Eq Ex Eqx Hview Es _ _ _ Hok])]].
  - left. split_and!; [by left | done | done].
  - left. split_and!; [by right | done | done].
  - right. exists q. rewrite Eqx. by split_and!.
Qed.

(** After [nfs_lookup] of a file with the name [a]. *)
Definition looked_up : rpc_state :=
  match do_request (RLookup 7 [97]) (CbLookup cb_nfs_dev_lookup_handler) 5 mounted with
  | Ret (_, s') => s'
  | Fault _ => mounted
  end.

Lemma nfs_request_readable_witness :
  ∃ s' q, do_request (RLookup 7 [97]) (CbLookup cb_nfs_dev_lookup_handler) 5 mounted = Ret (RPC_OK, s') ∧
    r_queue s' = [q] ∧ server_view (concat (q_pbuf q)) = Some (1, CallLookup 7 [97]).
Proof.
  destruct (nfs_request_readable mounted (RLookup 7 [97]) (CbLookup cb_nfs_dev_lookup_handler) 5)
    as [[_ Hm] | (stat & s' & E & H)];
    [apply nfs_ready_connected, mounted_ready | split; [split; lia | by unfold name_ok] | |].
  { destruct (nfs_ready_malloc mounted 3 mounted_ready Hm). }
  destruct H as [([(_ & Hw & _) | [_ Hn]] & _) | (q & Eq & Ex & Ev & _ & Hok)];
    [discriminate Hw | destruct (Hn mounted_net) |].
  exists s', q. rewrite (Hok mounted_net) in E. rewrite Ex in Ev. split_and!; [exact E | exact Eq | exact Ev].
Defined.
