(* ===== verification/NfsRecv.v ===== *)
(** Replies: what the client's callback gets from the bytes of a packet.

    [reply_bytes] are the replies of an NFS server (RFC 1057, RFC 1094).  However
    the packet is cut into segments, the handler of a request takes out exactly
    what the server put in; a reply that the server refuses or that is not one
    becomes an error; one that is cut off fails an assertion. *)

From S2P Require Import Prelude UtAllocator Sos Pbuf Rpc Nfs Mount RpcInv NfsWire.

(** * Reading on *)

Ltac words_ok := repeat (apply Forall_cons_2; [done |]); apply Forall_nil_2.

(** What is left to read of a packet. *)
Record unread (p : pbuf) (pos : Z) (l : list Z) : Prop := {
  un_small : tot_len p < 2 ^ 16;
  un_pos : 0 ≤ pos;
  un_rest : tot_len p = pos + Zlength l;
  un_bytes : drop (Z.to_nat pos) (concat p) = l
}.

Lemma unread_start p : tot_len p < 2 ^ 16 → unread p 0 (concat p).
Proof. by split. Qed.

Lemma unread_read p pos d l :
  unread p pos (d ++ l) →
  pb_read p (Zlength d) pos = Ret (d, pos + Zlength d) ∧ unread p (pos + Zlength d) l.
Proof.
  intros [Hs Hp Hr Hb]. rewrite Zlength_app in Hr. pose proof (Zlength_nonneg d).
  pose proof (Zlength_nonneg l). split.
  - rewrite pb_read_eq by done.
    destruct (Z.leb_spec 0 (Zlength d)), (Z.leb_spec (pos + Zlength d) (tot_len p)); try lia.
    cbn [andb]. unfold slice. rewrite Hb. unfold Zlength. by rewrite Nat2Z.id, take_app_length.
  - split; [done | lia | lia |]. rewrite Z2Nat.inj_add by lia. rewrite <- drop_drop, Hb.
    unfold Zlength. by rewrite Nat2Z.id, drop_app_length.
Qed.

Lemma unread_words p pos vs l :
  unread p pos ((vs ≫= be_bytes) ++ l) → Forall word vs →
  pb_read_arrl p (4 * Zlength vs) pos = Ret (vs, pos + 4 * Zlength vs) ∧
  unread p (pos + 4 * Zlength vs) l.
Proof.
  intros H Hv. apply unread_read in H as [E H]. rewrite length_be_bytes in *. split; [| done].
  unfold pb_read_arrl. rewrite E. cbn [mbind outcome_bind]. rewrite ntohl_words.
  - by rewrite be_words_bytes.
  - clear. induction vs as [|v vs IH]; [done |]. apply Forall_app. split; [apply be_bytes_byte | done].
Qed.

Lemma unread_word p pos v l :
  unread p pos (be_bytes v ++ l) → word v → pb_readl p pos = Ret (v, pos + 4) ∧ unread p (pos + 4) l.
Proof.
  intros H Hv. destruct (unread_words p pos [v] l) as [E H']; [exact H | by constructor |].
  split; [| done]. unfold pb_readl. change 4 with (4 * Zlength [v]) at 1. by rewrite E.
Qed.

(** * Replies of a server *)

(** An accepted call. *)
Definition accepted (xid : Z) : list Z := [xid; MSG_REPLY; MSG_ACCEPTED; AUTH_NULL; 0; SUCCESS] ≫= be_bytes.

(** The results of the procedures. *)
Inductive reply_body : Type :=
  | BodyError (status : Z)
  | BodyOk
  | BodyAttr (attr : list Z)
  | BodyFile (fh : Z) (attr : list Z)
  | BodyData (attr : list Z) (data : list Z)
  | BodyNames (entries : list (Z * list Z * Z)) (eof : Z).

Definition xdr_entry (e : Z * list Z * Z) : list Z :=
  let '(fileid, name, cookie) := e in
  be_bytes 1 ++ be_bytes fileid ++ xdr_string name ++ be_bytes cookie.

Definition body_bytes (b : reply_body) : list Z :=
  match b with
  | BodyError status => be_bytes status
  | BodyOk => be_bytes 0
  | BodyAttr attr => be_bytes 0 ++ (attr ≫= be_bytes)
  | BodyFile fh attr => be_bytes 0 ++ fh_bytes fh ++ (attr ≫= be_bytes)
  | BodyData attr data => be_bytes 0 ++ (attr ≫= be_bytes) ++ xdr_string data
  | BodyNames entries eof => be_bytes 0 ++ (entries ≫= xdr_entry) ++ be_bytes 0 ++ be_bytes eof
  end.

Definition reply_bytes (xid : Z) (b : reply_body) : list Z := accepted xid ++ body_bytes b.

(** The results that a procedure can have. *)
Definition body_of (f : rpc_func) (b : reply_body) : Prop :=
  match b with
  | BodyError status => word status ∧ status ≠ 0
  | BodyOk => f = nfs_remove_cb
  | BodyAttr attr => (f = nfs_getattr_cb ∨ f = nfs_write_cb) ∧ Forall word attr ∧ length attr = 17%nat
  | BodyFile fh attr =>
      (f = nfs_lookup_cb ∨ f = nfs_create_cb) ∧ handle_ok fh ∧ Forall word attr ∧ length attr = 17%nat
  | BodyData attr data => f = nfs_read_cb ∧ Forall word attr ∧ length attr = 17%nat
  | BodyNames entries eof =>
      f = nfs_readdir_cb ∧
      Forall (λ e : Z * list Z * Z, word e.1.1 ∧ word e.2) entries ∧ word eof
  end.

(** What the callback is to get; fields the reply does not have are those of
    [r]. *)
Definition body_reply (b : reply_body) (r : nfs_reply) : nfs_reply :=
  match b with
  | BodyError status => set_status status r
  | BodyOk => set_status NFS_OK r
  | BodyAttr attr => set_attr (fattr_of attr) (set_status NFS_OK r)
  | BodyFile fh attr => set_attr (fattr_of attr) (set_fh fh (set_status NFS_OK r))
  | BodyData attr data =>
      set_data (Zlength data) data (set_attr (fattr_of attr) (set_status NFS_OK r))
  | BodyNames entries eof =>
      set_names ((λ e, cstr e.1.2) <$> entries) (List.last (snd <$> entries) 0) (set_status NFS_OK r)
  end.

(** * The header of a reply *)

Lemma read_hdr_accepted p xid l :
  unread p 0 (accepted xid ++ l) → word xid →
  rpc_read_hdr p = Ret (RPCERR_OK, 24) ∧ unread p 24 l.
Proof.
  intros H Hx. unfold rpc_read_hdr.
  change (accepted xid) with
    (([xid; MSG_REPLY; MSG_ACCEPTED] ≫= be_bytes) ++ ([AUTH_NULL; 0] ≫= be_bytes) ++ be_bytes SUCCESS) in H.
  rewrite <- !app_assoc in H.
  apply (unread_words p 0 [xid; MSG_REPLY; MSG_ACCEPTED]) in H as [E H]; [| words_ok].
  change (4 * Zlength [xid; MSG_REPLY; MSG_ACCEPTED]) with 12 in *. change (0 + 12) with 12 in *.
  rewrite E. cbn [mbind outcome_bind]. change (rd [xid; MSG_REPLY; MSG_ACCEPTED] 1) with (Ret MSG_REPLY).
  change (rd [xid; MSG_REPLY; MSG_ACCEPTED] 2) with (Ret MSG_ACCEPTED). cbn [mbind outcome_bind].
  change (MSG_REPLY =? MSG_REPLY) with true. change (MSG_ACCEPTED =? MSG_ACCEPTED) with true. cbn [negb].
  apply (unread_words p 12 [AUTH_NULL; 0]) in H as [E2 H]; [| words_ok].
  change (4 * Zlength [AUTH_NULL; 0]) with 8 in *. change (12 + 8) with 20 in *. rewrite E2. cbn [mbind outcome_bind].
  change (rd [AUTH_NULL; 0] 0) with (Ret AUTH_NULL). cbn [mbind outcome_bind].
  rewrite c_assert_true by done. cbn [mbind outcome_bind].
  apply unread_word in H as [E3 H]; [| done]. rewrite E3. done.
Qed.

Definition body_status (b : reply_body) : Z := match b with BodyError status => status | _ => 0 end.
Definition body_rest (b : reply_body) : list Z := skipn 4 (body_bytes b).

Lemma reply_status_eq p xid b :
  concat p = reply_bytes xid b → tot_len p < 2 ^ 16 → word xid → word (body_status b) →
  reply_status p = Ret (Some (body_status b, 28)) ∧ unread p 28 (body_rest b).
Proof.
  intros Hc Hs Hx Hb. unfold reply_status. pose proof (unread_start p Hs) as H. rewrite Hc in H.
  destruct (read_hdr_accepted p xid _ H Hx) as [-> H']. cbn [mbind outcome_bind].
  change (RPCERR_OK =? RPCERR_OK) with true. cbv iota.
  assert (body_bytes b = be_bytes (body_status b) ++ body_rest b) as E by (by destruct b).
  rewrite E in H'. apply unread_word in H' as [-> H']; [| done]. done.
Qed.

Lemma read_fattr_eq p pos attr l :
  unread p pos ((attr ≫= be_bytes) ++ l) → Forall word attr → length attr = 17%nat →
  read_fattr p pos = Ret (fattr_of attr, pos + FATTR_SIZE) ∧ unread p (pos + FATTR_SIZE) l.
Proof.
  intros H Hw Hl. apply (unread_words p pos attr) in H as [E H]; [| done].
  assert (4 * Zlength attr = FATTR_SIZE) as Ef by (unfold Zlength; by rewrite Hl).
  rewrite Ef in *. split; [| done]. unfold read_fattr. by rewrite E.
Qed.

Lemma last_cons_default (x d : Z) l : List.last (x :: l) d = List.last l x.
Proof. revert x. induction l as [|y l IH]; intros x; [done |]. cbn [List.last] in *. by destruct l. Qed.

(** * What the handlers do *)

(** The variables of a handler before the reply is read. *)
Definition blank (s : rpc_state) : nfs_reply :=
  let junk := en_stack (r_env s) (r_tick s) in
  mk_reply NFSERR_COMM (rep_fh junk) (rep_fattr junk) true 0 [] [] 0.

(** The client has been called; nothing else has changed. *)
Definition called_back (s s' : rpc_state) (cb : nfs_callback) (token : Z) (r : nfs_reply) : Prop :=
  ∃ n, s' = set_r_upcalls (r_upcalls s ++ [mk_upcall cb token r]) (set_r_tick n s).

Lemma reply_start_eq s cb :
  cb ≠ CbNull → reply_start cb s = Ret (blank s, set_r_tick (S (r_tick s)) s).
Proof.
  intros Hcb. unfold reply_start. erewrite N_bind_eq by (apply assertN_eq; by destruct cb). npure. done.
Qed.

Lemma call_back_eq s s1 n cb token r :
  s1 = set_r_tick n s →
  ∃ s', call_back cb token r s1 = Ret (tt, s') ∧ called_back s s' cb token r.
Proof. intros ->. eexists. split; [reflexivity |]. by exists n. Qed.

Section handlers.
Context (p : pbuf) (xid : Z) (s : rpc_state) (cb : nfs_callback) (token : Z).
Context (Hs : tot_len p < 2 ^ 16) (Hx : word xid) (Hcb : cb ≠ CbNull).
Context (Hm : ∀ n, en_malloc (r_env s) n = true).

(** The beginning of a handler, up to the cases of the results it can have: a
    status that is not [NFS_OK], and what else [body_of] allows. *)
Ltac handler_start Hc Hb :=
  nstep (reply_start_eq s cb Hcb);
  match type of Hc with _ = reply_bytes _ ?b =>
    let E := fresh "E" in
    destruct (reply_status_eq p xid b Hc Hs Hx) as [E H]; [by destruct b; destruct Hb |];
    nstep (liftN_eq _ _ _ E);
    destruct b as [status | | attr | fh attr | attr data | entries eof];
    cbn [body_of body_status body_reply] in *;
    try by destruct Hb as [Hf _]; intuition discriminate
  end;
  try discriminate Hb;
  try match goal with |- context [?x =? NFS_OK] =>
        is_var x; destruct (Z.eqb_spec x NFS_OK) as [-> |]; [by destruct Hb |]
      end;
  change (0 =? NFS_OK) with true; cbv iota.

Lemma lookup_cb_eq b :
  concat p = reply_bytes xid b → body_of nfs_lookup_cb b →
  ∃ s', _nfs_lookup_cb cb token p s = Ret (tt, s') ∧ called_back s s' cb token (body_reply b (blank s)).
Proof.
  intros Hc Hb. unfold _nfs_lookup_cb. handler_start Hc Hb.
  - by eapply call_back_eq.
  - destruct Hb as (_ & Hf & Hw & Hl).
    change (body_rest (BodyFile fh attr)) with (fh_bytes fh ++ (attr ≫= be_bytes)) in H.
    apply unread_read in H as [E1 H]. rewrite length_fh_bytes in *. nstep (liftN_eq _ _ _ E1).
    rewrite <- (app_nil_r (attr ≫= be_bytes)) in H.
    destruct (read_fattr_eq _ _ _ _ H Hw Hl) as [E2 _]. nstep (liftN_eq _ _ _ E2).
    rewrite fh_roundtrip by done. by eapply call_back_eq.
Qed.

Lemma getattr_cb_eq b :
  concat p = reply_bytes xid b → body_of nfs_getattr_cb b →
  ∃ s', _nfs_getattr_cb cb token p s = Ret (tt, s') ∧ called_back s s' cb token (body_reply b (blank s)).
Proof.
  intros Hc Hb. unfold _nfs_getattr_cb. handler_start Hc Hb.
  - by eapply call_back_eq.
  - destruct Hb as (_ & Hw & Hl).
    change (body_rest (BodyAttr attr)) with (attr ≫= be_bytes) in H.
    rewrite <- (app_nil_r (attr ≫= be_bytes)) in H.
    destruct (read_fattr_eq _ _ _ _ H Hw Hl) as [E2 _]. nstep (liftN_eq _ _ _ E2).
    by eapply call_back_eq.
Qed.

Lemma remove_cb_eq b :
  concat p = reply_bytes xid b → body_of nfs_remove_cb b →
  ∃ s', _nfs_remove_cb cb token p s = Ret (tt, s') ∧ called_back s s' cb token (body_reply b (blank s)).
Proof.
  intros Hc Hb. unfold _nfs_remove_cb. by handler_start Hc Hb; eapply call_back_eq.
Qed.

Lemma read_cb_eq b :
  concat p = reply_bytes xid b → body_of nfs_read_cb b →
  ∃ s', _nfs_read_cb cb token p s = Ret (tt, s') ∧ called_back s s' cb token (body_reply b (blank s)).
Proof.
  intros Hc Hb. unfold _nfs_read_cb. handler_start Hc Hb.
  - by eapply call_back_eq.
  - destruct Hb as (_ & Hw & Hl).
    change (body_rest (BodyData attr data)) with ((attr ≫= be_bytes) ++ xdr_string data) in H.
    assert (0 ≤ Zlength data < 2 ^ 16) as Hd.
    { pose proof (Zlength_nonneg data). split; [done |]. destruct H as [_ _ Hr _].
      unfold xdr_string in Hr. rewrite !Zlength_app in Hr.
      pose proof (Zlength_nonneg (attr ≫= be_bytes)).
      pose proof (Zlength_nonneg (be_bytes (Zlength data))).
      pose proof (Zlength_nonneg (replicate (Z.to_nat (pad_len (Zlength data))) 0)). lia. }
    destruct (read_fattr_eq _ _ _ _ H Hw Hl) as [E2 H2]. nstep (liftN_eq _ _ _ E2).
    unfold xdr_string in H2. apply unread_word in H2 as [E3 H3]; [| unfold word; lia].
    nstep (liftN_eq _ _ _ E3). npure. apply unread_read in H3 as [E4 _].
    rewrite i32_small by lia. nstep (liftN_eq _ _ _ E4). by eapply call_back_eq.
Qed.

Lemma write_cb_eq b t n :
  concat p = reply_bytes xid b → body_of nfs_write_cb b → r_wraps s !! token = Some (t, n) →
  ∃ s', _nfs_write_cb cb token p s = Ret (tt, set_r_wraps (delete token (r_wraps s)) s') ∧
    called_back s s' cb t (set_data n [] (body_reply b (blank s))).
Proof.
  intros Hc Hb Hw. unfold _nfs_write_cb. handler_start Hc Hb.
  - npure. change (r_wraps (set_r_tick _ s)) with (r_wraps s). rewrite Hw. npure.
    eexists. split; [reflexivity |]. by eexists.
  - destruct Hb as (_ & Ha & Hl). change (body_rest (BodyAttr attr)) with (attr ≫= be_bytes) in H.
    rewrite <- (app_nil_r (attr ≫= be_bytes)) in H.
    destruct (read_fattr_eq _ _ _ _ H Ha Hl) as [E2 _].
    erewrite (N_bind_eq _ _ _ (set_r_tick (S (r_tick s)) s)); [| nstep (liftN_eq _ _ _ E2); reflexivity].
    npure. change (r_wraps (set_r_tick _ s)) with (r_wraps s). rewrite Hw. npure.
    eexists. split; [reflexivity |]. by eexists.
Qed.

(** The wrapper has been freed. *)
Lemma write_cb_freed b :
  concat p = reply_bytes xid b → body_of nfs_write_cb b → r_wraps s !! token = None →
  _nfs_write_cb cb token p s = Fault Dangling.
Proof.
  intros Hc Hb Hw. unfold _nfs_write_cb. handler_start Hc Hb.
  - npure. change (r_wraps (set_r_tick _ s)) with (r_wraps s). by rewrite Hw.
  - destruct Hb as (_ & Ha & Hl). change (body_rest (BodyAttr attr)) with (attr ≫= be_bytes) in H.
    rewrite <- (app_nil_r (attr ≫= be_bytes)) in H.
    destruct (read_fattr_eq _ _ _ _ H Ha Hl) as [E2 _].
    erewrite (N_bind_eq _ _ _ (set_r_tick (S (r_tick s)) s)); [| nstep (liftN_eq _ _ _ E2); reflexivity].
    npure. change (r_wraps (set_r_tick _ s)) with (r_wraps s). by rewrite Hw.
Qed.

Lemma readdir_entries_eq entries fuel pos cookie l s1 :
  unread p pos ((entries ≫= xdr_entry) ++ be_bytes 0 ++ l) → pos mod 4 = 0 →
  Forall (λ e : Z * list Z * Z, word e.1.1 ∧ word e.2) entries →
  (length entries < fuel)%nat → (∀ n, en_malloc (r_env s1) n = true) →
  ∃ n, readdir_entries fuel p pos cookie s1 =
    Ret (((λ e, cstr e.1.2) <$> entries, List.last (snd <$> entries) cookie), set_r_tick n s1).
Proof.
  revert fuel pos cookie s1. induction entries as [|[[fileid name] ck] entries IH];
    intros fuel pos cookie s1 H Hp He Hf Hm1; (destruct fuel as [|fuel]; [lia |]); cbn [readdir_entries].
  - apply unread_word in H as [E _]; [| done]. nstep (liftN_eq _ _ _ E). exists (r_tick s1). by destruct s1.
  - apply Forall_cons in He as [[Hid Hck] He]. cbn [fst snd] in *.
    change (((fileid, name, ck) :: entries) ≫= xdr_entry) with
      ((be_bytes 1 ++ be_bytes fileid ++ xdr_string name ++ be_bytes ck) ++ (entries ≫= xdr_entry)) in H.
    unfold xdr_string in H. rewrite <- !app_assoc in H.
    apply unread_word in H as [E1 H]; [| done]. nstep (liftN_eq _ _ _ E1). change (1 =? 0) with false. cbv iota.
    apply unread_word in H as [E2 H]; [| done]. nstep (liftN_eq _ _ _ E2).
    assert (0 ≤ Zlength name < 2 ^ 16) as Hn.
    { pose proof (Zlength_nonneg name). split; [done |]. destruct H as [_ ? Hr _].
      rewrite !Zlength_app in Hr.
      pose proof (Zlength_nonneg (be_bytes (Zlength name))).
      pose proof (Zlength_nonneg (replicate (Z.to_nat (pad_len (Zlength name))) 0)).
      pose proof (Zlength_nonneg (be_bytes ck)). pose proof (Zlength_nonneg (entries ≫= xdr_entry)).
      pose proof (Zlength_nonneg (be_bytes 0)). pose proof (Zlength_nonneg l). lia. }
    apply unread_word in H as [E3 H]; [| unfold word; lia]. nstep (liftN_eq _ _ _ E3).
    npure. rewrite Hm1. cbn [negb]. apply unread_read in H as [E4 H].
    rewrite i32_small by lia. nstep (liftN_eq _ _ _ E4). apply unread_read in H as [_ H].
    pose proof (pad_len_range (Zlength name)) as [Hpad _].
    set (pos' := pos + 4 + 4 + 4 + Zlength name) in *.
    assert (pos' + Zlength (replicate (Z.to_nat (pad_len (Zlength name))) 0) = pb_alignl pos') as Ea.
    { unfold Zlength at 1. rewrite length_replicate. unfold pos', pb_alignl, pad_len in *.
      rewrite !ROUNDUP_4 in *. divmod. }
    rewrite Ea in H. apply unread_word in H as [E5 H]; [| done]. nstep (liftN_eq _ _ _ E5).
    npure. change (r_env (set_r_tick _ s1)) with (r_env s1). rewrite Hm1. cbn [negb].
    destruct (IH fuel (pb_alignl pos' + 4) ck (set_r_tick (S (r_tick (set_r_tick (S (r_tick s1)) s1)))
                (set_r_tick (S (r_tick s1)) s1))) as (n & E6); [done | | done | cbn [length] in Hf; lia | done |].
    { unfold pb_alignl. rewrite ROUNDUP_4. divmod. }
    nstep E6. exists n. rewrite !fmap_cons. cbn [fst snd].
    assert (List.last (ck :: (snd <$> entries)) cookie = List.last (snd <$> entries) ck) as -> ; [| done].
    apply last_cons_default.
Qed.

Lemma entries_length entries :
  16 * Z.of_nat (length entries) ≤ Zlength (entries ≫= xdr_entry).
Proof.
  induction entries as [|[[fileid name] ck] entries IH]; [done |].
  change (((fileid, name, ck) :: entries) ≫= xdr_entry) with
    ((be_bytes 1 ++ be_bytes fileid ++ (be_bytes (Zlength name) ++ name ++
      replicate (Z.to_nat (pad_len (Zlength name))) 0) ++ be_bytes ck) ++ (entries ≫= xdr_entry)).
  rewrite !Zlength_app. change (Zlength (be_bytes ?v)) with 4. cbn [length].
  pose proof (Zlength_nonneg name). pose proof (Zlength_nonneg (replicate (Z.to_nat (pad_len (Zlength name))) 0)).
  lia.
Qed.

Lemma readdir_cb_eq b :
  concat p = reply_bytes xid b → body_of nfs_readdir_cb b →
  ∃ s', _nfs_readdir_cb cb token p s = Ret (tt, s') ∧ called_back s s' cb token (body_reply b (blank s)).
Proof.
  intros Hc Hb. unfold _nfs_readdir_cb. handler_start Hc Hb.
  - by eapply call_back_eq.
  - destruct Hb as (_ & He & _).
    change (body_rest (BodyNames entries eof)) with
      ((entries ≫= xdr_entry) ++ be_bytes 0 ++ be_bytes eof) in H.
    destruct (readdir_entries_eq entries (readdir_fuel p) 28 0 (be_bytes eof)
                (set_r_tick (S (r_tick s)) s)) as (n & E1); [done.. | | done |].
    { unfold readdir_fuel. destruct H as [_ _ Hr _]. rewrite !Zlength_app in Hr.
      pose proof (entries_length entries). pose proof (Zlength_nonneg (be_bytes 0)).
      pose proof (Zlength_nonneg (be_bytes eof)). lia. }
    nstep E1. npure. eapply call_back_eq. done.
Qed.
End handlers.

(** * Delivery *)

(** The client of the request [q] has been called back with the result [b]: with
    its own token, and for a write with the number of bytes that were in the
    packet, after which the wrapper is freed. *)
Definition delivered (s s' : rpc_state) (q : rpc_item) (b : reply_body) : Prop :=
  match q_func q with
  | nfs_write_cb =>
      ∃ t n s1, r_wraps s !! q_arg q = Some (t, n) ∧
        called_back s s1 (q_callback q) t (set_data n [] (body_reply b (blank s))) ∧
        s' = set_r_wraps (delete (q_arg q) (r_wraps s)) s1
  | _ => called_back s s' (q_callback q) (q_arg q) (body_reply b (blank s))
  end.

(** A request that is waiting for its reply. *)
Definition waiting (s : rpc_state) (q : rpc_item) : Prop :=
  q_callback q ≠ CbNull ∧ q_func q ≠ rpc_call_cb ∧
  (q_func q = nfs_write_cb → is_Some (r_wraps s !! q_arg q)).

Lemma handle_delivers s q p xid b :
  tot_len p < 2 ^ 16 → word xid → (∀ n, en_malloc (r_env s) n = true) →
  waiting s q → concat p = reply_bytes xid b → body_of (q_func q) b →
  ∃ s', handle q p s = Ret (tt, s') ∧ delivered s s' q b.
Proof.
  intros Hs Hx Hm (Hcb & Hf & Hw) Hc Hb. unfold handle, delivered. destruct (q_func q) eqn:Eq.
  - by eapply getattr_cb_eq.
  - by eapply lookup_cb_eq.
  - by eapply read_cb_eq.
  - destruct (Hw eq_refl) as [[t n] Ht].
    destruct (write_cb_eq p xid s (q_callback q) (q_arg q) Hs Hx Hcb b t n Hc Hb Ht) as (s' & E & Hcall).
    eexists. split; [exact E |]. by exists t, n, s'.
  - eapply lookup_cb_eq; try done. destruct b; cbn in *; naive_solver.
  - by eapply remove_cb_eq.
  - by eapply readdir_cb_eq.
  - done.
Qed.
