(* ===== verification/NfsQueue.v ===== *)
(** libnfs as a whole: requests, replies and retransmissions in any order.

    The transaction ids of the waiting requests are different (as long as no id
    has come round), so that a reply reaches exactly the request it answers and
    a second copy of it reaches none. *)

From S2P Require Import Prelude UtAllocator Sos Pbuf Rpc Nfs Mount RpcInv NfsWire NfsRecv.

(** * What handlers cannot change *)

(** The computation does not change what [f] looks at. *)
Definition keeps_view {T A : Type} (f : rpc_state → T) (m : N A) : Prop :=
  ∀ s a s', m s = Ret (a, s') → f s' = f s.

Section keeps_view.
Context {T : Type} (f : rpc_state → T).
Context (Ht : ∀ n s, f (set_r_tick n s) = f s) (Hu : ∀ l s, f (set_r_upcalls l s) = f s)
        (Hw : ∀ w s, f (set_r_wraps w s) = f s).

Lemma keeps_view_bind {A B : Type} (m : N A) (k : A → N B) :
  keeps_view f m → (∀ a, keeps_view f (k a)) → keeps_view f (m ≫= k).
Proof.
  intros Hm Hk s b s' H. apply N_bind_Ret in H as (a & s1 & H1 & H2).
  rewrite (Hk _ _ _ _ H2). by eapply Hm.
Qed.

Lemma keeps_view_ret {A : Type} (a : A) : keeps_view f (mret a).
Proof. by intros s b s' [= <- <-]. Qed.

Lemma keeps_view_gets {A : Type} (g : rpc_state → A) : keeps_view f (getsN g).
Proof. by intros s b s' [= <- <-]. Qed.

Lemma keeps_view_ask {A : Type} (g : rpc_env → nat → A) : keeps_view f (askN g).
Proof. intros s b s' [= <- <-]. apply Ht. Qed.

Lemma keeps_view_lift {A : Type} (o : outcome A) : keeps_view f (liftN o).
Proof. intros s b s' H. by apply liftN_Ret in H as [_ ->]. Qed.

Lemma keeps_view_assert c : keeps_view f (assertN c).
Proof. apply keeps_view_lift. Qed.

Lemma keeps_view_fail {A : Type} e : keeps_view f (failN e : N A).
Proof. intros s b s' [=]. Qed.

Lemma keeps_view_mod g : (∀ s, f (g s) = f s) → keeps_view f (modN g).
Proof. intros Hg s b s' [= <- <-]. apply Hg. Qed.

#[local] Hint Resolve keeps_view_ret keeps_view_gets keeps_view_ask keeps_view_lift keeps_view_assert
  keeps_view_fail : view.

Ltac keeps_view :=
  repeat match goal with
  | |- keeps_view _ (mbind _ _) => apply keeps_view_bind; [| intros ?]
  | |- keeps_view _ (let _ := _ in _) => cbv zeta
  | |- keeps_view _ (match ?x with _ => _ end) => destruct x
  | |- keeps_view _ (modN _) => apply keeps_view_mod; intros ?; solve [apply Hu | apply Hw | eauto]
  | |- keeps_view _ _ => solve [eauto 2 with view]
  end.

Lemma keeps_view_call_back cb token r : keeps_view f (call_back cb token r).
Proof. unfold call_back. keeps_view. Qed.
#[local] Hint Resolve keeps_view_call_back : view.

Lemma keeps_view_reply_start cb : keeps_view f (reply_start cb).
Proof. unfold reply_start. keeps_view. Qed.
#[local] Hint Resolve keeps_view_reply_start : view.

Lemma keeps_view_readdir fuel p pos cookie : keeps_view f (readdir_entries fuel p pos cookie).
Proof.
  revert pos cookie. induction fuel as [|fuel IH]; intros pos cookie; cbn [readdir_entries];
    [apply keeps_view_fail |]. keeps_view; apply IH.
Qed.
#[local] Hint Resolve keeps_view_readdir : view.

Lemma keeps_view_nfs q p : q_func q ≠ rpc_call_cb → keeps_view f (handle q p).
Proof.
  intros Hq. unfold handle, _nfs_getattr_cb, _nfs_create_cb, _nfs_lookup_cb, _nfs_read_cb, _nfs_write_cb,
    _nfs_remove_cb, _nfs_readdir_cb.
  destruct (q_func q); [keeps_view.. | done].
Qed.

Lemma keeps_view_call arg p :
  (∀ c s, f (set_r_call c s) = f s) → keeps_view f (rpc_call_reply arg p).
Proof. intros Hc. unfold rpc_call_reply. keeps_view. Qed.
End keeps_view.

(** The parts of the state that only requests and the arrival of packets change. *)
Definition core (s : rpc_state) : list rpc_item * Z * gmap Z (Z * Z) * Z * list (Z * list Z) * rpc_env * Z :=
  (r_queue s, r_xid s, r_pcbs s, r_nfs_pcb s, r_sent s, r_env s, r_next s).

Lemma keeps_core_handle q p : keeps_view core (handle q p).
Proof.
  destruct (decide (q_func q = rpc_call_cb)) as [Hq | Hq]; [| by apply keeps_view_nfs].
  unfold handle. rewrite Hq. by apply keeps_view_call.
Qed.

(** * Receiving *)

Lemma my_recv_eq h p s :
  my_recv h p s =
    (xid ← extract_xid p;
     match take_xid xid (r_queue s) with
     | Some (q, l) => h q p (set_r_queue l s)
     | None => Ret (tt, s)
     end).
Proof.
  unfold my_recv, get_from_queue, liftN, mbind, N_bind, getsN, modN. cbn.
  destruct (extract_xid p) as [xid |]; [| done]. cbn. by destruct (take_xid xid (r_queue s)) as [[q l] |].
Qed.

(** A packet takes at most one request out of the queue. *)
Lemma my_recv_core s p s' :
  my_recv handle p s = Ret (tt, s') →
  core s' = core s ∨
  ∃ k q, r_queue s !! k = Some q ∧ extract_xid p = Ret (q_xid q) ∧
    core s' = core (set_r_queue (delete k (r_queue s)) s).
Proof.
  rewrite my_recv_eq. destruct (extract_xid p) as [xid |]; [| done]. cbn [mbind outcome_bind].
  destruct (take_xid xid (r_queue s)) as [[q l] |] eqn:E; [| intros [= <-]; by left].
  apply take_xid_Some in E as (<- & k & Hk & ->). intros H. right. exists k, q.
  split_and!; [done.. |]. by apply keeps_core_handle in H.
Qed.

(** * Runs of libnfs *)

(** A request of a client, a packet, or time passing. *)
Inductive nfs_step : rpc_state → rpc_state → Prop :=
  | step_request (r : request) (cb : nfs_callback) (token stat : Z) (s s' : rpc_state) :
      valid_request r → do_request r cb token s = Ret (stat, s') → nfs_step s s'
  | step_packet (p : pbuf) (s s' : rpc_state) :
      my_recv handle p s = Ret (tt, s') → nfs_step s s'
  | step_timeout (s s' : rpc_state) :
      nfs_timeout s = Ret (tt, s') → nfs_step s s'.

(** The connection to the server is open, and so are those of the waiting
    requests. *)
Record live (s : rpc_state) : Prop := {
  lv_ready : nfs_ready s;
  lv_queue : queue_ok s
}.

(** [live], and the transaction ids of the waiting requests are different. *)
Record lib_ok (base n : Z) (s : rpc_state) : Prop := {
  lo_xids : xids_ok base n s;
  lo_live : live s
}.

Lemma nfs_ready_same s s' :
  r_pcbs s' = r_pcbs s → r_nfs_pcb s' = r_nfs_pcb s → r_env s' = r_env s → nfs_ready s → nfs_ready s'.
Proof.
  intros Ep En Ee [Hp Ho Hm].
  split; [by rewrite En | unfold pcb_open; by rewrite En, Ep | by rewrite Ee].
Qed.

Lemma queue_ok_pcbs s s' l :
  r_pcbs s' = r_pcbs s → Forall (item_ok s) l → Forall (item_ok s') l.
Proof.
  intros E H. eapply Forall_impl; [exact H |]. intros q [? ?]. split; [done |].
  unfold pcb_open. by rewrite E.
Qed.

Lemma live_core s s' : core s' = core s → live s → live s'.
Proof.
  intros E [Hr Hq]. unfold core in E. injection E as Eq Ex Ep En _ Ee _.
  split; [by eapply nfs_ready_same |]. unfold queue_ok. rewrite Eq. by eapply queue_ok_pcbs.
Qed.

Lemma live_delete s k : live s → live (set_r_queue (delete k (r_queue s)) s).
Proof.
  intros [[] Hq]. split; [by split |].
  unfold queue_ok in *. cbn [r_queue set_r_queue]. apply Forall_delete. by eapply queue_ok_pcbs.
Qed.

Lemma live_request s r cb token stat s' :
  live s → valid_request r → do_request r cb token s = Ret (stat, s') → live s'.
Proof.
  intros [Hr Hq] Hv E. destruct (do_request_posts s r cb token Hr Hv) as (stat' & s1 & E' & Hnet & H).
  rewrite E in E'. injection E' as <- <-. destruct Hnet as (Ep & En & _ & _ & _ & Ee & _).
  split; [by eapply nfs_ready_same |]. unfold queue_ok.
  destruct H as [(_ & Eq & _) | (q & [Eq _ _ _ _ [Hit _] _ _ _])]; rewrite Eq.
  - by eapply queue_ok_pcbs.
  - apply Forall_app. split; [by eapply queue_ok_pcbs | by apply Forall_singleton].
Qed.

(** What [rpc_timeout] can change of a queue and its state. *)
Lemma live_timeout s ms s' :
  live s → rpc_timeout ms s = Ret (tt, s') →
  live s' ∧ r_xid s' = r_xid s ∧ r_wraps s' = r_wraps s ∧ r_next s' = r_next s ∧
  ∃ bs, length bs = length (r_queue s) ∧ r_queue s' = zip_with (after ms) (r_queue s) bs.
Proof.
  intros [Hr Hq] E. destruct (rpc_timeout_eq s ms Hq) as (bs & s1 & E' & Hl & Eq & (s0 & H0 & E1) & _).
  rewrite E in E'. injection E' as <-. pose proof (queue_ok_timeout s s0 ms bs Hq H0) as Hq'.
  rewrite <- Eq, <- E1 in Hq'. split.
  - split; [| done]. rewrite E1. destruct H0 as (? & ? & ->). by destruct Hr.
  - assert (r_xid s' = r_xid s ∧ r_wraps s' = r_wraps s ∧ r_next s' = r_next s) as (? & ? & ?)
      by (rewrite E1; by destruct H0 as (? & ? & ->)).
    split_and!; [done.. |]. by exists bs.
Qed.

Lemma zip_after_fmap {B : Type} (f : rpc_item → B) ms bs l :
  (∀ q b, f (after ms q b) = f q) → length bs = length l → f <$> zip_with (after ms) l bs = f <$> l.
Proof.
  intros Hf. revert bs. induction l as [|q l IH]; intros [|b bs] Hl; try done.
  cbn [zip_with fmap list_fmap]. f_equal; [apply Hf | apply IH; by injection Hl].
Qed.

Lemma lib_ok_core base n s s' : core s' = core s → lib_ok base n s → lib_ok base n s'.
Proof.
  intros E [Hx Hl]. split; [| by eapply live_core].
  unfold core in E. injection E as Eq Ex Ep _ _ _ _. eapply xids_ok_same; [done.. | by rewrite Eq].
Qed.

Lemma lib_ok_delete base n s k :
  lib_ok base n s → lib_ok base n (set_r_queue (delete k (r_queue s)) s).
Proof. intros [Hx Hl]. split; [by eapply xids_ok_delete | by apply live_delete]. Qed.

Lemma lib_ok_request base n s r cb token stat s' :
  lib_ok base n s → 0 ≤ n → n + 1 < 2 ^ 32 → valid_request r →
  do_request r cb token s = Ret (stat, s') → ∃ n', n ≤ n' ≤ n + 1 ∧ lib_ok base n' s'.
Proof.
  intros [Hx Hl] Hn Hn1 Hv E. pose proof (live_request _ _ _ _ _ _ Hl Hv E) as Hl'.
  destruct (do_request_posts s r cb token (lv_ready _ Hl) Hv) as (stat' & s1 & E' & _ & H).
  rewrite E in E'. injection E' as <- <-.
  destruct H as [(_ & Eq & Ex & _) | (q & [Eq Ex Eqx _ _ _ _ _ _])].
  - exists n. split; [lia |]. split; [| done]. eapply xids_ok_same; [done.. | by rewrite Eq].
  - exists (n + 1). split; [lia |]. split; [| done].
    eapply xids_ok_add; try done. rewrite Ex, (xi_cur _ _ _ Hx).
    unfold u32. rewrite Zplus_mod_idemp_l. f_equal. lia.
Qed.

Lemma lib_ok_timeout base n s ms s' :
  lib_ok base n s → rpc_timeout ms s = Ret (tt, s') → lib_ok base n s'.
Proof.
  intros [Hx Hl] E. destruct (live_timeout _ _ _ Hl E) as (Hl' & Ex & _ & _ & bs & Hb & Eq).
  split; [| done]. eapply xids_ok_same; [done.. |].
  rewrite Eq. apply zip_after_fmap; [by intros ? [] | done].
Qed.

Lemma nfs_step_ok base n s s' :
  lib_ok base n s → 0 ≤ n → n + 1 < 2 ^ 32 → nfs_step s s' → ∃ n', n ≤ n' ≤ n + 1 ∧ lib_ok base n' s'.
Proof.
  intros H Hn Hn1 Hstep. destruct Hstep as [r cb token stat s s' Hv E | p s s' E | s s' E].
  - by eapply lib_ok_request.
  - exists n. split; [lia |]. destruct (my_recv_core _ _ _ E) as [Ec | (k & q & _ & _ & Ec)];
      (eapply lib_ok_core; [exact Ec |]); [done | by apply lib_ok_delete].
  - exists n. split; [lia |]. by eapply lib_ok_timeout.
Qed.

Lemma nfs_steps_ok k base n s s' :
  lib_ok base n s → 0 ≤ n → n + Z.of_nat k < 2 ^ 32 → nsteps nfs_step k s s' →
  ∃ n', n ≤ n' ≤ n + Z.of_nat k ∧ lib_ok base n' s'.
Proof.
  intros H Hn Hk Hs. revert n H Hn Hk. induction Hs as [s | k s1 s2 s3 Hs _ IH]; intros n H Hn Hk.
  - exists n. split; [lia | done].
  - destruct (nfs_step_ok base n s1 s2 H Hn) as (n1 & Hn1 & H1); [lia | done |].
    destruct (IH n1 H1) as (n2 & Hn2 & H2); [lia.. |]. exists n2. split; [lia | done].
Qed.

(** * Replies and their requests *)

Lemma extract_xid_head p xid l :
  concat p = be_bytes xid ++ l → word xid → tot_len p < 2 ^ 15 → extract_xid p = Ret xid.
Proof.
  intros Hc Hx Hs. apply (extract_xid_eq p xid l); [done.. |].
  unfold tot_len in Hs. rewrite Hc, Zlength_app in Hs. change (Zlength (be_bytes xid)) with 4 in Hs. lia.
Qed.

Lemma reply_xid p xid b :
  concat p = reply_bytes xid b → word xid → tot_len p < 2 ^ 15 → extract_xid p = Ret xid.
Proof. intros Hc. by apply (extract_xid_head p xid (skipn 4 (accepted xid) ++ body_bytes b)). Qed.

Lemma xids_ok_word base n s i q : xids_ok base n s → r_queue s !! i = Some q → word (q_xid q).
Proof.
  intros [_ Ho _] Hi. rewrite Forall_lookup in Ho. destruct (Ho _ _ Hi) as (j & _ & ->). apply word_u32.
Qed.

(** The queue after the reply to its [i]-th request. *)
Definition without (i : nat) (s : rpc_state) : rpc_state := set_r_queue (delete i (r_queue s)) s.

Lemma delete_not_elem i l q :
  NoDup (q_xid <$> l) → l !! i = Some q → q_xid q ∉ q_xid <$> delete i l.
Proof.
  intros Hn Hi Hin. rewrite delete_take_drop, fmap_app, fmap_take, fmap_drop in Hin.
  apply elem_of_app in Hin. rewrite <- (take_drop_middle _ i (q_xid q)) in Hn by (by rewrite list_lookup_fmap, Hi).
  apply NoDup_app in Hn as (_ & Hd & Hn). apply NoDup_cons in Hn as [Hn _].
  destruct Hin as [Hin | Hin]; [| done]. apply (Hd _ Hin). by left.
Qed.

Lemma recv_reply base n s i q p b :
  lib_ok base n s → r_queue s !! i = Some q → waiting s q → tot_len p < 2 ^ 15 →
  concat p = reply_bytes (q_xid q) b → body_of (q_func q) b →
  ∃ s', my_recv handle p s = Ret (tt, s') ∧ core s' = core (without i s) ∧
    delivered (without i s) s' q b ∧ my_recv handle p s' = Ret (tt, s').
Proof.
  intros [Hx [[_ _ Hm] _]] Hi Hw Hp Hc Hb. pose proof (xids_ok_word _ _ _ _ _ Hx Hi) as Hword.
  pose proof (reply_xid _ _ _ Hc Hword Hp) as Ex. destruct Hx as [_ _ Hd].
  destruct (handle_delivers (without i s) q p (q_xid q) b) as (s' & E & Hdel); [lia | done.. |].
  pose proof (keeps_core_handle _ _ _ _ _ E) as Hcore.
  exists s'. rewrite !my_recv_eq, Ex. cbn [mbind outcome_bind].
  rewrite (take_xid_lookup _ _ _ Hd Hi). split_and!; [done.. |].
  assert (r_queue s' = delete i (r_queue s)) as -> by (by unfold core in Hcore; injection Hcore).
  by rewrite (proj2 (take_xid_None _ _) (delete_not_elem _ _ _ Hd Hi)).
Qed.

(** * Replies that are errors *)

(** The server denied the call, or did not carry it out. *)
Inductive rejection : list Z → Prop :=
  | rejected_denied (xid err detail : Z) :
      word xid → word err → word detail →
      rejection [xid; MSG_REPLY; 1; err; detail]
  | rejected_failed (xid stat : Z) :
      word xid → word stat → stat ≠ SUCCESS →
      rejection [xid; MSG_REPLY; MSG_ACCEPTED; AUTH_NULL; 0; stat].

Lemma read_hdr_rejected p ws l :
  rejection ws → concat p = (ws ≫= be_bytes) ++ l → tot_len p < 2 ^ 16 →
  ∃ err pos, rpc_read_hdr p = Ret (err, pos) ∧ err ≠ RPCERR_OK.
Proof.
  intros Hr Hc Hs. pose proof (unread_start p Hs) as H. rewrite Hc in H. unfold rpc_read_hdr.
  destruct Hr as [xid err detail Hx He Hd | xid stat Hx Hst Hne].
  - change ([xid; MSG_REPLY; 1; err; detail] ≫= be_bytes) with
      (([xid; MSG_REPLY; 1] ≫= be_bytes) ++ be_bytes err ++ be_bytes detail) in H. rewrite <- !app_assoc in H.
    apply (unread_words p 0 [xid; MSG_REPLY; 1]) in H as [E H]; [| words_ok].
    change (4 * Zlength [xid; MSG_REPLY; 1]) with 12 in *. change (0 + 12) with 12 in *.
    rewrite E. cbn [mbind outcome_bind]. change (rd [xid; MSG_REPLY; 1] 1) with (Ret MSG_REPLY).
    change (rd [xid; MSG_REPLY; 1] 2) with (Ret 1). cbn [mbind outcome_bind].
    change (MSG_REPLY =? MSG_REPLY) with true. change (1 =? MSG_ACCEPTED) with false. cbn [negb].
    apply unread_word in H as [E2 H]; [| done]. rewrite E2. cbn [mbind outcome_bind].
    apply unread_word in H as [E3 _]; [| done].
    destruct (err =? 1); [rewrite E3 |]; cbn [mbind outcome_bind]; by eexists _, _.
  - change ([xid; MSG_REPLY; MSG_ACCEPTED; AUTH_NULL; 0; stat] ≫= be_bytes) with
      (([xid; MSG_REPLY; MSG_ACCEPTED] ≫= be_bytes) ++ ([AUTH_NULL; 0] ≫= be_bytes) ++ be_bytes stat) in H.
    rewrite <- !app_assoc in H.
    apply (unread_words p 0 [xid; MSG_REPLY; MSG_ACCEPTED]) in H as [E H]; [| words_ok].
    change (4 * Zlength [xid; MSG_REPLY; MSG_ACCEPTED]) with 12 in *. change (0 + 12) with 12 in *.
    rewrite E. cbn [mbind outcome_bind]. change (rd [xid; MSG_REPLY; MSG_ACCEPTED] 1) with (Ret MSG_REPLY).
    change (rd [xid; MSG_REPLY; MSG_ACCEPTED] 2) with (Ret MSG_ACCEPTED). cbn [mbind outcome_bind].
    change (MSG_REPLY =? MSG_REPLY) with true. change (MSG_ACCEPTED =? MSG_ACCEPTED) with true. cbn [negb].
    apply (unread_words p 12 [AUTH_NULL; 0]) in H as [E2 H]; [| words_ok].
    change (4 * Zlength [AUTH_NULL; 0]) with 8 in *. change (12 + 8) with 20 in *. rewrite E2.
    cbn [mbind outcome_bind]. change (rd [AUTH_NULL; 0] 0) with (Ret AUTH_NULL). cbn [mbind outcome_bind].
    rewrite c_assert_true by done. cbn [mbind outcome_bind].
    apply unread_word in H as [E3 _]; [| done]. rewrite E3. cbn [mbind outcome_bind].
    eexists _, _. split; [done |]. by destruct (Z.eqb_spec stat SUCCESS).
Qed.

Lemma handle_rejected s q p ws l :
  rejection ws → concat p = (ws ≫= be_bytes) ++ l → tot_len p < 2 ^ 16 → waiting s q →
  ∃ s' token r, handle q p s = Ret (tt, s') ∧ core s' = core s ∧
    r_upcalls s' = r_upcalls s ++ [mk_upcall (q_callback q) token r] ∧ rep_status r = NFSERR_COMM.
Proof.
  intros Hr Hc Hs (Hcb & Hf & Hw).
  destruct (read_hdr_rejected p ws l Hr Hc Hs) as (err & pos & Eh & Hne).
  assert (reply_status p = Ret None) as Es.
  { unfold reply_status. rewrite Eh. cbn [mbind outcome_bind]. by destruct (Z.eqb_spec err RPCERR_OK). }
  assert (∀ s' u, handle q p s = Ret (u, s') → core s' = core s) as Hcore by (intros; by eapply keeps_core_handle).
  unfold handle in *. destruct (q_func q) eqn:Eq; try done;
    unfold _nfs_create_cb, _nfs_getattr_cb, _nfs_lookup_cb, _nfs_read_cb, _nfs_write_cb, _nfs_remove_cb,
      _nfs_readdir_cb in *; nstep (reply_start_eq s _ Hcb); nstep (liftN_eq _ _ _ Es);
    try by eexists _, _, _.
  destruct (Hw eq_refl) as [[t n] Ht]. npure. change (r_wraps (set_r_tick _ s)) with (r_wraps s). rewrite Ht.
  npure. by eexists _, _, _.
Qed.

(** A packet with less than a transaction id. *)
Lemma my_recv_short h p s : tot_len p < 4 → my_recv h p s = Fault AssertFail.
Proof.
  intros Hp. rewrite my_recv_eq. unfold extract_xid, pb_readl, pb_read_arrl.
  pose proof (tot_len_nonneg p). rewrite pb_read_eq by lia.
  destruct (Z.leb_spec (0 + 4) (tot_len p)); [lia | done].
Qed.

(** * Properties *)

(** [C31] In every run of fewer than 2^32 requests, packets and timeouts from a
    state in which nothing waits, the waiting requests have different transaction
    ids, and libnfs stays ready for requests. *)
Theorem nfs_xids_distinct k s s' :
  nfs_ready s → r_queue s = [] → 0 ≤ r_xid s < 2 ^ 32 → Z.of_nat k < 2 ^ 32 → nsteps nfs_step k s s' →
  NoDup (q_xid <$> r_queue s') ∧ nfs_ready s'.
Proof.
  intros Hr Hq Hx Hk Hs. destruct (nfs_steps_ok k (r_xid s) 0 s s') as (n & _ & [[_ _ Hd] [Hr' _]]); try done; try lia.
  split; [split |].
  - rewrite Z.add_0_r. symmetry. by apply Z.mod_small.
  - rewrite Hq. constructor.
  - rewrite Hq. constructor.
  - split; [done |]. unfold queue_ok. rewrite Hq. constructor.
Qed.

Lemma looked_up_step : nfs_step mounted looked_up.
Proof.
  eapply (step_request (RLookup 7 [97])); [split; [split; lia | by unfold name_ok] |].
  vm_compute. reflexivity.
Qed.

Lemma nfs_xids_distinct_witness : NoDup (q_xid <$> r_queue looked_up) ∧ nfs_ready looked_up.
Proof.
  apply (nfs_xids_distinct 1 mounted looked_up);
    [exact mounted_ready | reflexivity | split; by vm_compute | by vm_compute |].
  apply nsteps_once. exact looked_up_step.
Defined.

(** [C9] The reply to the [i]-th waiting request, cut into segments in any way,
    takes that request and no other from the queue and calls its client back once,
    with the request's token and what the server put into the reply; a second copy
    of the reply is ignored. *)
Theorem nfs_reply_delivered base n s i q p b :
  lib_ok base n s → r_queue s !! i = Some q → waiting s q → tot_len p < 2 ^ 15 →
  concat p = reply_bytes (q_xid q) b → body_of (q_func q) b →
  ∃ s', my_recv handle p s = Ret (tt, s') ∧ r_queue s' = delete i (r_queue s) ∧
    delivered (without i s) s' q b ∧ my_recv handle p s' = Ret (tt, s').
Proof.
  intros Hl Hi Hw Hp Hc Hb. destruct (recv_reply base n s i q p b Hl Hi Hw Hp Hc Hb) as (s' & E & Ecore & Hd & E2).
  exists s'. split_and!; [done | | done | done]. unfold core in Ecore. by injection Ecore.
Qed.

Lemma looked_up_queue :
  ∃ p, r_queue looked_up = [mk_item 1 p 1 0 nfs_lookup_cb (CbLookup cb_nfs_dev_lookup_handler) 5].
Proof. eexists. vm_compute. reflexivity. Qed.

Lemma looked_up_ok : lib_ok 0 1 looked_up.
Proof.
  destruct looked_up_queue as [p Eq]. split; [split |].
  - vm_compute. reflexivity.
  - rewrite Eq. apply Forall_singleton. exists 1. split; [lia | reflexivity].
  - rewrite Eq. apply NoDup_singleton.
  - assert (live mounted) as H by (split; [exact mounted_ready | constructor]).
    apply (live_request mounted (RLookup 7 [97]) (CbLookup cb_nfs_dev_lookup_handler) 5 RPC_OK looked_up H);
      [split; [split; lia | by unfold name_ok] | vm_compute; reflexivity].
Qed.

Lemma looked_up_waiting p :
  waiting looked_up (mk_item 1 p 1 0 nfs_lookup_cb (CbLookup cb_nfs_dev_lookup_handler) 5).
Proof. split; [discriminate | split; discriminate]. Qed.

(** The reply that the file has the handle 9, in two segments. *)
Definition lookup_reply : pbuf :=
  let l := reply_bytes 1 (BodyFile 9 (replicate 17 3)) in [take 10 l; drop 10 l].

Lemma nfs_reply_delivered_witness :
  ∃ s', my_recv handle lookup_reply looked_up = Ret (tt, s') ∧ r_queue s' = [].
Proof.
  destruct looked_up_queue as [p Eq].
  set (q := mk_item 1 p 1 0 nfs_lookup_cb (CbLookup cb_nfs_dev_lookup_handler) 5) in *.
  destruct (nfs_reply_delivered 0 1 looked_up 0 q lookup_reply (BodyFile 9 (replicate 17 3)))
    as (s' & E & El & _); [exact looked_up_ok | by rewrite Eq | apply looked_up_waiting | | | |].
  - vm_compute. reflexivity.
  - vm_compute. reflexivity.
  - split; [by left |]. split; [split; lia |]. split; [| reflexivity].
    apply Forall_replicate. split; lia.
  - exists s'. split; [exact E |]. by rewrite El, Eq.
Defined.

(** When the server denies a call or does not carry it out, the client of
    that request and no other is called back, with [NFSERR_COMM]. *)
Theorem nfs_reply_rejected base n s i q p ws l :
  lib_ok base n s → r_queue s !! i = Some q → waiting s q → tot_len p < 2 ^ 15 →
  rejection ws → head ws = Some (q_xid q) → concat p = (ws ≫= be_bytes) ++ l →
  ∃ s' token r, my_recv handle p s = Ret (tt, s') ∧ r_queue s' = delete i (r_queue s) ∧
    r_upcalls s' = r_upcalls s ++ [mk_upcall (q_callback q) token r] ∧ rep_status r = NFSERR_COMM.
Proof.
  intros [Hx _] Hi Hw Hp Hr Hh Hc.
  assert (extract_xid p = Ret (q_xid q)) as Ex.
  { assert (word (q_xid q)) as Hword by (by eapply xids_ok_word).
    destruct ws as [|w ws]; [done |]. injection Hh as ->.
    apply (extract_xid_head p (q_xid q) ((ws ≫= be_bytes) ++ l)); [| done..]. by rewrite Hc, app_assoc. }
  destruct (handle_rejected (without i s) q p ws l Hr Hc ltac:(lia) Hw) as (s' & token & r & E & Ecore & Eu & Er).
  exists s', token, r. rewrite my_recv_eq, Ex. cbn [mbind outcome_bind].
  rewrite (take_xid_lookup _ _ _ (xi_diff _ _ _ Hx) Hi). split_and!; [done | | done | done].
  unfold core in Ecore. by injection Ecore.
Qed.

(** The server could not carry the call out: [SYSTEM_ERR]. *)
Lemma nfs_reply_rejected_witness :
  ∃ s' token r, my_recv handle [[1; MSG_REPLY; MSG_ACCEPTED; AUTH_NULL; 0; 5] ≫= be_bytes] looked_up = Ret (tt, s') ∧
    r_queue s' = [] ∧ rep_status r = NFSERR_COMM ∧
    r_upcalls s' = [mk_upcall (CbLookup cb_nfs_dev_lookup_handler) token r].
Proof.
  destruct looked_up_queue as [p Eq].
  set (q := mk_item 1 p 1 0 nfs_lookup_cb (CbLookup cb_nfs_dev_lookup_handler) 5) in *.
  destruct (nfs_reply_rejected 0 1 looked_up 0 q [[1; MSG_REPLY; MSG_ACCEPTED; AUTH_NULL; 0; 5] ≫= be_bytes]
              [1; MSG_REPLY; MSG_ACCEPTED; AUTH_NULL; 0; 5] []) as (s' & token & r & E & El & Eu & Er);
    [exact looked_up_ok | by rewrite Eq | apply looked_up_waiting | reflexivity | | reflexivity | reflexivity |].
  - apply rejected_failed; [split; lia | split; lia | discriminate].
  - exists s', token, r. split; [exact E |]. split; [by rewrite El, Eq |]. split; [exact Er | exact Eu].
Defined.



(** [C38] A write whose packet could not be sent returns an error to its client,
    but stays in the queue, and its wrapper is freed: the reply to the copy that
    [nfs_timeout] sends later makes the handler read freed memory. *)
Theorem unsent_write_dangles base n s fh off count data cb token stat s' q p b :
  lib_ok base n s → 0 ≤ n → n + 1 < 2 ^ 32 → valid_request (RWrite fh off count data) → cb ≠ CbNull →
  do_request (RWrite fh off count data) cb token s = Ret (stat, s') → stat ≠ RPC_OK →
  r_queue s' = r_queue s ++ [q] →
  tot_len p < 2 ^ 15 → concat p = reply_bytes (q_xid q) b → body_of nfs_write_cb b →
  my_recv handle p s' = Fault Dangling.
Proof.
  intros Hl Hn Hn1 Hv Hcb E Hst Eq Hp Hc Hb.
  destruct (lib_ok_request _ _ _ _ _ _ _ _ Hl Hn Hn1 Hv E) as (n' & _ & [Hx _]).
  destruct (do_request_posts s _ cb token (lv_ready _ (lo_live _ _ _ Hl)) Hv) as (stat' & s1 & E' & _ & H).
  rewrite E in E'. injection E' as <- <-.
  destruct H as [(_ & Eq' & _) | (q' & [Eq' _ _ _ _ _ [Hf Hcb'] Ha _])].
  { rewrite Eq' in Eq. apply (f_equal length) in Eq. rewrite length_app in Eq. cbn in Eq. lia. }
  rewrite Eq' in Eq. apply app_inv_head in Eq as [= ->]. destruct Ha as (Ha & _ & Ew).
  assert (r_queue s' !! length (r_queue s) = Some q) as Hi by (by rewrite Eq', list_lookup_middle).
  rewrite my_recv_eq, (reply_xid _ _ _ Hc (xids_ok_word _ _ _ _ _ Hx Hi) Hp). cbn [mbind outcome_bind].
  rewrite (take_xid_lookup _ _ _ (xi_diff _ _ _ Hx) Hi). unfold handle. rewrite Hf. cbn [request_func].
  apply (write_cb_freed p (q_xid q)) with (b := b); try done.
  - lia.
  - by eapply xids_ok_word.
  - by rewrite Hcb'.
  - cbn [r_wraps set_r_queue]. rewrite Ew, Ha. destruct (Z.eqb_spec stat RPC_OK); [done |].
    apply lookup_delete_eq.
Qed.

(** The same library on a network that is down. *)
Definition unplugged : rpc_state :=
  mk_rpc_state [] 0 ROOT_PORT_MIN 1 ∅ {[1 := (ROOT_PORT_MIN, 2049)]} 2 None [] []
    (mk_rpc_env (λ _, true) (λ _, true) (λ _ _, 0) (λ _, true) (λ _, ERR_RTE) (en_stack good_env)) 0.

Definition write_failed : rpc_state :=
  match do_request (RWrite 7 0 1 [97]) (CbWrite cb_nfs_dev_write_handler) 5 unplugged with
  | Ret (_, s') => s'
  | Fault _ => unplugged
  end.

Lemma unplugged_ok : lib_ok 0 0 unplugged.
Proof.
  split; [by split; [| constructor | constructor] |].
  split; [split; [discriminate | by exists (ROOT_PORT_MIN, 2049) | done] | constructor].
Qed.

Lemma write_failed_queue :
  ∃ p, r_queue write_failed = [mk_item 1 p 1 0 nfs_write_cb (CbWrite cb_nfs_dev_write_handler) 2].
Proof. eexists. vm_compute. reflexivity. Qed.

Lemma unsent_write_dangles_witness :
  my_recv handle [reply_bytes 1 (BodyAttr (replicate 17 3))] write_failed = Fault Dangling.
Proof.
  destruct write_failed_queue as [p Eq].
  apply (unsent_write_dangles 0 0 unplugged 7 0 1 [97] (CbWrite cb_nfs_dev_write_handler) 5 RPCERR_COMM
           write_failed (mk_item 1 p 1 0 nfs_write_cb (CbWrite cb_nfs_dev_write_handler) 2) _
           (BodyAttr (replicate 17 3))).
  - exact unplugged_ok.
  - lia.
  - lia.
  - split; [split; lia | by split].
  - discriminate.
  - vm_compute. reflexivity.
  - discriminate.
  - exact Eq.
  - reflexivity.
  - reflexivity.
  - split; [by right |]. split; [| reflexivity]. apply Forall_replicate. split; lia.
Defined.
