(* ===== verification/RpcCall.v ===== *)
(** Waiting for a reply.

    [rpc_call] sleeps until the reply is there or it gives up: the loops of
    libnfs end, and when [rpc_call] returns no request refers to its variables
    any more, except when its packet could not be sent. *)

From S2P Require Import Prelude UtAllocator Sos Pbuf Rpc Nfs Mount RpcInv NfsWire NfsRecv NfsQueue.

(** * Loops end *)

Definition ends {A : Type} (o : outcome A) : Prop := o ≠ Fault OutOfFuel.
Definition endsN {A : Type} (m : N A) : Prop := ∀ s, ends (m s).

Lemma ends_Ret {A : Type} (a : A) : ends (Ret a).
Proof. done. Qed.

Lemma ends_bind {A B : Type} (m : outcome A) (k : A → outcome B) :
  ends m → (∀ a, m = Ret a → ends (k a)) → ends (m ≫= k).
Proof. unfold ends. destruct m; cbn; [auto | congruence]. Qed.

Lemma ends_assert c : ends (c_assert c).
Proof. by destruct c. Qed.

Lemma ends_rd {A : Type} (l : list A) i : ends (rd l i).
Proof. unfold rd, ends. case_decide; [| done]. by destruct (l !! Z.to_nat i). Qed.

Create HintDb ends.
#[export] Hint Resolve ends_Ret ends_assert ends_rd : ends.

(** Go through a function; calls are closed by the hints. *)
Ltac ends_step :=
  match goal with
  | |- ends (_ ≫= _) => apply ends_bind; [| intros ? ?]
  | |- ends (let _ := _ in _) => cbv zeta
  | |- ends (match ?x with _ => _ end) => destruct x eqn:?
  | |- ends (Ret _) => apply ends_Ret
  | |- ends (Fault _) => unfold ends; discriminate
  | |- ends _ => solve [eauto 3 with ends]
  end.

Ltac ends := repeat ends_step.

Lemma ends_pb_read p count pos : ends (pb_read p count pos).
Proof. unfold pb_read. ends. Qed.
#[export] Hint Resolve ends_pb_read : ends.

Lemma ends_pb_read_arrl p size pos : ends (pb_read_arrl p size pos).
Proof. unfold pb_read_arrl. ends. Qed.
#[export] Hint Resolve ends_pb_read_arrl : ends.

Lemma ends_pb_readl p pos : ends (pb_readl p pos).
Proof. unfold pb_readl. ends. Qed.
#[export] Hint Resolve ends_pb_readl : ends.

Lemma ends_pb_read_str p maxlen pos : ends (pb_read_str p maxlen pos).
Proof. unfold pb_read_str. ends. Qed.
#[export] Hint Resolve ends_pb_read_str : ends.

Lemma ends_rpc_read_hdr p : ends (rpc_read_hdr p).
Proof. unfold rpc_read_hdr. ends. Qed.
#[export] Hint Resolve ends_rpc_read_hdr : ends.

Lemma ends_reply_status p : ends (reply_status p).
Proof. unfold reply_status. ends. Qed.
#[export] Hint Resolve ends_reply_status : ends.

Lemma ends_read_fattr p pos : ends (read_fattr p pos).
Proof. unfold read_fattr. ends. Qed.
#[export] Hint Resolve ends_read_fattr : ends.

Lemma ends_take_write p data left offset : ends (take_write p data left offset).
Proof.
  revert data left offset. induction p as [|seg p IH]; intros data left offset; cbn [take_write]; ends.
Qed.
#[export] Hint Resolve ends_take_write : ends.

Lemma ends_take_seek p data left offset : ends (take_seek p data left offset).
Proof.
  revert offset. induction p as [|seg p IH]; intros offset; cbn [take_seek]; ends.
Qed.
#[export] Hint Resolve ends_take_seek : ends.

Lemma ends_pb_write p data count pos : ends (pb_write p data count pos).
Proof. unfold pb_write, pbuf_take_partial. ends. Qed.
#[export] Hint Resolve ends_pb_write : ends.

Lemma ends_pb_write_arrl p arr pos : ends (pb_write_arrl p arr pos).
Proof. unfold pb_write_arrl. ends. Qed.
#[export] Hint Resolve ends_pb_write_arrl : ends.

Lemma ends_pb_writel p v pos : ends (pb_writel p v pos).
Proof. unfold pb_writel. ends. Qed.
#[export] Hint Resolve ends_pb_writel : ends.

Lemma ends_pb_write_str p str len pos : ends (pb_write_str p str len pos).
Proof. unfold pb_write_str. ends. Qed.
#[export] Hint Resolve ends_pb_write_str : ends.

Lemma ends_rpc_write_hdr xid p prog vers proc : ends (rpc_write_hdr xid p prog vers proc).
Proof. unfold rpc_write_hdr. ends. Qed.
#[export] Hint Resolve ends_rpc_write_hdr : ends.

Lemma ends_pbuf_trim p n : ends (pbuf_trim p n).
Proof. revert n. induction p as [|seg p IH]; intros n; cbn [pbuf_trim]; ends. Qed.
#[export] Hint Resolve ends_pbuf_trim : ends.

Lemma ends_pbuf_realloc p n : ends (pbuf_realloc p n).
Proof. unfold pbuf_realloc. ends. Qed.
#[export] Hint Resolve ends_pbuf_realloc : ends.

Lemma ends_extract_xid p : ends (extract_xid p).
Proof. unfold extract_xid. ends. Qed.
#[export] Hint Resolve ends_extract_xid : ends.

(** Every turn of [pbuf_copy] finishes a segment. *)
Lemma ends_pbuf_copy_loop fuel p_to p_from off_to off_from :
  p_to ≠ [] → p_from ≠ [] → (length p_to + length p_from ≤ fuel)%nat →
  0 ≤ off_to ≤ Zlength (default [] (head p_to)) → 0 ≤ off_from ≤ Zlength (default [] (head p_from)) →
  ends (pbuf_copy_loop fuel p_to p_from off_to off_from).
Proof.
  revert p_to p_from off_to off_from. induction fuel as [|fuel IH]; intros p_to p_from off_to off_from Ht Hf Hl Ho1 Ho2.
  { destruct p_to; [done | cbn [length] in Hl; lia]. }
  destruct p_to as [|to p_to]; [done |]. destruct p_from as [|from p_from]; [done |].
  change (0 ≤ off_to ≤ Zlength to) in Ho1. change (0 ≤ off_from ≤ Zlength from) in Ho2.
  cbn [pbuf_copy_loop]. cbn [length] in Hl.
  set (len := if Zlength from - off_from <=? Zlength to - off_to
              then Zlength from - off_from else Zlength to - off_to).
  assert (len = Z.min (Zlength from - off_from) (Zlength to - off_to)) as Elen
    by (unfold len; destruct (Z.leb_spec (Zlength from - off_from) (Zlength to - off_to)); lia).
  clearbody len. set (to' := splice to off_to (slice from off_from len)).
  assert (Zlength to' = Zlength to) as El.
  { unfold to', Zlength. rewrite length_splice; [done | lia |]. rewrite Zlength_slice by lia. lia. }
  rewrite El.
  destruct (Z.leb_spec (Zlength from) (off_from + len)), (Z.eqb_spec (off_to + len) (Zlength to)); try lia;
    ends; try apply IH; try done; cbn [length] in *; try lia.
  all: repeat match goal with
       | H : bool_decide (?p = []) && _ = false |- ?p ≠ [] => intros ->; cbn in H
       | H : bool_decide (?p = []) = false |- ?p ≠ [] => by apply bool_decide_eq_false in H
       end.
  all: try discriminate; try (split; [done | apply Zlength_nonneg]).
  all: change (0 ≤ off_to + len ≤ Zlength to') || change (0 ≤ off_from + len ≤ Zlength from) || idtac; lia.
Qed.

Lemma ends_pbuf_copy p_to p_from : ends (pbuf_copy p_to p_from).
Proof.
  unfold pbuf_copy. destruct (bool_decide (p_to = [])) eqn:E1; [done |].
  destruct (bool_decide (p_from = [])) eqn:E2; [done |]. cbn [orb]. ends.
  apply bool_decide_eq_false in E1, E2.
  apply ends_pbuf_copy_loop; try done; (split; [done | apply Zlength_nonneg]).
Qed.
#[export] Hint Resolve ends_pbuf_copy : ends.

(** * The same for computations with the state of libnfs *)

Lemma endsN_bind {A B : Type} (m : N A) (k : A → N B) :
  endsN m → (∀ a, endsN (k a)) → endsN (m ≫= k).
Proof.
  intros Hm Hk s. specialize (Hm s). unfold ends, mbind, N_bind in *.
  destruct (m s) as [[a s1] |]; [apply Hk | congruence].
Qed.

Lemma endsN_lift {A : Type} (o : outcome A) : ends o → endsN (liftN o).
Proof. intros H s. unfold liftN, ends in *. destruct o; cbn; congruence. Qed.

Lemma endsN_ret {A : Type} (a : A) : endsN (mret a).
Proof. done. Qed.
Lemma endsN_gets {A : Type} (f : rpc_state → A) : endsN (getsN f).
Proof. done. Qed.
Lemma endsN_mod f : endsN (modN f).
Proof. done. Qed.
Lemma endsN_ask {A : Type} (f : rpc_env → nat → A) : endsN (askN f).
Proof. done. Qed.
Lemma endsN_fresh : endsN fresh.
Proof. done. Qed.
Lemma endsN_assert c : endsN (assertN c).
Proof. apply endsN_lift, ends_assert. Qed.
Lemma endsN_fail {A : Type} f : f ≠ OutOfFuel → endsN (failN f : N A).
Proof. intros H s. unfold failN, ends. congruence. Qed.

#[export] Hint Resolve endsN_ret endsN_gets endsN_mod endsN_ask endsN_fresh endsN_assert endsN_lift : ends.

Ltac endsN :=
  repeat match goal with
  | |- endsN (_ ≫= _) => apply endsN_bind; [| intros ?]
  | |- endsN (let _ := _ in _) => cbv zeta
  | |- endsN (match ?x with _ => _ end) => destruct x
  | |- endsN (failN _) => apply endsN_fail; discriminate
  | |- endsN (liftN _) => apply endsN_lift; ends
  | |- endsN _ => solve [eauto 2 with ends]
  end.

Lemma endsN_my_udp_send pcb p : endsN (my_udp_send pcb p).
Proof. unfold my_udp_send, pbuf_new, udp_send. endsN. Qed.
#[export] Hint Resolve endsN_my_udp_send : ends.

Lemma endsN_timeout_items ms l : endsN (timeout_items ms l).
Proof. induction l as [|q l IH]; cbn [timeout_items]; unfold timeout_item; endsN. Qed.
#[export] Hint Resolve endsN_timeout_items : ends.

Lemma endsN_rpc_timeout ms : endsN (rpc_timeout ms).
Proof. unfold rpc_timeout. endsN. Qed.
#[export] Hint Resolve endsN_rpc_timeout : ends.

Lemma endsN_get_from_queue xid : endsN (get_from_queue xid).
Proof. unfold get_from_queue. endsN. Qed.
#[export] Hint Resolve endsN_get_from_queue : ends.

Lemma endsN_rpc_send p len pcb func cb token : endsN (rpc_send p len pcb func cb token).
Proof. unfold rpc_send, add_to_queue. endsN. Qed.
#[export] Hint Resolve endsN_rpc_send : ends.

Lemma endsN_rpcpbuf_init prog vers proc : endsN (rpcpbuf_init prog vers proc).
Proof. unfold rpcpbuf_init, pbuf_new, get_xid. endsN. Qed.
#[export] Hint Resolve endsN_rpcpbuf_init : ends.

Lemma endsN_rpc_new_udp port root : endsN (rpc_new_udp port root).
Proof. unfold rpc_new_udp. endsN. Qed.
#[export] Hint Resolve endsN_rpc_new_udp : ends.

(** * Lists in replies *)

Lemma pb_read_pos p count pos d pos' :
  pb_read p count pos = Ret (d, pos') → pos' = pos + count ∧ 0 ≤ count ∧ pos' ≤ tot_len p.
Proof.
  unfold pb_read. intros H. inv_bind H.
  apply c_assert_Ret, Z.leb_le in E. apply c_assert_Ret, Z.leb_le in E0. apply c_assert_Ret, Z.eqb_eq in E1.
  injection H as <- <-. pose proof (Zlength_nonneg (pbuf_copy_partial p (u16 count) (u16 pos))). lia.
Qed.

Lemma pb_readl_pos p pos v pos' : pb_readl p pos = Ret (v, pos') → pos' = pos + 4 ∧ pos' ≤ tot_len p.
Proof.
  unfold pb_readl, pb_read_arrl. intros H. destruct (pb_read p 4 pos) as [[d pos1] |] eqn:E; [| done].
  apply pb_read_pos in E. injection H as _ <-. lia.
Qed.

Lemma pb_alignl_ge pos : pos ≤ pb_alignl pos.
Proof. unfold pb_alignl. rewrite ROUNDUP_4. divmod. Qed.

Lemma endsN_bind_lift {A B : Type} (o : outcome A) (k : A → N B) :
  ends o → (∀ a, o = Ret a → endsN (k a)) → endsN (liftN o ≫= k).
Proof.
  intros Ho Hk s. unfold mbind, N_bind, liftN, ends in *. destruct o; cbn; [by apply Hk | congruence].
Qed.

(** Read a word or some bytes, and note how far that went. *)
Tactic Notation "read_on" ident(v) ident(pos) :=
  apply endsN_bind_lift || apply ends_bind;
  [ends | let E := fresh "E" in intros [v pos] E; apply pb_readl_pos in E || apply pb_read_pos in E].

Lemma endsN_readdir_entries fuel p pos cookie :
  tot_len p - pos < Z.of_nat fuel → 0 < Z.of_nat fuel → endsN (readdir_entries fuel p pos cookie).
Proof.
  revert pos cookie. induction fuel as [|fuel IH]; intros pos cookie Hf Hf0; [lia |].
  cbn [readdir_entries]. read_on more pos1. destruct (more =? 0); [endsN |].
  read_on fileid pos2. read_on size pos3.
  apply endsN_bind; [endsN |]. intros [|]; cbn [negb]; [| destruct (size =? 0); endsN].
  read_on name pos4. cbv zeta. read_on next pos5.
  apply endsN_bind; [endsN |]. intros [|]; cbn [negb]; [| endsN].
  apply endsN_bind; [| intros [? ?]; endsN]. pose proof (pb_alignl_ge pos4). apply IH; lia.
Qed.

Lemma pb_read_str_pos p maxlen pos str pos' :
  pb_read_str p maxlen pos = Ret (str, pos') → pos + 4 ≤ pos' ∧ pos + 4 ≤ tot_len p.
Proof.
  unfold pb_read_str. intros H.
  destruct (pb_readl p pos) as [[n pos1] |] eqn:E1; [| done]. cbn [mbind outcome_bind] in H.
  destruct (c_assert (n <? u32 (maxlen - 1))); [| done]. cbn [mbind outcome_bind] in H.
  destruct (pb_read p (i32 n) pos1) as [[d pos2] |] eqn:E2; [| done]. injection H as _ <-.
  apply pb_readl_pos in E1. apply pb_read_pos in E2. pose proof (pb_alignl_ge pos2). lia.
Qed.

Lemma ends_export_groups fuel p pos :
  tot_len p - pos < Z.of_nat fuel → 0 < Z.of_nat fuel →
  ends (export_groups fuel p pos) ∧
  ∀ l pos', export_groups fuel p pos = Ret (l, pos') → pos < pos'.
Proof.
  revert pos. induction fuel as [|fuel IH]; intros pos Hf Hf0; [lia |]. cbn [export_groups].
  destruct (pb_readl p pos) as [[opt pos1] |] eqn:E1.
  2: { pose proof (ends_pb_readl p pos) as He. rewrite E1 in He. split; [| done].
       unfold ends in *. cbn. congruence. }
  apply pb_readl_pos in E1. cbn [mbind outcome_bind].
  destruct (opt =? 0); [split; [done | intros ? ? [= _ <-]; lia] |].
  destruct (pb_read_str p 100 pos1) as [[str pos2] |] eqn:E2.
  2: { pose proof (ends_pb_read_str p 100 pos1) as He. rewrite E2 in He. split; [| done].
       unfold ends in *. cbn. congruence. }
  apply pb_read_str_pos in E2. cbn [mbind outcome_bind]. destruct (IH pos2) as [He Hp]; [lia.. |].
  destruct (export_groups fuel p pos2) as [[l pos3] |] eqn:E3; cbn [mbind outcome_bind].
  - split; [done |]. intros ? ? [= _ <-]. specialize (Hp _ _ eq_refl). lia.
  - split; [| done]. unfold ends in *. congruence.
Qed.

Lemma ends_export_list fuel p pos :
  tot_len p - pos < Z.of_nat fuel → 0 < Z.of_nat fuel → 0 ≤ pos → ends (export_list fuel p pos).
Proof.
  revert pos. induction fuel as [|fuel IH]; intros pos Hf Hf0 Hp; [lia |]. cbn [export_list].
  read_on opt pos1. destruct (opt =? 0); [done |].
  apply ends_bind; [ends |]. intros [str pos2] E2. apply pb_read_str_pos in E2.
  pose proof (tot_len_nonneg p).
  destruct (ends_export_groups (S (Z.to_nat (tot_len p))) p pos2) as [He Hpos]; [lia.. |].
  apply ends_bind; [done |]. intros [groups pos3] E3. apply Hpos in E3.
  apply ends_bind; [apply IH; lia |]. intros. done.
Qed.

Lemma pb_read_arrl_pos p size pos l pos' :
  pb_read_arrl p size pos = Ret (l, pos') → pos ≤ pos'.
Proof.
  unfold pb_read_arrl. intros H. destruct (pb_read p size pos) as [[d pos1] |] eqn:E; [| done].
  apply pb_read_pos in E. injection H as _ <-. lia.
Qed.

Lemma rpc_read_hdr_pos p err pos : rpc_read_hdr p = Ret (err, pos) → 0 ≤ pos.
Proof.
  unfold rpc_read_hdr. intros H.
  destruct (pb_read_arrl p 12 0) as [[hdr pos1] |] eqn:E1; [| done]. apply pb_read_arrl_pos in E1.
  cbn [mbind outcome_bind] in H. destruct (rd hdr 1) as [mt |]; [| done]. cbn [mbind outcome_bind] in H.
  destruct (rd hdr 2) as [st |]; [| done]. cbn [mbind outcome_bind] in H.
  destruct (negb (mt =? MSG_REPLY)); [by injection H as _ <- |].
  destruct (negb (st =? MSG_ACCEPTED)).
  - destruct (pb_readl p pos1) as [[e pos2] |] eqn:E2; [| done]. apply pb_readl_pos in E2.
    cbn [mbind outcome_bind] in H. destruct (e =? 1); [| injection H as _ <-; lia].
    destruct (pb_readl p pos2) as [[e' pos3] |] eqn:E3; [| done]. apply pb_readl_pos in E3.
    injection H as _ <-. lia.
  - destruct (pb_read_arrl p 8 pos1) as [[auth pos2] |] eqn:E2; [| done]. apply pb_read_arrl_pos in E2.
    cbn [mbind outcome_bind] in H. destruct (rd auth 0) as [fl |]; [| done]. cbn [mbind outcome_bind] in H.
    destruct (c_assert (fl =? AUTH_NULL)); [| done]. cbn [mbind outcome_bind] in H.
    destruct (pb_readl p pos2) as [[e pos3] |] eqn:E3; [| done]. apply pb_readl_pos in E3.
    injection H as _ <-. lia.
Qed.

Lemma ends_exports_reply p : ends (exports_reply p).
Proof.
  unfold exports_reply. apply ends_bind; [ends |]. intros [err pos] E. apply rpc_read_hdr_pos in E.
  destruct (err =? RPCERR_OK); [| done]. pose proof (tot_len_nonneg p).
  apply ends_bind; [apply ends_export_list; lia | done].
Qed.
#[export] Hint Resolve ends_exports_reply : ends.

Lemma ends_call_reply f p : ends (call_reply f p).
Proof. unfold call_reply, getport_reply, mount_reply. ends. Qed.
#[export] Hint Resolve ends_call_reply : ends.

Lemma endsN_readdir_cb cb token p : endsN (_nfs_readdir_cb cb token p).
Proof.
  unfold _nfs_readdir_cb, reply_start. apply endsN_bind; [endsN |]. intros r.
  apply endsN_bind_lift; [ends |]. intros [[status pos] |] E; [| unfold call_back; endsN].
  assert (0 ≤ pos) as Hp.
  { unfold reply_status in E. destruct (rpc_read_hdr p) as [[e pos1] |] eqn:E1; [| done].
    apply rpc_read_hdr_pos in E1. cbn [mbind outcome_bind] in E. destruct (e =? RPCERR_OK); [| done].
    destruct (pb_readl p pos1) as [[v pos2] |] eqn:E2; [| done]. apply pb_readl_pos in E2.
    injection E as _ <-. lia. }
  cbv zeta. destruct (status =? NFS_OK); [| unfold call_back; endsN]. pose proof (tot_len_nonneg p).
  apply endsN_bind; [apply endsN_readdir_entries; unfold readdir_fuel; lia |]. intros [names cookie].
  unfold call_back. endsN.
Qed.

Lemma endsN_handle q p : endsN (handle q p).
Proof.
  unfold handle. destruct (q_func q); try apply endsN_readdir_cb;
    unfold _nfs_create_cb, _nfs_getattr_cb, _nfs_lookup_cb, _nfs_read_cb, _nfs_write_cb, _nfs_remove_cb,
      rpc_call_reply, reply_start, call_back; endsN.
Qed.
#[export] Hint Resolve endsN_handle : ends.

Lemma endsN_rpc_input packets : endsN (rpc_input handle packets).
Proof. induction packets as [|p l IH]; cbn [rpc_input]; unfold my_recv; endsN. Qed.
#[export] Hint Resolve endsN_rpc_input : ends.

(** Each turn of the loop takes [CALL_TIMEOUT_MS] off the time that is left. *)
Lemma endsN_rpc_wait fuel arrivals i time_out :
  time_out < CALL_TIMEOUT_MS * (Z.of_nat fuel - 1) → (0 < fuel)%nat →
  endsN (rpc_wait fuel handle arrivals i time_out).
Proof.
  unfold CALL_TIMEOUT_MS. revert i time_out. induction fuel as [|fuel IH]; intros i t Ht Hf; [lia |].
  cbn [rpc_wait]. destruct (Z.ltb_spec t 0); [endsN |].
  assert (endsN (_ ← rpc_timeout CALL_TIMEOUT_MS;
                 rpc_wait fuel handle arrivals (S i) (t - CALL_TIMEOUT_MS))) as Hrest.
  { apply endsN_bind; [endsN |]. intros _. unfold CALL_TIMEOUT_MS. apply IH; lia. }
  apply endsN_bind; [endsN |]. intros _. apply endsN_bind; [endsN |]. intros [[addr f [r |]] |]; try done.
Qed.

Lemma endsN_rpc_call arrivals p len pcb f : endsN (rpc_call handle arrivals p len pcb f).
Proof.
  unfold rpc_call. endsN. apply endsN_rpc_wait; [done | unfold rpc_wait_fuel; lia].
Qed.
#[export] Hint Resolve endsN_rpc_call : ends.

Lemma ends_time_recv seconds packets : ends (time_recv seconds packets).
Proof. revert seconds. induction packets as [|p l IH]; intros seconds; cbn [time_recv]; ends. Qed.
#[export] Hint Resolve ends_time_recv : ends.

Lemma ends_time_wait n arrivals i seconds : ends (time_wait n arrivals i seconds).
Proof. revert i seconds. induction n as [|n IH]; intros i seconds; cbn [time_wait]; ends. Qed.
#[export] Hint Resolve ends_time_wait : ends.

Lemma endsN_time_tries n arrivals pcb i seconds : endsN (time_tries n arrivals pcb i seconds).
Proof.
  revert i seconds. induction n as [|n IH]; intros i seconds; cbn [time_tries]; unfold pbuf_new, udp_send; endsN.
Qed.
#[export] Hint Resolve endsN_time_tries : ends.

Lemma endsN_getport arrivals prog vers : endsN (portmapper_getport arrivals prog vers).
Proof. unfold portmapper_getport, udp_remove. endsN. Qed.
#[export] Hint Resolve endsN_getport : ends.

Lemma endsN_network_mount arr dir : endsN (network_mount arr dir).
Proof.
  unfold network_mount, nfs_init, init_rpc, udp_time_get, seed_xid, nfs_print_exports, mountd_print_exports,
    nfs_mount, mountd_mount, mnt_new_udp, udp_remove. endsN.
Qed.

(** * Every step of libnfs *)

Lemma endsN_do_request r cb token : endsN (do_request r cb token).
Proof.
  destruct r; cbn [do_request];
    unfold nfs_getattr, nfs_lookup, nfs_read, nfs_write, nfs_create, nfs_remove, nfs_readdir, nfs_send,
      write_dirop, write_args; endsN.
Qed.

Lemma endsN_my_recv_handle p : endsN (my_recv handle p).
Proof. unfold my_recv, get_from_queue, extract_xid. endsN. Qed.

(** [C32] The loops of libnfs end, whatever the network does: those of a request,
    of a packet of any contents, of a timeout, and those of the start, where the
    time server, the portmapper and the mount service are waited for. *)
Theorem libnfs_terminates :
  (∀ r cb token s, do_request r cb token s ≠ Fault OutOfFuel) ∧
  (∀ p s, my_recv handle p s ≠ Fault OutOfFuel) ∧
  (∀ s, nfs_timeout s ≠ Fault OutOfFuel) ∧
  (∀ arrivals dir s, network_mount arrivals dir s ≠ Fault OutOfFuel).
Proof.
  split_and!.
  - exact endsN_do_request.
  - exact endsN_my_recv_handle.
  - exact (endsN_rpc_timeout 100).
  - exact endsN_network_mount.
Qed.

(** * The variables of [rpc_call] *)

(** A request that refers to the variables at [addr]. *)
Definition refers (addr : Z) (q : rpc_item) : Prop := q_func q = rpc_call_cb ∧ q_arg q = addr.

Definition unreferred (addr : Z) (l : list rpc_item) : Prop := Forall (λ q, ¬ refers addr q) l.

#[export] Instance refers_dec addr q : Decision (refers addr q).
Proof. unfold refers. apply _. Defined.

(** While [rpc_call] waits, exactly its own request refers to its variables, and
    none once the reply has come. *)
Record calling (addr xid : Z) (f : call_func) (res : option call_result) (s : rpc_state) : Prop := {
  cl_xids : NoDup (q_xid <$> r_queue s);
  cl_call : r_call s = Some (mk_call_arg addr f res);
  cl_item :
    match res with
    | None => ∃ k q, r_queue s !! k = Some q ∧ q_xid q = xid ∧ refers addr q ∧
                unreferred addr (delete k (r_queue s))
    | Some _ => unreferred addr (r_queue s)
    end
}.

Lemma delete_NoDup l k : NoDup (q_xid <$> l) → NoDup (q_xid <$> delete k l).
Proof.
  intros H. eapply sublist_NoDup; [exact H |].
  rewrite delete_take_drop, fmap_app, fmap_take, fmap_drop, <- delete_take_drop. apply sublist_delete.
Qed.

(** Deleting another item leaves ours in the queue. *)
Lemma delete_other addr l j k q q' :
  l !! j = Some q' → l !! k = Some q → j ≠ k → unreferred addr (delete k l) →
  ¬ refers addr q' ∧
  ∃ k', delete j l !! k' = Some q ∧ unreferred addr (delete k' (delete j l)).
Proof.
  intros Hj Hk Hne Hu. unfold unreferred in *. rewrite Forall_lookup in Hu.
  assert (∀ i x, l !! i = Some x → i ≠ k → ¬ refers addr x) as Hu'.
  { intros i x Hi Hik. destruct (decide (i < k)%nat).
    - apply (Hu i). by rewrite list_lookup_delete_lt.
    - apply (Hu (i - 1)%nat). rewrite list_lookup_delete_ge by lia. by replace (S (i - 1)) with i by lia. }
  split; [by apply (Hu' j) |].
  destruct (decide (j < k)%nat) as [Hlt | Hge].
  - exists (k - 1)%nat. rewrite list_lookup_delete_ge by lia. replace (S (k - 1)) with k by lia.
    split; [done |]. apply Forall_lookup. intros i x Hi. destruct (decide (i < k - 1)%nat).
    + rewrite list_lookup_delete_lt in Hi by lia. destruct (decide (i < j)%nat).
      * rewrite list_lookup_delete_lt in Hi by lia. apply (Hu' i); [done | lia].
      * rewrite list_lookup_delete_ge in Hi by lia. apply (Hu' (S i)); [done | lia].
    + rewrite list_lookup_delete_ge in Hi by lia. rewrite list_lookup_delete_ge in Hi by lia.
      apply (Hu' (S (S i))); [done | lia].
  - exists k. rewrite list_lookup_delete_lt by lia. split; [done |]. apply Forall_lookup. intros i x Hi.
    destruct (decide (i < k)%nat).
    + rewrite list_lookup_delete_lt in Hi by lia. rewrite list_lookup_delete_lt in Hi by lia.
      apply (Hu' i); [done | lia].
    + rewrite list_lookup_delete_ge in Hi by lia. destruct (decide (S i < j)%nat).
      * rewrite list_lookup_delete_lt in Hi by lia. apply (Hu' (S i)); [done | lia].
      * rewrite list_lookup_delete_ge in Hi by lia. apply (Hu' (S (S i))); [done | lia].
Qed.

(** Another item's reply does not touch the variables. *)
Lemma handle_other addr f res q p s s' :
  r_call s = Some (mk_call_arg addr f res) → ¬ refers addr q → handle q p s = Ret (tt, s') →
  r_queue s' = r_queue s ∧ r_call s' = r_call s.
Proof.
  intros Hc Hr E. destruct (decide (q_func q = rpc_call_cb)) as [Hf | Hf].
  - unfold handle in E. rewrite Hf in E. unfold rpc_call_reply in E. ninv E.
    rewrite Hc in *. cbn [ca_addr] in *.
    destruct (Z.eqb_spec addr (q_arg q)) as [Ha |]; [| done]. by destruct Hr.
  - split; [by eapply (keeps_view_nfs r_queue) in E | by eapply (keeps_view_nfs r_call) in E].
Qed.

Lemma recv_calling addr xid f s p s' :
  calling addr xid f None s → my_recv handle p s = Ret (tt, s') →
  calling addr xid f None s' ∨
  ∃ r, extract_xid p = Ret xid ∧ call_reply f p = Ret r ∧ calling addr xid f (Some r) s'.
Proof.
  intros [Hd Hc (k & q & Hk & Hx & Hr & Hu)]. rewrite my_recv_eq.
  destruct (extract_xid p) as [x |] eqn:Ex; [| done]. cbn [mbind outcome_bind].
  destruct (take_xid x (r_queue s)) as [[q' l] |] eqn:E.
  2: { intros [= <-]. left. split; [done.. |]. by exists k, q. }
  apply take_xid_Some in E as (<- & j & Hj & ->). intros H.
  destruct (decide (j = k)) as [-> | Hne].
  - assert (q' = q) as -> by congruence. right. destruct Hr as [Hf Ha].
    unfold handle in H. rewrite Hf in H. unfold rpc_call_reply in H. rewrite Ha in H. ninv H.
    cbn [r_call set_r_queue] in *. rewrite Hc in *. cbn [ca_addr ca_func] in *. rewrite Z.eqb_refl in *.
    match goal with H' : _ = Ret (tt, s') |- _ => ninv H' end.
    match goal with H' : modN _ _ = Ret (tt, s') |- _ => injection H' as <- end.
    match goal with E : call_reply f p = Ret ?r |- _ => exists r end.
    split; [by rewrite Hx |]. split; [done |]. split; [by apply delete_NoDup | done | done].
  - destruct (delete_other addr (r_queue s) j k q q' Hj Hk Hne Hu) as (Hq' & k' & Hk' & Hu').
    destruct (handle_other addr f None q' p (set_r_queue (delete j (r_queue s)) s) s' Hc Hq' H)
      as [Eq Ec]. left.
    split; [rewrite Eq; by apply delete_NoDup | by rewrite Ec |]. rewrite Eq. by exists k', q.
Qed.

Lemma recv_called addr xid f r s p s' :
  calling addr xid f (Some r) s → my_recv handle p s = Ret (tt, s') → calling addr xid f (Some r) s'.
Proof.
  intros [Hd Hc Hu]. rewrite my_recv_eq.
  destruct (extract_xid p) as [x |] eqn:Ex; [| done]. cbn [mbind outcome_bind].
  destruct (take_xid x (r_queue s)) as [[q' l] |] eqn:E; [| by intros [= <-]].
  apply take_xid_Some in E as (<- & j & Hj & ->). intros H.
  assert (¬ refers addr q') as Hq' by (unfold unreferred in Hu; rewrite Forall_lookup in Hu; by eapply Hu).
  destruct (handle_other addr f (Some r) q' p (set_r_queue (delete j (r_queue s)) s) s' Hc Hq' H)
      as [Eq Ec].
  split; [rewrite Eq; by apply delete_NoDup | by rewrite Ec |]. rewrite Eq. by apply Forall_delete.
Qed.

(** What the packets of one sleep did to the call. *)
Definition answered (addr xid : Z) (f : call_func) (packets : list pbuf) (s' : rpc_state) : Prop :=
  ∃ r p, p ∈ packets ∧ extract_xid p = Ret xid ∧ call_reply f p = Ret r ∧ calling addr xid f (Some r) s'.

Lemma input_called addr xid f r packets s s' :
  calling addr xid f (Some r) s → rpc_input handle packets s = Ret (tt, s') → calling addr xid f (Some r) s'.
Proof.
  revert s. induction packets as [|p l IH]; intros s H E; cbn [rpc_input] in E; [by injection E as <- |].
  apply N_bind_Ret in E as ([] & s1 & E1 & E2). eapply IH; [| exact E2]. by eapply recv_called.
Qed.

Lemma input_calling addr xid f packets s s' :
  calling addr xid f None s → rpc_input handle packets s = Ret (tt, s') →
  calling addr xid f None s' ∨ answered addr xid f packets s'.
Proof.
  revert s. induction packets as [|p l IH]; intros s H E; cbn [rpc_input] in E.
  - injection E as <-. by left.
  - apply N_bind_Ret in E as ([] & s1 & E1 & E2).
    destruct (recv_calling _ _ _ _ _ _ H E1) as [H1 | (r & Ex & Er & H1)].
    + destruct (IH s1 H1 E2) as [H2 | (r & p' & Hp & H2)]; [by left |]. right. exists r, p'.
      split; [by right | done].
    + right. exists r, p. split_and!; [by left | done | done |]. by eapply input_called.
Qed.

(** * Retransmission while waiting *)

Section send_view.
Context {T : Type} (g : rpc_state → T).
Context (Ht : ∀ n s, g (set_r_tick n s) = g s) (Hs : ∀ l s, g (set_r_sent l s) = g s).

Lemma udp_send_keeps pcb p : keeps_view g (udp_send pcb p).
Proof.
  unfold udp_send. apply keeps_view_bind; [apply keeps_view_gets |]. intros pcbs.
  destruct (negb _); [apply keeps_view_fail |].
  apply keeps_view_bind; [by apply keeps_view_ask |]. intros err.
  apply keeps_view_bind; [| intros; apply keeps_view_ret].
  destruct (err =? ERR_OK); [apply keeps_view_mod; intros; apply Hs | apply keeps_view_ret].
Qed.

Lemma my_udp_send_keeps pcb p : keeps_view g (my_udp_send pcb p).
Proof.
  unfold my_udp_send, pbuf_new. apply keeps_view_bind.
  - apply keeps_view_bind; [by apply keeps_view_ask | intros; apply keeps_view_ret].
  - intros [copy |]; [| apply keeps_view_ret]. apply keeps_view_bind; [apply keeps_view_lift |].
    intros [copied |]; [| apply keeps_view_fail].
    apply keeps_view_bind; [apply udp_send_keeps | intros; apply keeps_view_ret].
Qed.

Lemma timeout_items_keeps ms l : keeps_view g (timeout_items ms l).
Proof.
  induction l as [|q l IH]; cbn [timeout_items]; [apply keeps_view_ret |]. unfold timeout_item.
  apply keeps_view_bind.
  - destruct (_ <? _); [| apply keeps_view_ret].
    apply keeps_view_bind; [apply my_udp_send_keeps | intros; apply keeps_view_ret].
  - intros. apply keeps_view_bind; [done | intros; apply keeps_view_ret].
Qed.
End send_view.

(** Only the timeouts of the requests change. *)
Definition same_request (q q' : rpc_item) : Prop :=
  q_xid q' = q_xid q ∧ q_func q' = q_func q ∧ q_arg q' = q_arg q.

Lemma timeout_items_same ms l s l' s' :
  timeout_items ms l s = Ret (l', s') → Forall2 same_request l l'.
Proof.
  revert s l' s'. induction l as [|q l IH]; intros s l' s' E; cbn [timeout_items] in E.
  - injection E as <- <-. constructor.
  - apply N_bind_Ret in E as (q' & s1 & E1 & E). apply N_bind_Ret in E as (l'' & s2 & E2 & E).
    injection E as <- <-. constructor; [| by eapply IH]. unfold timeout_item in E1.
    destruct (_ <? _); [| by injection E1 as <- <-].
    apply N_bind_Ret in E1 as (err & s3 & _ & E1). injection E1 as <- <-. by destruct (err =? 0).
Qed.

Lemma timeout_calling addr xid f ms s s' :
  calling addr xid f None s → rpc_timeout ms s = Ret (tt, s') → calling addr xid f None s'.
Proof.
  intros [Hd Hc (k & q & Hk & Hx & Hr & Hu)] E. unfold rpc_timeout in E.
  apply N_bind_Ret in E as (l & s0 & E0 & E). injection E0 as <- <-.
  apply N_bind_Ret in E as (l' & s1 & E1 & E). injection E as <-.
  pose proof (timeout_items_keeps r_call ltac:(done) ltac:(done) _ _ _ _ _ E1) as Ec.
  apply timeout_items_same in E1 as Hs.
  assert (q_xid <$> l' = q_xid <$> r_queue s) as Ex.
  { clear -Hs. induction Hs as [|q q' l l' (? & ? & ?) _ IH]; [done |]. cbn [fmap list_fmap]. by f_equal. }
  assert (∀ a m m', Forall2 same_request m m' → unreferred a m → unreferred a m') as Hun.
  { intros a m m' H2 H. unfold unreferred in *. induction H2 as [|x x' m m' (Ea & Eb & Ed) _ IH]; [done |].
    apply Forall_cons in H as [Hx' H]. apply Forall_cons. split; [| by apply IH].
    unfold refers in *. by rewrite Eb, Ed. }
  destruct (Forall2_lookup_l _ _ _ _ _ Hs Hk) as (q' & Hk' & (Ea & Eb & Ed)).
  split; [cbn [r_queue set_r_queue]; by rewrite Ex | cbn [r_call set_r_queue]; by rewrite Ec |].
  exists k, q'. cbn [r_queue set_r_queue]. split_and!; [done | congruence | unfold refers in *; by rewrite Eb, Ed |].
  eapply Hun; [| exact Hu]. by apply Forall2_delete.
Qed.

(** * The call *)

Lemma wait_calling fuel arrivals i t addr xid f s res s' :
  calling addr xid f None s → rpc_wait fuel handle arrivals i t s = Ret (res, s') →
  match res with
  | None => calling addr xid f None s'
  | Some r => ∃ j p, (i ≤ j)%nat ∧ p ∈ arrivals j ∧ extract_xid p = Ret xid ∧ call_reply f p = Ret r ∧
                calling addr xid f (Some r) s'
  end.
Proof.
  revert i t s. induction fuel as [|fuel IH]; intros i t s H E; cbn [rpc_wait] in E; [done |].
  destruct (t <? 0); [by injection E as <- <- |].
  apply N_bind_Ret in E as ([] & s1 & E1 & E). apply N_bind_Ret in E as (c & s2 & E2 & E).
  injection E2 as <- <-. destruct (input_calling _ _ _ _ _ _ H E1) as [H1 | (r & p & Hp & Ex & Er & H1)];
    rewrite (cl_call _ _ _ _ _ H1) in E.
  - apply N_bind_Ret in E as ([] & s3 & E3 & E). eapply timeout_calling in E3 as H3; [| exact H1].
    pose proof (IH _ _ _ H3 E) as HI. destruct res as [r |]; [| done].
    destruct HI as (j & p & Hj & HI). exists j, p. split; [lia | done].
  - injection E as <- <-. exists i, p. split_and!; done || lia.
Qed.

Lemma my_udp_send_unsent pcb p s stat s' :
  my_udp_send pcb p s = Ret (stat, s') → stat ≠ 0 → r_sent s' = r_sent s.
Proof.
  intros E Hst. unfold my_udp_send, pbuf_new in E.
  apply N_bind_Ret in E as (copy & s1 & E1 & E).
  assert (r_sent s1 = r_sent s) as H1 by (apply N_bind_Ret in E1 as (? & ? & [= <- <-] & [= <- <-]); done).
  destruct copy as [copy |]; [| by injection E as <- <-].
  apply N_bind_Ret in E as (copied & s2 & E2 & E). apply liftN_Ret in E2 as [_ ->].
  destruct copied as [copied |]; [| done]. apply N_bind_Ret in E as (err & s3 & E3 & E).
  injection E as <- <-. unfold udp_send in E3. apply N_bind_Ret in E3 as (pcbs & s4 & [= <- <-] & E3).
  destruct (negb _); [done |]. apply N_bind_Ret in E3 as (e & s5 & [= <- <-] & E3).
  apply N_bind_Ret in E3 as ([] & s6 & E4 & E3). injection E3 as <- <-.
  destruct (Z.eqb_spec (en_udp_send (r_env s1) (r_tick s1)) ERR_OK) as [Ee |]; [| by injection E4 as <-].
  rewrite Ee in Hst. by destruct Hst.
Qed.

(** The request of [rpc_call] has been queued. *)
Lemma rpc_send_queued s p xid pcb func cb arg stat s' :
  tot_len p < 2 ^ 16 → extract_xid p = Ret xid →
  rpc_send p (tot_len p) pcb func cb arg s = Ret (stat, s') →
  r_queue s' = r_queue s ++ [mk_item pcb p xid 0 func cb arg] ∧ r_call s' = r_call s ∧
  (stat ≠ 0 → r_sent s' = r_sent s).
Proof.
  intros Hp Hx E. unfold rpc_send in E. apply N_bind_Ret in E as ([] & s1 & E1 & E).
  apply liftN_Ret in E1 as [_ ->]. apply N_bind_Ret in E as (p' & s2 & E2 & E).
  apply liftN_Ret in E2 as [E2 ->]. unfold pbuf_realloc in E2. pose proof (tot_len_nonneg p).
  rewrite u16_small, Z.leb_refl in E2 by lia. injection E2 as <-.
  apply N_bind_Ret in E as ([] & s3 & E3 & E). unfold add_to_queue in E3.
  apply N_bind_Ret in E3 as (ok & s4 & [= <- <-] & E3). apply N_bind_Ret in E3 as ([] & s5 & E5 & E3).
  apply liftN_Ret in E5 as [_ ->]. apply N_bind_Ret in E3 as (x & s6 & E6 & E3).
  apply liftN_Ret in E6 as [E6 ->]. rewrite Hx in E6. injection E6 as <-. injection E3 as <-.
  rewrite (my_udp_send_keeps r_queue ltac:(done) ltac:(done) _ _ _ _ _ E),
    (my_udp_send_keeps r_call ltac:(done) ltac:(done) _ _ _ _ _ E).
  split_and!; [done.. |]. intros Hst. by rewrite (my_udp_send_unsent _ _ _ _ _ E Hst).
Qed.

Lemma NoDup_snoc (l : list rpc_item) q :
  NoDup (q_xid <$> l) → q_xid q ∉ q_xid <$> l → NoDup (q_xid <$> l ++ [q]).
Proof.
  intros Hn Hq. rewrite fmap_app. apply NoDup_app. split; [done |]. split; [| apply NoDup_singleton].
  intros x Hx Hx'. by apply list_elem_of_singleton in Hx' as ->.
Qed.

Lemma delete_last (l : list rpc_item) q : delete (length l) (l ++ [q]) = l.
Proof. rewrite delete_take_drop, take_app_length, drop_ge, app_nil_r; [done |]. rewrite length_app. cbn. lia. Qed.

#[local] Opaque rpc_wait rpc_send.

Lemma rpc_call_result s arrivals p len pcb f xid stat res s' :
  NoDup (q_xid <$> r_queue s) → xid ∉ q_xid <$> r_queue s → unreferred (r_next s) (r_queue s) →
  tot_len p < 2 ^ 16 → extract_xid p = Ret xid →
  rpc_call handle arrivals p len pcb f s = Ret ((stat, res), s') →
  match res with
  | Some r => stat = 0 ∧ unreferred (r_next s) (r_queue s') ∧
      ∃ j pkt, pkt ∈ arrivals j ∧ extract_xid pkt = Ret xid ∧ call_reply f pkt = Ret r
  | None => stat ≠ 0 ∧
      (unreferred (r_next s) (r_queue s') ∨
       r_sent s' = r_sent s ∧ r_call s' = None ∧
       ∃ q, r_queue s' = r_queue s ++ [q] ∧ refers (r_next s) q ∧ q_xid q = xid)
  end.
Proof.
  intros Hd Hx Hu Hp Ex E. unfold rpc_call in E.
  apply N_bind_Ret in E as ([] & s1 & E1 & E). apply liftN_Ret in E1 as [_ ->].
  apply N_bind_Ret in E as (arg & s2 & [= <- <-] & E). apply N_bind_Ret in E as ([] & s3 & [= <-] & E).
  apply N_bind_Ret in E as (x & s4 & E4 & E). apply liftN_Ret in E4 as [E4 ->].
  rewrite Ex in E4. injection E4 as <-. apply N_bind_Ret in E as (st & s5 & E5 & E).
  destruct (rpc_send_queued _ _ _ _ _ _ _ _ _ Hp Ex E5) as (Hq & Hc & Hsent).
  cbn [r_queue r_call r_sent set_r_call set_r_next] in *.
  set (q := mk_item pcb p xid 0 rpc_call_cb CbNull (r_next s)) in *.
  destruct (Z.eqb_spec st 0) as [-> | Hst]; cbn [negb] in E.
  - assert (calling (r_next s) xid f None s5) as Hcall.
    { split; [rewrite Hq; by apply NoDup_snoc | done |]. exists (length (r_queue s)), q. rewrite Hq.
      rewrite list_lookup_middle by done. rewrite delete_last. by split_and!. }
    apply N_bind_Ret in E as (r & s6 & E6 & E). apply (wait_calling _ _ _ _ _ _ _ _ _ _ Hcall) in E6.
    apply N_bind_Ret in E as ([] & s7 & [= <-] & E). destruct r as [r |].
    + injection E as <- <- <-. destruct E6 as (j & pkt & _ & Hin & Ep & Er & [_ _ Hun]).
      split_and!; [done.. |]. by exists j, pkt.
    + destruct E6 as [Hd' _ (k & q' & Hk & Hxk & _ & Hun)].
      apply N_bind_Ret in E as (item & s8 & E8 & E). unfold get_from_queue in E8.
      apply N_bind_Ret in E8 as (l & s9 & [= <- <-] & E8). cbn [r_queue set_r_call] in E8.
      rewrite <- Hxk, (take_xid_lookup _ _ _ Hd' Hk) in E8.
      apply N_bind_Ret in E8 as ([] & s10 & [= <-] & E8). injection E8 as <- <-.
      apply N_bind_Ret in E as ([] & s11 & E11 & E). apply liftN_Ret in E11 as [_ ->].
      injection E as <- <- <-. split; [done |]. by left.
  - apply N_bind_Ret in E as ([] & s6 & [= <-] & E). injection E as <- <- <-. split; [done |]. right.
    split_and!; [by apply Hsent | done |]. by exists q.
Qed.

(** When the packet could not be sent, the reply to a later copy of it reaches
    into the stack frame that is gone. *)
Lemma unsent_call_reply s k q p addr :
  NoDup (q_xid <$> r_queue s) → r_queue s !! k = Some q → refers addr q → addr ≠ 0 → r_call s = None →
  extract_xid p = Ret (q_xid q) → my_recv handle p s = Fault Dangling.
Proof.
  intros Hd Hk [Hf Ha] Hne Hc Ex. rewrite my_recv_eq, Ex. cbn [mbind outcome_bind].
  rewrite (take_xid_lookup _ _ _ Hd Hk). unfold handle. rewrite Hf. unfold rpc_call_reply. rewrite Ha.
  erewrite N_bind_eq by (apply assertN_eq; by apply negb_true_iff, Z.eqb_neq).
  npure. cbn [r_call set_r_queue]. by rewrite Hc.
Qed.

(** [C18] [rpc_call] returns a result only when a packet with the transaction id
    of the call arrived while it slept, and then the result is that of the reply,
    and nothing in the queue refers to its variables any more.  Without a result it
    returns an error; when the packet could not even be sent, the queue keeps
    referring to the variables. *)
Theorem rpc_call_correct s arrivals p len pcb f xid stat res s' :
  NoDup (q_xid <$> r_queue s) → xid ∉ q_xid <$> r_queue s → unreferred (r_next s) (r_queue s) →
  tot_len p < 2 ^ 16 → extract_xid p = Ret xid →
  rpc_call handle arrivals p len pcb f s = Ret ((stat, res), s') →
  match res with
  | Some r => stat = 0 ∧ unreferred (r_next s) (r_queue s') ∧
      ∃ j pkt, pkt ∈ arrivals j ∧ extract_xid pkt = Ret xid ∧ call_reply f pkt = Ret r
  | None => stat ≠ 0 ∧
      (unreferred (r_next s) (r_queue s') ∨
       r_sent s' = r_sent s ∧ r_call s' = None ∧
       ∃ q, r_queue s' = r_queue s ++ [q] ∧ refers (r_next s) q ∧ q_xid q = xid)
  end.
Proof. apply rpc_call_result. Qed.

(** The portmapper's answer to a call with the id 9, in the second sleep. *)
Definition port_answer (i : nat) : list pbuf :=
  match i with
  | 1%nat => [[[9; MSG_REPLY; MSG_ACCEPTED; AUTH_NULL; 0; SUCCESS; 2049] ≫= be_bytes]]
  | _ => []
  end.

Lemma rpc_call_correct_witness :
  ∃ s', rpc_call handle port_answer [be_bytes 9] 4 1 getport_cb mounted = Ret ((0, Some (GotPort 2049)), s') ∧
    unreferred 2 (r_queue s') ∧ ∃ j pkt, pkt ∈ port_answer j ∧ call_reply getport_cb pkt = Ret (GotPort 2049).
Proof.
  destruct (rpc_call handle port_answer [be_bytes 9] 4 1 getport_cb mounted) as [[[stat res] s'] |] eqn:E;
    [| by vm_compute in E].
  assert (stat = 0 ∧ res = Some (GotPort 2049)) as [-> ->] by (vm_compute in E; by injection E).
  destruct (rpc_call_correct mounted port_answer [be_bytes 9] 4 1 getport_cb 9 0 (Some (GotPort 2049)) s')
    as (_ & Hu & j & pkt & Hin & _ & Er);
    [constructor | apply not_elem_of_nil | constructor | reflexivity | reflexivity | exact E |].
  exists s'. split; [reflexivity |]. split; [exact Hu |]. exists j, pkt. split; [exact Hin | exact Er].
Defined.
