(* ===== verification/Mapping.v ===== *)
(** Mapping of frames into an seL4 page directory (vm/mapping.c).

    [map_page] asks seL4 to map a frame, and when the page table is missing
    creates one from untyped memory and asks again; [map_device] maps the
    registers of a device at the next free address above [DEVICE_START]. *)

From S2P Require Import Prelude UtAllocator Sos.

(** * Constants of seL4 (ARM) *)

Definition seL4_FailedLookup : Z := 6.
Definition seL4_TCBObject : Z := 1.
Definition seL4_EndpointObject : Z := 2.
Definition seL4_AsyncEndpointObject : Z := 3.
Definition seL4_ARM_SmallPageObject : Z := 5.
Definition seL4_ARM_PageTableObject : Z := 9.
Definition seL4_ARM_PageDirectoryObject : Z := 10.
Definition seL4_PageBits : Z := 12.
Definition seL4_PageTableBits : Z := 10.
Definition seL4_PageDirBits : Z := 14.
Definition seL4_TCBBits : Z := 9.
Definition seL4_EndpointBits : Z := 4.
Definition seL4_CapInitThreadPD : Z := 3.
Definition seL4_CanWrite : Z := 1.
Definition seL4_CanRead : Z := 2.
Definition seL4_AllRights : Z := 7.
Definition seL4_ARM_Default_VMAttributes : Z := 3.

(** [cspace_ut_retype_addr]: an error code, and the capability it stores when
    there is no error. *)
Definition cspace_ut_retype_addr (addr type sizebits : Z) : M (Z * Z) :=
  err ← invoke (Cspace_ut_retype_addr addr type sizebits);
  cap ← ask e_sel4;
  mret (err, cap).

(** [_map_page_table]: any error is reported as non-zero. *)
Definition map_page_table (pd vaddr : Z) : M Z :=
  pt_addr ← ut_allocM seL4_PageTableBits;
  if pt_addr =? 0 then mret 1 else
  '(err, pt_cap) ← cspace_ut_retype_addr pt_addr seL4_ARM_PageTableObject seL4_PageTableBits;
  if negb (err =? 0) then mret 1 else
  invoke (PageTable_Map pt_cap pd vaddr seL4_ARM_Default_VMAttributes).

Definition map_page (frame_cap pd vaddr rights attr : Z) : M Z :=
  err ← invoke (Page_Map frame_cap pd vaddr rights attr);
  if err =? seL4_FailedLookup then
    err ← map_page_table pd vaddr;
    if err =? 0 then invoke (Page_Map frame_cap pd vaddr rights attr)
    else mret err
  else mret err.

(** * Devices *)

Definition DEVICE_START : Z := 0xB0000000.

(** The loop of [map_device].  [conditional_panic] stops SOS. *)
Fixpoint map_device_loop (fuel : nat) (vstart size phys virt : Z) : M Z :=
  match fuel with
  | O => fail OutOfFuel
  | S fuel' =>
      if u32 (virt - vstart) <? size then
        '(err, frame_cap) ← cspace_ut_retype_addr phys seL4_ARM_SmallPageObject seL4_PageBits;
        _ ← assertM (err =? 0);
        err ← map_page frame_cap seL4_CapInitThreadPD virt seL4_AllRights 0;
        _ ← assertM (err =? 0);
        map_device_loop fuel' vstart size
          (u32 (phys + 2 ^ seL4_PageBits)) (u32 (virt + 2 ^ seL4_PageBits))
      else mret virt
  end.

(** The address of the mapping; [virt] is a static variable.  A page more than
    the size needs is enough fuel. *)
Definition map_device (paddr size : Z) : M Z :=
  vstart ← gets s_virt;
  virt ← map_device_loop (Z.to_nat (size / 2 ^ seL4_PageBits + 2)) vstart size paddr vstart;
  _ ← modify (set_s_virt virt);
  mret vstart.
