(* ===== verification/SwapSlots.v ===== *)
(** The slots of the swap file (vm/swap.c): a bitmap of 1024 words, one bit per
    page of the file, 1 for a slot in use. *)

From S2P Require Import Prelude UtAllocator Sos.

Definition NUM_CHUNKS : Z := 1024.
Definition NUM_BITS : Z := 32.

(** C's [/] and [%] on [int]. *)
Definition chunk_of (slot : Z) : Z := Z.quot slot NUM_BITS.
Definition bit_of (slot : Z) : Z := Z.rem slot NUM_BITS.

Definition unset_slot_in (fs : list Z) (slot : Z) : outcome (list Z) :=
  w ← rd fs (chunk_of slot);
  wr fs (chunk_of slot) (andnot32 w (u32 (Z.shiftl 1 (bit_of slot)))).

Definition set_slot_in (fs : list Z) (slot : Z) : outcome (list Z) :=
  w ← rd fs (chunk_of slot);
  wr fs (chunk_of slot) (Z.lor w (u32 (Z.shiftl 1 (bit_of slot)))).

(** The inner loop of [_swap_find_free_slot]: the first clear bit from [j] on. *)
Fixpoint find_free_bit (w j : Z) (n : nat) : option Z :=
  match n with
  | O => None
  | S n' => if Z.land w (u32 (Z.shiftl 1 j)) =? 0 then Some j else find_free_bit w (j + 1) n'
  end.

(** The outer loop, over the words from number [i] on. *)
Fixpoint find_free_chunk (fs : list Z) (i : Z) : Z :=
  match fs with
  | [] => -1
  | w :: fs' =>
      if w =? 2 ^ 32 - 1 then find_free_chunk fs' (i + 1)
      else match find_free_bit w 0 (Z.to_nat NUM_BITS) with
           | Some j => i * NUM_BITS + j
           | None => find_free_chunk fs' (i + 1)
           end
  end.

Definition swap_find_free_slot_in (fs : list Z) : Z := find_free_chunk fs 0.

(** * As operations of SOS *)

Definition set_free_slots_M (fs : list Z) : M unit :=
  modify (λ s, set_s_swap (set_free_slots fs (s_swap s)) s).

Definition unset_slot (slot : Z) : M unit :=
  fs ← gets (λ s, free_slots (s_swap s));
  fs' ← lift (unset_slot_in fs slot);
  set_free_slots_M fs'.

Definition set_slot (slot : Z) : M unit :=
  fs ← gets (λ s, free_slots (s_swap s));
  fs' ← lift (set_slot_in fs slot);
  set_free_slots_M fs'.

Definition swap_find_free_slot : M Z :=
  gets (λ s, swap_find_free_slot_in (free_slots (s_swap s))).

Definition swap_free_slot (slot : Z) : M unit := unset_slot slot.
