(* ===== verification/FrameTable.v ===== *)
(** The frame table (vm/frametable.c), and the page table accesses it needs.

    SOS manages [NFRAMES] frames of its own address space.  A frame is untyped
    (no memory behind it yet), free or allocated; the frames that are not
    allocated are chained through [fte_next_free] from [first_free].  When the
    chain is empty, [frame_alloc] picks a victim with the second chance
    algorithm and swaps it out before it takes the frame over. *)

From S2P Require Import Prelude UtAllocator Sos Mapping SwapSlots.

(** * Page table entries (vm/addrspace.h) *)

Definition INDEX_1_MASK : Z := 0xffc00000.
Definition INDEX_2_MASK : Z := 0x003ff000.
Definition PT_L1_INDEX (a : Z) : Z := Z.shiftr (Z.land a INDEX_1_MASK) 22.
Definition PT_L2_INDEX (a : Z) : Z := Z.shiftr (Z.land a INDEX_2_MASK) 12.
Definition PT_ID_TO_VPAGE (id1 id2 : Z) : Z :=
  Z.lor (u32 (Z.shiftl id1 22)) (Z.shiftl id2 12).

Definition PTE_IN_USE_BIT : Z := 1.
Definition PTE_SWAPPED : Z := 2.
Definition PTE_SWAP_OFFSET : Z := 2.
Definition PTE_SWAP_MASK : Z := 0xfffffffc.
Definition PTE_KVADDR_MASK : Z := 0xfffff000.

Definition pte_in_use (pte : Z) : bool := negb (Z.land pte PTE_IN_USE_BIT =? 0).
Definition pte_swapped (pte : Z) : bool := negb (Z.land pte PTE_SWAPPED =? 0).
Definition pte_kvaddr (pte : Z) : Z := Z.land pte PTE_KVADDR_MASK.
Definition pte_slot (pte : Z) : Z := Z.shiftr (Z.land pte PTE_SWAP_MASK) PTE_SWAP_OFFSET.

(** The entry that [_swap_out_end] writes. *)
Definition swapped_pte (slot : Z) : Z :=
  Z.lor (Z.lor (u32 (Z.shiftl slot PTE_SWAP_OFFSET)) PTE_IN_USE_BIT) PTE_SWAPPED.

(** [pd[x]] and [pd[x][y]]; a page directory or page table is an array of words
    in a frame. *)
Definition pd_get (pd x : Z) : M Z := load_word (pd + 4 * x).
Definition pd_set (pd x v : Z) : M unit := store_word (pd + 4 * x) v.

Definition pt_get (pd x y : Z) : M Z :=
  pt ← pd_get pd x;
  if pt =? 0 then fail NullDeref else load_word (pt + 4 * y).

Definition pt_set (pd x y v : Z) : M unit :=
  pt ← pd_get pd x;
  if pt =? 0 then fail NullDeref else store_word (pt + 4 * y) v.

(** The test shared by [sos_page_unmap] and [sos_page_free]: the address space
    has both second level tables for [x]. *)
Definition tables_present (asp x : Z) : M bool :=
  if asp =? 0 then mret false else
  a ← load asp;
  if as_pd_caps a =? 0 then mret false else
  cpt ← pd_get (as_pd_caps a) x;
  if cpt =? 0 then mret false else
  if as_pd_regs a =? 0 then mret false else
  rpt ← pd_get (as_pd_regs a) x;
  mret (negb (rpt =? 0)).

(** [sos_page_unmap] (vm/pagetable.c). *)
Definition sos_page_unmap (asp vaddr : Z) : M Z :=
  let vpage := PAGE_ALIGN vaddr in
  let x := PT_L1_INDEX vpage in
  let y := PT_L2_INDEX vpage in
  ok ← tables_present asp x;
  if negb ok then mret EINVAL else
  a ← load asp;
  cap ← pt_get (as_pd_caps a) x y;
  _ ← assertM (negb (cap =? 0));
  err ← invoke (Page_Unmap cap);
  if negb (err =? 0) then mret EFAULT else
  _ ← invoke (Cspace_delete_cap cap);
  mret 0.

(** * Frames *)

Definition FRAME_STATUS_UNTYPED : Z := 0.
Definition FRAME_STATUS_FREE : Z := 1.
Definition FRAME_STATUS_ALLOCATED : Z := 2.
Definition FRAME_INVALID : Z := -1.
Definition PROC_NULL : Z := -1.

Definition ID_TO_KVADDR (id : Z) : Z := u32 (id * PAGE_SIZE + FRAME_VSTART).
Definition KVADDR_TO_ID (kvaddr : Z) : Z := u32 (kvaddr - FRAME_VSTART) / PAGE_SIZE.

(** The entry of a frame whose memory is still zero. *)
Definition zero_fte : frame_entry := mk_fte 0 0 0 0 0 0 0 0 false false false.

Definition get_frame (id : Z) : M frame_entry :=
  l ← gets (λ s, ft (s_ft s));
  lift (rd l id).

Definition upd_frame (id : Z) (f : frame_entry → frame_entry) : M unit :=
  l ← gets (λ s, ft (s_ft s));
  e ← lift (rd l id);
  l' ← lift (wr l id (f e));
  modify (λ s, set_s_ft (set_ft l' (s_ft s)) s).

Definition mod_ft (f : ftab → ftab) : M unit := modify (λ s, set_s_ft (f (s_ft s)) s).

(** An error code, the physical address and the capability. *)
Definition map_to_sel4 (pd kvaddr : Z) : M (Z * Z * option Z) :=
  paddr ← ut_allocM seL4_PageBits;
  if paddr =? 0 then mret (ENOMEM, paddr, None) else
  '(cspace_err, cap) ← cspace_ut_retype_addr paddr seL4_ARM_SmallPageObject seL4_PageBits;
  if negb (cspace_err =? 0) then
    _ ← ut_freeM paddr seL4_PageBits;
    mret (EFAULT, paddr, None)
  else
  err ← map_page cap pd kvaddr seL4_AllRights seL4_ARM_Default_VMAttributes;
  if negb (err =? 0) then
    _ ← ut_freeM paddr seL4_PageBits;
    _ ← invoke (Cspace_delete_cap cap);
    mret (EFAULT, paddr, Some cap)
  else mret (0, paddr, Some cap).

(** The first loop of [frame_init]: the frames that hold the table itself. *)
Fixpoint frame_init_reserve (n : nat) (i : Z) : M (Z * Z) :=
  match n with
  | O => fail OutOfFuel
  | S n' =>
      if i * PAGE_SIZE <? NFRAMES * SIZEOF_FRAME_ENTRY then
        let kvaddr := ID_TO_KVADDR i in
        '(err, paddr, cap) ← map_to_sel4 seL4_CapInitThreadPD kvaddr;
        if negb (err =? 0) then mret (err, i) else
        _ ← upd_frame i (λ _,
              mk_fte FRAME_STATUS_ALLOCATED (default 0 cap) paddr kvaddr 0 0 PROC_NULL
                     FRAME_INVALID false true true);
        frame_init_reserve n' (i + 1)
      else mret (0, i)
  end.

(** The second loop: chain the remaining frames. *)
Fixpoint frame_init_chain (n : nat) (i : Z) : M unit :=
  match n with
  | O => mret tt
  | S n' =>
      _ ← upd_frame i (λ e,
            set_fte_next_free (if i =? NFRAMES - 1 then FRAME_INVALID else i + 1)
              (set_fte_status FRAME_STATUS_UNTYPED e));
      frame_init_chain n' (i + 1)
  end.

Definition frame_init : M Z :=
  _ ← mod_ft (set_ft (replicate (Z.to_nat NFRAMES) zero_fte));
  '(err, i) ← frame_init_reserve (Z.to_nat NFRAMES) 0;
  if negb (err =? 0) then mret err else
  _ ← mod_ft (set_frametable_reserved i);
  _ ← mod_ft (set_first_free i);
  _ ← frame_init_chain (Z.to_nat (NFRAMES - i)) i;
  _ ← mod_ft (set_frame_initialised true);
  mret 0.

Definition frame_has_free : M bool :=
  t ← gets s_ft;
  mret (if frame_initialised t then negb (first_free t =? FRAME_INVALID) else false).

(** [victim++; victim = victim % NFRAMES]. *)
Definition next_victim (v : Z) : Z := (v + 1) mod NFRAMES.

(** The loop of [_second_chance_swap_victim]; [n] is [3*NFRAMES - cnt]. *)
Fixpoint second_chance_loop (n : nat) : M Z :=
  match n with
  | O => mret 0
  | S n' =>
      v ← gets (λ s, victim (s_ft s));
      e ← get_frame v;
      if fte_noswap e || fte_locked e then
        _ ← mod_ft (set_victim (next_victim v));
        second_chance_loop n'
      else if fte_referenced e then
        _ ← sos_page_unmap (fte_as e) (fte_vaddr e);
        _ ← upd_frame v (set_fte_referenced false);
        _ ← mod_ft (set_victim (next_victim v));
        second_chance_loop n'
      else
        _ ← mod_ft (set_victim (next_victim v));
        mret (ID_TO_KVADDR v)
  end.

Definition second_chance_swap_victim : M Z := second_chance_loop (Z.to_nat (3 * NFRAMES)).

(** The part of [_frame_alloc_end] that takes the frame at the head of the chain:
    its kernel address, or 0 when there is no memory to put behind it. *)
Definition take_frame (cont : frame_alloc_cont) : M Z :=
  ind ← gets (λ s, first_free (s_ft s));
  let kvaddr := ID_TO_KVADDR ind in
  e ← get_frame ind;
  _ ← assertM (negb (fte_status e =? FRAME_STATUS_ALLOCATED));
  err ←
    (if fte_status e =? FRAME_STATUS_UNTYPED then
       '(err, paddr, cap) ← map_to_sel4 seL4_CapInitThreadPD kvaddr;
       _ ← upd_frame ind (λ e, set_fte_cap (default (fte_cap e) cap) (set_fte_paddr paddr e));
       mret err
     else mret 0);
  if negb (err =? 0) then mret 0 else
  _ ← upd_frame ind (λ e,
        mk_fte FRAME_STATUS_ALLOCATED (fte_cap e) (fte_paddr e) kvaddr (fa_vaddr cont)
               (fa_as cont) (fa_pid cont) (fte_next_free e) false (fa_noswap cont) true);
  _ ← bzero kvaddr PAGE_SIZE;
  e ← get_frame ind;
  _ ← mod_ft (set_first_free (fte_next_free e));
  mret kvaddr.

(** [_frame_alloc_end]: the callback receives 0 when there is no frame. *)
Definition frame_alloc_end (rec : interp) (token err : Z) : M unit :=
  _ ← assertM (negb (token =? 0));
  cont ← load token;
  kvaddr ←
    (if negb (err =? 0) then mret 0 else
     first ← gets (λ s, first_free (s_ft s));
     if first =? FRAME_INVALID then mret 0 else take_frame cont);
  _ ← call_ rec (CallFrame (fa_callback cont) (fa_token cont) kvaddr);
  free token.

Definition frame_alloc (rec : interp) (vaddr asp pid : Z) (noswap : bool)
    (callback : frame_cb) (token : Z) : M Z :=
  ini ← gets (λ s, frame_initialised (s_ft s));
  if negb ini then mret EFAULT else
  if negb (asp =? 0) && (vaddr =? 0) then mret EINVAL else
  cont ← malloc (mk_fa callback token asp (PAGE_ALIGN vaddr) pid noswap);
  if cont =? 0 then mret ENOMEM else
  first ← gets (λ s, first_free (s_ft s));
  if first =? FRAME_INVALID then
    kvaddr ← second_chance_swap_victim;
    if kvaddr =? 0 then
      _ ← free cont;
      mret ENOMEM
    else
      _ ← call_ rec (Call_swap_out kvaddr cb_frame_alloc_end cont);
      mret 0
  else
    _ ← frame_alloc_end rec cont 0;
    mret 0.

(** [id < _frametable_reserved || id >= NFRAMES]. *)
Definition bad_id (id : Z) : M bool :=
  r ← gets (λ s, frametable_reserved (s_ft s));
  mret ((id <? r) || (NFRAMES <=? id)).

(** The checks that most functions start with: the error code, or 0. *)
Definition check_allocated (kvaddr : Z) : M Z :=
  let id := KVADDR_TO_ID kvaddr in
  bad ← bad_id id;
  if (bad : bool) then mret EINVAL else
  e ← get_frame id;
  mret (if fte_status e =? FRAME_STATUS_ALLOCATED then 0 else EINVAL).

Definition check_frame (kvaddr : Z) : M Z :=
  ini ← gets (λ s, frame_initialised (s_ft s));
  if (ini : bool) then check_allocated kvaddr else mret EFAULT.

Definition frame_free (kvaddr : Z) : M Z :=
  err ← check_frame kvaddr;
  if negb (err =? 0) then mret err else
  let id := KVADDR_TO_ID kvaddr in
  e ← get_frame id;
  if fte_locked e then mret EFAULT else
  _ ← upd_frame id (set_fte_status FRAME_STATUS_FREE);
  _ ← upd_frame id (set_fte_locked false);
  first ← gets (λ s, first_free (s_ft s));
  _ ← upd_frame id (set_fte_next_free first);
  _ ← mod_ft (set_first_free id);
  mret 0.

(** The capability is stored as -1 when there is an error. *)
Definition frame_get_cap (kvaddr : Z) : M (Z * Z) :=
  err ← check_frame kvaddr;
  if negb (err =? 0) then mret (err, 2 ^ 32 - 1) else
  e ← get_frame (KVADDR_TO_ID kvaddr);
  mret (0, fte_cap e).

(** [None] where the C function leaves [*is_locked] unassigned. *)
Definition frame_is_locked (kvaddr : Z) : M (Z * option bool) :=
  err ← check_frame kvaddr;
  if negb (err =? 0) then mret (err, None) else
  e ← get_frame (KVADDR_TO_ID kvaddr);
  mret (0, Some (fte_locked e)).

Definition frame_lock_frame (kvaddr : Z) : M Z :=
  err ← check_frame kvaddr;
  if negb (err =? 0) then mret err else
  e ← get_frame (KVADDR_TO_ID kvaddr);
  if fte_locked e then mret EINVAL else
  _ ← upd_frame (KVADDR_TO_ID kvaddr) (set_fte_locked true);
  mret 0.

Definition frame_unlock_frame (kvaddr : Z) : M Z :=
  err ← check_frame kvaddr;
  if negb (err =? 0) then mret err else
  e ← get_frame (KVADDR_TO_ID kvaddr);
  if negb (fte_locked e) then mret EINVAL else
  _ ← upd_frame (KVADDR_TO_ID kvaddr) (set_fte_locked false);
  mret 0.

Definition frame_get_as (kvaddr : Z) : M Z :=
  err ← check_allocated kvaddr;
  if negb (err =? 0) then mret 0 else
  e ← get_frame (KVADDR_TO_ID kvaddr);
  mret (fte_as e).

Definition frame_get_pid (kvaddr : Z) : M Z :=
  err ← check_allocated kvaddr;
  if negb (err =? 0) then mret PROC_NULL else
  e ← get_frame (KVADDR_TO_ID kvaddr);
  mret (fte_pid e).

Definition frame_get_vaddr (kvaddr : Z) : M Z :=
  err ← check_allocated kvaddr;
  if negb (err =? 0) then mret 0 else
  e ← get_frame (KVADDR_TO_ID kvaddr);
  mret (fte_vaddr e).

Definition frame_set_referenced (kvaddr : Z) : M Z :=
  let id := KVADDR_TO_ID kvaddr in
  bad ← bad_id id;
  if (bad : bool) then mret EINVAL else
  _ ← upd_frame id (set_fte_referenced true);
  mret 0.

(** The error code of a bad address is returned as the boolean [true]. *)
Definition is_frame_referenced (kvaddr : Z) : M bool :=
  let id := KVADDR_TO_ID kvaddr in
  bad ← bad_id id;
  if (bad : bool) then mret true else
  e ← get_frame id;
  mret (fte_referenced e).
