(* ===== verification/FrameInv.v ===== *)
(** The frame table: its invariant, and what its operations do.

    [ft_ok]: the chain of free frames has no repetition and consists of exactly
    the frames that are not allocated. *)

From S2P Require Import Prelude UtAllocator Sos Hoare Mapping SwapSlots FrameTable.

(** * The invariant *)

(** [ch] is the chain of frames from index [h] on. *)
Fixpoint chain (fs : list frame_entry) (h : Z) (ch : list Z) : Prop :=
  match ch with
  | [] => h = FRAME_INVALID
  | x :: ch' => h = x ∧ ∃ e, rd fs x = Ret e ∧ chain fs (fte_next_free e) ch'
  end.

Definition allocated (fs : list frame_entry) (id : Z) : Prop :=
  ∃ e, rd fs id = Ret e ∧ fte_status e = FRAME_STATUS_ALLOCATED.

Record ft_ok (t : ftab) : Prop := {
  fo_init : frame_initialised t = true;
  fo_len : Zlength (ft t) = NFRAMES;
  fo_res : 1 ≤ frametable_reserved t ≤ NFRAMES;
  fo_victim : 0 ≤ victim t < NFRAMES;
  fo_chain : ∃ ch, chain (ft t) (first_free t) ch ∧ NoDup ch ∧
    ∀ id, id ∈ ch ↔ 0 ≤ id < NFRAMES ∧ ¬ allocated (ft t) id;
  fo_reserved : ∀ id, 0 ≤ id < frametable_reserved t → allocated (ft t) id
}.

Definition ft_inv (s : sos) : Prop := ft_ok (s_ft s).

(** * The frame table apart from the rest *)

Definition ft_is (t : ftab) (s : sos) : Prop := s_ft s = t.

#[export] Instance stable_ft_is (t : ftab) : Stable (ft_is t).
Proof. by split. Qed.

#[export] Instance stable_ft_inv : Stable ft_inv.
Proof. by split. Qed.

Lemma leaves_of_keeps {A : Type} (m : M A) : (∀ t, keeps (ft_is t) m) → leaves s_ft m.
Proof. intros H s a s' E. by apply (H (s_ft s) s a s'). Qed.

Lemma upd_frame_Ret i f s u s' :
  upd_frame i f s = Ret (u, s') →
  ∃ e, rd (ft (s_ft s)) i = Ret e ∧
    s' = set_s_ft (set_ft (<[Z.to_nat i := f e]> (ft (s_ft s))) (s_ft s)) s.
Proof.
  unfold upd_frame. intros H. minv1 H.
  apply wr_Ret in L0 as [_ ->]. eauto.
Qed.

Lemma get_frame_Ret i s e s' :
  get_frame i s = Ret (e, s') → s' = s ∧ rd (ft (s_ft s)) i = Ret e.
Proof. unfold get_frame. intros H. minv1 H. done. Qed.

(** * The chain under updates *)

Lemma rd_upd (fs : list frame_entry) i j e e' :
  rd fs i = Ret e →
  rd (<[Z.to_nat i := e']> fs) j = if decide (i = j) then Ret e' else rd fs j.
Proof.
  intros H. apply rd_bounds in H as Hb. case_decide as Hd.
  - subst j. by apply rd_insert_eq.
  - by apply rd_insert_ne; [lia |].
Qed.

Lemma chain_upd_same fs i e e' h ch :
  rd fs i = Ret e → fte_next_free e' = fte_next_free e →
  chain fs h ch → chain (<[Z.to_nat i := e']> fs) h ch.
Proof.
  intros He Hn. revert h. induction ch as [| x ch IH]; intros h; [done |].
  intros [-> (ex & Hx & Hc)]. split; [done |].
  rewrite (rd_upd _ _ _ _ _ He). case_decide as Hd.
  - subst x. rewrite He in Hx. injection Hx as ->. exists e'. split; [done |].
    rewrite Hn. by apply IH.
  - exists ex. split; [done |]. by apply IH.
Qed.

Lemma chain_upd_out fs i e e' h ch :
  rd fs i = Ret e → i ∉ ch → chain fs h ch → chain (<[Z.to_nat i := e']> fs) h ch.
Proof.
  intros He. revert h. induction ch as [| x ch IH]; intros h Hi; [done |].
  intros [-> (ex & Hx & Hc)]. split; [done |]. apply not_elem_of_cons in Hi as [Hne Hi].
  rewrite (rd_upd _ _ _ _ _ He). rewrite decide_False by done.
  exists ex. split; [done |]. by apply IH.
Qed.

Lemma allocated_upd fs i e e' id :
  rd fs i = Ret e →
  allocated (<[Z.to_nat i := e']> fs) id ↔
    if decide (i = id) then fte_status e' = FRAME_STATUS_ALLOCATED else allocated fs id.
Proof.
  intros He. unfold allocated. rewrite (rd_upd _ _ _ _ _ He). case_decide; [| done].
  split; [by intros (? & [= <-] & ?) | eauto].
Qed.

Lemma allocated_dec_eq fs id e :
  rd fs id = Ret e → allocated fs id ↔ fte_status e = FRAME_STATUS_ALLOCATED.
Proof. intros He. unfold allocated. rewrite He. split; [by intros (? & [= <-] & ?) | eauto]. Qed.

(** An update that changes neither the status nor the link. *)
Lemma ft_ok_upd_same t i e e' :
  ft_ok t → rd (ft t) i = Ret e →
  fte_status e' = fte_status e → fte_next_free e' = fte_next_free e →
  ft_ok (set_ft (<[Z.to_nat i := e']> (ft t)) t).
Proof.
  intros [? ? ? ? (ch & Hc & Hd & Hin) Hr] He Hs Hn.
  assert (∀ id, allocated (<[Z.to_nat i:=e']> (ft t)) id ↔ allocated (ft t) id) as Ha.
  { intros id. rewrite (allocated_upd _ _ _ _ _ He). case_decide as Hi; [| done].
    subst id. by rewrite (allocated_dec_eq _ _ _ He), Hs. }
  split; simpl; try done.
  - by rewrite Zlength_insert.
  - exists ch. split_and!; [by eapply chain_upd_same | done |].
    intros id. by rewrite Ha.
  - intros id Hid. apply Ha. auto.
Qed.

(** Taking the head of the chain. *)
Lemma ft_ok_take t e e' :
  ft_ok t → rd (ft t) (first_free t) = Ret e →
  fte_status e' = FRAME_STATUS_ALLOCATED → fte_next_free e' = fte_next_free e →
  ft_ok (set_first_free (fte_next_free e) (set_ft (<[Z.to_nat (first_free t) := e']> (ft t)) t)).
Proof.
  intros [? ? ? ? (ch & Hc & Hd & Hin) Hr] He Hs Hn.
  destruct ch as [| x ch].
  { simpl in Hc. rewrite Hc in He. apply rd_bounds in He. unfold FRAME_INVALID in He. lia. }
  destruct Hc as [Hx (ex & Hex & Hc)]. rewrite Hx in He. rewrite He in Hex.
  injection Hex as <-. apply NoDup_cons in Hd as [Hx' Hd].
  assert (∀ id, allocated (<[Z.to_nat x:=e']> (ft t)) id ↔ id = x ∨ allocated (ft t) id) as Ha.
  { intros id. rewrite (allocated_upd _ _ _ _ _ He). case_decide as Hi.
    - subst id. split; [by left | done].
    - split; [by right | by intros [-> | ?]]. }
  rewrite Hx. split; simpl; try done.
  - by rewrite Zlength_insert.
  - exists ch. split_and!; [by eapply chain_upd_out | done |].
    intros id. rewrite Ha. specialize (Hin id). rewrite elem_of_cons in Hin.
    split; [intros Hi | intros [Hi Hn']].
    + assert (id ≠ x) by congruence. tauto.
    + assert (id ≠ x) by tauto. tauto.
  - intros id Hid. apply Ha. auto.
Qed.

(** Putting a frame at the head of the chain. *)
Lemma ft_ok_put t id e e' :
  ft_ok t → frametable_reserved t ≤ id → rd (ft t) id = Ret e →
  fte_status e = FRAME_STATUS_ALLOCATED → fte_status e' ≠ FRAME_STATUS_ALLOCATED →
  fte_next_free e' = first_free t →
  ft_ok (set_first_free id (set_ft (<[Z.to_nat id := e']> (ft t)) t)).
Proof.
  intros [? Hl ? ? (ch & Hc & Hd & Hin) Hr] Hres He Hs Hs' Hn.
  assert (∀ j, allocated (<[Z.to_nat id:=e']> (ft t)) j ↔ j ≠ id ∧ allocated (ft t) j) as Ha.
  { intros j. rewrite (allocated_upd _ _ _ _ _ He). case_decide as Hi.
    - subst j. split; [done | tauto].
    - split; [intros; split; [congruence | done] | tauto]. }
  pose proof (rd_bounds _ _ _ He) as Hb.
  assert (id ∉ ch) as Hni.
  { rewrite Hin, (allocated_dec_eq _ _ _ He). tauto. }
  split; simpl; try done.
  - by rewrite Zlength_insert.
  - exists (id :: ch). split_and!.
    + split; [done |]. exists e'. split; [by apply rd_insert_eq |].
      rewrite Hn. by eapply chain_upd_out.
    + by constructor.
    + intros j. rewrite elem_of_cons, Ha, Hin. destruct (decide (j = id)) as [-> |].
      * split; [intros _; split; [lia | tauto] | tauto].
      * tauto.
  - intros j Hj. apply Ha. split; [lia | auto].
Qed.

(** * Operations keep the invariant *)

(** What the frame table's own operations do to a property. *)
Class FtStable (P : sos → Prop) : Prop := {
  fs_upd : ∀ i f,
    (∀ e, fte_status (f e) = fte_status e ∧ fte_next_free (f e) = fte_next_free e) →
    keeps P (upd_frame i f);
  fs_victim : ∀ v, keeps P (mod_ft (set_victim (next_victim v)));
  fs_take : ∀ cont, keeps P (take_frame cont);
  fs_free : ∀ kvaddr, keeps P (frame_free kvaddr)
}.

Lemma leaves_invoke i : leaves s_ft (invoke i).
Proof. apply leaves_of_keeps. intros t. unfold invoke. keeps. Qed.

Lemma leaves_map_to_sel4 pd kvaddr : leaves s_ft (map_to_sel4 pd kvaddr).
Proof.
  apply leaves_of_keeps. intros t.
  unfold map_to_sel4, map_page, map_page_table, cspace_ut_retype_addr, ut_allocM, ut_freeM, invoke.
  keeps.
Qed.

Lemma leaves_bzero a n : leaves s_ft (bzero a n).
Proof. apply leaves_of_keeps. intros t. unfold bzero. keeps. Qed.

(** What [take_frame] leaves in the frame table: the head of the chain is taken
    and described by the continuation, or only its memory fields changed. *)
Lemma take_frame_Ret cont s kv s' :
  take_frame cont s = Ret (kv, s') →
  let t := s_ft s in let ind := first_free t in
  ∃ e cap paddr, rd (ft t) ind = Ret e ∧ fte_status e ≠ FRAME_STATUS_ALLOCATED ∧
  (fte_status e ≠ FRAME_STATUS_UNTYPED → cap = fte_cap e ∧ paddr = fte_paddr e) ∧
  (kv = 0 ∧ s_ft s' = set_ft (<[Z.to_nat ind := set_fte_cap cap (set_fte_paddr paddr e)]> (ft t)) t
   ∨ kv = ID_TO_KVADDR ind ∧
     s_ft s' = set_first_free (fte_next_free e)
       (set_ft (<[Z.to_nat ind :=
          mk_fte FRAME_STATUS_ALLOCATED cap paddr kv (fa_vaddr cont) (fa_as cont) (fa_pid cont)
            (fte_next_free e) false (fa_noswap cont) true]> (ft t)) t)).
Proof.
  unfold take_frame. cbv zeta. intros H.
  apply M_bind_Ret in H as (ind & s1 & H1 & H). injection H1 as <- <-.
  apply M_bind_Ret in H as (e & s1 & H1 & H). apply get_frame_Ret in H1 as [-> He].
  apply M_bind_Ret in H as (u & s1 & H1 & H). minv1 H1. apply negb_true_iff, Z.eqb_neq in A.
  apply M_bind_Ret in H as (err & s2 & H1 & H).
  set (ind := first_free (s_ft s)) in *.
  assert (∃ cap paddr, (fte_status e ≠ FRAME_STATUS_UNTYPED → cap = fte_cap e ∧ paddr = fte_paddr e) ∧
     s_ft s2 = set_ft (<[Z.to_nat ind := set_fte_cap cap (set_fte_paddr paddr e)]> (ft (s_ft s)))
                 (s_ft s)) as (cap & paddr & Hcp & Hs2).
  { destruct (Z.eqb_spec (fte_status e) FRAME_STATUS_UNTYPED) as [Hu | Hu].
    - apply M_bind_Ret in H1 as ([[err' paddr] cap] & s3 & H1 & H2).
      apply leaves_map_to_sel4 in H1. apply M_bind_Ret in H2 as (u' & s4 & H2 & H3).
      minv1 H3. apply upd_frame_Ret in H2 as (e' & He' & ->). rewrite H1 in He' |- *.
      rewrite He in He'. injection He' as <-.
      exists (default (fte_cap e) cap), paddr. done.
    - minv1 H1. exists (fte_cap e), (fte_paddr e). split; [done |].
      replace (set_fte_cap _ _) with e by (by destruct e).
      rewrite list_insert_id; [by destruct (s_ft s) |]. by apply rd_Ret in He as [_ ?]. }
  exists e, cap, paddr. split; [done |]. split; [done |]. split; [done |].
  destruct (negb (err =? 0)).
  { minv1 H. left. split; [done |]. exact Hs2. }
  right. apply M_bind_Ret in H as (u1 & s3 & H2 & H).
  apply upd_frame_Ret in H2 as (e1 & He1 & ->).
  apply M_bind_Ret in H as (u2 & s4 & H2 & H). apply leaves_bzero in H2.
  apply M_bind_Ret in H as (e2 & s5 & H3 & H). apply get_frame_Ret in H3 as [-> He2].
  unfold mod_ft in H. minv1 H. split; [done |]. cbn [s_ft set_s_ft].
  rewrite Hs2 in He1. simpl in He1. rewrite (rd_upd _ _ _ _ _ He), decide_True in He1 by done.
  injection He1 as <-.
  rewrite H2 in He2 |- *. simpl in He2 |- *. rewrite Hs2 in He2 |- *. simpl in He2 |- *.
  rewrite list_insert_insert_eq in He2 |- *.
  rewrite (rd_upd _ _ _ _ _ He), decide_True in He2 by done. injection He2 as <-. done.
Qed.

Lemma keeps_take_frame cont : keeps ft_inv (take_frame cont).
Proof.
  intros s kv s' HP H. apply take_frame_Ret in H as (e & cap & paddr & He & Hs & _ & [[_ E] | [_ E]]);
    unfold ft_inv; rewrite E.
  - by eapply ft_ok_upd_same.
  - by eapply ft_ok_take.
Qed.

Lemma keeps_upd_frame i f :
  (∀ e, fte_status (f e) = fte_status e ∧ fte_next_free (f e) = fte_next_free e) →
  keeps ft_inv (upd_frame i f).
Proof.
  intros Hf s u s' HP (e & He & ->)%upd_frame_Ret. unfold ft_inv. simpl.
  destruct (Hf e). by eapply ft_ok_upd_same.
Qed.

Lemma next_victim_range v : 0 ≤ next_victim v < NFRAMES.
Proof. apply Z.mod_pos_bound. done. Qed.

Lemma keeps_next_victim v : keeps ft_inv (mod_ft (set_victim (next_victim v))).
Proof.
  apply keeps_modify. intros s [? ? ? ? ? ?]. split; try done. apply next_victim_range.
Qed.

(** * Reading and freeing frames *)

Lemma get_frame_eq id e s :
  rd (ft (s_ft s)) id = Ret e → get_frame id s = Ret (e, s).
Proof. intros He. unfold get_frame. mpure. by apply lift_eq. Qed.

Lemma upd_frame_eq id f e s :
  rd (ft (s_ft s)) id = Ret e →
  upd_frame id f s =
    Ret (tt, set_s_ft (set_ft (<[Z.to_nat id := f e]> (ft (s_ft s))) (s_ft s)) s).
Proof.
  intros He. unfold upd_frame. mpure. mstep (lift_eq _ s _ He).
  mstep (lift_eq _ s _ (wr_in _ _ (f e) (rd_bounds _ _ _ He))). done.
Qed.

(** The checks at the start of the functions of frametable.c. *)
Definition frame_check (t : ftab) (kvaddr : Z) : option frame_entry :=
  let id := KVADDR_TO_ID kvaddr in
  if (id <? frametable_reserved t) || (NFRAMES <=? id) then None
  else match rd (ft t) id with
       | Ret e => if fte_status e =? FRAME_STATUS_ALLOCATED then Some e else None
       | Fault _ => None
       end.

Lemma KVADDR_TO_ID_nonneg kvaddr : 0 ≤ KVADDR_TO_ID kvaddr.
Proof. unfold KVADDR_TO_ID, PAGE_SIZE. pose proof (u32_range (kvaddr - FRAME_VSTART)). divmod. Qed.

Lemma check_allocated_eq kvaddr s :
  ft_inv s →
  check_allocated kvaddr s =
    Ret (match frame_check (s_ft s) kvaddr with Some _ => 0 | None => EINVAL end, s).
Proof.
  intros [? Hl ? ? _ _]. unfold check_allocated, frame_check, bad_id.
  set (id := KVADDR_TO_ID kvaddr).
  rewrite M_bind_assoc. mpure.
  pose proof (KVADDR_TO_ID_nonneg kvaddr).
  destruct (Z.ltb_spec id (frametable_reserved (s_ft s))); [done |].
  destruct (Z.leb_spec NFRAMES id); [done |]. cbn [orb].
  destruct (rd_in (ft (s_ft s)) id) as [e He]; [rewrite Hl; lia |].
  mstep (get_frame_eq _ _ _ He). rewrite He. by destruct (fte_status e =? _).
Qed.

Lemma check_frame_eq kvaddr s :
  ft_inv s →
  check_frame kvaddr s =
    Ret (match frame_check (s_ft s) kvaddr with Some _ => 0 | None => EINVAL end, s).
Proof.
  intros H. pose proof H as [Hi _ _ _ _ _]. unfold check_frame.
  mpure. rewrite Hi.
  by apply check_allocated_eq.
Qed.

Lemma frame_check_Some t kvaddr e :
  frame_check t kvaddr = Some e →
  frametable_reserved t ≤ KVADDR_TO_ID kvaddr < NFRAMES ∧
  rd (ft t) (KVADDR_TO_ID kvaddr) = Ret e ∧ fte_status e = FRAME_STATUS_ALLOCATED.
Proof.
  unfold frame_check.
  destruct (Z.ltb_spec (KVADDR_TO_ID kvaddr) (frametable_reserved t)); [done |].
  destruct (Z.leb_spec NFRAMES (KVADDR_TO_ID kvaddr)); [done |]. cbn -[rd].
  destruct (rd (ft t) _) as [e' | ] eqn:E; [| done].
  destruct (Z.eqb_spec (fte_status e') FRAME_STATUS_ALLOCATED); [| done].
  intros [= <-]. split; [lia | done].
Qed.

(** The entry of a frame that has been freed. *)
Definition freed (first : Z) (e : frame_entry) : frame_entry :=
  set_fte_next_free first (set_fte_locked false (set_fte_status FRAME_STATUS_FREE e)).

Definition free_in (t : ftab) (id : Z) (e : frame_entry) : ftab :=
  set_first_free id (set_ft (<[Z.to_nat id := freed (first_free t) e]> (ft t)) t).

(** [frame_free], on every branch. *)
Lemma frame_free_eq kvaddr s :
  ft_inv s →
  frame_free kvaddr s =
    match frame_check (s_ft s) kvaddr with
    | None => Ret (EINVAL, s)
    | Some e => if fte_locked e then Ret (EFAULT, s)
                else Ret (0, set_s_ft (free_in (s_ft s) (KVADDR_TO_ID kvaddr) e) s)
    end.
Proof.
  intros HP. unfold frame_free. mstep (check_frame_eq kvaddr s HP).
  destruct (frame_check (s_ft s) kvaddr) as [e |] eqn:E; [| done]. cbn -[rd].
  apply frame_check_Some in E as (Hb & He & _).
  mstep (get_frame_eq _ _ _ He).
  destruct (fte_locked e); [done |].
  mstep (upd_frame_eq _ _ _ _ He).
  set (s1 := set_s_ft _ s).
  assert (rd (ft (s_ft s1)) (KVADDR_TO_ID kvaddr) = Ret (set_fte_status FRAME_STATUS_FREE e)) as He1.
  { cbn -[rd]. by rewrite (rd_upd _ _ _ _ _ He), decide_True. }
  mstep (upd_frame_eq _ _ _ _ He1).
  set (s2 := set_s_ft _ s1).
  assert (rd (ft (s_ft s2)) (KVADDR_TO_ID kvaddr) =
            Ret (set_fte_locked false (set_fte_status FRAME_STATUS_FREE e))) as He2.
  { cbn -[rd]. by rewrite (rd_upd _ _ _ _ _ He1), decide_True. }
  mpure.
  mstep (upd_frame_eq _ _ _ _ He2).
  unfold mod_ft. cbn -[rd]. unfold free_in, freed. by rewrite !list_insert_insert_eq.
Qed.

Lemma keeps_frame_free kvaddr : keeps ft_inv (frame_free kvaddr).
Proof.
  intros s r s' HP. rewrite frame_free_eq by done.
  destruct (frame_check (s_ft s) kvaddr) as [e |] eqn:E; [| by intros [= <- <-]].
  apply frame_check_Some in E as ([? ?] & He & Hs).
  destruct (fte_locked e); [by intros [= <- <-] |]. intros [= <- <-].
  unfold ft_inv. cbn. by eapply ft_ok_put.
Qed.

#[export] Instance ft_stable_ft_inv : FtStable ft_inv.
Proof.
  split; intros.
  - by apply keeps_upd_frame.
  - apply keeps_next_victim.
  - apply keeps_take_frame.
  - apply keeps_frame_free.
Qed.

(** * [frame_init] establishes the invariant *)

(** Writing the table of the frames from [i] on is left to do. *)
Definition ft_upto (i : Z) (t : ftab) : Prop :=
  Zlength (ft t) = NFRAMES ∧ 0 ≤ i ≤ 1 ∧ 0 ≤ victim t < NFRAMES ∧
  ∀ id, 0 ≤ id < NFRAMES → allocated (ft t) id ↔ id < i.

Lemma frame_init_reserve_Ret n i s i' s' :
  ft_upto i (s_ft s) → frame_init_reserve n i s = Ret ((0, i'), s') → ft_upto i' (s_ft s') ∧ 1 ≤ i'.
Proof.
  revert i s. induction n as [| n IH]; intros i s Ht H; [done |]. cbn [frame_init_reserve] in H.
  destruct (Z.ltb_spec (i * PAGE_SIZE) (NFRAMES * SIZEOF_FRAME_ENTRY)) as [Hi | Hi].
  2: { injection H as <- <-. split; [done |]. change (1152 ≤ i * 4096) in Hi. lia. }
  apply M_bind_Ret in H as ([[err paddr] cap] & s1 & H1 & H). apply leaves_map_to_sel4 in H1.
  destruct (Z.eqb_spec err 0) as [-> | He]; [| by injection H as ? _ _].
  apply M_bind_Ret in H as (u & s2 & H2 & H). apply upd_frame_Ret in H2 as (e & He & ->).
  rewrite H1 in He. eapply IH; [| done]. cbn [s_ft set_s_ft]. rewrite H1.
  destruct Ht as (Hl & Hi' & Hv & Ha). split_and!; cbn [ft victim set_ft]; try lia.
  - by rewrite Zlength_insert.
  - change (i * 4096 < 1152) in Hi. lia.
  - intros id Hid. rewrite (allocated_upd _ _ _ _ _ He). case_decide as Hd.
    + subst id. split; [lia | done].
    + rewrite Ha by done. lia.
Qed.

Definition chained (t : ftab) (j : Z) : Prop :=
  ∃ e, rd (ft t) j = Ret e ∧ fte_status e = FRAME_STATUS_UNTYPED ∧
    fte_next_free e = if j =? NFRAMES - 1 then FRAME_INVALID else j + 1.

Lemma frame_init_chain_Ret n i s u s' :
  frame_init_chain n i s = Ret (u, s') → 0 ≤ i →
  ∃ fs, s_ft s' = set_ft fs (s_ft s) ∧ Zlength fs = Zlength (ft (s_ft s)) ∧
    (∀ j, 0 ≤ j < i → rd fs j = rd (ft (s_ft s)) j) ∧
    (∀ j, i ≤ j < i + Z.of_nat n → chained (s_ft s') j).
Proof.
  revert i s. induction n as [| n IH]; intros i s H Hi; cbn [frame_init_chain] in H.
  - injection H as _ <-. exists (ft (s_ft s)). split_and!; [by destruct (s_ft s) | done.. |]. lia.
  - apply M_bind_Ret in H as (u1 & s1 & H1 & H). apply upd_frame_Ret in H1 as (e & He & ->).
    apply IH in H as (fs & E & Hl & Hlo & Hhi); [| lia].
    cbn [s_ft set_s_ft ft set_ft] in *. exists fs. split_and!.
    + rewrite E. by destruct (s_ft s).
    + by rewrite Hl, Zlength_insert.
    + intros j Hj. rewrite Hlo by lia. rewrite (rd_upd _ _ _ _ _ He). by rewrite decide_False by lia.
    + intros j Hj. destruct (decide (j = i)) as [-> | Hne].
      * eexists. rewrite E. cbn [ft set_ft]. rewrite Hlo by lia.
        rewrite (rd_upd _ _ _ _ _ He), decide_True by done. by split_and!.
      * destruct (Hhi j) as (e1 & ?); [lia |]. by exists e1.
Qed.

(** The frames from [i] on, in order. *)
Lemma chain_seqZ t i n :
  (∀ j, i ≤ j < NFRAMES → chained t j) → i + Z.of_nat (S n) = NFRAMES →
  chain (ft t) i (seqZ i (Z.of_nat (S n))).
Proof.
  revert i. induction n as [| n IH]; intros i Hc Hn.
  - rewrite seqZ_cons by lia. cbn [chain]. split; [done |].
    destruct (Hc i) as (e & He & _ & Hnx); [lia |]. exists e. split; [done |].
    rewrite Hnx. replace (i =? NFRAMES - 1) with true by (symmetry; lia). done.
  - rewrite seqZ_cons by lia. split; [done |].
    destruct (Hc i) as (e & He & _ & Hnx); [lia |]. exists e. split; [done |].
    rewrite Hnx. replace (i =? NFRAMES - 1) with false by (symmetry; lia).
    replace (Z.pred _) with (Z.of_nat (S n)) by lia. apply (IH (Z.succ i)); [| lia].
    intros j Hj. destruct (Hc j) as (e' & ?); [lia |]. by exists e'.
Qed.

Lemma frame_init_ft_inv s s' :
  0 ≤ victim (s_ft s) < NFRAMES → frame_init s = Ret (0, s') → ft_inv s'.
Proof.
  intros Hv. unfold frame_init, mod_ft. mpure. intros H.
  apply M_bind_Ret in H as ([err i] & s1 & H1 & H).
  destruct (Z.eqb_spec err 0) as [-> | He]; [| by injection H].
  apply frame_init_reserve_Ret in H1 as [(Hl & Hi & Hvi & Ha) Hi1]; last first.
  { split_and!; cbn [s_ft set_s_ft ft set_ft victim]; try done; try lia. intros id Hid.
    split; [| lia]. intros (e & He & Hs). apply rd_Ret in He as [_ He].
    by apply lookup_replicate in He as [-> _]. }
  revert H. cbn [negb Z.eqb]. mpure. intros H. minv1 H. rename H0 into Hc.
  apply frame_init_chain_Ret in Hc as (fs & E & Hl' & Hlo & Hhi); [| lia].
  cbn [s_ft set_s_ft set_first_free set_frametable_reserved ft] in *.
  assert (NFRAMES = 32) as HN by done.
  assert (∀ id, 0 ≤ id < NFRAMES → allocated fs id ↔ id < i) as Ha'.
  { intros id Hid. destruct (decide (id < i)) as [Hlt | Hge].
    - unfold allocated. rewrite Hlo by lia. by apply Ha.
    - destruct (Hhi id) as (e & He & Hs & _); [lia |]. rewrite E in He. cbn [ft set_ft] in He.
      rewrite (allocated_dec_eq _ _ _ He), Hs. split; [done | lia]. }
  injection H2 as <-. unfold ft_inv. cbn [s_ft set_s_ft]. rewrite E.
  split; cbn; try done; try lia.
  - exists (seqZ i (NFRAMES - i)). split_and!.
    + replace (NFRAMES - i) with (Z.of_nat (S (Z.to_nat (NFRAMES - i - 1)))) by lia.
      change fs with (ft (set_ft fs (s_ft s1))). apply chain_seqZ; [| lia].
      intros j Hj. destruct (Hhi j) as (e & He & ?); [lia |].
      exists e. by rewrite E in He.
    + apply NoDup_seqZ.
    + intros id. rewrite elem_of_seqZ. split; [intros; split; [lia | rewrite Ha' by lia; lia] |].
      intros [Hid Hna]. rewrite Ha' in Hna by done. lia.
  - intros id Hid. apply Ha'; lia.
Qed.
