(* ===== verification/FrameAlloc.v ===== *)
(** Taking and giving back frames: what [_map_to_sel4], [_frame_alloc_end] and
    [frame_free] do, on every path.

    With an untyped allocator that has no stale search hint nothing faults; the
    frame handed out was not in use, its page is zero, and no other frame
    changes. *)

From S2P Require Import Prelude UtAllocator Sos Hoare Mapping SwapSlots FrameTable FrameInv.

(** * Asking the kernel *)

(** Only the untyped allocator, the trace and the clock of the environment
    changed. *)
Definition kernel_only (s s' : sos) : Prop :=
  ∃ u l k, s' = set_s_tick k (set_s_log l (set_s_ut u s)).

Lemma kernel_only_refl s : kernel_only s s.
Proof. exists (s_ut s), (s_log s), (s_tick s). by destruct s. Qed.

Lemma kernel_only_trans s1 s2 s3 : kernel_only s1 s2 → kernel_only s2 s3 → kernel_only s1 s3.
Proof. intros (u & l & k & ->) (u' & l' & k' & ->). by exists u', l', k'. Qed.

Lemma kernel_only_ft s s' : kernel_only s s' → s_ft s' = s_ft s.
Proof. by intros (u & l & k & ->). Qed.

Section asks.
(** The reason why the untyped allocator may fault. *)
Context (P : Prop).

(** A computation that only talks to the kernel, and returns unless the untyped
    allocator faults. *)
Definition asks {A : Type} (m : M A) (s : sos) (Q : A → sos → Prop) : Prop :=
  (∃ a s', m s = Ret (a, s') ∧ kernel_only s s' ∧ Q a s') ∨ (m s = Fault OutOfBounds ∧ P).

Lemma asks_bind {A B : Type} (m : M A) (k : A → M B) s Q R :
  asks m s Q → (∀ a s', kernel_only s s' → Q a s' → asks (k a) s' R) →
  asks (m ≫= k) s R.
Proof.
  intros [(a & s1 & E & Hk & HQ) | [E HP]] H.
  2: { right. split; [| done]. unfold mbind, M_bind. by rewrite E. }
  destruct (H a s1 Hk HQ) as [(b & s2 & E2 & Hk2 & HR) | [E2 HP]].
  - left. exists b, s2. split; [by rewrite (M_bind_eq _ _ _ _ _ E) |].
    split; [by eapply kernel_only_trans | done].
  - right. split; [by rewrite (M_bind_eq _ _ _ _ _ E) | done].
Qed.

Lemma asks_ret {A : Type} (a : A) s (Q : A → sos → Prop) : Q a s → asks (mret a) s Q.
Proof. intros. left. exists a, s. split_and!; [done | apply kernel_only_refl | done]. Qed.

Lemma asks_invoke i s (Q : Z → sos → Prop) :
  (∀ r s', s_ut s' = s_ut s → Q r s') → asks (invoke i) s Q.
Proof.
  intros H. left. unfold invoke, ask, emit. eexists _, _. split; [done |]. split; [| by apply H].
  exists (s_ut s), (s_log s ++ [EvInvoke i (e_sel4 (s_env s) (s_tick s))]), (S (s_tick s)).
  by destruct s.
Qed.

Lemma asks_ask {A : Type} (f : env → nat → A) s (Q : A → sos → Prop) :
  (∀ r s', s_ut s' = s_ut s → Q r s') → asks (ask f) s Q.
Proof.
  intros H. left. eexists _, _. split; [done |]. split; [| by apply H].
  exists (s_ut s), (s_log s), (S (s_tick s)). by destruct s.
Qed.

Lemma asks_retype addr type sizebits s (Q : Z * Z → sos → Prop) :
  (∀ r s', s_ut s' = s_ut s → Q r s') → asks (cspace_ut_retype_addr addr type sizebits) s Q.
Proof.
  intros H. unfold cspace_ut_retype_addr.
  eapply asks_bind; [apply (asks_invoke _ _ (λ _ s', s_ut s' = s_ut s)); naive_solver |].
  intros err s1 _ H1. cbn beta in H1.
  eapply asks_bind; [apply (asks_ask _ _ (λ _ s', s_ut s' = s_ut s)) |].
  { intros. congruence. }
  intros cap s2 _ H2. apply asks_ret. by apply H.
Qed.

(** * Untyped memory *)

(** The live blocks of the untyped allocator are [L]. *)
Definition ut_at (base n : Z) (L : gset (Z * Z)) (s : sos) : Prop :=
  ut_repr base n (s_ut s) L ∧ ∀ t, stale (s_ut s) t → P.

Lemma asks_ut_alloc base n L sizebits s :
  ut_at base n L s → is_size sizebits →
  asks (ut_allocM sizebits) s (λ addr s',
    (addr = 0 ∧ ut_at base n L s') ∨
    (addr ≠ 0 ∧ block_fits base n (addr, sizebits) ∧
     (∀ b, b ∈ L → disjoint_blocks (addr, sizebits) b) ∧
     ut_at base n ({[(addr, sizebits)]} ∪ L) s')).
Proof.
  intros [Hr Hh] Hs. unfold asks, ut_allocM, run_ut.
  destruct (decide (stale (s_ut s) sizebits)) as [Hst | Hst].
  { right. rewrite (ut_alloc_stale _ _ _ _ _ Hr Hst). split; [done | by eapply Hh]. }
  destruct (ut_alloc_total _ _ _ _ _ Hr Hst Hs) as (addr & st & E & [_ Hst' Hf _ Hok]).
  left. exists addr, (set_s_ut st s). rewrite E. split; [done |]. split.
  { exists st, (s_log s), (s_tick s). by destruct s. }
  assert (∀ t, stale st t → P) as Hh' by (intros t Ht; eapply Hh, Hst', Ht).
  destruct (decide (addr = 0)) as [-> | Hne]; [left; split; [done |]; split; auto |].
  right. destruct (Hok Hne) as (? & ? & ?). by split_and!.
Qed.

Lemma asks_ut_free base n L addr sizebits s :
  ut_repr base n (s_ut s) L → (addr, sizebits) ∈ L →
  asks (ut_freeM addr sizebits) s (λ _ s', ut_repr base n (s_ut s') (L ∖ {[(addr, sizebits)]})).
Proof.
  intros Hr Hin. destruct (ut_free_total _ _ _ _ _ _ Hr Hin) as (st & E & Hr' & _).
  left. exists tt, (set_s_ut st s). unfold ut_freeM, run_ut. rewrite E.
  split; [done |]. split; [| done].
  exists st, (s_log s), (s_tick s). by destruct s.
Qed.

(** * Mapping *)

(** The blocks a page table took, if one was made. *)
Definition page_tables (pts : gset (Z * Z)) : Prop :=
  pts = ∅ ∨ ∃ a, pts = {[(a, seL4_PageTableBits)]}.

Lemma asks_map_page_table base n L pd vaddr s :
  ut_at base n L s →
  asks (map_page_table pd vaddr) s (λ _ s',
    ∃ pts, page_tables pts ∧ ut_at base n (pts ∪ L) s').
Proof.
  intros H. unfold map_page_table.
  eapply asks_bind; [apply (asks_ut_alloc _ _ _ _ _ H); right; left; by left |].
  intros addr s1 _ [[-> H1] | (Hne & _ & _ & H1)].
  { apply asks_ret. exists ∅. split; [by left |]. by rewrite (left_id_L ∅ (∪)). }
  destruct (Z.eqb_spec addr 0); [done |].
  assert (∃ pts, page_tables pts ∧ ut_at base n (pts ∪ L) s1) as Hp.
  { exists {[(addr, seL4_PageTableBits)]}. split; [right; by exists addr | done]. }
  clear H1. eapply asks_bind.
  { apply (asks_retype _ _ _ _ (λ _ s', s_ut s' = s_ut s1)). naive_solver. }
  intros [err cap] s2 _ H2. cbn beta in H2. unfold ut_at in *.
  destruct (negb (err =? 0)).
  - apply asks_ret. by rewrite H2.
  - apply asks_invoke. intros r s3 H3. by rewrite H3, H2.
Qed.

Lemma asks_map_page base n L cap pd vaddr rights attr s :
  ut_at base n L s →
  asks (map_page cap pd vaddr rights attr) s (λ _ s',
    ∃ pts, page_tables pts ∧ ut_at base n (pts ∪ L) s').
Proof.
  intros H. unfold map_page.
  eapply asks_bind; [apply (asks_invoke _ _ (λ _ s', s_ut s' = s_ut s)); naive_solver |].
  intros err s1 _ H1. cbn beta in H1. unfold ut_at in *. rewrite <- H1 in H.
  destruct (err =? seL4_FailedLookup).
  - eapply asks_bind; [by apply (asks_map_page_table _ _ _ pd vaddr s1 H) |].
    intros err' s2 _ H2. cbn beta in H2. destruct (err' =? 0); [| by apply asks_ret].
    apply asks_invoke. intros r s3 H3. unfold ut_at in *. by rewrite H3.
  - apply asks_ret. exists ∅. split; [by left |]. by rewrite (left_id_L ∅ (∪)).
Qed.

(** What [_map_to_sel4] leaves: on success a block of one page that was not in
    use is behind the address; otherwise nothing but a page table was taken. *)
Definition mapped_post (base n : Z) (L : gset (Z * Z)) (r : Z * Z * option Z) (s' : sos) : Prop :=
  let '(err, paddr, cap) := r in
  ∃ pts, page_tables pts ∧
  if decide (err = 0) then
    is_Some cap ∧ paddr ≠ 0 ∧ block_fits base n (paddr, seL4_PageBits) ∧
    (∀ b, b ∈ L → disjoint_blocks (paddr, seL4_PageBits) b) ∧
    ut_at base n (pts ∪ ({[(paddr, seL4_PageBits)]} ∪ L)) s'
  else ∃ L', ut_repr base n (s_ut s') L' ∧ L ⊆ L' ∧ L' ⊆ pts ∪ L.

Lemma disjoint_self a sz : 0 ≤ sz → ¬ disjoint_blocks (a, sz) (a, sz).
Proof. intros Hs. unfold disjoint_blocks. simpl. pose proof (Z.pow_pos_nonneg 2 sz). lia. Qed.

Lemma asks_map_to_sel4 base n L pd kvaddr s :
  ut_at base n L s → asks (map_to_sel4 pd kvaddr) s (mapped_post base n L).
Proof.
  intros H. unfold map_to_sel4.
  eapply asks_bind; [apply (asks_ut_alloc _ _ _ _ _ H); right; left; by right |].
  intros paddr s1 _ [[-> [H1 _]] | (Hne & Hfit & Hdis & H1)].
  { apply asks_ret. exists ∅. split; [by left |]. rewrite decide_False by done.
    exists L. split_and!; [done | done | set_solver]. }
  destruct (Z.eqb_spec paddr 0); [done |].
  assert ((paddr, seL4_PageBits) ∉ L) as Hnew.
  { intros Hin. by apply (disjoint_self paddr seL4_PageBits), Hdis. }
  eapply asks_bind.
  { apply (asks_retype _ _ _ _ (λ _ s', s_ut s' = s_ut s1)). naive_solver. }
  intros [err cap] s2 _ H2. cbn beta in H2. unfold ut_at in H1. rewrite <- H2 in H1.
  destruct (Z.eqb_spec err 0) as [-> | He]; cbn [negb].
  2: { eapply asks_bind.
    { eapply asks_ut_free; [apply H1 | set_solver]. }
    intros u s3 _ H3. cbn beta in H3. apply asks_ret. exists ∅. split; [by left |].
    rewrite decide_False by done. eexists. split; [exact H3 |]. set_solver. }
  eapply asks_bind; [by apply (asks_map_page _ _ _ _ _ _ _ _ _ H1) |].
  intros err s3 _ (pts & Hpts & H3).
  destruct (Z.eqb_spec err 0) as [-> | He]; cbn [negb].
  { apply asks_ret. exists pts. split; [done |]. rewrite decide_True by done. by split_and!. }
  assert (pts ∩ {[(paddr, seL4_PageBits)]} = ∅) as Hsep.
  { destruct Hpts as [-> | [a ->]]; [set_solver |].
    apply elem_of_equiv_empty_L. intros b. rewrite elem_of_intersection, !elem_of_singleton.
    by intros [-> [=]]. }
  eapply asks_bind; [eapply asks_ut_free; [apply H3 | set_solver] |].
  intros u s4 _ H4. cbn beta in H4.
  eapply asks_bind; [apply (asks_invoke _ _ (λ _ s', s_ut s' = s_ut s4)); naive_solver |].
  intros r s5 _ H5. cbn beta in H5. apply asks_ret. exists pts. split; [done |].
  rewrite decide_False by done. rewrite H5. eexists. split; [exact H4 |]. set_solver.
Qed.

End asks.

(** * Kernel addresses of frames *)

Lemma NFRAMES_eq : NFRAMES = 32.
Proof. done. Qed.

Lemma ID_TO_KVADDR_eq id : 0 ≤ id < NFRAMES → ID_TO_KVADDR id = FRAME_VSTART + id * PAGE_SIZE.
Proof.
  rewrite NFRAMES_eq. unfold ID_TO_KVADDR, FRAME_VSTART, PAGE_SIZE. intros H.
  rewrite u32_small by lia. lia.
Qed.

Lemma KVADDR_TO_ID_TO_KVADDR id : 0 ≤ id < NFRAMES → KVADDR_TO_ID (ID_TO_KVADDR id) = id.
Proof.
  intros H. rewrite ID_TO_KVADDR_eq by done. rewrite NFRAMES_eq in H.
  unfold KVADDR_TO_ID, PAGE_SIZE. rewrite u32_small by lia.
  replace (FRAME_VSTART + id * 4096 - FRAME_VSTART) with (id * 4096) by lia.
  by rewrite Z.div_mul.
Qed.

Lemma ID_TO_KVADDR_inj i j :
  0 ≤ i < NFRAMES → 0 ≤ j < NFRAMES → ID_TO_KVADDR i = ID_TO_KVADDR j → i = j.
Proof. intros Hi Hj. rewrite !ID_TO_KVADDR_eq by done. unfold PAGE_SIZE. lia. Qed.

Lemma ID_TO_KVADDR_nonzero id : 0 ≤ id < NFRAMES → ID_TO_KVADDR id ≠ 0.
Proof. intros H. rewrite ID_TO_KVADDR_eq by done. unfold FRAME_VSTART, PAGE_SIZE. lia. Qed.

(** The bytes [lo, lo+n) of frame [id] may be accessed once it has memory; the
    first frame holds the table. *)
Lemma accessible_frame s id e lo n :
  rd (ft (s_ft s)) id = Ret e → id ≠ 0 → fte_status e ≠ FRAME_STATUS_UNTYPED →
  Zlength (ft (s_ft s)) = NFRAMES → 0 ≤ lo → 0 ≤ n → lo + n ≤ PAGE_SIZE →
  accessible s (ID_TO_KVADDR id + lo) n = true.
Proof.
  intros He H0 Hs Hl Hlo Hn Hhi. pose proof (rd_bounds _ _ _ He) as Hb. rewrite Hl in Hb.
  rewrite ID_TO_KVADDR_eq by done. unfold accessible.
  replace (in_frames _ _ _) with true; [by rewrite orb_true_r |]. symmetry.
  unfold in_frames, FRAMETABLE_END, SIZEOF_FRAME_ENTRY. rewrite NFRAMES_eq in Hb |- *. unfold FRAME_VSTART, PAGE_SIZE, FRAME_MEMORY in *.
  rewrite !andb_true_iff, !Z.leb_le. split_and!; [lia | lia |].
  apply forallb_forall. intros i _. rewrite !orb_true_iff, !Z.leb_le.
  destruct (decide (Z.of_nat i = id)) as [<- | Hne]; [| lia].
  right. apply rd_Ret in He as [_ He]. rewrite Nat2Z.id in He. rewrite He.
  apply negb_true_iff. by apply Z.eqb_neq.
Qed.

(** * Taking the head of the chain *)

(** The entry [take_frame] writes. *)
Definition taken_entry (cont : frame_alloc_cont) (ind cap paddr next : Z) : frame_entry :=
  mk_fte FRAME_STATUS_ALLOCATED cap paddr (ID_TO_KVADDR ind) (fa_vaddr cont) (fa_as cont)
    (fa_pid cont) next false (fa_noswap cont) true.

(** The frame at the head of the chain of [s] has been handed out in [s']: its
    page is zero, and no other frame and no other byte changed. *)
Record frame_taken (cont : frame_alloc_cont) (s s' : sos) (kvaddr : Z) : Prop := {
  tk_kvaddr : kvaddr = ID_TO_KVADDR (first_free (s_ft s));
  tk_free : ¬ allocated (ft (s_ft s)) (first_free (s_ft s));
  tk_entry : ∃ e cap paddr, rd (ft (s_ft s)) (first_free (s_ft s)) = Ret e ∧
    rd (ft (s_ft s')) (first_free (s_ft s)) =
      Ret (taken_entry cont (first_free (s_ft s)) cap paddr (fte_next_free e)) ∧
    first_free (s_ft s') = fte_next_free e;
  tk_others : ∀ j, j ≠ first_free (s_ft s) → rd (ft (s_ft s')) j = rd (ft (s_ft s)) j;
  tk_zero : ∀ x, kvaddr ≤ x < kvaddr + PAGE_SIZE → s_mem s' x = 0;
  tk_mem : ∀ x, ¬ kvaddr ≤ x < kvaddr + PAGE_SIZE → s_mem s' x = s_mem s x;
  tk_heap : s_heap s' = s_heap s;
  tk_inv : ft_inv s'
}.

(** The head of the chain, when there is one. *)
Lemma head_free s :
  ft_inv s → first_free (s_ft s) ≠ FRAME_INVALID →
  ∃ e, rd (ft (s_ft s)) (first_free (s_ft s)) = Ret e ∧ fte_status e ≠ FRAME_STATUS_ALLOCATED ∧
    0 ≤ first_free (s_ft s) < NFRAMES.
Proof.
  intros [_ Hl _ _ (ch & Hc & Hd & Hin) _] Hne. destruct ch as [| x ch]; [done |].
  destruct Hc as [-> (e & He & _)]. exists e. split; [done |].
  destruct (Hin x) as [Hx _]. destruct Hx as [Hb Hna]; [set_solver |].
  split; [by rewrite (allocated_dec_eq _ _ _ He) in Hna | done].
Qed.

(** Once there is memory behind the head of the chain, it can be taken. *)
Definition take_frame_tail (cont : frame_alloc_cont) (ind : Z) : M Z :=
  _ ← upd_frame ind (λ e,
        mk_fte FRAME_STATUS_ALLOCATED (fte_cap e) (fte_paddr e) (ID_TO_KVADDR ind) (fa_vaddr cont)
               (fa_as cont) (fa_pid cont) (fte_next_free e) false (fa_noswap cont) true);
  _ ← bzero (ID_TO_KVADDR ind) PAGE_SIZE;
  e ← get_frame ind;
  _ ← mod_ft (set_first_free (fte_next_free e));
  mret (ID_TO_KVADDR ind).

Lemma take_frame_tail_eq cont s ind e :
  rd (ft (s_ft s)) ind = Ret e → ind ≠ 0 → Zlength (ft (s_ft s)) = NFRAMES →
  take_frame_tail cont ind s =
    Ret (ID_TO_KVADDR ind,
      set_s_ft (set_first_free (fte_next_free e)
          (set_ft (<[Z.to_nat ind :=
             taken_entry cont ind (fte_cap e) (fte_paddr e) (fte_next_free e)]> (ft (s_ft s))) (s_ft s)))
        (set_s_mem (λ x, if (ID_TO_KVADDR ind <=? x) && (x <? ID_TO_KVADDR ind + PAGE_SIZE)
                         then 0 else s_mem s x) s)).
Proof.
  intros He H0 Hl. unfold take_frame_tail. mstep (upd_frame_eq _ _ _ _ He).
  set (s1 := set_s_ft _ s).
  assert (rd (ft (s_ft s1)) ind = Ret (taken_entry cont ind (fte_cap e) (fte_paddr e) (fte_next_free e)))
    as He1.
  { unfold s1. cbn [s_ft set_s_ft ft set_ft]. by rewrite (rd_upd _ _ _ _ _ He), decide_True. }
  assert (accessible s1 (ID_TO_KVADDR ind) PAGE_SIZE = true) as Hacc.
  { rewrite <- (Z.add_0_r (ID_TO_KVADDR ind)). apply (accessible_frame _ _ _ _ _ He1); try done.
    unfold s1. cbn [s_ft set_s_ft ft set_ft]. by rewrite Zlength_insert. }
  mstep (bzero_eq _ _ _ Hacc). by mstep get_frame_eq by (exact He1).
Qed.

Lemma tail_taken cont s s1 ind e e1 :
  ft_inv s → ind = first_free (s_ft s) →
  rd (ft (s_ft s)) ind = Ret e → fte_status e ≠ FRAME_STATUS_ALLOCATED →
  s_ft s1 = set_ft (<[Z.to_nat ind := e1]> (ft (s_ft s))) (s_ft s) →
  fte_next_free e1 = fte_next_free e →
  s_mem s1 = s_mem s → s_heap s1 = s_heap s →
  ∃ s', take_frame_tail cont ind s1 = Ret (ID_TO_KVADDR ind, s') ∧
    frame_taken cont s s' (ID_TO_KVADDR ind).
Proof.
  intros Hinv -> He Hs Hs1 Hn Hm Hh. pose proof Hinv as [_ Hl _ _ _ _].
  assert (rd (ft (s_ft s1)) (first_free (s_ft s)) = Ret e1) as He1.
  { rewrite Hs1. cbn [ft set_ft]. by rewrite (rd_upd _ _ _ _ _ He), decide_True. }
  assert (first_free (s_ft s) ≠ 0) as H0.
  { intros E0. apply Hs, (allocated_dec_eq _ _ _ He). rewrite E0.
    apply (fo_reserved _ Hinv). pose proof (fo_res _ Hinv). lia. }
  eexists. split.
  { apply (take_frame_tail_eq _ _ _ _ He1 H0). rewrite Hs1. cbn [ft set_ft]. by rewrite Zlength_insert. }
  rewrite Hs1, Hn. cbn [ft set_ft]. rewrite list_insert_insert_eq.
  split; cbn [s_ft set_s_ft s_mem set_s_mem s_heap first_free set_first_free ft set_ft]; try done.
  - by rewrite (allocated_dec_eq _ _ _ He).
  - exists e, (fte_cap e1), (fte_paddr e1). split; [done |]. split; [| done].
    by rewrite (rd_upd _ _ _ _ _ He), decide_True.
  - intros j Hj. by rewrite (rd_upd _ _ _ _ _ He), decide_False.
  - intros x Hx. by replace (_ && _) with true by lia.
  - intros x Hx. replace (_ && _) with false by lia. by rewrite Hm.
  - by apply (ft_ok_take (s_ft s) e).
Qed.

(** [take_frame] always answers: with the head of the chain, or with 0 when the
    kernel has no memory to put behind an untyped frame. *)
Lemma take_frame_total P cont base n L s :
  ft_inv s → first_free (s_ft s) ≠ FRAME_INVALID → ut_at P base n L s →
  (∃ kvaddr s', take_frame cont s = Ret (kvaddr, s') ∧
    (kvaddr = 0 ∧ ft_inv s' ∧ first_free (s_ft s') = first_free (s_ft s) ∧
       (∀ id, allocated (ft (s_ft s')) id ↔ allocated (ft (s_ft s)) id)
     ∨ frame_taken cont s s' kvaddr))
  ∨ (take_frame cont s = Fault OutOfBounds ∧ P).
Proof.
  intros Hinv Hne Hut. destruct (head_free s Hinv Hne) as (e & He & Hs & Hb).
  set (ind := first_free (s_ft s)) in *.
  unfold take_frame. mpure. fold ind. mstep (get_frame_eq _ _ _ He).
  apply Z.eqb_neq in Hs as Hs'. mstep assertM_eq by (by rewrite Hs').
  fold (take_frame_tail cont ind).
  destruct (Z.eqb_spec (fte_status e) FRAME_STATUS_UNTYPED) as [Hu | Hu].
  - destruct (asks_map_to_sel4 P base n L seL4_CapInitThreadPD (ID_TO_KVADDR ind) s Hut)
      as [([[err paddr] cap] & s1 & E1 & (u & l & k & ->) & _) | [E1 HP]].
    2: { right. split; [| done]. rewrite M_bind_assoc. unfold mbind, M_bind. by rewrite E1. }
    left. rewrite M_bind_assoc. mstep E1. rewrite M_bind_assoc.
    mstep upd_frame_eq by (exact He). mpure.
    destruct (Z.eqb_spec err 0) as [-> | Herr]; cbn [negb].
    + match goal with |- context [take_frame_tail _ _ ?s1] =>
        destruct (tail_taken cont s s1 ind e (set_fte_cap (default (fte_cap e) cap)
                               (set_fte_paddr paddr e))) as (s' & E & Ht); [done.. |] end.
      exists (ID_TO_KVADDR ind), s'. split; [done |]. by right.
    + eexists _, _. split; [done |]. left. split; [done |].
      split; [by apply (ft_ok_upd_same (s_ft s) ind e) |]. split; [done |].
      intros id. cbn [s_ft set_s_ft ft set_ft set_s_tick set_s_log set_s_ut].
      rewrite (allocated_upd _ _ _ _ _ He). case_decide as Hd; [| done].
      subst id. by rewrite (allocated_dec_eq _ _ _ He).
  - left. mpure. cbn [negb Z.eqb].
    destruct (tail_taken cont s s ind e e) as (s' & E & Ht); [done.. | | done | done | done |].
    { rewrite list_insert_id; [by destruct (s_ft s) |]. by apply rd_Ret in He as [_ ?]. }
    exists (ID_TO_KVADDR ind), s'. split; [done |]. by right.
Qed.

(** * Claims *)

(** What follows the choice of a frame in [_frame_alloc_end]: tell the caller,
    and free the continuation. *)
Definition hand_out (rec : interp) (cont : frame_alloc_cont) (token kvaddr : Z) : M unit :=
  _ ← call_ rec (CallFrame (fa_callback cont) (fa_token cont) kvaddr);
  free token.

(** [C15] [_frame_alloc_end], reached without an error, never trips its assertion
    that the head of the free chain is not allocated: the caller is told a frame
    that nobody was using, whose page is zero and whose entry describes the
    request, with every other frame and every other byte of memory unchanged; or
    it is told 0, when there was no free frame or no memory to put behind it, and
    then the same frames are allocated as before.  The only way not to get there
    is a stale search hint of the untyped allocator, which makes [ut_alloc] read
    outside its bitfield. *)
Theorem frame_alloc_end_correct (rec : interp) (cont : frame_alloc_cont) (token base n : Z)
    (L : gset (Z * Z)) (s : sos) :
  ft_inv s → ut_repr base n (s_ut s) L → token ≠ 0 → s_heap s !! token = Some (to_obj cont) →
  (∃ kvaddr s', frame_alloc_end rec token 0 s = hand_out rec cont token kvaddr s' ∧
    (kvaddr = 0 ∧ ft_inv s' ∧ (∀ id, allocated (ft (s_ft s')) id ↔ allocated (ft (s_ft s)) id)
     ∨ frame_taken cont s s' kvaddr))
  ∨ (frame_alloc_end rec token 0 s = Fault OutOfBounds ∧ ∃ t, stale (s_ut s) t).
Proof.
  intros Hinv Hut Htok Hh. unfold frame_alloc_end.
  mstep assertM_eq by (by apply negb_true_iff, Z.eqb_neq).
  mstep load_eq by done. cbn [negb Z.eqb].
  destruct (decide (first_free (s_ft s) = FRAME_INVALID)) as [Hi | Hi].
  { left. exists 0, s. split; [| by left]. rewrite M_bind_assoc. mpure. by rewrite Hi. }
  assert (ut_at (∃ t, stale (s_ut s) t) base n L s) as Hut' by (split; eauto).
  rewrite M_bind_assoc. mpure. apply Z.eqb_neq in Hi as Hi'. rewrite Hi'.
  destruct (take_frame_total _ cont base n L s Hinv Hi Hut') as [(kvaddr & s' & E & Hpost) | [E HP]].
  - left. exists kvaddr, s'. split; [by mstep E | naive_solver].
  - right. split; [| done]. unfold mbind, M_bind. by rewrite E.
Qed.

(** [frame_free] on every branch.  An address that is not of an allocated
    frame outside the table's own is refused with [EINVAL], a locked frame with
    [EFAULT], both without any effect; otherwise exactly that frame stops being
    allocated and becomes the head of the free chain. *)
Theorem frame_free_correct (kvaddr : Z) (s : sos) :
  ft_inv s →
  match frame_check (s_ft s) kvaddr with
  | None => frame_free kvaddr s = Ret (EINVAL, s)
  | Some e =>
      if fte_locked e then frame_free kvaddr s = Ret (EFAULT, s)
      else ∃ s', frame_free kvaddr s = Ret (0, s') ∧ ft_inv s' ∧
        first_free (s_ft s') = KVADDR_TO_ID kvaddr ∧ s_mem s' = s_mem s ∧
        ∀ id, allocated (ft (s_ft s')) id ↔
              allocated (ft (s_ft s)) id ∧ id ≠ KVADDR_TO_ID kvaddr
  end.
Proof.
  intros Hinv. rewrite (frame_free_eq kvaddr s Hinv).
  destruct (frame_check (s_ft s) kvaddr) as [e |] eqn:E; [| done].
  destruct (fte_locked e) eqn:Hlock; [done |]. eexists. split; [done |].
  apply frame_check_Some in E as ([? _] & He & Hs).
  split_and!; [by apply (ft_ok_put (s_ft s) _ e) | done | done |].
  intros id. cbn [s_ft set_s_ft ft free_in set_first_free set_ft].
  rewrite (allocated_upd _ _ _ _ _ He). case_decide as Hd; [subst id; naive_solver |].
  naive_solver.
Qed.

(** A frame that was freed is the next one handed out, and nothing of what
    its page held is left: whatever the new owner's request, [_frame_alloc_end]
    takes that frame with its page zeroed. *)
Theorem freed_frame_reused (cont : frame_alloc_cont) (kvaddr : Z) (s s1 : sos) :
  ft_inv s → frame_free kvaddr s = Ret (0, s1) →
  ∃ s2, take_frame cont s1 = Ret (ID_TO_KVADDR (KVADDR_TO_ID kvaddr), s2) ∧
    ∀ x, ID_TO_KVADDR (KVADDR_TO_ID kvaddr) ≤ x <
           ID_TO_KVADDR (KVADDR_TO_ID kvaddr) + PAGE_SIZE → s_mem s2 x = 0.
Proof.
  intros Hinv H. pose proof (keeps_frame_free kvaddr s 0 s1 Hinv H) as Hinv1.
  rewrite (frame_free_eq kvaddr s Hinv) in H.
  destruct (frame_check (s_ft s) kvaddr) as [e |] eqn:E; [| done].
  apply frame_check_Some in E as (Hb & He & Hs). destruct (fte_locked e); [done |].
  injection H as <-. set (id := KVADDR_TO_ID kvaddr) in *.
  set (s1 := set_s_ft _ s) in *. set (e1 := freed (first_free (s_ft s)) e).
  assert (rd (ft (s_ft s1)) id = Ret e1) as He1.
  { unfold s1. cbn [s_ft set_s_ft free_in ft set_ft set_first_free].
    by rewrite (rd_upd _ _ _ _ _ He), decide_True. }
  destruct (tail_taken cont s1 s1 id e1 e1) as (s' & Et & Ht); try done.
  { rewrite list_insert_id; [by destruct (s_ft s1) |]. by apply rd_Ret in He1 as [_ ?]. }
  exists s'. split; [| apply Ht].
  unfold take_frame. mpure. change (first_free (s_ft s1)) with id.
  mstep (get_frame_eq _ _ _ He1). mpure. exact Et.
Qed.

(** * Examples *)

(** SOS after [frame_init], in an environment where nothing fails. *)
Definition sos_frames : sos :=
  match frame_init (sos_start env_ok ut_example) with
  | Ret (_, s) => set_s_ut ut_example s
  | Fault _ => sos_start env_ok ut_example
  end.

Lemma sos_frames_inv : ft_inv sos_frames.
Proof.
  unfold sos_frames.
  assert (match frame_init (sos_start env_ok ut_example) with
          | Ret (r, _) => r =? 0 | Fault _ => false end = true) as H by (vm_compute; done).
  destruct (frame_init (sos_start env_ok ut_example)) as [[r s] |] eqn:E; [| done].
  apply Z.eqb_eq in H as ->. apply frame_init_ft_inv in E.
  - exact E.
  - cbn [victim s_ft sos_start]. rewrite NFRAMES_eq. lia.
Qed.

Lemma sos_frames_ut : s_ut sos_frames = ut_example.
Proof.
  unfold sos_frames. by destruct (frame_init (sos_start env_ok ut_example)) as [[r s] |].
Qed.

(** A request of process 5 for the page at 0x10000. *)
Definition fa_example : frame_alloc_cont :=
  mk_fa cb_sos_page_map_5 0 HEAP_START 0x10000 5 false.

(** SOS after that request was served: frame 1 is allocated. *)
Definition sos_frames1 : sos :=
  match take_frame fa_example sos_frames with
  | Ret (_, s) => s
  | Fault _ => sos_frames
  end.

Lemma sos_frames1_inv : ft_inv sos_frames1.
Proof.
  unfold sos_frames1. destruct (take_frame fa_example sos_frames) as [[kv s] |] eqn:E.
  - by eapply keeps_take_frame; [apply sos_frames_inv |].
  - apply sos_frames_inv.
Qed.

Lemma ft_inv_heap h s : ft_inv s → ft_inv (set_s_heap h s).
Proof. done. Qed.

Lemma s_ut_heap h s : s_ut (set_s_heap h s) = s_ut s.
Proof. done. Qed.

Lemma sos_frames_repr h : ut_repr 16384 2 (s_ut (set_s_heap h sos_frames)) ∅.
Proof. rewrite s_ut_heap, sos_frames_ut. apply ut_example_repr. Qed.

Lemma sos_frames_stale h t : ¬ stale (s_ut (set_s_heap h sos_frames)) t.
Proof. rewrite s_ut_heap, sos_frames_ut. apply hints_ok_stale, ut_example_repr. Qed.

Lemma frame_alloc_end_correct_witness :
  ∃ kvaddr s',
    frame_alloc_end (λ _, mret 0) HEAP_START 0
      (set_s_heap {[ HEAP_START := to_obj fa_example ]} sos_frames) =
    hand_out (λ _, mret 0) fa_example HEAP_START kvaddr s' ∧ ft_inv s'.
Proof.
  destruct (frame_alloc_end_correct (λ _, mret 0) fa_example HEAP_START 16384 2 ∅
    (set_s_heap {[ HEAP_START := to_obj fa_example ]} sos_frames)) as [(kv & s' & E & H) | (_ & t & H)].
  - apply ft_inv_heap, sos_frames_inv.
  - apply sos_frames_repr.
  - discriminate.
  - apply lookup_singleton_eq.
  - exists kv, s'. split; [exact E |]. destruct H as [(_ & H & _) | H]; [exact H | apply H].
  - destruct (sos_frames_stale _ _ H).
Defined.

Lemma frame_free_correct_witness :
  ∃ s', frame_free (ID_TO_KVADDR 1) sos_frames1 = Ret (0, s') ∧ first_free (s_ft s') = 1.
Proof.
  pose proof (frame_free_correct (ID_TO_KVADDR 1) sos_frames1 sos_frames1_inv) as H.
  assert (match frame_check (s_ft sos_frames1) (ID_TO_KVADDR 1) with
          | Some e => negb (fte_locked e) | None => false end = true) as Hc by (vm_compute; reflexivity).
  destruct (frame_check (s_ft sos_frames1) (ID_TO_KVADDR 1)) as [e |]; [| discriminate Hc].
  destruct (fte_locked e); [discriminate Hc |]. destruct H as (s' & E & _ & Hf & _).
  exists s'. split; [exact E |]. rewrite Hf. reflexivity.
Defined.

Lemma freed_frame_reused_witness :
  ∃ s1 s2, frame_free (ID_TO_KVADDR 1) sos_frames1 = Ret (0, s1) ∧
    take_frame fa_example s1 = Ret (ID_TO_KVADDR 1, s2) ∧ s_mem s2 (ID_TO_KVADDR 1) = 0.
Proof.
  assert (match frame_free (ID_TO_KVADDR 1) sos_frames1 with
          | Ret (r, _) => r =? 0 | Fault _ => false end = true) as Hc by (vm_compute; reflexivity).
  destruct (frame_free (ID_TO_KVADDR 1) sos_frames1) as [[r s1] |] eqn:E; [| discriminate Hc].
  apply Z.eqb_eq in Hc as ->.
  destruct (freed_frame_reused fa_example (ID_TO_KVADDR 1) sos_frames1 s1 sos_frames1_inv E)
    as (s2 & E2 & Hz).
  exists s1, s2. split; [reflexivity |]. split; [exact E2 |]. apply Hz.
  split; [apply Z.le_refl | reflexivity].
Defined.
