(* ===== verification/SecondChance.v ===== *)
(** The choice of a victim: the loop of [_second_chance_swap_victim] is the clock
    algorithm.

    From the victim pointer on, in circular order, the first frame that may be
    swapped and was not referenced is taken; the referenced ones that are passed
    get their second chance (their page is unmapped and their bit cleared) and
    are taken in the second turn. *)

From S2P Require Import Prelude UtAllocator Sos Hoare Mapping SwapSlots FrameTable FrameInv.
From S2P Require Import FrameAlloc.

(** * The reference *)

Definition swappable (e : frame_entry) : bool := negb (fte_noswap e || fte_locked e).

(** The frame [k] places after the pointer [v]. *)
Definition clock_pos (v k : Z) : Z := (v + k) mod NFRAMES.

(** The hand stops [k] places on: the frame may be swapped, and it is not
    referenced or this is the second turn. *)
Definition clock_stops (fs : list frame_entry) (v k : Z) : bool :=
  match rd fs (clock_pos v k) with
  | Ret e => swappable e && (negb (fte_referenced e) || (NFRAMES <=? k))
  | Fault _ => false
  end.

(** The first place the hand stops at, from [k] on, in at most [n] places. *)
Fixpoint clock_find (fs : list frame_entry) (v : Z) (n : nat) (k : Z) : option Z :=
  match n with
  | O => None
  | S n' => if clock_stops fs v k then Some k else clock_find fs v n' (k + 1)
  end.

(** The hand has passed frame [id] after [k] places. *)
Definition passed (v k id : Z) : bool := (id - v) mod NFRAMES <? k.

(** The frames after [k] places: the referenced ones that may be swapped lost
    their bit. *)
Definition aged (v k id : Z) (e : frame_entry) : frame_entry :=
  if swappable e && passed v k id then set_fte_referenced false e else e.

Lemma clock_pos_range v k : 0 ≤ clock_pos v k < NFRAMES.
Proof. by apply Z.mod_pos_bound. Qed.

Lemma clock_pos_next v k : next_victim (clock_pos v k) = clock_pos v (k + 1).
Proof.
  unfold next_victim, clock_pos. rewrite NFRAMES_eq. divmod.
Qed.

Lemma passed_pos v k : 0 ≤ k → passed v k (clock_pos v k) = (NFRAMES <=? k).
Proof.
  intros Hk. unfold passed, clock_pos. rewrite NFRAMES_eq.
  destruct (Z.leb_spec 32 k), (Z.ltb_spec (((v + k) mod 32 - v) mod 32) k); try done; exfalso; divmod.
Qed.

Lemma passed_next v k id :
  0 ≤ k → 0 ≤ id < NFRAMES → passed v (k + 1) id = passed v k id || (id =? clock_pos v k).
Proof.
  rewrite NFRAMES_eq. intros Hk Hid. unfold passed, clock_pos. rewrite NFRAMES_eq.
  destruct (Z.ltb_spec ((id - v) mod 32) (k + 1)), (Z.ltb_spec ((id - v) mod 32) k),
    (Z.eqb_spec id ((v + k) mod 32)); try done; exfalso; divmod.
Qed.

(** * Unmapping *)

(** The page tables, the heap and the frames' memory are those of [s]. *)
Definition quiet (s s1 : sos) : Prop :=
  s_heap s1 = s_heap s ∧ s_mem s1 = s_mem s ∧
  fte_status <$> ft (s_ft s1) = fte_status <$> ft (s_ft s).

Section kernel_only.
Context (s0 : sos).

Lemma keeps_ko_invoke i : keeps (kernel_only s0) (invoke i).
Proof.
  intros s r s' (u & l & k & ->) H. unfold invoke, ask, emit in H. cbn in H.
  injection H as <- <-. eexists u, _, _. by destruct s0.
Qed.

Lemma keeps_ko_unmap asp vaddr : keeps (kernel_only s0) (sos_page_unmap asp vaddr).
Proof.
  pose proof keeps_ko_invoke.
  unfold sos_page_unmap, tables_present, pt_get, pd_get, load_word. keeps; auto.
Qed.

End kernel_only.

Lemma sos_page_unmap_only asp vaddr s r s' :
  sos_page_unmap asp vaddr s = Ret (r, s') → kernel_only s s'.
Proof. apply keeps_ko_unmap, kernel_only_refl. Qed.

(** [sos_page_unmap] of a frame that may be swapped does not fault. *)
Definition unmap_safe (s : sos) : Prop :=
  ∀ id e s1, rd (ft (s_ft s)) id = Ret e → swappable e = true → quiet s s1 →
  ∃ r s2, sos_page_unmap (fte_as e) (fte_vaddr e) s1 = Ret (r, s2).

(** * The loop *)

(** [s1] is [s] after the hand moved [k] places on from [v]. *)
Record turned (s : sos) (v k : Z) (s1 : sos) : Prop := {
  tn_heap : s_heap s1 = s_heap s;
  tn_mem : s_mem s1 = s_mem s;
  tn_len : Zlength (ft (s_ft s1)) = NFRAMES;
  tn_victim : victim (s_ft s1) = clock_pos v k;
  tn_first : first_free (s_ft s1) = first_free (s_ft s);
  tn_frames : ∀ id e, rd (ft (s_ft s)) id = Ret e → rd (ft (s_ft s1)) id = Ret (aged v k id e)
}.

Lemma aged_status v k id e : fte_status (aged v k id e) = fte_status e.
Proof. unfold aged. by destruct (_ && _). Qed.

Lemma aged_swappable v k id e : swappable (aged v k id e) = swappable e.
Proof. unfold aged. by destruct (_ && _). Qed.

Lemma aged_page v k id e :
  fte_as (aged v k id e) = fte_as e ∧ fte_vaddr (aged v k id e) = fte_vaddr e.
Proof. unfold aged. by destruct (_ && _). Qed.

Lemma turned_quiet s v k s1 : Zlength (ft (s_ft s)) = NFRAMES → turned s v k s1 → quiet s s1.
Proof.
  intros Hl [Hh Hm Hl1 _ _ Hf]. split; [done |]. split; [done |].
  apply list_eq. intros i. rewrite !list_lookup_fmap.
  destruct (ft (s_ft s) !! i) as [e |] eqn:E.
  - assert (rd (ft (s_ft s)) (Z.of_nat i) = Ret e) as He.
    { apply rd_Ret. rewrite Nat2Z.id. split; [lia | done]. }
    apply Hf, rd_Ret in He as [_ He]. rewrite Nat2Z.id in He. rewrite He. cbn.
    by rewrite aged_status.
  - apply lookup_ge_None in E. rewrite lookup_ge_None_2; [done |]. unfold Zlength in *. lia.
Qed.

(** Moving the hand over a frame whose entry is [f e1] afterwards. *)
Lemma turned_next s v k s1 e e1 s2 :
  0 ≤ k → turned s v k s1 → Zlength (ft (s_ft s)) = NFRAMES →
  rd (ft (s_ft s)) (clock_pos v k) = Ret e → e1 = aged v (k + 1) (clock_pos v k) e →
  s_heap s2 = s_heap s1 → s_mem s2 = s_mem s1 →
  s_ft s2 = set_victim (next_victim (clock_pos v k))
              (set_ft (<[Z.to_nat (clock_pos v k) := e1]> (ft (s_ft s1))) (s_ft s1)) →
  turned s v (k + 1) s2.
Proof.
  intros Hk [Hh Hm Hl Hv Hff Hf] Hls He -> Hh2 Hm2 Hft. pose proof (Hf _ _ He) as He1.
  split; rewrite ?Hh2, ?Hm2, ?Hft; cbn [ft set_ft victim set_victim first_free]; try done.
  - by rewrite Zlength_insert.
  - apply clock_pos_next.
  - intros id e' He'. rewrite (rd_upd _ _ _ _ _ He1). case_decide as Hd.
    + subst id. by rewrite He in He'; injection He' as <-.
    + rewrite (Hf _ _ He'). f_equal. unfold aged. pose proof (rd_bounds _ _ _ He').
      rewrite passed_next by lia. by destruct (Z.eqb_spec id (clock_pos v k)); [| rewrite orb_false_r].
Qed.

Lemma second_chance_loop_eq s v n k s1 :
  unmap_safe s → Zlength (ft (s_ft s)) = NFRAMES → 0 ≤ k → turned s v k s1 →
  ∃ s2, second_chance_loop n s1 =
    Ret (match clock_find (ft (s_ft s)) v n k with
         | Some k' => ID_TO_KVADDR (clock_pos v k')
         | None => 0
         end, s2) ∧
    match clock_find (ft (s_ft s)) v n k with
    | Some k' => ∃ s3, turned s v k' s3 ∧
        s2 = set_s_ft (set_victim (clock_pos v (k' + 1)) (s_ft s3)) s3
    | None => turned s v (k + Z.of_nat n) s2
    end.
Proof.
  intros Hsafe Hl. revert k s1. induction n as [| n IH]; intros k s1 Hk Ht.
  { exists s1. split; [done |]. cbn. by rewrite Z.add_0_r. }
  pose proof Ht as [Hh Hm Hl1 Hv Hff Hf]. cbn [second_chance_loop clock_find].
  destruct (rd_in (ft (s_ft s)) (clock_pos v k)) as [e He]; [rewrite Hl; apply clock_pos_range |].
  pose proof (Hf _ _ He) as He1. mpure. rewrite Hv. mstep (get_frame_eq _ _ _ He1).
  unfold clock_stops at 1 2. rewrite He.
  set (e1 := aged v k (clock_pos v k) e) in *.
  assert (swappable e1 = swappable e) as Hsw by apply aged_swappable.
  replace (fte_noswap e1 || fte_locked e1) with (negb (swappable e))
    by (rewrite <- Hsw; unfold swappable; by rewrite negb_involutive).
  replace (k + Z.of_nat (S n)) with (k + 1 + Z.of_nat n) by lia.
  destruct (swappable e) eqn:Hs; cbn [negb andb].
  2: { unfold mod_ft. mpure. apply IH; [lia |].
    eapply (turned_next _ _ _ s1 e e1); try done.
    - unfold e1, aged. by rewrite Hs.
    - cbn [s_ft set_s_ft]. rewrite list_insert_id; [by destruct (s_ft s1) |].
      by apply rd_Ret in He1 as [_ ?]. }
  assert (fte_referenced e1 = fte_referenced e && negb (NFRAMES <=? k)) as Href.
  { unfold e1, aged. rewrite Hs, passed_pos by done. cbn [andb].
    destruct (NFRAMES <=? k); cbn; [by rewrite andb_false_r | by rewrite andb_true_r]. }
  replace (negb (fte_referenced e) || (NFRAMES <=? k)) with (negb (fte_referenced e1))
    by (rewrite Href; by destruct (fte_referenced e), (NFRAMES <=? k)).
  destruct (fte_referenced e1) eqn:Hr1; cbn [negb].
  - destruct (aged_page v k (clock_pos v k) e) as [Has Hva]. fold e1 in Has, Hva. rewrite Has, Hva.
    destruct (Hsafe _ e s1 He Hs (turned_quiet _ _ _ _ Hl Ht)) as (r & s2 & E).
    mstep E. destruct (sos_page_unmap_only _ _ _ _ _ E) as (u & l & t & ->).
    mstep upd_frame_eq by (exact He1). unfold mod_ft. mpure. apply IH; [lia |].
    eapply (turned_next _ _ _ s1 e (set_fte_referenced false e1)); try done.
    unfold e1, aged. rewrite Hs, passed_pos, passed_next, Z.eqb_refl, orb_true_r
      by (done || apply clock_pos_range). cbn [andb]. by destruct (NFRAMES <=? k).
  - unfold mod_ft. mpure. eexists. split; [done |]. exists s1. split; [done |].
    by rewrite clock_pos_next.
Qed.

(** * Where the hand stops *)

Lemma clock_find_Some fs v n k k' :
  clock_find fs v n k = Some k' →
  k ≤ k' < k + Z.of_nat n ∧ clock_stops fs v k' = true ∧
  ∀ i, k ≤ i < k' → clock_stops fs v i = false.
Proof.
  revert k. induction n as [| n IH]; intros k H; [done |]. cbn [clock_find] in H.
  destruct (clock_stops fs v k) eqn:E.
  - injection H as <-. split_and!; [lia | lia | done |]. lia.
  - apply IH in H as (? & ? & Hi). split_and!; [lia | lia | done |].
    intros i Hi'. destruct (decide (i = k)) as [-> |]; [done |]. apply Hi. lia.
Qed.

Lemma clock_find_None fs v n k :
  clock_find fs v n k = None → ∀ i, k ≤ i < k + Z.of_nat n → clock_stops fs v i = false.
Proof.
  revert k. induction n as [| n IH]; intros k H i Hi; [lia |]. cbn [clock_find] in H.
  destruct (clock_stops fs v k) eqn:E; [done |].
  destruct (decide (i = k)) as [-> |]; [done |]. by apply (IH (k + 1)); [| lia].
Qed.

(** The second turn reaches every frame. *)
Lemma second_turn v id :
  0 ≤ id < NFRAMES → ∃ k, NFRAMES ≤ k < 2 * NFRAMES ∧ clock_pos v k = id.
Proof.
  rewrite NFRAMES_eq. intros Hid. exists (32 + (id - v) mod 32).
  unfold clock_pos. rewrite NFRAMES_eq. split; divmod.
Qed.

Lemma clock_find_total fs v id e :
  Zlength fs = NFRAMES → rd fs id = Ret e → swappable e = true →
  ∃ k, clock_find fs v (Z.to_nat (3 * NFRAMES)) 0 = Some k ∧ k < 2 * NFRAMES.
Proof.
  intros Hl He Hs. pose proof (rd_bounds _ _ _ He) as Hb. rewrite Hl in Hb.
  destruct (second_turn v id Hb) as (k & Hk & Hp).
  assert (clock_stops fs v k = true) as Hst.
  { unfold clock_stops. rewrite Hp, He, Hs. cbn [andb].
    replace (NFRAMES <=? k) with true by lia. by rewrite orb_true_r. }
  destruct (clock_find fs v (Z.to_nat (3 * NFRAMES)) 0) as [k' |] eqn:E.
  - exists k'. split; [done |]. apply clock_find_Some in E as (_ & _ & Hbefore).
    destruct (decide (k' < 2 * NFRAMES)); [done |]. rewrite Hbefore in Hst by lia. done.
  - rewrite (clock_find_None _ _ _ _ E k) in Hst; [done |]. rewrite NFRAMES_eq in *. lia.
Qed.

(** * Claims *)

Lemma turned_start s :
  ft_inv s → turned s (victim (s_ft s)) 0 s.
Proof.
  intros [_ Hl _ Hv _ _]. split; try done.
  - unfold clock_pos. rewrite Z.add_0_r, Z.mod_small by done. done.
  - intros id e He. rewrite He. unfold aged, passed.
    pose proof (Z.mod_pos_bound (id - victim (s_ft s)) NFRAMES ltac:(done)).
    destruct (Z.ltb_spec ((id - victim (s_ft s)) mod NFRAMES) 0); [lia |]. by rewrite andb_false_r.
Qed.

(** [C3] [_second_chance_swap_victim] is the clock algorithm, and always answers:
    from the victim pointer on it takes the first frame that is neither [noswap]
    nor locked and is not referenced, or is met in the second turn; the hand ends
    one place further, and the frames that it passed and that may be swapped lost
    their reference bit, nothing else. *)
Theorem second_chance_correct (s : sos) :
  ft_inv s → unmap_safe s →
  let v := victim (s_ft s) in
  ∃ s', match clock_find (ft (s_ft s)) v (Z.to_nat (3 * NFRAMES)) 0 with
  | Some k =>
      second_chance_swap_victim s = Ret (ID_TO_KVADDR (clock_pos v k), s') ∧
      victim (s_ft s') = clock_pos v (k + 1) ∧
      (∀ id e, rd (ft (s_ft s)) id = Ret e → rd (ft (s_ft s')) id = Ret (aged v k id e))
  | None => second_chance_swap_victim s = Ret (0, s')
  end.
Proof.
  intros Hinv Hsafe v. pose proof Hinv as [_ Hl _ _ _ _].
  destruct (second_chance_loop_eq s v (Z.to_nat (3 * NFRAMES)) 0 s Hsafe Hl)
    as (s2 & E & H); [done | by apply turned_start |].
  exists s2. unfold second_chance_swap_victim. rewrite E.
  destruct (clock_find _ _ _ _) as [k |]; [| done].
  destruct H as (s3 & [_ _ _ _ _ Hf] & ->). split_and!; done.
Qed.

(** [C25] A victim is found whenever some frame may be swapped, after at most two
    turns of the [3 * NFRAMES] places the loop allows, and the frame found may be
    swapped; 0 is the answer only if every frame is [noswap] or locked. *)
Theorem second_chance_finds (s : sos) (id : Z) (e : frame_entry) :
  ft_inv s → unmap_safe s → rd (ft (s_ft s)) id = Ret e → swappable e = true →
  ∃ id' e' s', second_chance_swap_victim s = Ret (ID_TO_KVADDR id', s') ∧
    ID_TO_KVADDR id' ≠ 0 ∧ rd (ft (s_ft s)) id' = Ret e' ∧ swappable e' = true.
Proof.
  intros Hinv Hsafe He Hs. pose proof Hinv as [_ Hl _ _ _ _].
  set (v := victim (s_ft s)).
  destruct (clock_find_total _ v _ _ Hl He Hs) as (k & Hk & _).
  destruct (second_chance_loop_eq s v (Z.to_nat (3 * NFRAMES)) 0 s Hsafe Hl)
    as (s2 & E & _); [done | by apply turned_start |].
  rewrite Hk in E. apply clock_find_Some in Hk as (_ & Hst & _). unfold clock_stops in Hst.
  destruct (rd (ft (s_ft s)) (clock_pos v k)) as [e' |] eqn:He'; [| done].
  apply andb_true_iff in Hst as [Hs' _].
  exists (clock_pos v k), e', s2. split_and!; [done | | done | done].
  apply ID_TO_KVADDR_nonzero, clock_pos_range.
Qed.

(** * Examples *)

Lemma unmap_absent asp vaddr s :
  asp = 0 ∨ (asp ≠ 0 ∧ ∃ a, s_heap s !! asp = Some (to_obj a) ∧ as_pd_caps a = 0) →
  sos_page_unmap asp vaddr s = Ret (EINVAL, s).
Proof.
  intros [-> | (Hne & a & Ha & Hc)]; [done |]. unfold sos_page_unmap, tables_present.
  destruct (Z.eqb_spec asp 0); [done |]. rewrite M_bind_assoc.
  mstep load_eq by done. rewrite Hc. done.
Qed.

(** Frame 1 belongs to an address space without page tables. *)
Definition as_example : addrspace := mk_as 0 0 [] None None 0 [].

Definition sos_victim : sos :=
  set_s_heap {[ HEAP_START := to_obj as_example ]} sos_frames1.

Lemma sos_victim_inv : ft_inv sos_victim.
Proof. apply ft_inv_heap, sos_frames1_inv. Qed.

Lemma sos_victim_safe : unmap_safe sos_victim.
Proof.
  intros id e s1 He _ (Hh & _ & _). eexists _, _. apply unmap_absent. rewrite Hh.
  assert (Forall (λ e, fte_as e = 0 ∨ fte_as e = HEAP_START) (ft (s_ft sos_victim))) as Hf.
  { vm_compute. repeat (apply Forall_cons; split; [(left; reflexivity) || (right; reflexivity) |]).
    by apply Forall_nil. }
  apply rd_Ret in He as [_ He]. rewrite Forall_lookup in Hf. destruct (Hf _ _ He) as [-> | ->].
  - by left.
  - right. split; [done |]. exists as_example. split; [apply lookup_singleton_eq | done].
Qed.

Lemma second_chance_correct_witness :
  ∃ s', second_chance_swap_victim sos_victim = Ret (ID_TO_KVADDR 2, s') ∧ victim (s_ft s') = 3.
Proof.
  destruct (second_chance_correct sos_victim sos_victim_inv sos_victim_safe) as (s' & H).
  assert (clock_find (ft (s_ft sos_victim)) (victim (s_ft sos_victim)) (Z.to_nat (3 * NFRAMES)) 0
            = Some 2) as E by (vm_compute; reflexivity).
  rewrite E in H. destruct H as (H1 & H2 & _). exists s'. split; [exact H1 |].
  rewrite H2. vm_compute. reflexivity.
Defined.

Lemma second_chance_finds_witness :
  ∃ id' e' s', second_chance_swap_victim sos_victim = Ret (ID_TO_KVADDR id', s') ∧
    rd (ft (s_ft sos_victim)) id' = Ret e' ∧ swappable e' = true.
Proof.
  assert (∃ e, rd (ft (s_ft sos_victim)) 1 = Ret e ∧ swappable e = true) as (e & He & Hs).
  { vm_compute. eexists. split; reflexivity. }
  destruct (second_chance_finds sos_victim 1 e sos_victim_inv sos_victim_safe He Hs)
    as (id' & e' & s' & H1 & _ & H2 & H3).
  exists id', e', s'. split; [exact H1 |]. split; [exact H2 | exact H3].
Defined.
