(* ===== verification/ProcTable.v ===== *)
(** The process table (proc/proc.c): slots, process ids, the current process.

    There are [MAX_PROC] slots.  A slot hands out process ids from a range of
    [RANGE_PER_SLOT] numbers of its own, one after the other, so that an id
    names its slot and is not reused soon.  The free slots are chained through
    [next_free_pslot] from [first_free_pslot]. *)

From S2P Require Import Prelude UtAllocator Sos Mapping SwapSlots FrameTable.

Definition MAX_PROC : Z := 64.
Definition MAX_PID : Z := Z.shiftl 1 27.
Definition RANGE_PER_SLOT : Z := Z.quot MAX_PID MAX_PROC.

Definition mod_proc (f : procst → procst) : M unit := modify (λ s, set_s_proc (f (s_proc s)) s).

(** C's [%] and [/] on [int]. *)
Definition cal_next_free_pid (pid slot : Z) : Z :=
  Z.rem (pid + 1) RANGE_PER_SLOT + RANGE_PER_SLOT * slot.

Definition free_proc_slot (pid : Z) : M unit :=
  let slot := Z.quot pid RANGE_PER_SLOT in
  t ← gets s_proc;
  ps ← lift (wr (processes t) slot 0);
  _ ← mod_proc (set_processes ps);
  nf ← lift (wr (next_free_pslot t) slot (first_free_pslot t));
  _ ← mod_proc (set_next_free_pslot nf);
  mod_proc (set_first_free_pslot slot).

Definition proc_list_init : M unit :=
  mod_proc (λ t,
    mk_procst (replicate (Z.to_nat MAX_PROC) 0) 0
      (<[Z.to_nat (MAX_PROC - 1) := -1]> ((λ i : nat, Z.of_nat i + 1) <$> seq 0 (Z.to_nat MAX_PROC)))
      ((λ i : nat, RANGE_PER_SLOT * Z.of_nat i) <$> seq 0 (Z.to_nat MAX_PROC))
      (wait_queue t) (cur_proc_ptr t)).

(** The pointer to the process with this id, or 0. *)
Definition proc_getproc (pid : Z) : M Z :=
  if pid =? PROC_NULL then mret 0 else
  let slot := Z.quot pid RANGE_PER_SLOT in
  t ← gets s_proc;
  p ← lift (rd (processes t) slot);
  if p =? 0 then mret 0 else
  proc ← load p;
  mret (if p_pid proc =? pid then p else 0).

Definition cur_proc : M Z := gets (λ s, cur_proc_ptr (s_proc s)).

Definition proc_get_id : M Z :=
  p ← cur_proc;
  if p =? 0 then mret PROC_NULL else
  proc ← load p;
  mret (p_pid proc).

Definition inc_proc_size_proc (p : Z) : M unit :=
  if p =? 0 then mret tt else update p (λ r, set_p_size (u32 (p_size r + 1)) r).

Definition inc_proc_size (pid : Z) : M unit :=
  p ← proc_getproc pid;
  if p =? 0 then mret tt else update p (λ r, set_p_size (u32 (p_size r + 1)) r).

Definition dec_proc_size_proc (p : Z) : M unit :=
  if p =? 0 then mret tt else update p (λ r, set_p_size (u32 (p_size r - 1)) r).

Definition dec_proc_size (pid : Z) : M unit :=
  p ← proc_getproc pid;
  if p =? 0 then mret tt else update p (λ r, set_p_size (u32 (p_size r - 1)) r).

Definition is_proc_alive (pid : Z) : M bool :=
  p ← proc_getproc pid;
  mret (negb (p =? 0)).

Definition set_cur_proc (pid : Z) : M unit :=
  p ← proc_getproc pid;
  mod_proc (set_cur_proc_ptr p).

Definition proc_getas : M Z :=
  p ← cur_proc;
  if p =? 0 then mret 0 else
  proc ← load p;
  mret (p_as proc).

Definition proc_getcroot : M Z :=
  p ← cur_proc;
  if p =? 0 then mret 0 else
  proc ← load p;
  mret (p_croot proc).
