(* ===== verification/AddrSpace.v ===== *)
(** Address spaces (vm/addrspace.c): the regions of a process, and the creation
    and destruction of its page tables.

    A process has a list of regions from its ELF file, a stack and a heap;
    every access by a process or on its behalf is checked against them.  The
    page directories of an address space are two frames, one with the page
    table entries of SOS and one with the capabilities given to seL4. *)

From S2P Require Import Prelude UtAllocator Sos Mapping SwapSlots FrameTable ProcTable.

(** * Regions *)

Definition DIVROUNDUP (a b : Z) : Z := u32 (a + b - 1) / b.

(** [_region_overlap]. *)
Definition region_overlap (r1 r2 : region) : bool :=
  let r1_left_r2 := (vbase r1 <? vbase r2) && (vtop r1 <=? vbase r2) in
  let r1_right_r2 := (vtop r2 <=? vbase r1) && (vtop r2 <=? vtop r1) in
  negb (r1_left_r2 || r1_right_r2).

(** [_region_init]: the new region, and [EINVAL] when it overlaps. *)
Definition region_init (a : addrspace) (vaddr sz rights : Z) : Z * region :=
  let nregion := mk_region vaddr (u32 (vaddr + sz)) rights in
  let stack_hit := match as_stack a with
                   | Some st => region_overlap nregion st
                   | None => false
                   end in
  if stack_hit then (EINVAL, nregion)
  else if existsb (region_overlap nregion) (as_rhead a) then (EINVAL, nregion)
  else (0, nregion).

Definition in_region (addr : Z) (r : region) : bool := (vbase r <=? addr) && (addr <? vtop r).

Definition region_probe_in (a : addrspace) (addr : Z) : option region :=
  match as_stack a with
  | Some st => if in_region addr st then Some st else
      match as_heap a with
      | Some h => if in_region addr h then Some h else List.find (in_region addr) (as_rhead a)
      | None => List.find (in_region addr) (as_rhead a)
      end
  | None =>
      match as_heap a with
      | Some h => if in_region addr h then Some h else List.find (in_region addr) (as_rhead a)
      | None => List.find (in_region addr) (as_rhead a)
      end
  end.

Definition region_probe (asp addr : Z) : M (option region) :=
  _ ← assertM (negb (asp =? 0));
  _ ← assertM (negb (addr =? 0));
  a ← load asp;
  mret (region_probe_in a addr).

(** A [malloc] of a structure that the model keeps by value. *)
Definition malloc_ok : M bool := ask e_malloc.

Definition as_define_region (asp vaddr sz rights : Z) : M Z :=
  _ ← assertM (negb (asp =? 0));
  ok ← malloc_ok;
  if negb ok then mret ENOMEM else
  let vaddr := PAGE_ALIGN vaddr in
  let sz := u32 (DIVROUNDUP sz PAGE_SIZE * PAGE_SIZE) in
  a ← load asp;
  let '(err, nregion) := region_init a vaddr sz rights in
  if negb (err =? 0) then mret err else
  _ ← store asp (set_as_rhead (nregion :: as_rhead a) a);
  mret 0.

(** The guard page's region is built and checked; the assignment to the head of
    the list is the one of the source, [as->as_rhead = page_guard->next]. *)
Definition as_define_stack (asp stack_top size : Z) : M Z :=
  if asp =? 0 then mret EINVAL else
  _ ← assertM (PAGE_OFFSET stack_top =? 0);
  let size := i32 (Z.quot (size + PAGE_SIZE - 1) PAGE_SIZE * PAGE_SIZE) in
  ok ← malloc_ok;
  if negb ok then mret ENOMEM else
  ok ← malloc_ok;
  if negb ok then mret ENOMEM else
  let stack_base := u32 (stack_top - size) in
  a ← load asp;
  let '(err, stack) := region_init a stack_base size seL4_AllRights in
  if negb (err =? 0) then mret err else
  let '(err, page_guard) := region_init a (u32 (stack_base - PAGE_SIZE)) PAGE_SIZE 0 in
  if negb (err =? 0) then mret err else
  let page_guard_next := as_rhead a in
  _ ← store asp (set_as_rhead page_guard_next (set_as_stack (Some stack) a));
  mret 0.

(** The loop of [as_define_heap] over the regions. *)
Fixpoint heap_base_over (rs : list region) (heap_base : Z) : Z :=
  match rs with
  | [] => heap_base
  | r :: rs' => heap_base_over rs' (if heap_base <? vtop r then vtop r else heap_base)
  end.

Definition as_define_heap (asp : Z) : M Z :=
  if asp =? 0 then mret EINVAL else
  a ← load asp;
  let heap_base := heap_base_over (as_rhead a) (1 * PAGE_SIZE) in
  let heap_base := u32 (DIVROUNDUP heap_base PAGE_SIZE * PAGE_SIZE) in
  stack ← lift (deref (as_stack a));
  if vbase stack <? heap_base then mret EFAULT else
  ok ← malloc_ok;
  if negb ok then mret ENOMEM else
  let '(err, heap) := region_init a heap_base 0 seL4_AllRights in
  if negb (err =? 0) then mret err else
  _ ← store asp (set_as_heap (Some heap) a);
  mret 0.

(** [sos_sys_brk] on the structure: the value returned, and the new structure. *)
Definition sys_brk_in (a : addrspace) (vaddr : Z) : Z * addrspace :=
  match as_heap a with
  | None => (0, a)
  | Some h =>
      if vaddr =? 0 then (vtop h, a)
      else if vaddr <? vbase h then
        (vbase h, set_as_heap (Some (set_vtop (vbase h) h)) a)
      else
        let h' := set_vtop vaddr h in
        let stack_hit := match as_stack a with
                         | Some st => region_overlap h' st
                         | None => false
                         end in
        if stack_hit then (0, a)
        else if existsb (region_overlap h') (as_rhead a) then (0, a)
        else (vaddr, set_as_heap (Some h') a)
  end.

Definition sos_sys_brk (asp vaddr : Z) : M Z :=
  if asp =? 0 then mret 0 else
  a ← load asp;
  let '(r, a') := sys_brk_in a vaddr in
  _ ← store asp a';
  mret r.

(** The rights stored in [*permission], when the address is in a region. *)
Definition as_is_valid_memory (asp vaddr size : Z) : M (bool * option Z) :=
  reg ← region_probe asp vaddr;
  match reg with
  | Some r => mret (u32 (vaddr + size) <? vtop r, Some (r_rights r))
  | None => mret (false, None)
  end.

(** * Creation *)

Definition as_create_end (rec : interp) (token err : Z) : M unit :=
  cont ← load token;
  if err =? 0 then
    _ ← call_ rec (CallAs (ac_callback cont) (ac_token cont) (ac_as cont));
    free token
  else
  _ ← (if negb (ac_as cont =? 0) then
         a ← load (ac_as cont);
         _ ← (if negb (as_pd_caps a =? 0) then frame_free (as_pd_caps a) else mret 0);
         (if negb (as_pd_regs a =? 0) then frame_free (as_pd_regs a) else mret 0)
       else mret 0);
  call_ rec (CallAs (ac_callback cont) (ac_token cont) 0).

Definition as_create_pagedir_regs_allocated (rec : interp) (token kvaddr : Z) : M unit :=
  if token =? 0 then mret tt else
  if kvaddr =? 0 then as_create_end rec token ENOMEM else
  cont ← load token;
  _ ← update (ac_as cont) (set_as_pd_regs kvaddr);
  _ ← bzero kvaddr PAGE_SIZE;
  as_create_end rec token 0.

Definition as_create_pagedir_caps_allocated (rec : interp) (token kvaddr : Z) : M unit :=
  if token =? 0 then mret tt else
  if kvaddr =? 0 then as_create_end rec token ENOMEM else
  cont ← load token;
  _ ← update (ac_as cont) (set_as_pd_caps kvaddr);
  _ ← bzero kvaddr PAGE_SIZE;
  err ← frame_alloc rec 0 0 PROC_NULL true cb_as_create_pagedir_regs_allocated token;
  if negb (err =? 0) then as_create_end rec token err else mret tt.

Definition as_create (rec : interp) (sel4_pd : Z) (callback : as_cb) (token : Z) : M Z :=
  asp ← malloc (mk_as 0 0 [] None None sel4_pd []);
  if asp =? 0 then mret ENOMEM else
  cont ← malloc (mk_ac asp callback token);
  if cont =? 0 then
    _ ← free asp;
    mret ENOMEM
  else
  err ← frame_alloc rec 0 0 PROC_NULL true cb_as_create_pagedir_caps_allocated cont;
  if negb (err =? 0) then
    _ ← free asp;
    _ ← free cont;
    mret err
  else mret 0.
