(* ===== verification/RegionInv.v ===== *)
(** The regions of an address space.

    However regions are defined and the break is moved, no address is in two
    regions; the break is checked against the other regions; and what
    [as_is_valid_memory] answers is characterised exactly, including the ranges
    that run over the end of the address space. *)

From S2P Require Import Prelude UtAllocator Sos Hoare Mapping SwapSlots FrameTable ProcTable.
From S2P Require Import AddrSpace.

(** * Disjointness *)

Definition disjoint (r1 r2 : region) : Prop :=
  ∀ addr, in_region addr r1 = true → in_region addr r2 = true → False.

#[export] Instance disjoint_sym : Symmetric disjoint.
Proof. intros r1 r2 H addr H1 H2. eauto. Qed.

(** All regions of an address space. *)
Definition regions (a : addrspace) : list region :=
  option_list (as_stack a) ++ option_list (as_heap a) ++ as_rhead a.

Definition regions_ok (a : addrspace) : Prop := ForallOrdPairs disjoint (regions a).

Lemma in_region_spec addr r : in_region addr r = true ↔ vbase r ≤ addr < vtop r.
Proof. unfold in_region. lia. Qed.

(** The test of the source is right also for regions that wrap around. *)
Lemma region_overlap_disjoint r1 r2 : region_overlap r1 r2 = false → disjoint r1 r2.
Proof.
  unfold region_overlap. intros H addr H1%in_region_spec H2%in_region_spec.
  apply negb_false_iff, orb_true_iff in H. lia.
Qed.

Lemma overlap_all_disjoint r rs :
  existsb (region_overlap r) rs = false → Forall (disjoint r) rs.
Proof.
  induction rs as [| x rs IH]; cbn; [done |]. intros [H1 H2]%orb_false_iff.
  constructor; [by apply region_overlap_disjoint | auto].
Qed.

(** A region without addresses. *)
Lemma empty_disjoint r r' : vtop r ≤ vbase r → disjoint r r'.
Proof. intros H addr H1%in_region_spec _. lia. Qed.

(** * Checking a new region *)

Lemma region_init_disjoint a vaddr sz rights r :
  region_init a vaddr sz rights = (0, r) →
  r = mk_region vaddr (u32 (vaddr + sz)) rights ∧
  Forall (disjoint r) (option_list (as_stack a)) ∧ Forall (disjoint r) (as_rhead a).
Proof.
  unfold region_init. set (n := mk_region _ _ _).
  destruct (match as_stack a with Some st => _ | None => _ end) eqn:Es; [done |].
  destruct (existsb _ _) eqn:Er; [done |]. intros [= <-]. split; [done |].
  split; [| by apply overlap_all_disjoint].
  destruct (as_stack a) as [st |]; cbn; [| done]. constructor; [| done].
  by apply region_overlap_disjoint.
Qed.

Lemma pairs_app (l l' : list region) :
  ForallOrdPairs disjoint (l ++ l') ↔
  ForallOrdPairs disjoint l ∧ ForallOrdPairs disjoint l' ∧ Forall (λ r, Forall (disjoint r) l') l.
Proof.
  induction l as [| r l IH]; cbn.
  - split; [intros H; by repeat constructor | by intros (_ & ? & _)].
  - split.
    + intros H. inversion_clear H as [| ? ? H1 H2]. apply Forall_app in H1 as [H1 H1'].
      apply IH in H2 as (H2 & H3 & H4). split_and!; [by constructor | done | by constructor].
    + intros (H1 & H2 & H3). inversion_clear H1 as [| ? ? H4 H5].
      apply Forall_cons in H3 as [H3 H6]. constructor; [by apply Forall_app | by apply IH].
Qed.

Lemma pairs_one (r : region) : ForallOrdPairs disjoint [r].
Proof. repeat constructor. Qed.

Lemma pairs_lookup l i j r1 r2 :
  ForallOrdPairs disjoint l → l !! i = Some r1 → l !! j = Some r2 → i ≠ j → disjoint r1 r2.
Proof.
  intros H. revert i j. induction H as [| r l Hr _ IH]; intros i j H1 H2 Hne; [done |].
  rewrite Forall_lookup in Hr. destruct i as [| i], j as [| j]; cbn in H1, H2.
  - done.
  - injection H1 as ->. eauto.
  - injection H2 as ->. symmetry. eauto.
  - eapply IH; eauto.
Qed.

Lemma regions_ok_spec a :
  regions_ok a ↔
  ForallOrdPairs disjoint (as_rhead a) ∧
  Forall (λ r, Forall (disjoint r) (option_list (as_heap a) ++ as_rhead a)) (option_list (as_stack a)) ∧
  Forall (λ r, Forall (disjoint r) (as_rhead a)) (option_list (as_heap a)).
Proof.
  unfold regions_ok, regions. rewrite !pairs_app.
  assert (∀ o : option region, ForallOrdPairs disjoint (option_list o)) as Ho.
  { intros []; [apply pairs_one | constructor]. }
  pose proof (Ho (as_stack a)). pose proof (Ho (as_heap a)). tauto.
Qed.

Lemma disjoint_all_sym r rs : Forall (disjoint r) rs ↔ Forall (λ x, disjoint x r) rs.
Proof. apply Forall_iff. intros x. split; intros H; by symmetry. Qed.

(** * Every operation keeps the regions apart *)

(** [sos_sys_brk] on the structure. *)
Lemma sys_brk_in_ok a vaddr : regions_ok a → regions_ok (sys_brk_in a vaddr).2.
Proof.
  intros H. unfold sys_brk_in. destruct (as_heap a) as [h |] eqn:Eh; [| done].
  destruct (vaddr =? 0); [done |]. pose proof H as (H1 & H2 & H3)%regions_ok_spec.
  rewrite Eh in H2. cbn in H2. destruct (vaddr <? vbase h).
  { apply regions_ok_spec. cbn. split_and!; [done | |].
    - eapply Forall_impl; [exact H2 |]. intros st [_ ?]%Forall_cons. constructor; [| done].
      symmetry. by apply empty_disjoint.
    - constructor; [| done]. apply Forall_true. intros r. by apply empty_disjoint. }
  destruct (match as_stack a with Some st => _ | None => _ end) eqn:Es.
  { done. }
  destruct (existsb _ _) eqn:Er; [done |]. apply regions_ok_spec.
  apply overlap_all_disjoint in Er. cbn. split_and!; [done | | by constructor].
  destruct (as_stack a) as [st |]; [| done]. cbn in H2 |- *. constructor; [| done].
  apply Forall_cons in H2 as [[_ H2]%Forall_cons _]. constructor; [| done].
  symmetry. by apply region_overlap_disjoint.
Qed.

(** What SOS does to the regions of an address space: the regions of the ELF
    file and the stack are defined before the heap. *)
Inductive region_step (asp : Z) : sos → sos → Prop :=
  | rs_region a vaddr sz rights r s s' :
      s_heap s !! asp = Some (OAddrspace a) → as_heap a = None →
      as_define_region asp vaddr sz rights s = Ret (r, s') → region_step asp s s'
  | rs_stack a top size r s s' :
      s_heap s !! asp = Some (OAddrspace a) → as_heap a = None →
      as_define_stack asp top size s = Ret (r, s') → region_step asp s s'
  | rs_heap r s s' : as_define_heap asp s = Ret (r, s') → region_step asp s s'
  | rs_brk vaddr r s s' : sos_sys_brk asp vaddr s = Ret (r, s') → region_step asp s s'.

(** The address space at [asp] has disjoint regions. *)
Definition as_ok (asp : Z) (s : sos) : Prop :=
  ∃ a, s_heap s !! asp = Some (OAddrspace a) ∧ regions_ok a.

Lemma as_ok_store asp s a a' :
  s_heap s !! asp = Some (OAddrspace a) → regions_ok a' →
  as_ok asp (set_s_heap (<[asp := OAddrspace a']> (s_heap s)) s).
Proof. intros Ha Hok. exists a'. cbn. by rewrite lookup_insert_eq. Qed.

(** Asking for memory does not change the heap. *)
Lemma malloc_ok_Ret s b s' : malloc_ok s = Ret (b, s') → s_heap s' = s_heap s.
Proof. unfold malloc_ok, ask. by intros [= <- <-]. Qed.

Lemma load_as_Ret asp s (a : addrspace) s' :
  load asp s = Ret (a, s') → s' = s ∧ asp ≠ 0 ∧ s_heap s !! asp = Some (OAddrspace a).
Proof.
  intros (-> & Hp & o & Ho & E)%load_Ret. split_and!; [done | done |].
  destruct o; try discriminate. by injection E as <-.
Qed.

Lemma store_as_Ret asp s (a : addrspace) u s' :
  store asp a s = Ret (u, s') →
  s' = set_s_heap (<[asp := OAddrspace a]> (s_heap s)) s.
Proof. unfold store. intros (b & s1 & (-> & _)%load_as_Ret & [= <- <-])%M_bind_Ret. done. Qed.

Lemma define_region_ok asp vaddr sz rights a r s s' :
  s_heap s !! asp = Some (OAddrspace a) → as_heap a = None → regions_ok a →
  as_define_region asp vaddr sz rights s = Ret (r, s') → as_ok asp s'.
Proof.
  intros Ha Hn Hok H. unfold as_define_region in H.
  apply M_bind_Ret in H as (u & s0 & H0 & H). minv1 H0.
  apply M_bind_Ret in H as (ok & s1 & H1 & H). apply malloc_ok_Ret in H1.
  destruct ok; cbn [negb] in H; [| injection H as <- <-; by exists a; rewrite H1].
  apply M_bind_Ret in H as (a' & s2 & (-> & _ & Ha')%load_as_Ret & H).
  rewrite H1, Ha in Ha'. injection Ha' as <-.
  destruct (region_init _ _ _ _) as [err n] eqn:E. destruct (Z.eqb_spec err 0) as [-> |]; cbn [negb] in H;
    [| injection H as <- <-; by exists a; rewrite H1].
  apply M_bind_Ret in H as (v & s3 & ->%store_as_Ret & [= <- <-]).
  apply (as_ok_store _ _ a); [by rewrite H1 |].
  apply region_init_disjoint in E as (_ & E1 & E2).
  apply regions_ok_spec in Hok as (H2 & H3 & H4). apply regions_ok_spec. cbn. rewrite Hn in *.
  split_and!; [by constructor | | done]. cbn in *. apply disjoint_all_sym in E1.
  eapply Forall_impl; [exact (proj2 (Forall_and _ _) (conj E1 H3)) |].
  cbn. intros st [? ?]. by constructor.
Qed.

Lemma define_stack_ok asp top size a r s s' :
  s_heap s !! asp = Some (OAddrspace a) → as_heap a = None → regions_ok a →
  as_define_stack asp top size s = Ret (r, s') → as_ok asp s'.
Proof.
  intros Ha Hn Hok H. unfold as_define_stack in H. destruct (asp =? 0); [injection H as <- <-; by exists a |].
  apply M_bind_Ret in H as (u & s0 & H0 & H). minv1 H0.
  apply M_bind_Ret in H as (ok & s1 & H1%malloc_ok_Ret & H). rewrite <- H1 in Ha.
  destruct ok; cbn [negb] in H; [| injection H as <- <-; by exists a].
  apply M_bind_Ret in H as (ok & s2 & H2%malloc_ok_Ret & H). rewrite <- H2 in Ha.
  destruct ok; cbn [negb] in H; [| injection H as <- <-; by exists a].
  apply M_bind_Ret in H as (a' & s3 & (-> & _ & Ha')%load_as_Ret & H).
  rewrite Ha in Ha'. injection Ha' as <-.
  destruct (region_init a (u32 (top - _)) _ _) as [err n] eqn:E.
  destruct (Z.eqb_spec err 0) as [-> |]; cbn [negb] in H; [| injection H as <- <-; by exists a].
  destruct (region_init a _ PAGE_SIZE 0) as [err g].
  destruct (Z.eqb_spec err 0) as [-> |]; cbn [negb] in H; [| injection H as <- <-; by exists a].
  apply M_bind_Ret in H as (v & s3 & ->%store_as_Ret & [= <- <-]).
  apply (as_ok_store _ _ a); [done |]. apply region_init_disjoint in E as (_ & _ & E2).
  apply regions_ok_spec in Hok as (H3 & _ & H4). apply regions_ok_spec. cbn. rewrite Hn in *.
  split_and!; [done | by constructor | done].
Qed.

Lemma define_heap_ok asp r s s' :
  as_ok asp s → as_define_heap asp s = Ret (r, s') → as_ok asp s'.
Proof.
  intros (a & Ha & Hok) H. unfold as_define_heap in H.
  destruct (asp =? 0); [injection H as <- <-; by exists a |].
  apply M_bind_Ret in H as (a' & s1 & (-> & _ & Ha')%load_as_Ret & H).
  rewrite Ha in Ha'. injection Ha' as <-.
  apply M_bind_Ret in H as (st & s1 & H1 & H). minv1 H1.
  destruct (_ <? _); [injection H as <- <-; by exists a |].
  apply M_bind_Ret in H as (ok & s2 & H2%malloc_ok_Ret & H). rewrite <- H2 in Ha.
  destruct ok; cbn [negb] in H; [| injection H as <- <-; by exists a].
  destruct (region_init a _ 0 _) as [err n] eqn:E.
  destruct (Z.eqb_spec err 0) as [-> |]; cbn [negb] in H; [| injection H as <- <-; by exists a].
  apply M_bind_Ret in H as (v & s3 & ->%store_as_Ret & [= <- <-]).
  apply (as_ok_store _ _ a); [done |].
  apply region_init_disjoint in E as (_ & E1 & E2).
  apply regions_ok_spec in Hok as (H3 & H4 & _). apply regions_ok_spec. cbn.
  split_and!; [done | | by constructor].
  apply disjoint_all_sym in E1. eapply Forall_impl; [exact (proj2 (Forall_and _ _) (conj E1 H4)) |].
  cbn. intros x [? [_ ?]%Forall_app]. by constructor.
Qed.

Lemma sos_sys_brk_eq asp vaddr a s :
  asp ≠ 0 → s_heap s !! asp = Some (OAddrspace a) →
  sos_sys_brk asp vaddr s =
    Ret ((sys_brk_in a vaddr).1,
      set_s_heap (<[asp := OAddrspace (sys_brk_in a vaddr).2]> (s_heap s)) s).
Proof.
  intros Hp Ha. unfold sos_sys_brk. apply Z.eqb_neq in Hp as Hp'. rewrite Hp'.
  mstep (load_eq (T := addrspace)) by done. destruct (sys_brk_in a vaddr) as [r a'].
  by mstep (store_eq (T := addrspace)) by done.
Qed.

Lemma region_step_ok asp s s' : region_step asp s s' → as_ok asp s → as_ok asp s'.
Proof.
  intros H Hok. destruct H as [a vaddr sz rights r s s' Ha Hn H | a top size r s s' Ha Hn H | r s s' H
    | vaddr r s s' H].
  - destruct Hok as (a' & Ha' & Hok). rewrite Ha in Ha'. injection Ha' as <-. by eapply define_region_ok.
  - destruct Hok as (a' & Ha' & Hok). rewrite Ha in Ha'. injection Ha' as <-. by eapply define_stack_ok.
  - by eapply define_heap_ok.
  - destruct Hok as (a & Ha & Hok). destruct (Z.eqb_spec asp 0) as [-> | Hp].
    + injection H as <- <-. by exists a.
    + rewrite (sos_sys_brk_eq _ _ a) in H by done. injection H as <- <-.
      apply (as_ok_store _ _ a); [done |]. by apply sys_brk_in_ok.
Qed.

(** [C30] No address of a process is ever in two regions: starting with an
    address space without regions, after any sequence of definitions of regions
    and of the stack, then of the heap, and of calls of [sos_sys_brk], all regions
    are disjoint, whether the operations succeed or fail. *)
Theorem regions_disjoint (asp : Z) (a : addrspace) (s s' : sos) :
  s_heap s !! asp = Some (OAddrspace a) → regions a = [] → rtc (region_step asp) s s' →
  ∃ a', s_heap s' !! asp = Some (OAddrspace a') ∧
    ∀ i j r1 r2 addr, regions a' !! i = Some r1 → regions a' !! j = Some r2 →
      in_region addr r1 = true → in_region addr r2 = true → i = j.
Proof.
  intros Ha Hr Hs. assert (as_ok asp s') as (a' & Ha' & Hok).
  { assert (as_ok asp s) as H0 by (exists a; split; [done |]; unfold regions_ok; rewrite Hr; constructor).
    clear Ha. induction Hs as [| ? ? ? H _ IH]; [done |]. apply IH. by eapply region_step_ok. }
  exists a'. split; [done |]. intros i j r1 r2 addr H1 H2 H3 H4.
  destruct (decide (i = j)) as [| Hne]; [done |]. exfalso.
  exact (pairs_lookup _ _ _ _ _ Hok H1 H2 Hne addr H3 H4).
Qed.

(** * The break *)

(** What [sos_sys_brk] does, in every case.  With 0 it answers the break and
    changes nothing.  A break below the heap empties it.  A break that would make
    the heap meet the stack or a region is refused with 0, and nothing changes.
    Otherwise the answer is the new break and the heap reaches exactly up to it:
    every address below the break is in the heap.  Stack and regions never
    change. *)
Theorem brk_correct (asp vaddr : Z) (a : addrspace) (h : region) (s : sos) :
  asp ≠ 0 → s_heap s !! asp = Some (OAddrspace a) → as_heap a = Some h →
  let others := option_list (as_stack a) ++ as_rhead a in
  ∃ r a', sos_sys_brk asp vaddr s = Ret (r, set_s_heap (<[asp := OAddrspace a']> (s_heap s)) s) ∧
    as_stack a' = as_stack a ∧ as_rhead a' = as_rhead a ∧
    if vaddr =? 0 then r = vtop h ∧ a' = a
    else if vaddr <? vbase h then r = vbase h ∧
      as_heap a' = Some (mk_region (vbase h) (vbase h) (r_rights h))
    else if existsb (region_overlap (set_vtop vaddr h)) others then r = 0 ∧ a' = a
    else r = vaddr ∧ as_heap a' = Some (mk_region (vbase h) vaddr (r_rights h)) ∧
      ∀ addr, vbase h ≤ addr < vaddr → region_probe_in a' addr = as_heap a'.
Proof.
  intros Hp Ha Hh others. exists (sys_brk_in a vaddr).1, (sys_brk_in a vaddr).2.
  split; [by apply sos_sys_brk_eq |]. unfold sys_brk_in. rewrite Hh.
  destruct (vaddr =? 0); [done |]. destruct (vaddr <? vbase h); [done |].
  set (h' := set_vtop vaddr h). set (hit := match as_stack a with Some st => _ | None => _ end).
  assert (existsb (region_overlap h') others = hit || existsb (region_overlap h') (as_rhead a)) as ->.
  { unfold others, hit. destruct (as_stack a); done. }
  destruct hit eqn:Es; [done |]. destruct (existsb _ _) eqn:Er; [done |]. cbn.
  split_and!; try done. intros addr Haddr. unfold region_probe_in. cbn.
  assert (in_region addr h' = true) as Hin by (apply in_region_spec; cbn; lia).
  rewrite Hin. unfold hit in Es. destruct (as_stack a) as [st |]; [| done].
  destruct (in_region addr st) eqn:E; [| done].
  destruct (region_overlap_disjoint _ _ Es addr Hin E).
Qed.

(** * Valid memory *)

(** The first region with the address. *)
Lemma region_probe_in_Some a addr r :
  region_probe_in a addr = Some r → in_region addr r = true ∧ r ∈ regions a.
Proof.
  assert (∀ rs, List.find (in_region addr) rs = Some r → in_region addr r = true ∧ r ∈ rs) as Hf.
  { intros rs [H1 H2]%find_some. split; [done |]. by apply list_elem_of_In. }
  unfold region_probe_in, regions.
  assert (∀ pre, List.find (in_region addr) (as_rhead a) = Some r →
            in_region addr r = true ∧ r ∈ pre ++ as_rhead a) as Ht.
  { intros pre H. apply Hf in H as [? ?]. split; [done |]. apply elem_of_app. by right. }
  destruct (as_stack a) as [st |], (as_heap a) as [h |]; cbn [option_list app].
  - destruct (in_region addr st) eqn:E1; [intros [= <-]; split; [done | by left] |].
    destruct (in_region addr h) eqn:E2; [intros [= <-]; split; [done | by right; left] |].
    apply (Ht [st; h]).
  - destruct (in_region addr st) eqn:E1; [intros [= <-]; split; [done | by left] |]. apply (Ht [st]).
  - destruct (in_region addr h) eqn:E2; [intros [= <-]; split; [done | by left] |]. apply (Ht [h]).
  - apply (Ht []).
Qed.

Lemma as_is_valid_memory_eq asp vaddr size a s :
  asp ≠ 0 → vaddr ≠ 0 → s_heap s !! asp = Some (OAddrspace a) →
  as_is_valid_memory asp vaddr size s =
    Ret (match region_probe_in a vaddr with
         | Some r => (u32 (vaddr + size) <? vtop r, Some (r_rights r))
         | None => (false, None)
         end, s).
Proof.
  intros Hp Hv Ha. unfold as_is_valid_memory, region_probe. rewrite M_bind_assoc.
  apply Z.eqb_neq in Hp as Hp', Hv as Hv'. mstep assertM_eq by (by rewrite Hp').
  rewrite M_bind_assoc. mstep assertM_eq by (by rewrite Hv'). rewrite M_bind_assoc.
  mstep (load_eq (T := addrspace)) by done. mpure. by destruct (region_probe_in a vaddr).
Qed.

(** [as_is_valid_memory] never changes anything, and when the range does not
    run over the end of the address space its answer is reliable: a range it
    accepts lies in one region, and it gives that region's rights.  But the sum of
    address and size is not checked for overflow, so from every valid address a
    range of [2^32 - 1] bytes is accepted; and a range that ends where its region
    ends is refused. *)
Theorem valid_memory_characterised (asp vaddr size : Z) (a : addrspace) (s : sos) :
  asp ≠ 0 → 0 < vaddr < 2 ^ 32 → 0 ≤ size < 2 ^ 32 → s_heap s !! asp = Some (OAddrspace a) →
  ∃ ok rights, as_is_valid_memory asp vaddr size s = Ret ((ok, rights), s) ∧
    (ok = true → vaddr + size < 2 ^ 32 →
      ∃ r, r ∈ regions a ∧ rights = Some (r_rights r) ∧
        ∀ addr, vaddr ≤ addr ≤ vaddr + size → in_region addr r = true) ∧
    (∀ r, region_probe_in a vaddr = Some r → size = 2 ^ 32 - 1 → ok = true) ∧
    (∀ r, region_probe_in a vaddr = Some r → vtop r < 2 ^ 32 → vaddr + size = vtop r → ok = false).
Proof.
  intros Hp Hv Hs Ha. rewrite (as_is_valid_memory_eq _ _ _ a) by (done || lia).
  destruct (region_probe_in a vaddr) as [r |] eqn:E; [| by eexists _, _].
  apply region_probe_in_Some in E as [Hin Hr]. apply in_region_spec in Hin.
  eexists _, _. split; [done |]. unfold u32. split_and!.
  - intros H%Z.ltb_lt Hno. exists r. split_and!; [done | done |]. intros addr Haddr.
    rewrite Z.mod_small in H by lia. apply in_region_spec. lia.
  - intros r' [= <-] ->. apply Z.ltb_lt.
    replace (vaddr + (2 ^ 32 - 1)) with (vaddr - 1 + 1 * 2 ^ 32) by lia.
    rewrite Z.mod_add, Z.mod_small; lia.
  - intros r' [= <-] Ht ->. rewrite Z.mod_small by lia. apply Z.ltb_irrefl.
Qed.

(** * Examples *)

Definition as_example : addrspace :=
  mk_as 0 0 [mk_region 0x8000 0xa000 3; mk_region 0xa000 0xb000 2]
    (Some (mk_region 0x8f000000 0x90000000 3)) (Some (mk_region 0xb000 0xb000 3)) 0 [].

Definition as_empty : addrspace := mk_as 0 0 [] None None 0 [].

Definition sos_as (a : addrspace) : sos :=
  set_s_heap {[ 8 := OAddrspace a ]} (sos_start env_ok ut_example).

Lemma sos_as_lookup a : s_heap (sos_as a) !! 8 = Some (OAddrspace a).
Proof. apply lookup_singleton_eq. Qed.

Lemma regions_disjoint_witness :
  ∃ r s' a', as_define_region 8 0x8123 0x1fff 3 (sos_as as_empty) = Ret (r, s') ∧
    s_heap s' !! 8 = Some (OAddrspace a') ∧
    ∀ i j r1 r2 addr, regions a' !! i = Some r1 → regions a' !! j = Some r2 →
      in_region addr r1 = true → in_region addr r2 = true → i = j.
Proof.
  destruct (as_define_region 8 0x8123 0x1fff 3 (sos_as as_empty)) as [[r s'] |] eqn:E.
  - destruct (regions_disjoint 8 as_empty (sos_as as_empty) s') as (a' & Ha & H).
    + apply sos_as_lookup.
    + reflexivity.
    + apply rtc_once. exact (rs_region 8 as_empty _ _ _ r _ _ (sos_as_lookup _) eq_refl E).
    + exists r, s', a'. split; [reflexivity |]. split; [exact Ha | exact H].
  - exfalso. vm_compute in E. discriminate E.
Defined.

Lemma brk_correct_witness :
  ∃ r a', sos_sys_brk 8 0xd000 (sos_as as_example) =
      Ret (r, set_s_heap (<[8 := OAddrspace a']> (s_heap (sos_as as_example))) (sos_as as_example)) ∧
    r = 0xd000 ∧ region_probe_in a' 0xc123 = as_heap a'.
Proof.
  destruct (brk_correct 8 0xd000 as_example (mk_region 0xb000 0xb000 3) (sos_as as_example))
    as (r & a' & E & _ & _ & H).
  - discriminate.
  - apply sos_as_lookup.
  - reflexivity.
  - cbn in H. destruct H as (Hr & _ & H). exists r, a'. split; [exact E |].
    split; [exact Hr |]. apply H. lia.
Defined.

Lemma valid_memory_characterised_witness :
  ∃ rights, as_is_valid_memory 8 0x8004 (2 ^ 32 - 1) (sos_as as_example) =
    Ret ((true, rights), sos_as as_example).
Proof.
  destruct (valid_memory_characterised 8 0x8004 (2 ^ 32 - 1) as_example (sos_as as_example))
    as (ok & rights & E & _ & H & _).
  - discriminate.
  - lia.
  - lia.
  - apply sos_as_lookup.
  - exists rights. rewrite E. rewrite (H (mk_region 0x8000 0xa000 3)); reflexivity.
Defined.
