(* ===== verification/PageTable.v ===== *)
(** The page tables of SOS (vm/pagetable.c).

    A two-level table maps a user page to the kernel address of the frame that
    holds it, or to a slot of the swap file; a table of the same shape holds
    the capability of the page given to seL4.  [sos_page_map] creates the second
    level tables when they are missing, then a frame for the page; each step
    may have to wait for another frame to be swapped out, so the function is
    cut into callbacks. *)

From S2P Require Import Prelude UtAllocator Sos Mapping SwapSlots FrameTable ProcTable.
From S2P Require Import AddrSpace.

(** * seL4 page tables *)

(** [_insert_pt]; the C function does not check the result of [malloc]. *)
Definition insert_pt (asp pt_cap pt_addr : Z) : M unit :=
  ok ← malloc_ok;
  if negb ok then fail NullDeref else
  update asp (λ a, set_as_pt_head ((pt_cap, pt_addr) :: as_pt_head a) a).

(** [_map_page_table] of pagetable.c. *)
Definition map_page_table_as (asp pd vpage : Z) : M Z :=
  pt_addr ← ut_allocM seL4_PageTableBits;
  if pt_addr =? 0 then mret ENOMEM else
  '(err, pt_cap) ← cspace_ut_retype_addr pt_addr seL4_ARM_PageTableObject seL4_PageTableBits;
  if negb (err =? 0) then
    _ ← ut_freeM pt_addr seL4_PageTableBits;
    mret EFAULT
  else
  err ← invoke (PageTable_Map pt_cap pd vpage seL4_ARM_Default_VMAttributes);
  if negb (err =? 0) then
    _ ← ut_freeM pt_addr seL4_PageTableBits;
    _ ← invoke (Cspace_delete_cap pt_cap);
    mret EFAULT
  else
  _ ← insert_pt asp pt_cap pt_addr;
  mret 0.

Definition map_sel4_page (asp frame_cap vpage rights attr : Z) : M Z :=
  a ← load asp;
  let pd := as_sel4_pd a in
  err ← invoke (Page_Map frame_cap pd vpage rights attr);
  err ← (if err =? seL4_FailedLookup then
           err ← map_page_table_as asp pd vpage;
           if err =? 0 then invoke (Page_Map frame_cap pd vpage rights attr) else mret err
         else mret err);
  mret (if err =? 0 then 0 else EFAULT).

(** * sos_page_map *)

(** The ends of the callbacks: call back with an error code and free the
    continuation. *)
Definition pm_finish (rec : interp) (token err : Z) : M unit :=
  cont ← load token;
  _ ← call_ rec (CallErr (pm_callback cont) (pm_token cont) err);
  free token.

Definition new_pte (kvaddr : Z) : Z := andnot32 (Z.lor kvaddr PTE_IN_USE_BIT) PTE_SWAPPED.

Definition sos_page_map_5 (rec : interp) (token kvaddr : Z) : M unit :=
  cont ← load token;
  if kvaddr =? 0 then pm_finish rec token ENOMEM else
  '(err, kframe_cap) ← frame_get_cap kvaddr;
  _ ← assertM (err =? 0);
  frame_cap ← invoke (Cspace_copy_cap kframe_cap (pm_permissions cont));
  if frame_cap =? 0 then
    _ ← frame_free kvaddr;
    pm_finish rec token EFAULT
  else
  err ← map_sel4_page (pm_as cont) frame_cap (pm_vpage cont) (pm_permissions cont)
          seL4_ARM_Default_VMAttributes;
  if negb (err =? 0) then
    _ ← frame_free kvaddr;
    _ ← invoke (Cspace_delete_cap frame_cap);
    pm_finish rec token err
  else
  _ ← frame_set_referenced kvaddr;
  let x := PT_L1_INDEX (pm_vpage cont) in
  let y := PT_L2_INDEX (pm_vpage cont) in
  a ← load (pm_as cont);
  _ ← pt_set (as_pd_regs a) x y (new_pte kvaddr);
  _ ← pt_set (as_pd_caps a) x y frame_cap;
  pm_finish rec token 0.

Definition sos_page_map_4_alloc_frame (rec : interp) (token : Z) : M unit :=
  cont ← load token;
  let x := PT_L1_INDEX (pm_vpage cont) in
  let y := PT_L2_INDEX (pm_vpage cont) in
  a ← load (pm_as cont);
  pte ← pt_get (as_pd_regs a) x y;
  if pte_in_use pte && negb (pte_swapped pte) then pm_finish rec token EINVAL else
  err ← frame_alloc rec (pm_vpage cont) (pm_as cont) (pm_pid cont) (pm_noswap cont)
          cb_sos_page_map_5 token;
  if negb (err =? 0) then pm_finish rec token EINVAL else mret tt.

Definition sos_page_map_3 (rec : interp) (token kvaddr : Z) : M unit :=
  cont ← load token;
  let x := PT_L1_INDEX (pm_vpage cont) in
  a ← load (pm_as cont);
  if kvaddr =? 0 then
    regs ← pd_get (as_pd_regs a) x;
    _ ← frame_free regs;
    pm_finish rec token ENOMEM
  else
  _ ← pd_set (as_pd_caps a) x kvaddr;
  sos_page_map_4_alloc_frame rec token.

Definition sos_page_map_2_alloc_cap_pt (rec : interp) (token kvaddr : Z) : M unit :=
  cont ← load token;
  if kvaddr =? 0 then pm_finish rec token ENOMEM else
  let x := PT_L1_INDEX (PAGE_ALIGN (pm_vpage cont)) in
  a ← load (pm_as cont);
  _ ← pd_set (as_pd_regs a) x kvaddr;
  err ← frame_alloc rec 0 0 PROC_NULL true cb_sos_page_map_3 token;
  if negb (err =? 0) then
    _ ← frame_free kvaddr;
    pm_finish rec token EFAULT
  else mret tt.

Definition sos_page_map (rec : interp) (pid asp vaddr permissions : Z)
    (callback : err_cb) (token : Z) (noswap : bool) : M Z :=
  if asp =? 0 then mret EINVAL else
  a ← load asp;
  if (as_pd_caps a =? 0) || (as_pd_regs a =? 0) then mret EFAULT else
  let vpage := PAGE_ALIGN vaddr in
  cont ← malloc (mk_pm callback token pid asp vpage permissions noswap);
  if cont =? 0 then mret ENOMEM else
  let x := PT_L1_INDEX vpage in
  regs ← pd_get (as_pd_regs a) x;
  if regs =? 0 then
    caps ← pd_get (as_pd_caps a) x;
    _ ← assertM (caps =? 0);
    err ← frame_alloc rec 0 0 PROC_NULL true cb_sos_page_map_2_alloc_cap_pt cont;
    if negb (err =? 0) then
      _ ← free cont;
      mret EFAULT
    else mret 0
  else
    _ ← sos_page_map_4_alloc_frame rec cont;
    mret 0.

(** * Getters *)

(** An uninitialised [bool]. *)
Definition junk_bool : M bool :=
  j ← ask e_junk;
  mret (negb (j =? 0)).

Definition frame_is_locked_or_junk (kvaddr : Z) : M bool :=
  '(err, l) ← frame_is_locked kvaddr;
  match l with
  | Some b => mret b
  | None => junk_bool
  end.

Definition sos_page_free (asp vaddr : Z) : M unit :=
  let vpage := PAGE_ALIGN vaddr in
  let x := PT_L1_INDEX vpage in
  let y := PT_L2_INDEX vpage in
  ok ← tables_present asp x;
  if negb ok then mret tt else
  a ← load asp;
  pte ← pt_get (as_pd_regs a) x y;
  if negb (pte_in_use pte) then mret tt else
  if pte_swapped pte then
    _ ← swap_free_slot (pte_slot pte);
    pt_set (as_pd_regs a) x y 0
  else
    let kvaddr := pte_kvaddr pte in
    r ← is_frame_referenced kvaddr;
    err ← (if (r : bool) then sos_page_unmap asp vpage else mret 0);
    if negb (err =? 0) then mret tt else
    l ← frame_is_locked_or_junk kvaddr;
    _ ← (if (l : bool) then mret 0 else frame_free kvaddr);
    pt_set (as_pd_regs a) x y 0.

(** The directories exist. *)
Definition has_directories (asp : Z) : M bool :=
  if asp =? 0 then mret false else
  a ← load asp;
  mret (negb (as_pd_caps a =? 0) && negb (as_pd_regs a =? 0)).

Definition sos_page_is_inuse (asp vaddr : Z) : M bool :=
  ok ← has_directories asp;
  if negb ok then mret false else
  a ← load asp;
  let vpage := PAGE_ALIGN vaddr in
  let x := PT_L1_INDEX vpage in
  let y := PT_L2_INDEX vpage in
  regs ← pd_get (as_pd_regs a) x;
  if regs =? 0 then mret false else
  pte ← pt_get (as_pd_regs a) x y;
  mret (pte_in_use pte).

Definition sos_page_is_swapped (asp vaddr : Z) : M bool :=
  ok ← has_directories asp;
  if negb ok then mret false else
  a ← load asp;
  let vpage := PAGE_ALIGN vaddr in
  let x := PT_L1_INDEX vpage in
  let y := PT_L2_INDEX vpage in
  regs ← pd_get (as_pd_regs a) x;
  if regs =? 0 then mret false else
  pte ← pt_get (as_pd_regs a) x y;
  mret (pte_swapped pte).

Definition sos_page_is_locked (asp vaddr : Z) : M bool :=
  ok ← has_directories asp;
  if negb ok then mret false else
  a ← load asp;
  let vpage := PAGE_ALIGN vaddr in
  let x := PT_L1_INDEX vpage in
  let y := PT_L2_INDEX vpage in
  regs ← pd_get (as_pd_regs a) x;
  if regs =? 0 then mret false else
  pte ← pt_get (as_pd_regs a) x y;
  frame_is_locked_or_junk (pte_kvaddr pte).

(** The error code, and the kernel address when there is none. *)
Definition sos_get_kvaddr (asp vaddr : Z) : M (Z * Z) :=
  if asp =? 0 then mret (EINVAL, 0) else
  a ← load asp;
  if (as_pd_regs a =? 0) || (as_pd_caps a =? 0) then mret (EFAULT, 0) else
  let x := PT_L1_INDEX vaddr in
  let y := PT_L2_INDEX vaddr in
  regs ← pd_get (as_pd_regs a) x;
  if regs =? 0 then mret (EINVAL, 0) else
  pte ← pt_get (as_pd_regs a) x y;
  if negb (pte_in_use pte) then mret (EINVAL, 0) else
  mret (0, u32 (pte_kvaddr pte + (vaddr - PAGE_ALIGN vaddr))).

Definition sos_get_kframe_cap (asp vaddr : Z) : M (Z * Z) :=
  if asp =? 0 then mret (EINVAL, 0) else
  a ← load asp;
  if (as_pd_regs a =? 0) || (as_pd_caps a =? 0) then mret (EFAULT, 0) else
  let x := PT_L1_INDEX vaddr in
  let y := PT_L2_INDEX vaddr in
  regs ← pd_get (as_pd_regs a) x;
  if regs =? 0 then mret (EINVAL, 0) else
  pte ← pt_get (as_pd_regs a) x y;
  if negb (pte_in_use pte) || pte_swapped pte then mret (EINVAL, 0) else
  frame_get_cap (pte_kvaddr pte).

(** * as_destroy (vm/addrspace.c) *)

Definition N_PAGETABLES : Z := 1024.
Definition N_PAGETABLES_ENTRIES : Z := 1024.

(** The inner loop, over the entries of table [i]. *)
Fixpoint destroy_entries (n : nat) (asp i j : Z) : M unit :=
  match n with
  | O => mret tt
  | S n' =>
      _ ← sos_page_free asp (PT_ID_TO_VPAGE i j);
      destroy_entries n' asp i (j + 1)
  end.

(** The outer loop, over the tables. *)
Fixpoint destroy_tables (n : nat) (asp i : Z) : M unit :=
  match n with
  | O => mret tt
  | S n' =>
      a ← load asp;
      regs ← pd_get (as_pd_regs a) i;
      if regs =? 0 then
        caps ← pd_get (as_pd_caps a) i;
        _ ← assertM (caps =? 0);
        destroy_tables n' asp (i + 1)
      else
      _ ← destroy_entries (Z.to_nat N_PAGETABLES_ENTRIES) asp i 0;
      caps ← pd_get (as_pd_caps a) i;
      _ ← frame_free caps;
      regs ← pd_get (as_pd_regs a) i;
      _ ← frame_free regs;
      destroy_tables n' asp (i + 1)
  end.

(** The loop over the seL4 page tables. *)
Fixpoint destroy_pts (l : list (Z * Z)) : M unit :=
  match l with
  | [] => mret tt
  | (pt, pt_addr) :: l' =>
      _ ← invoke (PageTable_Unmap pt);
      _ ← ut_freeM pt_addr seL4_PageTableBits;
      _ ← invoke (Cspace_delete_cap pt);
      destroy_pts l'
  end.

Definition as_destroy (asp : Z) : M unit :=
  if asp =? 0 then mret tt else
  a ← load asp;
  _ ← assertM (negb (as_pd_regs a =? 0) && negb (as_pd_caps a =? 0));
  _ ← destroy_tables (Z.to_nat N_PAGETABLES) asp 0;
  _ ← frame_free (as_pd_regs a);
  _ ← frame_free (as_pd_caps a);
  _ ← destroy_pts (as_pt_head a);
  free asp.
