(* ===== verification/Swap.v ===== *)
(** Swapping pages out and in (vm/swap.c).

    A page is written to a slot of the swap file in pieces of [NFS_SEND_SIZE]
    bytes, each with its own NFS request; its frame is locked meanwhile.  When
    the last piece is written the page table entry is changed to name the slot
    and the frame is freed.  Swapping in maps a new frame, reads the slot into
    it piece by piece and frees the slot. *)

From S2P Require Import Prelude UtAllocator Sos Mapping SwapSlots FrameTable ProcTable.
From S2P Require Import AddrSpace PageTable.

Definition NFS_SEND_SIZE : Z := 1024.
Definition O_RDONLY : Z := 0.
Definition O_WRONLY : Z := 1.
Definition O_RDWR : Z := 2.
Definition SWAP_FILE_NAME : list Z := [115; 119; 97; 112].

(** [!starting_first_process && !is_proc_alive(pid)]. *)
Definition proc_is_gone (pid : Z) : M bool :=
  st ← gets s_starting;
  if (st : bool) then mret false else
  alive ← is_proc_alive pid;
  mret (negb alive).

(** The handle of the swap file; libnfs reads through a NULL pointer without
    one. *)
Definition get_swap_fh : M Z :=
  fh ← gets (λ s, swap_fh (s_swap s));
  lift (deref fh).

(** * Creating the swap file *)

Definition swap_init (rec : interp) (callback : err_cb) (token : Z) : M unit :=
  _ ← set_free_slots_M (replicate (Z.to_nat NUM_CHUNKS) 0);
  cont ← malloc (mk_si callback token);
  if cont =? 0 then call_ rec (CallErr callback token ENOMEM) else
  call_ rec (Call_vfs_open SWAP_FILE_NAME O_RDWR cb_swap_init_end cont).

(** [nfs_dev_get_fhandle] (dev/nfs_dev.c). *)
Definition nfs_dev_get_fhandle (vn : Z) : M (Z * option Z) :=
  if vn =? 0 then mret (EINVAL, None) else
  v ← load vn;
  match vn_data v with
  | None => mret (EFAULT, None)
  | Some d => mret (0, Some (nd_fh d))
  end.

Definition swap_init_end (rec : interp) (token err vn : Z) : M unit :=
  if token =? 0 then mret tt else
  cont ← load token;
  if negb (err =? 0) then
    _ ← call_ rec (CallErr (si_callback cont) (si_token cont) err);
    free token
  else
  '(err, fh) ← nfs_dev_get_fhandle vn;
  if negb (err =? 0) then
    _ ← call_ rec (CallErr (si_callback cont) (si_token cont) EFAULT);
    free token
  else
  _ ← modify (λ s, set_s_swap (set_swap_fh fh (s_swap s)) s);
  _ ← call_ rec (CallErr (si_callback cont) (si_token cont) 0);
  free token.

(** * Swapping out *)

(** [_swap_out_end]. *)
Definition swap_out_end (rec : interp) (token err : Z) : M unit :=
  cont ← load token;
  if negb (err =? 0) then
    _ ← unset_slot (out_free_slot cont);
    _ ← frame_unlock_frame (out_kvaddr cont);
    _ ← call_ rec (CallErr (out_callback cont) (out_token cont) EFAULT);
    free token
  else
  asp ← frame_get_as (out_kvaddr cont);
  _ ← assertM (negb (asp =? 0));
  vaddr ← frame_get_vaddr (out_kvaddr cont);
  let vpage := PAGE_ALIGN vaddr in
  _ ← assertM (negb (vpage =? 0));
  let x := PT_L1_INDEX vpage in
  let y := PT_L2_INDEX vpage in
  a ← load asp;
  _ ← pt_set (as_pd_regs a) x y (swapped_pte (out_free_slot cont));
  _ ← frame_unlock_frame (out_kvaddr cont);
  '(err, kframe_cap) ← frame_get_cap (out_kvaddr cont);
  _ ← invoke (Page_Unify_Instruction kframe_cap);
  _ ← frame_free (out_kvaddr cont);
  _ ← call_ rec (CallErr (out_callback cont) (out_token cont) 0);
  free token.

(** A piece of the page for the swap file. *)
Definition write_piece (token slot kvaddr written : Z) : M bool :=
  let n := Z.min NFS_SEND_SIZE (PAGE_SIZE - written) in
  fh ← get_swap_fh;
  data ← read_mem (kvaddr + written) n;
  send_rpc (rpc_write fh (slot * PAGE_SIZE + written) data cb_swap_out_4_nfs_write_cb token).

(** [_swap_out_4_nfs_write_cb]; [has_attr] is [fattr != NULL]. *)
Definition swap_out_4_nfs_write_cb (rec : interp) (token status : Z) (has_attr : bool)
    (count : Z) : M unit :=
  cont ← load token;
  if negb (status =? 0) || negb has_attr || (count <? 0) then swap_out_end rec token EFAULT else
  fpid ← frame_get_pid (out_kvaddr cont);
  gone ← proc_is_gone fpid;
  if (gone : bool) then
    _ ← unset_slot (out_free_slot cont);
    _ ← frame_unlock_frame (out_kvaddr cont);
    _ ← frame_free (out_kvaddr cont);
    _ ← call_ rec (CallErr (out_callback cont) (out_token cont) EFAULT);
    free token
  else
  _ ← set_cur_proc (out_pid cont);
  let written := u32 (out_written cont + count) in
  _ ← store token (set_out_written written cont);
  if written <? PAGE_SIZE then
    ok ← write_piece token (out_free_slot cont) (out_kvaddr cont) written;
    if negb ok then swap_out_end rec token EFAULT else mret tt
  else swap_out_end rec token 0.

(** [_swap_out_3]. *)
Definition swap_out_3 (rec : interp) (token : Z) : M unit :=
  _ ← assertM (negb (token =? 0));
  slot ← swap_find_free_slot;
  if slot <? 0 then swap_out_end rec token EFAULT else
  _ ← set_slot slot;
  _ ← update token (set_out_free_slot slot);
  cont ← load token;
  ok ← write_piece token slot (out_kvaddr cont) 0;
  if negb ok then swap_out_end rec token EFAULT else mret tt.

Definition swap_out_2_init_callback (rec : interp) (token err : Z) : M unit :=
  _ ← assertM (negb (token =? 0));
  if negb (err =? 0) then swap_out_end rec token EFAULT else swap_out_3 rec token.

(** The field [free_slot] of a new continuation is not initialised. *)
Definition swap_out (rec : interp) (kvaddr : Z) (callback : err_cb) (token : Z) : M unit :=
  let kvaddr := PAGE_ALIGN kvaddr in
  vaddr ← frame_get_vaddr kvaddr;
  _ ← assertM (negb (vaddr =? 0));
  pid ← proc_get_id;
  junk ← ask e_junk;
  cont ← malloc (mk_out callback token kvaddr (i32 junk) 0 pid);
  if cont =? 0 then call_ rec (CallErr callback token ENOMEM) else
  _ ← frame_lock_frame kvaddr;
  fh ← gets (λ s, swap_fh (s_swap s));
  match fh with
  | None => swap_init rec cb_swap_out_2_init_callback cont
  | Some _ => swap_out_3 rec cont
  end.

(** * Swapping in *)

Definition swap_in_end (rec : interp) (token err : Z) : M unit :=
  cont ← load token;
  if negb (err =? 0) then
    _ ← frame_unlock_frame (in_kvaddr cont);
    _ ← (if negb (in_kvaddr cont =? 0) then sos_page_free (in_as cont) (in_vpage cont)
         else mret tt);
    _ ← call_ rec (CallErr (in_callback cont) (in_token cont) err);
    free token
  else
  '(err, kframe_cap) ← frame_get_cap (in_kvaddr cont);
  _ ← assertM (err =? 0);
  _ ← (if in_is_code cont then invoke (Page_Unify_Instruction kframe_cap) else mret 0);
  _ ← frame_unlock_frame (in_kvaddr cont);
  _ ← unset_slot (in_swap_slot cont);
  _ ← call_ rec (CallErr (in_callback cont) (in_token cont) 0);
  free token.

Definition read_piece (token slot pos : Z) : M bool :=
  fh ← get_swap_fh;
  send_rpc (rpc_read fh (slot * PAGE_SIZE + pos) (Z.min NFS_SEND_SIZE (PAGE_SIZE - pos))
              cb_swap_in_nfs_read_handler token).

(** [_swap_in_nfs_read_handler]; [data] are the bytes of the reply. *)
Definition swap_in_nfs_read_handler (rec : interp) (token status count : Z) (data : list Z) :
    M unit :=
  if negb (status =? 0) || (count <? 0) then swap_in_end rec token EFAULT else
  cont ← load token;
  fpid ← frame_get_pid (in_kvaddr cont);
  gone ← proc_is_gone fpid;
  if (gone : bool) then
    _ ← frame_unlock_frame (in_kvaddr cont);
    _ ← frame_free (in_kvaddr cont);
    _ ← unset_slot (in_swap_slot cont);
    _ ← call_ rec (CallErr (in_callback cont) (in_token cont) EFAULT);
    free token
  else
  _ ← set_cur_proc (in_pid cont);
  _ ← write_mem (in_kvaddr cont + in_bytes_read cont) (take (Z.to_nat count) data);
  let bytes_read := u32 (in_bytes_read cont + count) in
  _ ← store token (set_in_bytes_read bytes_read cont);
  if bytes_read <? PAGE_SIZE then
    ok ← read_piece token (in_swap_slot cont) bytes_read;
    if negb ok then swap_in_end rec token EFAULT else mret tt
  else swap_in_end rec token 0.

Definition swap_in_page_map_cb (rec : interp) (token err : Z) : M unit :=
  if negb (err =? 0) then swap_in_end rec token err else
  cont ← load token;
  let x := PT_L1_INDEX (in_vpage cont) in
  let y := PT_L2_INDEX (in_vpage cont) in
  a ← load (in_as cont);
  pte ← pt_get (as_pd_regs a) x y;
  let kvaddr := pte_kvaddr pte in
  _ ← store token (set_in_kvaddr kvaddr cont);
  err ← frame_lock_frame kvaddr;
  if negb (err =? 0) then swap_in_end rec token err else
  ok ← read_piece token (in_swap_slot cont) 0;
  if negb ok then swap_in_end rec token EFAULT else mret tt.

Definition swap_in (rec : interp) (asp rights vaddr : Z) (is_code : bool)
    (callback : err_cb) (token : Z) : M Z :=
  fh ← gets (λ s, swap_fh (s_swap s));
  _ ← assertM (bool_decide (is_Some fh));
  let vpage := PAGE_ALIGN vaddr in
  let x := PT_L1_INDEX vpage in
  let y := PT_L2_INDEX vpage in
  _ ← assertM (negb (asp =? 0));
  a ← load asp;
  regs ← pd_get (as_pd_regs a) x;
  _ ← assertM (negb (regs =? 0));
  caps ← pd_get (as_pd_caps a) x;
  _ ← assertM (negb (caps =? 0));
  pte ← pt_get (as_pd_regs a) x y;
  _ ← assertM (pte_swapped pte);
  let swap_slot := pte_slot pte in
  pid ← proc_get_id;
  cont ← malloc (mk_in callback token 0 vpage swap_slot asp rights is_code 0 pid);
  if cont =? 0 then mret ENOMEM else
  err ← sos_page_map rec pid asp vpage rights cb_swap_in_page_map_cb cont false;
  if negb (err =? 0) then
    _ ← free cont;
    mret err
  else mret 0.
