(* ===== verification/SwapInv.v ===== *)
(** The slots of the swap file and the page table entries that name them: the
    bitmap implements a finite set of slots, and an entry gives back what was
    put into it. *)

From S2P Require Import Prelude UtAllocator Sos Hoare Mapping SwapSlots FrameTable ProcTable.
From S2P Require Import AddrSpace PageTable.

(** * The bitmap as a set *)

Definition NUM_SLOTS : Z := NUM_CHUNKS * NUM_BITS.

Definition slot_used (fs : list Z) (slot : Z) : bool :=
  match fs !! Z.to_nat (slot / NUM_BITS) with
  | Some w => Z.testbit w (slot mod NUM_BITS)
  | None => false
  end.

Definition slots_ok (fs : list Z) : Prop :=
  Zlength fs = NUM_CHUNKS ∧ Forall (λ w, 0 ≤ w < 2 ^ 32) fs.

Lemma find_free_bit_Some w j n j' :
  0 ≤ j → j + Z.of_nat n ≤ 32 → find_free_bit w j n = Some j' →
  j ≤ j' < j + Z.of_nat n ∧ Z.testbit w j' = false ∧ ∀ i, j ≤ i < j' → Z.testbit w i = true.
Proof.
  revert j. induction n as [| n IH]; intros j Hj Hn H; [done |]. cbn [find_free_bit] in H.
  rewrite shiftl1_32, land_bit in H by lia. destruct (Z.testbit w j) eqn:E; cbn [negb] in H.
  - apply IH in H as (? & ? & Hi); [| lia | lia]. split_and!; [lia | lia | done |].
    intros i Hi'. destruct (decide (i = j)) as [-> |]; [done |]. apply Hi. lia.
  - injection H as <-. split_and!; [lia | lia | done |]. lia.
Qed.

Lemma find_free_bit_None w j n :
  0 ≤ j → j + Z.of_nat n ≤ 32 → find_free_bit w j n = None →
  ∀ i, j ≤ i < j + Z.of_nat n → Z.testbit w i = true.
Proof.
  revert j. induction n as [| n IH]; intros j Hj Hn H i Hi; [lia |]. cbn [find_free_bit] in H.
  rewrite shiftl1_32, land_bit in H by lia. destruct (Z.testbit w j) eqn:E; cbn [negb] in H; [| done].
  destruct (decide (i = j)) as [-> |]; [done |]. apply (IH (j + 1)); [lia | lia | done | lia].
Qed.

(** A word that the search skips has no clear bit. *)
Lemma full_word i : 0 ≤ i < 32 → Z.testbit (2 ^ 32 - 1) i = true.
Proof. intros Hi. rewrite testbit_ones32 by lia. lia. Qed.

(** Slots relative to the words that are left. *)
Lemma slot_used_cons w fs slot :
  0 ≤ slot → slot_used (w :: fs) slot =
    if slot <? 32 then Z.testbit w slot else slot_used fs (slot - 32).
Proof.
  intros Hs. unfold slot_used, NUM_BITS. destruct (Z.ltb_spec slot 32) as [Hlt | Hge].
  - by rewrite Z.div_small, Z.mod_small by lia.
  - replace (Z.to_nat (slot / 32)) with (S (Z.to_nat ((slot - 32) / 32))) by divmod.
    cbn. replace ((slot - 32) mod 32) with (slot mod 32) by divmod. done.
Qed.

Lemma find_free_chunk_spec fs i :
  0 ≤ i →
  (find_free_chunk fs i = -1 ∧ ∀ k, 0 ≤ k < 32 * Zlength fs → slot_used fs k = true) ∨
  (∃ k, find_free_chunk fs i = 32 * i + k ∧ 0 ≤ k < 32 * Zlength fs ∧
     slot_used fs k = false ∧ ∀ j, 0 ≤ j < k → slot_used fs j = true).
Proof.
  revert i. induction fs as [| w fs IH]; intros i Hi.
  { left. split; [done |]. intros k Hk. unfold Zlength in Hk. cbn [length] in Hk. lia. }
  assert (Zlength (w :: fs) = 1 + Zlength fs) as Hl by (unfold Zlength; cbn [length]; lia).
  pose proof (Zlength_nonneg fs). cbn [find_free_chunk].
  assert ((∀ b, 0 ≤ b < 32 → Z.testbit w b = true) →
    (find_free_chunk fs (i + 1) = -1 ∧ ∀ k, 0 ≤ k < 32 * Zlength (w :: fs) → slot_used (w :: fs) k = true) ∨
    (∃ k, find_free_chunk fs (i + 1) = 32 * i + k ∧ 0 ≤ k < 32 * Zlength (w :: fs) ∧
       slot_used (w :: fs) k = false ∧ ∀ j, 0 ≤ j < k → slot_used (w :: fs) j = true)) as Hskip.
  { intros Hw. destruct (IH (i + 1)) as [[-> Ha] | (k & -> & Hk & Hf & Hb)]; [lia | left | right].
    - split; [done |]. intros k Hk. rewrite slot_used_cons by lia.
      destruct (Z.ltb_spec k 32); [apply Hw; lia | apply Ha; lia].
    - exists (32 + k). split_and!; [lia | lia | lia | |].
      + rewrite slot_used_cons by lia. destruct (Z.ltb_spec (32 + k) 32); [lia |].
        by replace (32 + k - 32) with k by lia.
      + intros j Hj. rewrite slot_used_cons by lia.
        destruct (Z.ltb_spec j 32); [apply Hw; lia | apply Hb; lia]. }
  destruct (Z.eqb_spec w (2 ^ 32 - 1)) as [-> | Hne]; [apply Hskip, full_word |].
  destruct (find_free_bit w 0 (Z.to_nat NUM_BITS)) as [j |] eqn:E.
  - apply find_free_bit_Some in E as (Hj & Hf & Hb); [| lia | done].
    change (0 + Z.of_nat (Z.to_nat NUM_BITS)) with 32 in Hj.
    right. exists j. unfold NUM_BITS. split_and!; [lia | lia | lia | |].
    + rewrite slot_used_cons by lia. by destruct (Z.ltb_spec j 32); [| lia].
    + intros k Hk. rewrite slot_used_cons by lia. destruct (Z.ltb_spec k 32); [apply Hb; lia | lia].
  - apply Hskip. intros b Hb. by apply (find_free_bit_None w 0 (Z.to_nat NUM_BITS)).
Qed.

(** * Changing a slot *)

Lemma chunk_bit slot :
  0 ≤ slot < NUM_SLOTS → chunk_of slot = slot / 32 ∧ bit_of slot = slot mod 32 ∧ 0 ≤ slot / 32 < 1024.
Proof.
  unfold NUM_SLOTS, chunk_of, bit_of, NUM_CHUNKS, NUM_BITS. intros H.
  rewrite Z.quot_div_nonneg, Z.rem_mod_nonneg by lia. split_and!; [done | done | divmod | divmod].
Qed.

Lemma slot_word fs slot :
  slots_ok fs → 0 ≤ slot < NUM_SLOTS →
  ∃ w, rd fs (chunk_of slot) = Ret w ∧ fs !! Z.to_nat (slot / 32) = Some w ∧ 0 ≤ w < 2 ^ 32 ∧
    slot_used fs slot = Z.testbit w (slot mod 32).
Proof.
  intros [Hl Hf] Hs. destruct (chunk_bit slot Hs) as (Hc & _ & Hr).
  destruct (rd_in fs (chunk_of slot)) as [w Hw]; [rewrite Hl, Hc; done |].
  exists w. pose proof Hw as [_ Hw']%rd_Ret. rewrite Hc in Hw'. split_and!; [done | done | | |].
  - rewrite Forall_lookup in Hf. by apply (Hf _ _ Hw').
  - rewrite Forall_lookup in Hf. by apply (Hf _ _ Hw').
  - unfold slot_used, NUM_BITS. by rewrite Hw'.
Qed.

(** Replacing the word of [slot] by one that differs at its bit only. *)
Lemma slot_used_update fs slot w' i b :
  slots_ok fs → 0 ≤ slot < NUM_SLOTS → 0 ≤ i < NUM_SLOTS → 0 ≤ w' < 2 ^ 32 →
  (∀ w, fs !! Z.to_nat (slot / 32) = Some w → ∀ n, 0 ≤ n < 32 →
     Z.testbit w' n = if n =? slot mod 32 then b else Z.testbit w n) →
  slots_ok (<[Z.to_nat (slot / 32) := w']> fs) ∧
  slot_used (<[Z.to_nat (slot / 32) := w']> fs) i = if i =? slot then b else slot_used fs i.
Proof.
  intros Hok Hs Hi Hw' Hbits. destruct (slot_word fs slot Hok Hs) as (w & _ & Hw & _ & _).
  destruct (chunk_bit slot Hs) as (_ & _ & Hr). destruct (chunk_bit i Hi) as (_ & _ & Hri).
  destruct Hok as [Hl Hf]. split.
  { split; [by rewrite Zlength_insert | by apply Forall_insert]. }
  unfold slot_used, NUM_BITS. destruct (decide (i / 32 = slot / 32)) as [He | Hne].
  - rewrite He, list_lookup_insert_eq, Hw by (by eapply lookup_lt_Some).
    rewrite (Hbits _ Hw) by (apply Z.mod_pos_bound; lia).
    destruct (Z.eqb_spec (i mod 32) (slot mod 32)), (Z.eqb_spec i slot); try done; exfalso.
    + pose proof (Z.div_mod i 32). pose proof (Z.div_mod slot 32). lia.
    + by subst.
  - rewrite list_lookup_insert_ne by lia.
    destruct (Z.eqb_spec i slot); [by subst | done].
Qed.

Lemma set_slot_spec fs slot :
  slots_ok fs → 0 ≤ slot < NUM_SLOTS →
  ∃ fs', set_slot_in fs slot = Ret fs' ∧ slots_ok fs' ∧
    ∀ i, 0 ≤ i < NUM_SLOTS → slot_used fs' i = if i =? slot then true else slot_used fs i.
Proof.
  intros Hok Hs. destruct (slot_word fs slot Hok Hs) as (w & Hw & Hl & Hr & _).
  destruct (chunk_bit slot Hs) as (Hc & Hb & Hrange).
  unfold set_slot_in. rewrite Hw. cbn [mbind outcome_bind].
  rewrite wr_in by (by eapply rd_bounds). eexists. split; [done |]. rewrite Hc, Hb.
  assert (0 ≤ slot mod 32 < 32) by (apply Z.mod_pos_bound; lia). rewrite shiftl1_32 by done.
  assert (0 ≤ 2 ^ (slot mod 32) < 2 ^ 32) by (split; [lia | apply Z.pow_lt_mono_r; lia]).
  assert (∀ w0, fs !! Z.to_nat (slot / 32) = Some w0 → ∀ n, 0 ≤ n < 32 →
    Z.testbit (Z.lor w (2 ^ (slot mod 32))) n = if n =? slot mod 32 then true else Z.testbit w0 n) as Hbits.
  { intros w0 Hw0 n Hn. rewrite Hl in Hw0. injection Hw0 as <-.
    rewrite Z.lor_spec, testbit_pow2 by lia. by destruct (_ =? _); rewrite ?orb_true_r, ?orb_false_r. }
  split; [eapply (slot_used_update fs slot _ slot true); try done; by apply lor_range |].
  intros i Hi. eapply slot_used_update; try done. by apply lor_range.
Qed.

Lemma unset_slot_spec fs slot :
  slots_ok fs → 0 ≤ slot < NUM_SLOTS →
  ∃ fs', unset_slot_in fs slot = Ret fs' ∧ slots_ok fs' ∧
    ∀ i, 0 ≤ i < NUM_SLOTS → slot_used fs' i = if i =? slot then false else slot_used fs i.
Proof.
  intros Hok Hs. destruct (slot_word fs slot Hok Hs) as (w & Hw & Hl & Hr & _).
  destruct (chunk_bit slot Hs) as (Hc & Hb & Hrange).
  unfold unset_slot_in. rewrite Hw. cbn [mbind outcome_bind].
  rewrite wr_in by (by eapply rd_bounds). eexists. split; [done |]. rewrite Hc, Hb.
  assert (0 ≤ slot mod 32 < 32) by (apply Z.mod_pos_bound; lia). rewrite shiftl1_32 by done.
  assert (0 ≤ 2 ^ (slot mod 32) < 2 ^ 32) by (split; [lia | apply Z.pow_lt_mono_r; lia]).
  assert (∀ w0, fs !! Z.to_nat (slot / 32) = Some w0 → ∀ n, 0 ≤ n < 32 →
    Z.testbit (andnot32 w (2 ^ (slot mod 32))) n = if n =? slot mod 32 then false else Z.testbit w0 n) as Hbits.
  { intros w0 Hw0 n Hn. rewrite Hl in Hw0. injection Hw0 as <-.
    rewrite andnot32_spec, testbit_pow2 by lia.
    by destruct (_ =? _); cbn [negb]; rewrite ?andb_true_r, ?andb_false_r. }
  split; [eapply (slot_used_update fs slot _ slot false); try done; by apply andnot32_range |].
  intros i Hi. eapply slot_used_update; try done. by apply andnot32_range.
Qed.

(** The bitmap of swap.c implements a set of [NUM_SLOTS] slots: the search
    answers -1 exactly when all are in use, and otherwise the lowest free slot;
    [_set_slot] of any slot adds exactly that slot to those in use, and
    [swap_free_slot] takes exactly that slot out. *)
Theorem swap_slots_correct (fs : list Z) :
  slots_ok fs →
  let slot := swap_find_free_slot_in fs in
  (slot = -1 ∧ (∀ i, 0 ≤ i < NUM_SLOTS → slot_used fs i = true) ∨
   0 ≤ slot < NUM_SLOTS ∧ slot_used fs slot = false ∧
     ∀ i, 0 ≤ i < slot → slot_used fs i = true) ∧
  ∀ j, 0 ≤ j < NUM_SLOTS →
    (∃ fs', set_slot_in fs j = Ret fs' ∧ slots_ok fs' ∧
       ∀ i, 0 ≤ i < NUM_SLOTS → slot_used fs' i = if i =? j then true else slot_used fs i) ∧
    (∃ fs', unset_slot_in fs j = Ret fs' ∧ slots_ok fs' ∧
       ∀ i, 0 ≤ i < NUM_SLOTS → slot_used fs' i = if i =? j then false else slot_used fs i).
Proof.
  intros Hok. pose proof Hok as [Hl _]. split.
  - assert (32 * Zlength fs = NUM_SLOTS) as Hn by (by rewrite Hl). unfold swap_find_free_slot_in.
    destruct (find_free_chunk_spec fs 0) as [[-> Ha] | (k & -> & Hk & Hf & Hb)]; [done | left | right].
    + by rewrite Hn in Ha.
    + rewrite Hn in Hk. replace (32 * 0 + k) with k by lia. done.
  - intros j Hj. split; [by apply set_slot_spec | by apply unset_slot_spec].
Qed.

Lemma swap_slots_correct_witness :
  swap_find_free_slot_in ((2 ^ 32 - 1) :: replicate 1023 5) = 33 ∧
  slot_used ((2 ^ 32 - 1) :: replicate 1023 5) 33 = false.
Proof.
  destruct (swap_slots_correct ((2 ^ 32 - 1) :: replicate 1023 5)) as [[[H _] | (_ & H & _)] _].
  - split; [vm_compute; reflexivity |].
    apply Forall_cons. split; [split; [discriminate | reflexivity] |].
    apply Forall_replicate. split; [discriminate | reflexivity].
  - vm_compute in H. discriminate H.
  - split; [vm_compute; reflexivity |]. vm_compute in H |- *. exact H.
Defined.

(** * Page table entries *)

Lemma shiftr_land_mask slot :
  0 ≤ slot < 2 ^ 30 →
  Z.shiftr (Z.land (Z.lor (Z.lor (Z.shiftl slot 2) 1) 2) PTE_SWAP_MASK) 2 = slot.
Proof.
  intros Hs. change PTE_SWAP_MASK with (Z.shiftl (Z.ones 30) 2).
  apply Z.bits_inj'. intros n Hn.
  rewrite Z.shiftr_spec, Z.land_spec, !Z.lor_spec, !Z.shiftl_spec by lia.
  replace (n + 2 - 2) with n by lia. rewrite Z.testbit_ones_nonneg by lia.
  rewrite (testbit_above 1 1 (n + 2)), (testbit_above 2 2 (n + 2)) by lia.
  rewrite !orb_false_r. destruct (Z.ltb_spec n 30); [by rewrite andb_true_r |].
  rewrite (testbit_above slot 30) by lia. done.
Qed.

Lemma land_page a : 0 ≤ a < 2 ^ 32 → a mod PAGE_SIZE = 0 → Z.land a PTE_KVADDR_MASK = a.
Proof.
  intros Ha Hm. change PTE_KVADDR_MASK with (2 ^ 32 - 1 - (2 ^ 12 - 1)).
  change (Z.land a (2 ^ 32 - 1 - (2 ^ 12 - 1))) with (andnot32 a (2 ^ 12 - 1)).
  rewrite andnot32_low by lia. unfold PAGE_SIZE in Hm. change (2 ^ 12) with 4096. divmod.
Qed.

(** A page table entry gives back what was stored: the entry that
    [sos_page_map] writes for a frame is in use, not swapped and names the frame's
    address; the entry that [_swap_out_end] writes is in use, swapped and names
    the slot, for every slot of the swap file. *)
Theorem pte_roundtrip (kvaddr slot : Z) :
  0 ≤ kvaddr < 2 ^ 32 → kvaddr mod PAGE_SIZE = 0 → 0 ≤ slot < NUM_SLOTS →
  (pte_in_use (new_pte kvaddr) = true ∧ pte_swapped (new_pte kvaddr) = false ∧
   pte_kvaddr (new_pte kvaddr) = kvaddr) ∧
  (pte_in_use (swapped_pte slot) = true ∧ pte_swapped (swapped_pte slot) = true ∧
   pte_slot (swapped_pte slot) = slot).
Proof.
  intros Hk Hm Hs. change NUM_SLOTS with (2 ^ 15) in Hs.
  assert (0 ≤ Z.lor kvaddr 1 < 2 ^ 32) as Hl by (apply lor_range; lia).
  assert (∀ n, Z.testbit (new_pte kvaddr) n =
            (Z.testbit kvaddr n || (n =? 0)) && negb (n =? 1)) as Hb.
  { intros n. unfold new_pte, PTE_IN_USE_BIT, PTE_SWAPPED. rewrite andnot32_spec by lia.
    rewrite Z.lor_spec. change 1 with (2 ^ 0) at 1. change 2 with (2 ^ 1). by rewrite !testbit_pow2. }
  assert (u32 (Z.shiftl slot 2) = Z.shiftl slot 2) as Hu.
  { apply u32_small. rewrite Z.shiftl_mul_pow2 by lia. lia. }
  unfold pte_in_use, pte_swapped, PTE_IN_USE_BIT, PTE_SWAPPED.
  change 1 with (2 ^ 0). change 2 with (2 ^ 1). rewrite !land_bit, !negb_involutive by lia.
  split; split_and!.
  - rewrite Hb. by rewrite orb_true_r.
  - rewrite Hb. by rewrite andb_false_r.
  - unfold pte_kvaddr. rewrite <- (land_page kvaddr) at 2 by done. apply Z.bits_inj'. intros n Hn.
    rewrite !Z.land_spec, Hb. change PTE_KVADDR_MASK with (Z.shiftl (Z.ones 20) 12).
    rewrite Z.shiftl_spec by done. destruct (decide (n < 12)).
    + rewrite (Z.testbit_neg_r _ (n - 12)) by lia. by rewrite !andb_false_r.
    + destruct (Z.eqb_spec n 0), (Z.eqb_spec n 1); try lia. by rewrite orb_false_r, andb_true_r.
  - unfold swapped_pte, PTE_SWAP_OFFSET, PTE_IN_USE_BIT, PTE_SWAPPED. rewrite Hu, !Z.lor_spec.
    by rewrite orb_true_r.
  - unfold swapped_pte, PTE_SWAP_OFFSET, PTE_IN_USE_BIT, PTE_SWAPPED. rewrite Hu, !Z.lor_spec.
    by rewrite !orb_true_r.
  - unfold pte_slot, swapped_pte, PTE_SWAP_OFFSET, PTE_IN_USE_BIT, PTE_SWAPPED. rewrite Hu.
    apply shiftr_land_mask. lia.
Qed.

Lemma pte_roundtrip_witness :
  pte_kvaddr (new_pte 0x20005000) = 0x20005000 ∧ pte_slot (swapped_pte 4711) = 4711.
Proof.
  destruct (pte_roundtrip 0x20005000 4711) as [(_ & _ & H1) (_ & _ & H2)].
  - split; [discriminate | reflexivity].
  - reflexivity.
  - split; [discriminate | reflexivity].
  - split; [exact H1 | exact H2].
Defined.
