(* ===== verification/SwapProto.v ===== *)
(** The exchange of pages with the swap file, reply by reply.

    A page goes out and comes back in pieces, each with an NFS request of its
    own, and the server may take or give less than a piece.  While a page goes
    out, what has been written is in the file; while it comes in, what has been
    read is in the frame; each reply brings the exchange forward, and when it
    ends the whole page is there. *)

From S2P Require Import Prelude UtAllocator Sos Hoare Mapping SwapSlots FrameTable FrameInv.
From S2P Require Import FrameAlloc ProcTable AddrSpace PageTable Swap.

(** * Looking up processes *)

(** What [proc_getproc] answers, as a function of the table and the heap. *)
Definition getproc_at (t : procst) (h : gmap Z obj) (pid : Z) : option Z :=
  if pid =? PROC_NULL then Some 0 else
  match rd (processes t) (Z.quot pid RANGE_PER_SLOT) with
  | Ret p =>
      if p =? 0 then Some 0 else
      match h !! p with
      | Some (OProcess x) => Some (if p_pid x =? pid then p else 0)
      | _ => None
      end
  | Fault _ => None
  end.

Lemma proc_getproc_eq pid p s :
  getproc_at (s_proc s) (s_heap s) pid = Some p → proc_getproc pid s = Ret (p, s).
Proof.
  unfold getproc_at, proc_getproc. destruct (pid =? PROC_NULL); [by intros [= <-] |].
  intros H. mpure. destruct (rd _ _) as [q |] eqn:E; [| done].
  mstep lift_eq by done. destruct (Z.eqb_spec q 0) as [-> | Hq]; [by injection H as <- |].
  destruct (s_heap s !! q) as [[]|] eqn:Eq; try done. injection H as <-.
  erewrite M_bind_eq by (by apply (load_eq (T := process))). done.
Qed.

Definition is_process (o : obj) : bool := match o with OProcess _ => true | _ => false end.

Lemma getproc_insert t h pid q o o' :
  h !! q = Some o → is_process o = false → is_process o' = false →
  getproc_at t (<[q := o']> h) pid = getproc_at t h pid.
Proof.
  intros Ho Hp Hp'. unfold getproc_at. destruct (pid =? PROC_NULL); [done |].
  destruct (rd _ _) as [p |]; [| done]. destruct (p =? 0); [done |].
  destruct (decide (p = q)) as [-> | Hne]; [| by rewrite lookup_insert_ne].
  rewrite lookup_insert_eq, Ho. by destruct o, o'.
Qed.

(** The owner of a page is alive, or SOS is starting. *)
Definition owner_ok (pid : Z) (s : sos) : Prop :=
  s_starting s = true ∨ ∃ p, getproc_at (s_proc s) (s_heap s) pid = Some p ∧ p ≠ 0.

Lemma proc_is_gone_eq pid s : owner_ok pid s → proc_is_gone pid s = Ret (false, s).
Proof.
  intros H. unfold proc_is_gone. mpure. destruct (s_starting s) eqn:E; [done |].
  destruct H as [? | (p & Hp & Hne)]; [congruence |].
  unfold is_proc_alive. rewrite M_bind_assoc. mstep (proc_getproc_eq _ _ _ Hp).
  mpure. by destruct (Z.eqb_spec p 0).
Qed.

(** * Memory in pieces *)

Lemma length_bytes_at m a n : length (bytes_at m a n) = n.
Proof. unfold bytes_at. by rewrite length_fmap, length_seq. Qed.

Lemma bytes_at_lookup m a n i :
  (i < n)%nat → bytes_at m a n !! i = Some (m (a + Z.of_nat i)).
Proof. intros Hi. unfold bytes_at. by rewrite list_lookup_fmap, lookup_seq_lt. Qed.

Lemma take_bytes_at m a n c : (c ≤ n)%nat → take c (bytes_at m a n) = bytes_at m a c.
Proof.
  intros Hc. apply list_eq. intros i. destruct (decide (i < c)%nat).
  - rewrite lookup_take_lt by done. by rewrite !bytes_at_lookup by lia.
  - rewrite !lookup_ge_None_2; [done | |].
    + rewrite length_bytes_at. lia.
    + rewrite length_take, length_bytes_at. lia.
Qed.

Lemma put_bytes_at f m a b n i :
  put_bytes f a (bytes_at m b n) (a + i) =
    if (0 <=? i) && (i <? Z.of_nat n) then m (b + i) else f (a + i).
Proof.
  unfold put_bytes, Zlength. rewrite length_bytes_at.
  destruct (Z.leb_spec 0 i), (Z.leb_spec a (a + i)), (Z.ltb_spec i (Z.of_nat n)),
    (Z.ltb_spec (a + i) (a + Z.of_nat n)); try lia; try done.
  cbn [andb]. apply nth_lookup_Some. replace (a + i - a) with i by lia.
  rewrite bytes_at_lookup by lia. by rewrite Z2Nat.id.
Qed.

Lemma put_bytes_other f a l x :
  x < a ∨ a + Zlength l ≤ x → put_bytes f a l x = f x.
Proof.
  intros H. unfold put_bytes.
  destruct (Z.leb_spec a x), (Z.ltb_spec x (a + Zlength l)); try lia; done.
Qed.

(** A file that agrees with memory on the first [w] bytes agrees on the first
    [w + c] after [c] more were written. *)
Lemma pieces_agree f m fa ma w c :
  0 ≤ w → 0 ≤ c →
  (∀ i, 0 ≤ i < w → f (fa + i) = m (ma + i)) →
  ∀ i, 0 ≤ i < w + c →
    put_bytes f (fa + w) (bytes_at m (ma + w) (Z.to_nat c)) (fa + i) = m (ma + i).
Proof.
  intros Hw Hc Hf i Hi. replace (fa + i) with (fa + w + (i - w)) by lia.
  rewrite put_bytes_at. destruct (Z.leb_spec 0 (i - w)).
  - rewrite Z2Nat.id by done. destruct (Z.ltb_spec (i - w) c); [| lia]. cbn [andb]. f_equal. lia.
  - cbn [andb]. replace (fa + w + (i - w)) with (fa + i) by lia. apply Hf. lia.
Qed.

(** * Going out *)

(** A page is on its way out: the frame is still its owner's, and the file [f]
    has what was written so far. *)
Record going_out (f : Z → Z) (token : Z) (cont : swap_out_cont) (s : sos) : Prop := {
  go_inv : ft_inv s;
  go_token : token ≠ 0;
  go_cont : s_heap s !! token = Some (to_obj cont);
  go_page : ID_TO_KVADDR (KVADDR_TO_ID (out_kvaddr cont)) = out_kvaddr cont;
  go_owner : ∃ e, frame_check (s_ft s) (out_kvaddr cont) = Some e ∧ owner_ok (fte_pid e) s;
  go_cur : is_Some (getproc_at (s_proc s) (s_heap s) (out_pid cont));
  go_fh : is_Some (swap_fh (s_swap s));
  go_written : 0 ≤ out_written cont ≤ PAGE_SIZE;
  go_file : ∀ i, 0 ≤ i < out_written cont →
    f (out_free_slot cont * PAGE_SIZE + i) = s_mem s (out_kvaddr cont + i)
}.

(** The piece that starts at byte [w], and its request. *)
Definition piece (s : sos) (kvaddr w : Z) : list Z :=
  bytes_at (s_mem s) (kvaddr + w) (Z.to_nat (Z.min NFS_SEND_SIZE (PAGE_SIZE - w))).

Definition write_request (s : sos) (token : Z) (cont : swap_out_cont) : rpc :=
  rpc_write (default 0 (swap_fh (s_swap s))) (out_free_slot cont * PAGE_SIZE + out_written cont)
    (piece s (out_kvaddr cont) (out_written cont)) cb_swap_out_4_nfs_write_cb token.

(** The file after the server took [count] bytes of a request. *)
Definition server_write (f : Z → Z) (q : rpc) (count : Z) : Z → Z :=
  match q with
  | rpc_write _ off data _ _ => put_bytes f off (take (Z.to_nat count) data)
  | _ => f
  end.

Lemma frame_get_pid_eq kvaddr e s :
  ft_inv s → frame_check (s_ft s) kvaddr = Some e → frame_get_pid kvaddr s = Ret (fte_pid e, s).
Proof.
  intros Hinv He. unfold frame_get_pid. mstep (check_allocated_eq kvaddr s Hinv).
  rewrite He. cbn [negb Z.eqb]. apply frame_check_Some in He as (_ & He & _).
  by mstep (get_frame_eq _ _ _ He).
Qed.

Lemma accessible_page s kvaddr e lo n :
  ft_inv s → ID_TO_KVADDR (KVADDR_TO_ID kvaddr) = kvaddr →
  frame_check (s_ft s) kvaddr = Some e → 0 ≤ lo → 0 ≤ n → lo + n ≤ PAGE_SIZE →
  accessible s (kvaddr + lo) n = true.
Proof.
  intros Hinv Hp He Hlo Hn Hhi. apply frame_check_Some in He as (Hb & He & Hs). rewrite <- Hp.
  pose proof (fo_res _ Hinv).
  eapply accessible_frame; try done; [lia | by rewrite Hs | apply Hinv].
Qed.

(** Asking for a piece to be written. *)
Lemma write_piece_eq s token cont e :
  ft_inv s → ID_TO_KVADDR (KVADDR_TO_ID (out_kvaddr cont)) = out_kvaddr cont →
  frame_check (s_ft s) (out_kvaddr cont) = Some e → is_Some (swap_fh (s_swap s)) →
  0 ≤ out_written cont < PAGE_SIZE →
  write_piece token (out_free_slot cont) (out_kvaddr cont) (out_written cont) s =
    send_rpc (write_request s token cont) s.
Proof.
  intros Hinv Hp He [fh Hfh] Hw. unfold write_piece, get_swap_fh. rewrite M_bind_assoc. mpure.
  rewrite Hfh. mstep lift_eq by done.
  mstep read_mem_eq by (eapply accessible_page; try done; unfold NFS_SEND_SIZE, PAGE_SIZE in *; lia).
  unfold write_request, piece. by rewrite Hfh.
Qed.

(** The state after a reply was noted in the continuation. *)
Lemma going_out_next f token cont s p count :
  going_out f token cont s → out_written cont < PAGE_SIZE →
  0 ≤ count ≤ Zlength (piece s (out_kvaddr cont) (out_written cont)) →
  let cont' := set_out_written (out_written cont + count) cont in
  going_out (server_write f (write_request s token cont) count) token cont'
    (set_s_heap (<[token := to_obj cont']> (s_heap s))
       (set_s_proc (set_cur_proc_ptr p (s_proc s)) s)).
Proof.
  intros [Hinv Ht Hc Hp Ho Hcur Hfh Hw Hf] Hlt Hcount cont'.
  unfold piece, Zlength in Hcount. rewrite length_bytes_at in Hcount.
  assert (0 ≤ count ≤ PAGE_SIZE - out_written cont) as Hb by lia.
  assert (∀ pid, getproc_at (set_cur_proc_ptr p (s_proc s)) (<[token := to_obj cont']> (s_heap s)) pid =
            getproc_at (s_proc s) (s_heap s) pid) as Hg.
  { intros pid. by apply (getproc_insert (set_cur_proc_ptr p (s_proc s)) _ pid token _ _ Hc). }
  split; try done.
  - cbn [s_heap set_s_heap]. apply lookup_insert_eq.
  - destruct Ho as (e & He & Ho). exists e. split; [done |]. unfold owner_ok. cbn. by rewrite Hg.
  - cbn. by rewrite Hg.
  - cbn. lia.
  - cbn -[put_bytes]. unfold piece. rewrite take_bytes_at by lia.
    apply pieces_agree; [lia | lia | done].
Qed.

(** [C6] While a page is swapped out, each successful reply moves the exchange
    forward.  With the first [out_written] bytes of the page in the file, and the
    server having taken [count] bytes of the piece it was sent, the callback is
    left with [count] more bytes in the file and the memory unchanged; it asks
    for the next piece to be written, and when the whole page is in its slot of
    the file it calls [_swap_out_end] without an error. *)
Theorem swap_out_round (rec : interp) (f : Z → Z) (token : Z) (cont : swap_out_cont) (count : Z)
    (s : sos) :
  going_out f token cont s → out_written cont < PAGE_SIZE →
  0 ≤ count ≤ Zlength (piece s (out_kvaddr cont) (out_written cont)) →
  let f' := server_write f (write_request s token cont) count in
  let cont' := set_out_written (out_written cont + count) cont in
  ∃ s1, going_out f' token cont' s1 ∧ s_mem s1 = s_mem s ∧
    swap_out_4_nfs_write_cb rec token 0 true count s =
      if out_written cont' <? PAGE_SIZE then
        (ok ← send_rpc (write_request s1 token cont');
         if negb ok then swap_out_end rec token EFAULT else mret tt) s1
      else swap_out_end rec token 0 s1.
Proof.
  intros H Hlt Hcount f' cont'. pose proof H as [Hinv Ht Hc Hp (e & He & Ho) [p Hcur] Hfh Hw Hf].
  pose proof (going_out_next f token cont s p count H Hlt Hcount) as Hnext. cbv zeta in Hnext.
  fold cont' f' in Hnext. eexists. split; [exact Hnext |]. split; [done |].
  unfold swap_out_4_nfs_write_cb. mstep load_eq by done.
  replace (count <? 0) with false by lia. cbn [negb orb Z.eqb].
  mstep (frame_get_pid_eq _ _ _ Hinv He). mstep (proc_is_gone_eq _ _ Ho).
  unfold set_cur_proc, mod_proc. rewrite M_bind_assoc. mstep (proc_getproc_eq _ _ _ Hcur). mpure.
  unfold piece, Zlength in Hcount. rewrite length_bytes_at in Hcount.
  rewrite u32_small by (unfold PAGE_SIZE in *; lia). fold cont'.
  mstep store_eq by done. cbn [out_written set_out_written cont'].
  destruct (Z.ltb_spec (out_written cont + count) PAGE_SIZE); [| done].
  destruct Hnext as [Hinv' _ _ Hp' (e' & He' & _) _ Hfh' _ _].
  assert (0 ≤ out_written cont' < PAGE_SIZE) as Hw' by (cbn; lia).
  apply M_bind_left. exact (write_piece_eq _ token cont' e' Hinv' Hp' He' Hfh' Hw').
Qed.

(** * Coming in *)

(** A page is on its way in: its new frame has what was read from the file [f]
    so far. *)
Record coming_in (f : Z → Z) (token : Z) (cont : swap_in_cont) (s : sos) : Prop := {
  ci_inv : ft_inv s;
  ci_token : token ≠ 0;
  ci_cont : s_heap s !! token = Some (to_obj cont);
  ci_page : ID_TO_KVADDR (KVADDR_TO_ID (in_kvaddr cont)) = in_kvaddr cont;
  ci_owner : ∃ e, frame_check (s_ft s) (in_kvaddr cont) = Some e ∧ owner_ok (fte_pid e) s;
  ci_cur : is_Some (getproc_at (s_proc s) (s_heap s) (in_pid cont));
  ci_fh : is_Some (swap_fh (s_swap s));
  ci_read : 0 ≤ in_bytes_read cont ≤ PAGE_SIZE;
  ci_mem : ∀ i, 0 ≤ i < in_bytes_read cont →
    s_mem s (in_kvaddr cont + i) = f (in_swap_slot cont * PAGE_SIZE + i)
}.

Definition read_request (s : sos) (token : Z) (cont : swap_in_cont) : rpc :=
  rpc_read (default 0 (swap_fh (s_swap s))) (in_swap_slot cont * PAGE_SIZE + in_bytes_read cont)
    (Z.min NFS_SEND_SIZE (PAGE_SIZE - in_bytes_read cont)) cb_swap_in_nfs_read_handler token.

(** The bytes the server sends when it gives [count] bytes for a request. *)
Definition server_read (f : Z → Z) (q : rpc) (count : Z) : list Z :=
  match q with
  | rpc_read _ off _ _ _ => bytes_at f off (Z.to_nat count)
  | _ => []
  end.

Lemma read_piece_eq s token cont :
  is_Some (swap_fh (s_swap s)) →
  read_piece token (in_swap_slot cont) (in_bytes_read cont) s = send_rpc (read_request s token cont) s.
Proof.
  intros [fh Hfh]. unfold read_piece, get_swap_fh. rewrite M_bind_assoc. mpure.
  rewrite Hfh. mstep lift_eq by done. unfold read_request. by rewrite Hfh.
Qed.

Lemma coming_in_next f token cont s p count data :
  coming_in f token cont s → in_bytes_read cont < PAGE_SIZE →
  0 ≤ count ≤ Z.min NFS_SEND_SIZE (PAGE_SIZE - in_bytes_read cont) →
  data = server_read f (read_request s token cont) count →
  let cont' := set_in_bytes_read (in_bytes_read cont + count) cont in
  coming_in f token cont'
    (set_s_heap (<[token := to_obj cont']> (s_heap s))
       (set_s_mem (put_bytes (s_mem s) (in_kvaddr cont + in_bytes_read cont) data)
          (set_s_proc (set_cur_proc_ptr p (s_proc s)) s))).
Proof.
  intros [Hinv Ht Hc Hp Ho Hcur Hfh Hr Hm] Hlt Hcount -> cont'.
  assert (∀ pid, getproc_at (set_cur_proc_ptr p (s_proc s)) (<[token := to_obj cont']> (s_heap s)) pid =
            getproc_at (s_proc s) (s_heap s) pid) as Hg.
  { intros pid. by apply (getproc_insert (set_cur_proc_ptr p (s_proc s)) _ pid token _ _ Hc). }
  split; try done.
  - cbn [s_heap set_s_heap]. apply lookup_insert_eq.
  - destruct Ho as (e & He & Ho). exists e. split; [done |]. unfold owner_ok. cbn. by rewrite Hg.
  - cbn. by rewrite Hg.
  - cbn. lia.
  - cbn -[put_bytes]. apply pieces_agree; [lia | lia | done].
Qed.

(** [C7] While a page is swapped in, each successful reply moves the exchange
    forward: with the first [in_bytes_read] bytes of the slot in the frame and
    [count] more of them in the reply, the callback is left with those in the
    frame as well and no byte outside the frame changed; it asks for the next
    piece, and when the frame holds the whole slot it calls [_swap_in_end]
    without an error. *)
Theorem swap_in_round (rec : interp) (f : Z → Z) (token : Z) (cont : swap_in_cont) (count : Z)
    (s : sos) :
  coming_in f token cont s → in_bytes_read cont < PAGE_SIZE →
  0 ≤ count ≤ Z.min NFS_SEND_SIZE (PAGE_SIZE - in_bytes_read cont) →
  let data := server_read f (read_request s token cont) count in
  let cont' := set_in_bytes_read (in_bytes_read cont + count) cont in
  ∃ s1, coming_in f token cont' s1 ∧
    (∀ x, x < in_kvaddr cont ∨ in_kvaddr cont + PAGE_SIZE ≤ x → s_mem s1 x = s_mem s x) ∧
    swap_in_nfs_read_handler rec token 0 count data s =
      if in_bytes_read cont' <? PAGE_SIZE then
        (ok ← send_rpc (read_request s1 token cont');
         if negb ok then swap_in_end rec token EFAULT else mret tt) s1
      else swap_in_end rec token 0 s1.
Proof.
  intros H Hlt Hcount data cont'. pose proof H as [Hinv Ht Hc Hp (e & He & Ho) [p Hcur] Hfh Hr Hm].
  assert (length data = Z.to_nat count) as Hlen by apply length_bytes_at.
  pose proof (coming_in_next f token cont s p count data H Hlt Hcount eq_refl) as Hnext.
  cbv zeta in Hnext. fold cont' in Hnext. eexists. split; [exact Hnext |]. split.
  { intros x Hx. apply (put_bytes_other _ _ data). unfold Zlength. rewrite Hlen. lia. }
  unfold swap_in_nfs_read_handler. replace (count <? 0) with false by lia. cbn [negb orb Z.eqb].
  mstep load_eq by done. mstep (frame_get_pid_eq _ _ _ Hinv He). mstep (proc_is_gone_eq _ _ Ho).
  unfold set_cur_proc, mod_proc. rewrite M_bind_assoc. mstep (proc_getproc_eq _ _ _ Hcur). mpure.
  rewrite take_ge by lia.
  mstep write_mem_eq by (eapply accessible_page; try done; unfold Zlength; lia).
  rewrite u32_small by (unfold PAGE_SIZE in *; lia). fold cont'.
  mstep store_eq by done. cbn [in_bytes_read set_in_bytes_read cont'].
  destruct (Z.ltb_spec (in_bytes_read cont + count) PAGE_SIZE); [| done].
  apply M_bind_left. exact (read_piece_eq _ token cont' (ci_fh _ _ _ _ Hnext)).
Qed.
