(* ===== verification/PageWalk.v ===== *)
(** The page tables as a map from pages to entries: reading is a walk through
    memory, writing an entry changes that entry only, and the getters of
    pagetable.c answer from it. *)

From S2P Require Import Prelude UtAllocator Sos Hoare Mapping SwapSlots FrameTable FrameInv.
From S2P Require Import FrameAlloc ProcTable AddrSpace PageTable Swap SwapInv.

(** * Words in memory *)

Lemma put_bytes_in m a l i x :
  l !! i = Some x → put_bytes m a l (a + Z.of_nat i) = x.
Proof.
  intros Hi. pose proof (lookup_lt_Some _ _ _ Hi) as Hlt. unfold put_bytes, Zlength.
  replace (a <=? a + Z.of_nat i) with true by lia.
  replace (a + Z.of_nat i <? a + Z.of_nat (length l)) with true by lia. cbn [andb].
  replace (Z.to_nat (a + Z.of_nat i - a)) with i by lia. by apply nth_lookup_Some.
Qed.

Lemma put_bytes_out m a l x : x < a ∨ a + Zlength l ≤ x → put_bytes m a l x = m x.
Proof.
  intros H. unfold put_bytes.
  destruct (Z.leb_spec a x), (Z.ltb_spec x (a + Zlength l)); try lia; done.
Qed.

Lemma word_put_eq m a v : 0 ≤ v < 2 ^ 32 → word_of (put_bytes m a (word_bytes v)) a = v.
Proof.
  intros Hv. unfold word_of.
  pose proof (put_bytes_in m a (word_bytes v) 0 _ eq_refl) as H0.
  pose proof (put_bytes_in m a (word_bytes v) 1 _ eq_refl) as H1.
  pose proof (put_bytes_in m a (word_bytes v) 2 _ eq_refl) as H2.
  pose proof (put_bytes_in m a (word_bytes v) 3 _ eq_refl) as H3.
  change (a + Z.of_nat 0) with (a + 0) in H0. rewrite Z.add_0_r in H0.
  change (a + Z.of_nat 1) with (a + 1) in H1. change (a + Z.of_nat 2) with (a + 2) in H2.
  change (a + Z.of_nat 3) with (a + 3) in H3. rewrite H0, H1, H2, H3.
  divmod.
Qed.

Lemma word_put_ne m a b v :
  a + 4 ≤ b ∨ b + 4 ≤ a → word_of (put_bytes m a (word_bytes v)) b = word_of m b.
Proof.
  intros H. unfold word_of. change (Zlength (word_bytes v)) with 4.
  rewrite !put_bytes_out by (change (Zlength (word_bytes v)) with 4; lia). done.
Qed.

(** * Pages that the kernel can access *)

(** A frame with memory that does not hold the frame table. *)
Definition frame_page (s : sos) (kv : Z) : Prop :=
  ∃ id e, kv = ID_TO_KVADDR id ∧ id ≠ 0 ∧ rd (ft (s_ft s)) id = Ret e ∧ fte_status e ≠ FRAME_STATUS_UNTYPED.

Lemma frame_page_range s kv :
  ft_inv s → frame_page s kv → kv mod PAGE_SIZE = 0 ∧ 0 < kv < 2 ^ 30 ∧ kv ≠ 0.
Proof.
  intros Hinv (id & e & -> & _ & He & _). apply rd_bounds in He. rewrite (fo_len _ Hinv), NFRAMES_eq in He.
  rewrite ID_TO_KVADDR_eq by (by rewrite NFRAMES_eq). unfold FRAME_VSTART, PAGE_SIZE. divmod.
Qed.

Lemma frame_page_accessible s kv lo n :
  ft_inv s → frame_page s kv → 0 ≤ lo → 0 ≤ n → lo + n ≤ PAGE_SIZE → accessible s (kv + lo) n = true.
Proof.
  intros Hinv (id & e & -> & H0 & He & Hs) Hlo Hn Hhi.
  eapply accessible_frame; try done. apply (fo_len _ Hinv).
Qed.

Lemma load_word_eq s kv i :
  ft_inv s → frame_page s kv → 0 ≤ i < 1024 →
  load_word (kv + 4 * i) s = Ret (word_of (s_mem s) (kv + 4 * i), s).
Proof.
  intros Hinv Hp Hi. unfold load_word.
  mstep check_access_eq by (apply frame_page_accessible; try done; unfold PAGE_SIZE; lia). done.
Qed.

Lemma store_word_eq s kv i v :
  ft_inv s → frame_page s kv → 0 ≤ i < 1024 →
  store_word (kv + 4 * i) v s =
    Ret (tt, set_s_mem (put_bytes (s_mem s) (kv + 4 * i) (word_bytes v)) s).
Proof.
  intros Hinv Hp Hi. unfold store_word. apply write_mem_eq.
  apply frame_page_accessible; try done; change (Zlength (word_bytes v)) with 4; unfold PAGE_SIZE; lia.
Qed.

(** Words of pages are the same or apart. *)
Lemma words_apart s p q i j :
  ft_inv s → frame_page s p → frame_page s q → 0 ≤ i < 1024 → 0 ≤ j < 1024 →
  (p = q ∧ i = j) ∨ p + 4 * i + 4 ≤ q + 4 * j ∨ q + 4 * j + 4 ≤ p + 4 * i.
Proof.
  intros Hinv Hp Hq Hi Hj. destruct (frame_page_range _ _ Hinv Hp) as [Hp' _].
  destruct (frame_page_range _ _ Hinv Hq) as [Hq' _]. unfold PAGE_SIZE in *.
  destruct (decide (p = q)) as [-> |]; [lia |]. right.
  pose proof (Z.div_mod p 4096). pose proof (Z.div_mod q 4096).
  destruct (decide (p / 4096 < q / 4096)); lia.
Qed.

(** * Indices *)

Definition idx1 (v : Z) : Z := v / 2 ^ 22.
Definition idx2 (v : Z) : Z := v / 2 ^ 12 mod 2 ^ 10.

Lemma PT_L1_INDEX_eq v : 0 ≤ v < 2 ^ 32 → PT_L1_INDEX v = idx1 v.
Proof.
  intros Hv. unfold PT_L1_INDEX, idx1. change INDEX_1_MASK with (Z.shiftl (Z.ones 10) 22).
  apply Z.bits_inj'. intros n Hn. rewrite Z.shiftr_spec, Z.land_spec, Z.shiftl_spec by lia.
  rewrite <- Z.shiftr_div_pow2, Z.shiftr_spec by lia.
  replace (n + 22 - 22) with n by lia. rewrite Z.testbit_ones_nonneg by lia.
  destruct (Z.ltb_spec n 10); [by rewrite andb_true_r |].
  by rewrite (testbit_above v 32) by lia.
Qed.

Lemma PT_L2_INDEX_eq v : 0 ≤ v < 2 ^ 32 → PT_L2_INDEX v = idx2 v.
Proof.
  intros Hv. unfold PT_L2_INDEX, idx2. change INDEX_2_MASK with (Z.shiftl (Z.ones 10) 12).
  apply Z.bits_inj'. intros n Hn. rewrite Z.shiftr_spec, Z.land_spec, Z.shiftl_spec by lia.
  rewrite <- Z.land_ones, Z.land_spec, <- Z.shiftr_div_pow2, Z.shiftr_spec by lia.
  by replace (n + 12 - 12) with n by lia.
Qed.

Lemma idx_range v : 0 ≤ v < 2 ^ 32 → 0 ≤ idx1 v < 1024 ∧ 0 ≤ idx2 v < 1024.
Proof. intros Hv. unfold idx1, idx2. split; divmod. Qed.

Lemma idx_inj u v :
  0 ≤ u < 2 ^ 32 → 0 ≤ v < 2 ^ 32 → idx1 u = idx1 v → idx2 u = idx2 v →
  u / PAGE_SIZE = v / PAGE_SIZE.
Proof.
  unfold idx1, idx2, PAGE_SIZE. change (2 ^ 12) with 4096. intros Hu Hv H1 H2.
  change (2 ^ 22) with (4096 * 1024) in *. change (2 ^ 10) with 1024 in *.
  rewrite <- !Z.div_div in H1 by lia.
  rewrite (Z.div_mod (u / 4096) 1024), (Z.div_mod (v / 4096) 1024) by lia. lia.
Qed.

Lemma PAGE_ALIGN_eq v : 0 ≤ v < 2 ^ 32 → PAGE_ALIGN v = PAGE_SIZE * (v / PAGE_SIZE).
Proof.
  intros Hv. unfold PAGE_ALIGN, PAGE_SIZE. change (4096 - 1) with (2 ^ 12 - 1).
  by rewrite andnot32_low by lia.
Qed.

Lemma idx_page v :
  0 ≤ v < 2 ^ 32 →
  0 ≤ PAGE_ALIGN v < 2 ^ 32 ∧ idx1 (PAGE_ALIGN v) = idx1 v ∧ idx2 (PAGE_ALIGN v) = idx2 v.
Proof.
  intros Hv. rewrite PAGE_ALIGN_eq by done. unfold idx1, idx2, PAGE_SIZE.
  split; [divmod |]. split; divmod.
Qed.

(** * Tables *)

(** The directory of page table entries, or of capabilities. *)
Definition dir (a : addrspace) (b : bool) : Z := if b then as_pd_regs a else as_pd_caps a.

Definition table_of (s : sos) (a : addrspace) (b : bool) (x : Z) : Z :=
  word_of (s_mem s) (dir a b + 4 * x).

(** The entry for address [v]; 0 when its table is missing. *)
Definition entry (s : sos) (a : addrspace) (b : bool) (v : Z) : Z :=
  let t := table_of s a b (idx1 v) in
  if t =? 0 then 0 else word_of (s_mem s) (t + 4 * idx2 v).

(** The directories and the tables are pages of their own, each used once. *)
Record tables_wf (s : sos) (a : addrspace) : Prop := {
  tw_dir : ∀ b, frame_page s (dir a b);
  tw_dirs : as_pd_regs a ≠ as_pd_caps a;
  tw_table : ∀ b x, 0 ≤ x < 1024 → table_of s a b x ≠ 0 →
    frame_page s (table_of s a b x) ∧ ∀ b', table_of s a b x ≠ dir a b';
  tw_inj : ∀ b x b' x', 0 ≤ x < 1024 → 0 ≤ x' < 1024 → table_of s a b x ≠ 0 →
    table_of s a b x = table_of s a b' x' → b = b' ∧ x = x'
}.

Section tables.
Context (s : sos) (a : addrspace) (Hinv : ft_inv s) (Hwf : tables_wf s a).

Lemma pd_get_eq b x : 0 ≤ x < 1024 → pd_get (dir a b) x s = Ret (table_of s a b x, s).
Proof. intros Hx. unfold pd_get. apply load_word_eq; [done | apply Hwf | done]. Qed.

Lemma pt_get_eq b v :
  0 ≤ v < 2 ^ 32 → table_of s a b (idx1 v) ≠ 0 →
  pt_get (dir a b) (idx1 v) (idx2 v) s = Ret (entry s a b v, s).
Proof.
  intros Hv Ht. destruct (idx_range v Hv) as [Hx Hy]. unfold pt_get.
  mstep (pd_get_eq b _ Hx). unfold entry.
  destruct (Z.eqb_spec (table_of s a b (idx1 v)) 0); [done |].
  apply load_word_eq; [done | by apply Hwf | done].
Qed.

Lemma pt_set_spec b v w :
  0 ≤ v < 2 ^ 32 → table_of s a b (idx1 v) ≠ 0 → 0 ≤ w < 2 ^ 32 →
  let s' := set_s_mem (put_bytes (s_mem s) (table_of s a b (idx1 v) + 4 * idx2 v) (word_bytes w)) s in
  pt_set (dir a b) (idx1 v) (idx2 v) w s = Ret (tt, s') ∧ tables_wf s' a ∧
  (∀ b' x, 0 ≤ x < 1024 → table_of s' a b' x = table_of s a b' x) ∧
  ∀ b' u, 0 ≤ u < 2 ^ 32 →
    entry s' a b' u = if decide (b' = b ∧ u / PAGE_SIZE = v / PAGE_SIZE) then w else entry s a b' u.
Proof.
  intros Hv Ht Hw s'. destruct (idx_range v Hv) as [Hx Hy].
  destruct (tw_table _ _ Hwf b (idx1 v) Hx Ht) as [Hp Hnd].
  assert (∀ b' x, 0 ≤ x < 1024 → table_of s' a b' x = table_of s a b' x) as Htab.
  { intros b' x Hx'. unfold table_of at 1. cbn [s_mem set_s_mem s']. apply word_put_ne.
    destruct (words_apart s _ _ (idx2 v) x Hinv Hp (tw_dir _ _ Hwf b') Hy Hx') as [[E _] | Ha]; [| done].
    exfalso. by apply (Hnd b'). }
  split_and!.
  - unfold pt_set. mstep (pd_get_eq b _ Hx).
    destruct (Z.eqb_spec (table_of s a b (idx1 v)) 0); [done |]. by apply store_word_eq.
  - destruct Hwf as [H1 H2 H3 H4]. split; [done | done | |].
    + intros b' x Hx'. rewrite Htab by done. by apply H3.
    + intros b1 x1 b2 x2 Hx1 Hx2. rewrite !Htab by done. by apply H4.
  - done.
  - intros b' u Hu. destruct (idx_range u Hu) as [Hxu Hyu].
    unfold entry at 1. rewrite Htab by done. case_decide as Hd.
    + destruct Hd as [-> Hd].
      assert (idx1 u = idx1 v ∧ idx2 u = idx2 v) as [-> ->].
      { unfold idx1, idx2, PAGE_SIZE in *. change (2 ^ 12) with 4096. rewrite Hd. split; [| done].
        change (2 ^ 22) with (4096 * 1024). rewrite <- !Z.div_div by lia. by rewrite Hd. }
      destruct (Z.eqb_spec (table_of s a b (idx1 v)) 0); [done |]. by apply word_put_eq.
    + unfold entry. destruct (Z.eqb_spec (table_of s a b' (idx1 u)) 0) as [| Hne]; [done |].
      destruct (tw_table _ _ Hwf b' (idx1 u) Hxu Hne) as [Hpu _]. apply word_put_ne.
      destruct (words_apart s _ _ (idx2 v) (idx2 u) Hinv Hp Hpu Hy Hyu) as [[E1 E2] | Ha]; [| done].
      exfalso. destruct (tw_inj _ _ Hwf b (idx1 v) b' (idx1 u) Hx Hxu Ht E1) as [-> E3].
      apply Hd. split; [done |]. by apply idx_inj.
Qed.

End tables.

(** * The getters *)

(** [asp] points to the address space [a], whose tables are sound. *)
Record as_at (s : sos) (asp : Z) (a : addrspace) : Prop := {
  aa_ptr : asp ≠ 0;
  aa_heap : s_heap s !! asp = Some (to_obj a);
  aa_wf : tables_wf s a
}.

Section getters.
Context (s : sos) (asp : Z) (a : addrspace) (Hinv : ft_inv s) (Has : as_at s asp a).

Lemma dirs_nonzero b : dir a b ≠ 0.
Proof. eapply frame_page_range; [exact Hinv |]. apply Has. Qed.

Lemma has_directories_eq : has_directories asp s = Ret (true, s).
Proof.
  destruct Has as [Hp Hh Hwf]. unfold has_directories. destruct (Z.eqb_spec asp 0); [done |].
  mstep load_eq by done. pose proof (dirs_nonzero true). pose proof (dirs_nonzero false).
  cbn [dir] in *. by destruct (Z.eqb_spec (as_pd_caps a) 0), (Z.eqb_spec (as_pd_regs a) 0).
Qed.

Lemma entry_no_table b v : table_of s a b (idx1 v) = 0 → entry s a b v = 0.
Proof. intros H. unfold entry. by rewrite H. Qed.

(** The walk that [sos_page_is_inuse] and [sos_page_is_swapped] share. *)
Lemma walk_eq v (f : Z → bool) (g : Z → M bool) :
  0 ≤ v < 2 ^ 32 → f 0 = false → (∀ pte, g pte s = Ret (f pte, s)) →
  (regs ← pd_get (as_pd_regs a) (PT_L1_INDEX (PAGE_ALIGN v));
   if regs =? 0 then mret false else
   pte ← pt_get (as_pd_regs a) (PT_L1_INDEX (PAGE_ALIGN v)) (PT_L2_INDEX (PAGE_ALIGN v));
   g pte) s = Ret (f (entry s a true v), s).
Proof.
  intros Hv Hf Hg. destruct Has as [_ _ Hwf]. destruct (idx_page v Hv) as (Hr & H1 & H2).
  rewrite PT_L1_INDEX_eq, PT_L2_INDEX_eq, H1, H2 by done. destruct (idx_range v Hv) as [Hx Hy].
  mstep (pd_get_eq s a Hinv Hwf true _ Hx).
  destruct (Z.eqb_spec (table_of s a true (idx1 v)) 0) as [E | E].
  - by rewrite entry_no_table, Hf.
  - by mstep (pt_get_eq s a Hinv Hwf true v Hv E).
Qed.

Lemma sos_page_is_inuse_eq v :
  0 ≤ v < 2 ^ 32 → sos_page_is_inuse asp v s = Ret (pte_in_use (entry s a true v), s).
Proof.
  intros Hv. pose proof Has as [Hp Hh Hwf]. unfold sos_page_is_inuse. mstep has_directories_eq.
  cbn [negb]. mstep load_eq by done. by apply (walk_eq v pte_in_use).
Qed.

Lemma sos_page_is_swapped_eq v :
  0 ≤ v < 2 ^ 32 → sos_page_is_swapped asp v s = Ret (pte_swapped (entry s a true v), s).
Proof.
  intros Hv. pose proof Has as [Hp Hh Hwf]. unfold sos_page_is_swapped. mstep has_directories_eq.
  cbn [negb]. mstep load_eq by done. by apply (walk_eq v pte_swapped).
Qed.

Lemma sos_get_kvaddr_eq v :
  0 ≤ v < 2 ^ 32 →
  sos_get_kvaddr asp v s =
    Ret (if pte_in_use (entry s a true v)
         then (0, u32 (pte_kvaddr (entry s a true v) + (v - PAGE_ALIGN v)))
         else (EINVAL, 0), s).
Proof.
  intros Hv. pose proof Has as [Hp Hh Hwf]. unfold sos_get_kvaddr.
  destruct (Z.eqb_spec asp 0); [done |]. mstep load_eq by done.
  pose proof (dirs_nonzero true). pose proof (dirs_nonzero false). cbn [dir] in *.
  destruct (Z.eqb_spec (as_pd_regs a) 0), (Z.eqb_spec (as_pd_caps a) 0); try done. cbn [orb].
  rewrite PT_L1_INDEX_eq, PT_L2_INDEX_eq by done. destruct (idx_range v Hv) as [Hx Hy].
  mstep (pd_get_eq s a Hinv Hwf true _ Hx).
  destruct (Z.eqb_spec (table_of s a true (idx1 v)) 0) as [E | E].
  - by rewrite entry_no_table.
  - mstep (pt_get_eq s a Hinv Hwf true v Hv E). by destruct (pte_in_use _).
Qed.

End getters.

(** * Mapping a page *)

Lemma tables_wf_ext s s' a :
  s_mem s' = s_mem s → (∀ kv, frame_page s kv → frame_page s' kv) →
  tables_wf s a → tables_wf s' a.
Proof.
  intros Hm Hp [H1 H2 H3 H4].
  assert (∀ b x, table_of s' a b x = table_of s a b x) as Ht.
  { intros b x. unfold table_of. by rewrite Hm. }
  split; [auto | done | |].
  - intros b x Hx. rewrite Ht. intros Hne. destruct (H3 b x Hx Hne) as [? ?]. auto.
  - intros b x b' x' Hx Hx'. rewrite !Ht. by apply H4.
Qed.

Lemma entry_ext s s' a b v : s_mem s' = s_mem s → entry s' a b v = entry s a b v.
Proof. intros Hm. unfold entry, table_of. by rewrite Hm. Qed.

(** Updating an entry of the frame table keeps the pages. *)
Lemma frame_page_upd s s' i e e' kv :
  rd (ft (s_ft s)) i = Ret e → fte_status e' ≠ FRAME_STATUS_UNTYPED →
  ft (s_ft s') = <[Z.to_nat i := e']> (ft (s_ft s)) → frame_page s kv → frame_page s' kv.
Proof.
  intros He Hs' Hft (id & e0 & -> & He0 & Hs0).
  destruct (decide (i = id)) as [<- | Hne].
  - exists i, e'. split; [done |]. rewrite Hft, (rd_upd _ _ _ _ _ He), decide_True by done. done.
  - exists id, e0. split; [done |]. rewrite Hft, (rd_upd _ _ _ _ _ He), decide_False by done. done.
Qed.

Lemma frame_get_cap_eq s kv e :
  ft_inv s → frame_check (s_ft s) kv = Some e → frame_get_cap kv s = Ret ((0, fte_cap e), s).
Proof.
  intros Hinv He. unfold frame_get_cap. mstep (check_frame_eq kv s Hinv). rewrite He. cbn [negb Z.eqb].
  apply frame_check_Some in He as (_ & He & _). by mstep (get_frame_eq _ _ _ He).
Qed.

Lemma frame_set_referenced_eq s kv e :
  ft_inv s → frame_check (s_ft s) kv = Some e →
  frame_set_referenced kv s =
    Ret (0, set_s_ft (set_ft (<[Z.to_nat (KVADDR_TO_ID kv) := set_fte_referenced true e]>
                                (ft (s_ft s))) (s_ft s)) s).
Proof.
  intros Hinv He. apply frame_check_Some in He as (Hb & He & _).
  unfold frame_set_referenced, bad_id. rewrite M_bind_assoc. mpure.
  replace ((_ <? _) || _) with false by lia. by mstep upd_frame_eq by (exact He).
Qed.

(** seL4 grants the mapping at once. *)
Lemma map_sel4_page_eq s asp a cap vpage rights attr :
  asp ≠ 0 → s_heap s !! asp = Some (to_obj a) → e_sel4 (s_env s) (s_tick s) = 0 →
  map_sel4_page asp cap vpage rights attr s =
    Ret (0, set_s_log (s_log s ++ [EvInvoke (Page_Map cap (as_sel4_pd a) vpage rights attr) 0])
              (set_s_tick (S (s_tick s)) s)).
Proof.
  intros Hp Hh Hok. unfold map_sel4_page. mstep load_eq by done.
  mstep (invoke_eq _ _). by rewrite Hok.
Qed.

(** Both tables for an address exist. *)
Definition tables_for (s : sos) (a : addrspace) (v : Z) : Prop :=
  ∀ b, table_of s a b (idx1 v) ≠ 0.

(** Writing the two entries of a page. *)
Lemma set_entries s a v pte cap :
  ft_inv s → tables_wf s a → tables_for s a v → 0 ≤ v < 2 ^ 32 →
  0 ≤ pte < 2 ^ 32 → 0 ≤ cap < 2 ^ 32 →
  ∃ m', (_ ← pt_set (as_pd_regs a) (idx1 v) (idx2 v) pte;
         pt_set (as_pd_caps a) (idx1 v) (idx2 v) cap) s = Ret (tt, set_s_mem m' s) ∧
    tables_wf (set_s_mem m' s) a ∧
    ∀ b u, 0 ≤ u < 2 ^ 32 →
      entry (set_s_mem m' s) a b u =
        if decide (u / PAGE_SIZE = v / PAGE_SIZE) then (if b then pte else cap) else entry s a b u.
Proof.
  intros Hinv Hwf Htab Hv Hpte Hcap.
  destruct (pt_set_spec s a Hinv Hwf true v pte Hv (Htab true) Hpte) as (E1 & Hwf1 & Ht1 & He1).
  set (s1 := set_s_mem _ s) in *. destruct (idx_range v Hv) as [Hx _].
  assert (ft_inv s1) as Hinv1 by done.
  assert (table_of s1 a false (idx1 v) ≠ 0) as Htab1 by (rewrite Ht1 by done; apply Htab).
  destruct (pt_set_spec s1 a Hinv1 Hwf1 false v cap Hv Htab1 Hcap) as (E2 & Hwf2 & Ht2 & He2).
  eexists. split; [| split].
  - change (as_pd_regs a) with (dir a true). mstep E1. exact E2.
  - exact Hwf2.
  - intros b u Hu. etransitivity; [apply (He2 b u Hu) |]. rewrite (He1 b u Hu).
    destruct b; repeat case_decide; naive_solver.
Qed.

(** [C16] [_sos_page_map_5], told a frame and with seL4 granting the mapping, makes
    the page's entry name the frame, in use and not swapped, with the capability
    it was given; the entries of all other pages stay as they were.  It then
    reports success. *)
Theorem page_map_5_maps (rec : interp) (token kv cap : Z) (cont : page_map_cont)
    (a : addrspace) (e : frame_entry) (s : sos) :
  ft_inv s → token ≠ 0 → s_heap s !! token = Some (to_obj cont) → as_at s (pm_as cont) a →
  0 ≤ pm_vpage cont < 2 ^ 32 → tables_for s a (pm_vpage cont) →
  frame_check (s_ft s) kv = Some e → frame_page s kv →
  e_sel4 (s_env s) (s_tick s) = cap → 0 < cap < 2 ^ 32 → e_sel4 (s_env s) (S (s_tick s)) = 0 →
  ∃ s', sos_page_map_5 rec token kv s = pm_finish rec token 0 s' ∧ as_at s' (pm_as cont) a ∧
    ∀ b u, 0 ≤ u < 2 ^ 32 →
      entry s' a b u = if decide (u / PAGE_SIZE = pm_vpage cont / PAGE_SIZE)
                       then (if b then new_pte kv else cap) else entry s a b u.
Proof.
  intros Hinv Ht Hc Has Hv Htab He Hkv Hcap Hcapr Hok. pose proof Has as [Hp Hh Hwf].
  destruct (frame_page_range s kv Hinv Hkv) as (_ & Hkvr & Hkv0).
  unfold sos_page_map_5. mstep load_eq by done. destruct (Z.eqb_spec kv 0); [done |].
  mstep (frame_get_cap_eq _ _ _ Hinv He). mstep assertM_eq by done.
  mstep (invoke_eq _ _). rewrite Hcap. destruct (Z.eqb_spec cap 0); [lia |].
  set (s1 := set_s_log _ (set_s_tick _ s)).
  mstep (map_sel4_page_eq s1 (pm_as cont) a cap (pm_vpage cont) _ _ Hp Hh Hok). cbn [negb Z.eqb].
  set (s2 := set_s_log _ (set_s_tick _ s1)).
  mstep (frame_set_referenced_eq s2 kv e Hinv He).
  set (s3 := set_s_ft _ s2).
  assert (ft_inv s3) as Hinv3.
  { apply frame_check_Some in He as (_ & He & _).
    by apply (ft_ok_upd_same (s_ft s) _ e (set_fte_referenced true e)). }
  assert (tables_wf s3 a) as Hwf3.
  { apply (tables_wf_ext s); [done | | done]. intros q.
    apply frame_check_Some in He as (_ & He & Hst).
    apply (frame_page_upd s s3 (KVADDR_TO_ID kv) e (set_fte_referenced true e) q He); [| done].
    cbn. by rewrite Hst. }
  mstep (load_eq (pm_as cont) a s3 Hp Hh).
  rewrite PT_L1_INDEX_eq, PT_L2_INDEX_eq by done.
  assert (0 ≤ new_pte kv < 2 ^ 32) as Hpte.
  { apply andnot32_range; [apply lor_range |]; unfold PTE_IN_USE_BIT, PTE_SWAPPED; lia. }
  destruct (set_entries s3 a (pm_vpage cont) (new_pte kv) cap Hinv3 Hwf3 Htab Hv Hpte ltac:(lia))
    as (m' & E & Hwf' & Hent).
  exists (set_s_mem m' s3). split; [| split].
  - rewrite <- M_bind_assoc. by mstep E.
  - by split.
  - intros b u Hu. rewrite (Hent b u Hu). by rewrite (entry_ext s s3).
Qed.

(** * Swapping a page out, at the end *)

Section frame_getters.
Context (s : sos) (kv : Z) (e : frame_entry) (Hinv : ft_inv s) (He : frame_check (s_ft s) kv = Some e).

Lemma frame_get_as_eq : frame_get_as kv s = Ret (fte_as e, s).
Proof.
  unfold frame_get_as. mstep (check_allocated_eq kv s Hinv). rewrite He. cbn [negb Z.eqb].
  apply frame_check_Some in He as (_ & He' & _). by mstep (get_frame_eq _ _ _ He').
Qed.

Lemma frame_get_vaddr_eq : frame_get_vaddr kv s = Ret (fte_vaddr e, s).
Proof.
  unfold frame_get_vaddr. mstep (check_allocated_eq kv s Hinv). rewrite He. cbn [negb Z.eqb].
  apply frame_check_Some in He as (_ & He' & _). by mstep (get_frame_eq _ _ _ He').
Qed.

Lemma frame_unlock_frame_eq :
  fte_locked e = true →
  frame_unlock_frame kv s =
    Ret (0, set_s_ft (set_ft (<[Z.to_nat (KVADDR_TO_ID kv) := set_fte_locked false e]>
                                (ft (s_ft s))) (s_ft s)) s).
Proof.
  intros Hl. unfold frame_unlock_frame. mstep (check_frame_eq kv s Hinv). rewrite He. cbn [negb Z.eqb].
  apply frame_check_Some in He as (_ & He' & _). mstep (get_frame_eq _ _ _ He'). rewrite Hl. cbn [negb].
  by mstep upd_frame_eq by (exact He').
Qed.

(** The frame table with the frame unlocked, and what it says of the frame. *)
Lemma frame_check_unlocked :
  frame_check (set_ft (<[Z.to_nat (KVADDR_TO_ID kv) := set_fte_locked false e]> (ft (s_ft s))) (s_ft s)) kv
    = Some (set_fte_locked false e).
Proof.
  pose proof He as Hc. apply frame_check_Some in He as (Hb & He' & Hs).
  unfold frame_check in *. cbn [ft set_ft frametable_reserved]. rewrite (rd_upd _ _ _ _ _ He'), decide_True by done.
  cbn. destruct (_ || _); [done |]. by rewrite Hs.
Qed.

End frame_getters.

(** What is left of [_swap_out_end] once the page is in the file. *)
Definition swapped_out (rec : interp) (cont : swap_out_cont) (token : Z) : M unit :=
  _ ← call_ rec (CallErr (out_callback cont) (out_token cont) 0);
  free token.

(** [C17] [_swap_out_end], reached without an error, makes the page's entry name
    the slot that holds its contents and gives the frame back: it is the head of
    the free chain and no longer allocated; the entries of all other pages stay as
    they were. *)
Theorem swap_out_end_swaps (rec : interp) (token v : Z) (cont : swap_out_cont) (a : addrspace)
    (e : frame_entry) (s : sos) :
  ft_inv s → token ≠ 0 → s_heap s !! token = Some (to_obj cont) →
  frame_check (s_ft s) (out_kvaddr cont) = Some e → fte_locked e = true →
  as_at s (fte_as e) a → fte_vaddr e = v → 0 ≤ v < 2 ^ 32 → PAGE_ALIGN v ≠ 0 →
  table_of s a true (idx1 v) ≠ 0 → 0 ≤ out_free_slot cont < NUM_SLOTS →
  ∃ s', swap_out_end rec token 0 s = swapped_out rec cont token s' ∧ ft_inv s' ∧
    first_free (s_ft s') = KVADDR_TO_ID (out_kvaddr cont) ∧
    ¬ allocated (ft (s_ft s')) (KVADDR_TO_ID (out_kvaddr cont)) ∧
    ∀ u, 0 ≤ u < 2 ^ 32 →
      entry s' a true u = if decide (u / PAGE_SIZE = v / PAGE_SIZE)
                          then swapped_pte (out_free_slot cont) else entry s a true u.
Proof.
  intros Hinv Ht Hc He Hl Has Hva Hv Hv0 Htab Hslot. pose proof Has as [Hp Hh Hwf].
  unfold swap_out_end. mstep load_eq by done. cbn [negb Z.eqb].
  mstep (frame_get_as_eq s _ e Hinv He). mstep assertM_eq by (by apply negb_true_iff, Z.eqb_neq).
  mstep (frame_get_vaddr_eq s _ e Hinv He). rewrite Hva.
  mstep assertM_eq by (by apply negb_true_iff, Z.eqb_neq). mstep (load_eq (fte_as e) a s Hp Hh).
  destruct (idx_page v Hv) as (Hvr & H1 & H2).
  rewrite PT_L1_INDEX_eq, PT_L2_INDEX_eq, H1, H2 by done.
  assert (0 ≤ swapped_pte (out_free_slot cont) < 2 ^ 32) as Hpte.
  { change NUM_SLOTS with (2 ^ 15) in Hslot. unfold swapped_pte, PTE_IN_USE_BIT, PTE_SWAPPED.
    apply lor_range; [lia | | lia]. apply lor_range; [lia | apply u32_range | lia]. }
  destruct (pt_set_spec s a Hinv Hwf true v _ Hv Htab Hpte) as (E1 & Hwf1 & _ & He1).
  mstep E1. set (s1 := set_s_mem _ s) in *.
  mstep (frame_unlock_frame_eq s1 _ e Hinv He Hl).
  set (s2 := set_s_ft _ s1).
  assert (ft_inv s2) as Hinv2.
  { apply frame_check_Some in He as (_ & He & _). by apply (ft_ok_upd_same (s_ft s) _ e (set_fte_locked false e)). }
  assert (frame_check (s_ft s2) (out_kvaddr cont) = Some (set_fte_locked false e)) as Hc2.
  { by apply (frame_check_unlocked s1). }
  mstep (frame_get_cap_eq s2 _ _ Hinv2 Hc2). mstep (invoke_eq _ _).
  set (s3 := set_s_log _ (set_s_tick _ s2)).
  assert (frame_free (out_kvaddr cont) s3 =
    Ret (0, set_s_ft (free_in (s_ft s3) (KVADDR_TO_ID (out_kvaddr cont)) (set_fte_locked false e)) s3)) as Ef.
  { rewrite (frame_free_eq (out_kvaddr cont) s3 Hinv2). change (s_ft s3) with (s_ft s2). by rewrite Hc2. }
  mstep Ef. eexists. split; [done |]. split_and!.
  - by apply (keeps_frame_free _ s3 0 _ Hinv2 Ef).
  - done.
  - apply frame_check_Some in Hc2 as (_ & Hc2 & _). intros Hal.
    apply (allocated_upd (ft (s_ft s2)) _ _ _ _ Hc2) in Hal. by rewrite decide_True in Hal.
  - intros u Hu. rewrite (entry_ext s1) by done. rewrite (He1 true u Hu).
    repeat case_decide; naive_solver.
Qed.
