(* ===== verification/World.v ===== *)
(** A small example of SOS with one address space: the directories are frames 1
    and 2, the tables of the first four megabytes frames 3 and 4, and the page at
    0x10000 is in frame 5. *)

From S2P Require Import Prelude UtAllocator Sos Hoare Mapping SwapSlots FrameTable FrameInv.
From S2P Require Import FrameAlloc ProcTable AddrSpace PageTable Swap SwapInv SwapProto.
From S2P Require Import PageWalk.

(** seL4 gives capability 7 at tick 100 and 0 otherwise. *)
Definition env_world : env :=
  mk_env (λ _, true) (λ n, if (n =? 100)%nat then 7 else 0) (λ _, rpc_sent) (λ _, 1) (λ _, true) (λ _, 0) 0.

(** Take the next free frame. *)
Definition take_next (cont : frame_alloc_cont) (s : sos) : sos :=
  match take_frame cont s with
  | Ret (_, s') => s'
  | Fault _ => s
  end.

Definition fa_kernel : frame_alloc_cont := mk_fa cb_sos_page_map_3 0 0 0 PROC_NULL true.
Definition fa_user : frame_alloc_cont := mk_fa cb_sos_page_map_5 0 HEAP_START 0x10000 0 false.

Definition world_frames : sos :=
  let s := match frame_init (sos_start env_world ut_example) with
           | Ret (_, s) => s
           | Fault _ => sos_start env_world ut_example
           end in
  take_next fa_user (take_next fa_kernel (take_next fa_kernel (take_next fa_kernel
    (take_next fa_kernel s)))).

(** The address space, and the frames of the tables. *)
Definition world_as : addrspace :=
  mk_as (ID_TO_KVADDR 2) (ID_TO_KVADDR 1) [mk_region 0x10000 0x20000 3] None None 0 [].

Definition world_mem : Z → Z :=
  put_bytes
    (put_bytes
       (put_bytes (λ _, 0) (ID_TO_KVADDR 1) (word_bytes (ID_TO_KVADDR 3)))
       (ID_TO_KVADDR 2) (word_bytes (ID_TO_KVADDR 4)))
    (ID_TO_KVADDR 3 + 4 * 16) (word_bytes (new_pte (ID_TO_KVADDR 5))).

(** A heap with the address space and one more object. *)
Definition world_token : Z := HEAP_START + 16.

Definition world_over (s : sos) (o : obj) : sos :=
  set_s_tick 100 (set_s_starting true (set_s_swap (mk_swapst (replicate 1024 0) (Some 1))
    (set_s_mem world_mem
       (set_s_heap (<[ world_token := o ]> {[ HEAP_START := to_obj world_as ]}) s)))).

Lemma take_next_inv cont s : ft_inv s → ft_inv (take_next cont s).
Proof.
  intros H. unfold take_next. destruct (take_frame cont s) as [[kv s'] |] eqn:E; [| done].
  by eapply keeps_take_frame.
Qed.

Lemma world_frames_inv : ft_inv world_frames.
Proof.
  unfold world_frames. do 5 apply take_next_inv.
  assert (match frame_init (sos_start env_world ut_example) with
          | Ret (r, _) => r =? 0 | Fault _ => false end = true) as H by (vm_compute; done).
  destruct (frame_init (sos_start env_world ut_example)) as [[r s] |] eqn:E; [| done].
  apply Z.eqb_eq in H as ->. apply frame_init_ft_inv in E; [exact E |].
  cbn [victim s_ft sos_start]. rewrite NFRAMES_eq. lia.
Qed.

(** The same with the page of the user locked. *)
Definition world_locked : sos :=
  match frame_lock_frame (ID_TO_KVADDR 5) world_frames with
  | Ret (_, s) => s
  | Fault _ => world_frames
  end.

Lemma world_locked_inv : ft_inv world_locked.
Proof.
  unfold world_locked.
  assert (keeps ft_inv (frame_lock_frame (ID_TO_KVADDR 5))) as Hk.
  { unfold frame_lock_frame, check_frame, check_allocated, bad_id, get_frame.
    repeat first [keeps_step | apply keeps_upd_frame; done]. }
  destruct (frame_lock_frame (ID_TO_KVADDR 5) world_frames) as [[r s] |] eqn:E;
    [| apply world_frames_inv]. by eapply Hk; [apply world_frames_inv |].
Qed.

(** Frames 1 to 5 are allocated. *)
Definition frames_ok (s : sos) : Prop :=
  ft_inv s ∧
  ∀ id, 1 ≤ id ≤ 5 → ∃ e, rd (ft (s_ft s)) id = Ret e ∧ fte_status e = FRAME_STATUS_ALLOCATED.

Definition frames_ok_b (s : sos) : bool :=
  forallb (λ id, match rd (ft (s_ft s)) id with
                 | Ret e => fte_status e =? FRAME_STATUS_ALLOCATED
                 | Fault _ => false end) [1; 2; 3; 4; 5].

Lemma frames_ok_of s : ft_inv s → frames_ok_b s = true → frames_ok s.
Proof.
  intros Hinv Hb. split; [done |]. intros id Hid. unfold frames_ok_b in Hb.
  rewrite forallb_forall in Hb. specialize (Hb id).
  destruct (rd (ft (s_ft s)) id) as [e |].
  - exists e. split; [done |]. apply Z.eqb_eq, Hb. simpl. lia.
  - discriminate Hb. simpl. lia.
Qed.

Lemma world_frames_ok : frames_ok world_frames.
Proof. apply frames_ok_of; [apply world_frames_inv | vm_compute; reflexivity]. Qed.

Lemma world_locked_ok : frames_ok world_locked.
Proof. apply frames_ok_of; [apply world_locked_inv | vm_compute; reflexivity]. Qed.

Lemma world_over_ft s o : s_ft (world_over s o) = s_ft s.
Proof. done. Qed.

Section world.
Context (s : sos) (Hs : frames_ok s) (o : obj).

Notation world := (world_over s o).

Lemma world_inv : ft_inv world.
Proof. apply Hs. Qed.

Lemma world_page id : 1 ≤ id ≤ 5 → frame_page world (ID_TO_KVADDR id).
Proof.
  intros Hid. destruct Hs as [_ He]. destruct (He id Hid) as (e & He' & Hst).
  exists id, e. split; [done |]. split; [lia |]. split; [done |]. by rewrite Hst.
Qed.

(** * Its page tables *)

(** The memory of the world, by words of pages 1 to 5. *)
Lemma world_word id i :
  1 ≤ id ≤ 5 → 0 ≤ i < 1024 →
  word_of world_mem (ID_TO_KVADDR id + 4 * i) =
    if (id =? 1) && (i =? 0) then ID_TO_KVADDR 3
    else if (id =? 2) && (i =? 0) then ID_TO_KVADDR 4
    else if (id =? 3) && (i =? 16) then new_pte (ID_TO_KVADDR 5)
    else 0.
Proof.
  intros Hid Hi. rewrite ID_TO_KVADDR_eq by (rewrite NFRAMES_eq; lia). unfold world_mem.
  change (ID_TO_KVADDR 1) with (FRAME_VSTART + 4096). change (ID_TO_KVADDR 2) with (FRAME_VSTART + 8192).
  change (ID_TO_KVADDR 3 + 4 * 16) with (FRAME_VSTART + 12352). unfold PAGE_SIZE.
  assert (∀ m j b w k, 0 ≤ w < 2 ^ 32 → 1 ≤ j → 0 ≤ k < 1024 → b = FRAME_VSTART + j * 4096 + 4 * k →
    word_of (put_bytes m b (word_bytes w)) (FRAME_VSTART + id * 4096 + 4 * i) =
      if (id =? j) && (i =? k) then w else word_of m (FRAME_VSTART + id * 4096 + 4 * i)) as Hput.
  { intros m j b w k Hw Hj Hk ->. destruct (Z.eqb_spec id j) as [-> | Hn], (Z.eqb_spec i k) as [-> | Hn'];
      cbn [andb]; [by apply word_put_eq | apply word_put_ne; lia ..]. }
  assert (0 ≤ new_pte (ID_TO_KVADDR 5) < 2 ^ 32) by done.
  rewrite (Hput _ 3 _ _ 16) by (done || lia). destruct (Z.eqb_spec id 3) as [-> | H3].
  - cbn [Z.eqb Pos.eqb andb]. destruct (i =? 16); [done |].
    rewrite (Hput _ 2 _ _ 0), (Hput _ 1 _ _ 0) by (done || lia). done.
  - cbn [andb]. rewrite (Hput _ 2 _ _ 0), (Hput _ 1 _ _ 0) by (done || lia).
    destruct (Z.eqb_spec id 1), (Z.eqb_spec id 2), (Z.eqb_spec i 0); try lia; done.
Qed.

Lemma world_table b x :
  0 ≤ x < 1024 → table_of world world_as b x =
    if x =? 0 then (if b then ID_TO_KVADDR 3 else ID_TO_KVADDR 4) else 0.
Proof.
  intros Hx. unfold table_of. change (s_mem world) with world_mem.
  destruct b; cbn [dir as_pd_regs as_pd_caps world_as]; rewrite world_word by lia;
    by destruct (Z.eqb_spec x 0) as [-> |].
Qed.

Lemma world_wf : tables_wf world world_as.
Proof.
  assert (∀ b x, 0 ≤ x < 1024 → table_of world world_as b x ≠ 0 → x = 0) as Hx0.
  { intros b x Hx. rewrite world_table by done. by destruct (Z.eqb_spec x 0). }
  split.
  - intros b. destruct b; apply world_page; lia.
  - done.
  - intros b x Hx Hne. apply Hx0 in Hne as ->; [| done]. rewrite world_table by done.
    split; [destruct b; apply world_page; lia |]. by destruct b; intros [].
  - intros b x b' x' Hx Hx' Hne Heq. pose proof Hne as Hne'. rewrite Heq in Hne'.
    apply Hx0 in Hne as ->; [| done]. apply Hx0 in Hne' as ->; [| done].
    rewrite !world_table in Heq by done. by destruct b, b'.
Qed.

Lemma world_as_at : as_at world HEAP_START world_as.
Proof.
  split; [done | | apply world_wf].
  change (s_heap world) with (<[world_token := o]> ({[HEAP_START := to_obj world_as]} : gmap Z obj)).
  rewrite lookup_insert_ne by done. apply lookup_singleton_eq.
Qed.

Lemma world_obj : s_heap world !! world_token = Some o.
Proof.
  change (s_heap world) with (<[world_token := o]> ({[HEAP_START := to_obj world_as]} : gmap Z obj)).
  apply lookup_insert_eq.
Qed.

End world.

(** * Examples of exchanges with the swap file *)

(** What the frame table says of the user's page. *)
Lemma world_locked_frame o :
  ∃ e, frame_check (s_ft (world_over world_locked o)) (ID_TO_KVADDR 5) = Some e ∧
    fte_locked e = true ∧ fte_as e = HEAP_START ∧ fte_vaddr e = 0x10000.
Proof.
  rewrite world_over_ft.
  assert (match frame_check (s_ft world_locked) (ID_TO_KVADDR 5) with
          | Some e => fte_locked e && (fte_as e =? HEAP_START) && (fte_vaddr e =? 0x10000)
          | None => false end = true) as H by (vm_compute; reflexivity).
  destruct (frame_check (s_ft world_locked) (ID_TO_KVADDR 5)) as [e |]; [| discriminate H].
  exists e. rewrite !andb_true_iff, !Z.eqb_eq in H. by destruct H as [[? ?] ?].
Qed.

Definition out_example : swap_out_cont := mk_out cb_frame_alloc_end 0 (ID_TO_KVADDR 5) 3 1024 PROC_NULL.

(** The file has the first kilobyte of the page. *)
Definition file_example : Z → Z := put_bytes (λ _, 255) (3 * PAGE_SIZE) (replicate 1024 0).

Lemma file_example_eq i : 0 ≤ i < 1024 → file_example (3 * PAGE_SIZE + i) = 0.
Proof.
  intros Hi. unfold file_example. replace i with (Z.of_nat (Z.to_nat i)) by lia.
  apply put_bytes_in. apply lookup_replicate. lia.
Qed.

Lemma world_mem_page i : 0 ≤ i < PAGE_SIZE → world_mem (ID_TO_KVADDR 5 + i) = 0.
Proof.
  intros Hi. unfold world_mem, PAGE_SIZE in *. change (ID_TO_KVADDR 5) with (FRAME_VSTART + 20480).
  change (ID_TO_KVADDR 1) with (FRAME_VSTART + 4096).
  change (ID_TO_KVADDR 2) with (FRAME_VSTART + 8192).
  change (ID_TO_KVADDR 3 + 4 * 16) with (FRAME_VSTART + 12352).
  assert (∀ m b w, b + 4 ≤ FRAME_VSTART + 20480 →
    put_bytes m b (word_bytes w) (FRAME_VSTART + 20480 + i) = m (FRAME_VSTART + 20480 + i)) as Hput.
  { intros m b w Hb. apply put_bytes_out. right. change (Zlength (word_bytes w)) with 4. lia. }
  by rewrite !Hput by lia.
Qed.

Lemma world_going_out :
  going_out file_example world_token out_example (world_over world_locked (to_obj out_example)).
Proof.
  destruct (world_locked_frame (to_obj out_example)) as (e & He & _).
  split.
  - apply world_inv, world_locked_ok.
  - discriminate.
  - apply world_obj.
  - vm_compute. reflexivity.
  - exists e. split; [exact He | by left].
  - exists 0. reflexivity.
  - by exists 1.
  - by split.
  - intros i Hi. cbn [out_written out_free_slot out_kvaddr out_example] in *.
    rewrite file_example_eq by exact Hi. symmetry. apply world_mem_page. unfold PAGE_SIZE. lia.
Qed.

Lemma swap_out_round_witness :
  ∃ s1, going_out (server_write file_example
      (write_request (world_over world_locked (to_obj out_example)) world_token out_example) 512)
      world_token (set_out_written 1536 out_example) s1 ∧
    swap_out_4_nfs_write_cb (λ _, mret 0) world_token 0 true 512
      (world_over world_locked (to_obj out_example)) =
    (ok ← send_rpc (write_request s1 world_token (set_out_written 1536 out_example));
     if negb ok then swap_out_end (λ _, mret 0) world_token EFAULT else mret tt) s1.
Proof.
  destruct (swap_out_round (λ _, mret 0) file_example world_token out_example 512
    (world_over world_locked (to_obj out_example)) world_going_out) as (s1 & H1 & _ & H2).
  - reflexivity.
  - split; discriminate.
  - exists s1. split; [exact H1 | exact H2].
Defined.

Definition in_example : swap_in_cont :=
  mk_in cb_sos_VMFaultHandler_reply 0 (ID_TO_KVADDR 5) 0x10000 3 HEAP_START 3 false 1024 PROC_NULL.

Lemma world_coming_in :
  coming_in file_example world_token in_example (world_over world_locked (to_obj in_example)).
Proof.
  destruct (world_locked_frame (to_obj in_example)) as (e & He & _).
  split.
  - apply world_inv, world_locked_ok.
  - discriminate.
  - apply world_obj.
  - vm_compute. reflexivity.
  - exists e. split; [exact He | by left].
  - exists 0. reflexivity.
  - by exists 1.
  - by split.
  - intros i Hi. cbn [in_bytes_read in_swap_slot in_kvaddr in_example] in *.
    rewrite file_example_eq by exact Hi. apply world_mem_page. unfold PAGE_SIZE. lia.
Qed.

Lemma swap_in_round_witness :
  ∃ s1, coming_in file_example world_token (set_in_bytes_read 2048 in_example) s1 ∧
    swap_in_nfs_read_handler (λ _, mret 0) world_token 0 1024
      (server_read file_example
         (read_request (world_over world_locked (to_obj in_example)) world_token in_example) 1024)
      (world_over world_locked (to_obj in_example)) =
    (ok ← send_rpc (read_request s1 world_token (set_in_bytes_read 2048 in_example));
     if negb ok then swap_in_end (λ _, mret 0) world_token EFAULT else mret tt) s1.
Proof.
  destruct (swap_in_round (λ _, mret 0) file_example world_token in_example 1024
    (world_over world_locked (to_obj in_example)) world_coming_in) as (s1 & H1 & _ & H2).
  - reflexivity.
  - split; discriminate.
  - exists s1. split; [exact H1 | exact H2].
Defined.

(** * Examples of page table updates *)

Definition pm_example : page_map_cont :=
  mk_pm cb_sos_VMFaultHandler_reply 0 0 HEAP_START 0x20000 3 false.

Lemma world_tables_for s o v : 0 ≤ v < 2 ^ 22 → tables_for (world_over s o) world_as v.
Proof.
  intros Hv b. rewrite world_table.
  - unfold idx1. rewrite Z.div_small by done. destruct b; discriminate.
  - unfold idx1. rewrite Z.div_small by done. lia.
Qed.

Lemma world_env s o : s_env (world_over s o) = s_env s.
Proof. done. Qed.

Lemma world_tick s o : s_tick (world_over s o) = 100%nat.
Proof. done. Qed.

Lemma world_locked_env : e_sel4 (s_env world_locked) 100 = 7 ∧ e_sel4 (s_env world_locked) 101 = 0.
Proof. vm_compute. split; reflexivity. Qed.

Lemma page_map_5_maps_witness :
  ∃ s', sos_page_map_5 (λ _, mret 0) world_token (ID_TO_KVADDR 5)
          (world_over world_locked (to_obj pm_example)) =
        pm_finish (λ _, mret 0) world_token 0 s' ∧
    entry s' world_as true 0x20123 = new_pte (ID_TO_KVADDR 5).
Proof.
  destruct (world_locked_frame (to_obj pm_example)) as (e & He & _).
  destruct world_locked_env as [H7 H0].
  destruct (page_map_5_maps (λ _, mret 0) world_token (ID_TO_KVADDR 5) 7 pm_example world_as e
    (world_over world_locked (to_obj pm_example))) as (s' & E & _ & Hent).
  - apply world_inv, world_locked_ok.
  - discriminate.
  - apply world_obj.
  - apply world_as_at, world_locked_ok.
  - split; [discriminate | reflexivity].
  - apply world_tables_for. split; [discriminate | reflexivity].
  - exact He.
  - apply world_page; [exact world_locked_ok |]. split; discriminate.
  - rewrite world_env, world_tick. exact H7.
  - split; reflexivity.
  - rewrite world_env, world_tick. exact H0.
  - exists s'. split; [exact E |]. rewrite Hent; [reflexivity |]. split; [discriminate | reflexivity].
Defined.

Lemma swap_out_end_swaps_witness :
  ∃ s', swap_out_end (λ _, mret 0) world_token 0 (world_over world_locked (to_obj out_example)) =
        swapped_out (λ _, mret 0) out_example world_token s' ∧
    entry s' world_as true 0x10123 = swapped_pte 3 ∧ first_free (s_ft s') = 5.
Proof.
  destruct (world_locked_frame (to_obj out_example)) as (e & He & Hl & Ha & Hva).
  destruct (swap_out_end_swaps (λ _, mret 0) world_token 0x10000 out_example world_as e
    (world_over world_locked (to_obj out_example))) as (s' & E & _ & Hf & _ & Hent).
  - apply world_inv, world_locked_ok.
  - discriminate.
  - apply world_obj.
  - exact He.
  - exact Hl.
  - rewrite Ha. apply world_as_at, world_locked_ok.
  - exact Hva.
  - split; [discriminate | reflexivity].
  - vm_compute. discriminate.
  - apply world_tables_for. split; [discriminate | reflexivity].
  - split; [discriminate | reflexivity].
  - exists s'. split; [exact E |]. split.
    + rewrite Hent; [reflexivity |]. split; [discriminate | reflexivity].
    + rewrite Hf. vm_compute. reflexivity.
Defined.
