(* ===== verification/CopyInOut.v ===== *)
(** Copying between user and kernel memory (vm/copyinout.c).

    The user side is reached through the page tables of SOS: each page is
    mapped or swapped in when needed, then copied through the kernel address of
    its frame, at most one page at a time. *)

From S2P Require Import Prelude UtAllocator Sos Mapping SwapSlots FrameTable ProcTable.
From S2P Require Import AddrSpace PageTable Swap.

(** The rights of the region of a continuation; [copyout] may have stored NULL. *)
Definition cp_rights (cont : copy_cont) : M Z :=
  r ← lift (deref (cp_reg cont));
  mret (r_rights r).

(** [_copyin_end] and [_copyout_end]. *)
Definition copy_end (rec : interp) (token err : Z) : M unit :=
  cont ← load token;
  _ ← call_ rec (CallErr (cp_callback cont) (cp_token cont) err);
  free token.

(** The first part of [_copyin_do_copy] and [_copyout_do_copy], which only
    differ in the callback [self]: [true] when the page is in memory, [false]
    when it is on its way, or could not be brought in. *)
Definition ensure_page (rec : interp) (self : err_cb) (token : Z) : M bool :=
  cont ← load token;
  let vpage := PAGE_ALIGN (cp_buf cont) in
  inuse ← sos_page_is_inuse (cp_as cont) vpage;
  if negb inuse then
    pid ← proc_get_id;
    rights ← cp_rights cont;
    err ← sos_page_map rec pid (cp_as cont) vpage rights self token false;
    if negb (err =? 0) then
      _ ← copy_end rec token err;
      mret false
    else
      p ← cur_proc;
      _ ← inc_proc_size_proc p;
      mret false
  else
  swapped ← sos_page_is_swapped (cp_as cont) vpage;
  if (swapped : bool) then
    rights ← cp_rights cont;
    err ← swap_in rec (cp_as cont) rights vpage false self token;
    if negb (err =? 0) then
      _ ← copy_end rec token err;
      mret false
    else mret false
  else mret true.

(** How much one step copies. *)
Definition cpy_sz (kaddr nbyte pos : Z) : Z :=
  Z.min (PAGE_SIZE - PAGE_OFFSET kaddr) (u32 (nbyte - pos)).

(** The continuation after a step of [n] bytes. *)
Definition copy_advance (n : Z) (cont : copy_cont) : copy_cont :=
  set_cp_kbuf (u32 (cp_kbuf cont + n))
    (set_cp_buf (u32 (cp_buf cont + n)) (set_cp_pos (u32 (cp_pos cont + n)) cont)).

Definition copyin_do_copy (rec : interp) (token err : Z) : M unit :=
  if negb (err =? 0) then copy_end rec token err else
  ready ← ensure_page rec cb_copyin_do_copy token;
  if negb ready then mret tt else
  cont ← load token;
  if cp_pos cont <? cp_nbyte cont then
    '(err, ksrc) ← sos_get_kvaddr (cp_as cont) (cp_buf cont);
    if negb (err =? 0) then copy_end rec token err else
    let n := cpy_sz ksrc (cp_nbyte cont) (cp_pos cont) in
    _ ← memcpy (cp_kbuf cont) ksrc n;
    _ ← store token (copy_advance n cont);
    call_ rec (CallErr cb_copyin_do_copy token 0)
  else copy_end rec token 0.

Definition copyin (rec : interp) (kbuf buf nbyte : Z) (callback : err_cb) (token : Z) : M Z :=
  asp ← proc_getas;
  '(valid, _) ← as_is_valid_memory asp buf nbyte;
  if negb valid then mret EINVAL else
  reg ← region_probe asp buf;
  cont ← malloc (mk_copy callback token kbuf buf nbyte 0 asp reg);
  if cont =? 0 then mret ENOMEM else
  _ ← assertM (bool_decide (is_Some reg));
  _ ← copyin_do_copy rec cont 0;
  mret 0.

Definition copyout_do_copy (rec : interp) (token err : Z) : M unit :=
  if negb (err =? 0) then copy_end rec token err else
  _ ← assertM (negb (token =? 0));
  ready ← ensure_page rec cb_copyout_do_copy token;
  if negb ready then mret tt else
  cont ← load token;
  if cp_pos cont <? cp_nbyte cont then
    '(err, kdst) ← sos_get_kvaddr (cp_as cont) (cp_buf cont);
    if negb (err =? 0) then copy_end rec token err else
    let n := cpy_sz kdst (cp_nbyte cont) (cp_pos cont) in
    _ ← memcpy kdst (cp_kbuf cont) n;
    _ ← store token (copy_advance n cont);
    call_ rec (CallErr cb_copyout_do_copy token 0)
  else copy_end rec token 0.

Definition copyout (rec : interp) (buf kbuf nbyte : Z) (callback : err_cb) (token : Z) : M Z :=
  asp ← proc_getas;
  _ ← assertM (negb (asp =? 0));
  '(valid, _) ← as_is_valid_memory asp buf nbyte;
  if negb valid then mret EINVAL else
  reg ← region_probe asp buf;
  cont ← malloc (mk_copy callback token kbuf buf nbyte 0 asp reg);
  if cont =? 0 then mret ENOMEM else
  _ ← copyout_do_copy rec cont 0;
  mret 0.
