(* ===== verification/Clock.v ===== *)
(** The clock driver (dev/clock.c): two EPIT timers and the queue of timeouts.

    [epit1] interrupts every 100 ms and drives [jiffy]; [epit2] is loaded with
    the time to the next timeout when that is nearer.  The queue is the first
    [ntimers] entries of an array of [CLOCK_N_TIMERS] records, ordered by end
    time; the records behind them keep the unused ids. *)

From S2P Require Import Prelude UtAllocator Sos Mapping SwapSlots FrameTable ProcTable.

Definition CLOCK_N_TIMERS : Z := 64.
Definition CLOCK_INT_MILISEC : Z := 100.
Definition CLOCK_INT_MICROSEC : Z := CLOCK_INT_MILISEC * 1000.
Definition CLOCK_SPEED : Z := 66.
Definition CLOCK_PRESCALER : Z := 1.
Definition CLOCK_SPEED_PRESCALED : Z := CLOCK_SPEED / CLOCK_PRESCALER.
Definition CLOCK_LOAD_VALUE : Z := CLOCK_INT_MICROSEC * CLOCK_SPEED_PRESCALED.

Definition EPIT_CR_CLKSRC : Z := Z.shiftl 1 24.
Definition EPIT_CR_IOVW : Z := Z.shiftl 1 17.
Definition EPIT_CR_SWR : Z := Z.shiftl 1 16.
Definition EPIT_CR_PRESCALER : Z := Z.shiftl (CLOCK_PRESCALER - 1) 4.
Definition EPIT_CR_RLD : Z := Z.shiftl 1 3.
Definition EPIT_CR_OCIEN : Z := Z.shiftl 1 2.
Definition EPIT_CR_ENMOD : Z := Z.shiftl 1 1.
Definition EPIT_CR_EN : Z := 1.

Definition EPIT1_IRQ_NUM : Z := 88.
Definition EPIT2_IRQ_NUM : Z := 89.
Definition EPIT1_BASE_PADDR : Z := 0x020D0000.
Definition EPIT1_SIZE : Z := 0x4000.
Definition EPIT2_BASE_PADDR : Z := 0x020D4000.
Definition EPIT2_SIZE : Z := 0x4000.

Definition CLOCK_R_OK : Z := 0.
Definition CLOCK_R_UINT : Z := -1.
Definition CLOCK_R_FAIL : Z := -3.

Definition mod_clock (f : clockst → clockst) : M unit :=
  modify (λ s, set_s_clock (f (s_clock s)) s).

(** * Time *)

(** [time_stamp]; [CLOCK_R_UINT] becomes a [timestamp_t]. *)
Definition time_of (c : clockst) : Z :=
  if negb (clk_initialised c) then u64 CLOCK_R_UINT else
  let cnr_diff := u32 (CLOCK_LOAD_VALUE - epit_cnr (epit1 c)) in
  let offset := u64 (CLOCK_INT_MICROSEC * cnr_diff) / CLOCK_LOAD_VALUE in
  u64 (CLOCK_INT_MICROSEC * u64 (jiffy c + epit_sr (epit1 c)) + offset).

Definition time_stamp : M Z := gets (λ s, time_of (s_clock s)).

(** [_update_var_timer] on the static variables; writing the load register also
    resets the counter (EPIT_CR_IOVW). *)
Definition update_var_timer_in (c : clockst) : outcome clockst :=
  t0 ← rd (timers c) 0;
  let cur_time := time_of c in
  Ret (if t_registered t0 && (t_endtime t0 <=? u64 (cur_time + CLOCK_INT_MICROSEC)) then
         let load_value := u32 ((t_endtime t0 - cur_time) * CLOCK_SPEED) in
         set_epit2 (set_epit_lr load_value
                      (set_epit_cr (Z.lor (epit_cr (epit2 c)) EPIT_CR_EN) (epit2 c))) c
       else
         set_epit2 (set_epit_cr (andnot32 (epit_cr (epit2 c)) EPIT_CR_EN) (epit2 c)) c).

Definition lift_clock (f : clockst → outcome clockst) : M unit :=
  c ← gets s_clock;
  c' ← lift (f c);
  mod_clock (λ _, c').

Definition update_var_timer : M unit := lift_clock update_var_timer_in.

(** * Starting and stopping *)

(** [_enable_irq]: a handler capability; failure panics. *)
Definition enable_irq (irq aep : Z) : M Z :=
  cap ← invoke (Cspace_irq_control_get_cap irq);
  _ ← assertM (negb (cap =? 0));
  err ← invoke (IRQHandler_SetEndpoint cap aep);
  _ ← assertM (err =? 0);
  err ← invoke (IRQHandler_Ack cap);
  _ ← assertM (err =? 0);
  mret cap.

(** [_setup_epit] after the software reset has completed. *)
Definition setup_epit (e : epit) : epit :=
  set_epit_cr
    (Z.lor EPIT_CR_OCIEN (Z.lor EPIT_CR_ENMOD (Z.lor EPIT_CR_RLD
      (Z.lor EPIT_CR_IOVW (Z.lor EPIT_CR_PRESCALER EPIT_CR_CLKSRC))))) e.

Definition stop_timer : M Z :=
  ini ← gets (λ s, clk_initialised (s_clock s));
  if negb ini then mret CLOCK_R_UINT else
  _ ← mod_clock (λ c, set_epit1 (set_epit_cr (andnot32 (epit_cr (epit1 c)) EPIT_CR_EN) (epit1 c)) c);
  h1 ← gets (λ s, irq_handler1 (s_clock s));
  err ← invoke (IRQHandler_Clear h1);
  _ ← assertM (err =? 0);
  err ← invoke (Cspace_delete_cap h1);
  _ ← assertM (err =? 0);
  _ ← mod_clock (λ c, set_epit2 (set_epit_cr (andnot32 (epit_cr (epit2 c)) EPIT_CR_EN) (epit2 c)) c);
  h2 ← gets (λ s, irq_handler2 (s_clock s));
  err ← invoke (IRQHandler_Clear h2);
  _ ← assertM (err =? 0);
  err ← invoke (Cspace_delete_cap h2);
  _ ← assertM (err =? 0);
  _ ← mod_clock (set_clk_initialised false);
  mret CLOCK_R_OK.

(** The loop that gives the records their ids; the other fields keep their
    values. *)
Definition reset_timer (i : nat) (t : timer) : timer :=
  mk_timer (Z.of_nat i + 1) (t_endtime t) (t_callback t) (t_data t) false.

Definition start_timer (interrupt_ep : Z) : M Z :=
  ini ← gets (λ s, clk_initialised (s_clock s));
  _ ← (if (ini : bool) then stop_timer else mret 0);
  _ ← mod_clock (λ c, set_timers (imap reset_timer (timers c)) (set_jiffy 0 (set_ntimers 0 c)));
  h1 ← enable_irq EPIT1_IRQ_NUM interrupt_ep;
  _ ← mod_clock (set_irq_handler1 h1);
  _ ← map_device EPIT1_BASE_PADDR EPIT1_SIZE;
  _ ← mod_clock (λ c,
        let e := setup_epit (epit1 c) in
        set_epit1 (set_epit_lr CLOCK_LOAD_VALUE (set_epit_cr (Z.lor (epit_cr e) EPIT_CR_EN) e)) c);
  h2 ← enable_irq EPIT2_IRQ_NUM interrupt_ep;
  _ ← mod_clock (set_irq_handler2 h2);
  _ ← map_device EPIT2_BASE_PADDR EPIT2_SIZE;
  _ ← mod_clock (λ c,
        let e := setup_epit (epit2 c) in
        set_epit2 (set_epit_cr (andnot32 (epit_cr e) EPIT_CR_EN) e) c);
  _ ← mod_clock (set_clk_initialised true);
  mret CLOCK_R_OK.

(** * The queue of timeouts *)

(** [_tswap]. *)
Definition tswap (ts : list timer) (i j : Z) : outcome (list timer) :=
  ti ← rd ts i;
  tj ← rd ts j;
  ts ← wr ts i tj;
  wr ts j ti.

(** The loop of [register_timer] that moves the new record up; [n] is [i]. *)
Fixpoint bubble (ts : list timer) (n : nat) : outcome (list timer) :=
  match n with
  | O => Ret ts
  | S m =>
      ti ← rd ts (Z.of_nat n);
      tp ← rd ts (Z.of_nat m);
      if t_endtime ti <? t_endtime tp then
        ts' ← tswap ts (Z.of_nat n) (Z.of_nat m);
        bubble ts' m
      else Ret ts
  end.

Definition ntimers_ok (c : clockst) : bool := (0 <=? ntimers c) && (ntimers c <=? CLOCK_N_TIMERS).

(** [register_timer]; 0 when the queue is full. *)
Definition register_timer_in (c : clockst) (delay : Z) (callback : timer_cb) (data : Z) :
    outcome (Z * clockst) :=
  if negb (clk_initialised c) then Ret (u32 CLOCK_R_UINT, c) else
  _ ← c_assert (ntimers_ok c);
  if ntimers c =? CLOCK_N_TIMERS then Ret (0, c) else
  let cur_time := time_of c in
  t ← rd (timers c) (ntimers c);
  let t' := mk_timer (t_id t) (u64 (cur_time + delay)) callback data true in
  ts ← wr (timers c) (ntimers c) t';
  let n := ntimers c + 1 in
  ts ← bubble ts (Z.to_nat (n - 1));
  c' ← update_var_timer_in (set_ntimers n (set_timers ts c));
  _ ← c_assert (ntimers_ok c');
  Ret (t_id t, c').

Definition register_timer (delay : Z) (callback : timer_cb) (data : Z) : M Z :=
  c ← gets s_clock;
  '(id, c') ← lift (register_timer_in c delay callback data);
  _ ← mod_clock (λ _, c');
  mret id.

(** The first [i < n] with this id that is registered, or [n]. *)
Fixpoint find_timer (ts : list timer) (id : Z) (n : nat) : nat :=
  match n, ts with
  | S m, t :: ts' => if (t_id t =? id) && t_registered t then O else S (find_timer ts' id m)
  | _, _ => O
  end.

(** Move record [i] behind the last used record: what the loop that copies
    [_timers[i+1]] down and the store of [tmp] leave. *)
Fixpoint shift_down (ts : list timer) (i n : nat) : outcome (list timer) :=
  match n with
  | O => Ret ts
  | S m =>
      t ← rd ts (Z.of_nat i + 1);
      ts' ← wr ts (Z.of_nat i) t;
      shift_down ts' (S i) m
  end.

Definition remove_timer_in (c : clockst) (id : Z) : outcome (Z * clockst) :=
  if negb (clk_initialised c) then Ret (CLOCK_R_UINT, c) else
  _ ← c_assert (ntimers_ok c);
  if (id <=? 0) || (CLOCK_N_TIMERS <? id) then Ret (CLOCK_R_FAIL, c) else
  let n := Z.to_nat (ntimers c) in
  let i := find_timer (timers c) id n in
  if Z.of_nat i =? ntimers c then Ret (CLOCK_R_FAIL, c) else
  tmp ← rd (timers c) (Z.of_nat i);
  ts ← shift_down (timers c) i (n - 1 - i);
  ts ← wr ts (ntimers c - 1) (set_t_registered false tmp);
  c' ← update_var_timer_in (set_ntimers (ntimers c - 1) (set_timers ts c));
  _ ← c_assert (ntimers_ok c');
  Ret (CLOCK_R_OK, c').

Definition remove_timer (id : Z) : M Z :=
  c ← gets s_clock;
  '(r, c') ← lift (remove_timer_in c id);
  _ ← mod_clock (λ _, c');
  mret r.

(** * Interrupts *)

(** The first loop of [_check_timeout]: run the callbacks of the expired
    records from index [i] on, and return the index where it stops.  The fuel
    bounds the number of records. *)
Fixpoint run_expired (rec : interp) (fuel : nat) (cur_time i : Z) : M Z :=
  match fuel with
  | O => fail OutOfFuel
  | S fuel' =>
      c ← gets s_clock;
      if i <? ntimers c then
        t ← lift (rd (timers c) i);
        if t_registered t && (t_endtime t <=? cur_time) then
          _ ← call_ rec (CallTimer (t_callback t) (t_id t) (t_data t));
          c ← gets s_clock;
          t ← lift (rd (timers c) i);
          ts ← lift (wr (timers c) i (set_t_registered false t));
          _ ← mod_clock (set_timers ts);
          run_expired rec fuel' cur_time (i + 1)
        else mret i
      else mret i
  end.

(** The second loop: [_timers[j-i] = _timers[j]] for [n] values of [j]. *)
Fixpoint compact (ts : list timer) (i j : Z) (n : nat) : outcome (list timer) :=
  match n with
  | O => Ret ts
  | S m =>
      t ← rd ts j;
      ts' ← wr ts (j - i) t;
      compact ts' i (j + 1) m
  end.

Definition check_timeout (rec : interp) (cur_time : Z) : M unit :=
  i ← run_expired rec (S (Z.to_nat CLOCK_N_TIMERS)) cur_time 0;
  if 0 <? i then
    c ← gets s_clock;
    ts ← lift (compact (timers c) i i (Z.to_nat (ntimers c - i)));
    mod_clock (λ c, set_ntimers (ntimers c - i) (set_timers ts c))
  else mret tt.

(** An interrupt of [epit1] is acknowledged by writing 1 to its status
    register, which clears it. *)
Definition timer_interrupt (rec : interp) : M Z :=
  ini ← gets (λ s, clk_initialised (s_clock s));
  if negb ini then mret CLOCK_R_UINT else
  cur_time ← time_stamp;
  _ ← check_timeout rec cur_time;
  _ ← update_var_timer;
  c ← gets s_clock;
  _ ← (if negb (epit_sr (epit1 c) =? 0) then
         _ ← mod_clock (λ c, set_jiffy (u64 (jiffy c + 1)) (set_epit1 (set_epit_sr 0 (epit1 c)) c));
         err ← invoke (IRQHandler_Ack (irq_handler1 c));
         assertM (err =? 0)
       else mret tt);
  c ← gets s_clock;
  _ ← (if negb (epit_sr (epit2 c) =? 0) then
         _ ← mod_clock (λ c, set_epit2 (set_epit_sr 0 (epit2 c)) c);
         err ← invoke (IRQHandler_Ack (irq_handler2 c));
         assertM (err =? 0)
       else mret tt);
  mret CLOCK_R_OK.
