(* ===== verification/ClockInv.v ===== *)
(** The queue of timeouts of the clock driver: it is ordered by end time, a new
    timeout is inserted in order, an expired or removed one leaves it.  Callbacks may
    register timeouts while the expired ones are run; KernelInv.v has the theorem on
    expiry for the callbacks of SOS. *)

From Stdlib Require Import Sorting.Sorted.
From S2P Require Import Prelude UtAllocator Sos Hoare Mapping SwapSlots FrameTable ProcTable.
From S2P Require Import Clock.

(** * The queue *)

Definition earlier (t u : timer) : Prop := t_endtime t ≤ t_endtime u.

(** The timeouts that wait. *)
Definition pending (c : clockst) : list timer := take (Z.to_nat (ntimers c)) (timers c).

Record clock_ok (c : clockst) : Prop := {
  co_len : Zlength (timers c) = CLOCK_N_TIMERS;
  co_n : 0 ≤ ntimers c ≤ CLOCK_N_TIMERS;
  co_sorted : StronglySorted earlier (pending c)
}.

Definition clock_inv (s : sos) : Prop := clock_ok (s_clock s).

(** The reference: insertion into a list ordered by end time, behind the equal
    ones. *)
Fixpoint insert_timer (t : timer) (l : list timer) : list timer :=
  match l with
  | [] => [t]
  | x :: l' => if t_endtime t <? t_endtime x then t :: x :: l' else x :: insert_timer t l'
  end.

Lemma insert_timer_perm t l : insert_timer t l ≡ₚ t :: l.
Proof.
  induction l as [| x l IH]; simpl; [done |]. destruct (_ <? _); [done |].
  rewrite IH. by apply Permutation_swap.
Qed.

Lemma insert_timer_length t l : length (insert_timer t l) = S (length l).
Proof. by rewrite insert_timer_perm. Qed.

Lemma insert_timer_sorted t l :
  StronglySorted earlier l → StronglySorted earlier (insert_timer t l).
Proof.
  induction 1 as [| x l Hl IH Hx]; simpl; [repeat constructor |].
  destruct (Z.ltb_spec (t_endtime t) (t_endtime x)) as [Hlt | Hge].
  - constructor; [by constructor |]. constructor; [unfold earlier; lia |].
    eapply Forall_impl; [done |]. unfold earlier. lia.
  - constructor; [done |]. rewrite Forall_forall in Hx |- *. intros u.
    rewrite insert_timer_perm, elem_of_cons. intros [-> | Hu]; [done | by apply Hx].
Qed.

Lemma sorted_snoc l x :
  StronglySorted earlier (l ++ [x]) ↔
  StronglySorted earlier l ∧ Forall (λ y, earlier y x) l.
Proof.
  induction l as [| y l IH]; simpl.
  - split; [repeat constructor | repeat constructor].
  - split.
    + inversion_clear 1 as [| ? ? Hs Hf]. apply IH in Hs as [? ?].
      apply Forall_app in Hf as [? Hf]. inversion_clear Hf. split; by constructor.
    + intros [Hs Hf]. inversion_clear Hs. inversion_clear Hf.
      constructor; [by apply IH | by apply Forall_app; auto].
Qed.

Lemma insert_timer_snoc t l p :
  StronglySorted earlier (l ++ [p]) →
  insert_timer t (l ++ [p]) =
    if t_endtime t <? t_endtime p then insert_timer t l ++ [p] else l ++ [p; t].
Proof.
  rewrite sorted_snoc. intros [_ Hf]. induction Hf as [| x l Hx Hf IH]; simpl; [done |].
  unfold earlier in Hx. rewrite IH.
  destruct (Z.ltb_spec (t_endtime t) (t_endtime p)), (Z.ltb_spec (t_endtime t) (t_endtime x));
    try lia; done.
Qed.

(** * Arrays as lists *)

Lemma rd_middle {A : Type} (l r : list A) (x : A) i :
  i = Zlength l → rd (l ++ x :: r) i = Ret x.
Proof.
  intros ->. apply rd_Ret. split; [apply Zlength_nonneg |].
  unfold Zlength. by rewrite Nat2Z.id, list_lookup_middle.
Qed.

Lemma wr_middle {A : Type} (l r : list A) (x y : A) i :
  i = Zlength l → wr (l ++ x :: r) i y = Ret (l ++ y :: r).
Proof.
  intros ->. rewrite wr_in.
  - unfold Zlength. rewrite Nat2Z.id. by rewrite insert_app_r_alt, Nat.sub_diag.
  - unfold Zlength. rewrite length_app. simpl. lia.
Qed.

(** The swaps of [register_timer] insert the last record in order. *)
Lemma bubble_insert l t r :
  StronglySorted earlier l →
  bubble (l ++ t :: r) (length l) = Ret (insert_timer t l ++ r).
Proof.
  revert r. induction l as [| p l IH] using rev_ind; intros r Hs; [done |].
  rewrite length_app, Nat.add_comm. cbn [length Nat.add bubble].
  rewrite (rd_middle (l ++ [p]) r t (Z.of_nat (S (length l)))) by (unfold Zlength; rewrite length_app; cbn [length]; lia).
  rewrite <- app_assoc. cbn [app mbind outcome_bind].
  rewrite (rd_middle l (t :: r) p) by (unfold Zlength; lia). cbn [mbind outcome_bind].
  rewrite insert_timer_snoc by done. destruct (t_endtime t <? t_endtime p).
  2: { by rewrite <- app_assoc. }
  apply sorted_snoc in Hs as [Hs _]. unfold tswap.
  replace (l ++ p :: t :: r) with ((l ++ [p]) ++ t :: r) by (by rewrite <- app_assoc).
  rewrite (rd_middle (l ++ [p]) r t (Z.of_nat (S (length l))))
    by (unfold Zlength; rewrite length_app; cbn [length]; lia).
  rewrite <- app_assoc. cbn [app mbind outcome_bind].
  rewrite (rd_middle l (t :: r) p) by (unfold Zlength; lia). cbn [mbind outcome_bind].
  replace (l ++ p :: t :: r) with ((l ++ [p]) ++ t :: r) by (by rewrite <- app_assoc).
  rewrite wr_middle by (unfold Zlength; rewrite length_app; cbn [length]; lia). cbn [mbind outcome_bind].
  rewrite <- app_assoc. cbn [app].
  rewrite wr_middle by (unfold Zlength; lia). cbn [mbind outcome_bind].
  rewrite IH by done. by rewrite <- app_assoc.
Qed.

(** * Registering *)

Lemma update_var_timer_eq c :
  Zlength (timers c) = CLOCK_N_TIMERS → ∃ e2, update_var_timer_in c = Ret (set_epit2 e2 c).
Proof.
  intros Hl. unfold update_var_timer_in.
  destruct (rd_in (timers c) 0) as [t0 ->]; [rewrite Hl; done |]. cbn [mbind outcome_bind].
  destruct (_ && _); eauto.
Qed.

Lemma timers_split c :
  clock_ok c → ntimers c < CLOCK_N_TIMERS →
  ∃ t rest, timers c = pending c ++ t :: rest ∧ Zlength (pending c) = ntimers c ∧
    rd (timers c) (ntimers c) = Ret t.
Proof.
  intros [Hl Hn _] Hlt. unfold Zlength in Hl.
  destruct (rd_in (timers c) (ntimers c)) as [t Ht]; [unfold Zlength; lia |].
  exists t, (drop (S (Z.to_nat (ntimers c))) (timers c)).
  split; [| split; [unfold Zlength, pending; rewrite length_take; lia | done]].
  apply rd_Ret in Ht as [_ Ht]. unfold pending. by rewrite take_drop_middle.
Qed.

Lemma pending_app c l r :
  timers c = l ++ r → ntimers c = Zlength l → pending c = l.
Proof.
  intros Ht Hn. unfold pending, Zlength in *. rewrite Ht, Hn, Nat2Z.id. apply take_app_length.
Qed.

Lemma register_timer_spec c delay cb data :
  clock_ok c → clk_initialised c = true → ntimers c < CLOCK_N_TIMERS →
  ∃ t c', rd (timers c) (ntimers c) = Ret t ∧
    register_timer_in c delay cb data = Ret (t_id t, c') ∧ clock_ok c' ∧
    pending c' = insert_timer (mk_timer (t_id t) (u64 (time_of c + delay)) cb data true) (pending c).
Proof.
  intros Hok Hi Hlt. destruct (timers_split c Hok Hlt) as (t & rest & Ht & Hp & Hr).
  pose proof Hok as [Hl Hn Hs]. exists t.
  set (t' := mk_timer (t_id t) (u64 (time_of c + delay)) cb data true).
  set (ts' := insert_timer t' (pending c) ++ rest).
  assert (Zlength (insert_timer t' (pending c)) = ntimers c + 1) as Hlen.
  { unfold Zlength in *. rewrite insert_timer_length. lia. }
  assert (Zlength ts' = CLOCK_N_TIMERS) as Hl'.
  { unfold ts'. rewrite Ht, Zlength_app, Zlength_cons in Hl. rewrite Zlength_app. lia. }
  destruct (update_var_timer_eq (set_ntimers (ntimers c + 1) (set_timers ts' c)) Hl') as [e2 E2].
  eexists. split; [done |]. split; [| split].
  - unfold register_timer_in. rewrite Hi. cbn [negb].
    rewrite c_assert_true by (unfold ntimers_ok; lia). cbn [mbind outcome_bind].
    destruct (Z.eqb_spec (ntimers c) CLOCK_N_TIMERS); [lia |]. rewrite Hr. cbn [mbind outcome_bind].
    fold t'. rewrite Ht at 1. rewrite wr_middle by done. cbn [mbind outcome_bind].
    replace (Z.to_nat (ntimers c + 1 - 1)) with (length (pending c)) by (unfold Zlength in *; lia).
    rewrite bubble_insert by done. fold ts'. cbn [mbind outcome_bind].
    rewrite E2. cbn [mbind outcome_bind].
    rewrite c_assert_true by (unfold ntimers_ok; cbn; lia). done.
  - split; cbn; [done | lia |].
    erewrite (pending_app _ _ rest); [by apply insert_timer_sorted | done |].
    cbn. by rewrite Hlen.
  - erewrite (pending_app _ _ rest); [done | done |]. cbn. by rewrite Hlen.
Qed.

(** Registering does not change the time. *)
Lemma register_timer_time c delay cb data id c' :
  register_timer_in c delay cb data = Ret (id, c') →
  time_of c' = time_of c ∧ clk_initialised c' = clk_initialised c.
Proof.
  unfold register_timer_in. intros H. destruct (negb _); [by injection H as _ <- |].
  destruct (c_assert _); [| done]. cbn [mbind outcome_bind] in H.
  destruct (_ =? _); [by injection H as _ <- |].
  destruct (rd _ _); [| done]. cbn [mbind outcome_bind] in H. destruct (wr _ _ _); [| done]. cbn [mbind outcome_bind] in H.
  destruct (bubble _ _) as [ts |]; [| done]. cbn [mbind outcome_bind] in H. unfold update_var_timer_in in H.
  destruct (rd _ 0); [| done]. cbn [mbind outcome_bind] in H.
  destruct (_ && _); cbn [mbind outcome_bind] in H; (destruct (c_assert _); [by injection H as _ <- | done]).
Qed.

Lemma register_timer_in_ok c delay cb data id c' :
  clock_ok c → register_timer_in c delay cb data = Ret (id, c') →
  clock_ok c' ∧ ntimers c ≤ ntimers c'.
Proof.
  intros Hok H. destruct (clk_initialised c) eqn:Hi.
  2: { unfold register_timer_in in H. rewrite Hi in H. injection H as _ <-. done. }
  destruct (decide (ntimers c < CLOCK_N_TIMERS)) as [Hlt | Hge].
  - destruct (register_timer_spec c delay cb data Hok Hi Hlt) as (t & c1 & _ & E & Hok1 & Hp).
    rewrite E in H. injection H as _ <-. split; [done |].
    apply (f_equal length) in Hp. rewrite insert_timer_length in Hp.
    pose proof Hok as [Hl ? _]. pose proof Hok1 as [Hl1 ? _]. unfold pending, Zlength in *.
    rewrite !length_take in Hp. lia.
  - destruct Hok as [Hl Hn Hs]. unfold register_timer_in in H. rewrite Hi in H. cbn [negb] in H.
    rewrite c_assert_true in H by (unfold ntimers_ok; lia). cbn [mbind outcome_bind] in H.
    destruct (Z.eqb_spec (ntimers c) CLOCK_N_TIMERS); [| lia]. injection H as _ <-. done.
Qed.

(** * Expiry *)

(** The second loop of [_check_timeout] moves [l] down over [x]. *)
Lemma compact_eq w x l r :
  x ≠ [] →
  ∃ x', length x' = length x ∧
    compact (w ++ x ++ l ++ r) (Zlength x) (Zlength w + Zlength x) (length l) =
      Ret (w ++ l ++ x' ++ r).
Proof.
  revert w x. induction l as [| h l IH]; intros w x Hx; [by exists x |].
  destruct x as [| x0 x]; [done |]. cbn [length compact].
  rewrite app_assoc. rewrite (rd_middle (w ++ x0 :: x) (l ++ r) h) by (by rewrite Zlength_app).
  cbn [mbind outcome_bind]. rewrite <- app_assoc. cbn [app].
  rewrite wr_middle by lia. cbn [mbind outcome_bind].
  destruct (IH (w ++ [h]) (x ++ [h])) as (x' & Hl & E); [by destruct x |].
  exists x'. split; [rewrite Hl, length_app; cbn [length]; lia |].
  rewrite <- !app_assoc in E. cbn [app] in E. rewrite <- E.
  f_equal; rewrite !Zlength_app, !Zlength_cons; unfold Zlength; cbn [length]; lia.
Qed.

Definition clock_ge (k : Z) (s : sos) : Prop := clock_inv s ∧ k ≤ ntimers (s_clock s).

(** Marking a record as run keeps the queue. *)
Lemma clock_ok_mark c i t ts :
  clock_ok c → rd (timers c) i = Ret t → wr (timers c) i (set_t_registered false t) = Ret ts →
  clock_ok (set_timers ts c).
Proof.
  intros [Hl Hn Hs] Ht [_ ->]%wr_Ret. apply rd_Ret in Ht as [? Ht].
  split; cbn; [by rewrite Zlength_insert | done |].
  unfold pending in *. cbn. revert Hs Ht.
  generalize (Z.to_nat i) (Z.to_nat (ntimers c)) (timers c). clear.
  intros i n ts Hs Ht. destruct (decide (i < n)%nat) as [Hi | Hi].
  2: { by rewrite take_insert_ge by lia. }
  rewrite take_insert_lt by done.
  apply (f_equal (λ o, o)) in Ht. assert (take n ts !! i = Some t) as Ht' by (by rewrite lookup_take_lt).
  revert Ht' Hs. generalize (take n ts). clear. intros l. revert i.
  induction l as [| x l IH]; intros i Hi Hs; [done |]. inversion_clear Hs as [| ? ? Hl Hx].
  destruct i as [| i]; simpl in *.
  - injection Hi as ->. by constructor.
  - constructor; [by eapply IH |]. apply Forall_insert; [done |].
    rewrite Forall_lookup in Hx. by apply (Hx i t).
Qed.

Section inv.
Context (rec : interp) (Hrec : ∀ k c, keeps (clock_ge k) (rec c)).

Lemma run_expired_inv fuel t i s r s' :
  0 ≤ i → clock_ge i s → run_expired rec fuel t i s = Ret (r, s') → 0 ≤ r ∧ clock_ge r s'.
Proof.
  revert i s. induction fuel as [| fuel IH]; intros i s Hi Hs H; [done |].
  cbn [run_expired] in H. revert H. mpure. intros H.
  destruct (Z.ltb_spec i (ntimers (s_clock s))) as [Hlt |]; [| by injection H as <- <-].
  apply M_bind_Ret in H as (tm & s1 & H1 & H). minv1 H1.
  destruct (_ && _); [| by injection H as <- <-].
  apply M_bind_Ret in H as (u & s2 & H1 & H).
  assert (clock_ge (i + 1) s2) as [Hok2 Hn2].
  { eapply (keeps_call_ _ rec _ (Hrec (i + 1) _)); [| exact H1]. destruct Hs. split; [done | lia]. }
  revert H. mpure. intros H.
  apply M_bind_Ret in H as (tm2 & s3 & H3 & H). minv1 H3.
  apply M_bind_Ret in H as (ts & s4 & H4 & H). minv1 H4.
  apply M_bind_Ret in H as (u5 & s5 & H5 & H). unfold mod_clock in H5. minv1 H5.
  apply IH in H; [done | lia |]. split; [| done].
  by eapply clock_ok_mark.
Qed.

Lemma sorted_app_r l k : StronglySorted earlier (l ++ k) → StronglySorted earlier k.
Proof. induction l; [done |]. inversion_clear 1. auto. Qed.

Lemma check_timeout_inv t : keeps clock_inv (check_timeout rec t).
Proof.
  intros s u s' HP H. unfold check_timeout in H.
  apply M_bind_Ret in H as (i & s1 & H1 & H).
  apply run_expired_inv in H1 as (Hi & Hok & Hn); [| done | split; [done | apply HP]].
  destruct (Z.ltb_spec 0 i) as [Hpos |]; [| by injection H as _ <-].
  revert H. mpure. intros H. apply M_bind_Ret in H as (ts & s2 & H2 & H). minv1 H2.
  unfold mod_clock in H. minv1 H. unfold clock_inv. cbn [s_clock set_s_clock].
  set (c := s_clock s1) in *. destruct Hok as [Hl Hb Hs]. fold c in Hl, Hb, Hs.
  set (n := Z.to_nat (ntimers c)). set (k := Z.to_nat i).
  destruct (compact_eq [] (take k (pending c)) (drop k (pending c)) (drop n (timers c)))
    as (x' & Hx' & E).
  { unfold pending, Zlength in *. intros Hnil. apply (f_equal length) in Hnil.
    rewrite !length_take in Hnil. cbn [length] in Hnil. lia. }
  assert (length (pending c) = n) as Hpl.
  { unfold pending, Zlength in *. rewrite length_take. lia. }
  assert (Zlength (take k (pending c)) = i) as Hk.
  { unfold Zlength. rewrite length_take, Hpl. lia. }
  cbn [app] in E. rewrite (app_assoc (take k _)), take_drop in E.
  unfold pending in E at 1. rewrite take_drop in E. rewrite Hk in E.
  change (Zlength (@nil timer) + i) with i in E.
  rewrite length_drop, Hpl in E. replace (n - k)%nat with (Z.to_nat (ntimers c - i)) in E by lia.
  rewrite E in L. injection L as <-. rewrite length_take, Hpl in Hx'.
  split; cbn.
  - rewrite !Zlength_app. unfold Zlength in *. rewrite !length_drop, Hpl, Hx'. lia.
  - lia.
  - erewrite pending_app; [| done |].
    + eapply sorted_app_r. by rewrite take_drop.
    + cbn. unfold Zlength. rewrite length_drop, Hpl. lia.
Qed.

#[export] Instance stable_clock_inv : Stable clock_inv.
Proof. by split. Qed.

Lemma keeps_mod_clock f :
  (∀ c, timers (f c) = timers c ∧ ntimers (f c) = ntimers c) → keeps clock_inv (mod_clock f).
Proof.
  intros Hf. apply keeps_modify. intros s [Hl Hn Hs]. unfold clock_inv. cbn [s_clock set_s_clock].
  destruct (Hf (s_clock s)) as [E1 E2]. split; unfold pending; by rewrite ?E1, ?E2.
Qed.

Lemma keeps_update_var_timer : keeps clock_inv update_var_timer.
Proof.
  intros s u s' HP H. unfold update_var_timer, lift_clock, mod_clock in H. minv1 H.
  destruct (update_var_timer_eq (s_clock s)) as [e2 E]; [apply HP |]. rewrite E in L.
  injection L as <-. destruct HP as [Hl Hn Hs]. by split.
Qed.

Lemma timer_interrupt_inv : keeps clock_inv (timer_interrupt rec).
Proof.
  pose proof check_timeout_inv. pose proof keeps_update_var_timer.
  unfold timer_interrupt, time_stamp, invoke.
  repeat first [ keeps_step | solve [eauto using keeps_mod_clock] | apply keeps_mod_clock; done ].
Qed.

End inv.

(** * What expiry does *)

Definition expired (t : Z) (tm : timer) : Prop := t_endtime tm ≤ t.

#[export] Instance expired_dec t tm : Decision (expired t tm) := decide (_ ≤ _).

(** Mark the record at index [i] as run. *)
Definition mark (i : Z) : M unit :=
  c ← gets s_clock;
  t ← lift (rd (timers c) i);
  ts ← lift (wr (timers c) i (set_t_registered false t));
  mod_clock (set_timers ts).

(** The reference: run the callbacks of the given records, once each and in
    order; the first one is at index [i]. *)
Fixpoint fire (rec : interp) (l : list timer) (i : Z) : M unit :=
  match l with
  | [] => mret tt
  | t :: l' =>
      _ ← call_ rec (CallTimer (t_callback t) (t_id t) (t_data t));
      _ ← mark i;
      fire rec l' (i + 1)
  end.

(** Timeouts that are registered one after the other. *)
Definition insert_timers (l news : list timer) : list timer := foldl (λ l u, insert_timer u l) l news.

Lemma insert_timers_perm l news : insert_timers l news ≡ₚ news ++ l.
Proof.
  revert l. induction news as [| u news IH]; intros l; [done |].
  unfold insert_timers in *. cbn [foldl]. rewrite IH, insert_timer_perm. symmetry. apply Permutation_middle.
Qed.

(** What ends later goes behind what is due. *)
Lemma insert_timers_later t l k news :
  Forall (expired t) l → Forall (λ u, ¬ expired t u) news →
  insert_timers (l ++ k) news = l ++ insert_timers k news.
Proof.
  intros Hl Hn. revert k. induction Hn as [| u news Hu _ IH]; intros k; [done |].
  unfold insert_timers in *. cbn [foldl].
  assert (insert_timer u (l ++ k) = l ++ insert_timer u k) as ->; [| apply IH]. clear IH.
  induction Hl as [| x l Hx _ IHl]; [done |]. cbn [app insert_timer]. unfold expired in *.
  destruct (Z.ltb_spec (t_endtime u) (t_endtime x)); [lia |]. by rewrite IHl.
Qed.

#[export] Instance timer_cb_eq_dec : EqDecision timer_cb.
Proof. solve_decision. Defined.

(** The timeout of libnfs that is registered at the time [t]. *)
Definition nfs_timer (t : Z) (u : timer) : Prop :=
  ∃ id, u = mk_timer id (t + 100000) cb_nfs_dev_timeout_handler 0 true.

Lemma nfs_timer_later t u : nfs_timer t u → ¬ expired t u.
Proof. intros [id ->]. unfold expired. cbn. lia. Qed.

(** How many of these are timeouts of libnfs, which register themselves again. *)
Definition renewals (l : list timer) : nat :=
  length (filter (λ tm, t_callback tm = cb_nfs_dev_timeout_handler) l).

Lemma renewals_cons tm l : renewals (tm :: l) = (renewals [tm] + renewals l)%nat.
Proof. unfold renewals. by rewrite <- length_app, <- filter_app. Qed.

(** The clock shows [t]. *)
Record clock_at (t : Z) (s : sos) : Prop := {
  ca_inv : clock_inv s;
  ca_init : clk_initialised (s_clock s) = true;
  ca_time : time_of (s_clock s) = t
}.

(** The number of free records. *)
Definition unused (c : clockst) : nat := Z.to_nat (CLOCK_N_TIMERS - ntimers c).

(** What the callbacks of [l] may do to the queue: those of libnfs register a
    timeout while there is room for one. *)
Definition renewed (t : Z) (l news : list timer) (room : nat) : Prop :=
  Forall (nfs_timer t) news ∧ length news = Nat.min (renewals l) room.

Lemma pending_length c : clock_ok c → Z.of_nat (length (pending c)) = ntimers c.
Proof. intros [Hl Hn _]. unfold pending, Zlength in *. rewrite length_take. lia. Qed.

Lemma rd_pending c l x k : clock_ok c → pending c = l ++ x :: k → rd (timers c) (Zlength l) = Ret x.
Proof.
  intros _ Hp. replace (timers c) with (pending c ++ drop (Z.to_nat (ntimers c)) (timers c))
    by (unfold pending; apply take_drop).
  rewrite Hp, <- app_assoc. by apply rd_middle.
Qed.

(** The second loop of [_check_timeout] takes the first records out. *)
Lemma compact_pending c l k :
  clock_ok c → pending c = l ++ k → l ≠ [] →
  ∃ ts, compact (timers c) (Zlength l) (Zlength l) (Z.to_nat (ntimers c - Zlength l)) = Ret ts ∧
    pending (set_ntimers (ntimers c - Zlength l) (set_timers ts c)) = k.
Proof.
  intros Hok Hp Hne. set (r := drop (Z.to_nat (ntimers c)) (timers c)).
  destruct (compact_eq [] l k r Hne) as (x' & Hx & E). pose proof (pending_length c Hok) as Hn.
  rewrite Hp, length_app in Hn. cbn [app] in E. change (Zlength (@nil timer) + Zlength l) with (Zlength l) in E.
  exists (k ++ x' ++ r). split.
  - transitivity (compact (l ++ k ++ r) (Zlength l) (Zlength l) (length k)); [| exact E].
    f_equal; [| unfold Zlength; lia]. rewrite app_assoc, <- Hp. unfold pending, r. by rewrite take_drop.
  - apply (pending_app _ _ (x' ++ r)); [done |]. cbn. unfold Zlength. lia.
Qed.

Lemma filter_all {A : Type} (P : A → Prop) `{∀ x, Decision (P x)} (l : list A) :
  Forall P l → filter P l = l.
Proof. induction 1 as [| x l Hx _ IH]; [done |]. rewrite filter_cons_True by done. by rewrite IH. Qed.

Lemma filter_none {A : Type} (P : A → Prop) `{∀ x, Decision (P x)} (l : list A) :
  Forall (λ x, ¬ P x) l → filter P l = [].
Proof. induction 1 as [| x l Hx _ IH]; [done |]. by rewrite filter_cons_False. Qed.

Lemma due_first t l :
  StronglySorted earlier l →
  l = filter (expired t) l ++ filter (λ x, ¬ expired t x) l.
Proof.
  induction 1 as [| x l Hs IH Hx]; [done |]. rewrite !filter_cons.
  destruct (decide (expired t x)) as [He | He]; [rewrite decide_False by tauto | rewrite decide_True by done].
  - cbn [app]. by rewrite <- IH.
  - assert (Forall (λ y, ¬ expired t y) l) as Hl.
    { rewrite Forall_forall in Hx |- *. intros y Hy. specialize (Hx y Hy).
      unfold earlier, expired in *. lia. }
    by rewrite filter_none, filter_all.
Qed.

Section expiry.
Context (rec : interp) (t : Z).
Context (Hrec : ∀ tm s z s', clock_at t s →
  rec (CallTimer (t_callback tm) (t_id tm) (t_data tm)) s = Ret (z, s') →
  clock_at t s' ∧ ∃ news, renewed t [tm] news (unused (s_clock s)) ∧
    pending (s_clock s') = insert_timers (pending (s_clock s)) news).

(** A callback leaves the records that are due where they are. *)
Lemma callback_queue l tm k s u s' :
  clock_at t s → pending (s_clock s) = l ++ k → Forall (expired t) l →
  call_ rec (CallTimer (t_callback tm) (t_id tm) (t_data tm)) s = Ret (u, s') →
  clock_at t s' ∧ ∃ news, renewed t [tm] news (unused (s_clock s)) ∧
    pending (s_clock s') = l ++ insert_timers k news ∧
    unused (s_clock s') = (unused (s_clock s) - length news)%nat.
Proof.
  intros Ha Hp Hl H. unfold call_ in H. apply M_bind_Ret in H as (z & s1 & H1 & H2).
  injection H2 as _ <-. destruct (Hrec tm s z s1 Ha H1) as [Ha' (news & Hn & Hp')].
  split; [done |]. exists news. split; [done |].
  assert (Forall (λ u, ¬ expired t u) news) as Hlater by (eapply Forall_impl; [apply Hn | apply nfs_timer_later]).
  split; [by rewrite Hp', Hp, (insert_timers_later t) |].
  pose proof (pending_length _ (ca_inv _ _ Ha)) as E. pose proof (pending_length _ (ca_inv _ _ Ha')) as E'.
  rewrite Hp', insert_timers_perm, length_app in E'. unfold unused. lia.
Qed.

(** Marking a record. *)
Lemma mark_queue l1 tm l2 s :
  clock_at t s → pending (s_clock s) = l1 ++ tm :: l2 →
  ∃ s', mark (Zlength l1) s = Ret (tt, s') ∧ clock_at t s' ∧
    pending (s_clock s') = (l1 ++ [set_t_registered false tm]) ++ l2 ∧
    unused (s_clock s') = unused (s_clock s).
Proof.
  intros [Hok Hi Ht] Hp. set (r := drop (Z.to_nat (ntimers (s_clock s))) (timers (s_clock s))).
  assert (timers (s_clock s) = l1 ++ tm :: l2 ++ r) as Hts.
  { transitivity (pending (s_clock s) ++ r); [unfold pending, r; by rewrite take_drop |].
    by rewrite Hp, <- app_assoc. }
  assert (rd (timers (s_clock s)) (Zlength l1) = Ret tm) as Hrd by (rewrite Hts; by apply rd_middle).
  assert (wr (timers (s_clock s)) (Zlength l1) (set_t_registered false tm) =
    Ret (l1 ++ set_t_registered false tm :: l2 ++ r)) as Hwr by (rewrite Hts; by apply wr_middle).
  unfold mark. mpure. mstep lift_eq by (exact Hrd). mstep lift_eq by (exact Hwr).
  eexists. split; [done |]. split_and!; [split; [by eapply clock_ok_mark | done | done] | | done].
  apply (pending_app _ _ r); cbn; [by rewrite <- !app_assoc |].
  rewrite <- (pending_length _ Hok), Hp. unfold Zlength. rewrite !length_app. cbn. lia.
Qed.

(** The first loop of [_check_timeout] fires the records that are due. *)
Lemma run_expired_fire l1 ex l3 s fuel :
  clock_at t s → pending (s_clock s) = l1 ++ ex ++ l3 → (length ex < fuel)%nat →
  Forall (expired t) l1 → Forall (λ tm, t_registered tm = true ∧ expired t tm) ex →
  Forall (λ tm, ¬ expired t tm) l3 →
  run_expired rec fuel t (Zlength l1) s =
    (_ ← fire rec ex (Zlength l1); mret (Zlength l1 + Zlength ex)) s.
Proof.
  revert l1 l3 s fuel. induction ex as [| tm ex IH]; intros l1 l3 s fuel Ha Hp Hf H1 Hex H3;
    (destruct fuel as [| fuel]; [simpl in Hf; lia |]); cbn [run_expired fire];
    pose proof (pending_length _ (ca_inv _ _ Ha)) as Hn; rewrite Hp, !length_app in Hn.
  - mpure. cbn [app length] in *. change (Zlength (@nil timer)) with 0. rewrite Z.add_0_r.
    destruct (Z.ltb_spec (Zlength l1) (ntimers (s_clock s))) as [Hlt |]; [| done].
    destruct l3 as [| t3 l3]; [unfold Zlength in Hlt; cbn [length] in Hn; lia |].
    mstep lift_eq by (by eapply rd_pending; [exact (ca_inv _ _ Ha) |]).
    apply Forall_cons in H3 as [H3 _]. unfold expired in H3.
    destruct (Z.leb_spec (t_endtime t3) t); [lia |]. by rewrite andb_false_r.
  - apply Forall_cons in Hex as [[Hreg Hexp] Hex]. cbn [length app] in *.
    mpure. destruct (Z.ltb_spec (Zlength l1) (ntimers (s_clock s))); [| unfold Zlength in *; lia].
    mstep lift_eq by (by eapply rd_pending; [exact (ca_inv _ _ Ha) |]).
    rewrite Hreg. pose proof Hexp as Hle. unfold expired in Hle.
    destruct (Z.leb_spec (t_endtime tm) t); [| lia]. cbn [andb].
    rewrite M_bind_assoc. apply M_bind_ext. intros u s1 Ec.
    replace (l1 ++ tm :: ex ++ l3) with ((l1 ++ tm :: ex) ++ l3) in Hp by (by rewrite <- app_assoc).
    apply callback_queue with (l := l1 ++ tm :: ex) (k := l3) in Ec as (Ha1 & news & [Hnew _] & Hp1 & _);
      [| done | done | by apply Forall_app; split; [| constructor; [| eapply Forall_impl; [exact Hex | by intros ? [_ ?]]]]].
    rewrite <- app_assoc in Hp1. cbn [app] in Hp1.
    destruct (mark_queue _ _ _ _ Ha1 Hp1) as (s2 & Em & Ha2 & Hp2 & _).
    rewrite M_bind_assoc, (M_bind_eq _ _ _ _ _ Em).
    unfold mark in Em. revert Em. mpure. intros Em. mpure.
    apply M_bind_Ret in Em as (a1 & s3 & E1 & Em). rewrite (M_bind_eq _ _ _ _ _ E1). minv1 E1.
    apply M_bind_Ret in Em as (a2 & s4 & E4 & Em). rewrite (M_bind_eq _ _ _ _ _ E4). minv1 E4.
    rewrite (M_bind_eq _ _ _ _ _ Em).
    replace (Zlength l1 + 1) with (Zlength (l1 ++ [set_t_registered false tm]))
      by (rewrite Zlength_app; done).
    rewrite (IH _ (insert_timers l3 news)); [| done | done | lia | | done |].
    + rewrite Zlength_cons, Zlength_app. change (Zlength [set_t_registered false tm]) with 1.
      by replace (Zlength l1 + 1 + Zlength ex) with (Zlength l1 + (1 + Zlength ex)) by lia.
    + apply Forall_app. split; [done |]. by constructor.
    + rewrite insert_timers_perm. apply Forall_app. split; [| done].
      eapply Forall_impl; [exact Hnew | apply nfs_timer_later].
Qed.

Lemma fire_queue l1 ex l3 s u s' :
  clock_at t s → pending (s_clock s) = l1 ++ ex ++ l3 → Forall (expired t) l1 → Forall (expired t) ex →
  fire rec ex (Zlength l1) s = Ret (u, s') →
  clock_at t s' ∧ ∃ l1' news, length l1' = (length l1 + length ex)%nat ∧
    renewed t ex news (unused (s_clock s)) ∧ pending (s_clock s') = l1' ++ insert_timers l3 news.
Proof.
  revert l1 l3 s. induction ex as [| tm ex IH]; intros l1 l3 s Ha Hp H1 Hex H; cbn [fire] in H.
  - injection H as _ <-. split; [done |]. exists l1, []. cbn [app length] in *.
    split_and!; [lia | by split | done].
  - apply Forall_cons in Hex as [Hexp Hex]. apply M_bind_Ret in H as (u1 & s1 & Ec & H).
    cbn [app] in Hp. replace (l1 ++ tm :: ex ++ l3) with ((l1 ++ tm :: ex) ++ l3) in Hp by (by rewrite <- app_assoc).
    apply callback_queue with (l := l1 ++ tm :: ex) (k := l3) in Ec as (Ha1 & news & [Hnew Hlen] & Hp1 & Hu1);
      [| done | done | by apply Forall_app; split; [| constructor]].
    rewrite <- app_assoc in Hp1. cbn [app] in Hp1.
    destruct (mark_queue _ _ _ _ Ha1 Hp1) as (s2 & Em & Ha2 & Hp2 & Hu2).
    rewrite (M_bind_eq _ _ _ _ _ Em) in H.
    replace (Zlength l1 + 1) with (Zlength (l1 ++ [set_t_registered false tm])) in H
      by (rewrite Zlength_app; done).
    destruct (IH _ _ _ Ha2 Hp2) as (Ha' & l1' & news' & Hl & [Hnew' Hlen'] & Hp');
      [apply Forall_app; split; [done |]; by constructor | done | done |].
    split; [done |]. exists l1', (news ++ news'). split_and!.
    + rewrite Hl, length_app. cbn [length]. lia.
    + split; [by apply Forall_app |]. rewrite renewals_cons, length_app. lia.
    + rewrite Hp'. unfold insert_timers. by rewrite foldl_app.
Qed.

Lemma check_timeout_fire s :
  clock_at t s → Forall (λ tm, t_registered tm = true) (pending (s_clock s)) →
  let due := filter (expired t) (pending (s_clock s)) in
  let rest := filter (λ tm, ¬ expired t tm) (pending (s_clock s)) in
  match fire rec due 0 s with
  | Fault f => check_timeout rec t s = Fault f
  | Ret (_, s1) => ∃ s' news, check_timeout rec t s = Ret (tt, s') ∧ s' = set_s_clock (s_clock s') s1 ∧
      pending (s_clock s') = insert_timers rest news ∧ renewed t due news (unused (s_clock s))
  end.
Proof.
  intros Ha Hreg due rest. pose proof (ca_inv _ _ Ha) as [Hl Hn Hs].
  pose proof (due_first t _ Hs) as Hsplit. fold due rest in Hsplit.
  assert (Forall (expired t) due) as Hdue by (apply Forall_forall; by intros tm [? _]%list_elem_of_filter).
  assert (run_expired rec (S (Z.to_nat CLOCK_N_TIMERS)) t 0 s =
            (_ ← fire rec due 0; mret (0 + Zlength due)) s) as E.
  { apply (run_expired_fire [] due rest); [done | done | | constructor | |].
    - pose proof (pending_length _ (ca_inv _ _ Ha)) as Hp. rewrite Hsplit, length_app in Hp. lia.
    - apply Forall_forall. intros tm [He Hp]%list_elem_of_filter. split; [| done].
      rewrite Forall_forall in Hreg. by apply Hreg.
    - apply Forall_forall. by intros tm [? _]%list_elem_of_filter. }
  unfold check_timeout. destruct (fire rec due 0 s) as [[u s1] | f] eqn:Ef.
  2: { apply M_bind_Fault. rewrite E. by apply M_bind_Fault. }
  destruct (fire_queue [] due rest s u s1 Ha Hsplit (Forall_nil_2 _) Hdue Ef) as (Ha1 & l1 & news & Hl1 & Hnew & Hp1).
  rewrite (M_bind_eq _ _ _ _ _ Ef) in E. mstep E. cbn [length Nat.add] in Hl1.
  destruct (Z.ltb_spec 0 (0 + Zlength due)) as [Hpos | Hz].
  - mpure. destruct (compact_pending (s_clock s1) l1 (insert_timers rest news) (ca_inv _ _ Ha1) Hp1) as (ts & Ec & Ets).
    { intros ->. cbn [length] in Hl1. unfold Zlength in Hpos. lia. }
    replace (0 + Zlength due) with (Zlength l1) by (unfold Zlength; lia).
    mstep lift_eq by (exact Ec). eexists _, news. split; [done |]. split_and!; [done | exact Ets | done].
  - exists s1, news. split; [done |]. unfold Zlength in Hz. destruct due; [| cbn [length] in Hz; lia].
    destruct l1; [| done]. split_and!; [by destruct s1 | done | done].
Qed.

End expiry.

(** * Removal *)

Definition matches (id : Z) (t : timer) : bool := (t_id t =? id) && t_registered t.

Lemma find_timer_none id l r :
  (∀ t, t ∈ l → matches id t = false) → find_timer (l ++ r) id (length l) = length l.
Proof.
  induction l as [| x l IH]; intros H; [by destruct r |]. cbn [app length find_timer].
  fold (matches id x). rewrite (H x) by (by left). f_equal. apply IH. intros t Ht. apply H. by right.
Qed.

Lemma find_timer_some id pre t mid r :
  (∀ u, u ∈ pre → matches id u = false) → matches id t = true →
  find_timer (pre ++ t :: mid ++ r) id (length (pre ++ t :: mid)) = length pre.
Proof.
  intros Hp Ht. induction pre as [| x pre IH]; cbn [app length find_timer].
  - fold (matches id t). by rewrite Ht.
  - fold (matches id x). rewrite (Hp x) by (by left). f_equal. apply IH.
    intros u Hu. apply Hp. by right.
Qed.

(** The loop of [remove_timer] moves [mid] down over [t]. *)
Lemma shift_down_eq pre t mid r :
  ∃ y, shift_down (pre ++ t :: mid ++ r) (length pre) (length mid) = Ret (pre ++ mid ++ y :: r).
Proof.
  revert pre t. induction mid as [| x mid IH]; intros pre t; [by exists t |].
  cbn [length shift_down app].
  replace (pre ++ t :: x :: mid ++ r) with ((pre ++ [t]) ++ x :: mid ++ r) by (by rewrite <- app_assoc).
  rewrite rd_middle by (unfold Zlength; rewrite length_app; cbn [length]; lia).
  rewrite <- app_assoc. cbn [app mbind outcome_bind].
  rewrite wr_middle by (unfold Zlength; lia). cbn [mbind outcome_bind].
  destruct (IH (pre ++ [x]) x) as [y E]. exists y. rewrite <- !app_assoc in E. cbn [app] in E.
  rewrite <- E. f_equal. rewrite length_app. cbn [length]. lia.
Qed.

Lemma first_match id (l : list timer) :
  (∀ t, t ∈ l → matches id t = false) ∨
  ∃ pre t mid, l = pre ++ t :: mid ∧ matches id t = true ∧ ∀ u, u ∈ pre → matches id u = false.
Proof.
  induction l as [| x l IH]; [left; by intros t ?%elem_of_nil |].
  destruct (matches id x) eqn:Hx; [right; exists [], x, l; split_and!; [done | done |]; by intros ? ?%elem_of_nil |].
  destruct IH as [IH | (pre & t & mid & -> & Ht & Hp)].
  - left. intros t [-> | ?]%elem_of_cons; auto.
  - right. exists (x :: pre), t, mid. split_and!; [done | done |].
    intros u [-> | ?]%elem_of_cons; auto.
Qed.

Lemma sorted_remove pre t mid :
  StronglySorted earlier (pre ++ t :: mid) → StronglySorted earlier (pre ++ mid).
Proof.
  induction pre as [| x pre IH]; cbn [app]; inversion_clear 1 as [| ? ? Hs Hx]; [done |].
  constructor; [by apply IH |]. apply Forall_app in Hx as [? Hx]. inversion_clear Hx.
  by apply Forall_app.
Qed.

(** [remove_timer] when record [t] is the first one with the id. *)
Lemma remove_timer_found c id pre t mid :
  clock_ok c → clk_initialised c = true → 0 < id ≤ CLOCK_N_TIMERS →
  pending c = pre ++ t :: mid → matches id t = true →
  (∀ u, u ∈ pre → matches id u = false) →
  ∃ c', remove_timer_in c id = Ret (CLOCK_R_OK, c') ∧ clock_ok c' ∧ pending c' = pre ++ mid ∧
    t_id <$> timers c' ≡ₚ t_id <$> timers c.
Proof.
  intros [Hl Hn Hs] Hi Hid Hp Hm Hpre.
  assert (length (pending c) = Z.to_nat (ntimers c)) as Hpl.
  { unfold pending, Zlength in *. rewrite length_take. lia. }
  set (r := drop (Z.to_nat (ntimers c)) (timers c)).
  assert (timers c = pre ++ t :: mid ++ r) as Ht.
  { rewrite <- (take_drop (Z.to_nat (ntimers c)) (timers c)). fold (pending c) r.
    by rewrite Hp, <- app_assoc. }
  assert (find_timer (timers c) id (length (pending c)) = length pre) as Hf.
  { rewrite Ht, Hp. by apply find_timer_some. }
  destruct (shift_down_eq pre t mid r) as [y E]. rewrite <- Ht in E.
  set (ts := (pre ++ mid) ++ set_t_registered false t :: r).
  rewrite Hp, length_app in Hpl. cbn [length] in Hpl.
  assert (Zlength ts = CLOCK_N_TIMERS) as Hl'.
  { rewrite <- Hl, Ht. unfold ts, Zlength. rewrite !length_app. cbn [length]. rewrite length_app. lia. }
  destruct (update_var_timer_eq (set_ntimers (ntimers c - 1) (set_timers ts c)) Hl') as [e2 E2].
  set (c' := set_epit2 e2 (set_ntimers (ntimers c - 1) (set_timers ts c))) in *.
  assert (pending c' = pre ++ mid) as Hp'.
  { apply (pending_app _ _ (set_t_registered false t :: r)); [done |]. cbn.
    rewrite Zlength_app. unfold Zlength. lia. }
  exists c'. split; [| split; [| split; [done |]]].
  - unfold remove_timer_in. rewrite Hi. cbn [negb].
    rewrite c_assert_true by (unfold ntimers_ok; lia). cbn [mbind outcome_bind].
    replace ((id <=? 0) || (CLOCK_N_TIMERS <? id)) with false by lia.
    rewrite Hp, length_app in Hf. cbn [length] in Hf. rewrite Hpl in Hf. rewrite Hf.
    replace (Z.of_nat (length pre) =? ntimers c) with false by lia.
    rewrite (proj2 (rd_Ret (timers c) (Z.of_nat (length pre)) t)).
    2: { split; [lia |]. rewrite Nat2Z.id, Ht. by apply list_lookup_middle. }
    cbn [mbind outcome_bind].
    replace (Z.to_nat (ntimers c) - 1 - length pre)%nat with (length mid) by lia.
    rewrite E. cbn [mbind outcome_bind]. rewrite app_assoc.
    rewrite wr_middle by (rewrite Zlength_app; unfold Zlength; lia). cbn [mbind outcome_bind].
    fold ts. rewrite E2. cbn [mbind outcome_bind].
    by rewrite c_assert_true by (unfold ntimers_ok; cbn; lia).
  - split; [done | cbn; lia |]. rewrite Hp'. rewrite Hp in Hs. by eapply sorted_remove.
  - cbn. rewrite Ht. unfold ts. rewrite <- app_assoc, !fmap_app, !fmap_cons, fmap_app.
    change (t_id (set_t_registered false t)) with (t_id t).
    by rewrite <- !Permutation_middle.
Qed.

Lemma remove_timer_none c id :
  clock_ok c → clk_initialised c = true → (∀ t, t ∈ pending c → matches id t = false) →
  remove_timer_in c id = Ret (CLOCK_R_FAIL, c).
Proof.
  intros [Hl Hn Hs] Hi Hnone. unfold remove_timer_in. rewrite Hi. cbn [negb].
  rewrite c_assert_true by (unfold ntimers_ok; lia). cbn [mbind outcome_bind].
  destruct (_ || _); [done |].
  replace (find_timer _ _ _) with (Z.to_nat (ntimers c)); [by rewrite Z2Nat.id, Z.eqb_refl by lia |].
  assert (length (pending c) = Z.to_nat (ntimers c)) as <-.
  { unfold pending, Zlength in *. rewrite length_take. lia. }
  rewrite <- (take_drop (Z.to_nat (ntimers c)) (timers c)). fold (pending c).
  by rewrite find_timer_none.
Qed.

(** * Claims *)

(** [register_timer], with the queue not full, returns the id of the first
    unused record and inserts the timeout in order of end time, behind the ones
    that end at the same time; the queue stays ordered. *)
Theorem register_timer_correct (c : clockst) (delay : Z) (cb : timer_cb) (data : Z) :
  clock_ok c → clk_initialised c = true → ntimers c < CLOCK_N_TIMERS →
  ∃ t c', rd (timers c) (ntimers c) = Ret t ∧
    register_timer_in c delay cb data = Ret (t_id t, c') ∧ clock_ok c' ∧
    pending c' = insert_timer (mk_timer (t_id t) (u64 (time_of c + delay)) cb data true) (pending c).
Proof. apply register_timer_spec. Qed.

(** [remove_timer] takes the first pending timeout with the id out of the
    queue, keeps the order of the others, and keeps its record for reuse, so that
    the ids of the records stay the same; without such a timeout it fails and
    changes nothing. *)
Theorem remove_timer_correct (c : clockst) (id : Z) :
  clock_ok c → clk_initialised c = true → 0 < id ≤ CLOCK_N_TIMERS →
  (∀ t, t ∈ pending c → matches id t = false) ∧ remove_timer_in c id = Ret (CLOCK_R_FAIL, c) ∨
  ∃ pre t mid c', pending c = pre ++ t :: mid ∧ matches id t = true ∧
    (∀ u, u ∈ pre → matches id u = false) ∧
    remove_timer_in c id = Ret (CLOCK_R_OK, c') ∧ clock_ok c' ∧ pending c' = pre ++ mid ∧
    t_id <$> timers c' ≡ₚ t_id <$> timers c.
Proof.
  intros Hok Hi Hid.
  destruct (first_match id (pending c)) as [Hnone | (pre & t & mid & Hp & Hm & Hpre)].
  - left. split; [done |]. by apply remove_timer_none.
  - right. destruct (remove_timer_found c id pre t mid Hok Hi Hid Hp Hm Hpre) as (c' & ? & ? & ? & ?).
    by exists pre, t, mid, c'.
Qed.

(** * Examples *)

(** A clock that was just started, and one with a timeout after 5 microseconds
    and two after 200 milliseconds. *)
Definition clock_example : clockst :=
  mk_clock 0 0 (imap reset_timer (replicate 64 (mk_timer 0 0 cb_sleep_callback 0 false))) true 1 1
    (mk_epit 0 0 CLOCK_LOAD_VALUE CLOCK_LOAD_VALUE) (mk_epit 0 0 0 0).

Definition register_example (c : clockst) (delay : Z) : clockst :=
  match register_timer_in c delay cb_sleep_callback 0 with
  | Ret (_, c') => c'
  | Fault _ => c
  end.

Definition clock_example3 : clockst :=
  register_example (register_example (register_example clock_example 200000) 5) 200000.

Lemma clock_example_ok : clock_ok clock_example.
Proof. split; [reflexivity | done | constructor]. Qed.

Lemma register_example_ok c delay : clock_ok c → clock_ok (register_example c delay).
Proof.
  intros H. unfold register_example.
  destruct (register_timer_in c delay cb_sleep_callback 0) as [[id c'] |] eqn:E; [| done].
  by eapply register_timer_in_ok.
Qed.

Lemma clock_example3_ok : clock_ok clock_example3.
Proof. do 3 apply register_example_ok. apply clock_example_ok. Qed.

Lemma register_timer_correct_witness :
  ∃ c', register_timer_in clock_example3 100 cb_sleep_callback 0 = Ret (4, c') ∧
    t_id <$> pending c' = [2; 4; 1; 3].
Proof.
  destruct (register_timer_correct clock_example3 100 cb_sleep_callback 0) as (t & c' & Ht & E & _ & Hp).
  - exact clock_example3_ok.
  - vm_compute. reflexivity.
  - vm_compute. reflexivity.
  - assert (t_id t = 4) as Hid.
    { apply (f_equal (λ o, match o with Ret t => t_id t | Fault _ => 0 end)) in Ht.
      vm_compute in Ht. symmetry. exact Ht. }
    rewrite Hid in *. exists c'. split; [exact E |]. rewrite Hp. vm_compute. reflexivity.
Defined.

Lemma remove_timer_correct_witness :
  ∃ c', remove_timer_in clock_example3 1 = Ret (CLOCK_R_OK, c') ∧ t_id <$> pending c' = [2; 3].
Proof.
  destruct (remove_timer_correct clock_example3 1) as [[H _] | (pre & t & mid & c' & Hp & Hm & Hpre & E & _ & Hp' & _)].
  - exact clock_example3_ok.
  - vm_compute. reflexivity.
  - split; [reflexivity | discriminate].
  - assert (∃ t, t ∈ pending clock_example3 ∧ matches 1 t = true) as (t & Ht & Hm).
    { vm_compute. eexists. split; [apply elem_of_cons; right; apply elem_of_cons; left; reflexivity | reflexivity]. }
    rewrite (H t Ht) in Hm. discriminate Hm.
  - exists c'. split; [exact E |].
    apply (f_equal (λ o, match o with Ret (_, c') => t_id <$> pending c' | Fault _ => [] end)) in E.
    rewrite <- E. vm_compute. reflexivity.
Defined.

(** After one timeout has expired, ids are no longer unique: the records
    that move down leave a copy of the last one behind, and the next
    [register_timer] hands out the id of a timeout that is still waiting. *)
Theorem timer_id_reused :
  ∃ s', (_ ← register_timer 5 cb_sleep_callback 0;
         _ ← register_timer 200000 cb_sleep_callback 0;
         _ ← register_timer 300000 cb_sleep_callback 0;
         _ ← check_timeout (λ _, mret 0) 10;
         register_timer 400000 cb_sleep_callback 0)
          (set_s_clock clock_example (sos_start env_ok ut_example)) = Ret (3, s') ∧
    t_id <$> pending (s_clock s') = [2; 3; 3].
Proof.
  match goal with |- ∃ s', ?o = _ ∧ _ =>
    assert (match o with
            | Ret (r, s') => r = 3 ∧ t_id <$> pending (s_clock s') = [2; 3; 3]
            | Fault _ => False end) as H by (vm_compute; done);
    destruct o as [[r s'] |]; [| done] end.
  destruct H as [-> H]. by exists s'.
Qed.
