(* ===== verification/Console.v ===== *)
(** The console (dev/console.c): a ring buffer of [MAX_IO_BUF] characters filled
    by the serial port's handler and emptied a line at a time by the reader. *)

From S2P Require Import Prelude UtAllocator Sos Mapping SwapSlots FrameTable ProcTable.
From S2P Require Import AddrSpace PageTable Swap CopyInOut.

Definition MAX_SERIAL_SEND : Z := 100.
Definition NEWLINE : Z := 10.
Definition S_IRUSR : Z := 256.
Definition S_IWUSR : Z := 128.
Definition ST_FILE : Z := 1.

Definition mod_con (f : con_dev → con_dev) : M unit := modify (λ s, set_s_con (f (s_con s)) s).
Definition mod_conr (f : con_reader → con_reader) : M unit :=
  modify (λ s, set_s_conr (f (s_conr s)) s).

(** * The serial port *)

(** [serial_send]: how many of the bytes the port took, at most all of them. *)
Definition serial_send (buf len : Z) : M Z :=
  k ← ask e_serial;
  let n := Z.max 0 (Z.min k len) in
  data ← read_mem buf n;
  _ ← emit (EvSerial data);
  mret n.

(** [serial_register_handler] and [serial_init]: did they succeed. *)
Definition serial_register_handler : M bool := ask e_serial_ok.
Definition serial_init : M bool := ask e_serial_ok.

(** The loop around [serial_send], at most [n] times. *)
Fixpoint send_loop (n : nat) (buf nbytes tot_sent : Z) : M Z :=
  match n with
  | O => mret tot_sent
  | S n' =>
      if tot_sent <? nbytes then
        k ← serial_send (buf + tot_sent) (nbytes - tot_sent);
        send_loop n' buf nbytes (tot_sent + k)
      else mret tot_sent
  end.

(** * Opening and closing *)

Definition con_init (vn : Z) : M Z :=
  _ ← assertM (negb (vn =? 0));
  _ ← update vn (λ v : vnode,
        mk_vnode true (vn_opencount v) (vn_name v) None
          (mk_stat ST_FILE (Z.lor S_IWUSR S_IRUSR) 0 (0, 0)) ops_console);
  ok ← serial_init;
  _ ← mod_con (set_con_serial ok);
  if negb ok then mret EFAULT else
  _ ← mod_con (λ c, set_con_end 0 (set_con_start 0 (set_con_buf_size 0 c)));
  _ ← mod_conr (λ r, set_opened_for_reading false (set_cr_pid PROC_NULL r));
  mret 0.

Definition con_eachopen (vn flags : Z) : M Z :=
  if (flags =? O_RDWR) || (flags =? O_RDONLY) then
    r ← gets s_conr;
    if opened_for_reading r then mret EFAULT else
    ok ← serial_register_handler;
    if negb ok then mret EFAULT else
    pid ← proc_get_id;
    _ ← mod_conr (λ r, set_opened_for_reading true (set_cr_pid pid r));
    mret 0
  else mret 0.

Definition con_eachclose (vn flags : Z) : M Z :=
  if (flags =? O_RDWR) || (flags =? O_RDONLY) then
    c ← gets s_con;
    if negb (con_serial c) then mret EFAULT else
    ok ← serial_register_handler;
    if negb ok then mret EFAULT else
    _ ← mod_con (set_con_buf_size 0);
    _ ← mod_conr (λ r, set_opened_for_reading false (set_cr_pid PROC_NULL r));
    mret 0
  else mret 0.

Definition con_lastclose (vn : Z) : M Z :=
  v ← load vn;
  _ ← assertM (vn_opencount v =? 1);
  _ ← mod_con (λ _, mk_con 0 0 0 false);
  mret 0.

(** * Writing *)

Definition con_write (rec : interp) (vn buf nbytes offset : Z) (callback : write_cb) (token : Z) :
    M unit :=
  c ← gets s_con;
  if negb (con_serial c) then call_ rec (CallWrite callback token EFAULT 0) else
  tot_sent ← send_loop (Z.to_nat MAX_SERIAL_SEND) buf nbytes 0;
  call_ rec (CallWrite callback token 0 tot_sent).

(** * Reading *)

(** The length of the next line: up to and with the first newline, at most
    [nbytes] and at most what the buffer holds ([n] is the rest of it). *)
Fixpoint line_len (m : Z → Z) (n : nat) (cur nbytes len : Z) : Z :=
  match n with
  | O => len
  | S n' =>
      if len <? nbytes then
        if m (CONSOLE_BUF + cur) =? NEWLINE then len + 1
        else line_len m n' ((cur + 1) mod MAX_IO_BUF) nbytes (len + 1)
      else len
  end.

Definition con_read_end (rec : interp) (token err : Z) : M unit :=
  cont ← load token;
  if negb (err =? 0) then
    _ ← mod_conr (set_is_blocked false);
    call_ rec (CallRead (crc_callback cont) (crc_token cont) EFAULT 0 false)
  else
  _ ← mod_con (λ c,
        set_con_start ((con_start c + (crc_first_half_size cont + crc_second_half_size cont))
                         mod MAX_IO_BUF) c);
  _ ← mod_con (λ c, set_con_buf_size (con_buf_size c - crc_len cont) c);
  _ ← mod_conr (set_is_blocked false);
  _ ← call_ rec (CallRead (crc_callback cont) (crc_token cont) 0 (crc_len cont) false);
  free token.

Definition con_read_part2 (rec : interp) (token err : Z) : M unit :=
  cont ← load token;
  if negb (err =? 0) then
    _ ← mod_conr (set_is_blocked false);
    _ ← call_ rec (CallRead (crc_callback cont) (crc_token cont) EFAULT 0 false);
    free token
  else
  c ← gets s_con;
  let console_start := (con_start c + crc_first_half_size cont) mod MAX_IO_BUF in
  let second_half_size := u32 (crc_len cont - crc_first_half_size cont) in
  _ ← store token (set_crc_second_half_size second_half_size cont);
  err ← copyout rec (u32 (crc_buf cont + crc_first_half_size cont)) (CONSOLE_BUF + console_start)
          second_half_size cb_con_read_end token;
  if negb (err =? 0) then con_read_end rec token err else mret tt.

Definition con_read (rec : interp) (vn buf nbytes offset : Z) (callback : read_cb) (token : Z) :
    M unit :=
  c ← gets s_con;
  if 0 <? con_buf_size c then
    len ← gets (λ s, line_len (s_mem s) (Z.to_nat (con_buf_size c)) (con_start c) nbytes 0);
    let first_half_size := Z.min MAX_IO_BUF (con_start c + len) - con_start c in
    cont ← malloc (mk_crc len first_half_size 0 buf callback token);
    if cont =? 0 then
      _ ← mod_conr (set_is_blocked false);
      call_ rec (CallRead callback token ENOMEM 0 false)
    else
    err ← copyout rec buf (CONSOLE_BUF + con_start c) first_half_size cb_con_read_part2 cont;
    if negb (err =? 0) then con_read_end rec cont err else mret tt
  else
    mod_conr (λ r,
      mk_conr (opened_for_reading r) true buf nbytes offset (cr_pid r) callback token vn).

(** [_read_handler]: a character [ch] arrives. *)
Definition con_store_char (ch : Z) : M unit :=
  c ← gets s_con;
  if con_buf_size c <? MAX_IO_BUF then
    _ ← write_mem (CONSOLE_BUF + con_end c) [ch];
    mod_con (λ c, set_con_buf_size (con_buf_size c + 1)
                    (set_con_end ((con_end c + 1) mod MAX_IO_BUF) c))
  else mret tt.

Definition read_handler (rec : interp) (ch : Z) : M unit :=
  _ ← con_store_char ch;
  r ← gets s_conr;
  if is_blocked r && (ch =? NEWLINE) then
    alive ← is_proc_alive (cr_pid r);
    if (alive : bool) then
      _ ← set_cur_proc (cr_pid r);
      r ← gets s_conr;
      con_read rec (cr_file r) (cr_buf r) (cr_nbytes r) (cr_offset r) (cr_callback r) (cr_token r)
    else
      mod_conr (λ r, set_is_blocked false (set_cr_pid PROC_NULL r))
  else mret tt.
