(* ===== verification/NfsDev.v ===== *)
(** Files of the NFS server (dev/nfs_dev.c): the vnode operations that turn into
    NFS requests.

    Here libnfs is an interface: a request is queued with its handler, and the
    handler runs when the environment delivers a reply.  NfsSos.v shows that the
    code of libnfs implements it. *)

From S2P Require Import Prelude UtAllocator Sos Mapping SwapSlots FrameTable ProcTable.
From S2P Require Import AddrSpace PageTable Swap CopyInOut Clock Console.

(** [starting_first_process || is_proc_alive(pid)], then [set_cur_proc(pid)];
    [false] when the process is gone. *)
Definition resume (pid : Z) : M bool :=
  gone ← proc_is_gone pid;
  if (gone : bool) then mret false else
  _ ← set_cur_proc pid;
  mret true.

(** * Creating a vnode *)

(** [_init_helper]. *)
Definition init_helper (vn fh : Z) (fa : option fattr) : M Z :=
  _ ← assertM (negb (vn =? 0));
  v ← load vn;
  ok ← malloc_ok;
  if negb ok then mret ENOMEM else
  ok ← malloc_ok;
  if negb ok then mret ENOMEM else
  ok ← (match fa with Some _ => malloc_ok | None => mret true end);
  if negb ok then mret ENOMEM else
  let sattr := match fa with
               | Some f => mk_stat ST_FILE (fa_mode f) (fa_size f) (fa_mtime f)
               | None => vn_sattr v
               end in
  _ ← store vn (mk_vnode true 0 (vn_name v) (Some (mk_nfs_data fh fa)) sattr ops_nfs);
  mret 0.

Definition nfs_dev_init_mntpoint_vnode (vn fh : Z) : M Z := init_helper vn fh None.

(** [nfs_dev_create] does not look at the result of [nfs_create]. *)
Definition nfs_dev_create (token : Z) : M unit :=
  cont ← load token;
  v ← load (ni_file cont);
  dir ← mnt_point;
  _ ← send_rpc (rpc_create dir (vn_name v) cb_nfs_dev_create_handler token);
  mret tt.

Definition ni_finish (rec : interp) (token err : Z) : M unit :=
  cont ← load token;
  _ ← call_ rec (CallErr (ni_callback cont) (ni_token cont) err);
  free token.

Definition nfs_dev_create_handler (rec : interp) (token status fh : Z) (fa : fattr) : M unit :=
  _ ← assertM (negb (token =? 0));
  cont ← load token;
  ok ← resume (ni_pid cont);
  if negb ok then ni_finish rec token EFAULT else
  if status =? NFS_OK then
    err ← init_helper (ni_file cont) fh (Some fa);
    ni_finish rec token err
  else ni_finish rec token EFAULT.

Definition nfs_dev_lookup_handler (rec : interp) (token status fh : Z) (fa : fattr) : M unit :=
  _ ← assertM (negb (token =? 0));
  cont ← load token;
  ok ← resume (ni_pid cont);
  if negb ok then ni_finish rec token EFAULT else
  if status =? NFS_OK then
    err ← init_helper (ni_file cont) fh (Some fa);
    ni_finish rec token err
  else nfs_dev_create token.

Definition nfs_dev_init (rec : interp) (vn : Z) (callback : err_cb) (token : Z) : M unit :=
  pid ← proc_get_id;
  cont ← malloc (mk_ni vn callback token pid);
  if cont =? 0 then call_ rec (CallErr callback token ENOMEM) else
  v ← load vn;
  dir ← mnt_point;
  ok ← send_rpc (rpc_lookup dir (vn_name v) cb_nfs_dev_lookup_handler cont);
  if negb ok then
    _ ← free cont;
    call_ rec (CallErr callback token EFAULT)
  else mret tt.

(** * Opening and closing *)

Definition nfs_dev_eachopen (vn flags : Z) : M Z := mret 0.
Definition nfs_dev_eachclose (vn flags : Z) : M Z := mret 0.

Definition get_nfs_data (vn : Z) : M nfs_data :=
  v ← load vn;
  lift (deref (vn_data v)).

(** The data of the vnode is freed; nothing is left to read it. *)
Definition nfs_dev_lastclose (vn : Z) : M Z :=
  _ ← get_nfs_data vn;
  _ ← update vn (set_vn_data None);
  mret 0.

(** [*(data->fattr) = *fattr]. *)
Definition set_fattr (vn : Z) (fa : fattr) : M unit :=
  d ← get_nfs_data vn;
  _ ← lift (deref (nd_fattr d));
  update vn (set_vn_data (Some (set_nd_fattr (Some fa) d))).

(** * Writing *)

Definition nfs_dev_write (rec : interp) (vn buf nbytes offset : Z) (callback : write_cb)
    (token : Z) : M unit :=
  pid ← proc_get_id;
  cont ← malloc (mk_nw callback token vn pid);
  if cont =? 0 then call_ rec (CallWrite callback token ENOMEM 0) else
  d ← get_nfs_data vn;
  data ← read_mem buf nbytes;
  ok ← send_rpc (rpc_write (nd_fh d) offset data cb_nfs_dev_write_handler cont);
  if negb ok then
    _ ← free cont;
    call_ rec (CallWrite callback token EFAULT 0)
  else mret tt.

Definition nfs_dev_write_handler (rec : interp) (token status : Z) (fa : fattr) (count : Z) :
    M unit :=
  _ ← assertM (negb (token =? 0));
  cont ← load token;
  ok ← resume (nw_pid cont);
  err ← (if negb ok then mret EFAULT else
         _ ← set_fattr (nw_file cont) fa;
         mret (if status =? NFS_OK then 0 else EFAULT));
  _ ← call_ rec (CallWrite (nw_callback cont) (nw_token cont) err (u32 count));
  free token.

(** * Reading *)

Definition nfs_dev_read_end (rec : interp) (token err : Z) : M unit :=
  _ ← assertM (negb (token =? 0));
  cont ← load token;
  _ ← free (nr_data_backup cont);
  _ ← (if negb (err =? 0) then
         call_ rec (CallRead (nr_callback cont) (nr_token cont) err 0 false)
       else
         call_ rec (CallRead (nr_callback cont) (nr_token cont) 0 (nr_count cont)
                      (negb (nr_count cont =? 0))));
  free token.

Definition nfs_dev_read (rec : interp) (vn buf nbytes offset : Z) (callback : read_cb)
    (token : Z) : M unit :=
  _ ← assertM (negb (vn =? 0));
  pid ← proc_get_id;
  cont ← malloc (mk_nr vn buf 0 callback token 0 pid);
  if cont =? 0 then call_ rec (CallRead callback token ENOMEM 0 false) else
  d ← get_nfs_data vn;
  ok ← send_rpc (rpc_read (nd_fh d) offset nbytes cb_nfs_dev_read_handler cont);
  if negb ok then
    _ ← free cont;
    call_ rec (CallRead callback token EFAULT 0 false)
  else mret tt.

Definition nfs_dev_read_handler (rec : interp) (token status : Z) (fa : fattr) (count : Z)
    (data : list Z) : M unit :=
  _ ← assertM (negb (token =? 0));
  cont ← load token;
  ok ← resume (nr_pid cont);
  if negb ok then nfs_dev_read_end rec token EFAULT else
  if status =? NFS_OK then
    _ ← set_fattr (nr_file cont) fa;
    data_backup ← malloc_buf (u32 count);
    if data_backup =? 0 then nfs_dev_read_end rec token ENOMEM else
    _ ← write_mem data_backup (take (Z.to_nat (u32 count)) data);
    _ ← store token (set_nr_count (u32 count) (set_nr_data_backup data_backup cont));
    err ← copyout rec (nr_app_buf cont) data_backup (u32 count) cb_nfs_dev_read_end token;
    if negb (err =? 0) then nfs_dev_read_end rec token err else mret tt
  else nfs_dev_read_end rec token EFAULT.

(** * Directory entries *)

Definition ng_finish (rec : interp) (token err size : Z) : M unit :=
  cont ← load token;
  _ ← call_ rec (CallDirent (ng_callback cont) (ng_token cont) err size);
  free token.

(** The fields [size], [name] and [cookie] are filled in by the handler. *)
Definition nfs_dev_getdirent (rec : interp) (vn buf nbyte pos : Z) (callback : dirent_cb)
    (token : Z) : M unit :=
  pid ← proc_get_id;
  cont ← malloc (mk_ng pos nbyte 0 0 buf 0 callback token pid);
  if cont =? 0 then call_ rec (CallDirent callback token ENOMEM 0) else
  dir ← mnt_point;
  ok ← send_rpc (rpc_readdir dir 0 cont);
  if negb ok then ng_finish rec cont EFAULT 0 else mret tt.

(** [while(file_names[pos][size] != 0 && size < nbyte-1) size++]: the length of
    the name, at most [nbyte-1]. *)
Definition name_size (name : list Z) (nbyte : Z) : Z :=
  Z.min (Zlength name) (u32 (nbyte - 1)).

Definition nfs_dev_getdirent_handler (rec : interp) (token status : Z)
    (file_names : list (list Z)) (cookie : Z) : M unit :=
  let num_files := Zlength file_names in
  _ ← assertM (negb (token =? 0));
  cont ← load token;
  ok ← resume (ng_pid cont);
  if negb ok then ng_finish rec token EFAULT 0 else
  if status =? NFS_OK then
    let cont := set_ng_cookie cookie cont in
    _ ← store token cont;
    if ng_pos cont <? num_files then
      fname ← lift (rd file_names (ng_pos cont));
      let size := name_size fname (ng_nbyte cont) in
      name ← malloc_buf (size + 1);
      if name =? 0 then ng_finish rec token ENOMEM size else
      _ ← write_mem name (take (Z.to_nat size) fname ++ [0]);
      let size := size + 1 in
      _ ← store token (set_ng_size size (set_ng_name name cont));
      err ← copyout rec (ng_app_buf cont) name size cb_nfs_dev_getdirent_done_copyout token;
      if negb (err =? 0) then ng_finish rec token err size else mret tt
    else if cookie =? 0 then
      ng_finish rec token (if ng_pos cont =? num_files + 1 then 0 else EINVAL) 0
    else
      let pos := ng_pos cont - num_files in
      _ ← store token (set_ng_pos pos cont);
      _ ← assertM (0 <=? pos);
      dir ← mnt_point;
      ok ← send_rpc (rpc_readdir dir cookie token);
      if negb ok then ng_finish rec token 0 0 else mret tt
  else ng_finish rec token EFAULT 0.

Definition nfs_dev_getdirent_done_copyout (rec : interp) (token err : Z) : M unit :=
  _ ← assertM (negb (token =? 0));
  cont ← load token;
  ok ← resume (ng_pid cont);
  let err := if ok : bool then err else EFAULT in
  _ ← free (ng_name cont);
  if negb (err =? 0) then ng_finish rec token err 0
  else ng_finish rec token 0 (ng_size cont).

(** * Stat *)

Definition SIZEOF_STAT : Z := 20.

(** The bytes of a [sos_stat_t]. *)
Definition stat_bytes (st : sos_stat) : list Z :=
  word_bytes (u32 (st_type st)) ++ word_bytes (u32 (st_mode st)) ++
  word_bytes (u32 (st_size st)) ++ word_bytes (u32 (st_mtime st).1) ++
  word_bytes (u32 (st_mtime st).2).

Definition stat_of_fattr (fa : fattr) : sos_stat :=
  mk_stat ST_FILE (fa_mode fa) (fa_size fa) (fa_mtime fa).

(** [_nfs_dev_stat]; the source of the copy is [&stat], the address of the local
    pointer variable, which the model keeps at [KSTACK]. *)
Definition nfs_dev_stat (rec : interp) (vn buf : Z) (callback : err_cb) (token : Z) : M Z :=
  if vn =? 0 then mret EFAULT else
  v ← load vn;
  match vn_data v with
  | None => mret EFAULT
  | Some d =>
      fa ← lift (deref (nd_fattr d));
      stat ← malloc_buf SIZEOF_STAT;
      if stat =? 0 then mret ENOMEM else
      _ ← write_mem stat (stat_bytes (stat_of_fattr fa));
      _ ← store_word KSTACK stat;
      pid ← proc_get_id;
      cont ← malloc (mk_ns callback token stat pid);
      if cont =? 0 then
        _ ← free stat;
        mret ENOMEM
      else
      err ← copyout rec buf KSTACK SIZEOF_STAT cb_nfs_dev_stat_copyout_cb cont;
      if negb (err =? 0) then
        _ ← free stat;
        _ ← free cont;
        mret err
      else mret 0
  end.

Definition nfs_dev_stat_copyout_cb (rec : interp) (token err : Z) : M unit :=
  _ ← assertM (negb (token =? 0));
  cont ← load token;
  ok ← resume (ns_pid cont);
  let err := if ok : bool then err else EFAULT in
  _ ← free (ns_stat cont);
  _ ← call_ rec (CallErr (ns_callback cont) (ns_token cont) err);
  free token.

Definition nfs_dev_getstat_lookup_end (rec : interp) (token err : Z) : M unit :=
  _ ← assertM (negb (token =? 0));
  cont ← load token;
  ok ← resume (ngs_pid cont);
  let err := if ok : bool then err else EFAULT in
  _ ← free (ngs_stat cont);
  _ ← call_ rec (CallErr (ngs_callback cont) (ngs_token cont) err);
  free token.

Definition nfs_dev_getstat_lookup_cb (rec : interp) (token status fh : Z) (fa : fattr) : M unit :=
  _ ← assertM (negb (token =? 0));
  cont ← load token;
  ok ← resume (ngs_pid cont);
  if negb ok then nfs_dev_getstat_lookup_end rec token EFAULT else
  if negb (status =? NFS_OK) then nfs_dev_getstat_lookup_end rec token EFAULT else
  stat ← malloc_buf SIZEOF_STAT;
  _ ← store token (set_ngs_stat stat cont);
  if stat =? 0 then nfs_dev_getstat_lookup_end rec token ENOMEM else
  let st := stat_of_fattr fa in
  let st := if bool_decide (ngs_path cont = SWAP_FILE_NAME) then set_st_mode 0 st else st in
  _ ← write_mem stat (stat_bytes st);
  _ ← copyout rec (ngs_stat_buf cont) stat SIZEOF_STAT cb_nfs_dev_getstat_lookup_end token;
  mret tt.

(** When the request is refused the handler runs at once, with the status of
    the RPC layer, which is not [NFS_OK]. *)
Definition RPCERR : Z := 1.

Definition nfs_dev_getstat (rec : interp) (path : list Z) (buf : Z) (callback : err_cb)
    (token : Z) : M unit :=
  _ ← assertM (negb (buf =? 0));
  pid ← proc_get_id;
  cont ← malloc (mk_ngs buf callback token 0 path pid);
  if cont =? 0 then call_ rec (CallErr callback token ENOMEM) else
  dir ← mnt_point;
  ok ← send_rpc (rpc_lookup dir path cb_nfs_dev_getstat_lookup_cb cont);
  if negb ok then
    nfs_dev_getstat_lookup_cb rec cont RPCERR 0 (mk_fattr 0 0 (0, 0))
  else mret tt.

(** * The timeout of libnfs *)

Definition nfs_dev_timeout_handler : M unit :=
  _ ← register_timer 100000 cb_nfs_dev_timeout_handler 0;
  mret tt.

Definition nfs_dev_setup_timeout : M unit :=
  _ ← register_timer 100000 cb_nfs_dev_timeout_handler 0;
  mret tt.
