(* ===== verification/Vfs.v ===== *)
(** The virtual file system (vfs/vfs.c, vfs/vnode.c): the table of open vnodes
    and the dispatch of vnode operations to the console or to NFS.

    A file that is open has exactly one vnode, found by name in the table; it
    counts its openings and is removed with the last of them. *)

From S2P Require Import Prelude UtAllocator Sos Mapping SwapSlots FrameTable ProcTable.
From S2P Require Import AddrSpace PageTable Swap CopyInOut Clock Console NfsDev.

Definition CONSOLE_NAME : list Z := [99; 111; 110; 115; 111; 108; 101].
Definition ROOT_PATH : list Z := [47].

(** * The operations of a vnode *)

Definition vn_table (vn : Z) : M ops_table :=
  v ← load vn;
  mret (vn_ops v).

Definition VOP_EACHOPEN (vn flags : Z) : M Z :=
  t ← vn_table vn;
  match t with
  | ops_console => con_eachopen vn flags
  | ops_nfs => nfs_dev_eachopen vn flags
  | ops_none => fail NullDeref
  end.

Definition VOP_EACHCLOSE (vn flags : Z) : M Z :=
  t ← vn_table vn;
  match t with
  | ops_console => con_eachclose vn flags
  | ops_nfs => nfs_dev_eachclose vn flags
  | ops_none => fail NullDeref
  end.

Definition VOP_LASTCLOSE (vn : Z) : M Z :=
  t ← vn_table vn;
  match t with
  | ops_console => con_lastclose vn
  | ops_nfs => nfs_dev_lastclose vn
  | ops_none => fail NullDeref
  end.

Definition VOP_READ (rec : interp) (vn buf nbytes offset : Z) (cb : read_cb) (token : Z) : M unit :=
  t ← vn_table vn;
  match t with
  | ops_console => con_read rec vn buf nbytes offset cb token
  | ops_nfs => nfs_dev_read rec vn buf nbytes offset cb token
  | ops_none => fail NullDeref
  end.

Definition VOP_WRITE (rec : interp) (vn buf nbytes offset : Z) (cb : write_cb) (token : Z) :
    M unit :=
  t ← vn_table vn;
  match t with
  | ops_console => con_write rec vn buf nbytes offset cb token
  | ops_nfs => nfs_dev_write rec vn buf nbytes offset cb token
  | ops_none => fail NullDeref
  end.

(** [con_init] leaves these two pointers NULL. *)
Definition VOP_GETDIRENT (rec : interp) (vn buf nbyte pos : Z) (cb : dirent_cb) (token : Z) :
    M unit :=
  t ← vn_table vn;
  match t with
  | ops_nfs => nfs_dev_getdirent rec vn buf nbyte pos cb token
  | _ => fail NullDeref
  end.

Definition VOP_STAT (rec : interp) (vn buf : Z) (cb : err_cb) (token : Z) : M Z :=
  t ← vn_table vn;
  match t with
  | ops_nfs => nfs_dev_stat rec vn buf cb token
  | _ => fail NullDeref
  end.

(** * The table of vnodes *)

(** [vfs_vnt_lookup]: the first vnode of this name, or 0. *)
Fixpoint vnt_lookup_in (l : list Z) (path : list Z) : M Z :=
  match l with
  | [] => mret 0
  | vn :: l' =>
      v ← load vn;
      if bool_decide (path = vn_name v) then mret vn else vnt_lookup_in l' path
  end.

Definition vfs_vnt_lookup (path : list Z) : M Z :=
  l ← gets s_vnt;
  vnt_lookup_in l path.

Definition vfs_vnt_insert (vn : Z) : M Z :=
  if vn =? 0 then mret EINVAL else
  ok ← malloc_ok;
  if negb ok then mret ENOMEM else
  _ ← modify (λ s, set_s_vnt (vn :: s_vnt s) s);
  mret 0.

(** [vfs_vnt_delete]: the list without the first vnode of this name. *)
Fixpoint vnt_delete_in (l : list Z) (path : list Z) : M (list Z) :=
  match l with
  | [] => mret []
  | vn :: l' =>
      v ← load vn;
      if bool_decide (vn_name v = path) then mret l' else
      rest ← vnt_delete_in l' path;
      mret (vn :: rest)
  end.

Definition vfs_vnt_delete (path : list Z) : M unit :=
  l ← gets s_vnt;
  l' ← vnt_delete_in l path;
  modify (set_s_vnt l').

(** * Counting openings (vfs/vnode.c) *)

Definition vnode_incopen (vn : Z) : M unit :=
  _ ← assertM (negb (vn =? 0));
  update vn (λ v, set_vn_opencount (i32 (vn_opencount v + 1)) v).

Definition vnode_decopen (vn : Z) : M unit :=
  _ ← assertM (negb (vn =? 0));
  v ← load vn;
  _ ← assertM (0 <? vn_opencount v);
  if 1 <? vn_opencount v then
    store vn (set_vn_opencount (vn_opencount v - 1) v)
  else
    _ ← VOP_LASTCLOSE vn;
    _ ← vfs_vnt_delete (vn_name v);
    free vn.

(** * Opening *)

(** [_vfs_open_3_end_create]; a failing VOP_EACHOPEN does not set [err]. *)
Definition vfs_open_3_end_create (rec : interp) (token err : Z) : M unit :=
  cont ← load token;
  bad ← (if negb (err =? 0) then mret true else
         e ← VOP_EACHOPEN (vo_vn cont) (vo_openflags cont);
         mret (negb (e =? 0)));
  if (bad : bool) then
    _ ← free (vo_vn cont);
    _ ← call_ rec (CallVnode (vo_callback cont) (vo_token cont) err 0);
    free token
  else
  err ← vfs_vnt_insert (vo_vn cont);
  if negb (err =? 0) then
    _ ← VOP_LASTCLOSE (vo_vn cont);
    _ ← free (vo_vn cont);
    _ ← call_ rec (CallVnode (vo_callback cont) (vo_token cont) err 0);
    free token
  else
  _ ← update (vo_vn cont) (set_vn_opencount 1);
  _ ← call_ rec (CallVnode (vo_callback cont) (vo_token cont) 0 (vo_vn cont));
  free token.

(** The name and the table of operations are separate allocations of the new
    vnode; its other fields are not initialised. *)
Definition new_vnode (path : list Z) (junk : Z) : vnode :=
  mk_vnode false junk path None (mk_stat 0 0 0 (0, 0)) ops_none.

Definition vfs_open_2_create_vnode (rec : interp) (path : list Z) (openflags : Z)
    (callback : vnode_cb) (token : Z) : M unit :=
  junk ← ask e_junk;
  vn ← malloc (new_vnode path (i32 junk));
  if vn =? 0 then call_ rec (CallVnode callback token ENOMEM 0) else
  ok ← malloc_ok;
  if negb ok then
    _ ← free vn;
    call_ rec (CallVnode callback token ENOMEM 0)
  else
  ok ← malloc_ok;
  if negb ok then
    _ ← free vn;
    call_ rec (CallVnode callback token ENOMEM 0)
  else
  cont ← malloc (mk_vo callback token vn openflags);
  if cont =? 0 then
    _ ← free vn;
    call_ rec (CallVnode callback token ENOMEM 0)
  else
  if bool_decide (path = CONSOLE_NAME) then
    err ← con_init vn;
    _ ← (if negb (err =? 0) then free vn else mret tt);
    vfs_open_3_end_create rec cont 0
  else
  nfs_dev_init rec vn cb_vfs_open_3_end_create cont.

Definition vfs_open (rec : interp) (path : list Z) (openflags : Z) (callback : vnode_cb)
    (token : Z) : M unit :=
  vn ← vfs_vnt_lookup path;
  if negb (vn =? 0) then
    err ← VOP_EACHOPEN vn openflags;
    if negb (err =? 0) then call_ rec (CallVnode callback token err 0) else
    _ ← vnode_incopen vn;
    call_ rec (CallVnode callback token err vn)
  else vfs_open_2_create_vnode rec path openflags callback token.

(** * Closing *)

Definition vfs_close (vn flags : Z) : M unit :=
  _ ← VOP_EACHCLOSE vn flags;
  vnode_decopen vn.

(** * Stat *)

Definition vfs_stat_end (rec : interp) (token err : Z) : M unit :=
  cont ← load token;
  _ ← call_ rec (CallErr (vs_callback cont) (vs_token cont) err);
  free token.

Definition vfs_stat (rec : interp) (path : list Z) (buf : Z) (callback : err_cb) (token : Z) :
    M unit :=
  cont ← malloc (mk_vs callback token);
  if cont =? 0 then call_ rec (CallErr callback token ENOMEM) else
  vn ← vfs_vnt_lookup path;
  if negb (vn =? 0) then
    err ← VOP_STAT rec vn buf cb_vfs_stat_end cont;
    if negb (err =? 0) then vfs_stat_end rec cont err else mret tt
  else nfs_dev_getstat rec path buf cb_vfs_stat_end cont.
