(* ===== verification/FileTable.v ===== *)
(** Open files and the file table of a process (syscall/file.c). *)

From S2P Require Import Prelude UtAllocator Sos Mapping SwapSlots FrameTable ProcTable.
From S2P Require Import AddrSpace PageTable Swap CopyInOut Clock Console NfsDev Vfs.

Definition PROCESS_MAX_FILES : Z := 16.
Definition STDOUT_FD : Z := 1.
Definition STDERR_FD : Z := 2.
Definition O_ACCMODE : Z := 3.

(** The file table of the current process. *)
Definition cur_filetable : M Z :=
  p ← cur_proc;
  proc ← load p;
  mret (p_filetable proc).

(** * The table *)

(** The error code, and the file when there is none. *)
Definition filetable_findfile (fd : Z) : M (Z * Z) :=
  ftp ← cur_filetable;
  if (fd <? 0) || (PROCESS_MAX_FILES <=? fd) then mret (EBADF, 0) else
  l ← load (T := list Z) ftp;
  file ← lift (rd l fd);
  if file =? 0 then mret (EBADF, 0) else mret (0, file).

(** The first free descriptor from [i] on. *)
Fixpoint first_null (l : list Z) (i : Z) : option Z :=
  match l with
  | [] => None
  | f :: l' => if f =? 0 then Some i else first_null l' (i + 1)
  end.

Definition filetable_placefile (file : Z) : M (Z * Z) :=
  ftp ← cur_filetable;
  l ← load (T := list Z) ftp;
  match first_null l 0 with
  | Some i => _ ← store ftp (<[Z.to_nat i := file]> l); mret (0, i)
  | None => mret (EMFILE, -1)
  end.

(** * Closing *)

Definition file_doclose (file flags : Z) : M Z :=
  if file =? 0 then mret EINVAL else
  f ← load file;
  if of_refcount f =? 1 then
    _ ← vfs_close (of_vnode f) flags;
    _ ← free file;
    mret 0
  else
    _ ← assertM (1 <? of_refcount f);
    _ ← store file (set_of_refcount (of_refcount f - 1) f);
    mret 0.

Definition file_close (fd : Z) : M Z :=
  '(result, file) ← filetable_findfile fd;
  if negb (result =? 0) then mret result else
  f ← load file;
  result ← file_doclose file (of_accmode f);
  if negb (result =? 0) then mret result else
  ftp ← cur_filetable;
  l ← load (T := list Z) ftp;
  l' ← lift (wr l fd 0);
  _ ← store ftp l';
  mret 0.

(** The loop of [filetable_destroy]. *)
Fixpoint close_all (files : list Z) : M unit :=
  match files with
  | [] => mret tt
  | file :: files' =>
      if file =? 0 then close_all files' else
      f ← load file;
      result ← file_doclose file (of_accmode f);
      _ ← assertM (result =? 0);
      close_all files'
  end.

Definition filetable_destroy (ftp : Z) : M unit :=
  _ ← assertM (negb (ftp =? 0));
  l ← load (T := list Z) ftp;
  _ ← close_all l;
  free ftp.

(** * Opening *)

Definition fo_finish (rec : interp) (token err fd : Z) : M unit :=
  cont ← load token;
  _ ← call_ rec (CallOpen (fo_callback cont) (fo_token cont) err fd);
  free token.

(** The opening mode asks for more than the file allows. *)
Definition mode_denied (accmode st_mode : Z) : bool :=
  let file_readable := negb (Z.land st_mode S_IRUSR =? 0) in
  let file_writable := negb (Z.land st_mode S_IWUSR =? 0) in
  ((accmode =? O_RDONLY) && negb file_readable) ||
  ((accmode =? O_WRONLY) && negb file_writable) ||
  ((accmode =? O_RDWR) && negb (file_readable && file_writable)).

Definition file_open_end (rec : interp) (token err vn : Z) : M unit :=
  _ ← assertM (negb (token =? 0));
  cont ← load token;
  if negb (err =? 0) then fo_finish rec token err (-1) else
  let accmode := Z.land (fo_flags cont) O_ACCMODE in
  v ← load vn;
  if mode_denied accmode (st_mode (vn_sattr v)) then
    _ ← vfs_close vn (fo_flags cont);
    fo_finish rec token EINVAL (-1)
  else
  file ← malloc (mk_openfile vn 0 accmode 1);
  if file =? 0 then
    _ ← vfs_close vn (fo_flags cont);
    fo_finish rec token ENOMEM (-1)
  else
  '(err, fd) ← filetable_placefile file;
  if negb (err =? 0) then
    _ ← free file;
    _ ← vfs_close vn (fo_flags cont);
    fo_finish rec token err (-1)
  else fo_finish rec token 0 fd.

Definition file_open (rec : interp) (filename : list Z) (flags : Z) (callback : open_cb)
    (token : Z) : M unit :=
  let accmode := Z.land flags O_ACCMODE in
  if negb ((accmode =? O_RDONLY) || (accmode =? O_WRONLY) || (accmode =? O_RDWR)) then
    call_ rec (CallOpen callback token EINVAL (-1))
  else
  cont ← malloc (mk_fo callback token flags);
  if cont =? 0 then call_ rec (CallOpen callback token ENOMEM (-1)) else
  vfs_open rec filename flags cb_file_open_end cont.

(** * The standard descriptors *)

(** [filetable_init_end] does not look at [err]. *)
Definition filetable_init_end (rec : interp) (token err vn : Z) : M unit :=
  cont ← load token;
  file ← malloc (mk_openfile vn 0 O_WRONLY 2);
  if file =? 0 then
    _ ← vfs_close vn O_WRONLY;
    _ ← call_ rec (CallErr (fti_callback cont) (fti_token cont) ENOMEM);
    free token
  else
  l ← load (T := list Z) (fti_filetable cont);
  l ← lift (wr l STDOUT_FD file);
  l ← lift (wr l STDERR_FD file);
  _ ← store (fti_filetable cont) l;
  _ ← call_ rec (CallErr (fti_callback cont) (fti_token cont) 0);
  free token.

Definition filetable_init (rec : interp) (ftp : Z) (callback : err_cb) (token : Z) : M Z :=
  if ftp =? 0 then mret EINVAL else
  _ ← store ftp (replicate (Z.to_nat PROCESS_MAX_FILES) 0);
  cont ← malloc (mk_fti ftp callback token);
  if cont =? 0 then mret ENOMEM else
  _ ← vfs_open rec CONSOLE_NAME O_WRONLY cb_filetable_init_end cont;
  mret 0.
