(* ===== verification/FileInv.v ===== *)
(** Open files.

    The file table of a process hands out the lowest free descriptor.  The table
    of vnodes is searched by name: opening a file again counts the first vnode of
    its name, closing undoes an opening exactly, and the last closing removes the
    first vnode of the name, which is the closed one as long as no other vnode of
    that name stands before it. *)

From S2P Require Import Prelude UtAllocator Sos Hoare Mapping SwapSlots FrameTable ProcTable.
From S2P Require Import AddrSpace PageTable Swap CopyInOut Clock Console NfsDev Vfs FileTable.

(** * File descriptors *)

(** The current process has the file table [l]. *)
Definition fd_table (s : sos) (l : list Z) : Prop :=
  Zlength l = PROCESS_MAX_FILES ∧
  ∃ p x, cur_proc_ptr (s_proc s) = p ∧ p ≠ 0 ∧ s_heap s !! p = Some (OProcess x) ∧
    p_filetable x ≠ 0 ∧ s_heap s !! p_filetable x = Some (to_obj l).

(** What a descriptor stands for. *)
Definition fd_lookup (l : list Z) (fd : Z) : Z * Z :=
  match rd l fd with
  | Ret file => if file =? 0 then (EBADF, 0) else (0, file)
  | Fault _ => (EBADF, 0)
  end.

Lemma cur_filetable_eq s l :
  fd_table s l →
  ∃ p x, let ftp := p_filetable x in
    cur_filetable s = Ret (ftp, s) ∧ ftp ≠ 0 ∧ s_heap s !! ftp = Some (to_obj l) ∧
    cur_proc_ptr (s_proc s) = p ∧ p ≠ 0 ∧ s_heap s !! p = Some (OProcess x) ∧ p ≠ ftp.
Proof.
  intros (_ & p & x & Ep & Hp & Hx & Hf & Hl). exists p, x. split_and!; try done.
  - unfold cur_filetable, cur_proc. mpure. rewrite Ep. by mstep (load_eq (T := process)) by done.
  - intros E. rewrite E in Hx. rewrite Hx in Hl. done.
Qed.

Lemma findfile_eq s l fd : fd_table s l → filetable_findfile fd s = Ret (fd_lookup l fd, s).
Proof.
  intros H. destruct (cur_filetable_eq s l H) as (p & x & E & Hf & Hl & _). destruct H as [Hlen _].
  unfold filetable_findfile, fd_lookup. mstep E.
  destruct (Z.ltb_spec fd 0); cbn [orb].
  { unfold rd. by rewrite decide_False by lia. }
  destruct (Z.leb_spec PROCESS_MAX_FILES fd).
  { destruct (rd l fd) as [f |] eqn:Er; [apply rd_bounds in Er; lia | done]. }
  mstep (load_eq (T := list Z)) by done. destruct (rd_in l fd) as [f Er]; [lia |]. rewrite Er.
  mstep lift_eq by done. by destruct (f =? 0).
Qed.

Lemma first_null_Some l i j :
  first_null l i = Some j ↔ i ≤ j ∧ rd l (j - i) = Ret 0 ∧ ∀ k, i ≤ k < j → rd l (k - i) ≠ Ret 0.
Proof.
  revert i. induction l as [| f l IH]; intros i; cbn [first_null].
  - split; [done |]. intros (_ & H & _). apply rd_bounds in H. unfold Zlength in H. cbn in H. lia.
  - assert (∀ k, i + 1 ≤ k → rd (f :: l) (k - i) = rd l (k - (i + 1))) as Hr.
    { intros k Hk. unfold rd. rewrite !decide_True by lia.
      by replace (Z.to_nat (k - i)) with (S (Z.to_nat (k - (i + 1)))) by lia. }
    assert (rd (f :: l) (i - i) = Ret f) as H0 by (rewrite Z.sub_diag; done).
    destruct (Z.eqb_spec f 0) as [-> | Hf].
    + split; [intros [= <-]; split_and!; [lia | done | lia] |]. intros (Hij & Hj & Hk).
      destruct (decide (i = j)) as [-> | Hne]; [done |]. destruct (Hk i); [lia | done].
    + rewrite IH. split.
      * intros (H1 & H2 & H3). split_and!; [lia | by rewrite Hr |]. intros k Hk.
        destruct (decide (k = i)) as [-> |]; [rewrite H0; congruence |]. rewrite Hr by lia. apply H3. lia.
      * intros (H1 & H2 & H3). destruct (decide (j = i)) as [-> |]; [rewrite H0 in H2; congruence |].
        split_and!; [lia | by rewrite <- Hr by lia |]. intros k Hk. rewrite <- Hr by lia. apply H3. lia.
Qed.

Lemma first_null_None l i : first_null l i = None → Forall (λ f, f ≠ 0) l.
Proof.
  revert i. induction l as [| f l IH]; intros i; cbn [first_null]; [done |].
  destruct (Z.eqb_spec f 0); [done |]. eauto.
Qed.

(** Placing a file in the file table of a process uses the lowest free
    descriptor: afterwards that descriptor stands for the file and every other
    one for what it stood for before.  When all descriptors are taken the answer
    is [EMFILE] and nothing changes. *)
Theorem placefile_correct (s : sos) (l : list Z) (file : Z) :
  fd_table s l → file ≠ 0 →
  (Forall (λ f, f ≠ 0) l ∧ filetable_placefile file s = Ret ((EMFILE, -1), s)) ∨
  ∃ fd s' l', 0 ≤ fd < PROCESS_MAX_FILES ∧ filetable_placefile file s = Ret ((0, fd), s') ∧
    fd_table s' l' ∧ fd_lookup l fd = (EBADF, 0) ∧ (∀ k, 0 ≤ k < fd → (fd_lookup l k).1 = 0) ∧
    ∀ k, filetable_findfile k s' = Ret (if k =? fd then (0, file) else fd_lookup l k, s').
Proof.
  intros H Hfile. destruct (cur_filetable_eq s l H) as (p & x & E & Hf & Hl & Ep & Hp & Hx & Hne).
  set (ftp := p_filetable x) in *. destruct (first_null l 0) as [fd |] eqn:En.
  - right. pose proof En as (H0 & Hfd & Hmin)%first_null_Some. rewrite Z.sub_0_r in Hfd.
    destruct H as [Hlen _]. apply rd_bounds in Hfd as Hb. rewrite Hlen in Hb. set (l' := <[Z.to_nat fd := file]> l).
    set (s' := set_s_heap (<[ftp := to_obj l']> (s_heap s)) s).
    assert (fd_table s' l') as Htab.
    { split; [by unfold l'; rewrite Zlength_insert |]. exists p, x. cbn. rewrite lookup_insert_ne by done.
      fold ftp. by rewrite lookup_insert_eq. }
    exists fd, s', l'. split; [done |]. split.
    { unfold filetable_placefile. mstep E. mstep (load_eq (T := list Z)) by done. rewrite En.
      by mstep (store_eq (T := list Z)) by done. }
    split; [done |]. split; [unfold fd_lookup; by rewrite Hfd |]. split.
    + intros k Hk. unfold fd_lookup. destruct (rd_in l k) as [f Ek]; [lia |]. rewrite Ek.
      destruct (Z.eqb_spec f 0) as [-> |]; [| done]. destruct (Hmin k); [lia |]. by rewrite Z.sub_0_r.
    + intros k. rewrite (findfile_eq _ _ _ Htab). unfold fd_lookup, l'. destruct (Z.eqb_spec k fd) as [-> | Hk].
      * rewrite rd_insert_eq by lia. apply Z.eqb_neq in Hfile as ->. done.
      * by rewrite rd_insert_ne by lia.
  - left. split; [by eapply first_null_None |]. unfold filetable_placefile. mstep E.
    mstep (load_eq (T := list Z)) by done. by rewrite En.
Qed.

(** * The table of vnodes *)

(** The vnode [vn] of the table is [v]. *)
Definition listed (s : sos) (vn : Z) (v : vnode) : Prop :=
  vn ∈ s_vnt s ∧ s_heap s !! vn = Some (OVnode v).

(** Every vnode of the table is alive and open.  Several may have the same name:
    two processes that open a new file at the same time make two. *)
Record vnt_ok (s : sos) : Prop := {
  vt_nodup : NoDup (s_vnt s);
  vt_live : ∀ vn, vn ∈ s_vnt s → vn ≠ 0 ∧ ∃ v, s_heap s !! vn = Some (OVnode v) ∧ 1 ≤ vn_opencount v
}.

(** The vnode [x] is the first of its name in the table, with [l1] before it and
    [l2] after it. *)
Definition first_named (s : sos) (path : list Z) (l1 : list Z) (x : Z) (l2 : list Z) : Prop :=
  s_vnt s = l1 ++ x :: l2 ∧ (∃ w, s_heap s !! x = Some (OVnode w) ∧ vn_name w = path) ∧
  ∀ y w, y ∈ l1 → s_heap s !! y = Some (OVnode w) → vn_name w ≠ path.

Section lookup.
Context (s : sos) (Hok : vnt_ok s).

(** A vnode of the table has a first one of its name. *)
Lemma first_named_in vn v :
  listed s vn v → ∃ l1 x l2, first_named s (vn_name v) l1 x l2 ∧ (x = vn ∨ vn ∈ l2).
Proof.
  intros [Hin Hv]. assert (∀ x, x ∈ s_vnt s → ∃ w, s_heap s !! x = Some (OVnode w)) as Hl.
  { intros x Hx. destruct (vt_live s Hok x Hx) as (_ & w & Hw & _). eauto. }
  unfold first_named. induction (s_vnt s) as [| x l IH]; [by apply not_elem_of_nil in Hin |].
  destruct (Hl x) as [w Hw]; [by left |]. destruct (decide (vn_name w = vn_name v)) as [E | E].
  - exists [], x, l. split; [split_and!; [done | by exists w | by intros ? ? ?%not_elem_of_nil] |].
    apply elem_of_cons in Hin as [-> | ?]; [by left | by right].
  - apply elem_of_cons in Hin as [-> | Hin]; [congruence |].
    destruct IH as (l1 & y & l2 & (-> & Hy & Hn) & Hvn); [done | intros z Hz; apply Hl; by right |].
    exists (x :: l1), y, l2. split_and!; [done | done | | done]. intros z u Hz Hu.
    apply elem_of_cons in Hz as [-> | Hz]; [congruence | by eapply Hn].
Qed.

Lemma lookup_in_first path l1 x l2 w :
  s_heap s !! x = Some (OVnode w) → vn_name w = path → l1 ++ x :: l2 ⊆ s_vnt s →
  (∀ y w, y ∈ l1 → s_heap s !! y = Some (OVnode w) → vn_name w ≠ path) →
  vnt_lookup_in (l1 ++ x :: l2) path s = Ret (x, s).
Proof.
  intros Hx Hp. induction l1 as [| y l1 IH]; intros Hl Hn; cbn [vnt_lookup_in app].
  - destruct (vt_live s Hok x) as (Hx0 & _); [apply Hl; by left |].
    mstep (load_eq (T := vnode)) by done. by rewrite bool_decide_eq_true_2.
  - destruct (vt_live s Hok y) as (Hy0 & u & Hu & _); [apply Hl; by left |].
    mstep (load_eq (T := vnode)) by done. rewrite bool_decide_eq_false_2.
    + apply IH; [intros z Hz; apply Hl; by right |]. intros z u' Hz. apply Hn. by right.
    + intros E. by apply (Hn y u); [left | |].
Qed.

Lemma lookup_in_none l path :
  l ⊆ s_vnt s → (∀ vn v, vn ∈ l → s_heap s !! vn = Some (OVnode v) → vn_name v ≠ path) →
  vnt_lookup_in l path s = Ret (0, s).
Proof.
  intros Hl Hn. induction l as [| x l IH]; [done |]. cbn [vnt_lookup_in].
  destruct (vt_live s Hok x) as (Hx & w & Hw & _); [apply Hl; by left |].
  mstep (load_eq (T := vnode)) by done. rewrite bool_decide_eq_false_2.
  - apply IH; [intros y Hy; apply Hl; by right |]. intros vn v Hvn. apply Hn. by right.
  - intros E. by apply (Hn x w); [left | |].
Qed.

Lemma delete_in_first path l1 x l2 w :
  s_heap s !! x = Some (OVnode w) → vn_name w = path → l1 ++ x :: l2 ⊆ s_vnt s →
  (∀ y w, y ∈ l1 → s_heap s !! y = Some (OVnode w) → vn_name w ≠ path) →
  vnt_delete_in (l1 ++ x :: l2) path s = Ret (l1 ++ l2, s).
Proof.
  intros Hx Hp. induction l1 as [| y l1 IH]; intros Hl Hn; cbn [vnt_delete_in app].
  - destruct (vt_live s Hok x) as (Hx0 & _); [apply Hl; by left |].
    mstep (load_eq (T := vnode)) by done. by rewrite bool_decide_eq_true_2.
  - destruct (vt_live s Hok y) as (Hy0 & u & Hu & _); [apply Hl; by left |].
    mstep (load_eq (T := vnode)) by done. rewrite bool_decide_eq_false_2.
    + rewrite M_bind_eq with (a := l1 ++ l2) (s1 := s); [done |].
      apply IH; [intros z Hz; apply Hl; by right |]. intros z u' Hz. apply Hn. by right.
    + intros E. by apply (Hn y u); [left | |].
Qed.

End lookup.

(** A change of a vnode that keeps its name. *)
Lemma vnt_ok_update s vn v v1 :
  vnt_ok s → listed s vn v → 1 ≤ vn_opencount v1 →
  vnt_ok (set_s_heap (<[vn := OVnode v1]> (s_heap s)) s).
Proof.
  intros [H1 H2] [Hvn Hv] Hk. split; [done |].
  intros x Hx. destruct (H2 x Hx) as (Hx0 & w & Hw & Hc). split; [done |]. cbn.
  destruct (decide (x = vn)) as [-> | Hne].
  - rewrite lookup_insert_eq. eexists. split; [done | done].
  - rewrite lookup_insert_ne by done. eauto.
Qed.

Lemma first_named_update s path l1 x l2 vn v v1 :
  first_named s path l1 x l2 → s_heap s !! vn = Some (OVnode v) → vn_name v1 = vn_name v →
  first_named (set_s_heap (<[vn := OVnode v1]> (s_heap s)) s) path l1 x l2.
Proof.
  intros (E & (w & Hw & Hp) & Hn) Hv Hname. split_and!; [done | |].
  - cbn. destruct (decide (x = vn)) as [-> | Hne].
    + rewrite lookup_insert_eq. exists v1. split; [done | congruence].
    + rewrite lookup_insert_ne by done. by exists w.
  - intros y u Hy. cbn. destruct (decide (y = vn)) as [-> | Hne].
    + rewrite lookup_insert_eq. intros [= <-]. rewrite Hname. by apply (Hn vn).
    + rewrite lookup_insert_ne by done. by apply Hn.
Qed.

(** The table without its vnode [vn]. *)
Lemma vnt_ok_removed s s' l1 vn l2 :
  vnt_ok s → s_vnt s = l1 ++ vn :: l2 → s_vnt s' = l1 ++ l2 →
  (∀ x, x ≠ vn → s_heap s' !! x = s_heap s !! x) →
  vnt_ok s' ∧ ∀ vn' v', listed s' vn' v' ↔ vn' ≠ vn ∧ listed s vn' v'.
Proof.
  intros [H1 H2] E E' Hh. rewrite E in H1.
  assert (∀ x, x ∈ s_vnt s' ↔ x ≠ vn ∧ x ∈ s_vnt s) as Hin.
  { intros x. rewrite E, E', !elem_of_app, elem_of_cons. apply NoDup_app in H1 as (_ & H12 & H13).
    apply NoDup_cons in H13 as [H13 _]. split; [| naive_solver].
    intros [Hx | Hx]; (split; [intros -> | tauto]); [apply (H12 vn Hx); by left | done]. }
  split; [split |].
  - rewrite E'. apply (sublist_NoDup (l1 ++ l2) (l1 ++ vn :: l2)); [done |].
    apply sublist_app; [done | by apply sublist_cons].
  - intros x [Hne Hx]%Hin. rewrite Hh by done. auto.
  - intros x w. unfold listed. rewrite Hin. split.
    + intros [[Hne Hx] Hw]. by rewrite Hh in Hw.
    + intros (Hne & Hx & Hw). by rewrite Hh.
Qed.

Lemma vop_table_eq s vn v : vn ≠ 0 → s_heap s !! vn = Some (OVnode v) → vn_table vn s = Ret (vn_ops v, s).
Proof. intros Hn Hv. unfold vn_table. by mstep (load_eq (T := vnode)) by done. Qed.

(** Opening once more, and closing. *)
Lemma open_close_eq s l1 vn l2 flags v rec cb tk :
  vnt_ok s → first_named s (vn_name v) l1 vn l2 → s_heap s !! vn = Some (OVnode v) → vn_ops v = ops_nfs →
  vn_opencount v < 2 ^ 31 - 1 →
  let s1 := set_s_heap (<[vn := OVnode (set_vn_opencount (vn_opencount v + 1) v)]> (s_heap s)) s in
  vfs_open rec (vn_name v) flags cb tk s = call_ rec (CallVnode cb tk 0 vn) s1 ∧
  vfs_close vn flags s1 = Ret (tt, s).
Proof.
  intros Hok (El & _ & Hn) Hv Hops Hmax s1.
  destruct (vt_live s Hok vn) as (Hn0 & v0 & Hv0 & Hcount); [rewrite El; apply elem_of_app; right; by left |].
  rewrite Hv in Hv0. injection Hv0 as <-. set (v1 := set_vn_opencount (vn_opencount v + 1) v) in *.
  assert (s_heap s1 !! vn = Some (OVnode v1)) as Hv1 by (cbn; apply lookup_insert_eq).
  apply Z.eqb_neq in Hn0 as Hn0'. split.
  - unfold vfs_open, vfs_vnt_lookup. rewrite M_bind_assoc. mpure. rewrite El.
    mstep (lookup_in_first s Hok (vn_name v) l1 vn l2 v) by (done || by rewrite El). rewrite Hn0'. cbn [negb].
    unfold VOP_EACHOPEN. rewrite M_bind_assoc. mstep vop_table_eq by done. rewrite Hops.
    unfold nfs_dev_eachopen. mpure. cbn [negb Z.eqb].
    unfold vnode_incopen. rewrite M_bind_assoc. mstep assertM_eq by (by rewrite Hn0').
    mstep (update_eq (T := vnode)) by done. by rewrite i32_small by lia.
  - unfold vfs_close, VOP_EACHCLOSE. rewrite M_bind_assoc. mstep vop_table_eq by done.
    cbn [v1 set_vn_opencount vn_ops]. rewrite Hops. unfold nfs_dev_eachclose. mpure. unfold vnode_decopen.
    mstep assertM_eq by (by rewrite Hn0'). mstep (load_eq (T := vnode)) by done.
    cbn [v1 set_vn_opencount vn_opencount].
    mstep assertM_eq by (apply Z.ltb_lt; lia). destruct (Z.ltb_spec 1 (vn_opencount v + 1)); [| lia].
    rewrite (store_eq (T := vnode) vn _ v1) by done. f_equal. f_equal. unfold s1. cbn.
    rewrite insert_insert_eq, insert_id; [by destruct s |]. rewrite Hv. f_equal. cbn.
    replace (vn_opencount v + 1 - 1) with (vn_opencount v) by lia. by destruct v.
Qed.

(** Closing the only opening. *)
Lemma last_close_eq s vn flags v l1 x l2 :
  vnt_ok s → listed s vn v → vn_ops v = ops_nfs → vn_opencount v = 1 → is_Some (vn_data v) →
  first_named s (vn_name v) l1 x l2 →
  ∃ s2, vfs_close vn flags s = Ret (tt, s2) ∧ s_vnt s2 = l1 ++ l2 ∧ s_heap s2 = delete vn (s_heap s).
Proof.
  intros Hok Hvn Hops Hone [d Hd] Hfirst. pose proof Hvn as [Hin Hv].
  destruct (vt_live s Hok vn Hin) as (Hn0 & _). apply Z.eqb_neq in Hn0 as Hn0'.
  set (v1 := set_vn_data None v). set (s1 := set_s_heap (<[vn := OVnode v1]> (s_heap s)) s).
  assert (s_heap s1 !! vn = Some (OVnode v1)) as Hv1 by (cbn; apply lookup_insert_eq).
  assert (vnt_ok s1) as Hok1 by (apply (vnt_ok_update s vn v); [done | done | cbn; lia]).
  destruct (first_named_update s _ l1 x l2 vn v v1 Hfirst Hv eq_refl) as (El & (w & Hw & Hp) & Hn).
  exists (set_s_heap (delete vn (s_heap s1)) (set_s_vnt (l1 ++ l2) s1)).
  split; [| split; [done |]].
  - unfold vfs_close, VOP_EACHCLOSE. rewrite M_bind_assoc. mstep vop_table_eq by done. rewrite Hops.
    unfold nfs_dev_eachclose. mpure. unfold vnode_decopen. mstep assertM_eq by (by rewrite Hn0').
    mstep (load_eq (T := vnode)) by done. rewrite Hone. mstep assertM_eq by done. cbn [Z.ltb Z.compare Pos.compare Pos.compare_cont].
    unfold VOP_LASTCLOSE. rewrite M_bind_assoc. mstep vop_table_eq by done. rewrite Hops.
    unfold nfs_dev_lastclose, get_nfs_data. rewrite !M_bind_assoc. mstep (load_eq (T := vnode)) by done.
    rewrite Hd. mstep lift_eq by done. rewrite M_bind_assoc. mstep (update_eq (T := vnode)) by done.
    mpure. unfold vfs_vnt_delete. rewrite M_bind_assoc. mpure. rewrite M_bind_assoc.
    change (s_vnt (set_s_heap _ s)) with (s_vnt s1). fold s1 in El. rewrite El.
    mstep (delete_in_first s1 Hok1 (vn_name v) l1 x l2 w) by (done || by rewrite El). mpure.
    by apply (free_eq vn (OVnode v1) (set_s_vnt (l1 ++ l2) s1)).
  - cbn. by rewrite delete_insert_eq.
Qed.

(** [C35] Openings of a file on the server are counted, by name.  Opening a name
    that is in the table gives the first vnode of that name and counts one more,
    up to the limit of an int; closing undoes that exactly, state and all.
    Closing the only opening of a vnode frees it and takes the first vnode [x] of
    its name out of the table.  When that is the vnode itself, all other open
    files are as before, and its name is not found any more if no other vnode has
    it.  When another vnode of the same name stands before it, that one is out of
    the table although it is open, and the freed vnode is still in it. *)
Theorem vnode_counting (s : sos) (vn flags : Z) (v : vnode) (rec : interp) (cb : vnode_cb) (tk : Z) :
  vnt_ok s → listed s vn v → vn_ops v = ops_nfs →
  ∃ l1 x l2, first_named s (vn_name v) l1 x l2 ∧
  (x = vn → vn_opencount v < 2 ^ 31 - 1 →
   ∃ s1, vfs_open rec (vn_name v) flags cb tk s = call_ rec (CallVnode cb tk 0 vn) s1 ∧ vnt_ok s1 ∧
     listed s1 vn (set_vn_opencount (vn_opencount v + 1) v) ∧ vfs_close vn flags s1 = Ret (tt, s)) ∧
  (vn_opencount v = 1 → is_Some (vn_data v) →
   ∃ s2, vfs_close vn flags s = Ret (tt, s2) ∧ s_vnt s2 = l1 ++ l2 ∧ s_heap s2 = delete vn (s_heap s) ∧
     (x = vn → vnt_ok s2 ∧ (∀ vn' v', listed s2 vn' v' ↔ vn' ≠ vn ∧ listed s vn' v') ∧
        ((∀ vn' v', listed s vn' v' → vn_name v' = vn_name v → vn' = vn) →
         vfs_vnt_lookup (vn_name v) s2 = Ret (0, s2))) ∧
     (x ≠ vn → x ∉ s_vnt s2 ∧ (∃ w, s_heap s2 !! x = Some (OVnode w) ∧ 1 ≤ vn_opencount w) ∧
        vn ∈ s_vnt s2)).
Proof.
  intros Hok Hvn Hops. destruct (first_named_in s Hok vn v Hvn) as (l1 & x & l2 & Hf & Hx).
  exists l1, x, l2. split; [done |]. pose proof Hvn as [Hin Hv]. pose proof Hf as (El & _).
  destruct (vt_live s Hok vn Hin) as (_ & v0 & Hv0 & Hc). rewrite Hv in Hv0. injection Hv0 as <-. split.
  - intros -> Hmax. destruct (open_close_eq s l1 vn l2 flags v rec cb tk) as [E1 E2]; [done .. |].
    eexists. split; [exact E1 |]. split; [apply (vnt_ok_update s vn v); [done | done | cbn; lia] |].
    split; [| exact E2]. split; [done | cbn; apply lookup_insert_eq].
  - intros H1 Hd. destruct (last_close_eq s vn flags v l1 x l2) as (s2 & E & Ev & Eh); [done .. |].
    exists s2. split_and!; [done | done | done | |].
    + intros ->. destruct (vnt_ok_removed s s2 l1 vn l2 Hok El Ev) as [Hok2 Hl2].
      { intros y Hy. rewrite Eh. by apply lookup_delete_ne. }
      split_and!; [done | done |]. intros Hone. unfold vfs_vnt_lookup. mpure.
      apply lookup_in_none; [done | done |]. intros y w Hy Hw Ep.
      destruct (proj1 (Hl2 y w)) as [Hne Hly]; [by split |]. by apply Hne, (Hone y w).
    + intros Hne. destruct Hx as [-> | Hx]; [done |]. pose proof (vt_nodup s Hok) as Hnd.
      rewrite El in Hnd. apply NoDup_app in Hnd as (_ & H12 & H2). apply NoDup_cons in H2 as [H2 _].
      destruct (vt_live s Hok x) as (_ & w & Hw & Hcw); [rewrite El; apply elem_of_app; right; by left |].
      rewrite Ev, Eh. split_and!.
      * rewrite elem_of_app. intros [Hx1 | ?]; [apply (H12 x Hx1); by left | done].
      * exists w. by rewrite lookup_delete_ne.
      * apply elem_of_app. by right.
Qed.

(** * Examples *)

Definition file_process : process :=
  mk_proc 0 0 0 0 0 0 0 0 0 0 0 None 0 16 [] true.

Definition vnode_example : vnode :=
  mk_vnode true 1 [97] (Some (mk_nfs_data 7 None)) (mk_stat 1 256 0 (0, 0)) ops_nfs.

(** A process with descriptors 0 and 1, and one open file on the server. *)
Definition file_list : list Z := [100; 101; 0; 0; 0; 0; 0; 0; 0; 0; 0; 0; 0; 0; 0; 0].

Definition file_heap : gmap Z obj :=
  <[8 := OProcess file_process]> (<[16 := to_obj file_list]> {[24 := OVnode vnode_example]}).

Definition sos_files : sos :=
  set_s_vnt [24] (set_s_proc (mk_procst [] (-1) [] [] [] 8) (set_s_heap file_heap (sos_start env_ok ut_example))).

Lemma placefile_correct_witness :
  ∃ fd s', filetable_placefile 102 sos_files = Ret ((0, fd), s') ∧
    filetable_findfile fd s' = Ret ((0, 102), s').
Proof.
  destruct (placefile_correct sos_files file_list 102) as [[H _] | (fd & s' & l' & _ & E & _ & _ & _ & Hf)].
  - split; [reflexivity |]. exists 8, file_process. split; [reflexivity |]. split; [discriminate |].
    split; [reflexivity |]. split; [discriminate | reflexivity].
  - discriminate.
  - exfalso. rewrite Forall_forall in H. apply (H 0); [| reflexivity]. apply list_elem_of_In. simpl. tauto.
  - exists fd, s'. split; [exact E |]. rewrite Hf, Z.eqb_refl. reflexivity.
Defined.

Lemma sos_files_vnt : vnt_ok sos_files ∧ listed sos_files 24 vnode_example.
Proof.
  assert (s_heap sos_files !! 24 = Some (OVnode vnode_example)) as Hv by reflexivity.
  assert (∀ vn, vn ∈ s_vnt sos_files → vn = 24) as H24.
  { change (s_vnt sos_files) with [24]. intros vn Hvn. by apply list_elem_of_singleton in Hvn. }
  split; [split | split; [by apply list_elem_of_singleton | done]].
  - apply NoDup_singleton.
  - intros vn ->%H24. split; [done |]. by exists vnode_example.
Qed.

Lemma vnode_counting_witness :
  ∃ s2, vfs_close 24 0 sos_files = Ret (tt, s2) ∧ s_heap s2 = delete 24 (s_heap sos_files).
Proof.
  destruct sos_files_vnt as [Hok Hl].
  destruct (vnode_counting sos_files 24 0 vnode_example (λ _, mret 0) cb_file_open_end 0 Hok Hl)
    as (l1 & x & l2 & _ & _ & H).
  - reflexivity.
  - destruct H as (s2 & E & _ & Hh & _).
    + reflexivity.
    + eexists. reflexivity.
    + exists s2. split; [exact E | exact Hh].
Defined.
