(* ===== verification/Elf.v ===== *)
(** Loading an ELF file over NFS into a new address space (vm/elf.c).

    The loader reads the file header, then the program headers, then the
    loadable segments one after the other.  A segment is read in pieces that do
    not cross a page; pages are mapped as they are reached. *)

From S2P Require Import Prelude UtAllocator Sos Mapping SwapSlots FrameTable ProcTable.
From S2P Require Import AddrSpace PageTable Swap CopyInOut Clock Console NfsDev.

Definition PF_X : Z := 1.
Definition PF_W : Z := 2.
Definition PF_R : Z := 4.
Definition PT_LOAD : Z := 1.
Definition SIZEOF_ELF32_HEADER : Z := 52.
Definition SIZEOF_ELF32_PHDR : Z := 32.

Definition get_sel4_rights_from_elf (permissions : Z) : Z :=
  let r := if Z.land permissions PF_R =? 0 then 0 else seL4_CanRead in
  let r := if Z.land permissions PF_X =? 0 then r else Z.lor r seL4_CanRead in
  if Z.land permissions PF_W =? 0 then r else Z.lor r seL4_CanWrite.

(** * Reading the headers *)

(** Little-endian fields of a file image. *)
Definition byte_at (l : list Z) (i : Z) : outcome Z := rd l i.

Definition half_at (l : list Z) (i : Z) : outcome Z :=
  b0 ← rd l i;
  b1 ← rd l (i + 1);
  Ret (b0 + 2 ^ 8 * b1).

Definition word_at (l : list Z) (i : Z) : outcome Z :=
  h0 ← half_at l i;
  h1 ← half_at l (i + 2);
  Ret (h0 + 2 ^ 16 * h1).

(** [elf_checkFile] (libelf): the magic number, and the class, 1 for 32 bits;
    a file of another class is checked as a 64-bit file. *)
Definition elf_checkFile (hdr : list Z) : outcome bool :=
  m0 ← byte_at hdr 0;
  m1 ← byte_at hdr 1;
  m2 ← byte_at hdr 2;
  m3 ← byte_at hdr 3;
  cls ← byte_at hdr 4;
  let magic := (m0 =? 0x7f) && (m1 =? 69) && (m2 =? 76) && (m3 =? 70) in
  Ret (magic && ((cls =? 1) || (cls =? 2))).

(** [prog_hdrs[i]]. *)
Definition phdr_at (l : list Z) (i : Z) : outcome phdr :=
  let o := SIZEOF_ELF32_PHDR * i in
  ty ← word_at l o;
  off ← word_at l (o + 4);
  va ← word_at l (o + 8);
  fsz ← word_at l (o + 16);
  msz ← word_at l (o + 20);
  fl ← word_at l (o + 24);
  Ret (mk_phdr ty off va fsz msz fl).

(** * Loading a segment *)

Definition load_segment_end (rec : interp) (token err : Z) : M unit :=
  cont ← load token;
  _ ← call_ rec (CallErr (ls_callback cont) (ls_token cont) err);
  free token.

(** [_load_segment2]; the result of [sos_page_map] is not looked at. *)
Definition load_segment2 (rec : interp) (token err : Z) : M unit :=
  cont ← load token;
  if negb (err =? 0) then load_segment_end rec token err else
  if ls_pos cont <? ls_file_size cont then
    let vpage := PAGE_ALIGN (ls_dst cont) in
    inuse ← sos_page_is_inuse (ls_as cont) vpage;
    if negb inuse then
      _ ← inc_proc_size_proc (ls_proc cont);
      _ ← sos_page_map rec (ls_pid cont) (ls_as cont) vpage (ls_permissions cont)
            cb_load_segment2 token false;
      mret tt
    else
    '(err, kdst) ← sos_get_kvaddr (ls_as cont) (ls_dst cont);
    if negb (err =? 0) then load_segment_end rec token err else
    _ ← frame_lock_frame kdst;
    let wanna_read := Z.min NFS_SEND_SIZE (u32 (ls_file_size cont - ls_pos cont)) in
    let wanna_read := Z.min wanna_read (PAGE_SIZE - PAGE_OFFSET (ls_dst cont)) in
    _ ← store token (set_ls_wanna_read wanna_read cont);
    fh ← lift (deref (ls_fh cont));
    ok ← send_rpc (rpc_read fh (u32 (ls_file_offset cont + ls_pos cont)) wanna_read
                     cb_load_segment3 token);
    if negb ok then load_segment_end rec token EFAULT else mret tt
  else load_segment_end rec token 0.

(** [_load_segment3]: the reply with [count] bytes of the segment. *)
Definition load_segment3 (rec : interp) (token status count : Z) (data : list Z) : M unit :=
  cont ← load token;
  if negb (status =? NFS_OK) then load_segment_end rec token EFAULT else
  '(err, kdst) ← sos_get_kvaddr (ls_as cont) (ls_dst cont);
  if negb (err =? 0) then load_segment_end rec token err else
  _ ← (if ls_pos cont <? ls_file_size cont then write_mem kdst (take (Z.to_nat count) data)
       else mret tt);
  err ←
    (if negb (PAGE_ALIGN kdst =? PAGE_ALIGN (u32 (kdst + count))) ||
        (ls_file_size cont <=? u32 (ls_dst cont + ls_pos cont)) then
       _ ← frame_unlock_frame kdst;
       '(err, sos_cap) ← sos_get_kframe_cap (ls_as cont) (PAGE_ALIGN (ls_dst cont));
       if negb (err =? 0) then mret err else
       _ ← invoke (Page_Unify_Instruction sos_cap);
       mret 0
     else mret 0);
  if negb (err =? 0) then load_segment_end rec token err else
  _ ← store token (set_ls_pos (u32 (ls_pos cont + count))
                     (set_ls_dst (u32 (ls_dst cont + count)) cont));
  load_segment2 rec token err.

Definition load_segment (rec : interp) (pid asp file_offset segment_size file_size dst
    permissions proc : Z) (fh : option Z) (callback : err_cb) (token : Z) : M Z :=
  cont ← malloc (mk_ls pid asp file_offset segment_size file_size dst permissions 0 0 proc fh
                   callback token);
  if cont =? 0 then mret ENOMEM else
  _ ← load_segment2 rec cont 0;
  mret 0.

(** * Loading the file *)

Definition elf_load_end (rec : interp) (token err : Z) : M unit :=
  cont ← load token;
  _ ← call_ rec (CallElf (el_callback cont) (el_token cont) err
                   (if err =? 0 then el_entry cont else 0));
  free token.

(** [_elf_load_load_segments]: the next program header; one that is not loadable
    is skipped by calling the function again. *)
Definition elf_load_load_segments (rec : interp) (token err : Z) : M unit :=
  cont ← load token;
  if negb (err =? 0) then elf_load_end rec token err else
  if el_i cont <? el_ph_num cont then
    hdrs ← lift (deref (el_prog_hdrs cont));
    ph ← lift (phdr_at hdrs (el_i cont));
    if negb (p_type ph =? PT_LOAD) then
      _ ← store token (set_el_i (el_i cont + 1) cont);
      call_ rec (CallErr cb_elf_load_load_segments token 0)
    else
    let rights := Z.land (get_sel4_rights_from_elf (p_flags ph)) seL4_AllRights in
    err ← as_define_region (el_as cont) (p_vaddr ph) (p_memsz ph) rights;
    if negb (err =? 0) then elf_load_end rec token err else
    _ ← store token (set_el_i (el_i cont + 1) cont);
    err ← load_segment rec (el_pid cont) (el_as cont) (p_offset ph) (p_memsz ph) (p_filesz ph)
            (p_vaddr ph) rights (el_proc cont) (el_fh cont) cb_elf_load_load_segments token;
    if negb (err =? 0) then elf_load_end rec token err else mret tt
  else elf_load_end rec token 0.

Definition elf_load_read_progheaders_cb (rec : interp) (token status count : Z) (data : list Z) :
    M unit :=
  cont ← load token;
  if negb (status =? NFS_OK) || negb (count =? i32 (el_ph_size cont * el_ph_num cont)) then
    elf_load_end rec token EFAULT
  else
  ok ← malloc_ok;
  if negb ok then elf_load_end rec token ENOMEM else
  _ ← store token (set_el_prog_hdrs
        (Some (take (Z.to_nat (el_ph_num cont * el_ph_size cont)) data)) cont);
  elf_load_load_segments rec token 0.

Definition elf_load_read_elfheader_cb (rec : interp) (token status count : Z) (data : list Z) :
    M unit :=
  cont ← load token;
  if negb (status =? NFS_OK) || negb (count =? SIZEOF_ELF32_HEADER) then
    elf_load_end rec token EFAULT
  else
  good ← lift (elf_checkFile data);
  if negb good then elf_load_end rec token EINVAL else
  ph_off ← lift (word_at data 28);
  ph_num ← lift (half_at data 44);
  ph_size ← lift (half_at data 42);
  entry ← lift (word_at data 24);
  _ ← store token (set_el_entry entry (set_el_ph_size ph_size (set_el_ph_num ph_num cont)));
  fh ← lift (deref (el_fh cont));
  ok ← send_rpc (rpc_read fh (i32 ph_off) (i32 (ph_size * ph_num))
                   cb_elf_load_read_progheaders_cb token);
  if negb ok then elf_load_end rec token EFAULT else mret tt.

Definition elf_load_lookup_cb (rec : interp) (token status fh : Z) : M unit :=
  cont ← load token;
  if negb (status =? NFS_OK) then elf_load_end rec token EFAULT else
  ok ← malloc_ok;
  if negb ok then elf_load_end rec token ENOMEM else
  _ ← store token (set_el_fh (Some fh) cont);
  ok ← send_rpc (rpc_read fh 0 SIZEOF_ELF32_HEADER cb_elf_load_read_elfheader_cb token);
  if negb ok then elf_load_end rec token EFAULT else mret tt.

Definition elf_load (rec : interp) (pid asp : Z) (file_name : list Z) (proc : Z)
    (callback : elf_cb) (token : Z) : M unit :=
  cont ← malloc (mk_el 0 pid asp file_name proc None 0 None 0 0 callback token);
  if cont =? 0 then call_ rec (CallElf callback token ENOMEM 0) else
  dir ← mnt_point;
  ok ← send_rpc (rpc_lookup dir file_name cb_elf_load_lookup_cb cont);
  if negb ok then elf_load_end rec cont EFAULT else mret tt.
