(* ===== verification/Process.v ===== *)
(** Creating, destroying and waiting for processes (proc/proc.c). *)

From S2P Require Import Prelude UtAllocator Sos Mapping SwapSlots FrameTable ProcTable.
From S2P Require Import AddrSpace PageTable Swap CopyInOut Clock Console NfsDev Vfs FileTable.
From S2P Require Import Elf.

Definition PROCESS_STACK_TOP : Z := 0x90000000.
Definition PROCESS_STACK_SIZE : Z := Z.shiftl 1 24.
Definition PROCESS_IPC_BUFFER : Z := 0xA0000000.
Definition USER_PRIORITY : Z := 0.
Definition seL4_BadgeBits : Z := 28.
Definition USER_EP_BADGE : Z := Z.shiftl 1 (seL4_BadgeBits - 2).

(** * Destroying *)

(** [_free_proc_data]: a field that is 0 was never filled in. *)
Definition free_cap (cap : Z) : M unit :=
  if cap =? 0 then mret tt else _ ← invoke (Cspace_delete_cap cap); mret tt.

Definition free_ut (addr sizebits : Z) : M unit :=
  if addr =? 0 then mret tt else ut_freeM addr sizebits.

Definition free_proc_data (p : Z) : M unit :=
  proc ← load p;
  _ ← (if p_filetable proc =? 0 then mret tt else filetable_destroy (p_filetable proc));
  _ ← (if p_as proc =? 0 then mret tt else as_destroy (p_as proc));
  _ ← free_cap (tcb_cap proc);
  _ ← free_ut (tcb_addr proc) seL4_TCBBits;
  _ ← free_cap (ipc_buffer_cap proc);
  _ ← free_ut (ipc_buffer_addr proc) seL4_PageBits;
  _ ← free_cap (vroot proc);
  _ ← free_ut (vroot_addr proc) seL4_PageDirBits;
  if p_croot proc =? 0 then mret tt else _ ← invoke (Cspace_destroy (p_croot proc)); mret tt.

(** Call back every waiter in a queue. *)
Fixpoint wake_all (rec : interp) (q : list (wait_cb * Z)) (pid : Z) : M unit :=
  match q with
  | [] => mret tt
  | (cb, token) :: q' =>
      _ ← call_ rec (CallWait cb token pid);
      wake_all rec q' pid
  end.

Definition proc_destroy (rec : interp) (pid : Z) : M Z :=
  p ← proc_getproc pid;
  if p =? 0 then mret EINVAL else
  proc ← load p;
  if negb (p_initialised proc) then mret EFAULT else
  _ ← free_proc_slot (p_pid proc);
  _ ← free_proc_data p;
  q ← gets (λ s, wait_queue (s_proc s));
  _ ← wake_all rec q pid;
  _ ← mod_proc (set_wait_queue []);
  proc ← load p;
  _ ← wake_all rec (p_wait_queue proc) pid;
  _ ← update p (set_p_wait_queue []);
  _ ← free p;
  mret 0.

(** * Waiting *)

(** The slot loop of [proc_wait]: the process in the first slot that has this
    id. *)
Fixpoint find_proc (ps : list Z) (pid : Z) : M Z :=
  match ps with
  | [] => mret 0
  | p :: ps' =>
      if p =? 0 then find_proc ps' pid else
      proc ← load p;
      if p_pid proc =? pid then mret p else find_proc ps' pid
  end.

Definition proc_wait (pid : Z) (callback : wait_cb) (token : Z) : M Z :=
  if pid =? -1 then
    ok ← malloc_ok;
    if negb ok then mret ENOMEM else
    _ ← mod_proc (λ t, set_wait_queue ((callback, token) :: wait_queue t) t);
    mret 0
  else
  ps ← gets (λ s, processes (s_proc s));
  p ← find_proc ps pid;
  if p =? 0 then mret EINVAL else
  ok ← malloc_ok;
  if negb ok then mret ENOMEM else
  _ ← update p (λ r, set_p_wait_queue ((callback, token) :: p_wait_queue r) r);
  mret 0.

(** * Creating *)

Definition proc_create_end (rec : interp) (token err : Z) : M unit :=
  cont ← load token;
  if negb (err =? 0) then
    _ ← (if pc_proc cont =? 0 then mret tt else
         proc ← load (pc_proc cont);
         _ ← free_proc_slot (p_pid proc);
         _ ← free_proc_data (pc_proc cont);
         free (pc_proc cont));
    _ ← call_ rec (CallProc (pc_callback cont) (pc_token cont) err (-1));
    free token
  else
  _ ← update (pc_proc cont) (set_p_initialised true);
  proc ← load (pc_proc cont);
  _ ← call_ rec (CallProc (pc_callback cont) (pc_token cont) err (p_pid proc));
  free token.

Definition proc_create_part4 (rec : interp) (token err : Z) : M unit :=
  if negb (err =? 0) then proc_create_end rec token err else
  cont ← load token;
  proc ← load (pc_proc cont);
  _ ← invoke (TCB_WriteRegisters (tcb_cap proc) (pc_elf_entry cont) PROCESS_STACK_TOP);
  proc_create_end rec token 0.

Definition proc_create_part3 (rec : interp) (token err elf_entry : Z) : M unit :=
  if negb (err =? 0) then proc_create_end rec token err else
  _ ← update token (set_pc_elf_entry elf_entry);
  cont ← load token;
  proc ← load (pc_proc cont);
  _ ← as_define_stack (p_as proc) PROCESS_STACK_TOP PROCESS_STACK_SIZE;
  a ← load (p_as proc);
  if bool_decide (as_stack a = None) then proc_create_end rec token EFAULT else
  _ ← as_define_heap (p_as proc);
  a ← load (p_as proc);
  if bool_decide (as_heap a = None) then proc_create_end rec token EFAULT else
  err ← map_page (ipc_buffer_cap proc) (vroot proc) PROCESS_IPC_BUFFER seL4_AllRights
          seL4_ARM_Default_VMAttributes;
  if negb (err =? 0) then proc_create_end rec token EFAULT else
  _ ← inc_proc_size_proc (pc_proc cont);
  ftp ← malloc (replicate (Z.to_nat PROCESS_MAX_FILES) 0 : list Z);
  _ ← update (pc_proc cont) (set_p_filetable ftp);
  if ftp =? 0 then proc_create_end rec token ENOMEM else
  err ← filetable_init rec ftp cb_proc_create_part4 token;
  if negb (err =? 0) then proc_create_end rec token err else mret tt.

(** The characters up to the terminator. *)
Fixpoint c_str (l : list Z) : list Z :=
  match l with
  | [] => []
  | ch :: l' => if ch =? 0 then [] else ch :: c_str l'
  end.

Definition proc_create_part2 (rec : interp) (token asp : Z) : M unit :=
  if asp =? 0 then proc_create_end rec token EFAULT else
  cont ← load token;
  _ ← update (pc_proc cont) (set_p_as asp);
  proc ← load (pc_proc cont);
  elf_load rec (p_pid proc) asp (c_str (default [] (p_name proc))) (pc_proc cont)
    cb_proc_create_part3 token.

(** [strncpy(name, path, len); name[len] = 0]. *)
Definition name_of (path : list Z) (len : Z) : list Z :=
  let n := Z.to_nat len in
  take n path ++ replicate (n - length path) 0 ++ [0].

Definition new_process (len stime : Z) : process :=
  mk_proc 0 0 0 0 0 0 0 0 (-1) 0 stime None len 0 [] false.

(** The first half of [proc_create]: a slot and an id for the new process. *)
Definition take_slot (p : Z) : M unit :=
  t ← gets s_proc;
  let i := first_free_pslot t in
  ps ← lift (wr (processes t) i p);
  _ ← mod_proc (set_processes ps);
  pid ← lift (rd (next_free_pid t) i);
  _ ← update p (set_p_pid pid);
  nf ← lift (wr (next_free_pid t) i (cal_next_free_pid pid i));
  _ ← mod_proc (set_next_free_pid nf);
  next ← lift (rd (next_free_pslot t) i);
  _ ← mod_proc (set_first_free_pslot next);
  ns ← lift (wr (next_free_pslot t) i (-1));
  mod_proc (set_next_free_pslot ns).

(** The kernel objects of the process: the error code, 0 when all are there. *)
Definition create_objects (p fault_ep : Z) : M Z :=
  vroot_addr ← ut_allocM seL4_PageDirBits;
  _ ← update p (set_vroot_addr vroot_addr);
  if vroot_addr =? 0 then mret ENOMEM else
  '(err, cap) ← cspace_ut_retype_addr vroot_addr seL4_ARM_PageDirectoryObject seL4_PageDirBits;
  if negb (err =? 0) then mret EFAULT else
  _ ← update p (set_vroot cap);
  croot ← invoke Cspace_create;
  _ ← update p (set_p_croot croot);
  if croot =? 0 then mret EFAULT else
  ipc_addr ← ut_allocM seL4_PageBits;
  _ ← update p (set_ipc_buffer_addr ipc_addr);
  if ipc_addr =? 0 then mret ENOMEM else
  '(err, cap) ← cspace_ut_retype_addr ipc_addr seL4_ARM_SmallPageObject seL4_PageBits;
  if negb (err =? 0) then mret EFAULT else
  _ ← update p (set_ipc_buffer_cap cap);
  proc ← load p;
  user_ep_cap ← invoke (Cspace_mint_cap croot fault_ep seL4_AllRights
                          (Z.lor USER_EP_BADGE (p_pid proc)));
  tcb_addr ← ut_allocM seL4_TCBBits;
  _ ← update p (set_tcb_addr tcb_addr);
  if tcb_addr =? 0 then mret ENOMEM else
  '(err, cap) ← cspace_ut_retype_addr tcb_addr seL4_TCBObject seL4_TCBBits;
  if negb (err =? 0) then mret EFAULT else
  _ ← update p (set_tcb_cap cap);
  proc ← load p;
  err ← invoke (TCB_Configure (tcb_cap proc) user_ep_cap USER_PRIORITY croot (vroot proc)
                  PROCESS_IPC_BUFFER (ipc_buffer_cap proc));
  mret (if err =? 0 then 0 else EFAULT).

(** The result of [as_create] is not looked at. *)
Definition proc_create (rec : interp) (path : list Z) (len fault_ep : Z) (callback : proc_cb)
    (token : Z) : M unit :=
  cont ← malloc (mk_pc 0 0 callback token);
  if cont =? 0 then call_ rec (CallProc callback token ENOMEM (-1)) else
  p ← malloc (new_process len 0);
  if p =? 0 then proc_create_end rec cont ENOMEM else
  ts ← time_stamp;
  _ ← update p (set_p_stime (u32 ts / 1000));
  _ ← update cont (set_pc_proc p);
  slot ← gets (λ s, first_free_pslot (s_proc s));
  if slot =? -1 then proc_create_end rec cont EFAULT else
  _ ← take_slot p;
  ok ← malloc_ok;
  if negb ok then proc_create_end rec cont ENOMEM else
  _ ← update p (set_p_name (Some (name_of path len)));
  err ← create_objects p fault_ep;
  if negb (err =? 0) then proc_create_end rec cont err else
  proc ← load p;
  _ ← as_create rec (vroot proc) cb_proc_create_part2 cont;
  mret tt.
