(* ===== verification/Vm.v ===== *)
(** Page faults (vm/vm.c).

    A fault outside the regions of the process, or against their rights, ends
    the process.  Otherwise the page is swapped in, mapped again when it was
    only unmapped by the second chance algorithm, or given a new frame; the
    process is then answered, whether or not that worked. *)

From S2P Require Import Prelude UtAllocator Sos Mapping SwapSlots FrameTable ProcTable.
From S2P Require Import AddrSpace PageTable Swap CopyInOut Clock Console NfsDev Vfs FileTable.
From S2P Require Import Elf Process.

Definition RW_BIT : Z := Z.shiftl 1 11.

(** [_check_segfault]: the region of the address, or [None] for a fault. *)
Definition check_segfault (asp fault_addr fsr : Z) : M (option region) :=
  if fault_addr =? 0 then mret None else
  reg ← region_probe asp fault_addr;
  match reg with
  | None => mret None
  | Some r =>
      let fault_when_write := negb (Z.land fsr RW_BIT =? 0) in
      if fault_when_write && (Z.land (r_rights r) seL4_CanWrite =? 0) then mret None
      else if negb fault_when_write && (Z.land (r_rights r) seL4_CanRead =? 0) then mret None
      else mret (Some r)
  end.

(** [_set_page_reference]: of the errors of [seL4_ARM_Page_Map] only a failed
    lookup is noticed. *)
Definition set_page_reference (asp vaddr rights : Z) : M Z :=
  let vpage := PAGE_ALIGN vaddr in
  let x := PT_L1_INDEX vpage in
  let y := PT_L2_INDEX vpage in
  a ← load asp;
  regs ← pd_get (as_pd_regs a) x;
  if regs =? 0 then mret EINVAL else
  pte ← pt_get (as_pd_regs a) x y;
  let kvaddr := pte_kvaddr pte in
  '(err, kframe_cap) ← frame_get_cap kvaddr;
  frame_cap ← invoke (Cspace_copy_cap kframe_cap rights);
  if frame_cap =? 0 then mret EFAULT else
  err ← invoke (Page_Map frame_cap (as_sel4_pd a) vpage rights seL4_ARM_Default_VMAttributes);
  if err =? seL4_FailedLookup then mret EFAULT else
  _ ← pt_set (as_pd_caps a) x y frame_cap;
  frame_set_referenced kvaddr.

Definition sos_VMFaultHandler_reply (token err : Z) : M unit :=
  cont ← load token;
  alive ← is_proc_alive (vmf_pid cont);
  if negb alive then
    _ ← cspace_free_slot (vmf_reply_cap cont);
    free token
  else
  _ ← (if err =? 0 then
         let vpage := PAGE_ALIGN (vmf_vaddr cont) in
         a ← load (vmf_as cont);
         pte ← pt_get (as_pd_regs a) (PT_L1_INDEX vpage) (PT_L2_INDEX vpage);
         '(err, kframe_cap) ← frame_get_cap (pte_kvaddr pte);
         invoke (Page_Unify_Instruction kframe_cap)
       else mret 0);
  _ ← seL4_Send (vmf_reply_cap cont) 0 [];
  _ ← cspace_free_slot (vmf_reply_cap cont);
  _ ← free token;
  set_cur_proc PROC_NULL.

Definition sos_VMFaultHandler (rec : interp) (reply_cap fault_addr fsr : Z) (is_code : bool) :
    M unit :=
  asp ← proc_getas;
  if asp =? 0 then
    _ ← set_cur_proc PROC_NULL;
    cspace_free_slot reply_cap
  else
  reg ← check_segfault asp fault_addr fsr;
  match reg with
  | None =>
      pid ← proc_get_id;
      _ ← proc_destroy rec pid;
      _ ← set_cur_proc PROC_NULL;
      cspace_free_slot reply_cap
  | Some r =>
      pid ← proc_get_id;
      cont ← malloc (mk_vmf reply_cap asp fault_addr is_code r pid);
      if cont =? 0 then
        _ ← set_cur_proc PROC_NULL;
        _ ← seL4_Send reply_cap 0 [];
        cspace_free_slot reply_cap
      else
      inuse ← sos_page_is_inuse asp fault_addr;
      if (inuse : bool) then
        swapped ← sos_page_is_swapped asp fault_addr;
        if (swapped : bool) then
          err ← swap_in rec asp (r_rights r) fault_addr is_code cb_sos_VMFaultHandler_reply cont;
          if negb (err =? 0) then sos_VMFaultHandler_reply cont err else mret tt
        else
        locked ← sos_page_is_locked asp fault_addr;
        if (locked : bool) then sos_VMFaultHandler_reply cont EFAULT else
        err ← set_page_reference asp fault_addr (r_rights r);
        sos_VMFaultHandler_reply cont err
      else
        p ← cur_proc;
        _ ← inc_proc_size_proc p;
        err ← sos_page_map rec pid asp fault_addr (r_rights r) cb_sos_VMFaultHandler_reply cont
                false;
        if negb (err =? 0) then
          p ← cur_proc;
          _ ← dec_proc_size_proc p;
          sos_VMFaultHandler_reply cont err
        else mret tt
  end.
