(* ===== verification/Syscalls.v ===== *)
(** The system calls (syscall/file_syscalls.c, proc_syscalls.c, time_syscalls.c,
    vm_syscalls.c).

    Every call ends by answering the caller through its saved reply capability
    and giving the capability's slot back; a call that has to wait keeps the
    capability in its continuation.  A caller that was killed in the meantime is
    not answered. *)

From S2P Require Import Prelude UtAllocator Sos Mapping SwapSlots FrameTable ProcTable.
From S2P Require Import AddrSpace PageTable Swap CopyInOut Clock Console NfsDev Vfs FileTable.
From S2P Require Import Elf Process.

Definition MAX_SERIAL_TRY : Z := 0x100.
Definition MAX_NAME_LEN : Z := 255.
Definition MINUS1 : Z := 2 ^ 32 - 1.

(** [set_cur_proc(PROC_NULL)], the reply and the release of its slot, as nearly
    every call ends. *)
Definition reply_to (reply_cap label : Z) (mrs : list Z) : M unit :=
  _ ← set_cur_proc PROC_NULL;
  _ ← seL4_Send reply_cap label mrs;
  cspace_free_slot reply_cap.

(** * Print *)

(** [serial] says whether [serial_init] gave a port; [serial_send] follows the pointer. *)
Fixpoint print_loop (n : nat) (serial : bool) (msg : list Z) (sent : Z) : M Z :=
  match n with
  | O => mret sent
  | S n' =>
      if sent <? Zlength msg then
        _ ← (if serial then mret tt else fail NullDeref);
        k ← ask e_serial;
        let k := Z.max 0 (Z.min k (Zlength msg - sent)) in
        _ ← emit (EvSerial (take (Z.to_nat k) (drop (Z.to_nat sent) msg)));
        print_loop n' serial msg (sent + k)
      else mret sent
  end.

Definition serv_sys_print (reply_cap : Z) (message : list Z) : M unit :=
  serial ← serial_init;
  sent ← print_loop (Z.to_nat MAX_SERIAL_TRY) serial message 0;
  reply_to reply_cap 0 [u32 sent].

(** * Open *)

(** The test [kbuf == NULL] before [free(kbuf)] is the one of the source. *)
Definition serv_sys_open_end (token err fd : Z) : M unit :=
  _ ← assertM (negb (token =? 0));
  cont ← load token;
  alive ← is_proc_alive (open_pid cont);
  if negb alive then
    _ ← cspace_free_slot (open_reply_cap cont);
    free token
  else
  _ ← set_cur_proc PROC_NULL;
  _ ← (if open_kbuf cont =? 0 then free (open_kbuf cont) else mret tt);
  _ ← seL4_Send (open_reply_cap cont) (u32 err) [u32 fd];
  _ ← cspace_free_slot (open_reply_cap cont);
  free token.

(** The string in a buffer of [n] bytes. *)
Definition read_string (p n : Z) : M (list Z) :=
  l ← read_mem p n;
  mret (c_str l).

Definition serv_sys_open_copyin_cb (rec : interp) (token err : Z) : M unit :=
  if negb (err =? 0) then serv_sys_open_end token err (-1) else
  cont ← load token;
  _ ← write_mem (open_kbuf cont + open_nbyte cont) [0];
  path ← read_string (open_kbuf cont) (open_nbyte cont + 1);
  if bool_decide (path = SWAP_FILE_NAME) then serv_sys_open_end token EINVAL (-1) else
  file_open rec path (i32 (open_flags cont)) cb_serv_sys_open_end token.

Definition serv_sys_open (rec : interp) (reply_cap path nbyte flags : Z) : M unit :=
  pid ← proc_get_id;
  cont ← malloc (mk_open reply_cap 0 nbyte flags pid);
  if cont =? 0 then reply_to reply_cap ENOMEM [MINUS1] else
  asp ← proc_getas;
  valid ← (if MAX_NAME_LEN <? nbyte then mret false else
           '(v, _) ← as_is_valid_memory asp path nbyte; mret v);
  if negb valid then serv_sys_open_end cont EINVAL (-1) else
  kbuf ← malloc_buf (MAX_NAME_LEN + 1);
  _ ← update cont (set_open_kbuf kbuf);
  if kbuf =? 0 then serv_sys_open_end cont ENOMEM (-1) else
  err ← copyin rec kbuf path nbyte cb_serv_sys_open_copyin_cb cont;
  if negb (err =? 0) then serv_sys_open_end cont err (-1) else mret tt.

(** * Close *)

(** [err = err || file_close(fd)]. *)
Definition serv_sys_close (reply_cap fd : Z) : M unit :=
  err ← (if (fd <? 0) || (PROCESS_MAX_FILES <=? fd) then mret 1 else
         e ← file_close fd;
         mret (if e =? 0 then 0 else 1));
  reply_to reply_cap err [].

(** * Read *)

Definition serv_sys_read_end (rec : interp) (token err size : Z) (more : bool) : M unit :=
  cont ← load token;
  alive ← is_proc_alive (read_pid cont);
  if negb alive then
    _ ← cspace_free_slot (read_reply_cap cont);
    free token
  else
  _ ← (if err =? 0 then
         _ ← update (read_file cont) (λ f, set_of_offset (u64 (of_offset f + size)) f);
         store token (set_read_bytes_read (u32 (read_bytes_read cont + size)) cont)
       else mret tt);
  cont ← load token;
  if negb (err =? 0) || negb more || (read_bytes_wanted cont <=? read_bytes_read cont) then
    _ ← reply_to (read_reply_cap cont) (u32 err) [read_bytes_read cont];
    free token
  else
  f ← load (read_file cont);
  VOP_READ rec (of_vnode f) (u32 (read_buf cont + read_bytes_read cont))
    (Z.min (u32 (read_bytes_wanted cont - read_bytes_read cont)) MAX_IO_BUF)
    (u32 (of_offset f)) cb_serv_sys_read_end token.

(** The rights stored in [permissions]; it starts as 0. *)
Definition serv_sys_read (rec : interp) (reply_cap fd buf nbyte : Z) : M unit :=
  pid ← proc_get_id;
  cont ← malloc (mk_read reply_cap 0 0 nbyte buf pid);
  if cont =? 0 then reply_to reply_cap ENOMEM [0] else
  inval ← (if (fd <? 0) || (PROCESS_MAX_FILES <=? fd) then mret true else
           asp ← proc_getas;
           '(v, perm) ← as_is_valid_memory asp buf nbyte;
           mret (negb v || (Z.land (default 0 perm) seL4_CanWrite =? 0)));
  if (inval : bool) then serv_sys_read_end rec cont EINVAL 0 false else
  '(err, file) ← filetable_findfile fd;
  if negb (err =? 0) then serv_sys_read_end rec cont EINVAL 0 false else
  _ ← update cont (set_read_file file);
  f ← load file;
  if negb (of_accmode f =? O_RDWR) && negb (of_accmode f =? O_RDONLY) then
    serv_sys_read_end rec cont EACCES 0 false
  else
  VOP_READ rec (of_vnode f) buf (Z.min nbyte MAX_IO_BUF) (u32 (of_offset f))
    cb_serv_sys_read_end cont.

(** * Write *)

Definition serv_sys_write_end (token err : Z) : M unit :=
  cont ← load token;
  alive ← is_proc_alive (write_pid cont);
  if negb alive then
    _ ← (if write_kbuf cont =? 0 then mret 0 else frame_free (write_kbuf cont));
    _ ← cspace_free_slot (write_reply_cap cont);
    free token
  else
  _ ← reply_to (write_reply_cap cont) (u32 err) [write_byte_written cont];
  _ ← (if write_kbuf cont =? 0 then mret 0 else frame_free (write_kbuf cont));
  free token.

Definition serv_sys_write_do_write (rec : interp) (token err : Z) : M unit :=
  _ ← assertM (negb (token =? 0));
  if negb (err =? 0) then serv_sys_write_end token err else
  cont ← load token;
  f ← load (write_file cont);
  VOP_WRITE rec (of_vnode f) (write_kbuf cont) (write_wanna_send cont) (u32 (of_offset f))
    cb_serv_sys_write_copyin token.

Definition serv_sys_write_copyin (rec : interp) (token err size : Z) : M unit :=
  _ ← assertM (negb (token =? 0));
  if negb (err =? 0) then serv_sys_write_end token err else
  cont ← load token;
  _ ← update (write_file cont) (λ f, set_of_offset (u64 (of_offset f + size)) f);
  let written := u32 (write_byte_written cont + size) in
  _ ← store token (set_write_byte_written written cont);
  if written <? write_nbyte cont then
    let vaddr := u32 (write_buf cont + written) in
    let wanna_send := u32 (PAGE_SIZE - (vaddr - PAGE_ALIGN vaddr)) in
    let wanna_send := Z.min wanna_send (u32 (write_nbyte cont - written)) in
    _ ← update token (set_write_wanna_send wanna_send);
    err ← copyin rec (write_kbuf cont) vaddr wanna_send cb_serv_sys_write_do_write token;
    if negb (err =? 0) then serv_sys_write_end token EINVAL else mret tt
  else serv_sys_write_end token 0.

Definition serv_sys_write_get_kbuf (rec : interp) (token kvaddr : Z) : M unit :=
  if kvaddr =? 0 then serv_sys_write_end token ENOMEM else
  _ ← update token (set_write_kbuf kvaddr);
  serv_sys_write_copyin rec token 0 0.

Definition serv_sys_write (rec : interp) (reply_cap fd buf nbyte : Z) : M unit :=
  pid ← proc_get_id;
  cont ← malloc (mk_write reply_cap 0 buf 0 nbyte 0 0 pid);
  if cont =? 0 then reply_to reply_cap ENOMEM [0] else
  asp ← proc_getas;
  inval ← (if (fd <? 0) || (PROCESS_MAX_FILES <=? fd) then mret true else
           '(v, _) ← as_is_valid_memory asp buf nbyte;
           mret (negb v));
  if (inval : bool) then serv_sys_write_end cont EINVAL else
  '(err, file) ← filetable_findfile fd;
  if negb (err =? 0) then serv_sys_write_end cont EINVAL else
  _ ← update cont (set_write_file file);
  f ← load file;
  if negb (of_accmode f =? O_RDWR) && negb (of_accmode f =? O_WRONLY) then
    serv_sys_write_end cont EACCES
  else
  err ← frame_alloc rec 0 0 PROC_NULL true cb_serv_sys_write_get_kbuf cont;
  if negb (err =? 0) then serv_sys_write_end cont EFAULT else mret tt.

(** * Directory entries *)

Definition serv_sys_getdirent_end (token err size : Z) : M unit :=
  cont ← load token;
  alive ← is_proc_alive (gd_pid cont);
  if negb alive then
    _ ← cspace_free_slot (gd_reply_cap cont);
    free token
  else
  _ ← reply_to (gd_reply_cap cont) (u32 err) [u32 size];
  free token.

(** The memory check uses the size of a [sos_stat_t], not [nbyte]. *)
Definition serv_sys_getdirent (rec : interp) (reply_cap pos name nbyte : Z) : M unit :=
  pid ← proc_get_id;
  cont ← malloc (mk_gd reply_cap pid);
  if cont =? 0 then reply_to reply_cap ENOMEM [0] else
  asp ← proc_getas;
  '(v, perm) ← as_is_valid_memory asp name SIZEOF_STAT;
  if negb v || (Z.land (default 0 perm) seL4_CanWrite =? 0) then
    serv_sys_getdirent_end cont EINVAL 0
  else
  vn ← vfs_vnt_lookup ROOT_PATH;
  if vn =? 0 then serv_sys_getdirent_end cont ENOMEM 0 else
  VOP_GETDIRENT rec vn name nbyte pos cb_serv_sys_getdirent_end cont.

(** * Stat *)

Definition serv_sys_stat_end (token err : Z) : M unit :=
  _ ← assertM (negb (token =? 0));
  cont ← load token;
  alive ← is_proc_alive (cstat_pid cont);
  if negb alive then
    _ ← cspace_free_slot (cstat_reply_cap cont);
    free token
  else
  _ ← set_cur_proc PROC_NULL;
  _ ← free (cstat_kbuf cont);
  _ ← seL4_Send (cstat_reply_cap cont) (u32 err) [];
  _ ← cspace_free_slot (cstat_reply_cap cont);
  free token.

Definition serv_sys_stat_copyin_cb (rec : interp) (token err : Z) : M unit :=
  if negb (err =? 0) then serv_sys_stat_end token err else
  cont ← load token;
  _ ← write_mem (cstat_kbuf cont + cstat_path_len cont) [0];
  path ← read_string (cstat_kbuf cont) (cstat_path_len cont + 1);
  vfs_stat rec path (cstat_buf cont) cb_serv_sys_stat_end token.

(** The length of the path is not compared with the size of the buffer. *)
Definition serv_sys_stat (rec : interp) (reply_cap path path_len buf : Z) : M unit :=
  pid ← proc_get_id;
  cont ← malloc (mk_cstat reply_cap 0 buf path_len pid);
  if cont =? 0 then reply_to reply_cap ENOMEM [] else
  asp ← proc_getas;
  '(v, perm) ← as_is_valid_memory asp buf SIZEOF_STAT;
  if negb v || (Z.land (default 0 perm) seL4_CanWrite =? 0) then
    serv_sys_stat_end cont EINVAL
  else
  '(v, perm2) ← as_is_valid_memory asp path path_len;
  if negb v || (Z.land (default (default 0 perm) perm2) seL4_CanRead =? 0) then
    serv_sys_stat_end cont EINVAL
  else
  kbuf ← malloc_buf (MAX_NAME_LEN + 1);
  _ ← update cont (set_cstat_kbuf kbuf);
  if kbuf =? 0 then serv_sys_stat_end cont ENOMEM else
  err ← copyin rec kbuf path path_len cb_serv_sys_stat_copyin_cb cont;
  if negb (err =? 0) then serv_sys_stat_end cont err else mret tt.

(** * Processes *)

Definition serv_proc_create_end (token err pid : Z) : M unit :=
  cont ← load token;
  _ ← reply_to (spc_reply_cap cont) (u32 err) [u32 pid];
  _ ← free (spc_kpath cont);
  free token.

Definition serv_proc_create_part2 (rec : interp) (token err : Z) : M unit :=
  cont ← load token;
  if negb (err =? 0) then serv_proc_create_end token err (-1) else
  _ ← write_mem (spc_kpath cont + spc_len cont) [0];
  path ← read_string (spc_kpath cont) (spc_len cont + 1);
  proc_create rec path (spc_len cont) (spc_fault_ep cont) cb_serv_proc_create_end token.

Definition serv_proc_create (rec : interp) (path len fault_ep reply_cap : Z) : M unit :=
  cont ← malloc (mk_spc 0 len fault_ep reply_cap);
  if cont =? 0 then reply_to reply_cap ENOMEM [MINUS1] else
  asp ← proc_getas;
  '(v, perm) ← as_is_valid_memory asp path len;
  if negb v || (Z.land (default 0 perm) seL4_CanRead =? 0) then
    serv_proc_create_end cont EINVAL (-1)
  else
  kpath ← malloc_buf (u32 (len + 1));
  _ ← update cont (set_spc_kpath kpath);
  if kpath =? 0 then serv_proc_create_end cont ENOMEM (-1) else
  err ← copyin rec kpath path len cb_serv_proc_create_part2 cont;
  if negb (err =? 0) then serv_proc_create_end cont err (-1) else mret tt.

Definition serv_proc_destroy (rec : interp) (pid reply_cap : Z) : M unit :=
  cur_pid ← proc_get_id;
  err ← proc_destroy rec pid;
  _ ← (if pid =? cur_pid then mret tt else
       _ ← seL4_Send reply_cap (u32 err) [u32 err];
       cspace_free_slot reply_cap);
  set_cur_proc PROC_NULL.

Definition serv_proc_get_id (reply_cap : Z) : M unit :=
  id ← proc_get_id;
  reply_to reply_cap 0 [u32 id].

Definition serv_proc_wait_cb (token pid : Z) : M unit :=
  _ ← assertM (negb (token =? 0));
  cont ← load token;
  alive ← is_proc_alive (spw_pid cont);
  _ ← (if (alive : bool) then
         _ ← set_cur_proc PROC_NULL;
         seL4_Send (spw_reply_cap cont) 0 [u32 pid]
       else mret tt);
  _ ← cspace_free_slot (spw_reply_cap cont);
  free token.

Definition serv_proc_wait (pid reply_cap : Z) : M unit :=
  cur_pid ← proc_get_id;
  cont ← malloc (mk_spw reply_cap cur_pid);
  if cont =? 0 then
    _ ← seL4_Send reply_cap 0 [MINUS1];
    _ ← cspace_free_slot reply_cap;
    set_cur_proc PROC_NULL
  else
  err ← proc_wait pid cb_serv_proc_wait_cb cont;
  if negb (err =? 0) then serv_proc_wait_cb cont (-1) else mret tt.

(** [sos_process_t]: three words and a name of [N_NAME] bytes. *)
Definition N_NAME : Z := 32.
Definition SIZEOF_SOS_PROCESS : Z := 12 + N_NAME.

Definition serv_proc_status_end (token err : Z) : M unit :=
  cont ← load token;
  _ ← free (sps_kbuf cont);
  alive ← is_proc_alive (sps_pid cont);
  _ ← (if (alive : bool) then
         _ ← set_cur_proc PROC_NULL;
         seL4_Send (sps_reply_cap cont) (u32 err) [sps_num cont]
       else mret tt);
  _ ← cspace_free_slot (sps_reply_cap cont);
  free token.

(** The loop over the process slots; [num] entries are filled in.  The test
    against [max] comes after an entry is written. *)
Fixpoint status_loop (ps : list Z) (kbuf num max : Z) : M Z :=
  match ps with
  | [] => mret num
  | p :: ps' =>
      if p =? 0 then status_loop ps' kbuf num max else
      proc ← load p;
      ts ← time_stamp;
      let e := kbuf + SIZEOF_SOS_PROCESS * num in
      name ← lift (deref (p_name proc));
      _ ← write_mem e (word_bytes (u32 (p_pid proc)) ++ word_bytes (u32 (p_size proc)) ++
                       word_bytes (u32 (u32 ts / 1000 - p_stime proc)));
      _ ← write_mem (e + 12) (take (Z.to_nat (p_name_len proc)) name);
      _ ← write_mem (e + 12 + p_name_len proc) [0];
      if max <=? num + 1 then mret (num + 1) else status_loop ps' kbuf (num + 1) max
  end.

Definition serv_proc_status (rec : interp) (buf max reply_cap : Z) : M unit :=
  pid ← proc_get_id;
  cont ← malloc (mk_sps 0 0 reply_cap pid);
  if cont =? 0 then reply_to reply_cap ENOMEM [] else
  asp ← proc_getas;
  let bytes := SIZEOF_SOS_PROCESS * Z.min MAX_PROC max in
  '(v, perm) ← as_is_valid_memory asp buf bytes;
  if negb v || (Z.land (default 0 perm) seL4_CanWrite =? 0) then
    serv_proc_status_end cont EINVAL
  else
  kbuf ← malloc_buf bytes;
  if kbuf =? 0 then serv_proc_status_end cont ENOMEM else
  _ ← update cont (set_sps_kbuf kbuf);
  ps ← gets (λ s, processes (s_proc s));
  num ← status_loop ps kbuf 0 max;
  _ ← update cont (set_sps_num num);
  err ← copyout rec buf kbuf (SIZEOF_SOS_PROCESS * Z.min num max) cb_serv_proc_status_end cont;
  if negb (err =? 0) then serv_proc_status_end cont err else mret tt.

(** * Time *)

Definition serv_sys_timestamp (reply_cap : Z) : M unit :=
  ts ← time_stamp;
  reply_to reply_cap 0 [ts mod 2 ^ 32; ts / 2 ^ 32].

Definition sleep_callback (data : Z) : M unit :=
  state ← load data;
  alive ← is_proc_alive (sl_pid state);
  if negb alive then
    _ ← cspace_free_slot (sl_reply_cap state);
    free data
  else
  _ ← reply_to (sl_reply_cap state) 0 [];
  free data.

(** The result of [register_timer] is not looked at. *)
Definition sys_sleep (reply_cap msec : Z) : M Z :=
  let delay := u64 (msec * 1000) in
  pid ← proc_get_id;
  state ← malloc (mk_sleep reply_cap pid);
  if state =? 0 then mret ENOMEM else
  _ ← register_timer delay cb_sleep_callback state;
  mret 0.

Definition serv_sys_sleep (reply_cap msec : Z) : M unit :=
  err ← sys_sleep reply_cap msec;
  if negb (err =? 0) then reply_to reply_cap err [] else mret tt.

(** * Memory *)

(** The new break is sent in the label of the message. *)
Definition serv_sys_sbrk (reply_cap newbrk : Z) : M unit :=
  asp ← proc_getas;
  r ← sos_sys_brk asp newbrk;
  reply_to reply_cap r [].
