(* ===== verification/Dma.v ===== *)
(** Memory for devices (dev/dma.c): a pool that is handed out from its start and
    never taken back. *)

From S2P Require Import Prelude UtAllocator Sos Mapping.

Definition DMA_VSTART : Z := 0x10000000.
Definition DMA_SIZE_BITS : Z := 22.
Definition DMA_VEND : Z := DMA_VSTART + Z.shiftl 1 DMA_SIZE_BITS.
Definition DMA_ALIGN_BITS : Z := 7.

Definition DMA_SIZE (d : dmast) : Z := u32 (dma_pend d - dma_pstart d).
Definition DMA_PAGES (d : dmast) : Z := Z.shiftr (DMA_SIZE d) seL4_PageBits.

Definition PHYS (d : dmast) (vaddr : Z) : Z := u32 (vaddr - DMA_VSTART + dma_pstart d).
Definition VIRT (d : dmast) (paddr : Z) : Z := u32 (paddr + DMA_VSTART - dma_pstart d).

(** [ROUND_UP(n, b)] of sel4's utility headers: up to a multiple of [b]. *)
Definition ROUND_UP (n b : Z) : Z :=
  if n mod b =? 0 then n else u32 (n + (b - n mod b)).

(** The alignment is written as the number of bits. *)
Definition DMA_ALIGN (a : Z) : Z := ROUND_UP a DMA_ALIGN_BITS.

Definition mod_dma (f : dmast → dmast) : M unit := modify (λ s, set_s_dma (f (s_dma s)) s).

(** The loop of [_dma_fill]; [i] is the index of [caps]. *)
Fixpoint dma_fill_loop (fuel : nat) (pstart pend i : Z) : M unit :=
  match fuel with
  | O => fail OutOfFuel
  | S fuel' =>
      if pstart <? pend then
        d ← gets s_dma;
        cap ← lift (rd (dma_caps d) i);
        _ ← (if cap =? 0 then
               '(err, cap') ← cspace_ut_retype_addr pstart seL4_ARM_SmallPageObject seL4_PageBits;
               _ ← assertM (err =? 0);
               caps ← lift (wr (dma_caps d) i cap');
               _ ← mod_dma (set_dma_caps caps);
               err ← map_page cap' seL4_CapInitThreadPD (VIRT d pstart) seL4_AllRights 0;
               assertM (err =? 0)
             else mret tt);
        dma_fill_loop fuel' (pstart + 2 ^ seL4_PageBits) pend (i + 1)
      else mret tt
  end.

(** One page more than the range spans is enough fuel. *)
Definition dma_fill (pstart pend : Z) : M unit :=
  d ← gets s_dma;
  let i := Z.shiftr (u32 (pstart - dma_pstart d)) seL4_PageBits in
  let pstart := pstart - Z.land pstart (2 ^ seL4_PageBits - 1) in
  dma_fill_loop (Z.to_nat ((pend - pstart) / 2 ^ seL4_PageBits + 2)) pstart pend i.

Definition dma_init (paddr_start sizebits : Z) : M Z :=
  d ← gets s_dma;
  _ ← assertM (dma_pstart d =? 0);
  let d' := mk_dma [] paddr_start (u32 (paddr_start + Z.shiftl 1 sizebits)) paddr_start
                   (dma_alloc_cached d) in
  ok ← ask e_malloc;
  _ ← assertM ok;
  _ ← mod_dma (λ _, set_dma_caps (replicate (Z.to_nat (DMA_PAGES d')) 0) d');
  mret 0.

(** [cache_foreach]: one operation per page of the range. *)
Fixpoint cache_foreach (fuel : nat) (op addr end_ : Z) : M unit :=
  match fuel with
  | O => fail OutOfFuel
  | S fuel' =>
      if addr <? end_ then
        let next := Z.min (andnot32 (u32 (addr + PAGE_SIZE)) (PAGE_SIZE - 1)) end_ in
        err ← invoke (Cache_op op addr next);
        _ ← assertM (err =? 0);
        cache_foreach fuel' op next end_
      else mret tt
  end.

Definition sos_dma_cache_op (addr size op : Z) : M unit :=
  cache_foreach (Z.to_nat (size / PAGE_SIZE + 3)) op addr (u32 (addr + size)).

(** Where [sos_dma_malloc] places a request: the start of the block, [None] when
    the pool is used up. *)
Definition dma_place (d : dmast) (align cached : Z) : option Z :=
  let p := DMA_ALIGN (dma_pnext d) in
  if p <? dma_pend d then
    let p := if negb (dma_alloc_cached d =? cached) && negb (Z.land p (2 ^ seL4_PageBits - 1) =? 0)
             then ROUND_UP p (2 ^ seL4_PageBits) else p in
    Some (ROUND_UP p align)
  else None.

Definition sos_dma_malloc (size align cached : Z) : M Z :=
  d ← gets s_dma;
  _ ← assertM (negb (dma_pstart d =? 0));
  _ ← mod_dma (set_dma_pnext (DMA_ALIGN (dma_pnext d)));
  match dma_place d align cached with
  | Some p =>
      _ ← mod_dma (λ d, set_dma_alloc_cached cached (set_dma_pnext p d));
      _ ← dma_fill p (u32 (p + size));
      _ ← mod_dma (set_dma_pnext (u32 (p + size)));
      _ ← sos_dma_cache_op (VIRT d p) size 2;
      mret (VIRT d p)
  | None =>
      _ ← sos_dma_cache_op 0 size 2;
      mret 0
  end.

(** 0 for an address outside the pool. *)
Definition sos_dma_pin (addr : Z) : M Z :=
  d ← gets s_dma;
  mret (if (addr <? DMA_VSTART) || (DMA_VEND <=? addr) then 0 else PHYS d addr).
