(* ===== verification/Machine.v ===== *)
(** The event loop of SOS (main.c), and the calls through function pointers.

    [exec] gives every function pointer its function; [run] closes the
    recursion with a bound on the depth of nested calls.  [handle_syscall] and
    [step] are the dispatch of main.c: a message from a process, a page fault, a
    timer interrupt, a character from the serial port, or the reply to an NFS
    request that is waiting. *)

From S2P Require Import Prelude UtAllocator Sos Mapping SwapSlots FrameTable ProcTable.
From S2P Require Import AddrSpace PageTable Swap CopyInOut Clock Console NfsDev Vfs FileTable.
From S2P Require Import Elf Process Vm Syscalls.

(** [first_process_created]. *)
Definition first_process_created : M unit := modify (set_s_starting false).

(** * Function pointers *)

Definition exec_frame (rec : interp) (cb : frame_cb) (token kvaddr : Z) : M unit :=
  match cb with
  | cb_sos_page_map_2_alloc_cap_pt => sos_page_map_2_alloc_cap_pt rec token kvaddr
  | cb_sos_page_map_3 => sos_page_map_3 rec token kvaddr
  | cb_sos_page_map_5 => sos_page_map_5 rec token kvaddr
  | cb_as_create_pagedir_caps_allocated => as_create_pagedir_caps_allocated rec token kvaddr
  | cb_as_create_pagedir_regs_allocated => as_create_pagedir_regs_allocated rec token kvaddr
  | cb_serv_sys_write_get_kbuf => serv_sys_write_get_kbuf rec token kvaddr
  end.

Definition exec_err (rec : interp) (cb : err_cb) (token err : Z) : M unit :=
  match cb with
  | cb_frame_alloc_end => frame_alloc_end rec token err
  | cb_swap_out_2_init_callback => swap_out_2_init_callback rec token err
  | cb_swap_in_page_map_cb => swap_in_page_map_cb rec token err
  | cb_sos_VMFaultHandler_reply => sos_VMFaultHandler_reply token err
  | cb_copyin_do_copy => copyin_do_copy rec token err
  | cb_copyout_do_copy => copyout_do_copy rec token err
  | cb_load_segment2 => load_segment2 rec token err
  | cb_elf_load_load_segments => elf_load_load_segments rec token err
  | cb_proc_create_part4 => proc_create_part4 rec token err
  | cb_vfs_open_3_end_create => vfs_open_3_end_create rec token err
  | cb_vfs_stat_end => vfs_stat_end rec token err
  | cb_serv_proc_create_part2 => serv_proc_create_part2 rec token err
  | cb_serv_proc_status_end => serv_proc_status_end token err
  | cb_serv_sys_open_copyin_cb => serv_sys_open_copyin_cb rec token err
  | cb_serv_sys_write_do_write => serv_sys_write_do_write rec token err
  | cb_serv_sys_stat_copyin_cb => serv_sys_stat_copyin_cb rec token err
  | cb_serv_sys_stat_end => serv_sys_stat_end token err
  | cb_nfs_dev_read_end => nfs_dev_read_end rec token err
  | cb_nfs_dev_getdirent_done_copyout => nfs_dev_getdirent_done_copyout rec token err
  | cb_nfs_dev_stat_copyout_cb => nfs_dev_stat_copyout_cb rec token err
  | cb_nfs_dev_getstat_lookup_end => nfs_dev_getstat_lookup_end rec token err
  | cb_con_read_part2 => con_read_part2 rec token err
  | cb_con_read_end => con_read_end rec token err
  end.

Definition exec_vnode (rec : interp) (cb : vnode_cb) (token err vn : Z) : M unit :=
  match cb with
  | cb_swap_init_end => swap_init_end rec token err vn
  | cb_file_open_end => file_open_end rec token err vn
  | cb_filetable_init_end => filetable_init_end rec token err vn
  end.

Definition exec_proc (cb : proc_cb) (token err pid : Z) : M unit :=
  match cb with
  | cb_serv_proc_create_end => serv_proc_create_end token err pid
  | cb_first_process_created => first_process_created
  end.

Definition exec_timer (cb : timer_cb) (id data : Z) : M unit :=
  match cb with
  | cb_sleep_callback => sleep_callback data
  | cb_nfs_dev_timeout_handler => nfs_dev_timeout_handler
  end.

Definition exec (rec : interp) (c : call) : M Z :=
  _ ← match c with
      | CallFrame cb token kvaddr => exec_frame rec cb token kvaddr
      | CallErr cb token err => exec_err rec cb token err
      | CallVnode cb token err vn => exec_vnode rec cb token err vn
      | CallOpen cb_serv_sys_open_end token err fd => serv_sys_open_end token err fd
      | CallAs cb_proc_create_part2 token asp => proc_create_part2 rec token asp
      | CallElf cb_proc_create_part3 token err entry => proc_create_part3 rec token err entry
      | CallProc cb token err pid => exec_proc cb token err pid
      | CallWait cb_serv_proc_wait_cb token pid => serv_proc_wait_cb token pid
      | CallRead cb_serv_sys_read_end token err size more =>
          serv_sys_read_end rec token err size more
      | CallWrite cb_serv_sys_write_copyin token err size =>
          serv_sys_write_copyin rec token err size
      | CallDirent cb_serv_sys_getdirent_end token err size =>
          serv_sys_getdirent_end token err size
      | CallTimer cb id data => exec_timer cb id data
      | Call_swap_out kvaddr cb token => swap_out rec kvaddr cb token
      | Call_vfs_open path flags cb token => vfs_open rec path flags cb token
      end;
  mret 0.

(** Calls nested at most [n] deep. *)
Fixpoint run (n : nat) (c : call) : M Z :=
  match n with
  | O => fail OutOfFuel
  | S n' => exec (run n') c
  end.

(** * System calls *)

Definition mr (mrs : list Z) (i : nat) : Z := nth i mrs 0.

(** [handle_syscall]; the message registers are [mrs], and [num_args] is the
    length of the message without the call number. *)
Definition handle_syscall (rec : interp) (ipc_ep : Z) (mrs : list Z) (num_args : Z) : M unit :=
  reply_cap ← invoke Cspace_save_reply_cap;
  _ ← assertM (negb (reply_cap =? 0));
  match mr mrs 0 with
  | 0 => serv_sys_print reply_cap ((λ i, u8 (mr mrs i)) <$> seq 1 (Z.to_nat num_args))
  | 1 => serv_sys_sbrk reply_cap (mr mrs 1)
  | 2 => serv_sys_open rec reply_cap (mr mrs 1) (mr mrs 2) (mr mrs 3)
  | 3 => serv_sys_close reply_cap (i32 (mr mrs 1))
  | 4 => serv_sys_read rec reply_cap (i32 (mr mrs 1)) (mr mrs 2) (mr mrs 3)
  | 5 => serv_sys_write rec reply_cap (i32 (mr mrs 1)) (mr mrs 2) (mr mrs 3)
  | 6 => serv_sys_timestamp reply_cap
  | 7 => serv_sys_sleep reply_cap (i32 (mr mrs 1))
  | 8 => serv_sys_getdirent rec reply_cap (i32 (mr mrs 1)) (mr mrs 2) (mr mrs 3)
  | 9 => serv_sys_stat rec reply_cap (mr mrs 1) (mr mrs 2) (mr mrs 3)
  | 10 => serv_proc_create rec (mr mrs 1) (mr mrs 2) ipc_ep reply_cap
  | 11 => serv_proc_destroy rec (i32 (mr mrs 1)) reply_cap
  | 12 => serv_proc_get_id reply_cap
  | 13 => serv_proc_wait (i32 (mr mrs 1)) reply_cap
  | 14 => serv_proc_status rec (mr mrs 1) (mr mrs 2) reply_cap
  | _ => mret tt
  end.

Definition handle_pagefault (rec : interp) (mrs : list Z) : M unit :=
  reply_cap ← invoke Cspace_save_reply_cap;
  _ ← assertM (negb (reply_cap =? 0));
  sos_VMFaultHandler rec reply_cap (mr mrs 1) (mr mrs 3) (negb (mr mrs 2 =? 0)).

(** * The loop *)

Definition IRQ_EP_BADGE : Z := Z.shiftl 1 (seL4_BadgeBits - 1).
Definition IRQ_BADGE_NETWORK : Z := 1.
Definition IRQ_BADGE_TIMER : Z := 2.
Definition seL4_NoFault : Z := 0.
Definition seL4_VMFault : Z := 2.

(** The process a badge stands for. *)
Definition badge_pid (badge : Z) : Z := i32 (andnot32 badge USER_EP_BADGE).

Definition deliver_lookup (rec : interp) (cb : rpc_lookup_cb) (token : Z) (r : nfs_reply) :
    M unit :=
  match cb with
  | cb_nfs_dev_lookup_handler =>
      nfs_dev_lookup_handler rec token (rep_status r) (rep_fh r) (rep_fattr r)
  | cb_nfs_dev_create_handler =>
      nfs_dev_create_handler rec token (rep_status r) (rep_fh r) (rep_fattr r)
  | cb_elf_load_lookup_cb => elf_load_lookup_cb rec token (rep_status r) (rep_fh r)
  | cb_nfs_dev_getstat_lookup_cb =>
      nfs_dev_getstat_lookup_cb rec token (rep_status r) (rep_fh r) (rep_fattr r)
  end.

Definition deliver_read (rec : interp) (cb : rpc_read_cb) (token : Z) (r : nfs_reply) : M unit :=
  match cb with
  | cb_swap_in_nfs_read_handler =>
      swap_in_nfs_read_handler rec token (rep_status r) (rep_count r) (rep_data r)
  | cb_load_segment3 => load_segment3 rec token (rep_status r) (rep_count r) (rep_data r)
  | cb_elf_load_read_elfheader_cb =>
      elf_load_read_elfheader_cb rec token (rep_status r) (rep_count r) (rep_data r)
  | cb_elf_load_read_progheaders_cb =>
      elf_load_read_progheaders_cb rec token (rep_status r) (rep_count r) (rep_data r)
  | cb_nfs_dev_read_handler =>
      nfs_dev_read_handler rec token (rep_status r) (rep_fattr r) (rep_count r) (rep_data r)
  end.

Definition deliver_write (rec : interp) (cb : rpc_write_cb) (token : Z) (r : nfs_reply) : M unit :=
  match cb with
  | cb_swap_out_4_nfs_write_cb =>
      swap_out_4_nfs_write_cb rec token (rep_status r) (rep_has_attr r) (rep_count r)
  | cb_nfs_dev_write_handler =>
      nfs_dev_write_handler rec token (rep_status r) (rep_fattr r) (rep_count r)
  end.

Definition deliver (rec : interp) (q : rpc) (r : nfs_reply) : M unit :=
  match q with
  | rpc_lookup _ _ cb token | rpc_create _ _ cb token => deliver_lookup rec cb token r
  | rpc_read _ _ _ cb token => deliver_read rec cb token r
  | rpc_write _ _ _ cb token => deliver_write rec cb token r
  | rpc_write_freed _ _ _ => fail Dangling
  | rpc_readdir _ _ token =>
      nfs_dev_getdirent_handler rec token (rep_status r) (rep_names r) (rep_cookie r)
  end.

(** The reply to the request at position [k] of those waiting. *)
Definition deliver_reply (rec : interp) (k : nat) (r : nfs_reply) : M unit :=
  rpcs ← gets s_rpcs;
  match rpcs !! k with
  | Some q =>
      _ ← modify (set_s_rpcs (delete k rpcs));
      deliver rec q r
  | None => mret tt
  end.

(** What the network stack hands on: a reply to an NFS request, or a character
    for the serial port. *)
Inductive packet : Type :=
  | PktReply (k : nat) (r : nfs_reply)
  | PktSerial (ch : Z).

(** The packets that are waiting when the network interrupts. *)
Fixpoint network_irq (rec : interp) (packets : list packet) : M unit :=
  match packets with
  | [] => mret tt
  | p :: packets' =>
      _ ← match p with
          | PktReply k r => deliver_reply rec k r
          | PktSerial ch => read_handler rec ch
          end;
      network_irq rec packets'
  end.

(** What wakes the loop up: a message, with the packets that wait in the network
    card.  The timer device updates its registers by itself. *)
Inductive input : Type :=
  | InMessage (badge label : Z) (mrs : list Z) (num_args : Z) (packets : list packet)
  | InClock (cnr sr1 sr2 : Z).

(** One round of [syscall_loop], with calls nested at most [n] deep. *)
Definition step (n : nat) (ipc_ep : Z) (i : input) : M unit :=
  match i with
  | InMessage badge label mrs num_args packets =>
      if negb (Z.land badge IRQ_EP_BADGE =? 0) then
        _ ← (if negb (Z.land badge IRQ_BADGE_NETWORK =? 0) then network_irq (run n) packets
             else mret tt);
        if negb (Z.land badge IRQ_BADGE_TIMER =? 0) then
          _ ← timer_interrupt (run n); mret tt
        else mret tt
      else if label =? seL4_VMFault then
        _ ← set_cur_proc (badge_pid badge);
        handle_pagefault (run n) mrs
      else if label =? seL4_NoFault then
        _ ← set_cur_proc (badge_pid badge);
        handle_syscall (run n) ipc_ep mrs num_args
      else mret tt
  | InClock cnr sr1 sr2 =>
      mod_clock (λ c, set_epit2 (set_epit_sr sr2 (epit2 c))
                        (set_epit1 (set_epit_sr sr1 (set_epit_cnr cnr (epit1 c))) c))
  end.

(** * Starting up *)

(** [_filesystem_init]: the name of the mount point is [malloc(strlen(path))]
    bytes. *)
Definition filesystem_init : M unit :=
  junk ← ask e_junk;
  vn ← malloc (new_vnode ROOT_PATH (i32 junk));
  _ ← assertM (negb (vn =? 0));
  name ← malloc_buf (Zlength ROOT_PATH);
  _ ← assertM (negb (name =? 0));
  _ ← write_mem name (ROOT_PATH ++ [0]);
  ok ← malloc_ok;
  _ ← assertM ok;
  dir ← mnt_point;
  err ← nfs_dev_init_mntpoint_vnode vn dir;
  _ ← assertM (err =? 0);
  _ ← update vn (set_vn_opencount 1);
  err ← vfs_vnt_insert vn;
  _ ← assertM (err =? 0);
  nfs_dev_setup_timeout.

(** The end of [main]: create the first process.  Its name is configured when
    SOS is built. *)
Definition start_first_process (rec : interp) (tty_name : list Z) (ipc_ep : Z) : M unit :=
  _ ← modify (set_s_starting true);
  _ ← proc_list_init;
  proc_create rec tty_name (Zlength tty_name) ipc_ep cb_first_process_created 0.

(** What SOS does once its frame table is set up: the rest of [main], and then
    the rounds of the event loop. *)
Inductive sos_step : sos → sos → Prop :=
  | do_start_timer (ep r : Z) (s s' : sos) :
      start_timer ep s = Ret (r, s') → sos_step s s'
  | do_filesystem_init (s s' : sos) :
      filesystem_init s = Ret (tt, s') → sos_step s s'
  | do_first_process (n : nat) (tty_name : list Z) (ipc_ep : Z) (s s' : sos) :
      start_first_process (run n) tty_name ipc_ep s = Ret (tt, s') → sos_step s s'
  | do_round (n : nat) (ipc_ep : Z) (i : input) (s s' : sos) :
      step n ipc_ep i s = Ret (tt, s') → sos_step s s'.
