(* ===== verification/Libsos.v ===== *)
(** The system calls as a process makes them (libs/libsos/src).

    A stub puts the number of the call and its arguments into message registers,
    calls SOS and reads the reply.  The stubs are written against the class
    [ipc], which says what calling the endpoint does; [seat] is the instance in
    which SOS itself answers: the message is one input of the event loop, and as
    long as SOS has not answered, the loop takes the inputs that come next. *)

From S2P Require Import Prelude Morecore UtAllocator Sos Hoare Mapping SwapSlots FrameTable ProcTable.
From S2P Require Import AddrSpace PageTable Swap CopyInOut Clock Console NfsDev Vfs FileTable.
From S2P Require Import Elf Process Vm Syscalls Machine.

(** * Calls *)

(** How a call ends: with a result, not at all, or with a fault of the program. *)
Inductive ures (A : Type) : Type :=
  | Done (a : A)
  | Waits
  | Dies (f : fault).
Arguments Done {A} a.
Arguments Waits {A}.
Arguments Dies {A} f.

(** [seL4_Call] on the endpoint of SOS with these message registers: the label
    and the message registers of the reply. *)
Class ipc (W : Type) : Type := w_call : list Z → W → ures ((Z * list Z) * W).

(** The label field of [seL4_MessageInfo_t] has 20 bits. *)
Definition label_bits (label : Z) : Z := label mod 2 ^ 20.

Definition SOS_SYSCALL_PRINT : Z := 0.
Definition SOS_SYSCALL_SYSBRK : Z := 1.
Definition SOS_SYSCALL_OPEN : Z := 2.
Definition SOS_SYSCALL_CLOSE : Z := 3.
Definition SOS_SYSCALL_READ : Z := 4.
Definition SOS_SYSCALL_WRITE : Z := 5.
Definition SOS_SYSCALL_TIMESTAMP : Z := 6.
Definition SOS_SYSCALL_SLEEP : Z := 7.
Definition SOS_SYSCALL_GETDIRENT : Z := 8.
Definition SOS_SYSCALL_STAT : Z := 9.
Definition SOS_SYSCALL_PROC_CREATE : Z := 10.
Definition SOS_SYSCALL_PROC_DESTROY : Z := 11.
Definition SOS_SYSCALL_PROC_GET_ID : Z := 12.
Definition SOS_SYSCALL_PROC_WAIT : Z := 13.
Definition SOS_SYSCALL_PROC_STATUS : Z := 14.

Definition seL4_MsgMaxLength : Z := 120.
Definition FAIL_TOLERANCE : Z := 10.
Definition MAXNAMLEN : Z := 255.

(** [path[len] != '\0'] from [len] on, at most [n] times; [mem] is the memory of
    the process. *)
Fixpoint scan (n : nat) (mem : Z → Z) (path len : Z) : Z :=
  match n with
  | O => len
  | S n' => if mem (path + len) =? 0 then len else scan n' mem path (len + 1)
  end.

Definition i64 (x : Z) : Z := if u64 x <? 2 ^ 63 then u64 x else u64 x - 2 ^ 64.

Section stubs.
Context {W : Type} `{!ipc W}.

Definition U (A : Type) : Type := W → ures (A * W).

#[global] Instance U_ret : MRet U := λ A a w, Done (a, w).

#[global] Instance U_bind : MBind U := λ A B k m w,
  match m w with
  | Done (a, w') => k a w'
  | Waits => Waits
  | Dies f => Dies f
  end.

Definition seL4_Call (mrs : list Z) : U (Z * list Z) := w_call mrs.
Definition assertU (c : bool) : U unit := if c then mret tt else λ _, Dies AssertFail.

(** ** sos.c *)

(** The first register of the reply, or -1 when the label is an error. *)
Definition reply_int (r : Z * list Z) : Z := if r.1 =? 0 then i32 (mr r.2 0) else -1.

Definition sos_sys_open (mem : Z → Z) (path flags : Z) : U Z :=
  let len := scan (Z.to_nat MAX_IO_BUF) mem path 0 in
  message ← seL4_Call [SOS_SYSCALL_OPEN; path; len; u32 flags];
  mret (reply_int message).

Definition sos_sys_close (fd : Z) : U Z :=
  message ← seL4_Call [SOS_SYSCALL_CLOSE; u32 fd];
  mret (if message.1 =? 0 then 0 else -1).

Definition sos_sys_read (file buf nbyte : Z) : U Z :=
  message ← seL4_Call [SOS_SYSCALL_READ; u32 file; buf; nbyte];
  mret (reply_int message).

Definition sos_sys_write (file buf nbyte : Z) : U Z :=
  message ← seL4_Call [SOS_SYSCALL_WRITE; u32 file; buf; nbyte];
  mret (reply_int message).

(** The loop of [sos_write]; [n] is the number of tries that are left. *)
Fixpoint write_loop (n : nat) (mem : Z → Z) (vData count tot_sent : Z) : U Z :=
  match n with
  | O => mret tot_sent
  | S n' =>
      if u32 tot_sent <? count then
        let len := Z.min (u32 (count - tot_sent)) (seL4_MsgMaxLength - 1) in
        message ← seL4_Call (SOS_SYSCALL_PRINT ::
                    ((λ i : nat, mem (vData + (Z.of_nat i + tot_sent))) <$> seq 0 (Z.to_nat len)));
        if negb (message.1 =? 0) then mret tot_sent
        else write_loop n' mem vData count (i32 (tot_sent + i32 (mr message.2 0)))
      else mret tot_sent
  end.

Definition sos_write (mem : Z → Z) (vData count : Z) : U Z :=
  let expected_sending := count / (seL4_MsgMaxLength - 1) + 1 in
  tot_sent ← write_loop (Z.to_nat (expected_sending * FAIL_TOLERANCE)) mem vData count 0;
  mret (u32 tot_sent).

Definition sos_sys_usleep (msec : Z) : U unit :=
  _ ← seL4_Call [SOS_SYSCALL_SLEEP; u32 msec];
  mret tt.

Definition sos_sys_time_stamp : U Z :=
  message ← seL4_Call [SOS_SYSCALL_TIMESTAMP];
  mret (if message.1 =? 0
        then i64 (Z.lor (Z.shiftl (mr message.2 1) 32) (mr message.2 0))
        else -1).

Definition sos_getdirent (pos name nbyte : Z) : U Z :=
  message ← seL4_Call [SOS_SYSCALL_GETDIRENT; u32 pos; name; nbyte];
  mret (reply_int message).

Definition sos_stat (mem : Z → Z) (path buf : Z) : U Z :=
  let size := scan (Z.to_nat MAXNAMLEN) mem path 0 in
  message ← seL4_Call [SOS_SYSCALL_STAT; path; size; buf];
  mret (if message.1 =? 0 then 0 else -1).

Definition sos_process_create (mem : Z → Z) (path : Z) : U Z :=
  let len := scan (Z.to_nat MAX_IO_BUF) mem path 0 in
  message ← seL4_Call [SOS_SYSCALL_PROC_CREATE; path; len];
  mret (reply_int message).

Definition sos_process_delete (pid : Z) : U Z :=
  message ← seL4_Call [SOS_SYSCALL_PROC_DESTROY; u32 pid];
  mret (if message.1 =? 0 then 0 else -1).

Definition sos_process_status (processes max : Z) : U Z :=
  message ← seL4_Call [SOS_SYSCALL_PROC_STATUS; processes; max];
  mret (reply_int message).

Definition sos_process_wait (pid : Z) : U Z :=
  message ← seL4_Call [SOS_SYSCALL_PROC_WAIT; u32 pid];
  mret (i32 (mr message.2 0)).

Definition sos_my_id : U Z :=
  message ← seL4_Call [SOS_SYSCALL_PROC_GET_ID];
  mret (reply_int message).

(** ** sys_morecore.c *)

(** The new break is what the label of the reply holds. *)
Definition sys_brk (newbrk : Z) : U Z :=
  message ← seL4_Call [SOS_SYSCALL_SYSBRK; newbrk];
  mret message.1.

(** ** sys_stdio.c *)

Definition STDOUT_FD : Z := 1.
Definition STDERR_FD : Z := 2.
Definition IOV_MAX : Z := 1024.
Definition SSIZE_MAX : Z := 2 ^ 31 - 1.
Definition LIBC_EINVAL : Z := 22.
Definition O_LARGEFILE : Z := 0x20000.

(** The sum of the lengths, or [None] when it is too large. *)
Fixpoint iov_sum (iov : list (Z * Z)) (sum : Z) : option Z :=
  match iov with
  | [] => Some sum
  | (_, iov_len) :: iov' =>
      let sum := sum + iov_len in
      if SSIZE_MAX <? sum then None else iov_sum iov' sum
  end.

(** [ret += f(iov[i])] over the vector. *)
Fixpoint iov_each (f : Z → Z → U Z) (iov : list (Z * Z)) (ret : Z) : U Z :=
  match iov with
  | [] => mret ret
  | (iov_base, iov_len) :: iov' =>
      r ← f iov_base iov_len;
      iov_each f iov' (i32 (ret + r))
  end.

Definition sys_writev (mem : Z → Z) (fildes : Z) (iov : list (Z * Z)) (iovcnt : Z) : U Z :=
  if (iovcnt <=? 0) || (IOV_MAX <? iovcnt) then mret (- LIBC_EINVAL) else
  let iov := take (Z.to_nat iovcnt) iov in
  match iov_sum iov 0 with
  | None => mret (- LIBC_EINVAL)
  | Some sum =>
      if sum =? 0 then mret 0
      else if (fildes =? STDOUT_FD) || (fildes =? STDERR_FD) then iov_each (sos_write mem) iov 0
      else iov_each (sos_sys_write fildes) iov 0
  end.

Definition sys_readv (fd : Z) (iov : list (Z * Z)) (iovcnt : Z) : U Z :=
  iov_each (sos_sys_read fd) (take (Z.to_nat iovcnt) iov) 0.

Definition sys_read (fd buf count : Z) : U Z :=
  r ← sys_readv fd [(buf, count)] 1;
  mret (Morecore.syscall_ret r).

Definition sys_write (mem : Z → Z) (fd buf count : Z) : U Z :=
  r ← sys_writev mem fd [(buf, count)] 1;
  mret (Morecore.syscall_ret r).

Definition sys_ioctl (fd request : Z) : U Z :=
  if fd =? STDOUT_FD then mret 0 else
  _ ← assertU false;
  mret 0.

Definition sos_sys_open_wrapper (mem : Z → Z) (pathname flags : Z) : U Z :=
  fd ← sos_sys_open mem pathname flags;
  _ ← assertU (negb ((fd =? STDOUT_FD) || (fd =? STDERR_FD)));
  mret fd.

Definition sys_open (mem : Z → Z) (pathname flags mode : Z) : U Z :=
  sos_sys_open_wrapper mem pathname (Z.land flags (Z.lnot O_LARGEFILE)).

Definition sys_close (fd : Z) : U Z := sos_sys_close fd.

(** ** sys_time.c *)

Definition MS_IN_S : Z := 1000.
Definition US_IN_S : Z := 1000000.
Definition NS_IN_MS : Z := 1000000.
Definition NS_IN_US : Z := 1000.

Definition sys_nanosleep (tv_sec tv_nsec : Z) : U Z :=
  let millis := i32 (u64 (tv_sec * MS_IN_S)) in
  let millis := i32 (u64 (millis + u64 tv_nsec / NS_IN_MS)) in
  _ ← sos_sys_usleep millis;
  mret 0.

(** The result, and [*res] when it is set; the clock is [CLOCK_REALTIME], 0. *)
Definition sys_clock_gettime (clk_id : Z) : U (Z * option (Z * Z)) :=
  if negb (clk_id =? 0) then mret (- LIBC_EINVAL, None) else
  t ← sos_sys_time_stamp;
  let micros := u64 t in
  mret (0, Some (i32 (micros / US_IN_S), i32 ((micros mod US_IN_S) * NS_IN_US))).

(** [brk] of the C library: 0, or -1 when the break is not the one asked for. *)
Definition libc_brk (end_ : Z) : U Z :=
  r ← sys_brk end_;
  mret (if u32 (Morecore.syscall_ret r) =? end_ then 0 else -1).
End stubs.

Arguments U W A : clear implicits.

(** * SOS answers *)

(** A process with its badge, and SOS with the inputs to come. *)
Record seat : Type := mk_seat {
  st_sos : sos;
  st_inputs : list input
}.

Inductive answer : Type :=
  | Answered (label : Z) (mrs : list Z)
  | Dropped
  | NotYet.

(** The reply through the capability [cap], unless its slot is given back first. *)
Fixpoint find_reply (cap : Z) (log : list event) : answer :=
  match log with
  | [] => NotYet
  | EvSend c label mrs :: log' => if c =? cap then Answered (label_bits label) mrs else find_reply cap log'
  | EvFreeSlot c :: log' => if c =? cap then Dropped else find_reply cap log'
  | _ :: log' => find_reply cap log'
  end.

(** The capability that the reply goes to. *)
Fixpoint saved_cap (log : list event) : option Z :=
  match log with
  | [] => None
  | EvInvoke Cspace_save_reply_cap a :: _ => Some a
  | _ :: log' => saved_cap log'
  end.

(** What has happened since [s]. *)
Definition new_log (s s' : sos) : list event := drop (length (s_log s)) (s_log s').

(** The inputs that SOS takes until it answers. *)
Fixpoint await (n : nat) (ep cap : Z) (s : sos) (inputs : list input) : ures ((Z * list Z) * seat) :=
  match inputs with
  | [] => Waits
  | i :: inputs' =>
      match step n ep i s with
      | Fault f => Dies f
      | Ret (_, s') =>
          match find_reply cap (new_log s s') with
          | Answered label mrs => Done ((label, mrs), mk_seat s' inputs')
          | Dropped => Waits
          | NotYet => await n ep cap s' inputs'
          end
      end
  end.

(** A call of the process with this badge. *)
Definition sos_call (n : nat) (ep badge : Z) (mrs : list Z) (w : seat) : ures ((Z * list Z) * seat) :=
  match step n ep (InMessage badge seL4_NoFault mrs (Zlength mrs - 1) []) (st_sos w) with
  | Fault f => Dies f
  | Ret (_, s') =>
      let log := new_log (st_sos w) s' in
      match saved_cap log with
      | None => Waits
      | Some cap =>
          match find_reply cap log with
          | Answered label mrs' => Done ((label, mrs'), mk_seat s' (st_inputs w))
          | Dropped => Waits
          | NotYet => await n ep cap s' (st_inputs w)
          end
      end
  end.
