(* ===== verification/LibsosInv.v ===== *)
(** Processes and SOS together.

    [stubs_served] relates the stubs of libsos to the dispatch of SOS: every stub
    sends a message that makes SOS run the function of the system call with the
    arguments of the stub.  [sos_write_prints] follows a whole call of
    [sos_write] through the event loop to the serial port. *)

From S2P Require Import Prelude UtAllocator Sos Hoare Mapping SwapSlots FrameTable ProcTable.
From S2P Require Import AddrSpace RegionInv PageTable Swap CopyInOut Clock Console NfsDev Vfs FileTable.
From S2P Require Import Elf Process Vm Syscalls Machine Libsos.

(** * Messages *)

(** A world that keeps the last message. *)
Definition recorder : ipc (option (list Z)) := λ mrs _, Done ((0, []), Some mrs).

(** The stub sends a message for which SOS runs [k] with the reply capability. *)
Definition served (rec : interp) (ep : Z) {A : Type} (m : U (option (list Z)) A) (k : Z → M unit) : Prop :=
  ∃ a mrs, m None = Done (a, Some mrs) ∧
    ∀ s, handle_syscall rec ep mrs (Zlength mrs - 1) s =
      (reply_cap ← invoke Cspace_save_reply_cap; _ ← assertM (negb (reply_cap =? 0)); k reply_cap) s.

Definition is_int (x : Z) : Prop := - 2 ^ 31 ≤ x < 2 ^ 31.

Lemma i32_u32 x : is_int x → i32 (u32 x) = x.
Proof.
  unfold is_int, i32, u32. cbv zeta. intros Hx. rewrite Z.mod_mod by lia. destruct (decide (0 ≤ x)) as [H | H].
  - rewrite Z.mod_small by lia. destruct (Z.ltb_spec x (2 ^ 31)); lia.
  - assert (x mod 2 ^ 32 = x + 2 ^ 32) as -> by (symmetry; apply (Z.mod_unique_pos _ _ (-1)); lia).
    destruct (Z.ltb_spec (x + 2 ^ 32) (2 ^ 31)); lia.
Qed.

(** [C23] Every stub makes SOS run the function of its system call, with the arguments of the stub in
    their places. *)
Theorem stubs_served rec ep mem path flags fd pid msec pos buf nbyte newbrk :
  is_int fd → is_int pid → is_int msec → is_int pos →
  served rec ep (@sos_sys_open _ recorder mem path flags)
    (λ cap, serv_sys_open rec cap path (scan (Z.to_nat MAX_IO_BUF) mem path 0) (u32 flags)) ∧
  served rec ep (@sos_sys_close _ recorder fd) (λ cap, serv_sys_close cap fd) ∧
  served rec ep (@sos_sys_read _ recorder fd buf nbyte) (λ cap, serv_sys_read rec cap fd buf nbyte) ∧
  served rec ep (@sos_sys_write _ recorder fd buf nbyte) (λ cap, serv_sys_write rec cap fd buf nbyte) ∧
  served rec ep (@sos_sys_usleep _ recorder msec) (λ cap, serv_sys_sleep cap msec) ∧
  served rec ep (@sos_sys_time_stamp _ recorder) serv_sys_timestamp ∧
  served rec ep (@sos_getdirent _ recorder pos buf nbyte) (λ cap, serv_sys_getdirent rec cap pos buf nbyte) ∧
  served rec ep (@sos_stat _ recorder mem path buf)
    (λ cap, serv_sys_stat rec cap path (scan (Z.to_nat MAXNAMLEN) mem path 0) buf) ∧
  served rec ep (@sos_process_create _ recorder mem path)
    (serv_proc_create rec path (scan (Z.to_nat MAX_IO_BUF) mem path 0) ep) ∧
  served rec ep (@sos_process_delete _ recorder pid) (serv_proc_destroy rec pid) ∧
  served rec ep (@sos_process_status _ recorder buf nbyte) (serv_proc_status rec buf nbyte) ∧
  served rec ep (@sos_process_wait _ recorder pid) (serv_proc_wait pid) ∧
  served rec ep (@sos_my_id _ recorder) serv_proc_get_id ∧
  served rec ep (@sys_brk _ recorder newbrk) (λ cap, serv_sys_sbrk cap newbrk).
Proof.
  intros Hfd Hpid Hms Hpos. split_and!; (do 2 eexists; split; [reflexivity |]; intros s;
    unfold handle_syscall; cbn [mr nth]; by rewrite ?i32_u32).
Qed.

Lemma stubs_served_witness :
  served (run 1) 5 (@sos_sys_read _ recorder (-1) 0x8000 16) (λ cap, serv_sys_read (run 1) cap (-1) 0x8000 16).
Proof.
  apply (stubs_served (run 1) 5 (λ _, 0) 0 0 (-1) 0 0 0 0x8000 16 0); unfold is_int; lia.
Defined.

(** * One call *)

(** The bytes that went to the serial port. *)
Fixpoint printed (log : list event) : list Z :=
  match log with
  | [] => []
  | EvSerial bytes :: log' => bytes ++ printed log'
  | _ :: log' => printed log'
  end.

Lemma printed_app l1 l2 : printed (l1 ++ l2) = printed l1 ++ printed l2.
Proof.
  induction l1 as [|e l1 IH]; [done |]. destruct e; cbn; [done.. |]. by rewrite IH, (assoc_L (++)).
Qed.

Definition is_serial (e : event) : Prop := match e with EvSerial _ => True | _ => False end.

Lemma find_reply_serial cap evs log : Forall is_serial evs → find_reply cap (evs ++ log) = find_reply cap log.
Proof. induction 1 as [|e evs He _ IH]; [done |]. by destruct e. Qed.

(** The process with this id is in its slot. *)
Definition proc_at (pid p : Z) (r : process) (s : sos) : Prop :=
  pid ≠ PROC_NULL ∧ p ≠ 0 ∧ rd (processes (s_proc s)) (Z.quot pid RANGE_PER_SLOT) = Ret p ∧
  s_heap s !! p = Some (OProcess r) ∧ p_pid r = pid.

Lemma set_cur_proc_at pid p r s :
  proc_at pid p r s → set_cur_proc pid s = Ret (tt, set_s_proc (set_cur_proc_ptr p (s_proc s)) s).
Proof.
  intros (Hn & Hp & Hr & Hh & Hid). unfold set_cur_proc, proc_getproc.
  destruct (Z.eqb_spec pid PROC_NULL); [done |].
  erewrite M_bind_eq; [reflexivity |]. erewrite M_bind_eq by apply gets_eq.
  erewrite M_bind_eq by (apply lift_eq; exact Hr). destruct (Z.eqb_spec p 0); [done |].
  erewrite M_bind_eq by (by apply load_eq). rewrite Hid, Z.eqb_refl. done.
Qed.

Lemma set_cur_proc_null s : set_cur_proc PROC_NULL s = Ret (tt, set_s_proc (set_cur_proc_ptr 0 (s_proc s)) s).
Proof. done. Qed.

(** A message with the number of a call, from a process. *)
Definition from_process (badge : Z) (s : sos) (p : Z) (r : process) : Prop :=
  Z.land badge IRQ_EP_BADGE = 0 ∧ proc_at (badge_pid badge) p r s ∧
  ∀ t, e_sel4 (s_env s) t ≠ 0.

(** The network is up. *)
Definition serial_works (s : sos) : Prop := ∀ t, e_serial_ok (s_env s) t = true.

(** The state in which the function of a system call starts, and the capability
    for the reply. *)
Definition called (p : Z) (s : sos) : sos :=
  let cap := e_sel4 (s_env s) (s_tick s) in
  set_s_log (s_log s ++ [EvInvoke Cspace_save_reply_cap cap])
    (set_s_tick (S (s_tick s)) (set_s_proc (set_cur_proc_ptr p (s_proc s)) s)).

Lemma step_message n ep badge mrs num_args s p r k :
  from_process badge s p r →
  (∀ s, handle_syscall (run n) ep mrs num_args s =
     (reply_cap ← invoke Cspace_save_reply_cap; _ ← assertM (negb (reply_cap =? 0)); k reply_cap) s) →
  step n ep (InMessage badge seL4_NoFault mrs num_args []) s = k (e_sel4 (s_env s) (s_tick s)) (called p s).
Proof.
  intros (Hb & Hp & Hc) Hk. unfold step. rewrite Hb. change (0 =? 0) with true.
  change (seL4_NoFault =? seL4_VMFault) with false. change (seL4_NoFault =? seL4_NoFault) with true.
  cbv iota. cbn [negb]. erewrite M_bind_eq by (by eapply set_cur_proc_at). rewrite Hk.
  erewrite M_bind_eq by reflexivity.
  erewrite M_bind_eq; [reflexivity |]. apply assertM_eq. by apply negb_true_iff, Z.eqb_neq.
Qed.

(** The answer of a function that ends with [reply_to]. *)
Lemma call_replies n ep badge mrs s inputs p r k label ms s1 evs :
  from_process badge s p r →
  (∀ s, handle_syscall (run n) ep mrs (Zlength mrs - 1) s =
     (reply_cap ← invoke Cspace_save_reply_cap; _ ← assertM (negb (reply_cap =? 0)); k reply_cap) s) →
  let cap := e_sel4 (s_env s) (s_tick s) in
  k cap (called p s) = reply_to cap label ms s1 →
  s_log s1 = s_log (called p s) ++ evs → Forall is_serial evs →
  ∃ s', sos_call n ep badge mrs (mk_seat s inputs) = Done ((label_bits label, ms), mk_seat s' inputs) ∧
    s' = set_s_log (s_log s ++ [EvInvoke Cspace_save_reply_cap cap] ++ evs ++ [EvSend cap label ms; EvFreeSlot cap])
           (set_s_proc (set_cur_proc_ptr 0 (s_proc s1)) s1).
Proof.
  intros Hfrom Hk cap E Hlog Hev. eexists. split; [| reflexivity]. unfold sos_call. cbn [st_sos st_inputs].
  rewrite (step_message _ _ _ _ _ _ _ _ _ Hfrom Hk). fold cap. rewrite E. unfold reply_to.
  erewrite M_bind_eq by apply set_cur_proc_null. erewrite M_bind_eq by reflexivity. cbn [cspace_free_slot emit modify].
  unfold cspace_free_slot, emit, modify, new_log. cbn [s_log set_s_log set_s_proc].
  rewrite Hlog. change (s_log (called p s)) with (s_log s ++ [EvInvoke Cspace_save_reply_cap cap]).
  rewrite <- !(assoc_L (++)), drop_app_length. cbn [app saved_cap find_reply].
  rewrite find_reply_serial by done. cbn [find_reply app]. rewrite Z.eqb_refl. reflexivity.
Qed.

(** * Print *)

Lemma print_loop_runs n msg sent s :
  0 ≤ sent ≤ Zlength msg →
  ∃ k t evs, print_loop n true msg sent s = Ret (sent + k, set_s_log (s_log s ++ evs) (set_s_tick t s)) ∧
    0 ≤ k ≤ Zlength msg - sent ∧ Forall is_serial evs ∧
    printed evs = take (Z.to_nat k) (drop (Z.to_nat sent) msg) ∧
    ((∀ t, 1 ≤ e_serial (s_env s) t) → Zlength msg - sent ≤ Z.of_nat n → k = Zlength msg - sent).
Proof.
  revert sent s. induction n as [|n IH]; intros sent s Hs.
  - exists 0, (s_tick s), []. cbn [print_loop]. rewrite app_nil_r, Z.add_0_r. split_and!; try lia; try done.
    by destruct s.
  - cbn [print_loop]. destruct (Z.ltb_spec sent (Zlength msg)) as [Hlt | Hge].
    + erewrite M_bind_eq by reflexivity. erewrite M_bind_eq by reflexivity.
      set (k := Z.max 0 (Z.min (e_serial (s_env s) (s_tick s)) (Zlength msg - sent))).
      erewrite M_bind_eq by reflexivity. set (e := EvSerial _). set (s1 := set_s_log _ _).
      destruct (IH (sent + k) s1) as (k' & t & evs & E & Hk & Hev & Hp & Hall); [unfold k; lia |].
      exists (k + k'), t, (e :: evs).
      replace (sent + (k + k')) with (sent + k + k') by lia. rewrite E.
      assert (0 ≤ k) by (unfold k; lia).
      split_and!; [| lia | lia | by constructor | |].
      * do 2 f_equal. unfold s1. cbn [s_log set_s_log set_s_tick]. by rewrite <- (assoc_L (++)).
      * cbn [printed e]. rewrite Hp. replace (Z.to_nat (k + k')) with (Z.to_nat k + Z.to_nat k')%nat by lia.
        rewrite <- take_take_drop, drop_drop. do 3 f_equal. lia.
      * intros Hser Hn. specialize (Hser (s_tick s)) as Hs1. rewrite (Hall Hser); unfold k; lia.
    + exists 0, (s_tick s), []. rewrite app_nil_r, Z.add_0_r. split_and!; try lia; try done. by destruct s.
Qed.

Lemma print_message (l : list Z) x :
  Forall (λ b, 0 ≤ b < 256) l → (λ i, u8 (mr (x :: l) i)) <$> seq 1 (length l) = l.
Proof.
  intros Hb. apply list_eq. intros i. rewrite list_lookup_fmap. destruct (l !! i) as [b |] eqn:E.
  - rewrite lookup_seq_lt by (by eapply lookup_lt_Some). cbn. f_equal. unfold mr. cbn.
    rewrite (nth_lookup_Some _ _ _ _ E). rewrite Forall_forall in Hb. unfold u8.
    apply Z.mod_small, Hb. by eapply list_elem_of_lookup_2.
  - apply lookup_ge_None in E. by rewrite lookup_seq_ge by lia.
Qed.

(** One message of [sos_write]. *)
Lemma print_call n ep badge l s inputs p r :
  from_process badge s p r → serial_works s → Forall (λ b, 0 ≤ b < 256) l → Zlength l < 120 →
  ∃ k s' evs, sos_call n ep badge (SOS_SYSCALL_PRINT :: l) (mk_seat s inputs) = Done ((0, [k]), mk_seat s' inputs) ∧
    0 ≤ k ≤ Zlength l ∧ from_process badge s' p r ∧ s_env s' = s_env s ∧ s_log s' = s_log s ++ evs ∧
    printed evs = take (Z.to_nat k) l ∧ ((∀ t, 1 ≤ e_serial (s_env s) t) → k = Zlength l).
Proof.
  intros Hfrom Hserial Hb Hl. set (cap := e_sel4 (s_env s) (s_tick s)).
  set (s0 := set_s_tick (S (s_tick (called p s))) (called p s)).
  destruct (print_loop_runs (Z.to_nat MAX_SERIAL_TRY) l 0 s0) as (k & t & evs & E & Hk & Hev & Hp & Hall);
    [pose proof (Zlength_nonneg l); lia |].
  rewrite Z.sub_0_r in *. cbn [Z.to_nat] in Hp. rewrite drop_0 in Hp.
  destruct (call_replies n ep badge (SOS_SYSCALL_PRINT :: l) s inputs p r (λ cap, serv_sys_print cap l) 0 [u32 k]
              (set_s_log (s_log s0 ++ evs) (set_s_tick t s0)) evs) as (s' & Ecall & Es'); [done | | | done | done |].
  - intros s1. unfold handle_syscall. rewrite Zlength_cons. unfold Zlength.
    replace (Z.to_nat (1 + Z.of_nat (length l) - 1)) with (length l) by lia. by rewrite print_message.
  - unfold serv_sys_print. erewrite M_bind_eq by reflexivity. fold s0.
    change (s_env (called p s)) with (s_env s). rewrite Hserial.
    erewrite M_bind_eq by exact E. by rewrite Z.add_0_l.
  - rewrite u32_small in Ecall by lia. exists k, s', ([EvInvoke Cspace_save_reply_cap cap] ++ evs ++ [EvSend cap 0 [u32 k]; EvFreeSlot cap]).
    split_and!; [exact Ecall | lia | lia | by rewrite Es' | by rewrite Es' | by rewrite Es' | |].
    + rewrite !printed_app. cbn. rewrite app_nil_r. exact Hp.
    + intros Hser. apply Hall; [exact Hser |]. change (Z.of_nat (Z.to_nat MAX_SERIAL_TRY)) with 256. lia.
Qed.

Lemma write_loop_prints n ep badge mem vData count s inputs p r m tot :
  from_process badge s p r → serial_works s → (∀ a, 0 ≤ mem a < 256) → 0 ≤ tot ≤ count → count < 2 ^ 31 →
  ∃ k s' evs, @write_loop _ (sos_call n ep badge) m mem vData count tot (mk_seat s inputs) = Done (tot + k, mk_seat s' inputs) ∧
    0 ≤ k ≤ count - tot ∧ s_log s' = s_log s ++ evs ∧
    printed evs = (λ i, mem (vData + i)) <$> seqZ tot k ∧
    ((∀ t, 1 ≤ e_serial (s_env s) t) → count - tot ≤ 119 * Z.of_nat m → k = count - tot).
Proof.
  intros Hfrom Hserial Hmem Htot Hc. revert s tot Hfrom Hserial Htot.
  induction m as [|m IH]; intros s tot Hfrom Hserial Htot.
  - exists 0, s, []. rewrite app_nil_r, Z.add_0_r. split_and!; try lia; done.
  - cbn [write_loop]. rewrite u32_small by lia. destruct (Z.ltb_spec tot count) as [Hlt | Hge].
    + rewrite u32_small by lia. set (len := Z.min (count - tot) (seL4_MsgMaxLength - 1)).
      assert (0 < len ≤ 119) as Hlen by (unfold len, seL4_MsgMaxLength; lia).
      set (l := (λ i : nat, mem (vData + (Z.of_nat i + tot))) <$> seq 0 (Z.to_nat len)).
      assert (Zlength l = len) as Ell by (unfold Zlength, l; rewrite length_fmap, length_seq; lia).
      assert (l = (λ i, mem (vData + i)) <$> seqZ tot len) as El.
      { unfold l, seqZ. rewrite <- list_fmap_compose. done. }
      destruct (print_call n ep badge l s inputs p r Hfrom Hserial) as (k & s1 & evs & E & Hk & Hfrom1 & Henv & Hlog & Hp & Hall);
        [unfold l; apply Forall_fmap, Forall_true; intros i; apply Hmem | lia |].
      unfold mbind, U_bind, seL4_Call, w_call. rewrite E. cbn [fst snd mr nth negb Z.eqb].
      rewrite (i32_small k), (i32_small (tot + k)) by lia.
      destruct (IH s1 (tot + k) Hfrom1 ltac:(unfold serial_works; by rewrite Henv) ltac:(lia)) as (k' & s' & evs' & E' & Hk' & Hlog' & Hp' & Hall').
      exists (k + k'), s', (evs ++ evs').
      replace (tot + (k + k')) with (tot + k + k') by lia.
      split_and!; [exact E' | lia | lia | by rewrite Hlog', Hlog, (assoc_L (++)) | |].
      * rewrite printed_app, Hp, Hp', El, <- fmap_take, <- fmap_app. f_equal.
        rewrite (seqZ_app tot k k') by lia. f_equal. unfold seqZ. rewrite <- fmap_take, take_seq. f_equal. f_equal. lia.
      * intros Hser Hm. rewrite (Hall Hser), Ell in *. rewrite Henv in Hall'.
        destruct (decide (len = count - tot)) as [-> | Hne]; [lia |].
        assert (len = 119) by (unfold len, seL4_MsgMaxLength in *; lia). rewrite Hall'; [lia | done | lia].
    + exists 0, s, []. rewrite app_nil_r, Z.add_0_r. split_and!; try lia; done.
Qed.

(** [C22] [sos_write], through SOS.  The call returns, the bytes that reached the serial port are
    the first bytes of the buffer, as many as the result says, and all of them when the
    port never refuses a byte. *)
Theorem sos_write_prints n ep badge mem vData count s inputs p r :
  from_process badge s p r → serial_works s → (∀ a, 0 ≤ mem a < 256) → 0 ≤ count < 2 ^ 31 →
  ∃ k s' evs, @sos_write _ (sos_call n ep badge) mem vData count (mk_seat s inputs) = Done (k, mk_seat s' inputs) ∧
    0 ≤ k ≤ count ∧ s_log s' = s_log s ++ evs ∧
    printed evs = (λ i, mem (vData + i)) <$> seqZ 0 k ∧
    ((∀ t, 1 ≤ e_serial (s_env s) t) → k = count).
Proof.
  intros Hfrom Hserial Hmem Hc. unfold sos_write.
  destruct (write_loop_prints n ep badge mem vData count s inputs p r
              (Z.to_nat ((count / (seL4_MsgMaxLength - 1) + 1) * FAIL_TOLERANCE)) 0 Hfrom Hserial Hmem)
    as (k & s' & evs & E & Hk & Hlog & Hp & Hall); [lia | lia |].
  exists k, s', evs. unfold mbind, U_bind. rewrite E. unfold mret, U_ret. rewrite u32_small by lia.
  split_and!; [by rewrite Z.add_0_l | lia | lia | done | done |].
  intros Hser. rewrite (Hall Hser); [lia |]. unfold seL4_MsgMaxLength, FAIL_TOLERANCE.
  pose proof (Z.div_pos count 119 ltac:(lia) ltac:(lia)). pose proof (Z.mod_pos_bound count 119 ltac:(lia)).
  pose proof (Z.div_mod count 119 ltac:(lia)). change (120 - 1) with 119. lia.
Qed.

(** * Calls that SOS answers at once *)

Lemma i32_int x : is_int (i32 x).
Proof.
  unfold is_int, i32. cbv zeta. assert (0 ≤ u32 x < 2 ^ 32) by (apply Z.mod_pos_bound; lia).
  destruct (Z.ltb_spec (u32 x) (2 ^ 31)); lia.
Qed.

Lemma called_load p r badge s : proc_at badge p r s → load (T := process) p (called p s) = Ret (r, called p s).
Proof. intros (_ & Hp & _ & Hh & _). by apply load_eq. Qed.

(** Two words make up a number again. *)
Lemma words_lor ts : Z.lor (Z.shiftl (ts / 2 ^ 32) 32) (ts mod 2 ^ 32) = ts.
Proof.
  rewrite Z.shiftl_mul_pow2, lor_high_low by (try apply Z.mod_pos_bound; lia).
  rewrite Z.mul_comm. symmetry. apply Z.div_mod. lia.
Qed.

Lemma my_id_answered n ep badge s inputs p r :
  from_process badge s p r →
  ∃ s', @sos_my_id _ (sos_call n ep badge) (mk_seat s inputs) = Done (badge_pid badge, mk_seat s' inputs).
Proof.
  intros Hfrom. destruct Hfrom as (Hb & Hp & Hc). pose proof Hp as (_ & Hp0 & _ & _ & Hid).
  destruct (call_replies n ep badge [SOS_SYSCALL_PROC_GET_ID] s inputs p r serv_proc_get_id 0 [u32 (badge_pid badge)]
              (called p s) []) as (s' & E & _); [done | done | | by rewrite app_nil_r | done |].
  - unfold serv_proc_get_id, proc_get_id. erewrite M_bind_eq; [reflexivity |].
    erewrite M_bind_eq by reflexivity. change (cur_proc_ptr (s_proc (called p s))) with p.
    destruct (Z.eqb_spec p 0); [done |]. erewrite M_bind_eq by (by eapply called_load). by rewrite Hid.
  - exists s'. unfold sos_my_id, mbind, U_bind, seL4_Call, w_call. rewrite E. unfold mret, U_ret, reply_int.
    cbn [fst snd mr nth]. change (label_bits 0 =? 0) with true. cbv iota. rewrite i32_u32; [done |]. apply i32_int.
Qed.

Lemma time_stamp_answered n ep badge s inputs p r :
  from_process badge s p r →
  ∃ s', @sos_sys_time_stamp _ (sos_call n ep badge) (mk_seat s inputs) = Done (i64 (time_of (s_clock s)), mk_seat s' inputs).
Proof.
  intros Hfrom. set (ts := time_of (s_clock s)) in *.
  destruct (call_replies n ep badge [SOS_SYSCALL_TIMESTAMP] s inputs p r serv_sys_timestamp 0 [ts mod 2 ^ 32; ts / 2 ^ 32]
              (called p s) []) as (s' & E & _); [done | done | done | by rewrite app_nil_r | done |].
  exists s'. unfold sos_sys_time_stamp, mbind, U_bind, seL4_Call, w_call. rewrite E. unfold mret, U_ret.
  cbn [fst snd mr nth]. change (label_bits 0 =? 0) with true. cbv iota. by rewrite words_lor.
Qed.

(** What a process asks about itself: its id and the time since boot are the ones SOS has,
    the time as a signed number, which is negative when the timer is not running. *)
Theorem process_asks n ep badge s inputs p r :
  from_process badge s p r →
  (∃ s', @sos_my_id _ (sos_call n ep badge) (mk_seat s inputs) = Done (p_pid r, mk_seat s' inputs)) ∧
  (∃ s', @sos_sys_time_stamp _ (sos_call n ep badge) (mk_seat s inputs) = Done (i64 (time_of (s_clock s)), mk_seat s' inputs)).
Proof.
  intros Hfrom. split; [| by eapply time_stamp_answered].
  assert (p_pid r = badge_pid badge) as -> by apply Hfrom. by eapply my_id_answered.
Qed.

(** * The break *)

Lemma brk_answered n ep badge s inputs p r asp a newbrk :
  from_process badge s p r → p_as r = asp → asp ≠ 0 → s_heap s !! asp = Some (OAddrspace a) →
  ∃ s', @sys_brk _ (sos_call n ep badge) newbrk (mk_seat s inputs) =
      Done (label_bits (sys_brk_in a newbrk).1, mk_seat s' inputs) ∧
    s_heap s' !! asp = Some (OAddrspace (sys_brk_in a newbrk).2).
Proof.
  intros Hfrom Has Hz Ha. pose proof Hfrom as (_ & Hp & _). pose proof Hp as (_ & Hp0 & _).
  destruct (call_replies n ep badge [SOS_SYSCALL_SYSBRK; newbrk] s inputs p r (λ cap, serv_sys_sbrk cap newbrk)
              (sys_brk_in a newbrk).1 []
              (set_s_heap (<[asp := OAddrspace (sys_brk_in a newbrk).2]> (s_heap (called p s))) (called p s)) [])
    as (s' & E & Es'); [done | done | | by rewrite app_nil_r | done |].
  - unfold serv_sys_sbrk, proc_getas. erewrite M_bind_eq.
    2: { erewrite M_bind_eq by reflexivity. change (cur_proc_ptr (s_proc (called p s))) with p.
         rewrite (proj2 (Z.eqb_neq p 0) Hp0). erewrite M_bind_eq by (by eapply called_load). rewrite Has. reflexivity. }
    by erewrite M_bind_eq by (by apply sos_sys_brk_eq).
  - exists s'. unfold sys_brk, mbind, U_bind, seL4_Call, w_call. rewrite E. split; [done |].
    rewrite Es'. cbn [s_heap set_s_log set_s_proc set_s_heap]. apply lookup_insert_eq.
Qed.

(** [C37] A break that SOS grants.  The heap reaches up to it in either case; the C library
    learns of it only when it is below one mebibyte, since the answer travels in a label
    of 20 bits, and fails otherwise. *)
Theorem libc_brk_label n ep badge s inputs p r asp a h end_ :
  from_process badge s p r → p_as r = asp → asp ≠ 0 → s_heap s !! asp = Some (OAddrspace a) →
  as_heap a = Some h → 0 < end_ < 2 ^ 32 → vbase h ≤ end_ →
  existsb (region_overlap (set_vtop end_ h)) (option_list (as_stack a) ++ as_rhead a) = false →
  ∃ s' a', @libc_brk _ (sos_call n ep badge) end_ (mk_seat s inputs) =
      Done (if end_ <? 2 ^ 20 then 0 else -1, mk_seat s' inputs) ∧
    s_heap s' !! asp = Some (OAddrspace a') ∧ as_heap a' = Some (mk_region (vbase h) end_ (r_rights h)).
Proof.
  intros Hfrom Has Hz Ha Hh He Hbase Hov.
  destruct (brk_answered n ep badge s inputs p r asp a end_ Hfrom Has Hz Ha) as (s' & E & Hs').
  assert (sys_brk_in a end_ = (end_, set_as_heap (Some (set_vtop end_ h)) a)) as Eb.
  { unfold sys_brk_in. rewrite Hh. destruct (Z.eqb_spec end_ 0); [lia |]. destruct (Z.ltb_spec end_ (vbase h)); [lia |].
    rewrite existsb_app in Hov. apply orb_false_iff in Hov as [Hst ->].
    destruct (as_stack a) as [st |]; [| done]. cbn in Hst. by rewrite orb_false_r in Hst; rewrite Hst. }
  rewrite Eb in E, Hs'. cbn [fst snd] in E, Hs'. exists s', (set_as_heap (Some (set_vtop end_ h)) a).
  split_and!; [| done | done]. unfold libc_brk, mbind, U_bind. rewrite E. unfold mret, U_ret. do 3 f_equal.
  assert (0 ≤ label_bits end_ < 2 ^ 20) as Hl by (apply Z.mod_pos_bound; lia).
  unfold Morecore.syscall_ret. rewrite (u32_small (label_bits end_)) by lia. destruct (Z.ltb_spec (2 ^ 32 - 4096) (label_bits end_)); [lia |].
  rewrite u32_small by lia. destruct (Z.ltb_spec end_ (2 ^ 20)) as [H1 | H1].
  - unfold label_bits. rewrite Z.mod_small by lia. by rewrite Z.eqb_refl.
  - by destruct (Z.eqb_spec (label_bits end_) end_); [lia |].
Qed.

(** * Examples *)

(** A process at address 8 with its address space at 16; a serial port that takes
    two bytes at a time. *)
Definition user_env : env :=
  mk_env (λ _, true) (λ _, 7) (λ _, rpc_sent) (λ _, 2) (λ _, true) (λ _, 0) 0.

Definition user_process : process := set_p_as 16 (set_p_pid 0 (new_process 4 0)).

Definition user_sos : sos :=
  set_s_proc (mk_procst (8 :: replicate 63 0) 1 (replicate 64 0) (replicate 64 0) [] 0)
    (set_s_heap (<[8 := OProcess user_process]> {[ 16 := OAddrspace as_example ]}) (sos_start user_env ut_example)).

Lemma user_sos_from : from_process USER_EP_BADGE user_sos 8 user_process.
Proof.
  split; [reflexivity |]. split; [| cbn; lia].
  split_and!; [by vm_compute | lia | by vm_compute | | by vm_compute]. apply lookup_insert_eq.
Qed.

(** The bytes of a buffer at address 0. *)
Definition hello (a : Z) : Z := u8 (nth (Z.to_nat a) [104; 101; 108; 108; 111] 0).

Lemma sos_write_prints_witness :
  ∃ s' evs, @sos_write _ (sos_call 1 5 USER_EP_BADGE) hello 0 5 (mk_seat user_sos []) = Done (5, mk_seat s' []) ∧
    s_log s' = s_log user_sos ++ evs ∧ printed evs = [104; 101; 108; 108; 111].
Proof.
  destruct (sos_write_prints 1 5 USER_EP_BADGE hello 0 5 user_sos [] 8 user_process)
    as (k & s' & evs & E & _ & Hlog & Hp & Hall).
  - exact user_sos_from.
  - intros t. reflexivity.
  - intros a. apply Z.mod_pos_bound. lia.
  - lia.
  - assert (k = 5) as Hk by (apply Hall; cbn; lia). rewrite Hk in E, Hp.
    exists s', evs. split; [exact E |]. split; [exact Hlog |]. rewrite Hp. reflexivity.
Defined.

Lemma process_asks_witness :
  (∃ s', @sos_my_id _ (sos_call 1 5 USER_EP_BADGE) (mk_seat user_sos []) = Done (0, mk_seat s' [])) ∧
  (∃ s', @sos_sys_time_stamp _ (sos_call 1 5 USER_EP_BADGE) (mk_seat user_sos []) = Done (-1, mk_seat s' [])).
Proof.
  apply (process_asks 1 5 USER_EP_BADGE user_sos [] 8 user_process). exact user_sos_from.
Defined.

(** A break of two mebibytes, which SOS grants. *)
Lemma libc_brk_label_witness :
  ∃ s' a', @libc_brk _ (sos_call 1 5 USER_EP_BADGE) 0x200000 (mk_seat user_sos []) = Done (-1, mk_seat s' []) ∧
    s_heap s' !! 16 = Some (OAddrspace a') ∧ as_heap a' = Some (mk_region 0xb000 0x200000 3).
Proof.
  apply (libc_brk_label 1 5 USER_EP_BADGE user_sos [] 8 user_process 16 as_example (mk_region 0xb000 0xb000 3)).
  - exact user_sos_from.
  - reflexivity.
  - discriminate.
  - reflexivity.
  - reflexivity.
  - lia.
  - cbn. lia.
  - reflexivity.
Defined.
