(* ===== verification/Serial.v ===== *)
(** The serial port over the network (libs/libserial/src/serial.c).

    The console of SOS is a UDP connection.  [serial_send] cuts the bytes into
    packets and says how many of them it has sent; [serial_recv_handler] hands
    the bytes of a packet to the handler that SOS has registered.  lwIP answers
    from an environment.  The theorems show that what SOS assumes of the port is
    what the library does: see [serial_send] of Console.v and [network_irq] of
    Machine.v. *)

From S2P Require Import Prelude UtAllocator Sos Hoare Pbuf Mapping SwapSlots FrameTable ProcTable.
From S2P Require Import AddrSpace PageTable Swap CopyInOut Clock Console NfsDev Vfs FileTable.
From S2P Require Import Elf Process Vm Syscalls Machine.


(** * lwIP *)



(** The contents of a new packet buffer of this length, or no memory; whether a
    packet is sent, and whether the calls on a connection succeed. *)
Record lwip : Type := mk_lwip {
  lw_alloc : nat → Z → option (list Z);
  lw_send : nat → bool;
  lw_new : nat → bool;
  lw_bind : nat → bool;
  lw_connect : nat → bool
}.

(** The static variable of the library, with the packets sent so far and the
    number of questions to lwIP. *)
Record serialst : Type := mk_serialst {
  se_upcb : bool;
  se_handler : bool;
  se_sent : list (list Z);
  se_tick : nat
}.

Definition serial_boot : serialst := mk_serialst false false [] 0.

(** * Sending *)



(** * Starting and receiving *)

(** [serial_init]: is there a connection.  A connection that could not be made is
    bound all the same. *)
Definition lib_serial_init (env : lwip) (s : serialst) : outcome (bool * serialst) :=
  if se_upcb s then Ret (true, s) else
  let t := se_tick s in
  let failed k := mk_serialst false (se_handler s) (se_sent s) (k + t) in
  if negb (lw_new env t) then Fault NullDeref
  else if negb (lw_bind env (S t)) then Ret (false, failed 2%nat)
  else if negb (lw_connect env (S (S t))) then Ret (false, failed 3%nat)
  else Ret (true, mk_serialst true (se_handler s) (se_sent s) (3 + t)).

(** [handler] says whether the handler is a function or NULL. *)
Definition lib_serial_register_handler (handler : bool) (s : serialst) : Z * serialst :=
  (0, mk_serialst (se_upcb s) handler (se_sent s) (se_tick s)).

Fixpoint each_byte (handler : Z → M unit) (data : list Z) : M unit :=
  match data with
  | [] => mret tt
  | c :: data' => _ ← handler c; each_byte handler data'
  end.

Fixpoint each_segment (handler : Z → M unit) (p : pbuf) : M unit :=
  match p with
  | [] => mret tt
  | seg :: p' => _ ← each_byte handler seg; each_segment handler p'
  end.

Definition serial_recv_handler (handler : Z → M unit) (s : serialst) (p : pbuf) : M unit :=
  if se_handler s then each_segment handler p else mret tt.

(** * Properties *)






Lemma each_byte_app handler l1 l2 s :
  each_byte handler (l1 ++ l2) s = (_ ← each_byte handler l1; each_byte handler l2) s.
Proof.
  revert s. induction l1 as [|c l1 IH]; intros s; [done |]. cbn [app each_byte]. rewrite M_bind_assoc.
  apply M_bind_ext. intros a s' _. apply IH.
Qed.

Lemma each_segment_concat handler p s : each_segment handler p s = each_byte handler (concat p) s.
Proof.
  revert s. induction p as [|seg p IH]; intros s; [done |]. cbn [concat each_segment].
  rewrite each_byte_app. apply M_bind_ext. intros a s' _. apply IH.
Qed.

(** A packet for the serial port is what the event loop takes for it: the bytes of the chain,
    one after the other, each given to the handler of the console. *)
Theorem serial_recv_refines rec p s st :
  se_handler st = true →
  serial_recv_handler (read_handler rec) st p s = network_irq rec (PktSerial <$> concat p) s.
Proof.
  intros Hh. unfold serial_recv_handler. rewrite Hh, each_segment_concat.
  revert s. induction (concat p) as [|c l IH]; intros s; [done |]. cbn [each_byte fmap list_fmap network_irq].
  apply M_bind_ext. intros a s' _. apply IH.
Qed.

(** A fault-free network that never gives a buffer of the wrong size. *)
Definition lwip_exact : lwip :=
  mk_lwip (λ _ n, if 0 <=? n then Some (replicate (Z.to_nat n) 0) else None)
    (λ _, true) (λ _, true) (λ _, true) (λ _, true).

Definition serial_up : serialst :=
  match lib_serial_init lwip_exact serial_boot with
  | Ret (_, s) => (lib_serial_register_handler true s).2
  | Fault _ => serial_boot
  end.


Lemma serial_recv_refines_witness :
  serial_recv_handler (read_handler (run 1)) serial_up [[104; 105]; [10]] (sos_start env_ok ut_example) =
    network_irq (run 1) [PktSerial 104; PktSerial 105; PktSerial 10] (sos_start env_ok ut_example).
Proof. apply (serial_recv_refines (run 1) [[104; 105]; [10]]). reflexivity. Defined.
