(* ===== verification/NfsSos.v ===== *)
(** libnfs implements what the rest of the model assumes of it.

    The model of SOS keeps the requests that wait for a reply in a list, lets the
    environment choose whether a request is sent, refused or queued with an
    error, and delivers a reply to any of the waiting requests.  The queue of
    libnfs is such a list: each request of SOS that libnfs takes, and each packet
    it receives, is one of these steps. *)

From S2P Require Import Prelude UtAllocator Sos Hoare Pbuf Rpc Nfs Mount RpcInv NfsWire NfsRecv.
From S2P Require Import NfsQueue RpcCall Mapping SwapSlots FrameTable ProcTable AddrSpace PageTable.
From S2P Require Import Swap CopyInOut Clock Console NfsDev Vfs FileTable Elf Process Vm Syscalls.
From S2P Require Import Machine.

(** * The calls *)

(** The attributes [nfs_dev_create] gives a new file: [S_IRUSR | S_IWUSR]. *)
Definition create_sattr : sattr_t := mk_sattr 384 0 0 0 (0, 0) (0, 0).

Definition sos_request (r : rpc) : request :=
  match r with
  | rpc_lookup dir name _ _ => RLookup dir name
  | rpc_create dir name _ _ => RCreate dir name create_sattr
  | rpc_read fh offset count _ _ => RRead fh offset count
  | rpc_write fh offset data _ _ | rpc_write_freed fh offset data =>
      RWrite fh offset (Zlength data) data
  | rpc_readdir dir cookie _ => RReaddir dir cookie
  end.

Definition sos_callback (r : rpc) : nfs_callback :=
  match r with
  | rpc_lookup _ _ cb _ | rpc_create _ _ cb _ => CbLookup cb
  | rpc_read _ _ _ cb _ => CbRead cb
  | rpc_write _ _ _ cb _ => CbWrite cb
  | rpc_write_freed _ _ _ => CbNull
  | rpc_readdir _ _ _ => CbReaddir
  end.

Definition sos_token (r : rpc) : Z :=
  match r with
  | rpc_lookup _ _ _ token | rpc_create _ _ _ token | rpc_read _ _ _ _ token
  | rpc_write _ _ _ _ token | rpc_readdir _ _ token => token
  | rpc_write_freed _ _ _ => 0
  end.

(** The function of SOS that libnfs calls. *)
Definition run_upcall (rec : interp) (u : upcall) : M unit :=
  match up_callback u with
  | CbLookup f => deliver_lookup rec f (up_token u) (up_reply u)
  | CbRead f => deliver_read rec f (up_token u) (up_reply u)
  | CbWrite f => deliver_write rec f (up_token u) (up_reply u)
  | CbReaddir =>
      nfs_dev_getdirent_handler rec (up_token u) (rep_status (up_reply u))
        (rep_names (up_reply u)) (rep_cookie (up_reply u))
  | _ => mret tt
  end.

(** * The handlers call back once *)

(** What only calling back changes. *)
Definition outbox (s : rpc_state) : list upcall * gmap Z (Z * Z) := (r_upcalls s, r_wraps s).

Definition calls_once (cb : nfs_callback) (token : Z) (m : N unit) : Prop :=
  ∀ s s', m s = Ret (tt, s') →
    ∃ r, outbox s' = (r_upcalls s ++ [mk_upcall cb token r], r_wraps s).

Lemma calls_once_bind {A : Type} cb token (m : N A) (k : A → N unit) :
  keeps_view outbox m → (∀ a, calls_once cb token (k a)) → calls_once cb token (m ≫= k).
Proof.
  intros Hm Hk s s' H. apply N_bind_Ret in H as (a & s1 & H1 & H2).
  apply Hm in H1. injection H1 as Eu Ew. destruct (Hk _ _ _ H2) as [r Hr]. exists r.
  by rewrite Hr, Eu, Ew.
Qed.

Lemma calls_once_back cb token r : calls_once cb token (call_back cb token r).
Proof. intros s s' [= <-]. by exists r. Qed.

Lemma outbox_start cb : keeps_view outbox (reply_start cb).
Proof. by apply keeps_view_reply_start. Qed.

Lemma outbox_readdir fuel p pos cookie : keeps_view outbox (readdir_entries fuel p pos cookie).
Proof. by apply keeps_view_readdir. Qed.

Lemma outbox_ask {A : Type} (g : rpc_env → nat → A) : keeps_view outbox (askN g).
Proof. by apply keeps_view_ask. Qed.

#[local] Hint Resolve calls_once_back outbox_start outbox_readdir outbox_ask keeps_view_lift keeps_view_assert
  keeps_view_ret keeps_view_gets : outbox.

Ltac calls_once :=
  repeat match goal with
  | |- calls_once _ _ (mbind _ _) => apply calls_once_bind; [eauto 2 with outbox | intros ?]
  | |- calls_once _ _ (let _ := _ in _) => cbv zeta
  | |- calls_once _ _ (match ?x with _ => _ end) => destruct x
  | |- calls_once _ _ _ => solve [eauto 2 with outbox]
  end.

Lemma handle_calls_once q p :
  q_func q ≠ rpc_call_cb → q_func q ≠ nfs_write_cb → calls_once (q_callback q) (q_arg q) (handle q p).
Proof.
  intros Hc Hw. unfold handle, _nfs_getattr_cb, _nfs_create_cb, _nfs_lookup_cb, _nfs_read_cb,
    _nfs_remove_cb, _nfs_readdir_cb. destruct (q_func q); try done; calls_once.
Qed.

(** The handler of a write calls back with the token in the wrapper. *)
Lemma write_calls_once cb arg p s s' :
  _nfs_write_cb cb arg p s = Ret (tt, s') →
  ∃ token count r, r_wraps s !! arg = Some (token, count) ∧
    outbox s' = (r_upcalls s ++ [mk_upcall cb token r], delete arg (r_wraps s)).
Proof.
  unfold _nfs_write_cb. intros H. apply N_bind_Ret in H as (r & s1 & H1 & H).
  apply outbox_start in H1. apply N_bind_Ret in H as (st & s2 & H2 & H).
  apply (keeps_view_lift outbox) in H2. apply N_bind_Ret in H as (r' & s3 & H3 & H).
  assert (outbox s3 = outbox s2) as E3.
  { destruct st as [[status pos] |]; [| by apply (keeps_view_ret outbox) in H3].
    destruct (status =? NFS_OK); [| by apply (keeps_view_ret outbox) in H3].
    revert H3. apply keeps_view_bind; [apply keeps_view_lift | intros []; apply keeps_view_ret]. }
  rewrite H2, H1 in E3. injection E3 as Eu Ew.
  apply N_bind_Ret in H as (w & s4 & [= <- <-] & H). rewrite Ew in H.
  destruct (r_wraps s !! arg) as [[token count] |] eqn:Ea; [| done].
  exists token, count. eexists. split; [done |].
  injection H as <-. unfold outbox. cbn. by rewrite Eu, Ew.
Qed.

(** * The waiting requests *)

Definition is_write_item (q : rpc_item) : Prop := q_func q = nfs_write_cb.

(** The queue item [q] is the request [r]. *)
Definition item_rel (w : gmap Z (Z * Z)) (q : rpc_item) (r : rpc) : Prop :=
  q_func q = request_func (sos_request r) ∧
  server_view (concat (q_pbuf q)) = Some (q_xid q, client_call (sos_request r)) ∧
  match r with
  | rpc_write _ _ data cb token =>
      q_callback q = CbWrite cb ∧ w !! q_arg q = Some (token, Z.min (Zlength data) write_limit)
  | rpc_write_freed _ _ _ => w !! q_arg q = None
  | _ => q_callback q = sos_callback r ∧ q_arg q = sos_token r
  end.

(** The wrappers of the waiting writes are different. *)
Definition wraps_ok (s : rpc_state) : Prop :=
  Forall (λ q, is_write_item q → q_arg q < r_next s) (r_queue s) ∧
  ∀ i j q q', r_queue s !! i = Some q → r_queue s !! j = Some q' →
    is_write_item q → is_write_item q' → q_arg q = q_arg q' → i = j.

Record lib_rel (n : rpc_state) (l : list rpc) : Prop := {
  lr_items : Forall2 (item_rel (r_wraps n)) (r_queue n) l;
  lr_wraps : wraps_ok n
}.

Lemma item_rel_ext w w' q r :
  (is_write_item q → w' !! q_arg q = w !! q_arg q) → item_rel w q r → item_rel w' q r.
Proof.
  intros Hw (Hf & Hv & Hr). split_and!; [done.. |].
  destruct r; try done; (assert (is_write_item q) as Hq by done); rewrite Hw by done; done.
Qed.

Lemma item_rel_func w q r : item_rel w q r → q_func q ≠ rpc_call_cb.
Proof. intros (-> & _ & _). by destruct r. Qed.

(** * Requests *)

Lemma wraps_ok_add n n' q :
  wraps_ok n → r_next n ≤ r_next n' → r_queue n' = r_queue n ++ [q] →
  (is_write_item q → q_arg q = r_next n ∧ r_next n < r_next n') → wraps_ok n'.
Proof.
  intros [Hlt Hd] Hn Eq Hq. unfold wraps_ok. rewrite Eq. split.
  - apply Forall_app. split; [eapply Forall_impl; [exact Hlt |]; intros x Hx Hx'; specialize (Hx Hx'); lia |].
    apply Forall_singleton. intros Hw. destruct (Hq Hw). lia.
  - assert (∀ i x, r_queue n !! i = Some x → is_write_item x → is_write_item q → q_arg x ≠ q_arg q) as Hne.
    { intros i x Hi Hx Hw E. rewrite Forall_lookup in Hlt. specialize (Hlt _ _ Hi Hx). destruct (Hq Hw). lia. }
    intros i j x x' Hi Hj Hx Hx' E.
    apply lookup_app_Some in Hi as [Hi | [Hli Hi]]; apply lookup_app_Some in Hj as [Hj | [Hlj Hj]].
    + by eapply Hd.
    + destruct (j - length (r_queue n))%nat; [| done]. injection Hj as <-. by destruct (Hne i x).
    + destruct (i - length (r_queue n))%nat; [| done]. injection Hi as <-. by destruct (Hne j x').
    + destruct (i - length (r_queue n))%nat eqn:E1; [| done]. destruct (j - length (r_queue n))%nat eqn:E2; [| done]. lia.
Qed.

(** A request that SOS makes; [rpc_write_freed] is not one. *)
Definition is_call (r : rpc) : Prop := match r with rpc_write_freed _ _ _ => False | _ => True end.

(** The request that waits after the answer [stat]. *)
Definition queued_as (stat : Z) (r : rpc) : rpc := if stat =? RPC_OK then r else unsent r.

Lemma posted_rel n n' stat r q l :
  is_call r → lib_rel n l → r_next n ≤ r_next n' →
  posted n n' stat (sos_request r) (sos_callback r) (sos_token r) q →
  lib_rel n' (l ++ [queued_as stat r]).
Proof.
  intros Hr [Hi Hw] Hle [Eq Ex Eqx Hv _ _ [Hf Hcb] Ha _].
  assert (∀ x, is_write_item x → q_arg x < r_next n → r_wraps n' !! q_arg x = r_wraps n !! q_arg x) as Hsame.
  { intros x Hx Hlx. destruct r; cbn [sos_request] in Ha; try (by destruct Ha as [_ ->]); [| done].
    destruct Ha as (_ & _ & ->). destruct (stat =? RPC_OK); [apply lookup_insert_ne | apply lookup_delete_ne]; lia. }
  split.
  - rewrite Eq. apply Forall2_app.
    + destruct Hw as [Hwl _]. clear -Hi Hwl Hsame. induction Hi as [|x r' xs l Hx _ IH]; [constructor |].
      apply Forall_cons in Hwl as [H1 H2]. constructor; [| by apply IH].
      eapply item_rel_ext; [| exact Hx]. intros Hxw. by apply Hsame; [| apply H1].
    + constructor; [| constructor]. unfold item_rel, queued_as. rewrite Hf, Hcb, Eqx, Hv.
      destruct (stat =? RPC_OK); destruct r; try done; cbn [unsent sos_request sos_callback sos_token] in *;
        try (by destruct Ha); destruct Ha as (-> & _ & ->); (split_and!; [done.. |]).
      * apply lookup_insert_eq.
      * apply lookup_delete_eq.
  - eapply wraps_ok_add; [exact Hw | done | exact Eq |]. intros Hq.
    unfold is_write_item in Hq. rewrite Hf in Hq. destruct r; try done. by destruct Ha as (? & ? & _).
Qed.

Lemma wraps_ok_mono n n' :
  r_queue n' = r_queue n → r_next n ≤ r_next n' → wraps_ok n → wraps_ok n'.
Proof.
  intros Eq Hn [Hl Hd]. unfold wraps_ok. rewrite Eq. split; [| done].
  eapply Forall_impl; [exact Hl |]. intros x Hx Hw. specialize (Hx Hw). lia.
Qed.

(** The requests that wait after [send_rpc], by the answer of the environment. *)
Definition after_send (a : rpc_answer) (r : rpc) (l : list rpc) : list rpc :=
  match a with
  | rpc_sent => l ++ [r]
  | rpc_refused => l
  | rpc_unsent => l ++ [unsent r]
  end.

Lemma send_rpc_eq r s a :
  e_rpc (s_env s) (s_tick s) = a →
  ∃ s', send_rpc r s = Ret (match a with rpc_sent => true | _ => false end, s') ∧
    s_rpcs s' = after_send a r (s_rpcs s).
Proof.
  intros Ha. unfold send_rpc, mbind, M_bind, ask. rewrite Ha.
  destruct a; (eexists; split; [reflexivity |]); reflexivity.
Qed.

(** What happens to a request is one of the answers [send_rpc] allows. *)
Lemma request_refines n l r stat n' :
  is_call r → live n → valid_request (sos_request r) → lib_rel n l →
  do_request (sos_request r) (sos_callback r) (sos_token r) n = Ret (stat, n') →
  ∃ a, (stat =? RPC_OK) = (match a with rpc_sent => true | _ => false end) ∧
    lib_rel n' (after_send a r l).
Proof.
  intros Hr Hl Hv Hrel E.
  destruct (do_request_posts n (sos_request r) (sos_callback r) (sos_token r) (lv_ready _ Hl) Hv)
    as (stat' & n1 & E' & (_ & _ & _ & _ & _ & _ & Hnext) & H). rewrite E in E'. injection E' as <- <-.
  destruct H as [(-> & Eq & _ & _ & Ew & _) | [q Hq]].
  - exists rpc_refused. split; [done |]. destruct Hrel as [Hi Hw].
    split; [by rewrite Eq, Ew | by eapply wraps_ok_mono].
  - pose proof (posted_rel _ _ _ _ _ _ Hr Hrel Hnext Hq) as Hrel'. unfold queued_as in Hrel'.
    exists (if stat =? RPC_OK then rpc_sent else rpc_unsent). by destruct (stat =? RPC_OK).
Qed.

(** * Replies *)

Lemma wraps_ok_delete n n' k :
  r_queue n' = delete k (r_queue n) → r_next n' = r_next n → wraps_ok n → wraps_ok n'.
Proof.
  intros Eq En [Hl Hd]. unfold wraps_ok. rewrite Eq, En. split; [by apply Forall_delete |].
  assert (∀ i x, delete k (r_queue n) !! i = Some x →
            r_queue n !! (if (i <? k)%nat then i else S i) = Some x) as Hlk.
  { intros i x Hi. destruct (Nat.ltb_spec i k).
    - by rewrite list_lookup_delete_lt in Hi by lia.
    - by rewrite list_lookup_delete_ge in Hi by lia. }
  intros i j x x' Hi Hj Hx Hx' E. pose proof (Hd _ _ _ _ (Hlk _ _ Hi) (Hlk _ _ Hj) Hx Hx' E) as Hij.
  destruct (Nat.ltb_spec i k), (Nat.ltb_spec j k); lia.
Qed.

Lemma Forall2_delete {A B : Type} (P : A → B → Prop) k l l' :
  Forall2 P l l' → Forall2 P (delete k l) (delete k l').
Proof.
  intros H. rewrite !delete_take_drop. apply Forall2_app; [by apply Forall2_take | by apply Forall2_drop].
Qed.

(** The wrapper that goes with the item [k] is not that of another one. *)
Lemma items_rel_delete n n' l k q :
  lib_rel n l → r_queue n !! k = Some q → r_queue n' = delete k (r_queue n) →
  r_wraps n' = (if decide (is_write_item q) then delete (q_arg q) (r_wraps n) else r_wraps n) →
  Forall2 (item_rel (r_wraps n')) (r_queue n') (delete k l).
Proof.
  intros [Hi [_ Hd]] Hk Eq Ew. rewrite Eq, Ew. destruct (decide (is_write_item q)) as [Hq |]; [| by apply Forall2_delete].
  rewrite delete_take_drop, (delete_take_drop l). apply Forall2_app; apply Forall2_same_length_lookup_2.
  - rewrite !length_take, (Forall2_length _ _ _ Hi). done.
  - intros i x y Hx Hy. apply lookup_take_Some in Hx as [Hx Hlt]. apply lookup_take_Some in Hy as [Hy _].
    eapply item_rel_ext; [| by eapply Forall2_lookup_lr]. intros Hxw. apply lookup_delete_ne. intros E.
    specialize (Hd _ _ _ _ Hk Hx Hq Hxw E). lia.
  - rewrite !length_drop, (Forall2_length _ _ _ Hi). done.
  - intros i x y Hx Hy. rewrite lookup_drop in Hx. rewrite lookup_drop in Hy.
    eapply item_rel_ext; [| by eapply Forall2_lookup_lr]. intros Hxw. apply lookup_delete_ne. intros E.
    specialize (Hd _ _ _ _ Hk Hx Hq Hxw E). lia.
Qed.

(** What the handler of a waiting request does: it calls the client of that
    request back; for a write whose wrapper is gone it does not return. *)
Lemma handle_upcall n n' q r p :
  item_rel (r_wraps n) q r → handle q p n = Ret (tt, n') →
  ∃ u, r_upcalls n' = r_upcalls n ++ [u] ∧
    r_wraps n' = (if decide (is_write_item q) then delete (q_arg q) (r_wraps n) else r_wraps n) ∧
    ∀ rec, deliver rec r (up_reply u) = run_upcall rec u.
Proof.
  intros Hrel E. pose proof (item_rel_func _ _ _ Hrel) as Hcall. destruct Hrel as (Hf & _ & Hr).
  destruct (decide (is_write_item q)) as [Hq | Hq].
  - unfold handle in E. rewrite Hq in E. apply write_calls_once in E as (token & count & rep & Ea & Eo).
    injection Eo as Eu Ew. exists (mk_upcall (q_callback q) token rep). split_and!; [done.. |].
    intros rec. unfold is_write_item in Hq. rewrite Hf in Hq.
    destruct r; try done; cbn in Hr; [| congruence].
    destruct Hr as [Hcb Hw]. rewrite Ea in Hw. injection Hw as -> _. by rewrite Hcb.
  - apply handle_calls_once in E as [rep Eo]; [| done..]. injection Eo as Eu Ew.
    exists (mk_upcall (q_callback q) (q_arg q) rep). split_and!; [done.. |]. intros rec.
    unfold is_write_item in Hq. rewrite Hf in Hq.
    destruct r; try done; destruct Hr as [-> ->]; done.
Qed.

(** A packet changes nothing, or it is the reply to the request at some position
    of the list: libnfs calls SOS exactly as [deliver_reply] does for it. *)
Lemma packet_refines n l p n' :
  lib_rel n l → my_recv handle p n = Ret (tt, n') →
  n' = n ∨
  ∃ k u, r_upcalls n' = r_upcalls n ++ [u] ∧ lib_rel n' (delete k l) ∧
    ∀ rec s, s_rpcs s = l →
      deliver_reply rec k (up_reply u) s = run_upcall rec u (set_s_rpcs (delete k l) s).
Proof.
  intros Hrel. rewrite my_recv_eq. destruct (extract_xid p) as [xid |]; [| done]. cbn [mbind outcome_bind].
  destruct (take_xid xid (r_queue n)) as [[q l'] |] eqn:E; [| intros [= <-]; by left].
  apply take_xid_Some in E as (_ & k & Hk & ->). intros H. right.
  destruct (Forall2_lookup_l _ _ _ _ _ (lr_items _ _ Hrel) Hk) as (r & Hr & Hqr).
  pose proof (keeps_core_handle _ _ _ _ _ H) as Hcore. unfold core in Hcore. injection Hcore as Eq _ _ _ _ _ En.
  destruct (handle_upcall (set_r_queue (delete k (r_queue n)) n) n' q r p Hqr H) as (u & Eu & Ew & Hdel).
  exists k, u. split_and!; [done | |].
  - split; [| by eapply wraps_ok_delete; [| | apply Hrel]]. by eapply items_rel_delete.
  - intros rec s Es. unfold deliver_reply, mbind, M_bind, gets, modify. rewrite Es, Hr. by rewrite Hdel.
Qed.

(** * Runs *)

(** What SOS sees of libnfs: a request and whether it went well, a callback. *)
Inductive nfs_event : Type :=
  | Requested (r : rpc) (ok : bool)
  | Answered (u : upcall).

Inductive lib_step : rpc_state → list nfs_event → rpc_state → Prop :=
  | lib_request (r : rpc) (stat : Z) (n n' : rpc_state) :
      is_call r → valid_request (sos_request r) →
      do_request (sos_request r) (sos_callback r) (sos_token r) n = Ret (stat, n') →
      lib_step n [Requested r (stat =? RPC_OK)] n'
  | lib_packet (p : pbuf) (us : list upcall) (n n' : rpc_state) :
      my_recv handle p n = Ret (tt, n') → r_upcalls n' = r_upcalls n ++ us →
      lib_step n (Answered <$> us) n'
  | lib_timeout (n n' : rpc_state) :
      nfs_timeout n = Ret (tt, n') → lib_step n [] n'.

(** The same for the model of SOS: [send_rpc] with some answer of the environment,
    and [deliver_reply] for some position. *)
Inductive abs_step : list rpc → list nfs_event → list rpc → Prop :=
  | abs_send (r : rpc) (a : rpc_answer) (ok : bool) (l l' : list rpc) :
      (∀ s, s_rpcs s = l → e_rpc (s_env s) (s_tick s) = a →
         ∃ s', send_rpc r s = Ret (ok, s') ∧ s_rpcs s' = l') →
      abs_step l [Requested r ok] l'
  | abs_deliver (k : nat) (u : upcall) (l : list rpc) :
      (∀ rec s, s_rpcs s = l →
         deliver_reply rec k (up_reply u) s = run_upcall rec u (set_s_rpcs (delete k l) s)) →
      abs_step l [Answered u] (delete k l)
  | abs_idle (l : list rpc) : abs_step l [] l.

Inductive run_of {S : Type} (step : S → list nfs_event → S → Prop) : S → list nfs_event → S → Prop :=
  | run_nil (s : S) : run_of step s [] s
  | run_cons (s1 s2 s3 : S) (es es' : list nfs_event) :
      step s1 es s2 → run_of step s2 es' s3 → run_of step s1 (es ++ es') s3.

Lemma item_rel_after w ms b q r : item_rel w q r → item_rel w (after ms q b) r.
Proof. by destruct b. Qed.

Lemma timeout_refines n l n' :
  live n → lib_rel n l → nfs_timeout n = Ret (tt, n') → lib_rel n' l.
Proof.
  intros Hl [Hi [Hw Hd]] E. destruct (live_timeout _ _ _ Hl E) as (_ & _ & Ew & En & bs & Hb & Eq).
  assert (∀ i x, r_queue n' !! i = Some x → ∃ y b, r_queue n !! i = Some y ∧ x = after 100 y b) as Hlk.
  { intros i x Hx. rewrite Eq, lookup_zip_with in Hx. destruct (r_queue n !! i) as [y |]; [| done].
    destruct (bs !! i) as [b |]; [| done]. injection Hx as <-. by exists y, b. }
  split; [| split].
  - rewrite Ew, Eq. clear -Hi Hb. revert bs Hb. induction Hi as [|q r qs l Hq _ IH]; intros [|b bs] Hb; try done.
    constructor; [by apply item_rel_after | apply IH; by injection Hb].
  - apply Forall_lookup. intros i x Hx Hxw. destruct (Hlk _ _ Hx) as (y & b & Hy & ->).
    rewrite Forall_lookup in Hw. rewrite En. specialize (Hw _ _ Hy). by destruct b; apply Hw.
  - intros i j x x' Hx Hx' Hxw Hxw' Ea. destruct (Hlk _ _ Hx) as (y & b & Hy & ->).
    destruct (Hlk _ _ Hx') as (y' & b' & Hy' & ->). by apply (Hd i j y y'); destruct b, b'.
Qed.

Lemma lib_step_live n es n' : live n → lib_step n es n' → live n'.
Proof.
  intros Hl Hs. destruct Hs as [r stat n n' _ Hv E | p us n n' E _ | n n' E].
  - by eapply live_request.
  - destruct (my_recv_core _ _ _ E) as [Ec | (k & q & _ & _ & Ec)]; (eapply live_core; [exact Ec |]);
      [done | by apply live_delete].
  - by destruct (live_timeout _ _ _ Hl E).
Qed.

Lemma lib_step_refines n es n' l :
  live n → lib_rel n l → lib_step n es n' → ∃ l', abs_step l es l' ∧ lib_rel n' l'.
Proof.
  intros Hl Hrel Hs. destruct Hs as [r stat n n' Hr Hv E | p us n n' E Eu | n n' E].
  - destruct (request_refines n l r stat n' Hr Hl Hv Hrel E) as (a & -> & Hrel').
    exists (after_send a r l). split; [| done]. apply (abs_send r a). intros s <- Ha. by apply send_rpc_eq.
  - destruct (packet_refines _ _ _ _ Hrel E) as [-> | (k & u & Eu' & Hrel' & Hdel)].
    + assert (us = []) as -> by (apply (app_inv_head (r_upcalls n)); by rewrite app_nil_r).
      exists l. split; [apply abs_idle | done].
    + rewrite Eu' in Eu. apply app_inv_head in Eu as <-. exists (delete k l). split; [by apply abs_deliver | done].
  - exists l. split; [apply abs_idle |]. by eapply timeout_refines.
Qed.

Lemma lib_run_refines n es n' l :
  run_of lib_step n es n' → live n → lib_rel n l → ∃ l', run_of abs_step l es l' ∧ lib_rel n' l'.
Proof.
  intros Hr. revert l. induction Hr as [n | n1 n2 n3 es es' Hs _ IH]; intros l Hl Hrel.
  - exists l. split; [constructor | done].
  - destruct (lib_step_refines _ _ _ _ Hl Hrel Hs) as (l1 & Hs1 & Hrel1).
    destruct (IH l1 (lib_step_live _ _ _ Hl Hs) Hrel1) as (l2 & Hr2 & Hrel2).
    exists l2. split; [by econstructor | done].
Qed.

(** [C4] libnfs implements the interface the model of SOS uses.  In every run of
    requests of SOS, packets and timeouts, SOS sees the events of a run in which
    each request is [send_rpc] with one of the answers of the environment and each
    callback is what [deliver_reply] does for one of the waiting requests; the
    queue stays the list of the waiting requests. *)
Theorem libnfs_refines n es n' l :
  run_of lib_step n es n' → live n → lib_rel n l →
  ∃ l', run_of abs_step l es l' ∧ lib_rel n' l'.
Proof. apply lib_run_refines. Qed.

Lemma libnfs_refines_witness :
  ∃ l', run_of abs_step [] [Requested (rpc_lookup 7 [97] cb_nfs_dev_lookup_handler 5) true] l' ∧ lib_rel looked_up l'.
Proof.
  apply (libnfs_refines mounted _ looked_up []).
  - apply (run_cons lib_step mounted looked_up looked_up [_] []); [| constructor].
    apply (lib_request (rpc_lookup 7 [97] cb_nfs_dev_lookup_handler 5) RPC_OK mounted looked_up);
      [exact I | split; [split; lia | by unfold name_ok] | vm_compute; reflexivity].
  - split; [exact mounted_ready | constructor].
  - split; [constructor |]. split; [constructor |]. intros i j q q' H. by destruct i.
Defined.
