(* ===== verification/CopyInv.v ===== *)
(** Copying between users and the kernel.

    When the pages of the user's buffer are in memory, [copyin] and [copyout] go
    through the buffer page by page and move exactly its bytes; the number of
    nested calls is bounded by the number of pages. *)

From S2P Require Import Prelude UtAllocator Sos Hoare Mapping SwapSlots FrameTable FrameInv.
From S2P Require Import FrameAlloc ProcTable AddrSpace RegionInv PageTable Swap SwapInv SwapProto.
From S2P Require Import PageWalk CopyInOut Clock Console NfsDev Vfs FileTable Elf Process Vm.
From S2P Require Import Syscalls Machine World.

(** * Access to memory *)

Lemma accessible_spec s a n :
  accessible s a n = true ↔
  n ≤ 0 ∨ in_frames (ft (s_ft s)) a n = true ∨ in_static a n = true ∨
  ∃ p size, s_heap s !! p = Some (OBuf size) ∧ p ≤ a ∧ a + n ≤ p + size.
Proof.
  unfold accessible. rewrite !orb_true_iff, existsb_exists, Z.leb_le. split.
  - intros [[[? | ?] | ?] | ([p o] & Hin & Hb)]; [auto .. |]. right. right. right.
    apply list_elem_of_In, elem_of_map_to_list in Hin. unfold in_buf in Hb. cbn in Hb.
    destruct o; try discriminate. eexists _, _. split; [done |]. lia.
  - intros [? | [? | [? | (p & size & Hin & H1 & H2)]]]; [auto .. |]. right.
    exists (p, OBuf size). split; [by apply list_elem_of_In, elem_of_map_to_list |].
    unfold in_buf. cbn. lia.
Qed.

(** Part of an accessible range. *)
Lemma accessible_sub s a n a' n' :
  accessible s a n = true → a ≤ a' → a' + n' ≤ a + n → accessible s a' n' = true.
Proof.
  rewrite !accessible_spec. intros [? | [H | [H | (p & size & Hin & H1 & H2)]]] Ha Hn; [left; lia | | |].
  - right. left. unfold in_frames in *. rewrite !andb_true_iff, forallb_forall in H |- *.
    destruct H as [[H1 H2] H3]. split; [split; lia |]. intros i Hi.
    specialize (H3 i Hi). cbv zeta in *. rewrite !orb_true_iff, !Z.leb_le in H3 |- *.
    destruct H3 as [[? | ?] | ?]; [left; left; lia | left; right; lia | by right].
  - right. right. left. unfold in_static in *. lia.
  - right. right. right. exists p, size. split; [done |]. lia.
Qed.

(** Objects other than buffers do not matter. *)
Lemma accessible_store s p o o' a n :
  s_heap s !! p = Some o → (∀ size, o ≠ OBuf size) →
  accessible s a n = true →
  accessible (set_s_heap (<[p := o']> (s_heap s)) s) a n = true.
Proof.
  intros Ho Hb. rewrite !accessible_spec. cbn.
  intros [? | [? | [? | (q & size & Hq & H)]]]; [auto .. |]. right. right. right.
  exists q, size. split; [| done]. rewrite lookup_insert_ne; [done |]. intros ->. naive_solver.
Qed.

Lemma memcpy_eq s dst src n :
  0 ≤ n → accessible s src n = true → accessible s dst n = true →
  memcpy dst src n s =
    Ret (tt, set_s_mem (put_bytes (s_mem s) dst (bytes_at (s_mem s) src (Z.to_nat n))) s).
Proof.
  intros Hn Hs Hd. unfold memcpy. mstep read_mem_eq by done. apply write_mem_eq.
  unfold Zlength. by rewrite length_bytes_at, Z2Nat.id.
Qed.

(** * The user's memory *)

(** The kernel address of a byte of the user, and the byte. *)
Definition user_addr (s : sos) (a : addrspace) (v : Z) : Z :=
  pte_kvaddr (entry s a true v) + v mod PAGE_SIZE.

Definition user_byte (s : sos) (a : addrspace) (v : Z) : Z := s_mem s (user_addr s a v).

(** The page of [v] is in memory. *)
Definition resident (s : sos) (a : addrspace) (v : Z) : Prop :=
  pte_in_use (entry s a true v) = true ∧ pte_swapped (entry s a true v) = false ∧
  frame_page s (pte_kvaddr (entry s a true v)).

(** Nothing of a page is in the [n] bytes at [b]. *)
Definition apart (b n kv : Z) : Prop := b + n ≤ kv ∨ kv + PAGE_SIZE ≤ b.

(** The [n] bytes at [b] have nothing to do with the tables. *)
Definition apart_tables (s : sos) (a : addrspace) (b n : Z) : Prop :=
  (∀ c, apart b n (dir a c)) ∧
  ∀ c x, 0 ≤ x < 1024 → table_of s a c x ≠ 0 → apart b n (table_of s a c x).

Lemma entry_page s a b u v :
  0 ≤ u < 2 ^ 32 → 0 ≤ v < 2 ^ 32 → u / PAGE_SIZE = v / PAGE_SIZE → entry s a b u = entry s a b v.
Proof.
  intros Hu Hv E. unfold PAGE_SIZE in E.
  assert (idx1 u = idx1 v ∧ idx2 u = idx2 v) as [E1 E2].
  { unfold idx1, idx2. change (2 ^ 12) with 4096. rewrite E. split; [| done].
    change (2 ^ 22) with (4096 * 1024). rewrite <- !Z.div_div by lia. by rewrite E. }
  unfold entry. by rewrite E1, E2.
Qed.

(** Memory that agrees on the directories and the tables has the same entries. *)
Lemma word_of_ext m m' p i :
  0 ≤ i < 1024 → (∀ x, p ≤ x < p + PAGE_SIZE → m' x = m x) →
  word_of m' (p + 4 * i) = word_of m (p + 4 * i).
Proof. intros Hi H. unfold word_of. unfold PAGE_SIZE in H. rewrite !H by lia. done. Qed.

Definition tables_agree (s : sos) (a : addrspace) (m' : Z → Z) : Prop :=
  (∀ b x, dir a b ≤ x < dir a b + PAGE_SIZE → m' x = s_mem s x) ∧
  ∀ b i x, 0 ≤ i < 1024 → table_of s a b i ≠ 0 →
    table_of s a b i ≤ x < table_of s a b i + PAGE_SIZE → m' x = s_mem s x.

Lemma tables_agree_table s a m' b i :
  tables_agree s a m' → 0 ≤ i < 1024 → table_of (set_s_mem m' s) a b i = table_of s a b i.
Proof. intros [H _] Hi. unfold table_of. cbn. by apply word_of_ext; [| apply H]. Qed.

Lemma tables_agree_entry s a m' b v :
  tables_agree s a m' → 0 ≤ v < 2 ^ 32 → entry (set_s_mem m' s) a b v = entry s a b v.
Proof.
  intros H Hv. destruct (idx_range v Hv) as [H1 H2]. unfold entry.
  rewrite tables_agree_table by done.
  destruct (Z.eqb_spec (table_of s a b (idx1 v)) 0); [done |]. cbn.
  apply word_of_ext; [done |]. intros x Hx. by apply (proj2 H b (idx1 v)).
Qed.

Lemma tables_agree_wf s a m' : tables_agree s a m' → tables_wf s a → tables_wf (set_s_mem m' s) a.
Proof.
  intros H [H1 H2 H3 H4]. split; [done | done | |].
  - intros b x Hx. rewrite tables_agree_table by done. by apply H3.
  - intros b x b' x' Hx Hx'. rewrite !tables_agree_table by done. by apply H4.
Qed.

(** Writing elsewhere. *)
Lemma apart_agree s a b l :
  apart_tables s a b (Zlength l) → tables_agree s a (put_bytes (s_mem s) b l).
Proof.
  intros [H1 H2]. split.
  - intros c x Hx. apply put_bytes_other. destruct (H1 c); lia.
  - intros c i x Hi Hne Hx. apply put_bytes_other. destruct (H2 c i Hi Hne); lia.
Qed.

(** * A copy in progress *)

(** What is left to copy. *)
Definition left_of (cont : copy_cont) : Z := cp_nbyte cont - cp_pos cont.

(** How much the next step copies. *)
Definition next_piece (cont : copy_cont) : Z :=
  Z.min (PAGE_SIZE - cp_buf cont mod PAGE_SIZE) (left_of cont).

Record copying (s : sos) (token : Z) (cont : copy_cont) (a : addrspace) : Prop := {
  co_inv : ft_inv s;
  co_as : as_at s (cp_as cont) a;
  co_token : token ≠ 0;
  co_cont : s_heap s !! token = Some (to_obj cont);
  co_pos : 0 ≤ cp_pos cont ≤ cp_nbyte cont ∧ cp_nbyte cont < 2 ^ 32;
  co_buf : 0 ≤ cp_buf cont ∧ cp_buf cont + left_of cont < 2 ^ 32;
  co_kbuf : 0 ≤ cp_kbuf cont ∧ cp_kbuf cont + left_of cont < 2 ^ 32;
  co_res : ∀ v, cp_buf cont ≤ v < cp_buf cont + left_of cont → resident s a v;
  co_acc : accessible s (cp_kbuf cont) (left_of cont) = true;
  co_apart : ∀ v, cp_buf cont ≤ v < cp_buf cont + left_of cont →
    apart (cp_kbuf cont) (left_of cont) (pte_kvaddr (entry s a true v))
}.

Lemma PAGE_OFFSET_eq x : PAGE_OFFSET x = x mod PAGE_SIZE.
Proof. unfold PAGE_OFFSET, PAGE_SIZE. change (4096 - 1) with (Z.ones 12). by rewrite Z.land_ones. Qed.

Lemma resident_addr s a v :
  ft_inv s → resident s a v →
  user_addr s a v mod PAGE_SIZE = v mod PAGE_SIZE ∧ 0 < user_addr s a v < 2 ^ 31.
Proof.
  intros Hinv (_ & _ & Hp). destruct (frame_page_range _ _ Hinv Hp) as (Hm & Hr & _).
  unfold user_addr, PAGE_SIZE in *. pose proof (Z.mod_pos_bound v 4096). split; [| lia].
  divmod.
Qed.

Lemma get_kvaddr_resident s asp a v :
  ft_inv s → as_at s asp a → 0 ≤ v < 2 ^ 32 → resident s a v →
  sos_get_kvaddr asp v s = Ret ((0, user_addr s a v), s).
Proof.
  intros Hinv Has Hv Hr. rewrite (sos_get_kvaddr_eq s asp a) by done.
  destruct (resident_addr s a v Hinv Hr) as [_ Hlt]. destruct Hr as (-> & _ & _).
  rewrite (PAGE_ALIGN_eq v Hv). do 3 f_equal. unfold user_addr, PAGE_SIZE in *.
  rewrite (Z.mod_eq v 4096) in Hlt |- * by lia. unfold u32. rewrite Z.mod_small; lia.
Qed.

(** A page that is in memory needs no work. *)
Lemma ensure_page_present rec self s token cont a :
  ft_inv s → as_at s (cp_as cont) a → token ≠ 0 → s_heap s !! token = Some (to_obj cont) →
  0 ≤ cp_buf cont < 2 ^ 32 →
  pte_in_use (entry s a true (cp_buf cont)) = true → pte_swapped (entry s a true (cp_buf cont)) = false →
  ensure_page rec self token s = Ret (true, s).
Proof.
  intros Hinv Has Ht Hc Hb H1 H2. destruct (idx_page (cp_buf cont) Hb) as (Hr & E1 & E2).
  assert (entry s a true (PAGE_ALIGN (cp_buf cont)) = entry s a true (cp_buf cont)) as E.
  { unfold entry. by rewrite E1, E2. }
  unfold ensure_page. mstep (load_eq (T := copy_cont)) by done.
  mstep (sos_page_is_inuse_eq s (cp_as cont) a Hinv Has _ Hr). rewrite E, H1. cbn [negb].
  mstep (sos_page_is_swapped_eq s (cp_as cont) a Hinv Has _ Hr). by rewrite E, H2.
Qed.

Lemma ensure_page_resident rec self s token cont a :
  ft_inv s → as_at s (cp_as cont) a → token ≠ 0 → s_heap s !! token = Some (to_obj cont) →
  0 ≤ cp_buf cont < 2 ^ 32 → resident s a (cp_buf cont) →
  ensure_page rec self token s = Ret (true, s).
Proof. intros Hinv Has Ht Hc Hb (H1 & H2 & _). by eapply ensure_page_present. Qed.

Section step.
Context (s : sos) (token : Z) (cont : copy_cont) (a : addrspace) (H : copying s token cont a).
Context (Hleft : 0 < left_of cont).

Notation c := (next_piece cont).

Lemma next_piece_range : 0 < c ≤ left_of cont ∧ cp_buf cont mod PAGE_SIZE + c ≤ PAGE_SIZE.
Proof.
  unfold next_piece, PAGE_SIZE. pose proof (Z.mod_pos_bound (cp_buf cont) 4096). lia.
Qed.

Lemma buf_resident : resident s a (cp_buf cont).
Proof. apply (co_res _ _ _ _ H). lia. Qed.

(** The bytes of the piece are on one page. *)
Lemma piece_addr i : 0 ≤ i < c → user_addr s a (cp_buf cont + i) = user_addr s a (cp_buf cont) + i.
Proof.
  intros Hi. destruct next_piece_range as [Hc Hp]. destruct (co_buf _ _ _ _ H) as [Hb Hb'].
  unfold user_addr. rewrite (entry_page s a true (cp_buf cont + i) (cp_buf cont)).
  - unfold PAGE_SIZE in *. divmod.
  - lia.
  - lia.
  - unfold PAGE_SIZE in *. divmod.
Qed.

Lemma piece_sz : cpy_sz (user_addr s a (cp_buf cont)) (cp_nbyte cont) (cp_pos cont) = c.
Proof.
  unfold cpy_sz. rewrite PAGE_OFFSET_eq.
  destruct (resident_addr s a _ (co_inv _ _ _ _ H) buf_resident) as [-> _].
  unfold next_piece, left_of. destruct (co_pos _ _ _ _ H) as [? ?].
  unfold u32. rewrite (Z.mod_small (cp_nbyte cont - _)); [done | lia].
Qed.

Lemma piece_user_accessible : accessible s (user_addr s a (cp_buf cont)) c = true.
Proof.
  destruct next_piece_range as [Hc Hp]. destruct buf_resident as (_ & _ & Hf).
  unfold user_addr. unfold PAGE_SIZE in *. pose proof (Z.mod_pos_bound (cp_buf cont) 4096).
  apply frame_page_accessible; [apply H | done | unfold PAGE_SIZE; lia ..].
Qed.

Lemma piece_kernel_accessible : accessible s (cp_kbuf cont) c = true.
Proof.
  destruct next_piece_range as [Hc _]. eapply accessible_sub; [apply H | lia..].
Qed.

Lemma advance_left : left_of (copy_advance c cont) = left_of cont - c.
Proof.
  destruct next_piece_range as [Hc _]. destruct (co_pos _ _ _ _ H) as [? ?]. unfold left_of in *. cbn.
  unfold u32. rewrite Z.mod_small; lia.
Qed.

Lemma advance_buf : cp_buf (copy_advance c cont) = cp_buf cont + c.
Proof.
  destruct next_piece_range as [Hc _]. destruct (co_buf _ _ _ _ H) as [? ?]. cbn. unfold u32.
  rewrite Z.mod_small; lia.
Qed.

Lemma advance_kbuf : cp_kbuf (copy_advance c cont) = cp_kbuf cont + c.
Proof.
  destruct next_piece_range as [Hc _]. destruct (co_kbuf _ _ _ _ H) as [? ?]. cbn. unfold u32.
  rewrite Z.mod_small; lia.
Qed.

(** The state after the step, with the memory [m']. *)
Definition stepped (m' : Z → Z) : sos :=
  set_s_heap (<[token := to_obj (copy_advance c cont)]> (s_heap s)) (set_s_mem m' s).

Lemma stepped_entry m' b v :
  tables_agree s a m' → 0 ≤ v < 2 ^ 32 → entry (stepped m') a b v = entry s a b v.
Proof. intros. by apply tables_agree_entry. Qed.

Lemma stepped_copying m' :
  tables_agree s a m' → copying (stepped m') token (copy_advance c cont) a.
Proof.
  intros Hm. destruct next_piece_range as [Hc _]. pose proof H as [H1 H2 H3 H4 H5 H6 H7 H8 H9 H10].
  split; rewrite ?advance_left, ?advance_buf, ?advance_kbuf.
  - done.
  - destruct H2 as [Hp Hh Hwf]. split; [done | |].
    + cbn. rewrite lookup_insert_ne; [done |]. intros ->. cbn in *. congruence.
    + apply (tables_wf_ext (set_s_mem m' s)); [done | done | by apply tables_agree_wf].
  - done.
  - cbn. by rewrite lookup_insert_eq.
  - pose proof advance_left as E. unfold left_of in *. cbn [cp_nbyte copy_advance set_cp_kbuf set_cp_buf set_cp_pos] in *. lia.
  - lia.
  - lia.
  - intros v Hv. unfold resident. rewrite stepped_entry by (done || lia). apply H8. lia.
  - apply (accessible_store (set_s_mem m' s) token (to_obj cont)); [done | done |].
    eapply accessible_sub; [exact H9 | lia..].
  - intros v Hv. rewrite stepped_entry by (done || lia). destruct (H10 v); unfold apart; lia.
Qed.

End step.

(** * Copying in *)

(** A call through a function pointer, one level deeper. *)
Lemma call_err_eq n cb token err s :
  call_ (run (S n)) (CallErr cb token err) s = exec_err (run n) cb token err s.
Proof.
  unfold call_. cbn [run]. unfold exec. rewrite M_bind_assoc. unfold mbind at 1, M_bind.
  by destruct (exec_err (run n) cb token err s) as [[[] s'] |].
Qed.

Lemma copyin_step rec s token cont a :
  copying s token cont a → 0 < left_of cont →
  copyin_do_copy rec token 0 s =
    call_ rec (CallErr cb_copyin_do_copy token 0)
      (stepped s token cont (put_bytes (s_mem s) (cp_kbuf cont)
         (bytes_at (s_mem s) (user_addr s a (cp_buf cont)) (Z.to_nat (next_piece cont))))).
Proof.
  intros H Hl. pose proof H as [H1 H2 H3 H4 H5 H6 H7 H8 H9 H10].
  pose proof (buf_resident _ _ _ _ H Hl) as Hr. unfold copyin_do_copy. cbn [negb Z.eqb].
  mstep (ensure_page_resident _ _ s token cont a) by (done || lia). cbn [negb].
  mstep (load_eq (T := copy_cont)) by done.
  destruct (Z.ltb_spec (cp_pos cont) (cp_nbyte cont)); [| unfold left_of in Hl; lia].
  mstep get_kvaddr_resident by (done || lia). cbn [negb Z.eqb].
  rewrite (piece_sz s token cont a H Hl). destruct (next_piece_range cont Hl) as [Hc _].
  mstep memcpy_eq by (lia || by eapply piece_user_accessible || by eapply piece_kernel_accessible).
  by mstep (store_eq (T := copy_cont)) by done.
Qed.

(** What a copy does once all is copied: it still looks at the page of the next
    byte, whose entry is [e], and brings it in before it calls back. *)
Definition copy_finish (rec : interp) (self : err_cb) (e asp vpage rights token : Z) : M unit :=
  if negb (pte_in_use e) then
    pid ← proc_get_id;
    err ← sos_page_map rec pid asp vpage rights self token false;
    if negb (err =? 0) then copy_end rec token err else
    p ← cur_proc;
    inc_proc_size_proc p
  else if pte_swapped e then
    err ← swap_in rec asp rights vpage false self token;
    if negb (err =? 0) then copy_end rec token err else mret tt
  else copy_end rec token 0.

Lemma bind_ready (m : M unit) (k : bool → M unit) s :
  (∀ s', k false s' = Ret (tt, s')) → (ready ← (_ ← m; mret false); k ready) s = m s.
Proof.
  intros Hk. rewrite M_bind_assoc. unfold mbind, M_bind. destruct (m s) as [[[] s'] |]; [| done].
  cbn. by rewrite Hk.
Qed.

(** The check of the next page followed by the end of the copy. *)
Lemma ensure_finish rec self s token cont a r (k : bool → M unit) :
  copying s token cont a → left_of cont = 0 → cp_reg cont = Some r →
  (∀ s', k false s' = Ret (tt, s')) → k true s = copy_end rec token 0 s →
  (ready ← ensure_page rec self token; k ready) s =
    copy_finish rec self (entry s a true (cp_buf cont)) (cp_as cont) (PAGE_ALIGN (cp_buf cont))
      (r_rights r) token s.
Proof.
  intros H Hl Hreg Hk Hkt. pose proof H as [Hinv Has Ht Hc _ Hb _ _ _ _].
  assert (0 ≤ cp_buf cont < 2 ^ 32) as Hb' by lia. destruct (idx_page (cp_buf cont) Hb') as (Hr & E1 & E2).
  assert (entry s a true (PAGE_ALIGN (cp_buf cont)) = entry s a true (cp_buf cont)) as E.
  { unfold entry. by rewrite E1, E2. }
  assert (∀ s, cp_rights cont s = Ret (r_rights r, s)) as Hrights.
  { intros s'. unfold cp_rights. rewrite Hreg. by mstep lift_eq by done. }
  unfold ensure_page, copy_finish. rewrite M_bind_assoc. mstep (load_eq (T := copy_cont)) by done.
  rewrite M_bind_assoc. mstep (sos_page_is_inuse_eq s (cp_as cont) a Hinv Has _ Hr). rewrite E.
  destruct (pte_in_use (entry s a true (cp_buf cont))) eqn:Eu; cbn [negb].
  - rewrite M_bind_assoc. mstep (sos_page_is_swapped_eq s (cp_as cont) a Hinv Has _ Hr). rewrite E.
    destruct (pte_swapped (entry s a true (cp_buf cont))); [| mpure; exact Hkt].
    rewrite M_bind_assoc. mstep (Hrights _). rewrite M_bind_assoc. apply M_bind_ext. intros err s1 _.
    destruct (negb (err =? 0)); [by apply bind_ready | mpure; by rewrite Hk].
  - rewrite M_bind_assoc. apply M_bind_ext. intros pid s1 _.
    rewrite M_bind_assoc. mstep (Hrights _). rewrite M_bind_assoc. apply M_bind_ext. intros err s2 _.
    destruct (negb (err =? 0)); [by apply bind_ready |].
    rewrite M_bind_assoc. apply M_bind_ext. intros p s3 _. by apply bind_ready.
Qed.

Lemma copyin_stop rec s token cont a r :
  copying s token cont a → left_of cont = 0 → cp_reg cont = Some r →
  copyin_do_copy rec token 0 s =
    copy_finish rec cb_copyin_do_copy (entry s a true (cp_buf cont)) (cp_as cont)
      (PAGE_ALIGN (cp_buf cont)) (r_rights r) token s.
Proof.
  intros H Hl Hreg. pose proof H as [_ _ Ht Hc _ _ _ _ _ _]. unfold copyin_do_copy. cbn [negb Z.eqb].
  eapply ensure_finish; [done | done | done | done |]. cbn [negb].
  mstep (load_eq (T := copy_cont)) by done.
  destruct (Z.ltb_spec (cp_pos cont) (cp_nbyte cont)); [unfold left_of in Hl; lia | done].
Qed.

(** The pages that the rest of the copy touches. *)
Definition pieces_left (cont : copy_cont) (k : nat) : Prop :=
  left_of cont = 0 ∨ cp_buf cont mod PAGE_SIZE + left_of cont ≤ PAGE_SIZE * Z.of_nat k.

Lemma pieces_left_advance s token cont a k :
  copying s token cont a → 0 < left_of cont → pieces_left cont k →
  ∃ k', k = S k' ∧ pieces_left (copy_advance (next_piece cont) cont) k'.
Proof.
  intros H Hl [? | Hk]; [lia |]. unfold PAGE_SIZE in Hk.
  pose proof (Z.mod_pos_bound (cp_buf cont) 4096).
  destruct k as [| k]; [lia |]. exists k. split; [done |]. unfold pieces_left.
  rewrite (advance_left s token cont a H Hl), (advance_buf s token cont a H Hl). unfold next_piece.
  destruct (decide (left_of cont ≤ PAGE_SIZE - cp_buf cont mod PAGE_SIZE)); [left; lia |].
  right. rewrite Z.min_l by lia. unfold PAGE_SIZE in *. divmod.
Qed.

(** All is copied in [s'], with the rest of the continuation as it was. *)
Definition copied (s : sos) (token : Z) (cont : copy_cont) (a : addrspace) (s' : sos) : Prop :=
  ∃ cont', s' = set_s_heap (<[token := to_obj cont']> (s_heap s)) (set_s_mem (s_mem s') s) ∧
    cp_callback cont' = cp_callback cont ∧ cp_token cont' = cp_token cont ∧
    cp_as cont' = cp_as cont ∧ cp_reg cont' = cp_reg cont ∧
    copying s' token cont' a ∧ left_of cont' = 0 ∧ cp_buf cont' = cp_buf cont + left_of cont.

Lemma copied_refl s token cont a :
  copying s token cont a → left_of cont = 0 → copied s token cont a s.
Proof.
  intros H Hl. exists cont. split_and!; try done; [| lia].
  rewrite insert_id by apply H. by destruct s.
Qed.

Lemma copied_step s token cont a m' s' :
  copying s token cont a → 0 < left_of cont →
  copied (stepped s token cont m') token (copy_advance (next_piece cont) cont) a s' →
  copied s token cont a s'.
Proof.
  intros H Hl (cont' & E & H1 & H2 & H3 & H4 & H5 & H6 & H7). exists cont'. split_and!; try done.
  - rewrite E at 1. unfold stepped. cbn. by rewrite insert_insert_eq.
  - rewrite H7, (advance_buf s token cont a H Hl), (advance_left s token cont a H Hl). lia.
Qed.

(** The user's bytes are not changed by writing elsewhere. *)
Lemma user_byte_stepped s token cont a b l v :
  let m' := put_bytes (s_mem s) b l in
  tables_agree s a m' → 0 ≤ v < 2 ^ 32 → apart b (Zlength l) (pte_kvaddr (entry s a true v)) →
  user_byte (stepped s token cont m') a v = user_byte s a v.
Proof.
  intros m' Hm Hv Hap. unfold user_byte, user_addr. rewrite stepped_entry by done. cbn.
  unfold m'. pose proof (Z.mod_pos_bound v PAGE_SIZE eq_refl).
  apply put_bytes_other. destruct Hap; lia.
Qed.

Lemma apart_sub b n b' n' kv : apart b n kv → b ≤ b' → b' + n' ≤ b + n → apart b' n' kv.
Proof. unfold apart. lia. Qed.

Lemma apart_tables_stepped s token cont a b n b' n' m' :
  apart_tables s a b n → tables_agree s a m' → b ≤ b' → b' + n' ≤ b + n →
  apart_tables (stepped s token cont m') a b' n'.
Proof.
  intros [H1 H2] Hm Hb Hn. split; [intros c; by eapply apart_sub |].
  intros c x Hx. change (table_of (stepped s token cont m') a c x)
    with (table_of (set_s_mem m' s) a c x). rewrite tables_agree_table by done.
  intros Hne. by eapply apart_sub; [by apply H2 | |].
Qed.

(** One piece, and the rest. *)
Lemma copyin_piece s token cont a x :
  copying s token cont a → 0 < left_of cont →
  let c := next_piece cont in
  let m' := put_bytes (s_mem s) (cp_kbuf cont)
              (bytes_at (s_mem s) (user_addr s a (cp_buf cont)) (Z.to_nat c)) in
  tables_agree s a m' →
  (if (cp_kbuf cont + c <=? x) && (x <? cp_kbuf cont + c + (left_of cont - c))
   then user_byte (stepped s token cont m') a (cp_buf cont + c + (x - (cp_kbuf cont + c)))
   else m' x) =
  if (cp_kbuf cont <=? x) && (x <? cp_kbuf cont + left_of cont)
  then user_byte s a (cp_buf cont + (x - cp_kbuf cont)) else s_mem s x.
Proof.
  intros H Hl c m' Hm. destruct (next_piece_range cont Hl) as [Hc _]. fold c in Hc.
  replace (cp_kbuf cont + c + (left_of cont - c)) with (cp_kbuf cont + left_of cont) by lia.
  destruct (Z.leb_spec (cp_kbuf cont + c) x), (Z.ltb_spec x (cp_kbuf cont + left_of cont)); cbn [andb].
  - destruct (Z.leb_spec (cp_kbuf cont) x); [| lia]. cbn [andb].
    replace (cp_buf cont + c + (x - (cp_kbuf cont + c))) with (cp_buf cont + (x - cp_kbuf cont)) by lia.
    destruct (co_buf _ _ _ _ H). apply user_byte_stepped; [done | lia |].
    eapply apart_sub; [apply (co_apart _ _ _ _ H); lia | lia |].
    unfold Zlength. rewrite length_bytes_at. lia.
  - rewrite andb_false_r. apply put_bytes_other. right. unfold Zlength. rewrite length_bytes_at. lia.
  - rewrite andb_true_r. unfold m'. replace x with (cp_kbuf cont + (x - cp_kbuf cont)) at 1 by lia.
    rewrite put_bytes_at, Z2Nat.id by lia.
    destruct (Z.leb_spec (cp_kbuf cont) x), (Z.leb_spec 0 (x - cp_kbuf cont)); try lia; cbn [andb].
    + destruct (Z.ltb_spec (x - cp_kbuf cont) c); [| lia]. unfold user_byte.
      by rewrite (piece_addr s token cont a H) by (done || lia).
    + f_equal. lia.
  - lia.
Qed.

(** The whole copy: after at most [k] nested calls the kernel's buffer has the
    user's bytes and nothing else has changed. *)
Lemma copyin_loop k s token cont a :
  copying s token cont a → apart_tables s a (cp_kbuf cont) (left_of cont) → pieces_left cont k →
  ∃ j s', (j ≤ k)%nat ∧
    (∀ m, copyin_do_copy (run (j + m)) token 0 s = copyin_do_copy (run m) token 0 s') ∧
    copied s token cont a s' ∧
    ∀ x, s_mem s' x = if (cp_kbuf cont <=? x) && (x <? cp_kbuf cont + left_of cont)
                      then user_byte s a (cp_buf cont + (x - cp_kbuf cont)) else s_mem s x.
Proof.
  revert s cont. induction k as [k IH] using (well_founded_induction lt_wf).
  intros s cont H Hat Hk. destruct (Z.eq_dec (left_of cont) 0) as [Hl | Hl].
  { exists 0%nat, s. split_and!; [lia | done | by apply copied_refl |].
    intros x. destruct (Z.leb_spec (cp_kbuf cont) x), (Z.ltb_spec x (cp_kbuf cont + left_of cont));
      try done; lia. }
  assert (0 < left_of cont) as Hl' by (destruct (co_pos _ _ _ _ H); unfold left_of in *; lia).
  destruct (pieces_left_advance s token cont a k H Hl' Hk) as (k' & -> & Hk').
  destruct (next_piece_range cont Hl') as [Hc _].
  set (l := bytes_at (s_mem s) (user_addr s a (cp_buf cont)) (Z.to_nat (next_piece cont))).
  assert (Zlength l = next_piece cont) as Hlen.
  { unfold Zlength, l. rewrite length_bytes_at. lia. }
  set (m' := put_bytes (s_mem s) (cp_kbuf cont) l).
  assert (tables_agree s a m') as Hm.
  { apply apart_agree. rewrite Hlen. destruct Hat as [A1 A2]. split.
    - intros c. eapply apart_sub; [apply A1 | lia..].
    - intros c x Hx Hne. eapply apart_sub; [by apply A2 | lia..]. }
  destruct (IH k' ltac:(lia) (stepped s token cont m') (copy_advance (next_piece cont) cont))
    as (j & s' & Hj & Erun & Hcp & Hmem); [by eapply stepped_copying | | done |].
  { rewrite (advance_kbuf s token cont a H Hl'), (advance_left s token cont a H Hl').
    eapply apart_tables_stepped; [exact Hat | done | lia | lia]. }
  exists (S j), s'. split_and!; [lia | | by eapply copied_step |].
  - intros m. cbn [Nat.add]. rewrite (copyin_step _ s token cont a H Hl'), call_err_eq. apply Erun.
  - intros x. rewrite Hmem.
    rewrite (advance_kbuf s token cont a H Hl'), (advance_left s token cont a H Hl'),
      (advance_buf s token cont a H Hl').
    eapply copyin_piece; done.
Qed.

(** * Copying out *)

Lemma copyout_step rec s token cont a :
  copying s token cont a → 0 < left_of cont →
  copyout_do_copy rec token 0 s =
    call_ rec (CallErr cb_copyout_do_copy token 0)
      (stepped s token cont (put_bytes (s_mem s) (user_addr s a (cp_buf cont))
         (bytes_at (s_mem s) (cp_kbuf cont) (Z.to_nat (next_piece cont))))).
Proof.
  intros H Hl. pose proof H as [H1 H2 H3 H4 H5 H6 H7 H8 H9 H10].
  pose proof (buf_resident _ _ _ _ H Hl) as Hr. unfold copyout_do_copy. cbn [negb Z.eqb].
  mstep assertM_eq by (by apply negb_true_iff, Z.eqb_neq).
  mstep (ensure_page_resident _ _ s token cont a) by (done || lia). cbn [negb].
  mstep (load_eq (T := copy_cont)) by done.
  destruct (Z.ltb_spec (cp_pos cont) (cp_nbyte cont)); [| unfold left_of in Hl; lia].
  mstep get_kvaddr_resident by (done || lia). cbn [negb Z.eqb].
  rewrite (piece_sz s token cont a H Hl). destruct (next_piece_range cont Hl) as [Hc _].
  mstep memcpy_eq by (lia || by eapply piece_user_accessible || by eapply piece_kernel_accessible).
  by mstep (store_eq (T := copy_cont)) by done.
Qed.

Lemma copyout_stop rec s token cont a r :
  copying s token cont a → left_of cont = 0 → cp_reg cont = Some r →
  copyout_do_copy rec token 0 s =
    copy_finish rec cb_copyout_do_copy (entry s a true (cp_buf cont)) (cp_as cont)
      (PAGE_ALIGN (cp_buf cont)) (r_rights r) token s.
Proof.
  intros H Hl Hreg. pose proof H as [_ _ Ht Hc _ _ _ _ _ _]. unfold copyout_do_copy. cbn [negb Z.eqb].
  mstep assertM_eq by (by apply negb_true_iff, Z.eqb_neq).
  eapply ensure_finish; [done | done | done | done |]. cbn [negb].
  mstep (load_eq (T := copy_cont)) by done.
  destruct (Z.ltb_spec (cp_pos cont) (cp_nbyte cont)); [unfold left_of in Hl; lia | done].
Qed.

(** The pages of a range belong to the user alone: they are not tables, and no
    frame is used for two of them. *)
Record own_pages (s : sos) (a : addrspace) (lo hi : Z) : Prop := {
  ow_dir : ∀ v b, lo ≤ v < hi → pte_kvaddr (entry s a true v) ≠ dir a b;
  ow_table : ∀ v b x, lo ≤ v < hi → 0 ≤ x < 1024 → pte_kvaddr (entry s a true v) ≠ table_of s a b x;
  ow_inj : ∀ u v, lo ≤ u < hi → lo ≤ v < hi →
    pte_kvaddr (entry s a true u) = pte_kvaddr (entry s a true v) → u / PAGE_SIZE = v / PAGE_SIZE
}.

(** Pages of different frames do not meet. *)
Lemma frame_pages_apart s p q x :
  ft_inv s → frame_page s p → frame_page s q → p ≠ q → p ≤ x < p + PAGE_SIZE →
  x < q ∨ q + PAGE_SIZE ≤ x.
Proof.
  intros Hinv Hp Hq Hne Hx. destruct (frame_page_range _ _ Hinv Hp) as [Hp' _].
  destruct (frame_page_range _ _ Hinv Hq) as [Hq' _]. unfold PAGE_SIZE in *. divmod.
Qed.

(** Different bytes of the user are at different places. *)
Lemma user_addr_inj s a lo hi u v :
  ft_inv s → own_pages s a lo hi → (∀ w, lo ≤ w < hi → resident s a w) →
  lo ≤ u < hi → lo ≤ v < hi → user_addr s a u = user_addr s a v → u = v.
Proof.
  intros Hinv Hown Hres Hu Hv E. destruct (Hres u Hu) as (_ & _ & Fu). destruct (Hres v Hv) as (_ & _ & Fv).
  destruct (frame_page_range _ _ Hinv Fu) as [Mu _]. destruct (frame_page_range _ _ Hinv Fv) as [Mv _].
  pose proof (ow_inj _ _ _ _ Hown u v Hu Hv) as Hi. unfold user_addr, PAGE_SIZE in *.
  assert (u mod 4096 = v mod 4096) by divmod.
  rewrite (Z.div_mod u 4096), (Z.div_mod v 4096) by lia. rewrite Hi; lia.
Qed.

Section out.
Context (s : sos) (token : Z) (cont : copy_cont) (a : addrspace) (H : copying s token cont a).
Context (Hleft : 0 < left_of cont).
Context (Hown : own_pages s a (cp_buf cont) (cp_buf cont + left_of cont)).

Notation c := (next_piece cont).
Notation l := (bytes_at (s_mem s) (cp_kbuf cont) (Z.to_nat c)).
Notation m' := (put_bytes (s_mem s) (user_addr s a (cp_buf cont)) l).

(** The piece is inside one page of the user. *)
Lemma out_piece_page :
  pte_kvaddr (entry s a true (cp_buf cont)) ≤ user_addr s a (cp_buf cont) ∧
  user_addr s a (cp_buf cont) + Zlength l ≤ pte_kvaddr (entry s a true (cp_buf cont)) + PAGE_SIZE.
Proof.
  destruct (next_piece_range cont Hleft) as [Hc Hp]. unfold user_addr, Zlength.
  rewrite length_bytes_at. pose proof (Z.mod_pos_bound (cp_buf cont) PAGE_SIZE eq_refl). lia.
Qed.

Lemma out_other x :
  x < pte_kvaddr (entry s a true (cp_buf cont)) ∨ pte_kvaddr (entry s a true (cp_buf cont)) + PAGE_SIZE ≤ x →
  m' x = s_mem s x.
Proof. intros Hx. apply put_bytes_other. pose proof out_piece_page. lia. Qed.

Lemma out_tables_agree : tables_agree s a m'.
Proof.
  destruct (buf_resident _ _ _ _ H Hleft) as (_ & _ & Hf). pose proof (co_inv _ _ _ _ H) as Hinv.
  destruct (co_as _ _ _ _ H) as [_ _ Hwf]. split.
  - intros b x Hx. apply out_other. eapply frame_pages_apart; [done | apply Hwf | done | | exact Hx].
    intros E. symmetry in E. revert E. apply (ow_dir _ _ _ _ Hown). lia.
  - intros b i x Hi Hne Hx. apply out_other.
    destruct (tw_table _ _ Hwf b i Hi Hne) as [Ft _].
    eapply frame_pages_apart; [done | exact Ft | done | | exact Hx].
    intros E. symmetry in E. revert E. apply (ow_table _ _ _ _ Hown); [lia | done].
Qed.

(** The kernel's buffer stays. *)
Lemma out_kernel x : cp_kbuf cont ≤ x < cp_kbuf cont + left_of cont → m' x = s_mem s x.
Proof.
  intros Hx. apply out_other.
  destruct (co_apart _ _ _ _ H (cp_buf cont)); [lia | lia | lia].
Qed.

Lemma out_piece i : 0 ≤ i < c → m' (user_addr s a (cp_buf cont + i)) = s_mem s (cp_kbuf cont + i).
Proof.
  intros Hi. rewrite (piece_addr s token cont a H Hleft i Hi), put_bytes_at, Z2Nat.id by lia.
  by destruct (Z.leb_spec 0 i), (Z.ltb_spec i c); try lia.
Qed.

Lemma out_own : own_pages (stepped s token cont m') a (cp_buf cont + c) (cp_buf cont + left_of cont).
Proof.
  destruct (next_piece_range cont Hleft) as [Hc _]. destruct (co_buf _ _ _ _ H).
  pose proof out_tables_agree as Hm. destruct Hown as [O1 O2 O3]. split.
  - intros v b Hv. rewrite stepped_entry by (done || lia). apply O1. lia.
  - intros v b x Hv Hx. rewrite stepped_entry by (done || lia).
    change (table_of (stepped s token cont m') a b x) with (table_of (set_s_mem m' s) a b x).
    rewrite tables_agree_table by done. apply O2; [lia | done].
  - intros u v Hu Hv. rewrite !stepped_entry by (done || lia). apply O3; lia.
Qed.

End out.

Lemma agree_entry s s' a b v :
  tables_agree s a (s_mem s') → 0 ≤ v < 2 ^ 32 → entry s' a b v = entry s a b v.
Proof. intros H Hv. rewrite <- (tables_agree_entry s a (s_mem s') b v H Hv). by apply entry_ext. Qed.

Lemma tables_agree_trans s token cont a m' m'' :
  tables_agree s a m' → tables_agree (stepped s token cont m') a m'' → tables_agree s a m''.
Proof.
  intros Hm [H1 H2]. pose proof Hm as [H3 H4]. split.
  - intros b x Hx. rewrite (H1 b x Hx). by apply (H3 b).
  - intros b i x Hi Hne Hx. assert (table_of (stepped s token cont m') a b i = table_of s a b i) as E.
    { by apply (tables_agree_table s a m' b i). }
    rewrite (H2 b i x) by (by rewrite ?E). by apply (H4 b i).
Qed.

(** The whole copy: after at most [k] nested calls the user's buffer has the
    kernel's bytes and nothing else has changed. *)
Lemma copyout_loop k s token cont a :
  copying s token cont a → own_pages s a (cp_buf cont) (cp_buf cont + left_of cont) →
  pieces_left cont k →
  ∃ j s', (j ≤ k)%nat ∧
    (∀ m, copyout_do_copy (run (j + m)) token 0 s = copyout_do_copy (run m) token 0 s') ∧
    copied s token cont a s' ∧
    tables_agree s a (s_mem s') ∧
    (∀ i, 0 ≤ i < left_of cont →
       user_byte s' a (cp_buf cont + i) = s_mem s (cp_kbuf cont + i)) ∧
    ∀ x, (∀ i, 0 ≤ i < left_of cont → user_addr s a (cp_buf cont + i) ≠ x) → s_mem s' x = s_mem s x.
Proof.
  revert s cont. induction k as [k IH] using (well_founded_induction lt_wf).
  intros s cont H Hown Hk. destruct (Z.eq_dec (left_of cont) 0) as [Hl | Hl].
  { exists 0%nat, s. split_and!; [lia | done | by apply copied_refl | by split | lia | done]. }
  assert (0 < left_of cont) as Hl' by (destruct (co_pos _ _ _ _ H); unfold left_of in *; lia).
  destruct (pieces_left_advance s token cont a k H Hl' Hk) as (k' & -> & Hk').
  destruct (next_piece_range cont Hl') as [Hc _]. destruct (co_buf _ _ _ _ H) as [Hb Hb'].
  pose proof (out_tables_agree s token cont a H Hl' Hown) as Hm.
  set (m' := put_bytes (s_mem s) (user_addr s a (cp_buf cont)) _) in *.
  set (c := next_piece cont) in *.
  pose proof (advance_kbuf s token cont a H Hl') as Ek. pose proof (advance_left s token cont a H Hl') as El.
  pose proof (advance_buf s token cont a H Hl') as Eb. fold c in Ek, El, Eb.
  destruct (IH k' ltac:(lia) (stepped s token cont m') (copy_advance c cont))
    as (j & s' & Hj & Erun & Hcp & Hta & Hbytes & Hrest); [by eapply stepped_copying | | done |].
  { rewrite Eb, El. replace (cp_buf cont + c + (left_of cont - c)) with (cp_buf cont + left_of cont) by lia.
    by apply out_own. }
  rewrite Eb, Ek, El in Hbytes. rewrite Eb, El in Hrest.
  assert (∀ v, 0 ≤ v < 2 ^ 32 → user_addr (stepped s token cont m') a v = user_addr s a v) as Hua.
  { intros v Hv. unfold user_addr. by rewrite stepped_entry by done. }
  apply (tables_agree_trans s token cont a m' _ Hm) in Hta.
  assert (∀ v, 0 ≤ v < 2 ^ 32 → user_addr s' a v = user_addr s a v) as Hua'.
  { intros v Hv. unfold user_addr. by rewrite (agree_entry s s'). }
  exists (S j), s'. split_and!; [lia | | by eapply copied_step | | |].
  - intros m. cbn [Nat.add]. rewrite (copyout_step _ s token cont a H Hl'), call_err_eq. apply Erun.
  - done.
  - intros i Hi. destruct (decide (i < c)) as [Hic | Hic].
    + unfold user_byte. rewrite Hua' by lia. rewrite Hrest.
      * change (s_mem (stepped s token cont m')) with m'.
        apply (out_piece s token cont a H Hl'). fold c. lia.
      * intros i' Hi'. rewrite Hua by lia. intros E.
        apply (user_addr_inj s a _ _ _ _ (co_inv _ _ _ _ H) Hown) in E; try lia.
        intros w Hw. apply (co_res _ _ _ _ H). lia.
    + replace (cp_buf cont + i) with (cp_buf cont + c + (i - c)) by lia. rewrite Hbytes by lia.
      change (s_mem (stepped s token cont m')) with m'.
      replace (cp_kbuf cont + c + (i - c)) with (cp_kbuf cont + i) by lia.
      apply (out_kernel s token cont a H Hl'). lia.
  - intros x Hx. rewrite Hrest.
    + change (s_mem (stepped s token cont m') x) with (m' x). unfold m'.
      apply put_bytes_other. unfold Zlength. rewrite length_bytes_at, Z2Nat.id by lia.
      destruct (decide (user_addr s a (cp_buf cont) ≤ x < user_addr s a (cp_buf cont) + c)); [| lia].
      exfalso. apply (Hx (x - user_addr s a (cp_buf cont))); [lia |].
      rewrite (piece_addr s token cont a H Hl'); fold c; lia.
    + intros i Hi. rewrite Hua by lia.
      replace (cp_buf cont + c + i) with (cp_buf cont + (c + i)) by lia. apply Hx. lia.
Qed.

(** * From the start *)

(** The current process has the address space [a], the range is in a region and
    in memory, the kernel's buffer is accessible and meets none of the user's
    pages.  Nothing is asked of the page after the range, and the continuation may
    not get memory. *)
Record copy_ready (s : sos) (kbuf buf nbyte asp : Z) (a : addrspace) (r : region) : Prop := {
  cr_inv : ft_inv s;
  cr_as : as_at s asp a;
  cr_cur : ∃ p x, cur_proc_ptr (s_proc s) = p ∧ p ≠ 0 ∧ s_heap s !! p = Some (OProcess x) ∧ p_as x = asp;
  cr_nbyte : 0 ≤ nbyte;
  cr_buf : 0 < buf ∧ buf + nbyte < vtop r ≤ 2 ^ 32;
  cr_region : region_probe_in a buf = Some r;
  cr_kbuf : 0 ≤ kbuf ∧ kbuf + nbyte < 2 ^ 32;
  cr_acc : accessible s kbuf nbyte = true;
  cr_res : ∀ v, buf ≤ v < buf + nbyte → resident s a v;
  cr_apart : ∀ v, buf ≤ v < buf + nbyte → apart kbuf nbyte (pte_kvaddr (entry s a true v));
  cr_brk : 0 < s_brk s;
  cr_fresh : s_heap s !! s_brk s = None
}.

(** The state with the new continuation. *)
Definition copy_started (s : sos) (cont : copy_cont) : sos :=
  set_s_brk (s_brk s + 16) (set_s_heap (<[s_brk s := to_obj cont]> (s_heap s))
    (set_s_tick (S (s_tick s)) s)).

Section start.
Context (s : sos) (kbuf buf nbyte asp : Z) (a : addrspace) (r : region).
Context (H : copy_ready s kbuf buf nbyte asp a r) (cb : err_cb) (tk : Z).

Definition copy_first : copy_cont := mk_copy cb tk kbuf buf nbyte 0 asp (Some r).

Lemma copy_first_left : left_of copy_first = nbyte.
Proof. unfold left_of. cbn. lia. Qed.

Lemma copy_start_copying : copying (copy_started s copy_first) (s_brk s) copy_first a.
Proof.
  destruct H as [H1 [Hp Hh Hwf] _ H4 H5 _ H7 H8 H9 H10 H12 H13].
  split; rewrite ?copy_first_left; cbn [copy_first cp_as cp_pos cp_nbyte cp_buf cp_kbuf].
  - done.
  - split; [done | |].
    + cbn. rewrite lookup_insert_ne; [done | congruence].
    + by apply (tables_wf_ext s).
  - lia.
  - cbn. by rewrite lookup_insert_eq.
  - lia.
  - lia.
  - lia.
  - exact H9.
  - apply accessible_spec. apply accessible_spec in H8 as [? | [? | [? | (q & size & Hq & ?)]]];
      [auto .. |]. right. right. right. exists q, size. cbn.
    rewrite lookup_insert_ne; [done | congruence].
  - exact H10.
Qed.

Lemma copy_start_pieces : pieces_left copy_first (Z.to_nat (nbyte / PAGE_SIZE + 2)).
Proof.
  right. rewrite copy_first_left. cbn [copy_first cp_buf]. pose proof (cr_nbyte _ _ _ _ _ _ _ H).
  unfold PAGE_SIZE. pose proof (Z.mod_pos_bound buf 4096). rewrite Z2Nat.id; divmod.
Qed.

Lemma copy_getas : proc_getas s = Ret (asp, s).
Proof.
  destruct (cr_cur _ _ _ _ _ _ _ H) as (p & x & Ep & Hp & Hx & Ex). unfold proc_getas, cur_proc.
  mpure. rewrite Ep. apply Z.eqb_neq in Hp as Hp'. rewrite Hp'. mstep (load_eq (T := process)) by done.
  by rewrite Ex.
Qed.

Lemma copy_valid : as_is_valid_memory asp buf nbyte s = Ret ((true, Some (r_rights r)), s).
Proof.
  destruct H as [_ [Hp Hh _] _ H4 H5 H6 _ _ _ _ _ _].
  rewrite (as_is_valid_memory_eq _ _ _ a) by (done || lia). rewrite H6.
  unfold u32. rewrite Z.mod_small by lia. by destruct (Z.ltb_spec (buf + nbyte) (vtop r)); [| lia].
Qed.

Lemma copy_probe : region_probe asp buf s = Ret (Some r, s).
Proof.
  destruct H as [_ [Hp Hh _] _ H4 H5 H6 _ _ _ _ _ _]. unfold region_probe.
  mstep assertM_eq by (by apply negb_true_iff, Z.eqb_neq).
  mstep assertM_eq by (apply negb_true_iff, Z.eqb_neq; lia).
  mstep (load_eq (T := addrspace)) by done. by rewrite H6.
Qed.

(** [copyin] and [copyout] check their arguments and start copying. *)
Lemma copyin_start rec :
  malloc_gives s →
  copyin rec kbuf buf nbyte cb tk s =
    (_ ← copyin_do_copy rec (s_brk s) 0; mret 0) (copy_started s copy_first).
Proof.
  intros Hm. unfold copyin. mstep copy_getas. mstep copy_valid. cbn [negb]. mstep copy_probe.
  mstep malloc_eq by done. destruct (Z.eqb_spec (s_brk s) 0); [pose proof (cr_brk _ _ _ _ _ _ _ H); lia |].
  mstep assertM_eq by (by apply bool_decide_eq_true_2). done.
Qed.

Lemma copyout_start rec :
  malloc_gives s →
  copyout rec buf kbuf nbyte cb tk s =
    (_ ← copyout_do_copy rec (s_brk s) 0; mret 0) (copy_started s copy_first).
Proof.
  intros Hm. unfold copyout. mstep copy_getas. destruct (cr_as _ _ _ _ _ _ _ H) as [Hp _ _].
  mstep assertM_eq by (by apply negb_true_iff, Z.eqb_neq).
  mstep copy_valid. cbn [negb]. mstep copy_probe.
  mstep malloc_eq by done. by destruct (Z.eqb_spec (s_brk s) 0); [pose proof (cr_brk _ _ _ _ _ _ _ H); lia |].
Qed.

(** Without memory for the continuation they say so. *)
Lemma copyin_nomem rec :
  ¬ malloc_gives s → copyin rec kbuf buf nbyte cb tk s = Ret (ENOMEM, set_s_tick (S (s_tick s)) s).
Proof.
  intros Hm. unfold copyin. mstep copy_getas. mstep copy_valid. cbn [negb]. mstep copy_probe.
  by mstep malloc_refused by done.
Qed.

Lemma copyout_nomem rec :
  ¬ malloc_gives s → copyout rec buf kbuf nbyte cb tk s = Ret (ENOMEM, set_s_tick (S (s_tick s)) s).
Proof.
  intros Hm. unfold copyout. mstep copy_getas. destruct (cr_as _ _ _ _ _ _ _ H) as [Hp _ _].
  mstep assertM_eq by (by apply negb_true_iff, Z.eqb_neq).
  mstep copy_valid. cbn [negb]. mstep copy_probe. by mstep malloc_refused by done.
Qed.

(** The end of a copy: the callback, and the continuation is freed. *)
Lemma copy_end_copied s' rec :
  copied (copy_started s copy_first) (s_brk s) copy_first a s' →
  (_ ← copy_end rec (s_brk s) 0; mret 0) s' =
    (_ ← call_ rec (CallErr cb tk 0); _ ← free (s_brk s); mret 0) s'.
Proof.
  intros (cont' & E & Ec & Et & _). unfold copy_end. rewrite M_bind_assoc.
  assert (s_heap s' !! s_brk s = Some (to_obj cont')) as Hh.
  { rewrite E. cbn. by rewrite lookup_insert_eq. }
  pose proof (cr_brk _ _ _ _ _ _ _ H).
  mstep (load_eq (T := copy_cont)) by (done || lia). rewrite Ec, Et. rewrite M_bind_assoc. done.
Qed.

(** When the last byte is not the last of its page, the next page is the same. *)
Lemma next_page_present :
  0 < nbyte → (buf + nbyte) mod PAGE_SIZE ≠ 0 →
  pte_in_use (entry s a true (buf + nbyte)) = true ∧ pte_swapped (entry s a true (buf + nbyte)) = false.
Proof.
  intros Hn Hm. destruct (cr_buf _ _ _ _ _ _ _ H) as [Hb Hv].
  rewrite (entry_page s a true (buf + nbyte) (buf + nbyte - 1)); [| lia | lia | unfold PAGE_SIZE in *; divmod].
  destruct (cr_res _ _ _ _ _ _ _ H (buf + nbyte - 1)) as (H1 & H2 & _); [lia | done].
Qed.

End start.

(** What a copy leaves alone: everything but memory and the continuation. *)
Definition only_memory (s s' : sos) : Prop :=
  ∃ o, s' = set_s_mem (s_mem s') (set_s_brk (s_brk s + 16)
              (set_s_heap (<[s_brk s := o]> (s_heap s)) (set_s_tick (S (s_tick s)) s))).

Lemma copied_only_memory s kbuf buf nbyte asp a r cb tk s' :
  copied (copy_started s (copy_first kbuf buf nbyte asp r cb tk)) (s_brk s)
    (copy_first kbuf buf nbyte asp r cb tk) a s' → only_memory s s'.
Proof.
  intros (cont' & E & _). exists (to_obj cont'). rewrite E at 1. unfold copy_started. cbn.
  by rewrite insert_insert_eq.
Qed.

(** The page of the first byte after the range is in memory, or is the one of the
    last byte. *)
Definition next_present (s : sos) (a : addrspace) (buf nbyte : Z) : Prop :=
  (0 < nbyte ∧ (buf + nbyte) mod PAGE_SIZE ≠ 0) ∨
  (pte_in_use (entry s a true (buf + nbyte)) = true ∧ pte_swapped (entry s a true (buf + nbyte)) = false).

(** How a copy goes: [go] is [copyin] or [copyout], [self] its callback.  After
    [j] nested calls all is copied in [s'], where the next page is looked at; when
    it is there, the callback is called. *)
Record copy_goes (go : interp → M Z) (self cb : err_cb) (s s' : sos) (buf nbyte asp tk : Z)
    (a : addrspace) (r : region) (j : nat) : Prop := {
  cg_calls : Z.of_nat j ≤ nbyte / PAGE_SIZE + 2;
  cg_only : only_memory s s';
  cg_next : ∀ m, go (run (j + m)) s =
    (_ ← copy_finish (run m) self (entry s a true (buf + nbyte)) asp (PAGE_ALIGN (buf + nbyte))
           (r_rights r) (s_brk s); mret 0) s';
  cg_end : next_present s a buf nbyte →
    ∀ m, go (run (j + m)) s = (_ ← call_ (run m) (CallErr cb tk 0); _ ← free (s_brk s); mret 0) s'
}.

Lemma copy_goes_intro go self cb s s' kbuf buf nbyte asp tk a r j :
  copy_ready s kbuf buf nbyte asp a r → (j ≤ Z.to_nat (nbyte / PAGE_SIZE + 2))%nat →
  copied (copy_started s (copy_first kbuf buf nbyte asp r cb tk)) (s_brk s)
    (copy_first kbuf buf nbyte asp r cb tk) a s' →
  tables_agree s a (s_mem s') →
  (∀ m, go (run (j + m)) s =
     (_ ← copy_finish (run m) self (entry s' a true (buf + nbyte)) asp (PAGE_ALIGN (buf + nbyte))
            (r_rights r) (s_brk s); mret 0) s') →
  copy_goes go self cb s s' buf nbyte asp tk a r j.
Proof.
  intros H Hj Hcp Hta Hgo. destruct (cr_buf _ _ _ _ _ _ _ H) as [Hb Hv].
  assert (0 ≤ buf + nbyte < 2 ^ 32) as Hr by (pose proof (cr_nbyte _ _ _ _ _ _ _ H); lia).
  rewrite (agree_entry s s') in Hgo by done. split.
  - pose proof (cr_nbyte _ _ _ _ _ _ _ H). unfold PAGE_SIZE in *.
    assert (0 ≤ nbyte / 4096) by divmod. lia.
  - by eapply copied_only_memory.
  - done.
  - intros Hnext m. rewrite <- (copy_end_copied _ _ _ _ _ _ _ H cb tk) by done. rewrite Hgo.
    assert (pte_in_use (entry s a true (buf + nbyte)) = true ∧
            pte_swapped (entry s a true (buf + nbyte)) = false) as [E1 E2].
    { destruct Hnext as [[H1 H2] | ?]; [by eapply next_page_present | done]. }
    unfold copy_finish. by rewrite E1, E2.
Qed.

(** The entries of the tables stay when memory changes only outside them. *)
Lemma apart_tables_agree s a b n m' :
  apart_tables s a b n → (∀ x, x < b ∨ b + n ≤ x → m' x = s_mem s x) → tables_agree s a m'.
Proof.
  intros [H1 H2] Hm. split.
  - intros c x Hx. apply Hm. destruct (H1 c); lia.
  - intros c i x Hi Hne Hx. apply Hm. destruct (H2 c i Hi Hne); lia.
Qed.

(** [C14] [copyin] of a range that is in memory: with at most
    [nbyte / PAGE_SIZE + 2] nested calls it comes to a state in which the kernel's
    buffer holds exactly the user's bytes, across page boundaries, and the rest of
    memory is as before.  It then calls back with no error when the page of the
    byte after the range is in memory as well, which is so whenever the range ends
    inside a page; otherwise it maps or swaps in that page first, although it
    needs nothing of it, and calls back with an error when that cannot be done.
    Without memory for its continuation it returns [ENOMEM] and does nothing. *)
Theorem copyin_correct (s : sos) (kbuf buf nbyte asp : Z) (a : addrspace) (r : region) (cb : err_cb)
    (tk : Z) :
  copy_ready s kbuf buf nbyte asp a r → apart_tables s a kbuf nbyte →
  if decide (malloc_gives s) then
    ∃ j s',
      copy_goes (λ rec, copyin rec kbuf buf nbyte cb tk) cb_copyin_do_copy cb s s' buf nbyte asp tk a r j ∧
      ∀ x, s_mem s' x = if (kbuf <=? x) && (x <? kbuf + nbyte) then user_byte s a (buf + (x - kbuf))
                        else s_mem s x
  else ∀ rec, copyin rec kbuf buf nbyte cb tk s = Ret (ENOMEM, set_s_tick (S (s_tick s)) s).
Proof.
  intros H Hat. case_decide as Hm; [| intros rec; by eapply copyin_nomem]. pose proof (copy_start_copying _ _ _ _ _ _ _ H cb tk) as Hc.
  pose proof (copy_start_pieces _ _ _ _ _ _ _ H cb tk) as Hp.
  destruct (copyin_loop (Z.to_nat (nbyte / PAGE_SIZE + 2)) _ _ _ _ Hc)
    as (j & s' & Hj & Erun & Hcp & Hmem); [by rewrite copy_first_left | done |].
  exists j, s'. rewrite copy_first_left in Hmem. split; [| exact Hmem].
  apply (copy_goes_intro _ _ cb s s' kbuf); [done | done | done | |].
  - apply (apart_tables_agree s a kbuf nbyte); [done |]. intros x Hx. rewrite Hmem. cbn [copy_first cp_kbuf].
    by replace (_ && _) with false by lia.
  - destruct Hcp as (cont' & _ & _ & _ & Ea & Er & Hc' & Hl & Eb). rewrite copy_first_left in Eb.
    cbn [copy_first cp_as cp_reg cp_buf] in *. rewrite <- Ea, <- Eb.
    intros m. rewrite (copyin_start _ _ _ _ _ _ _ H) by done. apply M_bind_left. rewrite Erun. by apply copyin_stop.
Qed.

(** The run of [copyout] on a range in memory, in the form its callers use. *)
Lemma copyout_runs (s : sos) (kbuf buf nbyte asp : Z) (a : addrspace) (r : region) (cb : err_cb)
    (tk : Z) :
  copy_ready s kbuf buf nbyte asp a r → own_pages s a buf (buf + nbyte) → malloc_gives s →
  ∃ j s',
    copy_goes (λ rec, copyout rec buf kbuf nbyte cb tk) cb_copyout_do_copy cb s s' buf nbyte asp tk a r j ∧
    tables_agree s a (s_mem s') ∧
    (∀ i, 0 ≤ i < nbyte → user_byte s' a (buf + i) = s_mem s (kbuf + i)) ∧
    ∀ x, (∀ i, 0 ≤ i < nbyte → user_addr s a (buf + i) ≠ x) → s_mem s' x = s_mem s x.
Proof.
  intros H Hown Hm. pose proof (copy_start_copying _ _ _ _ _ _ _ H cb tk) as Hc.
  pose proof (copy_start_pieces _ _ _ _ _ _ _ H cb tk) as Hp.
  destruct (copyout_loop (Z.to_nat (nbyte / PAGE_SIZE + 2)) _ _ _ _ Hc)
    as (j & s' & Hj & Erun & Hcp & Hta & Hbytes & Hrest); [rewrite copy_first_left; by destruct Hown | done |].
  rewrite copy_first_left in Hbytes, Hrest. exists j, s'. split; [| by split_and!].
  apply (copy_goes_intro _ _ cb s s' kbuf); [done .. |].
  destruct Hcp as (cont' & _ & _ & _ & Ea & Er & Hc' & Hl & Eb). rewrite copy_first_left in Eb.
  cbn [copy_first cp_as cp_reg cp_buf] in *. rewrite <- Ea, <- Eb.
  intros m. rewrite (copyout_start _ _ _ _ _ _ _ H) by done. apply M_bind_left. rewrite Erun. by apply copyout_stop.
Qed.

(** [C8] [copyout] to a range that is in memory: with at most
    [nbyte / PAGE_SIZE + 2] nested calls it comes to a state in which the user's
    buffer holds exactly the kernel's bytes, and no other byte of memory and no
    entry of the user's page tables has changed.  It then calls back with no error
    when the page of the byte after the range is in memory as well, which is so
    whenever the range ends inside a page; otherwise it maps or swaps in that page
    first, although it needs nothing of it, and calls back with an error when that
    cannot be done.  Without memory for its continuation it returns [ENOMEM] and
    does nothing. *)
Theorem copyout_correct (s : sos) (kbuf buf nbyte asp : Z) (a : addrspace) (r : region) (cb : err_cb)
    (tk : Z) :
  copy_ready s kbuf buf nbyte asp a r → own_pages s a buf (buf + nbyte) →
  if decide (malloc_gives s) then
    ∃ j s',
      copy_goes (λ rec, copyout rec buf kbuf nbyte cb tk) cb_copyout_do_copy cb s s' buf nbyte asp tk a r j ∧
      tables_agree s a (s_mem s') ∧
      (∀ i, 0 ≤ i < nbyte → user_byte s' a (buf + i) = s_mem s (kbuf + i)) ∧
      ∀ x, (∀ i, 0 ≤ i < nbyte → user_addr s a (buf + i) ≠ x) → s_mem s' x = s_mem s x
  else ∀ rec, copyout rec buf kbuf nbyte cb tk s = Ret (ENOMEM, set_s_tick (S (s_tick s)) s).
Proof.
  intros H Hown. case_decide; [by eapply copyout_runs | intros rec; by eapply copyout_nomem].
Qed.

(** * Examples *)

(** The example of [World] with a current process whose address space it is; the
    console's buffer is the kernel's side. *)
Definition copy_process : process := set_p_as HEAP_START (mk_proc 0 0 0 0 0 0 0 0 0 0 0 None 0 0 [] true).

Definition copy_over (s : sos) : sos :=
  set_s_brk (HEAP_START + 64) (set_s_proc (mk_procst [] (-1) [] [] [] world_token) s).

Definition world_copy (s : sos) : sos := copy_over (world_over s (OProcess copy_process)).

Lemma copy_over_parts s :
  s_ft (copy_over s) = s_ft s ∧ s_heap (copy_over s) = s_heap s ∧ s_mem (copy_over s) = s_mem s ∧
  s_env (copy_over s) = s_env s.
Proof. done. Qed.

Definition copy_region : region := mk_region 0x10000 0x20000 3.

Section world_copy.
Context (s : sos) (Hs : frames_ok s) (Hm : ∀ n, e_malloc (s_env s) n = true).

Notation world := (world_copy s).

(** The parts of the state, and what follows from them. *)
Notation base := (world_over s (OProcess copy_process)).

Lemma world_copy_ft : s_ft world = s_ft base.
Proof. apply copy_over_parts. Qed.

Lemma world_copy_heap : s_heap world = s_heap base.
Proof. apply copy_over_parts. Qed.

Lemma world_copy_mem : s_mem world = s_mem base.
Proof. apply copy_over_parts. Qed.

Lemma world_copy_page kv : frame_page base kv → frame_page world kv.
Proof. unfold frame_page. by rewrite world_copy_ft. Qed.

Lemma world_copy_as_at : as_at world HEAP_START world_as.
Proof.
  destruct (world_as_at s Hs (OProcess copy_process)) as [Hp Hh Hwf].
  split; [exact Hp | by rewrite world_copy_heap |].
  exact (tables_wf_ext base world world_as world_copy_mem world_copy_page Hwf).
Qed.

Lemma world_copy_table b x :
  0 ≤ x < 1024 → table_of world world_as b x =
    if x =? 0 then (if b then ID_TO_KVADDR 3 else ID_TO_KVADDR 4) else 0.
Proof.
  intros Hx. rewrite <- (world_table s (OProcess copy_process)) by done. unfold table_of.
  by rewrite world_copy_mem.
Qed.

Lemma world_copy_entry v :
  0x10000 ≤ v < 0x11000 → entry world world_as true v = new_pte (ID_TO_KVADDR 5).
Proof.
  intros Hv. assert (idx1 v = 0 ∧ idx2 v = 16) as [E1 E2].
  { unfold idx1, idx2. change (2 ^ 22) with 4194304. change (2 ^ 12) with 4096. change (2 ^ 10) with 1024.
    divmod. }
  unfold entry. rewrite E1, E2, world_copy_table by lia. change (0 =? 0) with true. cbv iota.
  change (ID_TO_KVADDR 3 =? 0) with false. cbv iota.
  rewrite world_copy_mem. change (s_mem base) with world_mem. by rewrite world_word by lia.
Qed.

Lemma world_copy_kvaddr v :
  0x10000 ≤ v < 0x11000 → pte_kvaddr (entry world world_as true v) = ID_TO_KVADDR 5.
Proof. intros Hv. by rewrite world_copy_entry. Qed.

Lemma world_copy_resident v : 0x10000 ≤ v < 0x11000 → resident world world_as v.
Proof.
  intros Hv. unfold resident. rewrite world_copy_kvaddr, world_copy_entry by lia.
  split; [reflexivity |]. split; [reflexivity |].
  apply world_copy_page, (world_page s Hs (OProcess copy_process)). lia.
Qed.

Lemma world_copy_ready : copy_ready world CONSOLE_BUF 0x10010 100 HEAP_START world_as copy_region.
Proof.
  split.
  - unfold ft_inv. rewrite world_copy_ft. exact (world_inv s Hs (OProcess copy_process)).
  - exact world_copy_as_at.
  - exists world_token, copy_process. split; [done |]. split; [discriminate |]. split; [| done].
    rewrite world_copy_heap. exact (world_obj s (OProcess copy_process)).
  - lia.
  - cbn [vtop copy_region]. lia.
  - reflexivity.
  - unfold CONSOLE_BUF. lia.
  - apply accessible_spec. right. right. left. reflexivity.
  - intros v Hv. apply world_copy_resident. lia.
  - intros v Hv. rewrite world_copy_kvaddr by lia. right. unfold PAGE_SIZE, CONSOLE_BUF.
    change (ID_TO_KVADDR 5) with 536891392. lia.
  - reflexivity.
  - rewrite world_copy_heap.
    change (s_heap base) with (<[world_token := OProcess copy_process]> ({[HEAP_START := to_obj world_as]} : gmap Z obj)).
    change (s_brk world) with (HEAP_START + 64).
    rewrite lookup_insert_ne by done. by rewrite lookup_singleton_ne.
Qed.

Lemma world_copy_malloc : malloc_gives world.
Proof.
  split.
  - destruct (copy_over_parts base) as (_ & _ & _ & E). unfold world_copy.
    rewrite E, world_env. apply Hm.
  - change (s_brk world) with (HEAP_START + 64). unfold HEAP_START, HEAP_END. lia.
Qed.

Lemma world_copy_apart : apart_tables world world_as CONSOLE_BUF 100.
Proof.
  split.
  - intros []; right; vm_compute; discriminate.
  - intros c x Hx. rewrite world_copy_table by done. destruct (x =? 0); [| done].
    intros _. destruct c; right; vm_compute; discriminate.
Qed.

Lemma world_copy_own : own_pages world world_as 0x10010 (0x10010 + 100).
Proof.
  split.
  - intros v b Hv. rewrite world_copy_kvaddr by lia. by destruct b.
  - intros v b x Hv Hx. rewrite world_copy_kvaddr, world_copy_table by lia.
    by destruct (x =? 0), b.
  - intros u v Hu Hv _. unfold PAGE_SIZE. divmod.
Qed.

End world_copy.

Lemma world_frames_malloc n : e_malloc (s_env world_frames) n = true.
Proof. assert (s_env world_frames = env_world) as -> by (vm_compute; reflexivity). done. Qed.

Lemma copyin_correct_witness :
  ∃ j s', (∀ m, copyin (run (j + m)) CONSOLE_BUF 0x10010 100 cb_con_read_end 1 (world_copy world_frames) =
      (_ ← call_ (run m) (CallErr cb_con_read_end 1 0); _ ← free (HEAP_START + 64); mret 0) s') ∧
    s_mem s' (CONSOLE_BUF + 5) = user_byte (world_copy world_frames) world_as 0x10015.
Proof.
  assert (H := copyin_correct (world_copy world_frames) CONSOLE_BUF 0x10010 100 HEAP_START world_as
    copy_region cb_con_read_end 1 (world_copy_ready _ world_frames_ok) (world_copy_apart _)).
  rewrite decide_True in H by (apply world_copy_malloc, world_frames_malloc).
  destruct H as (j & s' & [_ _ _ E] & Hmem). exists j, s'.
  split; [apply E; left; split; [reflexivity | discriminate] |]. rewrite Hmem. reflexivity.
Defined.

Lemma copyout_correct_witness :
  ∃ j s', (∀ m, copyout (run (j + m)) 0x10010 CONSOLE_BUF 100 cb_con_read_end 1 (world_copy world_frames) =
      (_ ← call_ (run m) (CallErr cb_con_read_end 1 0); _ ← free (HEAP_START + 64); mret 0) s') ∧
    user_byte s' world_as 0x10015 = s_mem (world_copy world_frames) (CONSOLE_BUF + 5).
Proof.
  assert (H := copyout_correct (world_copy world_frames) CONSOLE_BUF 0x10010 100 HEAP_START world_as
    copy_region cb_con_read_end 1 (world_copy_ready _ world_frames_ok) (world_copy_own _)).
  rewrite decide_True in H by (apply world_copy_malloc, world_frames_malloc).
  destruct H as (j & s' & [_ _ _ E] & _ & Hb & _). exists j, s'.
  split; [apply E; left; split; [reflexivity | discriminate] |]. apply (Hb 5). lia.
Defined.
