(* ===== verification/ConsoleInv.v ===== *)
(** The console's ring buffer is a queue of characters: what arrives is appended,
    unless the console was closed with characters unread, and a read takes the
    first line, also when it wraps around the end of the buffer. *)

From S2P Require Import Prelude UtAllocator Sos Hoare Mapping SwapSlots FrameTable FrameInv.
From S2P Require Import FrameAlloc ProcTable AddrSpace RegionInv PageTable Swap SwapInv SwapProto.
From S2P Require Import PageWalk CopyInOut Clock Console NfsDev Vfs FileTable Elf Process Vm.
From S2P Require Import Syscalls Machine World CopyInv.

(** * The queue *)

(** The characters of the ring from position [cur] on. *)
Definition ring (m : Z → Z) (cur : Z) (n : nat) : list Z :=
  (λ i : nat, m (CONSOLE_BUF + (cur + Z.of_nat i) mod MAX_IO_BUF)) <$> seq 0 n.

Definition con_queue (s : sos) : list Z :=
  ring (s_mem s) (con_start (s_con s)) (Z.to_nat (con_buf_size (s_con s))).

(** The characters are inside the buffer. *)
Definition con_ring (c : con_dev) : Prop :=
  0 ≤ con_start c < MAX_IO_BUF ∧ 0 ≤ con_buf_size c ≤ MAX_IO_BUF.

(** And the next one goes after them. *)
Record con_ok (c : con_dev) : Prop := {
  cn_start : 0 ≤ con_start c < MAX_IO_BUF;
  cn_size : 0 ≤ con_buf_size c ≤ MAX_IO_BUF;
  cn_end : con_end c = (con_start c + con_buf_size c) mod MAX_IO_BUF
}.

Definition con_inv (s : sos) : Prop := con_ok (s_con s).

(** The first line of a queue, cut off after [n] characters. *)
Fixpoint first_line (q : list Z) (n : nat) : list Z :=
  match n, q with
  | S n', ch :: q' => if ch =? NEWLINE then [ch] else ch :: first_line q' n'
  | _, _ => []
  end.

Lemma first_line_prefix q n : first_line q n = take (length (first_line q n)) q.
Proof.
  revert n. induction q as [| ch q IH]; intros [| n]; try done. cbn [first_line].
  destruct (ch =? NEWLINE); [done |]. cbn [length take]. by f_equal.
Qed.

Lemma first_line_length q n : (length (first_line q n) ≤ n ∧ length (first_line q n) ≤ length q)%nat.
Proof.
  revert n. induction q as [| ch q IH]; intros [| n]; cbn [first_line length]; try lia.
  destruct (ch =? NEWLINE); cbn [length]; [lia |]. specialize (IH n). lia.
Qed.

Lemma length_ring m cur n : length (ring m cur n) = n.
Proof. unfold ring. by rewrite length_fmap, length_seq. Qed.

Lemma ring_lookup m cur n i :
  (i < n)%nat → ring m cur n !! i = Some (m (CONSOLE_BUF + (cur + Z.of_nat i) mod MAX_IO_BUF)).
Proof. intros Hi. unfold ring. by rewrite list_lookup_fmap, lookup_seq_lt. Qed.

Lemma ring_lookup_ge m cur n i : (n ≤ i)%nat → ring m cur n !! i = None.
Proof. intros Hi. apply lookup_ge_None_2. by rewrite length_ring. Qed.

Lemma ring_S m cur n :
  0 ≤ cur < MAX_IO_BUF →
  ring m cur (S n) = m (CONSOLE_BUF + cur) :: ring m ((cur + 1) mod MAX_IO_BUF) n.
Proof.
  intros Hc. apply list_eq. intros [| i].
  - rewrite ring_lookup by lia. change (Z.of_nat 0) with 0. by rewrite Z.add_0_r, (Z.mod_small cur).
  - cbn [lookup list_lookup]. destruct (decide (i < n)%nat).
    + rewrite !ring_lookup by lia. do 3 f_equal. rewrite Z.add_mod_idemp_l by (by unfold MAX_IO_BUF).
      f_equal. lia.
    + by rewrite !ring_lookup_ge by lia.
Qed.

(** The end of the ring, and a character stored there. *)
Lemma ring_drop m cur n k :
  (k ≤ n)%nat → drop k (ring m cur n) = ring m ((cur + Z.of_nat k) mod MAX_IO_BUF) (n - k).
Proof.
  intros Hk. apply list_eq. intros i. rewrite lookup_drop. destruct (decide (i < n - k)%nat).
  - rewrite !ring_lookup by lia. do 3 f_equal. rewrite Z.add_mod_idemp_l by (by unfold MAX_IO_BUF).
    f_equal. lia.
  - by rewrite !ring_lookup_ge by lia.
Qed.

Lemma ring_snoc m cur n e ch :
  0 ≤ cur < MAX_IO_BUF → 0 ≤ Z.of_nat n < MAX_IO_BUF → e = (cur + Z.of_nat n) mod MAX_IO_BUF →
  ring (put_bytes m (CONSOLE_BUF + e) [ch]) cur (S n) = ring m cur n ++ [ch].
Proof.
  intros Hc Hn He. apply list_eq. intros i. destruct (decide (i < n)%nat) as [Hi | Hi].
  - rewrite lookup_app_l by (rewrite length_ring; lia). rewrite !ring_lookup by lia. f_equal.
    apply put_bytes_other. change (Zlength [ch]) with 1. unfold MAX_IO_BUF in *.
    assert ((cur + Z.of_nat i) mod 4096 ≠ e) by divmod. lia.
  - rewrite lookup_app_r by (rewrite length_ring; lia). rewrite length_ring.
    destruct (decide (i = n)) as [-> | Hne].
    + rewrite ring_lookup, Nat.sub_diag by lia. cbn. f_equal. rewrite <- He.
      replace (CONSOLE_BUF + e) with (CONSOLE_BUF + e + Z.of_nat 0) at 2 by lia. by apply put_bytes_in.
    + rewrite ring_lookup_ge by lia. symmetry. apply lookup_ge_None_2. cbn. lia.
Qed.

(** Taking [k] characters from the front. *)
Definition con_taken (c : con_dev) (k : Z) : con_dev :=
  mk_con (con_buf_size c - k) ((con_start c + k) mod MAX_IO_BUF) (con_end c) (con_serial c).

Lemma con_ok_ring c : con_ok c → con_ring c.
Proof. by intros [? ? _]. Qed.

Lemma con_taken_ok c k : con_ok c → 0 ≤ k ≤ con_buf_size c → con_ok (con_taken c k).
Proof.
  intros [H1 H2 H3] Hk. split; cbn; [by apply Z.mod_pos_bound | lia |].
  rewrite Z.add_mod_idemp_l by (by unfold MAX_IO_BUF). rewrite H3. f_equal. lia.
Qed.

Lemma con_take c k m :
  con_ring c → 0 ≤ k ≤ con_buf_size c →
  con_ring (con_taken c k) ∧
  ring m (con_start c) (Z.to_nat (con_buf_size c)) =
    take (Z.to_nat k) (ring m (con_start c) (Z.to_nat (con_buf_size c))) ++
    ring m ((con_start c + k) mod MAX_IO_BUF) (Z.to_nat (con_buf_size c - k)).
Proof.
  intros [H1 H2] Hk. split.
  - split; cbn; [by apply Z.mod_pos_bound | lia].
  - rewrite <- (take_drop (Z.to_nat k)) at 1. rewrite ring_drop by lia. repeat f_equal; lia.
Qed.

(** The loop of [_con_read] finds the length of the first line. *)
Lemma line_len_eq m n cur nbytes len :
  0 ≤ cur < MAX_IO_BUF → 0 ≤ len ≤ nbytes →
  line_len m n cur nbytes len =
    len + Zlength (first_line (ring m cur n) (Z.to_nat (nbytes - len))).
Proof.
  revert cur len. induction n as [| n IH]; intros cur len Hc Hl.
  - unfold Zlength. cbn. destruct (Z.to_nat (nbytes - len)); cbn; lia.
  - cbn [line_len]. rewrite ring_S by done. destruct (Z.ltb_spec len nbytes).
    + replace (Z.to_nat (nbytes - len)) with (S (Z.to_nat (nbytes - (len + 1)))) by lia.
      cbn [first_line]. destruct (m (CONSOLE_BUF + cur) =? NEWLINE); [done |].
      rewrite IH; [| apply Z.mod_pos_bound; done | lia]. unfold Zlength. cbn [length]. lia.
    + replace (Z.to_nat (nbytes - len)) with 0%nat by lia. unfold Zlength. cbn. lia.
Qed.

(** * Characters arrive *)

Lemma con_accessible s i : 0 ≤ i < MAX_IO_BUF → accessible s (CONSOLE_BUF + i) 1 = true.
Proof.
  intros Hi. apply accessible_spec. right. right. left. unfold in_static, MAX_IO_BUF in *. lia.
Qed.

Lemma con_store_char_eq s ch :
  con_inv s →
  con_store_char ch s =
    Ret (tt, if con_buf_size (s_con s) <? MAX_IO_BUF then
               set_s_con (mk_con (con_buf_size (s_con s) + 1) (con_start (s_con s))
                            ((con_end (s_con s) + 1) mod MAX_IO_BUF) (con_serial (s_con s)))
                 (set_s_mem (put_bytes (s_mem s) (CONSOLE_BUF + con_end (s_con s)) [ch]) s)
             else s).
Proof.
  intros [H1 H2 H3]. unfold con_store_char. mpure. destruct (con_buf_size (s_con s) <? MAX_IO_BUF); [| done].
  assert (0 ≤ con_end (s_con s) < MAX_IO_BUF) by (rewrite H3; by apply Z.mod_pos_bound).
  by mstep write_mem_eq by (by apply con_accessible).
Qed.

(** The console's buffer is a queue.  A character that arrives is appended,
    unless the buffer is full, in which case it is dropped; the length
    [_con_read] computes is that of the first line, cut off at [nbytes]; and
    advancing the start by that length leaves the rest of the queue. *)
Theorem console_queue (s : sos) (ch nbytes : Z) :
  con_inv s → 0 ≤ nbytes →
  (∃ s', con_store_char ch s = Ret (tt, s') ∧ con_inv s' ∧
     con_queue s' = if con_buf_size (s_con s) <? MAX_IO_BUF then con_queue s ++ [ch] else con_queue s) ∧
  let c := s_con s in
  let line := first_line (con_queue s) (Z.to_nat nbytes) in
  line_len (s_mem s) (Z.to_nat (con_buf_size c)) (con_start c) nbytes 0 = Zlength line ∧
  let s' := set_s_con (con_taken c (Zlength line)) s in
  con_inv s' ∧ con_queue s = line ++ con_queue s'.
Proof.
  intros H Hn. pose proof H as [H1 H2 H3]. split.
  - eexists. split; [by apply con_store_char_eq |]. destruct (Z.ltb_spec (con_buf_size (s_con s)) MAX_IO_BUF);
      [| done]. split.
    + split; cbn; [done | lia |]. rewrite H3, Z.add_mod_idemp_l by (by unfold MAX_IO_BUF). f_equal. lia.
    + unfold con_queue. cbn. replace (Z.to_nat (con_buf_size (s_con s) + 1))
        with (S (Z.to_nat (con_buf_size (s_con s)))) by lia.
      apply ring_snoc; [done | lia |]. rewrite H3. f_equal. lia.
  - intros c line. split; [rewrite line_len_eq by (done || lia); by rewrite Z.sub_0_r |].
    intros s'. pose proof (first_line_length (con_queue s) (Z.to_nat nbytes)) as [_ Hl]. fold line in Hl.
    unfold con_queue in Hl at 1. rewrite length_ring in Hl. fold c in Hl.
    assert (0 ≤ Zlength line ≤ con_buf_size c) as Hll by (unfold Zlength; fold c in H2; lia).
    destruct (con_take c (Zlength line) (s_mem s) (con_ok_ring _ H) Hll) as [_ Hq].
    split; [by apply con_taken_ok |]. unfold con_queue at 1. fold c. rewrite Hq. f_equal.
    unfold Zlength. rewrite Nat2Z.id. symmetry. apply first_line_prefix.
Qed.

(** * Closing *)

(** Closing the console loses its place: [_con_eachclose] empties the buffer
    by setting its size to 0 but does not move the start, so when characters were
    left unread the next character that arrives is stored elsewhere, and what the
    next reader gets for it is the first of the old characters. *)
Theorem close_keeps_stale (s : sos) (vn ch : Z) :
  con_inv s → 0 < con_buf_size (s_con s) < MAX_IO_BUF → con_serial (s_con s) = true →
  e_serial_ok (s_env s) (s_tick s) = true →
  ∃ s1 s2, con_eachclose vn O_RDONLY s = Ret (0, s1) ∧ con_queue s1 = [] ∧
    con_store_char ch s1 = Ret (tt, s2) ∧ con_queue s2 = take 1 (con_queue s).
Proof.
  intros [H1 H2 H3] Hs Hser Hok. eexists _, _. split.
  { unfold con_eachclose. change ((O_RDONLY =? O_RDWR) || (O_RDONLY =? O_RDONLY)) with true. cbv iota.
    mpure. rewrite Hser. cbn [negb]. unfold serial_register_handler.
    erewrite M_bind_eq by (unfold ask; by rewrite Hok). cbn [negb]. unfold mod_con, mod_conr. mpure.
    reflexivity. }
  split; [done |]. assert (0 ≤ con_end (s_con s) < MAX_IO_BUF) as He by (rewrite H3; by apply Z.mod_pos_bound).
  split.
  { unfold con_store_char. mpure. cbn [con_buf_size s_con set_s_conr set_s_con set_con_buf_size Z.ltb].
    change (0 <? MAX_IO_BUF) with true. cbv iota.
    mstep write_mem_eq by (by apply con_accessible). reflexivity. }
  unfold con_queue. cbn. replace (Z.to_nat (con_buf_size (s_con s)))
    with (S (Z.to_nat (con_buf_size (s_con s) - 1))) by lia.
  rewrite (ring_S (s_mem s)) by done. cbn [take].
  rewrite (ring_S _ _ 0) by done. f_equal. apply put_bytes_other. change (Zlength [ch]) with 1.
  rewrite H3 in *. unfold MAX_IO_BUF in *. divmod.
Qed.

(** * Reading a line *)

(** The reader's buffer of [n] bytes and the byte after it are in one region and in
    memory, and the pages are the reader's alone. *)
Record reader_ready (s : sos) (buf n asp : Z) (a : addrspace) (r : region) : Prop := {
  rr_inv : ft_inv s;
  rr_as : as_at s asp a;
  rr_cur : ∃ p x, cur_proc_ptr (s_proc s) = p ∧ p ≠ 0 ∧ s_heap s !! p = Some (OProcess x) ∧ p_as x = asp;
  rr_buf : 0 < buf ∧ 0 ≤ n ∧ buf + n < vtop r ≤ 2 ^ 32;
  rr_region : ∀ v, buf ≤ v ≤ buf + n → region_probe_in a v = Some r;
  rr_res : ∀ v, buf ≤ v ≤ buf + n → resident s a v;
  rr_own : own_pages s a buf (buf + n);
  rr_brk : 0 < s_brk s;
  rr_fresh : ∀ p, s_brk s ≤ p → s_heap s !! p = None
}.

Lemma frame_page_below s kv : ft_inv s → frame_page s kv → kv + PAGE_SIZE ≤ CONSOLE_BUF.
Proof.
  intros Hinv (id & e & -> & _ & He & _). apply rd_bounds in He. rewrite (fo_len _ Hinv), NFRAMES_eq in He.
  rewrite ID_TO_KVADDR_eq by (by rewrite NFRAMES_eq). unfold FRAME_VSTART, PAGE_SIZE, CONSOLE_BUF. lia.
Qed.

Lemma own_pages_sub s a lo hi lo' hi' :
  own_pages s a lo hi → lo ≤ lo' → hi' ≤ hi → own_pages s a lo' hi'.
Proof.
  intros [H1 H2 H3] Hlo Hhi. split; intros; [apply H1 | apply H2 | apply H3]; (done || lia).
Qed.

(** Part of the reader's buffer can be copied to from the console's buffer. *)
Lemma reader_copy s buf n asp a r off k i :
  reader_ready s buf n asp a r → 0 ≤ off → 0 ≤ k → off + k ≤ n →
  0 ≤ i → i + k ≤ MAX_IO_BUF →
  copy_ready s (CONSOLE_BUF + i) (buf + off) k asp a r ∧ own_pages s a (buf + off) (buf + off + k) ∧
  next_present s a (buf + off) k.
Proof.
  intros [H1 H2 H3 H4 H5 H6 H7 H9 H10] Hoff Hk Hn Hi Hik.
  split; [split | split; [apply (own_pages_sub s a buf (buf + n)); [done | lia | lia] |]].
  - done.
  - done.
  - done.
  - done.
  - lia.
  - apply H5. lia.
  - unfold CONSOLE_BUF, MAX_IO_BUF in *. lia.
  - apply accessible_spec. destruct (decide (k ≤ 0)); [by left |]. right. right. left.
    unfold in_static, MAX_IO_BUF in *. lia.
  - intros v Hv. apply H6. lia.
  - intros v Hv. right. destruct (H6 v) as (_ & _ & Hf); [lia |].
    pose proof (frame_page_below _ _ H1 Hf). lia.
  - done.
  - apply H10. lia.
  - right. destruct (H6 (buf + off + k)) as (? & ? & _); [lia | done].
Qed.

(** A step that only changes memory outside the tables and allocates one object
    that is not a process or an address space of the reader's. *)
Lemma reader_step s s' buf n asp a r o :
  reader_ready s buf n asp a r → tables_agree s a (s_mem s') →
  s_heap s' = <[s_brk s := o]> (s_heap s) → s_brk s' = s_brk s + 16 →
  s_ft s' = s_ft s → s_proc s' = s_proc s →
  reader_ready s' buf n asp a r.
Proof.
  intros [H1 [Hp Hh Hwf] H3 H4 H5 H6 H7 H9 H10] Hta Eh Eb Ef Ep.
  assert (∀ kv, frame_page s kv → frame_page s' kv) as Hfp by (unfold frame_page; by rewrite Ef).
  assert (∀ q, s_heap s !! q ≠ None → s_heap s' !! q = s_heap s !! q) as Hl.
  { intros q Hq. rewrite Eh, lookup_insert_ne; [done |]. intros <-. apply Hq, H10. lia. }
  assert (∀ b v, 0 ≤ v < 2 ^ 32 → entry s' a b v = entry s a b v) as Hent by (intros; by apply agree_entry).
  assert (∀ b i, 0 ≤ i < 1024 → table_of s' a b i = table_of s a b i) as Htab.
  { intros b i Hi. rewrite <- (tables_agree_table s a (s_mem s') b i Hta Hi). done. }
  split.
  - unfold ft_inv. by rewrite Ef.
  - split; [done | by rewrite Hl; [| rewrite Hh] |].
    apply (tables_wf_ext (set_s_mem (s_mem s') s)); [done | done | by apply tables_agree_wf].
  - destruct H3 as (p & x & E1 & E2 & E3 & E4). exists p, x. rewrite Ep, Hl; [done | by rewrite E3].
  - done.
  - done.
  - intros v Hv. unfold resident. rewrite Hent by lia. destruct (H6 v Hv) as (? & ? & ?). auto.
  - destruct H7 as [O1 O2 O3]. split.
    + intros v b Hv. rewrite Hent by lia. by apply O1.
    + intros v b x Hv Hx. rewrite Hent, Htab by (done || lia). by apply O2.
    + intros u v Hu Hv. rewrite !Hent by lia. by apply O3.
  - lia.
  - intros p Hpp. rewrite Eh, lookup_insert_ne by lia. apply H10. lia.
Qed.

Lemma only_memory_step s s' buf n asp a r :
  reader_ready s buf n asp a r → only_memory s s' → tables_agree s a (s_mem s') →
  reader_ready s' buf n asp a r ∧ s_brk s' = s_brk s + 16 ∧ s_con s' = s_con s ∧
  (∀ p, p ≠ s_brk s → s_heap s' !! p = s_heap s !! p) ∧
  s_tick s' = S (s_tick s) ∧ s_env s' = s_env s.
Proof.
  intros H (o & E) Hta. split; [| rewrite E; cbn; split_and!; try done; intros p Hp;
    by rewrite lookup_insert_ne].
  apply (reader_step s s' buf n asp a r o H Hta); rewrite E; done.
Qed.

(** What a copy to the reader's buffer leaves in the console's buffer. *)
Lemma console_kept s s' buf n asp a r off k cur m :
  reader_ready s buf n asp a r → 0 ≤ off → off + k ≤ n →
  (∀ x, (∀ i, 0 ≤ i < k → user_addr s a (buf + off + i) ≠ x) → s_mem s' x = s_mem s x) →
  ring (s_mem s') cur m = ring (s_mem s) cur m.
Proof.
  intros H Hoff Hn Hk. apply list_eq. intros i. destruct (decide (i < m)%nat).
  - rewrite !ring_lookup by done. f_equal. apply Hk. intros j Hj E.
    destruct (rr_res _ _ _ _ _ _ H (buf + off + j)) as (_ & _ & Hf); [lia |].
    pose proof (frame_page_below _ _ (rr_inv _ _ _ _ _ _ H) Hf).
    pose proof (Z.mod_pos_bound (cur + Z.of_nat i) MAX_IO_BUF eq_refl).
    unfold user_addr in E. pose proof (Z.mod_pos_bound (buf + off + j) PAGE_SIZE eq_refl). lia.
  - by rewrite !ring_lookup_ge by lia.
Qed.

(** The bytes of the reader's buffer that a later copy does not touch. *)
Lemma reader_kept s s' buf n asp a r off k i :
  reader_ready s buf n asp a r → 0 ≤ i < off → 0 ≤ k → off + k ≤ n → tables_agree s a (s_mem s') →
  (∀ x, (∀ j, 0 ≤ j < k → user_addr s a (buf + off + j) ≠ x) → s_mem s' x = s_mem s x) →
  user_byte s' a (buf + i) = user_byte s a (buf + i).
Proof.
  intros H Hi Hk0 Hn Hta Hk. destruct (rr_buf _ _ _ _ _ _ H). unfold user_byte.
  assert (user_addr s' a (buf + i) = user_addr s a (buf + i)) as ->.
  { unfold user_addr. by rewrite (agree_entry s s') by (done || lia). }
  apply Hk. intros j Hj E. apply (user_addr_inj s a buf (buf + n)) in E; [lia | apply H | apply H | | lia | lia].
  intros w Hw. apply (rr_res _ _ _ _ _ _ H). lia.
Qed.

(** Updating a continuation. *)
Lemma reader_update s buf n asp a r token (c c' : con_read_cont) :
  reader_ready s buf n asp a r → s_heap s !! token = Some (to_obj c) →
  reader_ready (set_s_heap (<[token := to_obj c']> (s_heap s)) s) buf n asp a r.
Proof.
  intros [H1 [Hp Hh Hwf] H3 H4 H5 H6 [O1 O2 O3] H9 H10] Hc. split; try done.
  - split; [done | |].
    + cbn. rewrite lookup_insert_ne; [done |]. intros ->. cbn in *. congruence.
    + by apply (tables_wf_ext s).
  - destruct H3 as (p & x & E1 & E2 & E3 & E4). exists p, x. split_and!; try done. cbn.
    rewrite lookup_insert_ne; [done |]. intros ->. cbn in *. congruence.
  - intros p Hpp. cbn in *. rewrite lookup_insert_ne; [by apply H10 |]. intros <-.
    rewrite (H10 _ Hpp) in Hc. done.
Qed.

Section read.
Context (s : sos) (buf n asp : Z) (a : addrspace) (r : region) (H : reader_ready s buf n asp a r).
Context (Hc : con_ring (s_con s)) (token : Z) (cont : con_read_cont).
Context (Ht : token ≠ 0) (Hcont : s_heap s !! token = Some (to_obj cont)) (Hbuf : crc_buf cont = buf).

Notation len := (crc_len cont).
Notation first := (crc_first_half_size cont).

Context (Hlen : 0 ≤ len ≤ con_buf_size (s_con s)) (Hn : len ≤ n).
Context (Hfirst : first = Z.min MAX_IO_BUF (con_start (s_con s) + len) - con_start (s_con s)).

(** The state after the line has been taken. *)
Definition line_taken (s' : sos) : sos :=
  set_s_conr (set_is_blocked false (s_conr s'))
    (set_s_con (con_taken (s_con s') len) s').

Lemma con_read_end_eq rec s' cont' :
  s_heap s' !! token = Some (to_obj cont') → crc_len cont' = len → crc_first_half_size cont' = first →
  crc_second_half_size cont' = len - first →
  con_read_end rec token 0 s' =
    (_ ← call_ rec (CallRead (crc_callback cont') (crc_token cont') 0 len false); free token)
      (line_taken s').
Proof.
  intros Hh E1 E2 E3. unfold con_read_end. mstep (load_eq (T := con_read_cont)) by done. cbn [negb Z.eqb].
  unfold mod_con, mod_conr. mpure. rewrite E1, E2, E3. unfold line_taken, con_taken. cbn.
  by replace (first + (len - first)) with len by lia.
Qed.

(** The second half starts at [start] of the buffer, and is inside it. *)
Lemma second_half :
  let start := (con_start (s_con s) + first) mod MAX_IO_BUF in
  0 ≤ first ≤ len ∧ 0 ≤ start ∧ start + (len - first) ≤ MAX_IO_BUF.
Proof.
  destruct Hc as [C1 C2]. intros start. split; [lia |]. unfold start, MAX_IO_BUF in *.
  destruct (decide (con_start (s_con s) + first < 4096)).
  - rewrite Z.mod_small by lia. lia.
  - assert (con_start (s_con s) + first = 4096) as -> by lia. change (4096 mod 4096) with 0. lia.
Qed.

(** [_con_read_part2] asks for the copy of the second half. *)
Lemma con_read_part2_copies rec :
  let start := (con_start (s_con s) + first) mod MAX_IO_BUF in
  let s1 := set_s_heap (<[token := to_obj (set_crc_second_half_size (len - first) cont)]> (s_heap s)) s in
  con_read_part2 rec token 0 s =
    (err ← copyout rec (buf + first) (CONSOLE_BUF + start) (len - first) cb_con_read_end token;
     if negb (err =? 0) then con_read_end rec token err else mret tt) s1.
Proof.
  intros start s1. destruct second_half as (Hf & Hs). destruct (rr_buf _ _ _ _ _ _ H) as (B1 & B2 & B3).
  destruct Hc as [C1 C2].
  unfold con_read_part2. mstep (load_eq (T := con_read_cont)) by done. cbn [negb Z.eqb].
  mpure. fold start. assert (u32 (len - first) = len - first) as -> by (unfold u32, MAX_IO_BUF in *; rewrite Z.mod_small; lia).
  assert (u32 (crc_buf cont + first) = buf + first) as -> by (unfold u32; rewrite Hbuf, Z.mod_small; lia).
  by mstep (store_eq (T := con_read_cont)) by done.
Qed.

(** Without memory for the second copy the reader is told an error, and the queue
    stays. *)
Lemma con_read_part2_nomem :
  ¬ malloc_gives s →
  ∃ s', (∀ rec, con_read_part2 rec token 0 s =
      call_ rec (CallRead (crc_callback cont) (crc_token cont) EFAULT 0 false) s') ∧
    s_con s' = s_con s ∧ s_mem s' = s_mem s ∧ is_blocked (s_conr s') = false.
Proof.
  intros Hm. destruct second_half as (Hf & Hs).
  set (cont' := set_crc_second_half_size (len - first) cont).
  set (s1 := set_s_heap (<[token := to_obj cont']> (s_heap s)) s).
  destruct (reader_copy s1 buf n asp a r first (len - first) ((con_start (s_con s) + first) mod MAX_IO_BUF))
    as (Hr & _); [by eapply reader_update | lia | lia | lia | lia | lia |].
  eexists. split.
  { intros rec. rewrite con_read_part2_copies. fold cont' s1.
    mstep (copyout_nomem s1 _ _ _ asp a r Hr) by done. cbn [negb Z.eqb]. change (ENOMEM =? 0) with false.
    cbn [negb]. unfold con_read_end. mstep (load_eq (T := con_read_cont)) by (cbn; try apply lookup_insert_eq; done).
    change (ENOMEM =? 0) with false. cbn [negb]. unfold mod_conr. mpure. reflexivity. }
  done.
Qed.

(** The second half. *)
Lemma con_read_part2_eq :
  malloc_gives s →
  ∃ j s', (j ≤ 3)%nat ∧
    (∀ m, con_read_part2 (run (j + m)) token 0 s =
       (_ ← call_ (run m) (CallRead (crc_callback cont) (crc_token cont) 0 len false);
        _ ← free token; free (s_brk s)) (line_taken s')) ∧
    reader_ready s' buf n asp a r ∧ s_con s' = s_con s ∧
    (∀ cur k, ring (s_mem s') cur k = ring (s_mem s) cur k) ∧
    (∀ i, 0 ≤ i < first → user_byte s' a (buf + i) = user_byte s a (buf + i)) ∧
    ∀ i, first ≤ i < len →
      user_byte s' a (buf + i) = s_mem s (CONSOLE_BUF + (con_start (s_con s) + i) mod MAX_IO_BUF).
Proof.
  intros Hm. destruct second_half as (Hf & Hst). destruct Hc as [C1 C2].
  set (start := (con_start (s_con s) + first) mod MAX_IO_BUF) in *.
  set (cont' := set_crc_second_half_size (len - first) cont).
  set (s1 := set_s_heap (<[token := to_obj cont']> (s_heap s)) s).
  assert (reader_ready s1 buf n asp a r) as H1.
  { by eapply reader_update. }
  destruct (reader_copy s1 buf n asp a r first (len - first) start H1) as (Hr & Hown & Hnext);
    [lia | lia | lia | lia | lia |].
  destruct (copyout_runs s1 (CONSOLE_BUF + start) (buf + first) (len - first) asp a r cb_con_read_end
    token Hr Hown Hm) as (j & s' & [Hj Hmem _ Erun] & Hta & Hbytes & Hrest).
  specialize (Erun Hnext).
  destruct (only_memory_step s1 s' buf n asp a r H1 Hmem Hta) as (H2 & Hbrk & Econ & Hheap & _).
  exists (S j), s'. split_and!.
  - assert ((len - first) / PAGE_SIZE ≤ 0); [| lia]. unfold PAGE_SIZE, MAX_IO_BUF in *.
    rewrite Z.div_small; lia.
  - intros m. rewrite con_read_part2_copies. fold start cont' s1. replace (S j + m)%nat with (j + S m)%nat by lia.
    rewrite (M_bind_left _ _ _ _ _ (Erun (S m))), M_bind_assoc.
    assert (s_heap s' !! token = Some (to_obj cont')) as Hh'.
    { rewrite Hheap; [cbn; by rewrite lookup_insert_eq |]. intros E.
      pose proof (rr_fresh _ _ _ _ _ _ H token) as Hfr. change (s_brk s1) with (s_brk s) in E.
      rewrite Hfr in Hcont by lia. done. }
    erewrite M_bind_left; [| rewrite call_err_eq; cbn [exec_err]; by apply (con_read_end_eq _ s' cont')].
    rewrite M_bind_assoc. apply M_bind_ext. intros [] s2 _. apply M_bind_ext. intros [] s3 _.
    rewrite M_bind_assoc. change (s_brk s1) with (s_brk s). unfold mbind, M_bind.
    by destruct (free (s_brk s) s3) as [[[] s4] |].
  - done.
  - done.
  - intros cur k. apply (console_kept s1 s' buf n asp a r first (len - first)); [done | lia | lia | done].
  - intros i Hi. change (user_byte s a (buf + i)) with (user_byte s1 a (buf + i)).
    apply (reader_kept s1 s' buf n asp a r first (len - first)); [done | lia | lia | lia | done | done].
  - intros i Hi. replace (buf + i) with (buf + first + (i - first)) by lia. rewrite Hbytes by lia.
    change (s_mem s1) with (s_mem s). f_equal. unfold start, MAX_IO_BUF in *. divmod.
Qed.

End read.

(** The three allocations of a read succeed. *)
Definition read_mallocs (s : sos) : bool :=
  e_malloc (s_env s) (s_tick s) && e_malloc (s_env s) (S (s_tick s)) &&
  e_malloc (s_env s) (S (S (s_tick s))) && (s_brk s + 48 <=? HEAP_END).

Fixpoint free_all (l : list Z) : M unit :=
  match l with
  | [] => mret tt
  | p :: l' => _ ← free p; free_all l'
  end.

Lemma bind_done (m : M unit) s : (_ ← m; mret tt) s = m s.
Proof. unfold mbind, M_bind. by destruct (m s) as [[[] s'] |]. Qed.

(** The start of a read: the first line is measured, and its first half copied. *)
Section con_read.
Context (s : sos) (buf nbytes asp : Z) (a : addrspace) (r : region) (cb : read_cb) (tk : Z).
Context (Hc : con_ring (s_con s)) (Hsize : 0 < con_buf_size (s_con s)).
Context (H : reader_ready s buf nbytes asp a r).

Notation line := (first_line (con_queue s) (Z.to_nat nbytes)).
Notation len := (Zlength line).
Notation start := (con_start (s_con s)).
Notation first := (Z.min MAX_IO_BUF (start + len) - start).

Definition read_cont : con_read_cont := mk_crc len first 0 buf cb tk.

(** The state with the new continuation. *)
Definition read_started : sos :=
  set_s_brk (s_brk s + 16) (set_s_heap (<[s_brk s := to_obj read_cont]> (s_heap s))
    (set_s_tick (S (s_tick s)) s)).

Lemma line_range : 0 ≤ len ≤ con_buf_size (s_con s) ∧ len ≤ nbytes ∧ 0 ≤ first ≤ len.
Proof.
  destruct Hc as [C1 C2]. destruct (rr_buf _ _ _ _ _ _ H) as (B1 & B2 & B3).
  pose proof (first_line_length (con_queue s) (Z.to_nat nbytes)) as [L1 L2].
  unfold con_queue in L2 at 2. rewrite length_ring in L2. unfold Zlength. lia.
Qed.

Lemma read_started_ready : reader_ready read_started buf nbytes asp a r.
Proof. apply (reader_step s read_started buf nbytes asp a r (to_obj read_cont) H); [by split | done..]. Qed.

Lemma read_started_copy :
  copy_ready read_started (CONSOLE_BUF + start) buf first asp a r ∧
  own_pages read_started a buf (buf + first) ∧ next_present read_started a buf first.
Proof.
  destruct line_range as (L1 & L2 & L3). destruct Hc as [C1 C2].
  destruct (reader_copy read_started buf nbytes asp a r 0 first start read_started_ready) as (Hr & Ho & Hn);
    [lia | lia | lia | lia | lia |]. by rewrite Z.add_0_r in Hr, Ho, Hn.
Qed.

Lemma con_read_nomem vn offset :
  ¬ malloc_gives s →
  ∃ s', (∀ rec, con_read rec vn buf nbytes offset cb tk s = call_ rec (CallRead cb tk ENOMEM 0 false) s') ∧
    s_con s' = s_con s ∧ s_mem s' = s_mem s ∧ is_blocked (s_conr s') = false.
Proof.
  intros Hm. eexists. split.
  { intros rec. unfold con_read. mpure. destruct (Z.ltb_spec 0 (con_buf_size (s_con s))); [| lia]. mpure.
    mstep malloc_refused by done. cbn [Z.eqb]. unfold mod_conr. mpure. reflexivity. }
  done.
Qed.

Lemma con_read_copies rec vn offset :
  malloc_gives s →
  con_read rec vn buf nbytes offset cb tk s =
    (err ← copyout rec buf (CONSOLE_BUF + start) first cb_con_read_part2 (s_brk s);
     if negb (err =? 0) then con_read_end rec (s_brk s) err else mret tt) read_started.
Proof.
  intros Hm. unfold con_read. mpure. destruct (Z.ltb_spec 0 (con_buf_size (s_con s))); [| lia].
  destruct (rr_buf _ _ _ _ _ _ H) as (B1 & B2 & B3). pose proof Hc as [C1 C2].
  mpure. assert (line_len (s_mem s) (Z.to_nat (con_buf_size (s_con s))) start nbytes 0 = len) as ->.
  { rewrite line_len_eq by (done || lia). by rewrite Z.sub_0_r. }
  mstep malloc_eq by done.
  by destruct (Z.eqb_spec (s_brk s) 0); [pose proof (rr_brk _ _ _ _ _ _ H); lia |].
Qed.

(** Without memory for the first copy. *)
Lemma con_read_nomem1 vn offset :
  malloc_gives s → ¬ malloc_gives read_started →
  ∃ s', (∀ rec, con_read rec vn buf nbytes offset cb tk s = call_ rec (CallRead cb tk EFAULT 0 false) s') ∧
    s_con s' = s_con s ∧ s_mem s' = s_mem s ∧ is_blocked (s_conr s') = false.
Proof.
  intros Hm Hm1. destruct read_started_copy as (Hr & _). pose proof (rr_brk _ _ _ _ _ _ H). eexists. split.
  { intros rec. rewrite con_read_copies by done. mstep (copyout_nomem read_started _ _ _ asp a r Hr) by done.
    change (ENOMEM =? 0) with false. cbn [negb]. unfold con_read_end.
    mstep (load_eq (T := con_read_cont)) by (cbn; try apply lookup_insert_eq; lia).
    change (ENOMEM =? 0) with false. cbn [negb]. unfold mod_conr. mpure. reflexivity. }
  done.
Qed.

(** The first half is copied, and then [_con_read_part2] is called. *)
Lemma con_read_half :
  malloc_gives s → malloc_gives read_started →
  ∃ j s2, (j ≤ 3)%nat ∧
    (∀ m vn offset, con_read (run (j + S m)) vn buf nbytes offset cb tk s =
       (_ ← con_read_part2 (run m) (s_brk s) 0; free (s_brk s + 16)) s2) ∧
    reader_ready s2 buf nbytes asp a r ∧ s_con s2 = s_con s ∧ s_brk s2 = s_brk s + 32 ∧
    s_heap s2 !! s_brk s = Some (to_obj read_cont) ∧
    s_tick s2 = S (S (s_tick s)) ∧ s_env s2 = s_env s ∧
    (∀ cur k, ring (s_mem s2) cur k = ring (s_mem s) cur k) ∧
    ∀ i, 0 ≤ i < first → user_byte s2 a (buf + i) = s_mem s (CONSOLE_BUF + (start + i)).
Proof.
  intros Hm Hm1. destruct line_range as (L1 & L2 & L3). destruct Hc as [C1 C2].
  destruct read_started_copy as (Hr & Hown & Hnext).
  destruct (copyout_runs read_started _ _ _ _ _ _ cb_con_read_part2 (s_brk s) Hr Hown Hm1)
    as (j & s2 & [Hj Hmem _ Erun] & Hta & Hbytes & Hrest). specialize (Erun Hnext).
  destruct (only_memory_step read_started s2 buf nbytes asp a r read_started_ready Hmem Hta)
    as (H2 & Hbrk & Econ & Hheap & Etick & Eenv).
  exists j, s2. split_and!; try done.
  - assert (first / PAGE_SIZE ≤ 1); [| lia]. unfold PAGE_SIZE, MAX_IO_BUF in *. divmod.
  - intros m vn offset. rewrite con_read_copies by done.
    rewrite (M_bind_left _ _ _ _ _ (Erun (S m))), M_bind_assoc.
    erewrite M_bind_left; [| rewrite call_err_eq; reflexivity].
    apply M_bind_ext. intros [] s4 _. rewrite M_bind_assoc. unfold mbind, M_bind.
    change (s_brk read_started) with (s_brk s + 16).
    by destruct (free (s_brk s + 16) s4) as [[[] s5] |].
  - rewrite Hbrk. cbn. lia.
  - rewrite Hheap by (cbn; lia). cbn. apply lookup_insert_eq.
  - intros cur k. pose proof (console_kept read_started s2 buf nbytes asp a r 0 first cur k read_started_ready)
      as Hk. rewrite Z.add_0_r in Hk. by apply Hk; [lia | lia |].
  - intros i Hi. rewrite Hbytes by lia. change (s_mem read_started) with (s_mem s). f_equal. lia.
Qed.

End con_read.

(** A read whose second half can be copied, or not. *)
Lemma con_read_mallocs s s2 len first buf cb tk :
  malloc_gives s → malloc_gives (set_s_brk (s_brk s + 16) (set_s_heap
    (<[s_brk s := to_obj (mk_crc len first 0 buf cb tk)]> (s_heap s)) (set_s_tick (S (s_tick s)) s))) →
  s_brk s2 = s_brk s + 32 → s_tick s2 = S (S (s_tick s)) → s_env s2 = s_env s →
  malloc_gives s2 ↔ read_mallocs s = true.
Proof.
  unfold malloc_gives, read_mallocs. cbn. intros [-> H1] [-> H2] -> -> ->. cbn [andb].
  rewrite andb_true_iff, Z.leb_le. split; intros [? ?]; (split; [done | lia]).
Qed.

(** A read that cannot get memory for one of its continuations. *)
Lemma con_read_refused s buf nbytes asp a r cb tk vn offset :
  con_ring (s_con s) → 0 < con_buf_size (s_con s) → reader_ready s buf nbytes asp a r →
  read_mallocs s = false →
  ∃ j s' err l, (j ≤ 7)%nat ∧ err ≠ 0 ∧
    (∀ m, con_read (run (j + m)) vn buf nbytes offset cb tk s =
       (_ ← call_ (run m) (CallRead cb tk err 0 false); free_all l) s') ∧
    s_con s' = s_con s ∧ con_queue s' = con_queue s ∧ is_blocked (s_conr s') = false.
Proof.
  intros Hc Hsize H Hno. destruct (decide (malloc_gives s)) as [Hm | Hm].
  2: { destruct (con_read_nomem s buf nbytes cb tk Hsize vn offset Hm) as (s' & E & E1 & E2 & E3).
    exists 0%nat, s', ENOMEM, []. split_and!; try done; [lia | | unfold con_queue; by rewrite E1, E2].
    intros m. cbn [free_all]. by rewrite bind_done. }
  destruct (decide (malloc_gives (read_started s buf nbytes cb tk))) as [Hm1 | Hm1].
  2: { destruct (con_read_nomem1 s buf nbytes asp a r cb tk Hc Hsize H vn offset Hm Hm1) as (s' & E & E1 & E2 & E3).
    exists 0%nat, s', EFAULT, []. split_and!; try done; [lia | | unfold con_queue; by rewrite E1, E2].
    intros m. cbn [free_all]. by rewrite bind_done. }
  destruct (line_range s buf nbytes asp a r Hc Hsize H) as (L1 & L2 & L3).
  destruct (con_read_half s buf nbytes asp a r cb tk Hc Hsize H Hm Hm1)
    as (j & s2 & Hj & Erun & H2 & Ec & Eb & Eh & Et & Ee & Hring & _).
  destruct (con_read_part2_nomem s2 buf nbytes asp a r H2) with (token := s_brk s)
    (cont := read_cont s buf nbytes cb tk) as (s' & E & E1 & E2 & E3); rewrite ?Ec; try done.
  { pose proof (rr_brk _ _ _ _ _ _ H). lia. }
  { rewrite (con_read_mallocs s s2 _ _ buf cb tk Hm Hm1 Eb Et Ee). by rewrite Hno. }
  exists (j + 1)%nat, s', EFAULT, [s_brk s + 16]. split_and!; try done; [lia | | congruence |].
  - intros m. replace (j + 1 + m)%nat with (j + S m)%nat by lia. rewrite Erun.
    rewrite (M_bind_left _ _ _ _ _ (E (run m))). apply M_bind_ext. intros [] s3 _. cbn [free_all].
    by rewrite bind_done.
  - unfold con_queue. by rewrite E1, E2, Ec, Hring.
Qed.

(** A read that gets all it needs. *)
Lemma con_read_granted s buf nbytes asp a r cb tk vn offset :
  con_ring (s_con s) → 0 < con_buf_size (s_con s) → reader_ready s buf nbytes asp a r →
  read_mallocs s = true →
  let line := first_line (con_queue s) (Z.to_nat nbytes) in
  ∃ j s', (j ≤ 7)%nat ∧
    (∀ m, con_read (run (j + m)) vn buf nbytes offset cb tk s =
       (_ ← call_ (run m) (CallRead cb tk 0 (Zlength line) false);
        free_all [s_brk s; s_brk s + 32; s_brk s + 16]) s') ∧
    (∀ i, (i < length line)%nat → line !! i = Some (user_byte s' a (buf + Z.of_nat i))) ∧
    s_con s' = con_taken (s_con s) (Zlength line) ∧
    (∀ cur k, ring (s_mem s') cur k = ring (s_mem s) cur k) ∧ is_blocked (s_conr s') = false.
Proof.
  intros Hc Hsize H Hyes line. pose proof Hc as [C1 C2].
  destruct (line_range s buf nbytes asp a r Hc Hsize H) as (L1 & L2 & L3). fold line in L1, L2, L3.
  pose proof Hyes as Hm. unfold read_mallocs in Hm. rewrite !andb_true_iff, Z.leb_le in Hm.
  destruct (con_read_half s buf nbytes asp a r cb tk Hc Hsize H)
    as (j & s2 & Hj & Erun & H2 & Ec & Eb & Eh & Et & Ee & Hring & Hhalf); [split; [tauto | lia] | split; cbn; [tauto | lia] |].
  destruct (con_read_part2_eq s2 buf nbytes asp a r H2) with (token := s_brk s)
    (cont := read_cont s buf nbytes cb tk)
    as (j2 & s3 & Hj2 & Erun2 & H3 & Econ3 & Hring3 & Hkept & Hbytes2); rewrite ?Ec; try done.
  { pose proof (rr_brk _ _ _ _ _ _ H). lia. }
  { apply (con_read_mallocs s s2 (Zlength line)
      (Z.min MAX_IO_BUF (con_start (s_con s) + Zlength line) - con_start (s_con s)) buf cb tk);
      [split; [tauto | lia] | split; cbn; [tauto | lia] | done ..]. }
  cbn [read_cont crc_len crc_first_half_size crc_callback crc_token] in *. fold line in Hkept, Hbytes2, Erun2.
  exists (j + S j2)%nat, (line_taken (read_cont s buf nbytes cb tk) s3). split_and!; try done; [lia | | | |].
  - intros m. replace (j + S j2 + m)%nat with (j + S (j2 + m))%nat by lia. rewrite Erun.
    rewrite (M_bind_left _ _ _ _ _ (Erun2 m)), M_bind_assoc. apply M_bind_ext. intros [] s4 _.
    rewrite M_bind_assoc. cbn [free_all]. apply M_bind_ext. intros [] s5 _. rewrite Eb.
    apply M_bind_ext. intros [] s6 _. by rewrite bind_done.
  - intros i Hi. change (user_byte (line_taken _ s3) a (buf + Z.of_nat i)) with (user_byte s3 a (buf + Z.of_nat i)).
    assert (Z.of_nat i < Zlength line) as Hil by (unfold Zlength; lia).
    assert (line !! i = Some (s_mem s (CONSOLE_BUF + (con_start (s_con s) + Z.of_nat i) mod MAX_IO_BUF))) as ->.
    { unfold line. rewrite first_line_prefix. fold line. rewrite lookup_take_lt by done. unfold con_queue.
      apply ring_lookup. unfold Zlength in L1. lia. }
    f_equal. set (first := Z.min MAX_IO_BUF _ - _) in *.
    destruct (decide (Z.of_nat i < first)) as [Hf | Hf].
    + rewrite Hkept, Hhalf by lia. f_equal. rewrite Z.mod_small; lia.
    + rewrite Hbytes2 by lia. rewrite Ec. pose proof (Hring (con_start (s_con s) + Z.of_nat i) 1%nat) as Hk.
      apply (f_equal (λ l, nth 0 l 0)) in Hk. cbn in Hk. by rewrite Z.add_0_r in Hk.
  - unfold line_taken. cbn. by rewrite Econ3, Ec.
  - intros cur k. cbn. by rewrite Hring3.
Qed.

(** [C11] Reading from the console when its buffer is not empty.  If there is
    memory for the three continuations, [_con_read] copies the first line (at most
    [nbytes] characters) to the reader, also when it wraps around the end of the
    buffer, takes exactly it out of the queue, and calls back with its length;
    seven nested calls are enough.  If not, it calls back with an error, and the
    queue is as before.  The reader's buffer and the byte after it have to be in
    one region and in memory; of the console nothing is assumed but that its
    characters are inside the buffer, which is so also after it was closed and
    opened again. *)
Theorem con_read_line (s : sos) (vn buf nbytes offset asp : Z) (a : addrspace) (r : region)
    (cb : read_cb) (tk : Z) :
  con_ring (s_con s) → 0 < con_buf_size (s_con s) → reader_ready s buf nbytes asp a r →
  if read_mallocs s then
    let line := first_line (con_queue s) (Z.to_nat nbytes) in
    ∃ j s', (j ≤ 7)%nat ∧
      (∀ m, con_read (run (j + m)) vn buf nbytes offset cb tk s =
         (_ ← call_ (run m) (CallRead cb tk 0 (Zlength line) false);
          free_all [s_brk s; s_brk s + 32; s_brk s + 16]) s') ∧
      (∀ i, (i < length line)%nat → line !! i = Some (user_byte s' a (buf + Z.of_nat i))) ∧
      con_ring (s_con s') ∧ (con_inv s → con_inv s') ∧
      con_queue s = line ++ con_queue s' ∧ is_blocked (s_conr s') = false
  else
    ∃ j s' err l, (j ≤ 7)%nat ∧ err ≠ 0 ∧
      (∀ m, con_read (run (j + m)) vn buf nbytes offset cb tk s =
         (_ ← call_ (run m) (CallRead cb tk err 0 false); free_all l) s') ∧
      s_con s' = s_con s ∧ con_queue s' = con_queue s ∧ is_blocked (s_conr s') = false.
Proof.
  intros Hc Hsize H. destruct (read_mallocs s) eqn:Em; [| by eapply con_read_refused].
  destruct (line_range s buf nbytes asp a r Hc Hsize H) as (L1 & L2 & L3).
  destruct (con_read_granted s buf nbytes asp a r cb tk vn offset Hc Hsize H Em)
    as (j & s' & Hj & Erun & Hbytes & Econ & Hring & Hb). intros line. fold line in L1, Erun, Hbytes, Econ.
  destruct (con_take (s_con s) (Zlength line) (s_mem s) Hc L1) as [Hr Hq].
  exists j, s'. split_and!; try done; [by rewrite Econ | |].
  - unfold con_inv. rewrite Econ. intros Hok. by apply con_taken_ok.
  - unfold con_queue at 2. rewrite Econ, Hring. cbn. unfold con_queue at 1. rewrite Hq at 1. f_equal.
    fold (con_queue s). unfold Zlength. rewrite Nat2Z.id. symmetry. apply first_line_prefix.
Qed.

(** * Examples *)

(** Three characters that wrap around the end of the buffer. *)
Definition con_example : con_dev := mk_con 3 4094 1 true.

Lemma con_example_ok : con_ok con_example.
Proof. split; cbn; unfold MAX_IO_BUF; [lia | lia | reflexivity]. Qed.

Definition con_over (s : sos) : sos := set_s_con con_example (world_copy s).

Lemma con_over_parts s :
  s_ft (con_over s) = s_ft (world_copy s) ∧ s_heap (con_over s) = s_heap (world_copy s) ∧
  s_mem (con_over s) = s_mem (world_copy s) ∧ s_env (con_over s) = s_env (world_copy s) ∧
  s_proc (con_over s) = s_proc (world_copy s) ∧ s_con (con_over s) = con_example ∧
  s_brk (con_over s) = s_brk (world_copy s).
Proof.
  unfold con_over. generalize (world_copy s). done.
Qed.

Lemma console_queue_witness :
  ∃ s', con_store_char 65 (con_over world_frames) = Ret (tt, s') ∧
    con_queue s' = con_queue (con_over world_frames) ++ [65].
Proof.
  destruct (con_over_parts world_frames) as (_ & _ & _ & _ & _ & Ec & _).
  destruct (console_queue (con_over world_frames) 65 10) as [(s' & E & _ & Hq) _].
  - unfold con_inv. rewrite Ec. exact con_example_ok.
  - discriminate.
  - exists s'. split; [exact E |]. rewrite Hq, Ec. reflexivity.
Defined.

Lemma close_keeps_stale_witness :
  ∃ s1 s2, con_eachclose 1 O_RDONLY (con_over world_frames) = Ret (0, s1) ∧
    con_store_char 65 s1 = Ret (tt, s2) ∧ con_queue s2 = take 1 (con_queue (con_over world_frames)).
Proof.
  destruct (con_over_parts world_frames) as (_ & _ & _ & Ee & _ & Ec & _).
  destruct (close_keeps_stale (con_over world_frames) 1 65) as (s1 & s2 & E1 & _ & E2 & Hq).
  - unfold con_inv. rewrite Ec. exact con_example_ok.
  - rewrite Ec. split; reflexivity.
  - rewrite Ec. reflexivity.
  - vm_compute. reflexivity.
  - exists s1, s2. split; [exact E1 |]. split; [exact E2 | exact Hq].
Defined.

Lemma con_over_ready s :
  frames_ok s →
  reader_ready (con_over s) 0x10010 100 HEAP_START world_as copy_region.
Proof.
  intros Hs. destruct (con_over_parts s) as (Ef & Eh & Em & Ee & Ep & _ & Eb).
  pose proof (world_copy_ready s Hs) as [R1 R2 R3 _ _ _ _ _ _ _ _ _].
  assert (∀ kv, frame_page (world_copy s) kv → frame_page (con_over s) kv) as Hfp.
  { unfold frame_page. by rewrite Ef. }
  assert (∀ b v, entry (con_over s) world_as b v = entry (world_copy s) world_as b v) as Hent.
  { intros b v. by apply entry_ext. }
  split.
  - unfold ft_inv. by rewrite Ef.
  - destruct R2 as [Hp Hh Hwf]. split; [exact Hp | by rewrite Eh |]. by apply (tables_wf_ext (world_copy s)).
  - rewrite Ep. destruct R3 as (p & x & R). exists p, x. by rewrite Eh.
  - cbn [vtop copy_region]. lia.
  - intros v Hv. unfold region_probe_in. cbn [as_stack as_heap as_rhead world_as List.find].
    unfold copy_region. assert (in_region v (mk_region 0x10000 0x20000 3) = true) as -> by (apply in_region_spec; cbn; lia).
    done.
  - intros v Hv. unfold resident. rewrite Hent. destruct (world_copy_resident s Hs v) as (Q1 & Q2 & Q3); [lia |].
    split; [exact Q1 |]. split; [exact Q2 |]. exact (Hfp _ Q3).
  - destruct (world_copy_own s) as [O1 O2 O3]. split.
    + intros v b Hv. rewrite Hent. by apply O1.
    + intros v b x Hv Hx. rewrite Hent. unfold table_of. rewrite Em. by apply O2.
    + intros u v Hu Hv. rewrite !Hent. by apply O3.
  - rewrite Eb. reflexivity.
  - intros p. rewrite Eb, Eh, world_copy_heap. change (s_brk (world_copy s)) with (HEAP_START + 64). intros Hp.
    change (s_heap (world_over s (OProcess copy_process)))
      with (<[world_token := OProcess copy_process]> ({[HEAP_START := to_obj world_as]} : gmap Z obj)).
    unfold world_token in *. rewrite lookup_insert_ne, lookup_singleton_ne by lia. done.
Qed.

Lemma con_read_line_witness :
  ∃ j s', (j ≤ 7)%nat ∧
    (∀ m, con_read (run (j + m)) 1 0x10010 100 0 cb_serv_sys_read_end 5 (con_over world_frames) =
      (_ ← call_ (run m) (CallRead cb_serv_sys_read_end 5 0 3 false);
       free_all [HEAP_START + 64; HEAP_START + 96; HEAP_START + 80]) s') ∧
    user_byte s' world_as 0x10012 = 0.
Proof.
  destruct (con_over_parts world_frames) as (_ & _ & Em & Ee & _ & Ec & Eb).
  assert (con_queue (con_over world_frames) = [0; 0; 0]) as Eq by (vm_compute; reflexivity).
  assert (read_mallocs (con_over world_frames) = true) as Emal by (vm_compute; reflexivity).
  assert (H := con_read_line (con_over world_frames) 1 0x10010 100 0 HEAP_START world_as copy_region
    cb_serv_sys_read_end 5).
  rewrite Emal, Ec, Eq, Eb in H. destruct H as (j & s' & Hj & E & Hl & _).
  - apply con_ok_ring, con_example_ok.
  - reflexivity.
  - apply con_over_ready, world_frames_ok.
  - exists j, s'. split; [exact Hj |]. split; [exact E |].
    specialize (Hl 2%nat ltac:(apply le_n)). injection Hl as Hl. symmetry. exact Hl.
Defined.
