(* ===== verification/ProcInv.v ===== *)
(** The process table: its invariant, and the abstract table it implements.

    Seen from outside the table maps process ids to processes ([getproc_at]).
    [procs_ok] says that the free slots are exactly the chained ones and that a
    process sits in the slot its id belongs to; under it, taking a slot adds one
    process under an unused id and freeing a slot removes exactly one. *)

From S2P Require Import Prelude UtAllocator Sos Hoare Mapping SwapSlots FrameTable FrameInv.
From S2P Require Import ProcTable AddrSpace PageTable Swap CopyInOut Clock Console NfsDev Vfs.
From S2P Require Import FileTable Elf Process Vm Syscalls Machine SwapProto.

(** * The invariant *)

(** [ch] is the chain of slots from [h] on. *)
Fixpoint slot_chain (nf : list Z) (h : Z) (ch : list Z) : Prop :=
  match ch with
  | [] => h = -1
  | x :: ch' => h = x ∧ ∃ n, rd nf x = Ret n ∧ slot_chain nf n ch'
  end.

(** The ids that belong to a slot. *)
Definition slot_range (i pid : Z) : Prop :=
  RANGE_PER_SLOT * i ≤ pid < RANGE_PER_SLOT * (i + 1).

Record procs_ok (t : procst) (h : gmap Z obj) : Prop := {
  po_procs : Zlength (processes t) = MAX_PROC;
  po_slots : Zlength (next_free_pslot t) = MAX_PROC;
  po_pids : Zlength (next_free_pid t) = MAX_PROC;
  po_next : ∀ i pid, rd (next_free_pid t) i = Ret pid → slot_range i pid;
  po_chain : ∃ ch, slot_chain (next_free_pslot t) (first_free_pslot t) ch ∧ NoDup ch ∧
    ∀ i, i ∈ ch ↔ rd (processes t) i = Ret 0;
  po_live : ∀ i p, rd (processes t) i = Ret p → p ≠ 0 →
    ∃ x, h !! p = Some (OProcess x) ∧ slot_range i (p_pid x)
}.

Definition procs_inv (s : sos) : Prop := procs_ok (s_proc s) (s_heap s).

(** * Ids and slots *)

Lemma slot_range_quot i pid : 0 ≤ i → slot_range i pid → Z.quot pid RANGE_PER_SLOT = i.
Proof.
  unfold slot_range. change RANGE_PER_SLOT with 2097152. intros Hi H.
  rewrite Z.quot_div_nonneg by lia. symmetry. apply (Z.div_unique _ _ _ (pid - 2097152 * i)); lia.
Qed.

Lemma quot_slot_range pid :
  0 ≤ pid < MAX_PID →
  slot_range (Z.quot pid RANGE_PER_SLOT) pid ∧ 0 ≤ Z.quot pid RANGE_PER_SLOT < MAX_PROC.
Proof.
  unfold slot_range. change RANGE_PER_SLOT with 2097152. change MAX_PID with 134217728.
  change MAX_PROC with 64. intros H. rewrite Z.quot_div_nonneg by lia.
  pose proof (Z.div_mod pid 2097152). pose proof (Z.mod_pos_bound pid 2097152). lia.
Qed.

Lemma slot_range_pid i pid : 0 ≤ i < MAX_PROC → slot_range i pid → 0 ≤ pid < MAX_PID.
Proof.
  unfold slot_range. change RANGE_PER_SLOT with 2097152. change MAX_PID with 134217728.
  change MAX_PROC with 64. lia.
Qed.

Lemma cal_next_free_pid_range i pid :
  0 ≤ i → slot_range i pid → slot_range i (cal_next_free_pid pid i).
Proof.
  unfold slot_range, cal_next_free_pid. change RANGE_PER_SLOT with 2097152. intros Hi H.
  rewrite Z.rem_mod_nonneg by lia. pose proof (Z.mod_pos_bound (pid + 1) 2097152). lia.
Qed.

(** A function of the id: what the table says of a slot. *)
Lemma getproc_slot t h pid :
  0 ≤ pid →
  getproc_at t h pid =
    match rd (processes t) (Z.quot pid RANGE_PER_SLOT) with
    | Ret p =>
        if p =? 0 then Some 0 else
        match h !! p with
        | Some (OProcess x) => Some (if p_pid x =? pid then p else 0)
        | _ => None
        end
    | Fault _ => None
    end.
Proof. intros H. unfold getproc_at. destruct (Z.eqb_spec pid PROC_NULL) as [-> |]; done. Qed.

(** * The chain *)

Lemma slot_chain_insert nf i n h ch :
  0 ≤ i → i ∉ ch → slot_chain nf h ch → slot_chain (<[Z.to_nat i := n]> nf) h ch.
Proof.
  intros Hi. revert h. induction ch as [| x ch IH]; intros h Hn; [done |].
  apply not_elem_of_cons in Hn as [Hne Hn]. intros [-> (m & Hm & Hc)]. split; [done |].
  exists m. rewrite rd_insert_ne by done. auto.
Qed.

(** * Initialisation *)

Lemma slot_chain_seqZ nf i n :
  (∀ j, i ≤ j < i + Z.of_nat n → rd nf j = Ret (j + 1)) → rd nf (i + Z.of_nat n) = Ret (-1) →
  slot_chain nf i (seqZ i (Z.of_nat (S n))).
Proof.
  revert i. induction n as [| n IH]; intros i Hn Hl; rewrite seqZ_cons by lia;
    (split; [done |]).
  - exists (-1). rewrite Z.add_0_r in Hl. done.
  - exists (i + 1). split; [apply Hn; lia |].
    replace (Z.pred (Z.of_nat (S (S n)))) with (Z.of_nat (S n)) by lia. apply IH.
    + intros j Hj. apply Hn. lia.
    + rewrite <- Hl. f_equal. lia.
Qed.

Lemma rd_seq_fmap {A : Type} (f : nat → A) n i :
  0 ≤ i < Z.of_nat n → rd (f <$> seq 0 n) i = Ret (f (Z.to_nat i)).
Proof.
  intros Hi. apply rd_Ret. split; [lia |]. rewrite list_lookup_fmap, lookup_seq_lt by lia. done.
Qed.

(** After [proc_list_init] the table is empty. *)
Lemma proc_list_init_ok s :
  ∃ s', proc_list_init s = Ret (tt, s') ∧ procs_inv s' ∧ s_heap s' = s_heap s ∧
    ∀ pid, 0 ≤ pid < MAX_PID → getproc_at (s_proc s') (s_heap s') pid = Some 0.
Proof.
  eexists. split; [reflexivity |]. set (s' := set_s_proc _ s).
  assert (∀ i p, rd (processes (s_proc s')) i = Ret p ↔ p = 0 ∧ 0 ≤ i < MAX_PROC) as Hp.
  { intros i p. cbn [s' s_proc set_s_proc processes]. rewrite rd_Ret, lookup_replicate.
    change MAX_PROC with 64. lia. }
  split; [| split; [done |]].
  - split; try done.
    + intros i pid H. apply rd_bounds in H as Hb. revert H. cbn.
      change (Zlength _) with 64 in Hb. rewrite rd_seq_fmap by (change MAX_PROC with 64; lia).
      intros [= <-]. unfold slot_range. change RANGE_PER_SLOT with 2097152. lia.
    + exists (seqZ 0 MAX_PROC). split_and!.
      * cbn [s' s_proc set_s_proc first_free_pslot next_free_pslot]. 
        apply (slot_chain_seqZ _ 0 63); [| done]. intros j Hj.
        rewrite rd_insert_ne by (change (MAX_PROC - 1) with 63; lia).
        rewrite rd_seq_fmap by (change MAX_PROC with 64; lia). f_equal. lia.
      * apply NoDup_seqZ.
      * intros i. rewrite elem_of_seqZ, Hp. lia.
    + intros i p [-> _]%Hp. done.
  - intros pid Hpid. rewrite getproc_slot by lia.
    destruct (quot_slot_range pid Hpid) as [_ Hr].
    destruct (rd (processes (s_proc s')) _) as [p |] eqn:E.
    + by apply Hp in E as [-> _].
    + exfalso. assert (rd (processes (s_proc s')) (Z.quot pid RANGE_PER_SLOT) = Ret 0) as E'.
      { by apply Hp. } congruence.
Qed.

(** * Taking a slot *)

(** A process object the table knows nothing of. *)
Definition unlisted (s : sos) (p : Z) : Prop := ∀ i, rd (processes (s_proc s)) i ≠ Ret p.

Lemma take_slot_eq s p x i pid next :
  procs_inv s → p ≠ 0 → s_heap s !! p = Some (OProcess x) →
  first_free_pslot (s_proc s) = i → rd (next_free_pid (s_proc s)) i = Ret pid →
  rd (next_free_pslot (s_proc s)) i = Ret next →
  take_slot p s =
    Ret (tt, set_s_heap (<[p := OProcess (set_p_pid pid x)]> (s_heap s))
      (set_s_proc
        (mk_procst (<[Z.to_nat i := p]> (processes (s_proc s))) next
           (<[Z.to_nat i := -1]> (next_free_pslot (s_proc s)))
           (<[Z.to_nat i := cal_next_free_pid pid i]> (next_free_pid (s_proc s)))
           (wait_queue (s_proc s)) (cur_proc_ptr (s_proc s))) s)).
Proof.
  intros [Hl1 Hl2 Hl3 _ _ _] Hp Hx <- Hpid Hnext. apply rd_bounds in Hpid as Hb.
  unfold take_slot, mod_proc. mpure.
  mstep lift_eq by (apply wr_in; lia). mpure. mstep lift_eq by (exact Hpid).
  mstep (update_eq (T := process)) by done. mstep lift_eq by (apply wr_in; lia). mpure.
  mstep lift_eq by (exact Hnext). mpure. mstep lift_eq by (apply wr_in; lia). done.
Qed.

(** The table with a process in the first free slot. *)
Lemma procs_ok_take t h p x pid next ch :
  procs_ok t h → p ≠ 0 → h !! p = Some (OProcess x) → (∀ i, rd (processes t) i ≠ Ret p) →
  let i := first_free_pslot t in
  slot_chain (next_free_pslot t) next ch → NoDup (i :: ch) →
  (∀ j, j ∈ i :: ch ↔ rd (processes t) j = Ret 0) → rd (next_free_pid t) i = Ret pid →
  procs_ok
    (mk_procst (<[Z.to_nat i := p]> (processes t)) next
       (<[Z.to_nat i := -1]> (next_free_pslot t))
       (<[Z.to_nat i := cal_next_free_pid pid i]> (next_free_pid t)) (wait_queue t) (cur_proc_ptr t))
    (<[p := OProcess (set_p_pid pid x)]> h).
Proof.
  intros [Hl1 Hl2 Hl3 Hn _ Hlive] Hp Hx Hun i Hc Hd Hin Hpid.
  apply rd_bounds in Hpid as Hb. rewrite Hl3 in Hb.
  apply NoDup_cons in Hd as [Hi Hd]. split; cbn; rewrite ?Zlength_insert; try done.
  - intros j q. destruct (decide (i = j)) as [<- | Hne].
    + rewrite rd_insert_eq by lia. intros [= <-]. apply cal_next_free_pid_range; [lia | auto].
    + rewrite rd_insert_ne by lia. apply Hn.
  - exists ch. split; [by apply slot_chain_insert; [lia | |] |]. split; [done |].
    intros j. destruct (decide (i = j)) as [<- | Hne].
    + rewrite rd_insert_eq by lia. split; [done | congruence].
    + rewrite rd_insert_ne by lia. rewrite <- Hin, elem_of_cons. naive_solver.
  - intros j q. destruct (decide (i = j)) as [<- | Hne].
    + rewrite rd_insert_eq by lia. intros [= <-] _. exists (set_p_pid pid x).
      rewrite lookup_insert_eq. split; [done | by apply Hn].
    + rewrite rd_insert_ne by lia. intros Hq Hq0. rewrite lookup_insert_ne by congruence.
      by apply Hlive.
Qed.

(** Replacing the process in one slot does not affect the ids of other slots. *)
Lemma getproc_other t t' h h' i pid :
  0 ≤ pid → Z.quot pid RANGE_PER_SLOT ≠ i →
  (∀ j, j ≠ i → rd (processes t') j = rd (processes t) j) →
  (∀ j p, j ≠ i → rd (processes t) j = Ret p → p ≠ 0 → h' !! p = h !! p) →
  getproc_at t' h' pid = getproc_at t h pid.
Proof.
  intros Hpid Hne Ht Hh. rewrite !getproc_slot by done. rewrite Ht by done.
  destruct (rd (processes t) _) as [p |] eqn:E; [| done].
  destruct (Z.eqb_spec p 0); [done |]. by rewrite (Hh _ _ Hne E).
Qed.

(** Running down the chain. *)
Lemma procs_ok_head t h :
  procs_ok t h → first_free_pslot t ≠ -1 →
  ∃ next pid ch, let i := first_free_pslot t in
    0 ≤ i < MAX_PROC ∧ rd (processes t) i = Ret 0 ∧ rd (next_free_pslot t) i = Ret next ∧
    rd (next_free_pid t) i = Ret pid ∧ slot_range i pid ∧
    slot_chain (next_free_pslot t) next ch ∧ NoDup (i :: ch) ∧
    ∀ j, j ∈ i :: ch ↔ rd (processes t) j = Ret 0.
Proof.
  intros [Hl1 Hl2 Hl3 Hn (ch & Hc & Hd & Hin) _] Hne. destruct ch as [| i ch]; [done |].
  destruct Hc as [Hi (next & Hnext & Hc)]. rewrite Hi in *.
  apply rd_bounds in Hnext as Hb. destruct (rd_in (next_free_pid t) i) as [pid Hpid]; [lia |].
  exists next, pid, ch. split_and!; try done; try lia; [by apply Hin; left | by apply Hn].
Qed.

(** [C29] Creating a process: when a slot is free, the first half of
    [proc_create] gives the process an id that no process of the table has; from
    then on that id finds the process, and every other id finds what it found
    before.  The table's invariant is kept. *)
Theorem take_slot_correct (s : sos) (p : Z) (x : process) :
  procs_inv s → first_free_pslot (s_proc s) ≠ -1 → p ≠ 0 →
  s_heap s !! p = Some (OProcess x) → unlisted s p →
  ∃ pid s', take_slot p s = Ret (tt, s') ∧ procs_inv s' ∧ 0 ≤ pid < MAX_PID ∧
    s_heap s' = <[p := OProcess (set_p_pid pid x)]> (s_heap s) ∧
    getproc_at (s_proc s) (s_heap s) pid = Some 0 ∧
    ∀ q, 0 ≤ q < MAX_PID →
      getproc_at (s_proc s') (s_heap s') q =
        if q =? pid then Some p else getproc_at (s_proc s) (s_heap s) q.
Proof.
  intros Hok Hne Hp Hx Hun.
  destruct (procs_ok_head _ _ Hok Hne) as (next & pid & ch & Hi & Hz & Hnext & Hpid & Hr & Hc & Hd & Hin).
  exists pid. eexists. split; [by eapply take_slot_eq |].
  split; [by eapply procs_ok_take |]. split; [by eapply slot_range_pid |]. split; [done |].
  assert (∀ q, slot_range (first_free_pslot (s_proc s)) q →
            getproc_at (s_proc s) (s_heap s) q = Some 0) as Hfree.
  { intros q Hq. destruct (slot_range_pid _ _ Hi Hq). rewrite getproc_slot by done.
    rewrite (slot_range_quot _ q (proj1 Hi) Hq), Hz. done. }
  split; [by apply Hfree |]. intros q Hq. cbn.
  destruct (decide (Z.quot q RANGE_PER_SLOT = first_free_pslot (s_proc s))) as [E | E].
  - rewrite getproc_slot by lia. cbn. rewrite E, rd_insert_eq by (destruct Hok; lia).
    apply Z.eqb_neq in Hp as ->. rewrite lookup_insert_eq. cbn. rewrite (Z.eqb_sym pid q).
    destruct (Z.eqb_spec q pid); [done |]. symmetry. apply Hfree. rewrite <- E.
    by apply quot_slot_range.
  - destruct (Z.eqb_spec q pid) as [-> | _].
    { exfalso. apply E. by apply slot_range_quot; [lia |]. }
    apply (getproc_other _ _ _ _ (first_free_pslot (s_proc s))); [lia | done | |]; cbn.
    + intros j Hj. by apply rd_insert_ne; [lia |].
    + intros j r Hj Hr0 _. apply lookup_insert_ne. intros <-. by apply (Hun j).
Qed.

(** * Freeing a slot *)

(** The table without the process of slot [i]. *)
Lemma procs_ok_free t h i p :
  procs_ok t h → rd (processes t) i = Ret p → p ≠ 0 →
  procs_ok
    (mk_procst (<[Z.to_nat i := 0]> (processes t)) i
       (<[Z.to_nat i := first_free_pslot t]> (next_free_pslot t)) (next_free_pid t)
       (wait_queue t) (cur_proc_ptr t)) h.
Proof.
  intros [Hl1 Hl2 Hl3 Hn (ch & Hc & Hd & Hin) Hlive] Hi Hp. apply rd_bounds in Hi as Hb.
  assert (i ∉ ch) as Hni by (rewrite Hin; congruence).
  split; cbn; rewrite ?Zlength_insert; try done.
  - exists (i :: ch). split_and!.
    + split; [done |]. exists (first_free_pslot t). rewrite rd_insert_eq by lia.
      split; [done |]. by apply slot_chain_insert; [lia | |].
    + by constructor.
    + intros j. rewrite elem_of_cons. destruct (decide (i = j)) as [<- | Hne].
      * rewrite rd_insert_eq by lia. naive_solver.
      * rewrite rd_insert_ne by lia. rewrite <- Hin. naive_solver.
  - intros j q. destruct (decide (i = j)) as [<- | Hne].
    + rewrite rd_insert_eq by lia. congruence.
    + rewrite rd_insert_ne by lia. apply Hlive.
Qed.

Lemma free_proc_slot_eq s pid :
  let i := Z.quot pid RANGE_PER_SLOT in
  0 ≤ i < Zlength (processes (s_proc s)) → 0 ≤ i < Zlength (next_free_pslot (s_proc s)) →
  free_proc_slot pid s =
    Ret (tt, set_s_proc
      (mk_procst (<[Z.to_nat i := 0]> (processes (s_proc s))) i
         (<[Z.to_nat i := first_free_pslot (s_proc s)]> (next_free_pslot (s_proc s)))
         (next_free_pid (s_proc s)) (wait_queue (s_proc s)) (cur_proc_ptr (s_proc s))) s).
Proof.
  intros i Hi Hi'. unfold free_proc_slot, mod_proc. mpure. fold i.
  mstep lift_eq by (by apply wr_in). mpure. mstep lift_eq by (by apply wr_in). done.
Qed.

Lemma getproc_live t h pid p :
  getproc_at t h pid = Some p → p ≠ 0 → 0 ≤ pid →
  rd (processes t) (Z.quot pid RANGE_PER_SLOT) = Ret p ∧
    ∃ x, h !! p = Some (OProcess x) ∧ p_pid x = pid.
Proof.
  intros H Hp Hpid. rewrite getproc_slot in H by done.
  destruct (rd _ _) as [q |] eqn:E; [| done]. destruct (Z.eqb_spec q 0); [naive_solver |].
  destruct (h !! q) as [[]|] eqn:Eq; try done. injection H as H.
  destruct (Z.eqb_spec (p_pid x) pid); subst; [eauto | done].
Qed.

(** Destroying a process: [_free_proc_slot] of the id of a live process
    removes exactly that process: its id finds nothing any more, every other id
    finds what it found before, its slot is the next one to be used, and the
    table's invariant is kept. *)
Theorem free_slot_correct (s : sos) (pid p : Z) :
  procs_inv s → 0 ≤ pid < MAX_PID → getproc_at (s_proc s) (s_heap s) pid = Some p → p ≠ 0 →
  ∃ s', free_proc_slot pid s = Ret (tt, s') ∧ procs_inv s' ∧ s_heap s' = s_heap s ∧
    first_free_pslot (s_proc s') = Z.quot pid RANGE_PER_SLOT ∧
    ∀ q, 0 ≤ q < MAX_PID →
      getproc_at (s_proc s') (s_heap s') q =
        if q =? pid then Some 0 else getproc_at (s_proc s) (s_heap s) q.
Proof.
  intros Hok Hpid Hg Hp. destruct (getproc_live _ _ _ _ Hg Hp (proj1 Hpid)) as (Hi & x & Hx & Ex).
  destruct (quot_slot_range pid Hpid) as [_ Hr]. set (i := Z.quot pid RANGE_PER_SLOT) in *.
  eexists. split; [apply free_proc_slot_eq; destruct Hok; fold i; lia |].
  split; [by eapply procs_ok_free |]. split; [done |]. split; [done |]. intros q Hq. cbn. fold i.
  destruct (decide (Z.quot q RANGE_PER_SLOT = i)) as [E | E].
  - rewrite !getproc_slot by lia. cbn. rewrite E, rd_insert_eq by (destruct Hok; lia).
    rewrite Hi, Hx, Ex. apply Z.eqb_neq in Hp as ->. rewrite (Z.eqb_sym pid q).
    by destruct (q =? pid).
  - destruct (Z.eqb_spec q pid) as [-> | _]; [done |].
    apply (getproc_other _ _ _ _ i); [lia | done | | done]. intros j Hj. cbn.
    by apply rd_insert_ne; [lia |].
Qed.

(** * Reuse of ids *)

(** The [k]th id a slot gives out after [pid]. *)
Fixpoint next_pids (k : nat) (pid slot : Z) : Z :=
  match k with
  | O => pid
  | S k' => cal_next_free_pid (next_pids k' pid slot) slot
  end.

Lemma next_pids_eq k pid slot :
  0 ≤ slot → slot_range slot pid →
  next_pids k pid slot =
    RANGE_PER_SLOT * slot + (pid - RANGE_PER_SLOT * slot + Z.of_nat k) mod RANGE_PER_SLOT.
Proof.
  unfold slot_range. change RANGE_PER_SLOT with 2097152. intros Hs Hp.
  induction k as [| k IH]; cbn [next_pids].
  - rewrite Z.add_0_r, Z.mod_small; lia.
  - rewrite IH. unfold cal_next_free_pid. change RANGE_PER_SLOT with 2097152.
    pose proof (Z.mod_pos_bound (pid - 2097152 * slot + Z.of_nat k) 2097152).
    rewrite Z.rem_mod_nonneg, Z.add_comm by lia. f_equal.
    rewrite (Z.add_comm (2097152 * slot)), <- Z.add_assoc, (Z.add_comm (2097152 * slot)).
    rewrite Z.add_assoc, (Z.mul_comm 2097152 slot), Z.mod_add, Z.add_mod_idemp_l by lia.
    f_equal. lia.
Qed.

(** Ids are not reused soon: a slot gives out [RANGE_PER_SLOT] different
    ids, all its own, before one comes back. *)
Theorem pid_reuse_distance (slot pid : Z) (k : nat) :
  0 ≤ slot < MAX_PROC → slot_range slot pid →
  slot_range slot (next_pids k pid slot) ∧
  (next_pids k pid slot = pid ↔ (RANGE_PER_SLOT | Z.of_nat k)).
Proof.
  intros Hs Hp. rewrite next_pids_eq by (done || lia). unfold slot_range in *.
  change RANGE_PER_SLOT with 2097152 in *.
  pose proof (Z.mod_pos_bound (pid - 2097152 * slot + Z.of_nat k) 2097152). split; [lia |].
  rewrite <- Z.mod_divide by lia. set (r := pid - 2097152 * slot) in *.
  pose proof (Z.mod_pos_bound (Z.of_nat k) 2097152).
  rewrite <- (Z.add_mod_idemp_r r) by lia. set (m := Z.of_nat k mod 2097152) in *.
  split; intros H1.
  - destruct (decide (r + m < 2097152)); [rewrite Z.mod_small in H1; lia |].
    rewrite (Z.mod_eq (r + m)) in H1 by lia.
    assert ((r + m) / 2097152 = 1) by (symmetry; apply (Z.div_unique _ _ _ (r + m - 2097152)); lia).
    lia.
  - rewrite H1, Z.add_0_r, Z.mod_small; lia.
Qed.

(** * Badges *)

(** The badge of a message identifies its sender only for the ids of the
    first 32 slots: [USER_EP_BADGE] is a bit of the ids of the other slots, which
    is lost, so that their processes are taken for those of the first slots. *)
Theorem badge_identifies (pid : Z) :
  0 ≤ pid < MAX_PID →
  badge_pid (Z.lor USER_EP_BADGE pid) = pid mod 2 ^ 26 ∧
  (badge_pid (Z.lor USER_EP_BADGE pid) = pid ↔ Z.quot pid RANGE_PER_SLOT < 32).
Proof.
  intros H. assert (badge_pid (Z.lor USER_EP_BADGE pid) = pid mod 2 ^ 26) as E.
  { unfold badge_pid. assert (andnot32 (Z.lor USER_EP_BADGE pid) USER_EP_BADGE = pid mod 2 ^ 26) as ->.
    { change MAX_PID with (2 ^ 27) in H. change USER_EP_BADGE with (2 ^ 26).
      apply Z.bits_inj'. intros n Hn.
      rewrite andnot32_spec, Z.lor_spec, Z.pow2_bits_eqb by (try apply lor_range; lia).
      destruct (decide (n < 26)).
      - rewrite Z.mod_pow2_bits_low by lia. replace (26 =? n) with false by lia. apply andb_true_r.
      - rewrite Z.mod_pow2_bits_high by lia. destruct (Z.eqb_spec 26 n); [apply andb_false_r |].
        rewrite (testbit_above pid 27 n) by lia. done. }
    unfold i32, u32. pose proof (Z.mod_pos_bound pid (2 ^ 26)).
    rewrite (Z.mod_small (pid mod 2 ^ 26)) by lia.
    by destruct (Z.ltb_spec (pid mod 2 ^ 26) (2 ^ 31)); [| lia]. }
  split; [done |]. rewrite E. change MAX_PID with (2 ^ 27) in H.
  change RANGE_PER_SLOT with (2 ^ 21). rewrite Z.quot_div_nonneg by lia.
  split; intros H1.
  - rewrite <- H1. pose proof (Z.mod_pos_bound pid (2 ^ 26)).
    apply Z.div_lt_upper_bound; lia.
  - apply Z.mod_small. pose proof (Z.div_mod pid (2 ^ 21)). pose proof (Z.mod_pos_bound pid (2 ^ 21)).
    lia.
Qed.

(** * A full table *)

(** [_free_proc_data] of a process that has nothing yet. *)
Lemma free_proc_data_new s p len stime :
  p ≠ 0 → s_heap s !! p = Some (OProcess (new_process len stime)) →
  free_proc_data p s = Ret (tt, s).
Proof. intros Hp Hh. unfold free_proc_data. by mstep (load_eq (T := process)) by done. Qed.

(** [proc_create_end] of a process that never got a slot: [_free_proc_slot] is
    called with the id -1, which it takes for an id of slot 0. *)
Lemma proc_create_end_no_slot rec s cont p cb token len stime :
  cont ≠ 0 → p ≠ 0 → cont ≠ p →
  s_heap s !! cont = Some (to_obj (mk_pc 0 p cb token)) →
  s_heap s !! p = Some (OProcess (new_process len stime)) →
  Zlength (processes (s_proc s)) = MAX_PROC → Zlength (next_free_pslot (s_proc s)) = MAX_PROC →
  ∃ s', proc_create_end rec cont EFAULT s =
      (_ ← call_ rec (CallProc cb token EFAULT (-1)); free cont) s' ∧
    processes (s_proc s') = <[Z.to_nat 0 := 0]> (processes (s_proc s)) ∧
    first_free_pslot (s_proc s') = 0 ∧ s_heap s' = delete p (s_heap s).
Proof.
  intros Hc Hp Hne Ec Ep Hl Hl'. eexists. split.
  - unfold proc_create_end. mstep (load_eq (T := proc_create_cont)) by done.
    change (negb (EFAULT =? 0)) with true. cbn [pc_proc pc_callback pc_token].
    apply Z.eqb_neq in Hp as Hp'. rewrite Hp'. cbv iota. rewrite M_bind_assoc.
    mstep (load_eq (T := process)) by done. rewrite M_bind_assoc.
    mstep free_proc_slot_eq by (change (Z.quot (p_pid (new_process len stime)) RANGE_PER_SLOT) with 0;
      change MAX_PROC with 64 in *; lia).
    rewrite M_bind_assoc. mstep free_proc_data_new by (try done; by cbn).
    mstep free_eq by done. reflexivity.
  - done.
Qed.

(** Creating a process when all slots are taken fails, and takes another
    process with it: [_proc_create_end] frees the slot of the id -1, which is
    slot 0, so that the process in slot 0 cannot be found any more although it
    has not ended, and its slot is handed out again. *)
Theorem create_full_table (rec : interp) (s : sos) (path : list Z) (len ep : Z) (cb : proc_cb)
    (token : Z) :
  procs_inv s → first_free_pslot (s_proc s) = -1 → 0 < s_brk s →
  s_heap s !! s_brk s = None → s_heap s !! (s_brk s + 16) = None →
  e_malloc (s_env s) (s_tick s) = true → e_malloc (s_env s) (S (s_tick s)) = true →
  s_brk s + 32 ≤ HEAP_END →
  ∃ s' pid p,
    proc_create rec path len ep cb token s =
      (_ ← call_ rec (CallProc cb token EFAULT (-1)); free (s_brk s)) s' ∧
    getproc_at (s_proc s) (s_heap s) pid = Some p ∧ p ≠ 0 ∧ s_heap s' !! p = s_heap s !! p ∧
    getproc_at (s_proc s') (s_heap s') pid = Some 0 ∧ first_free_pslot (s_proc s') = 0.
Proof.
  intros Hok Hfull Hbrk Hfc Hfp Hm1 Hm2 Htop. pose proof Hok as [Hl Hl' _ _ (ch & Hc & _ & Hin) Hlive].
  destruct ch as [| i ch]; [| destruct Hc as [Hi (n & Hn & _)]; apply rd_bounds in Hn; lia].
  destruct (rd_in (processes (s_proc s)) 0) as [p Hp]; [change MAX_PROC with 64 in Hl; lia |].
  assert (p ≠ 0) as Hp0 by (intros ->; by apply Hin, not_elem_of_nil in Hp).
  destruct (Hlive 0 p Hp Hp0) as (x & Hx & Hr).
  assert (Z.quot (p_pid x) RANGE_PER_SLOT = 0) as Hq by (by apply slot_range_quot).
  assert (0 ≤ p_pid x) as Hx0 by (unfold slot_range in Hr; lia).
  set (s1 := set_s_brk (s_brk s + 16) (set_s_heap (<[s_brk s := to_obj (mk_pc 0 0 cb token)]>
    (s_heap s)) (set_s_tick (S (s_tick s)) s))).
  set (stime := u32 (time_of (s_clock s1)) / 1000). 
  set (q := s_brk s + 16).
  set (s2 := set_s_heap (<[s_brk s := to_obj (mk_pc 0 q cb token)]> (<[q := to_obj (new_process len stime)]>
    (s_heap s1))) (set_s_brk (q + 16) (set_s_tick (S (s_tick s1)) s1))).
  destruct (proc_create_end_no_slot rec s2 (s_brk s) q cb token len stime) as (s' & E & Ep & Ef & Eh);
    try done; try lia.
  { cbn. by rewrite lookup_insert_eq. }
  { cbn. rewrite lookup_insert_ne by lia. by rewrite lookup_insert_eq. }
  assert (p ≠ s_brk s ∧ p ≠ q) as [Hpc Hpq] by (unfold q; split; congruence).
  exists s', (p_pid x), p. split_and!; try done.
  - rewrite <- E. unfold proc_create. mstep malloc_eq by (split; [done | lia]).
    destruct (Z.eqb_spec (s_brk s) 0); [lia |]. fold s1.
    mstep malloc_eq by (split; [done | cbn; lia]). change (s_brk s1) with q.
    destruct (Z.eqb_spec q 0); [lia |]. unfold time_stamp. mpure.
    mstep (update_eq (T := process)) by (cbn; rewrite ?lookup_insert_eq; done || lia).
    cbn [s_heap set_s_heap set_s_brk set_s_tick s_clock]. rewrite insert_insert_eq.
    mstep (update_eq (T := proc_create_cont)) by (cbn; rewrite ?lookup_insert_ne by lia;
      try apply lookup_insert_eq; lia).
    mpure. cbn [s_proc set_s_heap set_s_brk set_s_tick s1]. rewrite Hfull. cbn [Z.eqb Z.opp Pos.eqb].
    done.
  - rewrite getproc_slot by done. rewrite Hq, Hp. apply Z.eqb_neq in Hp0 as ->. rewrite Hx.
    by rewrite Z.eqb_refl.
  - rewrite Eh. cbn. rewrite lookup_delete_ne, !lookup_insert_ne by done. done.
  - rewrite getproc_slot by done. rewrite Hq, Ep, rd_insert_eq; [done |].
    cbn. change MAX_PROC with 64 in Hl. lia.
Qed.

(** * Examples *)

Definition example_process : process := new_process 4 0.

(** An empty table, and a process at address 8. *)
Definition sos_procs : sos :=
  let s := set_s_heap {[ 8 := OProcess example_process ]} (sos_start env_ok ut_example) in
  match proc_list_init s with Ret (_, s') => s' | Fault _ => s end.

Lemma sos_procs_inv : procs_inv sos_procs ∧ s_heap sos_procs = {[ 8 := OProcess example_process ]}.
Proof.
  unfold sos_procs. destruct (proc_list_init_ok
    (set_s_heap {[ 8 := OProcess example_process ]} (sos_start env_ok ut_example))) as (s' & E & H & Hh & _).
  cbv zeta. rewrite E. done.
Qed.

Lemma sos_procs_unlisted p : p ≠ 0 → unlisted sos_procs p.
Proof.
  intros Hp i [_ H]%rd_Ret. cbn [sos_procs s_proc processes] in H.
  change (processes (s_proc sos_procs)) with (replicate 64 0) in H.
  apply lookup_replicate in H as [-> _]. done.
Qed.

Lemma take_slot_correct_witness :
  ∃ pid s', take_slot 8 sos_procs = Ret (tt, s') ∧ procs_inv s' ∧
    getproc_at (s_proc s') (s_heap s') pid = Some 8.
Proof.
  destruct (take_slot_correct sos_procs 8 example_process)
    as (pid & s' & E & Hok & Hpid & _ & _ & Hg).
  - apply sos_procs_inv.
  - vm_compute. discriminate.
  - discriminate.
  - rewrite (proj2 sos_procs_inv). apply lookup_singleton_eq.
  - by apply sos_procs_unlisted.
  - exists pid, s'. split; [exact E |]. split; [exact Hok |].
    rewrite (Hg pid Hpid), Z.eqb_refl. reflexivity.
Defined.

(** A table in which every slot is taken. *)
Definition full_procs : procst :=
  mk_procst ((λ i : nat, 1000 + Z.of_nat i) <$> seq 0 64) (-1) (replicate 64 (-1))
    ((λ i : nat, RANGE_PER_SLOT * Z.of_nat i + 1) <$> seq 0 64) [] 0.

Definition full_heap : gmap Z obj :=
  list_to_map ((λ i : nat, (1000 + Z.of_nat i,
    OProcess (set_p_pid (RANGE_PER_SLOT * Z.of_nat i) example_process))) <$> seq 0 64).

Definition sos_full : sos :=
  set_s_heap full_heap (set_s_proc full_procs (sos_start env_ok ut_example)).

Lemma full_heap_lookup i :
  0 ≤ i < 64 →
  full_heap !! (1000 + i) = Some (OProcess (set_p_pid (RANGE_PER_SLOT * i) example_process)).
Proof.
  intros Hi. apply elem_of_list_to_map_1.
  - rewrite <- list_fmap_compose. apply NoDup_fmap; [| apply NoDup_seq].
    intros a b H. cbn in H. lia.
  - apply list_elem_of_fmap. exists (Z.to_nat i). rewrite Z2Nat.id by lia. split; [done |].
    apply elem_of_seq. lia.
Qed.

Lemma sos_full_inv : procs_inv sos_full.
Proof.
  split; try done; cbn [sos_full s_proc s_heap set_s_proc set_s_heap full_procs processes
    first_free_pslot next_free_pslot next_free_pid].
  - intros i pid H. apply rd_bounds in H as Hb. change (Zlength _) with 64 in Hb.
    rewrite rd_seq_fmap in H by lia. injection H as <-. unfold slot_range.
    change RANGE_PER_SLOT with 2097152. lia.
  - exists []. split; [done |]. split; [constructor |]. intros i. split; [by intros ?%not_elem_of_nil |].
    intros H. apply rd_bounds in H as Hb. change (Zlength _) with 64 in Hb.
    rewrite rd_seq_fmap in H by lia. injection H as H. lia.
  - intros i p H _. apply rd_bounds in H as Hb. change (Zlength _) with 64 in Hb.
    rewrite rd_seq_fmap in H by lia. injection H as <-. rewrite Z2Nat.id by lia.
    eexists. split; [by apply full_heap_lookup |]. unfold slot_range. cbn [p_pid set_p_pid].
    change RANGE_PER_SLOT with 2097152. lia.
Qed.

Lemma free_slot_correct_witness :
  ∃ s', free_proc_slot (RANGE_PER_SLOT * 7) sos_full = Ret (tt, s') ∧ procs_inv s' ∧
    first_free_pslot (s_proc s') = 7.
Proof.
  destruct (free_slot_correct sos_full (RANGE_PER_SLOT * 7) 1007) as (s' & E & Hok & _ & Hf & _).
  - exact sos_full_inv.
  - split; [discriminate | reflexivity].
  - vm_compute. reflexivity.
  - discriminate.
  - exists s'. split; [exact E |]. split; [exact Hok |]. rewrite Hf. reflexivity.
Defined.

Lemma pid_reuse_distance_witness :
  next_pids 3 (RANGE_PER_SLOT * 2 - 1) 1 = RANGE_PER_SLOT + 2 ∧
  next_pids 3 (RANGE_PER_SLOT * 2 - 1) 1 ≠ RANGE_PER_SLOT * 2 - 1.
Proof.
  split; [reflexivity |]. intros H.
  destruct (pid_reuse_distance 1 (RANGE_PER_SLOT * 2 - 1) 3) as [_ Hd].
  - split; [discriminate | reflexivity].
  - split; [discriminate | reflexivity].
  - apply Hd in H as [k Hk]. change RANGE_PER_SLOT with 2097152 in Hk. lia.
Defined.

(** A process of slot 33 is taken for one of slot 1. *)
Lemma badge_identifies_witness :
  badge_pid (Z.lor USER_EP_BADGE (RANGE_PER_SLOT * 33)) = RANGE_PER_SLOT * 1.
Proof.
  destruct (badge_identifies (RANGE_PER_SLOT * 33)) as [E _].
  - split; [discriminate | reflexivity].
  - rewrite E. reflexivity.
Defined.

Lemma create_full_table_witness :
  ∃ s' pid p,
    proc_create (run 5) [116] 1 0 cb_serv_proc_create_end 1 sos_full =
      (_ ← call_ (run 5) (CallProc cb_serv_proc_create_end 1 EFAULT (-1)); free HEAP_START) s' ∧
    getproc_at (s_proc sos_full) (s_heap sos_full) pid = Some p ∧ p ≠ 0 ∧
    getproc_at (s_proc s') (s_heap s') pid = Some 0.
Proof.
  destruct (create_full_table (run 5) sos_full [116] 1 0 cb_serv_proc_create_end 1)
    as (s' & pid & p & E & Hg & Hp & _ & Hg' & _).
  - exact sos_full_inv.
  - reflexivity.
  - reflexivity.
  - vm_compute. reflexivity.
  - vm_compute. reflexivity.
  - reflexivity.
  - reflexivity.
  - discriminate.
  - exists s', pid, p. split; [exact E |]. split; [exact Hg |]. split; [exact Hp | exact Hg'].
Defined.
