(* ===== verification/Invariants.v ===== *)
(** Invariants of the whole kernel.

    A property that does not depend on memory, the heap, the processes and the
    outside ([Stable]), that the frame table's own operations keep ([FtStable])
    and that [register_timer] keeps ([ClockStable]), is kept by every function
    of SOS, through every chain of callbacks, whatever the environment answers
    ([keeps_run]); with the timer interrupt it is kept by every round of the
    event loop ([step_keeps]). *)

From S2P Require Import Prelude UtAllocator Sos Hoare Mapping SwapSlots FrameTable FrameInv.
From S2P Require Import ProcTable AddrSpace PageTable Swap CopyInOut Clock Console NfsDev Vfs.
From S2P Require Import FileTable Elf Process Vm Syscalls Machine.

(** What the operations of clock.c that other files call do to a property. *)
Class ClockStable (P : sos → Prop) : Prop := {
  cs_register : ∀ delay cb data, keeps P (register_timer delay cb data)
}.

Section kernel.
Context (P : sos → Prop) `{!Stable P, !FtStable P, !ClockStable P}.

Section calls.
Context (rec : interp) (Hrec : ∀ c, keeps P (rec c)).

#[local] Hint Resolve Hrec fs_victim fs_take fs_free cs_register : keeps.
#[local] Hint Extern 2 (keeps _ (upd_frame _ _)) => (apply fs_upd; done) : keeps.
#[local] Hint Unfold whenM : keeps.

Lemma keeps_seL4_Send a b c : keeps P (seL4_Send a b c).
Proof. unfold seL4_Send. keeps. Qed.
#[local] Hint Resolve keeps_seL4_Send : keeps.

Lemma keeps_cspace_free_slot a : keeps P (cspace_free_slot a).
Proof. unfold cspace_free_slot. keeps. Qed.
#[local] Hint Resolve keeps_cspace_free_slot : keeps.

Lemma keeps_invoke i : keeps P (invoke i).
Proof. unfold invoke. keeps. Qed.
#[local] Hint Resolve keeps_invoke : keeps.

Lemma keeps_read_mem a n : keeps P (read_mem a n).
Proof. unfold read_mem. keeps. Qed.
#[local] Hint Resolve keeps_read_mem : keeps.

Lemma keeps_write_mem a l : keeps P (write_mem a l).
Proof. unfold write_mem. keeps. Qed.
#[local] Hint Resolve keeps_write_mem : keeps.

Lemma keeps_memcpy a b n : keeps P (memcpy a b n).
Proof. unfold memcpy. keeps. Qed.
#[local] Hint Resolve keeps_memcpy : keeps.

Lemma keeps_bzero a n : keeps P (bzero a n).
Proof. unfold bzero. keeps. Qed.
#[local] Hint Resolve keeps_bzero : keeps.

Lemma keeps_load_word a : keeps P (load_word a).
Proof. unfold load_word. keeps. Qed.
#[local] Hint Resolve keeps_load_word : keeps.

Lemma keeps_store_word a v : keeps P (store_word a v).
Proof. unfold store_word. keeps. Qed.
#[local] Hint Resolve keeps_store_word : keeps.

Lemma keeps_malloc_buf n : keeps P (malloc_buf n).
Proof. unfold malloc_buf. keeps. Qed.
#[local] Hint Resolve keeps_malloc_buf : keeps.

Lemma keeps_ut_allocM n : keeps P (ut_allocM n).
Proof. unfold ut_allocM. keeps. Qed.
#[local] Hint Resolve keeps_ut_allocM : keeps.

Lemma keeps_ut_freeM a n : keeps P (ut_freeM a n).
Proof. unfold ut_freeM. keeps. Qed.
#[local] Hint Resolve keeps_ut_freeM : keeps.

Lemma keeps_queue_rpc r : keeps P (queue_rpc r).
Proof. unfold queue_rpc. keeps. Qed.
#[local] Hint Resolve keeps_queue_rpc : keeps.

Lemma keeps_mnt_point : keeps P mnt_point.
Proof. unfold mnt_point. keeps. Qed.
#[local] Hint Resolve keeps_mnt_point : keeps.

Lemma keeps_send_rpc r : keeps P (send_rpc r).
Proof. unfold send_rpc. keeps. Qed.
#[local] Hint Resolve keeps_send_rpc : keeps.

Lemma keeps_cspace_ut_retype_addr a b c : keeps P (cspace_ut_retype_addr a b c).
Proof. unfold cspace_ut_retype_addr. keeps. Qed.
#[local] Hint Resolve keeps_cspace_ut_retype_addr : keeps.

Lemma keeps_map_page_table a b : keeps P (map_page_table a b).
Proof. unfold map_page_table. keeps. Qed.
#[local] Hint Resolve keeps_map_page_table : keeps.

Lemma keeps_map_page a b c d e : keeps P (map_page a b c d e).
Proof. unfold map_page. keeps. Qed.
#[local] Hint Resolve keeps_map_page : keeps.

Lemma keeps_set_free_slots_M fs : keeps P (set_free_slots_M fs).
Proof. unfold set_free_slots_M. keeps. Qed.
#[local] Hint Resolve keeps_set_free_slots_M : keeps.

Lemma keeps_unset_slot a : keeps P (unset_slot a).
Proof. unfold unset_slot. keeps. Qed.
#[local] Hint Resolve keeps_unset_slot : keeps.

Lemma keeps_set_slot a : keeps P (set_slot a).
Proof. unfold set_slot. keeps. Qed.
#[local] Hint Resolve keeps_set_slot : keeps.

Lemma keeps_swap_find_free_slot : keeps P swap_find_free_slot.
Proof. unfold swap_find_free_slot. keeps. Qed.
#[local] Hint Resolve keeps_swap_find_free_slot : keeps.

Lemma keeps_swap_free_slot a : keeps P (swap_free_slot a).
Proof. unfold swap_free_slot. keeps. Qed.
#[local] Hint Resolve keeps_swap_free_slot : keeps.

Lemma keeps_pd_get a b : keeps P (pd_get a b).
Proof. unfold pd_get. keeps. Qed.
#[local] Hint Resolve keeps_pd_get : keeps.

Lemma keeps_pd_set a b c : keeps P (pd_set a b c).
Proof. unfold pd_set. keeps. Qed.
#[local] Hint Resolve keeps_pd_set : keeps.

Lemma keeps_pt_get a b c : keeps P (pt_get a b c).
Proof. unfold pt_get. keeps. Qed.
#[local] Hint Resolve keeps_pt_get : keeps.

Lemma keeps_pt_set a b c d : keeps P (pt_set a b c d).
Proof. unfold pt_set. keeps. Qed.
#[local] Hint Resolve keeps_pt_set : keeps.

Lemma keeps_tables_present a b : keeps P (tables_present a b).
Proof. unfold tables_present. keeps. Qed.
#[local] Hint Resolve keeps_tables_present : keeps.

Lemma keeps_sos_page_unmap a b : keeps P (sos_page_unmap a b).
Proof. unfold sos_page_unmap. keeps. Qed.
#[local] Hint Resolve keeps_sos_page_unmap : keeps.

Lemma keeps_get_frame a : keeps P (get_frame a).
Proof. unfold get_frame. keeps. Qed.
#[local] Hint Resolve keeps_get_frame : keeps.

Lemma keeps_second_chance_loop (n : nat) : keeps P (second_chance_loop n).
Proof.
  induction n as [| n IH]; intros; cbn [second_chance_loop]; keeps.
Qed.
#[local] Hint Resolve keeps_second_chance_loop : keeps.

Lemma keeps_second_chance_swap_victim : keeps P second_chance_swap_victim.
Proof. unfold second_chance_swap_victim. keeps. Qed.
#[local] Hint Resolve keeps_second_chance_swap_victim : keeps.

Lemma keeps_bad_id a : keeps P (bad_id a).
Proof. unfold bad_id. keeps. Qed.
#[local] Hint Resolve keeps_bad_id : keeps.

Lemma keeps_check_allocated a : keeps P (check_allocated a).
Proof. unfold check_allocated. keeps. Qed.
#[local] Hint Resolve keeps_check_allocated : keeps.

Lemma keeps_check_frame a : keeps P (check_frame a).
Proof. unfold check_frame. keeps. Qed.
#[local] Hint Resolve keeps_check_frame : keeps.

Lemma keeps_frame_get_cap a : keeps P (frame_get_cap a).
Proof. unfold frame_get_cap. keeps. Qed.
#[local] Hint Resolve keeps_frame_get_cap : keeps.

Lemma keeps_frame_is_locked a : keeps P (frame_is_locked a).
Proof. unfold frame_is_locked. keeps. Qed.
#[local] Hint Resolve keeps_frame_is_locked : keeps.

Lemma keeps_frame_lock_frame a : keeps P (frame_lock_frame a).
Proof. unfold frame_lock_frame. keeps. Qed.
#[local] Hint Resolve keeps_frame_lock_frame : keeps.

Lemma keeps_frame_unlock_frame a : keeps P (frame_unlock_frame a).
Proof. unfold frame_unlock_frame. keeps. Qed.
#[local] Hint Resolve keeps_frame_unlock_frame : keeps.

Lemma keeps_frame_get_as a : keeps P (frame_get_as a).
Proof. unfold frame_get_as. keeps. Qed.
#[local] Hint Resolve keeps_frame_get_as : keeps.

Lemma keeps_frame_get_pid a : keeps P (frame_get_pid a).
Proof. unfold frame_get_pid. keeps. Qed.
#[local] Hint Resolve keeps_frame_get_pid : keeps.

Lemma keeps_frame_get_vaddr a : keeps P (frame_get_vaddr a).
Proof. unfold frame_get_vaddr. keeps. Qed.
#[local] Hint Resolve keeps_frame_get_vaddr : keeps.

Lemma keeps_frame_set_referenced a : keeps P (frame_set_referenced a).
Proof. unfold frame_set_referenced. keeps. Qed.
#[local] Hint Resolve keeps_frame_set_referenced : keeps.

Lemma keeps_is_frame_referenced a : keeps P (is_frame_referenced a).
Proof. unfold is_frame_referenced. keeps. Qed.
#[local] Hint Resolve keeps_is_frame_referenced : keeps.

Lemma keeps_frame_alloc_end a b : keeps P (frame_alloc_end rec a b).
Proof. unfold frame_alloc_end. keeps. Qed.
#[local] Hint Resolve keeps_frame_alloc_end : keeps.

Lemma keeps_frame_alloc a b c d e f : keeps P (frame_alloc rec a b c d e f).
Proof. unfold frame_alloc. keeps. Qed.
#[local] Hint Resolve keeps_frame_alloc : keeps.

Lemma keeps_mod_proc f : keeps P (mod_proc f).
Proof. unfold mod_proc. keeps. Qed.
#[local] Hint Resolve keeps_mod_proc : keeps.

Lemma keeps_free_proc_slot a : keeps P (free_proc_slot a).
Proof. unfold free_proc_slot. keeps. Qed.
#[local] Hint Resolve keeps_free_proc_slot : keeps.

Lemma keeps_proc_getproc a : keeps P (proc_getproc a).
Proof. unfold proc_getproc. keeps. Qed.
#[local] Hint Resolve keeps_proc_getproc : keeps.

Lemma keeps_cur_proc : keeps P cur_proc.
Proof. unfold cur_proc. keeps. Qed.
#[local] Hint Resolve keeps_cur_proc : keeps.

Lemma keeps_proc_get_id : keeps P proc_get_id.
Proof. unfold proc_get_id. keeps. Qed.
#[local] Hint Resolve keeps_proc_get_id : keeps.

Lemma keeps_inc_proc_size_proc a : keeps P (inc_proc_size_proc a).
Proof. unfold inc_proc_size_proc. keeps. Qed.
#[local] Hint Resolve keeps_inc_proc_size_proc : keeps.

Lemma keeps_dec_proc_size_proc a : keeps P (dec_proc_size_proc a).
Proof. unfold dec_proc_size_proc. keeps. Qed.
#[local] Hint Resolve keeps_dec_proc_size_proc : keeps.

Lemma keeps_is_proc_alive a : keeps P (is_proc_alive a).
Proof. unfold is_proc_alive. keeps. Qed.
#[local] Hint Resolve keeps_is_proc_alive : keeps.

Lemma keeps_set_cur_proc a : keeps P (set_cur_proc a).
Proof. unfold set_cur_proc. keeps. Qed.
#[local] Hint Resolve keeps_set_cur_proc : keeps.

Lemma keeps_proc_getas : keeps P proc_getas.
Proof. unfold proc_getas. keeps. Qed.
#[local] Hint Resolve keeps_proc_getas : keeps.

Lemma keeps_region_probe a b : keeps P (region_probe a b).
Proof. unfold region_probe. keeps. Qed.
#[local] Hint Resolve keeps_region_probe : keeps.

Lemma keeps_malloc_ok : keeps P malloc_ok.
Proof. unfold malloc_ok. keeps. Qed.
#[local] Hint Resolve keeps_malloc_ok : keeps.

Lemma keeps_as_define_region a b c d : keeps P (as_define_region a b c d).
Proof. unfold as_define_region. keeps. Qed.
#[local] Hint Resolve keeps_as_define_region : keeps.

Lemma keeps_as_define_stack a b c : keeps P (as_define_stack a b c).
Proof. unfold as_define_stack. keeps. Qed.
#[local] Hint Resolve keeps_as_define_stack : keeps.

Lemma keeps_as_define_heap a : keeps P (as_define_heap a).
Proof. unfold as_define_heap. keeps. Qed.
#[local] Hint Resolve keeps_as_define_heap : keeps.

Lemma keeps_sos_sys_brk a b : keeps P (sos_sys_brk a b).
Proof. unfold sos_sys_brk. keeps. Qed.
#[local] Hint Resolve keeps_sos_sys_brk : keeps.

Lemma keeps_as_is_valid_memory a b c : keeps P (as_is_valid_memory a b c).
Proof. unfold as_is_valid_memory. keeps. Qed.
#[local] Hint Resolve keeps_as_is_valid_memory : keeps.

Lemma keeps_as_create_end a b : keeps P (as_create_end rec a b).
Proof. unfold as_create_end. keeps. Qed.
#[local] Hint Resolve keeps_as_create_end : keeps.

Lemma keeps_as_create_pagedir_regs_allocated a b : keeps P (as_create_pagedir_regs_allocated rec a b).
Proof. unfold as_create_pagedir_regs_allocated. keeps. Qed.
#[local] Hint Resolve keeps_as_create_pagedir_regs_allocated : keeps.

Lemma keeps_as_create_pagedir_caps_allocated a b : keeps P (as_create_pagedir_caps_allocated rec a b).
Proof. unfold as_create_pagedir_caps_allocated. keeps. Qed.
#[local] Hint Resolve keeps_as_create_pagedir_caps_allocated : keeps.

Lemma keeps_as_create a b c : keeps P (as_create rec a b c).
Proof. unfold as_create. keeps. Qed.
#[local] Hint Resolve keeps_as_create : keeps.

Lemma keeps_insert_pt a b c : keeps P (insert_pt a b c).
Proof. unfold insert_pt. keeps. Qed.
#[local] Hint Resolve keeps_insert_pt : keeps.

Lemma keeps_map_page_table_as a b c : keeps P (map_page_table_as a b c).
Proof. unfold map_page_table_as. keeps. Qed.
#[local] Hint Resolve keeps_map_page_table_as : keeps.

Lemma keeps_map_sel4_page a b c d e : keeps P (map_sel4_page a b c d e).
Proof. unfold map_sel4_page. keeps. Qed.
#[local] Hint Resolve keeps_map_sel4_page : keeps.

Lemma keeps_pm_finish a b : keeps P (pm_finish rec a b).
Proof. unfold pm_finish. keeps. Qed.
#[local] Hint Resolve keeps_pm_finish : keeps.

Lemma keeps_sos_page_map_5 a b : keeps P (sos_page_map_5 rec a b).
Proof. unfold sos_page_map_5. keeps. Qed.
#[local] Hint Resolve keeps_sos_page_map_5 : keeps.

Lemma keeps_sos_page_map_4_alloc_frame a : keeps P (sos_page_map_4_alloc_frame rec a).
Proof. unfold sos_page_map_4_alloc_frame. keeps. Qed.
#[local] Hint Resolve keeps_sos_page_map_4_alloc_frame : keeps.

Lemma keeps_sos_page_map_3 a b : keeps P (sos_page_map_3 rec a b).
Proof. unfold sos_page_map_3. keeps. Qed.
#[local] Hint Resolve keeps_sos_page_map_3 : keeps.

Lemma keeps_sos_page_map_2_alloc_cap_pt a b : keeps P (sos_page_map_2_alloc_cap_pt rec a b).
Proof. unfold sos_page_map_2_alloc_cap_pt. keeps. Qed.
#[local] Hint Resolve keeps_sos_page_map_2_alloc_cap_pt : keeps.

Lemma keeps_sos_page_map a b c d e f g : keeps P (sos_page_map rec a b c d e f g).
Proof. unfold sos_page_map. keeps. Qed.
#[local] Hint Resolve keeps_sos_page_map : keeps.

Lemma keeps_junk_bool : keeps P junk_bool.
Proof. unfold junk_bool. keeps. Qed.
#[local] Hint Resolve keeps_junk_bool : keeps.

Lemma keeps_frame_is_locked_or_junk a : keeps P (frame_is_locked_or_junk a).
Proof. unfold frame_is_locked_or_junk. keeps. Qed.
#[local] Hint Resolve keeps_frame_is_locked_or_junk : keeps.

Lemma keeps_sos_page_free a b : keeps P (sos_page_free a b).
Proof. unfold sos_page_free. keeps. Qed.
#[local] Hint Resolve keeps_sos_page_free : keeps.

Lemma keeps_has_directories a : keeps P (has_directories a).
Proof. unfold has_directories. keeps. Qed.
#[local] Hint Resolve keeps_has_directories : keeps.

Lemma keeps_sos_page_is_inuse a b : keeps P (sos_page_is_inuse a b).
Proof. unfold sos_page_is_inuse. keeps. Qed.
#[local] Hint Resolve keeps_sos_page_is_inuse : keeps.

Lemma keeps_sos_page_is_swapped a b : keeps P (sos_page_is_swapped a b).
Proof. unfold sos_page_is_swapped. keeps. Qed.
#[local] Hint Resolve keeps_sos_page_is_swapped : keeps.

Lemma keeps_sos_page_is_locked a b : keeps P (sos_page_is_locked a b).
Proof. unfold sos_page_is_locked. keeps. Qed.
#[local] Hint Resolve keeps_sos_page_is_locked : keeps.

Lemma keeps_sos_get_kvaddr a b : keeps P (sos_get_kvaddr a b).
Proof. unfold sos_get_kvaddr. keeps. Qed.
#[local] Hint Resolve keeps_sos_get_kvaddr : keeps.

Lemma keeps_sos_get_kframe_cap a b : keeps P (sos_get_kframe_cap a b).
Proof. unfold sos_get_kframe_cap. keeps. Qed.
#[local] Hint Resolve keeps_sos_get_kframe_cap : keeps.

Lemma keeps_destroy_entries (n : nat) a b c : keeps P (destroy_entries n a b c).
Proof.
  revert a b c. induction n as [| n IH]; intros; cbn [destroy_entries]; keeps.
Qed.
#[local] Hint Resolve keeps_destroy_entries : keeps.

Lemma keeps_destroy_tables (n : nat) a b : keeps P (destroy_tables n a b).
Proof.
  revert a b. induction n as [| n IH]; intros; cbn [destroy_tables]; keeps.
Qed.
#[local] Hint Resolve keeps_destroy_tables : keeps.

Lemma keeps_destroy_pts l : keeps P (destroy_pts l).
Proof.
  induction l as [| x l IH]; intros; cbn [destroy_pts]; keeps.
Qed.
#[local] Hint Resolve keeps_destroy_pts : keeps.

Lemma keeps_as_destroy a : keeps P (as_destroy a).
Proof. unfold as_destroy. keeps. Qed.
#[local] Hint Resolve keeps_as_destroy : keeps.

Lemma keeps_proc_is_gone a : keeps P (proc_is_gone a).
Proof. unfold proc_is_gone. keeps. Qed.
#[local] Hint Resolve keeps_proc_is_gone : keeps.

Lemma keeps_get_swap_fh : keeps P get_swap_fh.
Proof. unfold get_swap_fh. keeps. Qed.
#[local] Hint Resolve keeps_get_swap_fh : keeps.

Lemma keeps_swap_init a b : keeps P (swap_init rec a b).
Proof. unfold swap_init. keeps. Qed.
#[local] Hint Resolve keeps_swap_init : keeps.

Lemma keeps_nfs_dev_get_fhandle a : keeps P (nfs_dev_get_fhandle a).
Proof. unfold nfs_dev_get_fhandle. keeps. Qed.
#[local] Hint Resolve keeps_nfs_dev_get_fhandle : keeps.

Lemma keeps_swap_init_end a b c : keeps P (swap_init_end rec a b c).
Proof. unfold swap_init_end. keeps. Qed.
#[local] Hint Resolve keeps_swap_init_end : keeps.

Lemma keeps_swap_out_end a b : keeps P (swap_out_end rec a b).
Proof. unfold swap_out_end. keeps. Qed.
#[local] Hint Resolve keeps_swap_out_end : keeps.

Lemma keeps_write_piece a b c d : keeps P (write_piece a b c d).
Proof. unfold write_piece. keeps. Qed.
#[local] Hint Resolve keeps_write_piece : keeps.

Lemma keeps_swap_out_4_nfs_write_cb a b c d : keeps P (swap_out_4_nfs_write_cb rec a b c d).
Proof. unfold swap_out_4_nfs_write_cb. keeps. Qed.
#[local] Hint Resolve keeps_swap_out_4_nfs_write_cb : keeps.

Lemma keeps_swap_out_3 a : keeps P (swap_out_3 rec a).
Proof. unfold swap_out_3. keeps. Qed.
#[local] Hint Resolve keeps_swap_out_3 : keeps.

Lemma keeps_swap_out_2_init_callback a b : keeps P (swap_out_2_init_callback rec a b).
Proof. unfold swap_out_2_init_callback. keeps. Qed.
#[local] Hint Resolve keeps_swap_out_2_init_callback : keeps.

Lemma keeps_swap_out a b c : keeps P (swap_out rec a b c).
Proof. unfold swap_out. keeps. Qed.
#[local] Hint Resolve keeps_swap_out : keeps.

Lemma keeps_swap_in_end a b : keeps P (swap_in_end rec a b).
Proof. unfold swap_in_end. keeps. Qed.
#[local] Hint Resolve keeps_swap_in_end : keeps.

Lemma keeps_read_piece a b c : keeps P (read_piece a b c).
Proof. unfold read_piece. keeps. Qed.
#[local] Hint Resolve keeps_read_piece : keeps.

Lemma keeps_swap_in_nfs_read_handler a b c d : keeps P (swap_in_nfs_read_handler rec a b c d).
Proof. unfold swap_in_nfs_read_handler. keeps. Qed.
#[local] Hint Resolve keeps_swap_in_nfs_read_handler : keeps.

Lemma keeps_swap_in_page_map_cb a b : keeps P (swap_in_page_map_cb rec a b).
Proof. unfold swap_in_page_map_cb. keeps. Qed.
#[local] Hint Resolve keeps_swap_in_page_map_cb : keeps.

Lemma keeps_swap_in a b c d e f : keeps P (swap_in rec a b c d e f).
Proof. unfold swap_in. keeps. Qed.
#[local] Hint Resolve keeps_swap_in : keeps.

Lemma keeps_cp_rights a : keeps P (cp_rights a).
Proof. unfold cp_rights. keeps. Qed.
#[local] Hint Resolve keeps_cp_rights : keeps.

Lemma keeps_copy_end a b : keeps P (copy_end rec a b).
Proof. unfold copy_end. keeps. Qed.
#[local] Hint Resolve keeps_copy_end : keeps.

Lemma keeps_ensure_page a b : keeps P (ensure_page rec a b).
Proof. unfold ensure_page. keeps. Qed.
#[local] Hint Resolve keeps_ensure_page : keeps.

Lemma keeps_copyin_do_copy a b : keeps P (copyin_do_copy rec a b).
Proof. unfold copyin_do_copy. keeps. Qed.
#[local] Hint Resolve keeps_copyin_do_copy : keeps.

Lemma keeps_copyin a b c d e : keeps P (copyin rec a b c d e).
Proof. unfold copyin. keeps. Qed.
#[local] Hint Resolve keeps_copyin : keeps.

Lemma keeps_copyout_do_copy a b : keeps P (copyout_do_copy rec a b).
Proof. unfold copyout_do_copy. keeps. Qed.
#[local] Hint Resolve keeps_copyout_do_copy : keeps.

Lemma keeps_copyout a b c d e : keeps P (copyout rec a b c d e).
Proof. unfold copyout. keeps. Qed.
#[local] Hint Resolve keeps_copyout : keeps.

Lemma keeps_time_stamp : keeps P time_stamp.
Proof. unfold time_stamp. keeps. Qed.
#[local] Hint Resolve keeps_time_stamp : keeps.

Lemma keeps_mod_con f : keeps P (mod_con f).
Proof. unfold mod_con. keeps. Qed.
#[local] Hint Resolve keeps_mod_con : keeps.

Lemma keeps_mod_conr f : keeps P (mod_conr f).
Proof. unfold mod_conr. keeps. Qed.
#[local] Hint Resolve keeps_mod_conr : keeps.

Lemma keeps_serial_send a b : keeps P (serial_send a b).
Proof. unfold serial_send. keeps. Qed.
#[local] Hint Resolve keeps_serial_send : keeps.

Lemma keeps_serial_register_handler : keeps P serial_register_handler.
Proof. unfold serial_register_handler. keeps. Qed.
#[local] Hint Resolve keeps_serial_register_handler : keeps.

Lemma keeps_serial_init : keeps P serial_init.
Proof. unfold serial_init. keeps. Qed.
#[local] Hint Resolve keeps_serial_init : keeps.

Lemma keeps_send_loop (n : nat) a b c : keeps P (send_loop n a b c).
Proof.
  revert a b c. induction n as [| n IH]; intros; cbn [send_loop]; keeps.
Qed.
#[local] Hint Resolve keeps_send_loop : keeps.

Lemma keeps_con_init a : keeps P (con_init a).
Proof. unfold con_init. keeps. Qed.
#[local] Hint Resolve keeps_con_init : keeps.

Lemma keeps_con_eachopen a b : keeps P (con_eachopen a b).
Proof. unfold con_eachopen. keeps. Qed.
#[local] Hint Resolve keeps_con_eachopen : keeps.

Lemma keeps_con_eachclose a b : keeps P (con_eachclose a b).
Proof. unfold con_eachclose. keeps. Qed.
#[local] Hint Resolve keeps_con_eachclose : keeps.

Lemma keeps_con_lastclose a : keeps P (con_lastclose a).
Proof. unfold con_lastclose. keeps. Qed.
#[local] Hint Resolve keeps_con_lastclose : keeps.

Lemma keeps_con_write a b c d e f : keeps P (con_write rec a b c d e f).
Proof. unfold con_write. keeps. Qed.
#[local] Hint Resolve keeps_con_write : keeps.

Lemma keeps_con_read_end a b : keeps P (con_read_end rec a b).
Proof. unfold con_read_end. keeps. Qed.
#[local] Hint Resolve keeps_con_read_end : keeps.

Lemma keeps_con_read_part2 a b : keeps P (con_read_part2 rec a b).
Proof. unfold con_read_part2. keeps. Qed.
#[local] Hint Resolve keeps_con_read_part2 : keeps.

Lemma keeps_con_read a b c d e f : keeps P (con_read rec a b c d e f).
Proof. unfold con_read. keeps. Qed.
#[local] Hint Resolve keeps_con_read : keeps.

Lemma keeps_con_store_char a : keeps P (con_store_char a).
Proof. unfold con_store_char. keeps. Qed.
#[local] Hint Resolve keeps_con_store_char : keeps.

Lemma keeps_read_handler a : keeps P (read_handler rec a).
Proof. unfold read_handler. keeps. Qed.
#[local] Hint Resolve keeps_read_handler : keeps.

Lemma keeps_resume a : keeps P (resume a).
Proof. unfold resume. keeps. Qed.
#[local] Hint Resolve keeps_resume : keeps.

Lemma keeps_init_helper a b c : keeps P (init_helper a b c).
Proof. unfold init_helper. keeps. Qed.
#[local] Hint Resolve keeps_init_helper : keeps.

Lemma keeps_nfs_dev_init_mntpoint_vnode a b : keeps P (nfs_dev_init_mntpoint_vnode a b).
Proof. unfold nfs_dev_init_mntpoint_vnode. keeps. Qed.
#[local] Hint Resolve keeps_nfs_dev_init_mntpoint_vnode : keeps.

Lemma keeps_nfs_dev_create a : keeps P (nfs_dev_create a).
Proof. unfold nfs_dev_create. keeps. Qed.
#[local] Hint Resolve keeps_nfs_dev_create : keeps.

Lemma keeps_ni_finish a b : keeps P (ni_finish rec a b).
Proof. unfold ni_finish. keeps. Qed.
#[local] Hint Resolve keeps_ni_finish : keeps.

Lemma keeps_nfs_dev_create_handler a b c d : keeps P (nfs_dev_create_handler rec a b c d).
Proof. unfold nfs_dev_create_handler. keeps. Qed.
#[local] Hint Resolve keeps_nfs_dev_create_handler : keeps.

Lemma keeps_nfs_dev_lookup_handler a b c d : keeps P (nfs_dev_lookup_handler rec a b c d).
Proof. unfold nfs_dev_lookup_handler. keeps. Qed.
#[local] Hint Resolve keeps_nfs_dev_lookup_handler : keeps.

Lemma keeps_nfs_dev_init a b c : keeps P (nfs_dev_init rec a b c).
Proof. unfold nfs_dev_init. keeps. Qed.
#[local] Hint Resolve keeps_nfs_dev_init : keeps.

Lemma keeps_nfs_dev_eachopen a b : keeps P (nfs_dev_eachopen a b).
Proof. unfold nfs_dev_eachopen. keeps. Qed.
#[local] Hint Resolve keeps_nfs_dev_eachopen : keeps.

Lemma keeps_nfs_dev_eachclose a b : keeps P (nfs_dev_eachclose a b).
Proof. unfold nfs_dev_eachclose. keeps. Qed.
#[local] Hint Resolve keeps_nfs_dev_eachclose : keeps.

Lemma keeps_get_nfs_data a : keeps P (get_nfs_data a).
Proof. unfold get_nfs_data. keeps. Qed.
#[local] Hint Resolve keeps_get_nfs_data : keeps.

Lemma keeps_nfs_dev_lastclose a : keeps P (nfs_dev_lastclose a).
Proof. unfold nfs_dev_lastclose. keeps. Qed.
#[local] Hint Resolve keeps_nfs_dev_lastclose : keeps.

Lemma keeps_set_fattr a b : keeps P (set_fattr a b).
Proof. unfold set_fattr. keeps. Qed.
#[local] Hint Resolve keeps_set_fattr : keeps.

Lemma keeps_nfs_dev_write a b c d e f : keeps P (nfs_dev_write rec a b c d e f).
Proof. unfold nfs_dev_write. keeps. Qed.
#[local] Hint Resolve keeps_nfs_dev_write : keeps.

Lemma keeps_nfs_dev_write_handler a b c d : keeps P (nfs_dev_write_handler rec a b c d).
Proof. unfold nfs_dev_write_handler. keeps. Qed.
#[local] Hint Resolve keeps_nfs_dev_write_handler : keeps.

Lemma keeps_nfs_dev_read_end a b : keeps P (nfs_dev_read_end rec a b).
Proof. unfold nfs_dev_read_end. keeps. Qed.
#[local] Hint Resolve keeps_nfs_dev_read_end : keeps.

Lemma keeps_nfs_dev_read a b c d e f : keeps P (nfs_dev_read rec a b c d e f).
Proof. unfold nfs_dev_read. keeps. Qed.
#[local] Hint Resolve keeps_nfs_dev_read : keeps.

Lemma keeps_nfs_dev_read_handler a b c d e : keeps P (nfs_dev_read_handler rec a b c d e).
Proof. unfold nfs_dev_read_handler. keeps. Qed.
#[local] Hint Resolve keeps_nfs_dev_read_handler : keeps.

Lemma keeps_ng_finish a b c : keeps P (ng_finish rec a b c).
Proof. unfold ng_finish. keeps. Qed.
#[local] Hint Resolve keeps_ng_finish : keeps.

Lemma keeps_nfs_dev_getdirent a b c d e f : keeps P (nfs_dev_getdirent rec a b c d e f).
Proof. unfold nfs_dev_getdirent. keeps. Qed.
#[local] Hint Resolve keeps_nfs_dev_getdirent : keeps.

Lemma keeps_nfs_dev_getdirent_handler a b c d : keeps P (nfs_dev_getdirent_handler rec a b c d).
Proof. unfold nfs_dev_getdirent_handler. keeps. Qed.
#[local] Hint Resolve keeps_nfs_dev_getdirent_handler : keeps.

Lemma keeps_nfs_dev_getdirent_done_copyout a b : keeps P (nfs_dev_getdirent_done_copyout rec a b).
Proof. unfold nfs_dev_getdirent_done_copyout. keeps. Qed.
#[local] Hint Resolve keeps_nfs_dev_getdirent_done_copyout : keeps.

Lemma keeps_nfs_dev_stat a b c d : keeps P (nfs_dev_stat rec a b c d).
Proof. unfold nfs_dev_stat. keeps. Qed.
#[local] Hint Resolve keeps_nfs_dev_stat : keeps.

Lemma keeps_nfs_dev_stat_copyout_cb a b : keeps P (nfs_dev_stat_copyout_cb rec a b).
Proof. unfold nfs_dev_stat_copyout_cb. keeps. Qed.
#[local] Hint Resolve keeps_nfs_dev_stat_copyout_cb : keeps.

Lemma keeps_nfs_dev_getstat_lookup_end a b : keeps P (nfs_dev_getstat_lookup_end rec a b).
Proof. unfold nfs_dev_getstat_lookup_end. keeps. Qed.
#[local] Hint Resolve keeps_nfs_dev_getstat_lookup_end : keeps.

Lemma keeps_nfs_dev_getstat_lookup_cb a b c d : keeps P (nfs_dev_getstat_lookup_cb rec a b c d).
Proof. unfold nfs_dev_getstat_lookup_cb. keeps. Qed.
#[local] Hint Resolve keeps_nfs_dev_getstat_lookup_cb : keeps.

Lemma keeps_nfs_dev_getstat a b c d : keeps P (nfs_dev_getstat rec a b c d).
Proof. unfold nfs_dev_getstat. keeps. Qed.
#[local] Hint Resolve keeps_nfs_dev_getstat : keeps.

Lemma keeps_nfs_dev_timeout_handler : keeps P nfs_dev_timeout_handler.
Proof. unfold nfs_dev_timeout_handler. keeps. Qed.
#[local] Hint Resolve keeps_nfs_dev_timeout_handler : keeps.

Lemma keeps_vn_table a : keeps P (vn_table a).
Proof. unfold vn_table. keeps. Qed.
#[local] Hint Resolve keeps_vn_table : keeps.

Lemma keeps_VOP_EACHOPEN a b : keeps P (VOP_EACHOPEN a b).
Proof. unfold VOP_EACHOPEN. keeps. Qed.
#[local] Hint Resolve keeps_VOP_EACHOPEN : keeps.

Lemma keeps_VOP_EACHCLOSE a b : keeps P (VOP_EACHCLOSE a b).
Proof. unfold VOP_EACHCLOSE. keeps. Qed.
#[local] Hint Resolve keeps_VOP_EACHCLOSE : keeps.

Lemma keeps_VOP_LASTCLOSE a : keeps P (VOP_LASTCLOSE a).
Proof. unfold VOP_LASTCLOSE. keeps. Qed.
#[local] Hint Resolve keeps_VOP_LASTCLOSE : keeps.

Lemma keeps_VOP_READ a b c d e f : keeps P (VOP_READ rec a b c d e f).
Proof. unfold VOP_READ. keeps. Qed.
#[local] Hint Resolve keeps_VOP_READ : keeps.

Lemma keeps_VOP_WRITE a b c d e f : keeps P (VOP_WRITE rec a b c d e f).
Proof. unfold VOP_WRITE. keeps. Qed.
#[local] Hint Resolve keeps_VOP_WRITE : keeps.

Lemma keeps_VOP_GETDIRENT a b c d e f : keeps P (VOP_GETDIRENT rec a b c d e f).
Proof. unfold VOP_GETDIRENT. keeps. Qed.
#[local] Hint Resolve keeps_VOP_GETDIRENT : keeps.

Lemma keeps_VOP_STAT a b c d : keeps P (VOP_STAT rec a b c d).
Proof. unfold VOP_STAT. keeps. Qed.
#[local] Hint Resolve keeps_VOP_STAT : keeps.

Lemma keeps_vnt_lookup_in l a : keeps P (vnt_lookup_in l a).
Proof.
  revert a. induction l as [| x l IH]; intros; cbn [vnt_lookup_in]; keeps.
Qed.
#[local] Hint Resolve keeps_vnt_lookup_in : keeps.

Lemma keeps_vfs_vnt_lookup a : keeps P (vfs_vnt_lookup a).
Proof. unfold vfs_vnt_lookup. keeps. Qed.
#[local] Hint Resolve keeps_vfs_vnt_lookup : keeps.

Lemma keeps_vfs_vnt_insert a : keeps P (vfs_vnt_insert a).
Proof. unfold vfs_vnt_insert. keeps. Qed.
#[local] Hint Resolve keeps_vfs_vnt_insert : keeps.

Lemma keeps_vnt_delete_in l a : keeps P (vnt_delete_in l a).
Proof.
  revert a. induction l as [| x l IH]; intros; cbn [vnt_delete_in]; keeps.
Qed.
#[local] Hint Resolve keeps_vnt_delete_in : keeps.

Lemma keeps_vfs_vnt_delete a : keeps P (vfs_vnt_delete a).
Proof. unfold vfs_vnt_delete. keeps. Qed.
#[local] Hint Resolve keeps_vfs_vnt_delete : keeps.

Lemma keeps_vnode_incopen a : keeps P (vnode_incopen a).
Proof. unfold vnode_incopen. keeps. Qed.
#[local] Hint Resolve keeps_vnode_incopen : keeps.

Lemma keeps_vnode_decopen a : keeps P (vnode_decopen a).
Proof. unfold vnode_decopen. keeps. Qed.
#[local] Hint Resolve keeps_vnode_decopen : keeps.

Lemma keeps_vfs_open_3_end_create a b : keeps P (vfs_open_3_end_create rec a b).
Proof. unfold vfs_open_3_end_create. keeps. Qed.
#[local] Hint Resolve keeps_vfs_open_3_end_create : keeps.

Lemma keeps_vfs_open_2_create_vnode a b c d : keeps P (vfs_open_2_create_vnode rec a b c d).
Proof. unfold vfs_open_2_create_vnode. keeps. Qed.
#[local] Hint Resolve keeps_vfs_open_2_create_vnode : keeps.

Lemma keeps_vfs_open a b c d : keeps P (vfs_open rec a b c d).
Proof. unfold vfs_open. keeps. Qed.
#[local] Hint Resolve keeps_vfs_open : keeps.

Lemma keeps_vfs_close a b : keeps P (vfs_close a b).
Proof. unfold vfs_close. keeps. Qed.
#[local] Hint Resolve keeps_vfs_close : keeps.

Lemma keeps_vfs_stat_end a b : keeps P (vfs_stat_end rec a b).
Proof. unfold vfs_stat_end. keeps. Qed.
#[local] Hint Resolve keeps_vfs_stat_end : keeps.

Lemma keeps_vfs_stat a b c d : keeps P (vfs_stat rec a b c d).
Proof. unfold vfs_stat. keeps. Qed.
#[local] Hint Resolve keeps_vfs_stat : keeps.

Lemma keeps_cur_filetable : keeps P cur_filetable.
Proof. unfold cur_filetable. keeps. Qed.
#[local] Hint Resolve keeps_cur_filetable : keeps.

Lemma keeps_filetable_findfile a : keeps P (filetable_findfile a).
Proof. unfold filetable_findfile. keeps. Qed.
#[local] Hint Resolve keeps_filetable_findfile : keeps.

Lemma keeps_filetable_placefile a : keeps P (filetable_placefile a).
Proof. unfold filetable_placefile. keeps. Qed.
#[local] Hint Resolve keeps_filetable_placefile : keeps.

Lemma keeps_file_doclose a b : keeps P (file_doclose a b).
Proof. unfold file_doclose. keeps. Qed.
#[local] Hint Resolve keeps_file_doclose : keeps.

Lemma keeps_file_close a : keeps P (file_close a).
Proof. unfold file_close. keeps. Qed.
#[local] Hint Resolve keeps_file_close : keeps.

Lemma keeps_close_all l : keeps P (close_all l).
Proof.
  induction l as [| x l IH]; intros; cbn [close_all]; keeps.
Qed.
#[local] Hint Resolve keeps_close_all : keeps.

Lemma keeps_filetable_destroy a : keeps P (filetable_destroy a).
Proof. unfold filetable_destroy. keeps. Qed.
#[local] Hint Resolve keeps_filetable_destroy : keeps.

Lemma keeps_fo_finish a b c : keeps P (fo_finish rec a b c).
Proof. unfold fo_finish. keeps. Qed.
#[local] Hint Resolve keeps_fo_finish : keeps.

Lemma keeps_file_open_end a b c : keeps P (file_open_end rec a b c).
Proof. unfold file_open_end. keeps. Qed.
#[local] Hint Resolve keeps_file_open_end : keeps.

Lemma keeps_file_open a b c d : keeps P (file_open rec a b c d).
Proof. unfold file_open. keeps. Qed.
#[local] Hint Resolve keeps_file_open : keeps.

Lemma keeps_filetable_init_end a b c : keeps P (filetable_init_end rec a b c).
Proof. unfold filetable_init_end. keeps. Qed.
#[local] Hint Resolve keeps_filetable_init_end : keeps.

Lemma keeps_filetable_init a b c : keeps P (filetable_init rec a b c).
Proof. unfold filetable_init. keeps. Qed.
#[local] Hint Resolve keeps_filetable_init : keeps.

Lemma keeps_load_segment_end a b : keeps P (load_segment_end rec a b).
Proof. unfold load_segment_end. keeps. Qed.
#[local] Hint Resolve keeps_load_segment_end : keeps.

Lemma keeps_load_segment2 a b : keeps P (load_segment2 rec a b).
Proof. unfold load_segment2. keeps. Qed.
#[local] Hint Resolve keeps_load_segment2 : keeps.

Lemma keeps_load_segment3 a b c d : keeps P (load_segment3 rec a b c d).
Proof. unfold load_segment3. keeps. Qed.
#[local] Hint Resolve keeps_load_segment3 : keeps.

Lemma keeps_load_segment a b c d e f g h i j k : keeps P (load_segment rec a b c d e f g h i j k).
Proof. unfold load_segment. keeps. Qed.
#[local] Hint Resolve keeps_load_segment : keeps.

Lemma keeps_elf_load_end a b : keeps P (elf_load_end rec a b).
Proof. unfold elf_load_end. keeps. Qed.
#[local] Hint Resolve keeps_elf_load_end : keeps.

Lemma keeps_elf_load_load_segments a b : keeps P (elf_load_load_segments rec a b).
Proof. unfold elf_load_load_segments. keeps. Qed.
#[local] Hint Resolve keeps_elf_load_load_segments : keeps.

Lemma keeps_elf_load_read_progheaders_cb a b c d : keeps P (elf_load_read_progheaders_cb rec a b c d).
Proof. unfold elf_load_read_progheaders_cb. keeps. Qed.
#[local] Hint Resolve keeps_elf_load_read_progheaders_cb : keeps.

Lemma keeps_elf_load_read_elfheader_cb a b c d : keeps P (elf_load_read_elfheader_cb rec a b c d).
Proof. unfold elf_load_read_elfheader_cb. keeps. Qed.
#[local] Hint Resolve keeps_elf_load_read_elfheader_cb : keeps.

Lemma keeps_elf_load_lookup_cb a b c : keeps P (elf_load_lookup_cb rec a b c).
Proof. unfold elf_load_lookup_cb. keeps. Qed.
#[local] Hint Resolve keeps_elf_load_lookup_cb : keeps.

Lemma keeps_elf_load a b c d e f : keeps P (elf_load rec a b c d e f).
Proof. unfold elf_load. keeps. Qed.
#[local] Hint Resolve keeps_elf_load : keeps.

Lemma keeps_free_cap a : keeps P (free_cap a).
Proof. unfold free_cap. keeps. Qed.
#[local] Hint Resolve keeps_free_cap : keeps.

Lemma keeps_free_ut a b : keeps P (free_ut a b).
Proof. unfold free_ut. keeps. Qed.
#[local] Hint Resolve keeps_free_ut : keeps.

Lemma keeps_free_proc_data a : keeps P (free_proc_data a).
Proof. unfold free_proc_data. keeps. Qed.
#[local] Hint Resolve keeps_free_proc_data : keeps.

Lemma keeps_wake_all l a : keeps P (wake_all rec l a).
Proof.
  revert a. induction l as [| x l IH]; intros; cbn [wake_all]; keeps.
Qed.
#[local] Hint Resolve keeps_wake_all : keeps.

Lemma keeps_proc_destroy a : keeps P (proc_destroy rec a).
Proof. unfold proc_destroy. keeps. Qed.
#[local] Hint Resolve keeps_proc_destroy : keeps.

Lemma keeps_find_proc l a : keeps P (find_proc l a).
Proof.
  revert a. induction l as [| x l IH]; intros; cbn [find_proc]; keeps.
Qed.
#[local] Hint Resolve keeps_find_proc : keeps.

Lemma keeps_proc_wait a b c : keeps P (proc_wait a b c).
Proof. unfold proc_wait. keeps. Qed.
#[local] Hint Resolve keeps_proc_wait : keeps.

Lemma keeps_proc_create_end a b : keeps P (proc_create_end rec a b).
Proof. unfold proc_create_end. keeps. Qed.
#[local] Hint Resolve keeps_proc_create_end : keeps.

Lemma keeps_proc_create_part4 a b : keeps P (proc_create_part4 rec a b).
Proof. unfold proc_create_part4. keeps. Qed.
#[local] Hint Resolve keeps_proc_create_part4 : keeps.

Lemma keeps_proc_create_part3 a b c : keeps P (proc_create_part3 rec a b c).
Proof. unfold proc_create_part3. keeps. Qed.
#[local] Hint Resolve keeps_proc_create_part3 : keeps.

Lemma keeps_proc_create_part2 a b : keeps P (proc_create_part2 rec a b).
Proof. unfold proc_create_part2. keeps. Qed.
#[local] Hint Resolve keeps_proc_create_part2 : keeps.

Lemma keeps_take_slot a : keeps P (take_slot a).
Proof. unfold take_slot. keeps. Qed.
#[local] Hint Resolve keeps_take_slot : keeps.

Lemma keeps_create_objects a b : keeps P (create_objects a b).
Proof. unfold create_objects. keeps. Qed.
#[local] Hint Resolve keeps_create_objects : keeps.

Lemma keeps_proc_create a b c d e : keeps P (proc_create rec a b c d e).
Proof. unfold proc_create. keeps. Qed.
#[local] Hint Resolve keeps_proc_create : keeps.

Lemma keeps_check_segfault a b c : keeps P (check_segfault a b c).
Proof. unfold check_segfault. keeps. Qed.
#[local] Hint Resolve keeps_check_segfault : keeps.

Lemma keeps_set_page_reference a b c : keeps P (set_page_reference a b c).
Proof. unfold set_page_reference. keeps. Qed.
#[local] Hint Resolve keeps_set_page_reference : keeps.

Lemma keeps_sos_VMFaultHandler_reply a b : keeps P (sos_VMFaultHandler_reply a b).
Proof. unfold sos_VMFaultHandler_reply. keeps. Qed.
#[local] Hint Resolve keeps_sos_VMFaultHandler_reply : keeps.

Lemma keeps_sos_VMFaultHandler a b c d : keeps P (sos_VMFaultHandler rec a b c d).
Proof. unfold sos_VMFaultHandler. keeps. Qed.
#[local] Hint Resolve keeps_sos_VMFaultHandler : keeps.

Lemma keeps_reply_to a b c : keeps P (reply_to a b c).
Proof. unfold reply_to. keeps. Qed.
#[local] Hint Resolve keeps_reply_to : keeps.

Lemma keeps_print_loop (n : nat) a b c : keeps P (print_loop n a b c).
Proof.
  revert c. induction n as [| n IH]; intros; cbn [print_loop]; keeps.
Qed.
#[local] Hint Resolve keeps_print_loop : keeps.

Lemma keeps_serv_sys_print a b : keeps P (serv_sys_print a b).
Proof. unfold serv_sys_print. keeps. Qed.
#[local] Hint Resolve keeps_serv_sys_print : keeps.

Lemma keeps_serv_sys_open_end a b c : keeps P (serv_sys_open_end a b c).
Proof. unfold serv_sys_open_end. keeps. Qed.
#[local] Hint Resolve keeps_serv_sys_open_end : keeps.

Lemma keeps_read_string a b : keeps P (read_string a b).
Proof. unfold read_string. keeps. Qed.
#[local] Hint Resolve keeps_read_string : keeps.

Lemma keeps_serv_sys_open_copyin_cb a b : keeps P (serv_sys_open_copyin_cb rec a b).
Proof. unfold serv_sys_open_copyin_cb. keeps. Qed.
#[local] Hint Resolve keeps_serv_sys_open_copyin_cb : keeps.

Lemma keeps_serv_sys_open a b c d : keeps P (serv_sys_open rec a b c d).
Proof. unfold serv_sys_open. keeps. Qed.
#[local] Hint Resolve keeps_serv_sys_open : keeps.

Lemma keeps_serv_sys_close a b : keeps P (serv_sys_close a b).
Proof. unfold serv_sys_close. keeps. Qed.
#[local] Hint Resolve keeps_serv_sys_close : keeps.

Lemma keeps_serv_sys_read_end a b c d : keeps P (serv_sys_read_end rec a b c d).
Proof. unfold serv_sys_read_end. keeps. Qed.
#[local] Hint Resolve keeps_serv_sys_read_end : keeps.

Lemma keeps_serv_sys_read a b c d : keeps P (serv_sys_read rec a b c d).
Proof. unfold serv_sys_read. keeps. Qed.
#[local] Hint Resolve keeps_serv_sys_read : keeps.

Lemma keeps_serv_sys_write_end a b : keeps P (serv_sys_write_end a b).
Proof. unfold serv_sys_write_end. keeps. Qed.
#[local] Hint Resolve keeps_serv_sys_write_end : keeps.

Lemma keeps_serv_sys_write_do_write a b : keeps P (serv_sys_write_do_write rec a b).
Proof. unfold serv_sys_write_do_write. keeps. Qed.
#[local] Hint Resolve keeps_serv_sys_write_do_write : keeps.

Lemma keeps_serv_sys_write_copyin a b c : keeps P (serv_sys_write_copyin rec a b c).
Proof. unfold serv_sys_write_copyin. keeps. Qed.
#[local] Hint Resolve keeps_serv_sys_write_copyin : keeps.

Lemma keeps_serv_sys_write_get_kbuf a b : keeps P (serv_sys_write_get_kbuf rec a b).
Proof. unfold serv_sys_write_get_kbuf. keeps. Qed.
#[local] Hint Resolve keeps_serv_sys_write_get_kbuf : keeps.

Lemma keeps_serv_sys_write a b c d : keeps P (serv_sys_write rec a b c d).
Proof. unfold serv_sys_write. keeps. Qed.
#[local] Hint Resolve keeps_serv_sys_write : keeps.

Lemma keeps_serv_sys_getdirent_end a b c : keeps P (serv_sys_getdirent_end a b c).
Proof. unfold serv_sys_getdirent_end. keeps. Qed.
#[local] Hint Resolve keeps_serv_sys_getdirent_end : keeps.

Lemma keeps_serv_sys_getdirent a b c d : keeps P (serv_sys_getdirent rec a b c d).
Proof. unfold serv_sys_getdirent. keeps. Qed.
#[local] Hint Resolve keeps_serv_sys_getdirent : keeps.

Lemma keeps_serv_sys_stat_end a b : keeps P (serv_sys_stat_end a b).
Proof. unfold serv_sys_stat_end. keeps. Qed.
#[local] Hint Resolve keeps_serv_sys_stat_end : keeps.

Lemma keeps_serv_sys_stat_copyin_cb a b : keeps P (serv_sys_stat_copyin_cb rec a b).
Proof. unfold serv_sys_stat_copyin_cb. keeps. Qed.
#[local] Hint Resolve keeps_serv_sys_stat_copyin_cb : keeps.

Lemma keeps_serv_sys_stat a b c d : keeps P (serv_sys_stat rec a b c d).
Proof. unfold serv_sys_stat. keeps. Qed.
#[local] Hint Resolve keeps_serv_sys_stat : keeps.

Lemma keeps_serv_proc_create_end a b c : keeps P (serv_proc_create_end a b c).
Proof. unfold serv_proc_create_end. keeps. Qed.
#[local] Hint Resolve keeps_serv_proc_create_end : keeps.

Lemma keeps_serv_proc_create_part2 a b : keeps P (serv_proc_create_part2 rec a b).
Proof. unfold serv_proc_create_part2. keeps. Qed.
#[local] Hint Resolve keeps_serv_proc_create_part2 : keeps.

Lemma keeps_serv_proc_create a b c d : keeps P (serv_proc_create rec a b c d).
Proof. unfold serv_proc_create. keeps. Qed.
#[local] Hint Resolve keeps_serv_proc_create : keeps.

Lemma keeps_serv_proc_destroy a b : keeps P (serv_proc_destroy rec a b).
Proof. unfold serv_proc_destroy. keeps. Qed.
#[local] Hint Resolve keeps_serv_proc_destroy : keeps.

Lemma keeps_serv_proc_get_id a : keeps P (serv_proc_get_id a).
Proof. unfold serv_proc_get_id. keeps. Qed.
#[local] Hint Resolve keeps_serv_proc_get_id : keeps.

Lemma keeps_serv_proc_wait_cb a b : keeps P (serv_proc_wait_cb a b).
Proof. unfold serv_proc_wait_cb. keeps. Qed.
#[local] Hint Resolve keeps_serv_proc_wait_cb : keeps.

Lemma keeps_serv_proc_wait a b : keeps P (serv_proc_wait a b).
Proof. unfold serv_proc_wait. keeps. Qed.
#[local] Hint Resolve keeps_serv_proc_wait : keeps.

Lemma keeps_serv_proc_status_end a b : keeps P (serv_proc_status_end a b).
Proof. unfold serv_proc_status_end. keeps. Qed.
#[local] Hint Resolve keeps_serv_proc_status_end : keeps.

Lemma keeps_status_loop l a b c : keeps P (status_loop l a b c).
Proof.
  revert a b c. induction l as [| x l IH]; intros; cbn [status_loop]; keeps.
Qed.
#[local] Hint Resolve keeps_status_loop : keeps.

Lemma keeps_serv_proc_status a b c : keeps P (serv_proc_status rec a b c).
Proof. unfold serv_proc_status. keeps. Qed.
#[local] Hint Resolve keeps_serv_proc_status : keeps.

Lemma keeps_serv_sys_timestamp a : keeps P (serv_sys_timestamp a).
Proof. unfold serv_sys_timestamp. keeps. Qed.
#[local] Hint Resolve keeps_serv_sys_timestamp : keeps.

Lemma keeps_sleep_callback a : keeps P (sleep_callback a).
Proof. unfold sleep_callback. keeps. Qed.
#[local] Hint Resolve keeps_sleep_callback : keeps.

Lemma keeps_sys_sleep a b : keeps P (sys_sleep a b).
Proof. unfold sys_sleep. keeps. Qed.
#[local] Hint Resolve keeps_sys_sleep : keeps.

Lemma keeps_serv_sys_sleep a b : keeps P (serv_sys_sleep a b).
Proof. unfold serv_sys_sleep. keeps. Qed.
#[local] Hint Resolve keeps_serv_sys_sleep : keeps.

Lemma keeps_serv_sys_sbrk a b : keeps P (serv_sys_sbrk a b).
Proof. unfold serv_sys_sbrk. keeps. Qed.
#[local] Hint Resolve keeps_serv_sys_sbrk : keeps.

Lemma keeps_first_process_created : keeps P first_process_created.
Proof. unfold first_process_created. keeps. Qed.
#[local] Hint Resolve keeps_first_process_created : keeps.

Lemma keeps_exec_frame a b c : keeps P (exec_frame rec a b c).
Proof. unfold exec_frame. keeps. Qed.
#[local] Hint Resolve keeps_exec_frame : keeps.

Lemma keeps_exec_err a b c : keeps P (exec_err rec a b c).
Proof. unfold exec_err. keeps. Qed.
#[local] Hint Resolve keeps_exec_err : keeps.

Lemma keeps_exec_vnode a b c d : keeps P (exec_vnode rec a b c d).
Proof. unfold exec_vnode. keeps. Qed.
#[local] Hint Resolve keeps_exec_vnode : keeps.

Lemma keeps_exec_proc a b c d : keeps P (exec_proc a b c d).
Proof. unfold exec_proc. keeps. Qed.
#[local] Hint Resolve keeps_exec_proc : keeps.

Lemma keeps_exec_timer a b c : keeps P (exec_timer a b c).
Proof. unfold exec_timer. keeps. Qed.
#[local] Hint Resolve keeps_exec_timer : keeps.

Lemma keeps_exec a : keeps P (exec rec a).
Proof. unfold exec. keeps. Qed.
#[local] Hint Resolve keeps_exec : keeps.

Lemma keeps_handle_syscall a b c : keeps P (handle_syscall rec a b c).
Proof. unfold handle_syscall. keeps. Qed.

Lemma keeps_handle_pagefault a : keeps P (handle_pagefault rec a).
Proof. unfold handle_pagefault. keeps. Qed.

Lemma keeps_network_irq l : keeps P (network_irq rec l).
Proof.
  induction l as [| p l IH]; cbn [network_irq]; [apply keeps_ret |].
  unfold deliver_reply, deliver, deliver_lookup, deliver_read, deliver_write. keeps.
Qed.

Lemma keeps_start_first_process a b : keeps P (start_first_process rec a b).
Proof. unfold start_first_process, proc_list_init. keeps. Qed.

Lemma keeps_filesystem_init : keeps P filesystem_init.
Proof. unfold filesystem_init. keeps. Qed.

End calls.

Lemma keeps_run n c : keeps P (run n c).
Proof.
  revert c. induction n as [| n IH]; intros c; [apply keeps_fail |].
  by apply keeps_exec.
Qed.

(** One round of the event loop. *)
Lemma step_keeps n ipc_ep i :
  (∀ m, keeps P (timer_interrupt (run m))) →
  (∀ f, (∀ c, timers (f c) = timers c ∧ ntimers (f c) = ntimers c) → keeps P (mod_clock f)) →
  keeps P (step n ipc_ep i).
Proof.
  intros Ht Hc. destruct i; cbn [step].
  - pose proof keeps_set_cur_proc. pose proof (keeps_network_irq (run n) (keeps_run n)).
    pose proof (keeps_handle_syscall (run n) (keeps_run n)).
    pose proof (keeps_handle_pagefault (run n) (keeps_run n)). keeps; auto.
  - by apply Hc.
Qed.

End kernel.
