(* ===== verification/KernelInv.v ===== *)
(** Invariants of every run of SOS.

    Whatever the processes, the devices and the NFS server do, and whatever seL4
    and malloc answer, in every state the event loop reaches the free frames are
    exactly the chained ones and the queue of timeouts is ordered.  The last part has
    what the expiry of timeouts does, with the callbacks that SOS registers. *)

From S2P Require Import Prelude UtAllocator Sos Hoare Mapping SwapSlots FrameTable FrameInv.
From S2P Require Import FrameAlloc ProcTable Clock ClockInv NfsDev Syscalls Machine Invariants.

(** * Properties of one part only *)

(** A property that does not depend on the frame table. *)
Lemma ft_free_stable (P : sos → Prop) :
  Stable P → (∀ t s, P s → P (set_s_ft t s)) → FtStable P.
Proof.
  intros HS Hft.
  assert (∀ i f, keeps P (upd_frame i f)) as Hu.
  { intros. unfold upd_frame. keeps. }
  assert (∀ f, keeps P (mod_ft f)) as Hm by (intros; apply keeps_modify; auto).
  split; intros; auto.
  - unfold take_frame, map_to_sel4, map_page, map_page_table, cspace_ut_retype_addr, ut_allocM,
      ut_freeM, invoke, bzero, get_frame. keeps; auto.
  - unfold frame_free, check_frame, check_allocated, bad_id, get_frame. keeps; auto.
Qed.

(** A property that does not depend on the clock. *)
Lemma clock_free_stable (P : sos → Prop) :
  (∀ c s, P s → P (set_s_clock c s)) → ClockStable P.
Proof.
  intros Hc. split. intros. unfold register_timer, mod_clock. keeps.
Qed.

Lemma clock_free_interrupt (P : sos → Prop) :
  Stable P → (∀ c s, P s → P (set_s_clock c s)) →
  ∀ rec, (∀ c, keeps P (rec c)) → keeps P (timer_interrupt rec).
Proof.
  intros HS Hc rec Hrec.
  assert (∀ f, keeps P (mod_clock f)) as Hm by (intros; apply keeps_modify; auto).
  assert (∀ fuel t i, keeps P (run_expired rec fuel t i)) as Hr.
  { induction fuel as [| fuel IH]; intros; cbn [run_expired]; [apply keeps_fail |].
    pose proof (λ c, keeps_call_ P rec c (Hrec c)). keeps; auto. }
  unfold timer_interrupt, check_timeout, time_stamp, update_var_timer, lift_clock, invoke.
  keeps; auto.
Qed.

Section start_timer.
Context (P : sos → Prop) `{!Stable P} (Hv : ∀ v s, P s → P (set_s_virt v s)).

Lemma keeps_map_device paddr size : keeps P (map_device paddr size).
Proof.
  assert (∀ fuel vstart size phys virt, keeps P (map_device_loop fuel vstart size phys virt)) as Hl.
  { induction fuel as [| fuel IH]; intros; cbn [map_device_loop]; [apply keeps_fail |].
    unfold map_page, map_page_table, cspace_ut_retype_addr, ut_allocM, ut_freeM, invoke. keeps; auto. }
  unfold map_device. keeps; auto.
Qed.

Lemma keeps_start_timer ep :
  (∀ c s, P s → P (set_s_clock c s)) → keeps P (start_timer ep).
Proof.
  intros Hc. pose proof keeps_map_device.
  assert (∀ f, keeps P (mod_clock f)) as Hm by (intros; apply keeps_modify; auto).
  unfold start_timer, stop_timer, enable_irq, invoke. keeps; auto.
Qed.

End start_timer.

(** What every run of SOS keeps. *)
Lemma sos_steps_keep (P : sos → Prop) `{!Stable P, !FtStable P, !ClockStable P} :
  (∀ ep, keeps P (start_timer ep)) → (∀ m, keeps P (timer_interrupt (run m))) →
  (∀ f, (∀ c, timers (f c) = timers c ∧ ntimers (f c) = ntimers c) → keeps P (mod_clock f)) →
  ∀ s s', rtc sos_step s s' → P s → P s'.
Proof.
  intros Hst Hti Hcl. induction 1 as [s | s s1 s' H _ IH]; intros HP; [done |].
  apply IH. destruct H as [ep r s s1 H | s s1 H | n tty ep s s1 H | n ep i s s1 H].
  - by apply (Hst ep s r).
  - by apply (keeps_filesystem_init P s tt).
  - by apply (keeps_start_first_process P (run n) (keeps_run P n) tty ep s tt).
  - by apply (step_keeps P n ep i Hti Hcl s tt).
Qed.

(** * The frame table *)

#[export] Instance clock_stable_ft_inv : ClockStable ft_inv.
Proof. by apply clock_free_stable. Qed.

(** [C1] From [frame_init] on, the frame table is sound in every state SOS
    reaches: the chain from [_first_free] has no repetition and runs through
    exactly the frames that are not allocated, the table's own frames stay
    allocated, and the victim pointer stays in range.  This holds for every
    sequence of system calls, faults, interrupts and NFS replies, through all
    callbacks they cause, in every environment.  A state is reached by rounds that
    return: an access to memory that the accessing code may not use, such as a copy
    into the bytes of the table itself, is a fault and ends the run. *)
Theorem frame_table_invariant (s0 s1 s : sos) :
  0 ≤ victim (s_ft s0) < NFRAMES → frame_init s0 = Ret (0, s1) → rtc sos_step s1 s → ft_inv s.
Proof.
  intros Hv H0 Hs. apply frame_init_ft_inv in H0; [| done]. revert H0.
  apply (sos_steps_keep ft_inv); [| | | done].
  - intros ep. by apply keeps_start_timer; [apply _ |..].
  - intros m. apply clock_free_interrupt; [apply _ | done |]. intros c. apply keeps_run; apply _.
  - intros f _. by apply keeps_modify.
Qed.

(** * The queue of timeouts *)

#[export] Instance stable_clock_ge k : Stable (clock_ge k).
Proof. by split. Qed.

#[export] Instance ft_stable_clock_ge k : FtStable (clock_ge k).
Proof. apply ft_free_stable; [apply _ | done]. Qed.

#[export] Instance clock_stable_clock_ge k : ClockStable (clock_ge k).
Proof.
  split. intros delay cb data s id s' [Hok Hk] H. unfold register_timer, mod_clock in H.
  apply M_bind_Ret in H as (c & s1 & H1 & H). minv1 H1.
  apply M_bind_Ret in H as (p & s2 & H2 & H). minv1 H2. destruct a as [id' c']. minv1 H.
  apply register_timer_in_ok in L as [Hok' Hn]; [| done]. split; [done |]. cbn. lia.
Qed.

#[export] Instance ft_stable_clock_inv : FtStable clock_inv.
Proof. apply ft_free_stable; [apply _ | done]. Qed.

#[export] Instance clock_stable_clock_inv : ClockStable clock_inv.
Proof.
  split. intros delay cb data s id s' Hok H.
  destruct (cs_register (P := clock_ge 0) delay cb data s id s') as [? _]; [| done | done].
  split; [done | apply Hok].
Qed.

(** The array of timeouts has its length. *)
Definition timers_len (s : sos) : Prop := Zlength (timers (s_clock s)) = CLOCK_N_TIMERS.

#[export] Instance stable_timers_len : Stable timers_len.
Proof. by split. Qed.

Lemma start_timer_clock ep s r s' :
  timers_len s → start_timer ep s = Ret (r, s') → clock_inv s'.
Proof.
  intros Hl H. unfold start_timer in H.
  apply M_bind_Ret in H as (ini & s1 & H1 & H). minv1 H1.
  apply M_bind_Ret in H as (r1 & s2 & H1 & H).
  assert (timers_len s2) as Hl2.
  { assert (keeps timers_len (if clk_initialised (s_clock s) then stop_timer else mret 0)) as Hk.
    { assert (∀ f, (∀ c, timers (f c) = timers c) → keeps timers_len (mod_clock f)) as Hm.
      { intros f Hf. apply keeps_modify. intros s3. unfold timers_len. cbn. by rewrite Hf. }
      unfold stop_timer, invoke. repeat first [keeps_step | apply Hm; done]. }
    by eapply Hk. }
  apply M_bind_Ret in H as (u & s3 & H2 & H). unfold mod_clock in H2 at 1. minv1 H2.
  match type of H with ?m ?s3 = _ => assert (clock_inv s3) as Hok end.
  { unfold clock_inv. cbn. split; cbn; [| done | constructor].
    unfold timers_len, Zlength in *. by rewrite length_imap. }
  revert H. generalize (set_s_clock (set_timers (imap reset_timer (timers (s_clock s2)))
    (set_jiffy 0 (set_ntimers 0 (s_clock s2)))) s2), Hok. clear. intros s Hok H.
  match type of H with ?m s = _ => assert (keeps clock_inv m) as Hk end.
  { assert (∀ paddr size, keeps clock_inv (map_device paddr size)) by (by apply keeps_map_device).
    unfold enable_irq, invoke. repeat first [keeps_step | apply keeps_mod_clock; done | auto]. }
  by eapply Hk.
Qed.

(** [C19] From [start_timer] on, the queue of timeouts is within its array and in
    order of end time in every state SOS reaches, however timeouts are registered
    and expire, callbacks that register again included. *)
Theorem timer_queue_invariant (ep r : Z) (s0 s1 s : sos) :
  Zlength (timers (s_clock s0)) = CLOCK_N_TIMERS → start_timer ep s0 = Ret (r, s1) →
  rtc sos_step s1 s → clock_inv s.
Proof.
  intros Hl H0 Hs. apply start_timer_clock in H0; [| done]. revert H0.
  apply (sos_steps_keep clock_inv); [| | | done].
  - intros ep' s2 r' s3 Hok H. by apply (start_timer_clock ep' s2 r'); [apply Hok |].
  - intros m. apply timer_interrupt_inv. intros k c. apply keeps_run; apply _.
  - intros f Hf. by apply keeps_mod_clock.
Qed.

(** ** Expiry *)

Lemma keeps_clock_sleep c data : keeps (λ s, s_clock s = c) (sleep_callback data).
Proof.
  assert (Stable (λ s, s_clock s = c)) by (by split).
  unfold sleep_callback, is_proc_alive, cspace_free_slot, reply_to, set_cur_proc, proc_getproc, mod_proc, invoke. keeps.
Qed.

(** What the two callbacks of SOS do to the queue: the one of [sys_sleep] leaves it
    alone, the one of libnfs registers itself again while there is room. *)
Lemma run_timer n t tm s z s' :
  t + 100000 < 2 ^ 64 → clock_at t s →
  run n (CallTimer (t_callback tm) (t_id tm) (t_data tm)) s = Ret (z, s') →
  clock_at t s' ∧ ∃ news, renewed t [tm] news (unused (s_clock s)) ∧
    pending (s_clock s') = insert_timers (pending (s_clock s)) news.
Proof.
  intros Hmax Ha H. destruct n as [| n]; [done |]. cbn [run exec] in H.
  apply M_bind_Ret in H as (u & s1 & H & H1). injection H1 as _ <-. unfold renewed, renewals.
  rewrite filter_cons, filter_nil. destruct Ha as [Hok Hi Ht].
  destruct (t_callback tm) eqn:Ecb; cbn [exec_timer] in H; cbn [length Nat.min].
  - apply keeps_clock_sleep with (c := s_clock s) in H; [| done].
    split; [unfold clock_inv in *; by split; unfold clock_inv; rewrite H |]. exists []. rewrite H. done.
  - unfold nfs_dev_timeout_handler, register_timer, mod_clock in H.
    apply M_bind_Ret in H as (id & s2 & H & H2). injection H2 as _ <-.
    revert H. mpure. intros H. apply M_bind_Ret in H as (p & s3 & H3 & H). minv1 H3. destruct a as [id' c']. minv1 H.
    pose proof (register_timer_time _ _ _ _ _ _ L) as [Et Ei].
    pose proof (register_timer_in_ok _ _ _ _ _ _ Hok L) as [Hok' _].
    split; [split; cbn; [done | congruence | congruence] |]. cbn [s_clock set_s_clock].
    destruct (decide (ntimers (s_clock s) = CLOCK_N_TIMERS)) as [Hfull | Hroom].
    + exists []. unfold unused, register_timer_in in *. rewrite Hi in L. cbn [negb] in L.
      rewrite c_assert_true in L by (unfold ntimers_ok; by rewrite Hfull).
      cbn [mbind outcome_bind] in L. rewrite Hfull, Z.eqb_refl in L. injection L as _ <-.
      rewrite Hfull, Z.sub_diag. split; [| done]. split; [done |]. symmetry. apply Nat.min_0_r.
    + pose proof Hok as [_ Hn _].
      destruct (register_timer_spec (s_clock s) 100000 cb_nfs_dev_timeout_handler 0 Hok Hi ltac:(lia)) as (x & c1 & _ & E & _ & Hp).
      rewrite L in E. injection E as _ ->.
      exists [mk_timer (t_id x) (t + 100000) cb_nfs_dev_timeout_handler 0 true].
      assert (0 ≤ t) as H0 by (rewrite <- Ht; unfold time_of; destruct (negb _); by apply Z.mod_pos_bound).
      split; [split; [constructor; [by eexists | done] | unfold unused; cbn [length]; rewrite decide_True by done; cbn [length]; lia] |].
      rewrite Hp, Ht. unfold u64. by rewrite Z.mod_small by lia.
Qed.

Lemma time_initialised c : time_of c + 100000 < 2 ^ 64 → clk_initialised c = true.
Proof. unfold time_of. destruct (clk_initialised c); [done |]. cbn [negb]. by vm_compute. Qed.

(** [C20] [_check_timeout] with the callbacks of SOS: it runs the callbacks of the
    timeouts that are due, each once and in order of end time.  The others stay in
    the queue; each timeout of libnfs that was due has registered a new one, 100 ms
    later, unless the queue was full, and the new ones wait in their places among
    the others.  It faults only when one of the callbacks does. *)
Theorem check_timeout_correct (n : nat) (s : sos) :
  let t := time_of (s_clock s) in
  let due := filter (expired t) (pending (s_clock s)) in
  let rest := filter (λ tm, ¬ expired t tm) (pending (s_clock s)) in
  clock_inv s → Forall (λ tm, t_registered tm = true) (pending (s_clock s)) → t + 100000 < 2 ^ 64 →
  match fire (run n) due 0 s with
  | Fault f => check_timeout (run n) t s = Fault f
  | Ret (_, s1) => ∃ s' news, check_timeout (run n) t s = Ret (tt, s') ∧ s' = set_s_clock (s_clock s') s1 ∧
      pending (s_clock s') = insert_timers rest news ∧ Forall (nfs_timer t) news ∧
      length news = Nat.min (renewals due) (Z.to_nat (CLOCK_N_TIMERS - ntimers (s_clock s))) ∧
      clock_inv s' ∧ Forall (λ tm, t_registered tm = true) (pending (s_clock s'))
  end.
Proof.
  intros t due rest Hok Hreg Hmax. pose proof (time_initialised _ Hmax) as Hi.
  pose proof (check_timeout_fire (run n) t (λ tm s z s', run_timer n t tm s z s' Hmax) s) as H.
  specialize (H ltac:(by split) Hreg). cbv zeta in H. fold due rest in H.
  destruct (fire (run n) due 0 s) as [[u s1] | f]; [| done].
  destruct H as (s' & news & E & Es & Hp & Hnew & Hlen). exists s', news.
  split_and!; [done.. | |].
  - eapply (check_timeout_inv (run n)); [| exact Hok | exact E]. intros k c. apply keeps_run; apply _.
  - rewrite Hp, insert_timers_perm. apply Forall_app. split.
    + eapply Forall_impl; [exact Hnew |]. by intros ? [id ->].
    + rewrite Forall_forall in Hreg |- *. intros tm [_ ?]%list_elem_of_filter. auto.
Qed.

(** * Examples *)

(** The result of a computation that is known to return. *)
Definition returns {A : Type} (o : outcome (A * sos)) : bool :=
  match o with Ret _ => true | Fault _ => false end.

Lemma returns_Ret {A : Type} (o : outcome (A * sos)) :
  returns o = true → ∃ a s, o = Ret (a, s).
Proof. destruct o as [[a s] |]; [eauto | done]. Qed.

(** seL4 gives capability 1 for the interrupt handlers, and never fails. *)
Definition env_irq : env :=
  mk_env (λ _, true) (λ n, if (n =? 0)%nat || (n =? 15)%nat then 1 else 0) (λ _, rpc_sent)
    (λ _, 1) (λ _, true) (λ _, 0) 0.

(** A character arrives; the timer interrupts. *)
Definition serial_input : input :=
  InMessage (Z.lor IRQ_EP_BADGE IRQ_BADGE_NETWORK) 0 [] 0 [PktSerial 65].
Definition timer_input : input := InMessage (Z.lor IRQ_EP_BADGE IRQ_BADGE_TIMER) 0 [] 0 [].

Lemma frame_table_invariant_witness :
  ∃ s1 s, frame_init (sos_start env_ok ut_example) = Ret (0, s1) ∧ rtc sos_step s1 s ∧ ft_inv s.
Proof.
  assert (match frame_init (sos_start env_ok ut_example) with
          | Ret (r, s1) => (r =? 0) && returns (step 10 0 serial_input s1)
          | Fault _ => false end = true) as H by (vm_compute; reflexivity).
  destruct (frame_init (sos_start env_ok ut_example)) as [[r s1] |] eqn:E; [| discriminate H].
  apply andb_true_iff in H as [Hr H]. apply Z.eqb_eq in Hr as ->.
  destruct (returns_Ret _ H) as ([] & s & Es).
  assert (rtc sos_step s1 s) as Hs by (apply rtc_once; exact (do_round 10 0 serial_input s1 s Es)).
  exists s1, s. split; [reflexivity |]. split; [exact Hs |].
  refine (frame_table_invariant (sos_start env_ok ut_example) s1 s _ E Hs).
  split; [apply Z.le_refl | reflexivity].
Defined.

Lemma timer_queue_invariant_witness :
  ∃ s1 s, start_timer 1 (sos_start env_irq ut_example) = Ret (0, s1) ∧ rtc sos_step s1 s ∧
    clock_inv s.
Proof.
  assert (match start_timer 1 (sos_start env_irq ut_example) with
          | Ret (r, s1) => (r =? 0) && returns (step 10 0 timer_input s1)
          | Fault _ => false end = true) as H by (vm_compute; reflexivity).
  destruct (start_timer 1 (sos_start env_irq ut_example)) as [[r s1] |] eqn:E; [| discriminate H].
  apply andb_true_iff in H as [Hr H]. apply Z.eqb_eq in Hr as ->.
  destruct (returns_Ret _ H) as ([] & s & Es).
  assert (rtc sos_step s1 s) as Hs by (apply rtc_once; exact (do_round 10 0 timer_input s1 s Es)).
  exists s1, s. split; [reflexivity |]. split; [exact Hs |].
  refine (timer_queue_invariant 1 0 (sos_start env_irq ut_example) s1 s _ E Hs). reflexivity.
Defined.

(** A timeout of libnfs is due; a process sleeps for 200 ms. *)
Definition clock_example_nfs : clockst :=
  match register_timer_in (register_example clock_example 200000) 0 cb_nfs_dev_timeout_handler 0 with
  | Ret (_, c) => c
  | Fault _ => clock_example
  end.

Lemma check_timeout_correct_witness :
  let s := set_s_clock clock_example_nfs (sos_start env_ok ut_example) in
  ∃ s', check_timeout (run 1) 0 s = Ret (tt, s') ∧
    (λ tm, (t_callback tm, t_endtime tm)) <$> pending (s_clock s') =
      [(cb_nfs_dev_timeout_handler, 100000); (cb_sleep_callback, 200000)].
Proof.
  set (s := set_s_clock clock_example_nfs (sos_start env_ok ut_example)).
  pose proof (check_timeout_correct 1 s) as H. cbv zeta in H.
  assert (clock_inv s) as Hok.
  { unfold clock_inv. cbn [s s_clock set_s_clock]. unfold clock_example_nfs.
    destruct (register_timer_in _ 0 _ 0) as [[id c] |] eqn:E; [| apply clock_example_ok].
    eapply register_timer_in_ok; [| exact E]. apply register_example_ok, clock_example_ok. }
  assert (Forall (λ tm, t_registered tm = true) (pending (s_clock s))) as Hreg.
  { vm_compute. repeat constructor. }
  assert (time_of (s_clock s) = 0) as Et by (vm_compute; reflexivity).
  rewrite Et in H. specialize (H Hok Hreg eq_refl).
  destruct (fire _ _ 0 s) as [[u s1] | f] eqn:Ef; [| vm_compute in Ef; discriminate Ef].
  destruct H as (s' & news & E & _ & Hp & Hnew & Hlen & _). exists s'. split; [exact E |]. rewrite Hp.
  replace (Nat.min _ _) with 1%nat in Hlen by (vm_compute; reflexivity).
  destruct news as [| x [| y news]]; [discriminate Hlen | | discriminate Hlen].
  apply Forall_cons in Hnew as [[id ->] _]. vm_compute. reflexivity.
Defined.
