(* ===== verification/Fuel.v ===== *)
(** The bound on nested calls does not matter.

    [run n] cuts off calls through function pointers that are nested more than
    [n] deep.  When the bound is not hit, a larger one gives the same result and
    the same state, for every function of SOS and for a round of the event loop,
    so that what is shown with some bound holds with every larger one. *)

From S2P Require Import Prelude UtAllocator Sos Hoare Mapping SwapSlots FrameTable FrameInv.
From S2P Require Import ProcTable AddrSpace PageTable Swap CopyInOut Clock Console NfsDev Vfs.
From S2P Require Import FileTable Elf Process Vm Syscalls Machine Invariants KernelInv.

(** [m'] does what [m] does, unless [m] runs out of fuel. *)
Definition le_fuel {A : Type} (m m' : M A) : Prop :=
  ∀ s, m s = Fault OutOfFuel ∨ m s = m' s.

Infix "⪅" := le_fuel (at level 70) : sos_scope.
#[local] Open Scope sos_scope.

#[export] Instance le_fuel_refl {A : Type} : Reflexive (@le_fuel A).
Proof. intros m s. by right. Qed.

#[export] Instance le_fuel_trans {A : Type} : Transitive (@le_fuel A).
Proof.
  intros m1 m2 m3 H1 H2 s. destruct (H1 s) as [? | ->]; [by left |]. apply H2.
Qed.

Lemma le_fuel_bind {A B : Type} (m m' : M A) (k k' : A → M B) :
  m ⪅ m' → (∀ a, k a ⪅ k' a) → (m ≫= k) ⪅ (m' ≫= k').
Proof.
  intros Hm Hk s. unfold mbind, M_bind. destruct (Hm s) as [-> | ->]; [by left |].
  destruct (m' s) as [[a s1] |]; [apply Hk | by right].
Qed.

Create HintDb fuel.

(** Walk through the code of a function under both bounds. *)
Ltac fuel_step :=
  match goal with
  | |- ?m ⪅ ?m => reflexivity
  | |- (mbind _ _) ⪅ (mbind _ _) => apply le_fuel_bind; [| intros ?]
  | |- (let _ := _ in _) ⪅ _ => cbv zeta
  | |- (if ?b then _ else _) ⪅ _ => destruct b
  | |- (match ?x with _ => _ end) ⪅ _ => destruct x
  | |- _ ⪅ _ => solve [eauto 2 with fuel]
  end.

Ltac fuel := repeat fuel_step.

Section fuel.
Context (rec rec' : interp) (Hrec : ∀ c, rec c ⪅ rec' c).

#[local] Hint Resolve Hrec : fuel.

Lemma fuel_call_ c : call_ rec c ⪅ call_ rec' c.
Proof. unfold call_. fuel. Qed.
#[local] Hint Resolve fuel_call_ : fuel.

Lemma fuel_frame_alloc_end a b : frame_alloc_end rec a b ⪅ frame_alloc_end rec' a b.
Proof. unfold frame_alloc_end. fuel. Qed.
#[local] Hint Resolve fuel_frame_alloc_end : fuel.

Lemma fuel_frame_alloc a b c d e f : frame_alloc rec a b c d e f ⪅ frame_alloc rec' a b c d e f.
Proof. unfold frame_alloc. fuel. Qed.
#[local] Hint Resolve fuel_frame_alloc : fuel.

Lemma fuel_as_create_end a b : as_create_end rec a b ⪅ as_create_end rec' a b.
Proof. unfold as_create_end. fuel. Qed.
#[local] Hint Resolve fuel_as_create_end : fuel.

Lemma fuel_as_create_pagedir_regs_allocated a b : as_create_pagedir_regs_allocated rec a b ⪅ as_create_pagedir_regs_allocated rec' a b.
Proof. unfold as_create_pagedir_regs_allocated. fuel. Qed.
#[local] Hint Resolve fuel_as_create_pagedir_regs_allocated : fuel.

Lemma fuel_as_create_pagedir_caps_allocated a b : as_create_pagedir_caps_allocated rec a b ⪅ as_create_pagedir_caps_allocated rec' a b.
Proof. unfold as_create_pagedir_caps_allocated. fuel. Qed.
#[local] Hint Resolve fuel_as_create_pagedir_caps_allocated : fuel.

Lemma fuel_as_create a b c : as_create rec a b c ⪅ as_create rec' a b c.
Proof. unfold as_create. fuel. Qed.
#[local] Hint Resolve fuel_as_create : fuel.

Lemma fuel_pm_finish a b : pm_finish rec a b ⪅ pm_finish rec' a b.
Proof. unfold pm_finish. fuel. Qed.
#[local] Hint Resolve fuel_pm_finish : fuel.

Lemma fuel_sos_page_map_5 a b : sos_page_map_5 rec a b ⪅ sos_page_map_5 rec' a b.
Proof. unfold sos_page_map_5. fuel. Qed.
#[local] Hint Resolve fuel_sos_page_map_5 : fuel.

Lemma fuel_sos_page_map_4_alloc_frame a : sos_page_map_4_alloc_frame rec a ⪅ sos_page_map_4_alloc_frame rec' a.
Proof. unfold sos_page_map_4_alloc_frame. fuel. Qed.
#[local] Hint Resolve fuel_sos_page_map_4_alloc_frame : fuel.

Lemma fuel_sos_page_map_3 a b : sos_page_map_3 rec a b ⪅ sos_page_map_3 rec' a b.
Proof. unfold sos_page_map_3. fuel. Qed.
#[local] Hint Resolve fuel_sos_page_map_3 : fuel.

Lemma fuel_sos_page_map_2_alloc_cap_pt a b : sos_page_map_2_alloc_cap_pt rec a b ⪅ sos_page_map_2_alloc_cap_pt rec' a b.
Proof. unfold sos_page_map_2_alloc_cap_pt. fuel. Qed.
#[local] Hint Resolve fuel_sos_page_map_2_alloc_cap_pt : fuel.

Lemma fuel_sos_page_map a b c d e f g : sos_page_map rec a b c d e f g ⪅ sos_page_map rec' a b c d e f g.
Proof. unfold sos_page_map. fuel. Qed.
#[local] Hint Resolve fuel_sos_page_map : fuel.

Lemma fuel_swap_init a b : swap_init rec a b ⪅ swap_init rec' a b.
Proof. unfold swap_init. fuel. Qed.
#[local] Hint Resolve fuel_swap_init : fuel.

Lemma fuel_swap_init_end a b c : swap_init_end rec a b c ⪅ swap_init_end rec' a b c.
Proof. unfold swap_init_end. fuel. Qed.
#[local] Hint Resolve fuel_swap_init_end : fuel.

Lemma fuel_swap_out_end a b : swap_out_end rec a b ⪅ swap_out_end rec' a b.
Proof. unfold swap_out_end. fuel. Qed.
#[local] Hint Resolve fuel_swap_out_end : fuel.

Lemma fuel_swap_out_4_nfs_write_cb a b c d : swap_out_4_nfs_write_cb rec a b c d ⪅ swap_out_4_nfs_write_cb rec' a b c d.
Proof. unfold swap_out_4_nfs_write_cb. fuel. Qed.
#[local] Hint Resolve fuel_swap_out_4_nfs_write_cb : fuel.

Lemma fuel_swap_out_3 a : swap_out_3 rec a ⪅ swap_out_3 rec' a.
Proof. unfold swap_out_3. fuel. Qed.
#[local] Hint Resolve fuel_swap_out_3 : fuel.

Lemma fuel_swap_out_2_init_callback a b : swap_out_2_init_callback rec a b ⪅ swap_out_2_init_callback rec' a b.
Proof. unfold swap_out_2_init_callback. fuel. Qed.
#[local] Hint Resolve fuel_swap_out_2_init_callback : fuel.

Lemma fuel_swap_out a b c : swap_out rec a b c ⪅ swap_out rec' a b c.
Proof. unfold swap_out. fuel. Qed.
#[local] Hint Resolve fuel_swap_out : fuel.

Lemma fuel_swap_in_end a b : swap_in_end rec a b ⪅ swap_in_end rec' a b.
Proof. unfold swap_in_end. fuel. Qed.
#[local] Hint Resolve fuel_swap_in_end : fuel.

Lemma fuel_swap_in_nfs_read_handler a b c d : swap_in_nfs_read_handler rec a b c d ⪅ swap_in_nfs_read_handler rec' a b c d.
Proof. unfold swap_in_nfs_read_handler. fuel. Qed.
#[local] Hint Resolve fuel_swap_in_nfs_read_handler : fuel.

Lemma fuel_swap_in_page_map_cb a b : swap_in_page_map_cb rec a b ⪅ swap_in_page_map_cb rec' a b.
Proof. unfold swap_in_page_map_cb. fuel. Qed.
#[local] Hint Resolve fuel_swap_in_page_map_cb : fuel.

Lemma fuel_swap_in a b c d e f : swap_in rec a b c d e f ⪅ swap_in rec' a b c d e f.
Proof. unfold swap_in. fuel. Qed.
#[local] Hint Resolve fuel_swap_in : fuel.

Lemma fuel_copy_end a b : copy_end rec a b ⪅ copy_end rec' a b.
Proof. unfold copy_end. fuel. Qed.
#[local] Hint Resolve fuel_copy_end : fuel.

Lemma fuel_ensure_page a b : ensure_page rec a b ⪅ ensure_page rec' a b.
Proof. unfold ensure_page. fuel. Qed.
#[local] Hint Resolve fuel_ensure_page : fuel.

Lemma fuel_copyin_do_copy a b : copyin_do_copy rec a b ⪅ copyin_do_copy rec' a b.
Proof. unfold copyin_do_copy. fuel. Qed.
#[local] Hint Resolve fuel_copyin_do_copy : fuel.

Lemma fuel_copyin a b c d e : copyin rec a b c d e ⪅ copyin rec' a b c d e.
Proof. unfold copyin. fuel. Qed.
#[local] Hint Resolve fuel_copyin : fuel.

Lemma fuel_copyout_do_copy a b : copyout_do_copy rec a b ⪅ copyout_do_copy rec' a b.
Proof. unfold copyout_do_copy. fuel. Qed.
#[local] Hint Resolve fuel_copyout_do_copy : fuel.

Lemma fuel_copyout a b c d e : copyout rec a b c d e ⪅ copyout rec' a b c d e.
Proof. unfold copyout. fuel. Qed.
#[local] Hint Resolve fuel_copyout : fuel.

Lemma fuel_con_write a b c d e f : con_write rec a b c d e f ⪅ con_write rec' a b c d e f.
Proof. unfold con_write. fuel. Qed.
#[local] Hint Resolve fuel_con_write : fuel.

Lemma fuel_con_read_end a b : con_read_end rec a b ⪅ con_read_end rec' a b.
Proof. unfold con_read_end. fuel. Qed.
#[local] Hint Resolve fuel_con_read_end : fuel.

Lemma fuel_con_read_part2 a b : con_read_part2 rec a b ⪅ con_read_part2 rec' a b.
Proof. unfold con_read_part2. fuel. Qed.
#[local] Hint Resolve fuel_con_read_part2 : fuel.

Lemma fuel_con_read a b c d e f : con_read rec a b c d e f ⪅ con_read rec' a b c d e f.
Proof. unfold con_read. fuel. Qed.
#[local] Hint Resolve fuel_con_read : fuel.

Lemma fuel_read_handler a : read_handler rec a ⪅ read_handler rec' a.
Proof. unfold read_handler. fuel. Qed.
#[local] Hint Resolve fuel_read_handler : fuel.

Lemma fuel_ni_finish a b : ni_finish rec a b ⪅ ni_finish rec' a b.
Proof. unfold ni_finish. fuel. Qed.
#[local] Hint Resolve fuel_ni_finish : fuel.

Lemma fuel_nfs_dev_create_handler a b c d : nfs_dev_create_handler rec a b c d ⪅ nfs_dev_create_handler rec' a b c d.
Proof. unfold nfs_dev_create_handler. fuel. Qed.
#[local] Hint Resolve fuel_nfs_dev_create_handler : fuel.

Lemma fuel_nfs_dev_lookup_handler a b c d : nfs_dev_lookup_handler rec a b c d ⪅ nfs_dev_lookup_handler rec' a b c d.
Proof. unfold nfs_dev_lookup_handler. fuel. Qed.
#[local] Hint Resolve fuel_nfs_dev_lookup_handler : fuel.

Lemma fuel_nfs_dev_init a b c : nfs_dev_init rec a b c ⪅ nfs_dev_init rec' a b c.
Proof. unfold nfs_dev_init. fuel. Qed.
#[local] Hint Resolve fuel_nfs_dev_init : fuel.

Lemma fuel_nfs_dev_write a b c d e f : nfs_dev_write rec a b c d e f ⪅ nfs_dev_write rec' a b c d e f.
Proof. unfold nfs_dev_write. fuel. Qed.
#[local] Hint Resolve fuel_nfs_dev_write : fuel.

Lemma fuel_nfs_dev_write_handler a b c d : nfs_dev_write_handler rec a b c d ⪅ nfs_dev_write_handler rec' a b c d.
Proof. unfold nfs_dev_write_handler. fuel. Qed.
#[local] Hint Resolve fuel_nfs_dev_write_handler : fuel.

Lemma fuel_nfs_dev_read_end a b : nfs_dev_read_end rec a b ⪅ nfs_dev_read_end rec' a b.
Proof. unfold nfs_dev_read_end. fuel. Qed.
#[local] Hint Resolve fuel_nfs_dev_read_end : fuel.

Lemma fuel_nfs_dev_read a b c d e f : nfs_dev_read rec a b c d e f ⪅ nfs_dev_read rec' a b c d e f.
Proof. unfold nfs_dev_read. fuel. Qed.
#[local] Hint Resolve fuel_nfs_dev_read : fuel.

Lemma fuel_nfs_dev_read_handler a b c d e : nfs_dev_read_handler rec a b c d e ⪅ nfs_dev_read_handler rec' a b c d e.
Proof. unfold nfs_dev_read_handler. fuel. Qed.
#[local] Hint Resolve fuel_nfs_dev_read_handler : fuel.

Lemma fuel_ng_finish a b c : ng_finish rec a b c ⪅ ng_finish rec' a b c.
Proof. unfold ng_finish. fuel. Qed.
#[local] Hint Resolve fuel_ng_finish : fuel.

Lemma fuel_nfs_dev_getdirent a b c d e f : nfs_dev_getdirent rec a b c d e f ⪅ nfs_dev_getdirent rec' a b c d e f.
Proof. unfold nfs_dev_getdirent. fuel. Qed.
#[local] Hint Resolve fuel_nfs_dev_getdirent : fuel.

Lemma fuel_nfs_dev_getdirent_handler a b c d : nfs_dev_getdirent_handler rec a b c d ⪅ nfs_dev_getdirent_handler rec' a b c d.
Proof. unfold nfs_dev_getdirent_handler. fuel. Qed.
#[local] Hint Resolve fuel_nfs_dev_getdirent_handler : fuel.

Lemma fuel_nfs_dev_getdirent_done_copyout a b : nfs_dev_getdirent_done_copyout rec a b ⪅ nfs_dev_getdirent_done_copyout rec' a b.
Proof. unfold nfs_dev_getdirent_done_copyout. fuel. Qed.
#[local] Hint Resolve fuel_nfs_dev_getdirent_done_copyout : fuel.

Lemma fuel_nfs_dev_stat a b c d : nfs_dev_stat rec a b c d ⪅ nfs_dev_stat rec' a b c d.
Proof. unfold nfs_dev_stat. fuel. Qed.
#[local] Hint Resolve fuel_nfs_dev_stat : fuel.

Lemma fuel_nfs_dev_stat_copyout_cb a b : nfs_dev_stat_copyout_cb rec a b ⪅ nfs_dev_stat_copyout_cb rec' a b.
Proof. unfold nfs_dev_stat_copyout_cb. fuel. Qed.
#[local] Hint Resolve fuel_nfs_dev_stat_copyout_cb : fuel.

Lemma fuel_nfs_dev_getstat_lookup_end a b : nfs_dev_getstat_lookup_end rec a b ⪅ nfs_dev_getstat_lookup_end rec' a b.
Proof. unfold nfs_dev_getstat_lookup_end. fuel. Qed.
#[local] Hint Resolve fuel_nfs_dev_getstat_lookup_end : fuel.

Lemma fuel_nfs_dev_getstat_lookup_cb a b c d : nfs_dev_getstat_lookup_cb rec a b c d ⪅ nfs_dev_getstat_lookup_cb rec' a b c d.
Proof. unfold nfs_dev_getstat_lookup_cb. fuel. Qed.
#[local] Hint Resolve fuel_nfs_dev_getstat_lookup_cb : fuel.

Lemma fuel_nfs_dev_getstat a b c d : nfs_dev_getstat rec a b c d ⪅ nfs_dev_getstat rec' a b c d.
Proof. unfold nfs_dev_getstat. fuel. Qed.
#[local] Hint Resolve fuel_nfs_dev_getstat : fuel.

Lemma fuel_VOP_READ a b c d e f : VOP_READ rec a b c d e f ⪅ VOP_READ rec' a b c d e f.
Proof. unfold VOP_READ. fuel. Qed.
#[local] Hint Resolve fuel_VOP_READ : fuel.

Lemma fuel_VOP_WRITE a b c d e f : VOP_WRITE rec a b c d e f ⪅ VOP_WRITE rec' a b c d e f.
Proof. unfold VOP_WRITE. fuel. Qed.
#[local] Hint Resolve fuel_VOP_WRITE : fuel.

Lemma fuel_VOP_GETDIRENT a b c d e f : VOP_GETDIRENT rec a b c d e f ⪅ VOP_GETDIRENT rec' a b c d e f.
Proof. unfold VOP_GETDIRENT. fuel. Qed.
#[local] Hint Resolve fuel_VOP_GETDIRENT : fuel.

Lemma fuel_VOP_STAT a b c d : VOP_STAT rec a b c d ⪅ VOP_STAT rec' a b c d.
Proof. unfold VOP_STAT. fuel. Qed.
#[local] Hint Resolve fuel_VOP_STAT : fuel.

Lemma fuel_vfs_open_3_end_create a b : vfs_open_3_end_create rec a b ⪅ vfs_open_3_end_create rec' a b.
Proof. unfold vfs_open_3_end_create. fuel. Qed.
#[local] Hint Resolve fuel_vfs_open_3_end_create : fuel.

Lemma fuel_vfs_open_2_create_vnode a b c d : vfs_open_2_create_vnode rec a b c d ⪅ vfs_open_2_create_vnode rec' a b c d.
Proof. unfold vfs_open_2_create_vnode. fuel. Qed.
#[local] Hint Resolve fuel_vfs_open_2_create_vnode : fuel.

Lemma fuel_vfs_open a b c d : vfs_open rec a b c d ⪅ vfs_open rec' a b c d.
Proof. unfold vfs_open. fuel. Qed.
#[local] Hint Resolve fuel_vfs_open : fuel.

Lemma fuel_vfs_stat_end a b : vfs_stat_end rec a b ⪅ vfs_stat_end rec' a b.
Proof. unfold vfs_stat_end. fuel. Qed.
#[local] Hint Resolve fuel_vfs_stat_end : fuel.

Lemma fuel_vfs_stat a b c d : vfs_stat rec a b c d ⪅ vfs_stat rec' a b c d.
Proof. unfold vfs_stat. fuel. Qed.
#[local] Hint Resolve fuel_vfs_stat : fuel.

Lemma fuel_fo_finish a b c : fo_finish rec a b c ⪅ fo_finish rec' a b c.
Proof. unfold fo_finish. fuel. Qed.
#[local] Hint Resolve fuel_fo_finish : fuel.

Lemma fuel_file_open_end a b c : file_open_end rec a b c ⪅ file_open_end rec' a b c.
Proof. unfold file_open_end. fuel. Qed.
#[local] Hint Resolve fuel_file_open_end : fuel.

Lemma fuel_file_open a b c d : file_open rec a b c d ⪅ file_open rec' a b c d.
Proof. unfold file_open. fuel. Qed.
#[local] Hint Resolve fuel_file_open : fuel.

Lemma fuel_filetable_init_end a b c : filetable_init_end rec a b c ⪅ filetable_init_end rec' a b c.
Proof. unfold filetable_init_end. fuel. Qed.
#[local] Hint Resolve fuel_filetable_init_end : fuel.

Lemma fuel_filetable_init a b c : filetable_init rec a b c ⪅ filetable_init rec' a b c.
Proof. unfold filetable_init. fuel. Qed.
#[local] Hint Resolve fuel_filetable_init : fuel.

Lemma fuel_load_segment_end a b : load_segment_end rec a b ⪅ load_segment_end rec' a b.
Proof. unfold load_segment_end. fuel. Qed.
#[local] Hint Resolve fuel_load_segment_end : fuel.

Lemma fuel_load_segment2 a b : load_segment2 rec a b ⪅ load_segment2 rec' a b.
Proof. unfold load_segment2. fuel. Qed.
#[local] Hint Resolve fuel_load_segment2 : fuel.

Lemma fuel_load_segment3 a b c d : load_segment3 rec a b c d ⪅ load_segment3 rec' a b c d.
Proof. unfold load_segment3. fuel. Qed.
#[local] Hint Resolve fuel_load_segment3 : fuel.

Lemma fuel_load_segment a b c d e f g h i j k : load_segment rec a b c d e f g h i j k ⪅ load_segment rec' a b c d e f g h i j k.
Proof. unfold load_segment. fuel. Qed.
#[local] Hint Resolve fuel_load_segment : fuel.

Lemma fuel_elf_load_end a b : elf_load_end rec a b ⪅ elf_load_end rec' a b.
Proof. unfold elf_load_end. fuel. Qed.
#[local] Hint Resolve fuel_elf_load_end : fuel.

Lemma fuel_elf_load_load_segments a b : elf_load_load_segments rec a b ⪅ elf_load_load_segments rec' a b.
Proof. unfold elf_load_load_segments. fuel. Qed.
#[local] Hint Resolve fuel_elf_load_load_segments : fuel.

Lemma fuel_elf_load_read_progheaders_cb a b c d : elf_load_read_progheaders_cb rec a b c d ⪅ elf_load_read_progheaders_cb rec' a b c d.
Proof. unfold elf_load_read_progheaders_cb. fuel. Qed.
#[local] Hint Resolve fuel_elf_load_read_progheaders_cb : fuel.

Lemma fuel_elf_load_read_elfheader_cb a b c d : elf_load_read_elfheader_cb rec a b c d ⪅ elf_load_read_elfheader_cb rec' a b c d.
Proof. unfold elf_load_read_elfheader_cb. fuel. Qed.
#[local] Hint Resolve fuel_elf_load_read_elfheader_cb : fuel.

Lemma fuel_elf_load_lookup_cb a b c : elf_load_lookup_cb rec a b c ⪅ elf_load_lookup_cb rec' a b c.
Proof. unfold elf_load_lookup_cb. fuel. Qed.
#[local] Hint Resolve fuel_elf_load_lookup_cb : fuel.

Lemma fuel_elf_load a b c d e f : elf_load rec a b c d e f ⪅ elf_load rec' a b c d e f.
Proof. unfold elf_load. fuel. Qed.
#[local] Hint Resolve fuel_elf_load : fuel.

Lemma fuel_wake_all l a : wake_all rec l a ⪅ wake_all rec' l a.
Proof. revert a. induction l as [| x l IH]; intros; cbn [wake_all]; fuel. Qed.
#[local] Hint Resolve fuel_wake_all : fuel.

Lemma fuel_proc_destroy a : proc_destroy rec a ⪅ proc_destroy rec' a.
Proof. unfold proc_destroy. fuel. Qed.
#[local] Hint Resolve fuel_proc_destroy : fuel.

Lemma fuel_proc_create_end a b : proc_create_end rec a b ⪅ proc_create_end rec' a b.
Proof. unfold proc_create_end. fuel. Qed.
#[local] Hint Resolve fuel_proc_create_end : fuel.

Lemma fuel_proc_create_part4 a b : proc_create_part4 rec a b ⪅ proc_create_part4 rec' a b.
Proof. unfold proc_create_part4. fuel. Qed.
#[local] Hint Resolve fuel_proc_create_part4 : fuel.

Lemma fuel_proc_create_part3 a b c : proc_create_part3 rec a b c ⪅ proc_create_part3 rec' a b c.
Proof. unfold proc_create_part3. fuel. Qed.
#[local] Hint Resolve fuel_proc_create_part3 : fuel.

Lemma fuel_proc_create_part2 a b : proc_create_part2 rec a b ⪅ proc_create_part2 rec' a b.
Proof. unfold proc_create_part2. fuel. Qed.
#[local] Hint Resolve fuel_proc_create_part2 : fuel.

Lemma fuel_proc_create a b c d e : proc_create rec a b c d e ⪅ proc_create rec' a b c d e.
Proof. unfold proc_create. fuel. Qed.
#[local] Hint Resolve fuel_proc_create : fuel.

Lemma fuel_sos_VMFaultHandler a b c d : sos_VMFaultHandler rec a b c d ⪅ sos_VMFaultHandler rec' a b c d.
Proof. unfold sos_VMFaultHandler. fuel. Qed.
#[local] Hint Resolve fuel_sos_VMFaultHandler : fuel.

Lemma fuel_serv_sys_open_copyin_cb a b : serv_sys_open_copyin_cb rec a b ⪅ serv_sys_open_copyin_cb rec' a b.
Proof. unfold serv_sys_open_copyin_cb. fuel. Qed.
#[local] Hint Resolve fuel_serv_sys_open_copyin_cb : fuel.

Lemma fuel_serv_sys_open a b c d : serv_sys_open rec a b c d ⪅ serv_sys_open rec' a b c d.
Proof. unfold serv_sys_open. fuel. Qed.
#[local] Hint Resolve fuel_serv_sys_open : fuel.

Lemma fuel_serv_sys_read_end a b c d : serv_sys_read_end rec a b c d ⪅ serv_sys_read_end rec' a b c d.
Proof. unfold serv_sys_read_end. fuel. Qed.
#[local] Hint Resolve fuel_serv_sys_read_end : fuel.

Lemma fuel_serv_sys_read a b c d : serv_sys_read rec a b c d ⪅ serv_sys_read rec' a b c d.
Proof. unfold serv_sys_read. fuel. Qed.
#[local] Hint Resolve fuel_serv_sys_read : fuel.

Lemma fuel_serv_sys_write_do_write a b : serv_sys_write_do_write rec a b ⪅ serv_sys_write_do_write rec' a b.
Proof. unfold serv_sys_write_do_write. fuel. Qed.
#[local] Hint Resolve fuel_serv_sys_write_do_write : fuel.

Lemma fuel_serv_sys_write_copyin a b c : serv_sys_write_copyin rec a b c ⪅ serv_sys_write_copyin rec' a b c.
Proof. unfold serv_sys_write_copyin. fuel. Qed.
#[local] Hint Resolve fuel_serv_sys_write_copyin : fuel.

Lemma fuel_serv_sys_write_get_kbuf a b : serv_sys_write_get_kbuf rec a b ⪅ serv_sys_write_get_kbuf rec' a b.
Proof. unfold serv_sys_write_get_kbuf. fuel. Qed.
#[local] Hint Resolve fuel_serv_sys_write_get_kbuf : fuel.

Lemma fuel_serv_sys_write a b c d : serv_sys_write rec a b c d ⪅ serv_sys_write rec' a b c d.
Proof. unfold serv_sys_write. fuel. Qed.
#[local] Hint Resolve fuel_serv_sys_write : fuel.

Lemma fuel_serv_sys_getdirent a b c d : serv_sys_getdirent rec a b c d ⪅ serv_sys_getdirent rec' a b c d.
Proof. unfold serv_sys_getdirent. fuel. Qed.
#[local] Hint Resolve fuel_serv_sys_getdirent : fuel.

Lemma fuel_serv_sys_stat_copyin_cb a b : serv_sys_stat_copyin_cb rec a b ⪅ serv_sys_stat_copyin_cb rec' a b.
Proof. unfold serv_sys_stat_copyin_cb. fuel. Qed.
#[local] Hint Resolve fuel_serv_sys_stat_copyin_cb : fuel.

Lemma fuel_serv_sys_stat a b c d : serv_sys_stat rec a b c d ⪅ serv_sys_stat rec' a b c d.
Proof. unfold serv_sys_stat. fuel. Qed.
#[local] Hint Resolve fuel_serv_sys_stat : fuel.

Lemma fuel_serv_proc_create_part2 a b : serv_proc_create_part2 rec a b ⪅ serv_proc_create_part2 rec' a b.
Proof. unfold serv_proc_create_part2. fuel. Qed.
#[local] Hint Resolve fuel_serv_proc_create_part2 : fuel.

Lemma fuel_serv_proc_create a b c d : serv_proc_create rec a b c d ⪅ serv_proc_create rec' a b c d.
Proof. unfold serv_proc_create. fuel. Qed.
#[local] Hint Resolve fuel_serv_proc_create : fuel.

Lemma fuel_serv_proc_destroy a b : serv_proc_destroy rec a b ⪅ serv_proc_destroy rec' a b.
Proof. unfold serv_proc_destroy. fuel. Qed.
#[local] Hint Resolve fuel_serv_proc_destroy : fuel.

Lemma fuel_serv_proc_status a b c : serv_proc_status rec a b c ⪅ serv_proc_status rec' a b c.
Proof. unfold serv_proc_status. fuel. Qed.
#[local] Hint Resolve fuel_serv_proc_status : fuel.

Lemma fuel_exec_frame a b c : exec_frame rec a b c ⪅ exec_frame rec' a b c.
Proof. unfold exec_frame. fuel. Qed.
#[local] Hint Resolve fuel_exec_frame : fuel.

Lemma fuel_exec_err a b c : exec_err rec a b c ⪅ exec_err rec' a b c.
Proof. unfold exec_err. fuel. Qed.
#[local] Hint Resolve fuel_exec_err : fuel.

Lemma fuel_exec_vnode a b c d : exec_vnode rec a b c d ⪅ exec_vnode rec' a b c d.
Proof. unfold exec_vnode. fuel. Qed.
#[local] Hint Resolve fuel_exec_vnode : fuel.

Lemma fuel_exec a : exec rec a ⪅ exec rec' a.
Proof. unfold exec. fuel. Qed.
#[local] Hint Resolve fuel_exec : fuel.

Lemma fuel_handle_syscall a b c : handle_syscall rec a b c ⪅ handle_syscall rec' a b c.
Proof. unfold handle_syscall. fuel. Qed.
#[local] Hint Resolve fuel_handle_syscall : fuel.

Lemma fuel_handle_pagefault a : handle_pagefault rec a ⪅ handle_pagefault rec' a.
Proof. unfold handle_pagefault. fuel. Qed.
#[local] Hint Resolve fuel_handle_pagefault : fuel.

Lemma fuel_network_irq l : network_irq rec l ⪅ network_irq rec' l.
Proof.
  induction l as [| p l IH]; cbn [network_irq]; [done |].
  unfold deliver_reply, deliver, deliver_lookup, deliver_read, deliver_write. fuel.
Qed.
#[local] Hint Resolve fuel_network_irq : fuel.

Lemma fuel_run_expired n a b : run_expired rec n a b ⪅ run_expired rec' n a b.
Proof. revert a b. induction n as [| n IH]; intros; cbn [run_expired]; fuel. Qed.
#[local] Hint Resolve fuel_run_expired : fuel.

Lemma fuel_timer_interrupt : timer_interrupt rec ⪅ timer_interrupt rec'.
Proof. unfold timer_interrupt, check_timeout. fuel. Qed.
#[local] Hint Resolve fuel_timer_interrupt : fuel.

End fuel.

Lemma run_le n m c : (n ≤ m)%nat → run n c ⪅ run m c.
Proof.
  revert m c. induction n as [| n IH]; intros m c Hm; [intros s; by left |].
  destruct m as [| m]; [lia |]. cbn [run]. apply fuel_exec. intros c'. apply IH. lia.
Qed.

(** A round of the event loop does not depend on the bound on nested calls:
    when it ends with some bound, normally or with a fault other than hitting the
    bound, then with every larger bound it ends the same way, in the same state. *)
Theorem fuel_irrelevant (n m : nat) (ipc_ep : Z) (i : input) (s : sos) :
  (n ≤ m)%nat → step n ipc_ep i s ≠ Fault OutOfFuel → step m ipc_ep i s = step n ipc_ep i s.
Proof.
  intros Hn Hf. assert (step n ipc_ep i ⪅ step m ipc_ep i) as H.
  { assert (∀ c, run n c ⪅ run m c) as Hr by (intros; by apply run_le).
    pose proof (fuel_handle_syscall _ _ Hr). pose proof (fuel_handle_pagefault _ _ Hr).
    pose proof (fuel_network_irq _ _ Hr). pose proof (fuel_timer_interrupt _ _ Hr).
    unfold step. fuel; auto. }
  destruct (H s) as [E | E]; [destruct (Hf E) | symmetry; exact E].
Qed.

Lemma fuel_irrelevant_witness :
  returns (step 1000 0 serial_input (sos_start env_ok ut_example)) = true.
Proof.
  assert (returns (step 10 0 serial_input (sos_start env_ok ut_example)) = true) as H
    by (vm_compute; reflexivity).
  rewrite (fuel_irrelevant 10 1000 0 serial_input (sos_start env_ok ut_example)).
  - exact H.
  - apply Nat.leb_le. reflexivity.
  - intros E. rewrite E in H. discriminate H.
Defined.
