(* ===== verification/Network.v ===== *)
(** Waiting for the gateway (apps/sos/src/dev/network.c).

    [network_prime_arp] asks for the address of the gateway until lwIP knows it.
    Its counter is called a timeout, but it grows with every try; the lemmas say
    how long the loop really runs.  The rest of the start-up is [network_mount]
    in Mount.v, and [network_irq] in Machine.v. *)

From S2P Require Import Prelude.

Definition ARP_PRIME_TIMEOUT_MS : Z := 1000.
Definition ARP_PRIME_RETRY_DELAY_MS : Z := 10.

(** [known k]: does lwIP know the address after the [k]-th request.  The result
    is the number of requests. *)
Fixpoint prime_arp (fuel : nat) (known : nat → bool) (timeout : Z) (k : nat) : outcome nat :=
  match fuel with
  | O => Fault OutOfFuel
  | S fuel' =>
      if 0 <? timeout then
        if negb (known k) then prime_arp fuel' known (i32 (timeout + ARP_PRIME_RETRY_DELAY_MS)) (S k)
        else Ret (S k)
      else Ret k
  end.

Definition network_prime_arp (fuel : nat) (known : nat → bool) : outcome nat :=
  prime_arp fuel known ARP_PRIME_TIMEOUT_MS 0.

(** The number of tries before the counter overflows. *)
Definition arp_tries : Z := 214748264.

Lemma prime_arp_waits fuel known timeout k n :
  0 < timeout → timeout + 10 * Z.of_nat n < 2 ^ 31 → (∀ i, (k ≤ i < k + n)%nat → known i = false) →
  prime_arp (n + fuel) known timeout k = prime_arp fuel known (timeout + 10 * Z.of_nat n) (k + n).
Proof.
  revert timeout k. induction n as [|n IH]; intros timeout k Ht Hb Hk.
  - by rewrite Z.mul_0_r, Z.add_0_r, Nat.add_0_r.
  - cbn [Nat.add prime_arp]. destruct (Z.ltb_spec 0 timeout); [| lia]. rewrite Hk by lia. cbn [negb].
    unfold ARP_PRIME_RETRY_DELAY_MS. rewrite i32_small by lia. rewrite IH; [f_equal; lia | lia | lia |].
    intros i Hi. apply Hk. lia.
Qed.

(** The loop ends with the request that is answered. *)
Lemma network_prime_arp_answered known n :
  (∀ i, (i < n)%nat → known i = false) → known n = true → Z.of_nat n ≤ arp_tries →
  network_prime_arp (S n) known = Ret (S n).
Proof.
  unfold arp_tries. intros Hk Hn Hb. unfold network_prime_arp, ARP_PRIME_TIMEOUT_MS. replace (S n) with (n + 1)%nat at 1 by lia.
  rewrite prime_arp_waits; [| lia | lia | intros i Hi; apply Hk; lia]. cbn [prime_arp Nat.add].
  destruct (Z.ltb_spec 0 (1000 + 10 * Z.of_nat n)); [| lia]. by rewrite Hn.
Qed.

(** Without an answer it has not given up after any number of tries up to
    [arp_tries]. *)
Lemma network_prime_arp_stuck n :
  Z.of_nat n ≤ arp_tries → network_prime_arp n (λ _, false) = Fault OutOfFuel.
Proof.
  unfold arp_tries. intros Hb. unfold network_prime_arp, ARP_PRIME_TIMEOUT_MS. rewrite <- (Nat.add_0_r n).
  rewrite prime_arp_waits; [done | lia | lia | done].
Qed.
