(* ===== verification/Sosh.v ===== *)
(** The shell (apps/sosh/src/sosh.c): the line editor, the words of a line and
    the table of commands.

    [main] reads keys from the console into a buffer, edits the line in place,
    cuts it into words by writing zeros over the spaces, and looks the first word
    up in the table.  The pointers [bp], [p] and [argv] are offsets into the
    buffer here.  What the commands do are calls of libsos (Libsos.v) and output
    through the C library. *)

From S2P Require Import Prelude.

Definition BUF_SIZ : Z := 6000.
Definition MAX_ARGS : Z := 32.

Definition KEY_INT : Z := 3.
Definition KEY_EOT : Z := 4.
Definition KEY_BS : Z := 8.
Definition KEY_NL : Z := 10.
Definition KEY_SPACE : Z := 32.
Definition KEY_DEL : Z := 127.

(** * The line editor *)

(** What the loop over the keys leaves: the buffer, the pointer, [new] and [found]
    and the echo. *)
Record edited : Type := mk_edited {
  ed_buf : list Z;
  ed_p : Z;
  ed_new : bool;
  ed_found : bool;
  ed_echo : list Z
}.

(** [for (p = bp; p < bp + r; p++)]. *)
Fixpoint edit_keys (fuel : nat) (bp p r : Z) (new found : bool) (echo buf : list Z) : outcome edited :=
  match fuel with
  | O => Fault OutOfFuel
  | S fuel' =>
      if p <? bp + r then
        c ← rd buf p;
        if c =? KEY_INT then Ret (mk_edited buf 0 true found (echo ++ [94; 67; 10]))
        else if c =? KEY_EOT then edit_keys fuel' bp (p + 1 + 1) r new true echo buf
        else if (c =? KEY_BS) || (c =? KEY_DEL) then
          if 0 <? p then
            edit_keys fuel' bp (p - 1 - 1 + 1) (r - 1 - 1) new found (echo ++ [KEY_BS; KEY_SPACE; KEY_BS]) buf
          else edit_keys fuel' bp (p - 1 + 1) (r - 1) new found echo buf
        else if c =? KEY_NL then
          buf' ← wr buf p 0;
          Ret (mk_edited buf' 0 true (0 <? p) (echo ++ [c]))
        else edit_keys fuel' bp (p + 1) r new found (echo ++ [c]) buf
      else Ret (mk_edited buf p new found echo)
  end.

(** The bytes of one [read], written at [bp]. *)
Fixpoint put_keys (buf : list Z) (bp : Z) (keys : list Z) : outcome (list Z) :=
  match keys with
  | [] => Ret buf
  | k :: keys' => buf' ← wr buf bp k; put_keys buf' (bp + 1) keys'
  end.

(** The loop [while (!found && !done)] over the reads.  A read that fails ends
    the shell; [None] when the shell still waits for a key. *)
Inductive line_end : Type :=
  | LineRead (buf : list Z) (bp : Z) (new found : bool) (echo : list Z) (rest : list (option (list Z)))
  | ShellDone
  | LineWaits (buf : list Z) (bp : Z).

Fixpoint read_line (reads : list (option (list Z))) (buf : list Z) (bp : Z) (new : bool) (echo : list Z) :
    outcome line_end :=
  match reads with
  | [] => Ret (LineWaits buf bp)
  | None :: _ => Ret ShellDone
  | Some keys :: reads' =>
      let keys := take (Z.to_nat (BUF_SIZ - 1 - bp)) keys in
      let r := Zlength keys in
      buf ← put_keys buf bp keys;
      buf ← wr buf (bp + r) 0;
      e ← edit_keys (S (Z.to_nat (2 * BUF_SIZ))) bp bp r new false echo buf;
      if (ed_p e =? 0) || ed_found e then
        Ret (LineRead (ed_buf e) (ed_p e) (ed_new e) (ed_found e) (ed_echo e) reads')
      else read_line reads' (ed_buf e) (ed_p e) (ed_new e) (ed_echo e)
  end.

(** The loop of [main] around it, until there is a line. *)
Fixpoint next_line (fuel : nat) (reads : list (option (list Z))) (buf : list Z) (bp : Z) : outcome line_end :=
  match fuel with
  | O => Fault OutOfFuel
  | S fuel' =>
      l ← read_line reads buf bp false [];
      match l with
      | LineRead buf bp new false echo rest => next_line fuel' rest buf bp
      | _ => Ret l
      end
  end.

(** * Words *)

(** The pointer after the spaces. *)
Fixpoint skip_spaces (fuel : nat) (buf : list Z) (p : Z) : outcome Z :=
  match fuel with
  | O => Fault OutOfFuel
  | S fuel' => c ← rd buf p; if c =? KEY_SPACE then skip_spaces fuel' buf (p + 1) else Ret p
  end.

(** The pointer after the word. *)
Fixpoint skip_word (fuel : nat) (buf : list Z) (p : Z) : outcome Z :=
  match fuel with
  | O => Fault OutOfFuel
  | S fuel' =>
      c ← rd buf p;
      if (c =? KEY_SPACE) || (c =? 0) then Ret p else skip_word fuel' buf (p + 1)
  end.

(** The loop that cuts the line; [argv] has [MAX_ARGS] entries. *)
Fixpoint cut_line (fuel : nat) (buf : list Z) (p : Z) (argv : list Z) (argc : Z) :
    outcome (list Z * list Z * Z) :=
  match fuel with
  | O => Fault OutOfFuel
  | S fuel' =>
      c ← rd buf p;
      if c =? 0 then Ret (buf, argv, argc) else
      p ← skip_spaces (length buf) buf p;
      c ← rd buf p;
      if c =? 0 then Ret (buf, argv, argc) else
      argv ← wr argv argc p;
      p ← skip_word (length buf) buf p;
      c ← rd buf p;
      if c =? 0 then Ret (buf, argv, argc + 1) else
      buf ← wr buf p 0;
      cut_line fuel' buf (p + 1) argv (argc + 1)
  end.

(** * Commands *)

Inductive command : Type :=
  | CmdDir | CmdCat | CmdCp | CmdPs | CmdExec | CmdSleep | CmdMsleep | CmdTime | CmdMtime
  | CmdKill | CmdBm | CmdBm2 | CmdThrash | CmdWhoami.

(** The table [commands], with the names as bytes. *)
Definition commands : list (list Z * command) :=
  [([100; 105; 114], CmdDir); ([108; 115], CmdDir); ([99; 97; 116], CmdCat); ([99; 112], CmdCp);
   ([112; 115], CmdPs); ([101; 120; 101; 99], CmdExec); ([115; 108; 101; 101; 112], CmdSleep);
   ([109; 115; 108; 101; 101; 112], CmdMsleep); ([116; 105; 109; 101], CmdTime);
   ([109; 116; 105; 109; 101], CmdMtime); ([107; 105; 108; 108], CmdKill); ([98; 109], CmdBm);
   ([98; 109; 50], CmdBm2); ([116; 104; 114; 97; 115; 104], CmdThrash);
   ([119; 104; 111; 97; 109; 105], CmdWhoami)].

(** The string at [p]. *)
Fixpoint c_string (fuel : nat) (buf : list Z) (p : Z) : outcome (list Z) :=
  match fuel with
  | O => Fault OutOfFuel
  | S fuel' => c ← rd buf p; if c =? 0 then Ret [] else l ← c_string fuel' buf (p + 1); Ret (c :: l)
  end.

(** [strcmp(argv[0], commands[i].name) == 0] over the table. *)
Fixpoint find_command (name : list Z) (table : list (list Z * command)) : option command :=
  match table with
  | [] => None
  | (n, c) :: table' => if bool_decide (name = n) then Some c else find_command name table'
  end.

(** What the shell does with a line: a command, or the name of a program it may
    start after [sos_stat]. *)
Inductive action : Type :=
  | Nothing
  | Command (c : command) (args : list (list Z))
  | Program (name : list Z).

Fixpoint arg_strings (buf : list Z) (argv : list Z) : outcome (list (list Z)) :=
  match argv with
  | [] => Ret []
  | p :: argv' => s ← c_string (length buf) buf p; l ← arg_strings buf argv'; Ret (s :: l)
  end.

Definition run_line (buf argv : list Z) : outcome action :=
  '(buf, argv, argc) ← cut_line (S (length buf)) buf 0 argv 0;
  args ← arg_strings buf (take (Z.to_nat argc) argv);
  Ret match args with
      | [] => Nothing
      | name :: _ =>
          match find_command name commands with
          | Some c => Command c args
          | None => Program name
          end
      end.
