(* ===== verification/SoshInv.v ===== *)
(** The shell reads the line that was typed and cuts it into its words.

    The reference of the editor is [typed]: a key is appended to the text, a
    backspace removes the last key.  [shell_edits] shows that the shell follows it
    when every read brings one key, and what becomes of a line that comes with a
    backspace in one read, as the console of SOS delivers it.  [shell_words]
    relates the in-place cutting of a line to a list of words. *)

From S2P Require Import Prelude Sosh.

(** * Editing *)

Definition erases (k : Z) : bool := (k =? KEY_BS) || (k =? KEY_DEL).

(** A key that is text or erases text. *)
Definition edit_key (k : Z) : Prop := k ≠ KEY_INT ∧ k ≠ KEY_EOT ∧ k ≠ KEY_NL.

Fixpoint typed (text keys : list Z) : list Z :=
  match keys with
  | [] => text
  | k :: keys' => typed (if erases k then removelast text else text ++ [k]) keys'
  end.

(** A key that is text. *)
Definition plain (k : Z) : Prop := edit_key k ∧ erases k = false.

(** The text after a read that brings [n] keys behind a backspace: the pointer of
    the loop goes back to the last key of the text and forth to the backspace, and
    the end of the loop comes nearer by two each time. *)
Definition bounced (text : list Z) (n : nat) : list Z := if Nat.even n then removelast text else text.

(** The buffer starts with this text. *)
Definition holds (buf text : list Z) : Prop :=
  Zlength buf = BUF_SIZ ∧ text `prefix_of` buf.

Lemma holds_lookup buf text i c : holds buf text → text !! i = Some c → buf !! i = Some c.
Proof. intros [_ Hp] Hi. by eapply prefix_lookup_Some. Qed.

Lemma holds_insert buf text i c :
  holds buf text → (length text ≤ i)%nat → holds (<[i := c]> buf) text.
Proof.
  intros [Hl [tl ->]] Hi. split; [by rewrite Zlength_insert |]. rewrite insert_app_r_alt by done. by exists (<[i - length text := c]> tl)%nat.
Qed.

Lemma holds_snoc buf text c :
  holds buf text → (length text < length buf)%nat → holds (<[length text := c]> buf) (text ++ [c]).
Proof.
  intros [Hl [tl ->]] Hi. split; [by rewrite Zlength_insert |]. rewrite length_app in Hi.
  destruct tl as [|x tl]; [cbn in Hi; lia |]. rewrite insert_app_r_alt, Nat.sub_diag by lia. cbn.
  exists tl. by rewrite <- (assoc_L (++)).
Qed.

Lemma holds_removelast buf text : holds buf text → holds buf (removelast text).
Proof.
  intros [Hl Hp]. split; [done |]. etrans; [| exact Hp].
  destruct text as [|x text _] using rev_ind; [done |]. rewrite removelast_last. by apply prefix_app_r.
Qed.

Lemma Zlength_removelast (text : list Z) : Zlength (removelast text) = Z.max 0 (Zlength text - 1).
Proof.
  destruct text as [|x text _] using rev_ind; [done |]. rewrite removelast_last. unfold Zlength. rewrite length_app. cbn. lia.
Qed.

(** ** Steps of the loop over the keys *)

Lemma edit_plain f bp p r new found echo buf c :
  p < bp + r → rd buf p = Ret c → edit_key c → erases c = false →
  edit_keys (S f) bp p r new found echo buf = edit_keys f bp (p + 1) r new found (echo ++ [c]) buf.
Proof.
  intros Hp Hc (H1 & H2 & H3) H4. cbn [edit_keys]. unfold erases in H4. apply Z.eqb_neq in H1, H2, H3.
  destruct (Z.ltb_spec p (bp + r)); [| lia]. rewrite Hc. cbn [mbind outcome_bind]. by rewrite H1, H2, H4, H3.
Qed.

Lemma edit_back f bp p r new found echo buf c :
  p < bp + r → 0 < p → rd buf p = Ret c → edit_key c → erases c = true →
  edit_keys (S f) bp p r new found echo buf =
    edit_keys f bp (p - 1) (r - 2) new found (echo ++ [KEY_BS; KEY_SPACE; KEY_BS]) buf.
Proof.
  intros Hp Hz Hc (H1 & H2 & H3) H4. cbn [edit_keys]. unfold erases in H4. apply Z.eqb_neq in H1, H2, H3.
  destruct (Z.ltb_spec p (bp + r)); [| lia]. rewrite Hc. cbn [mbind outcome_bind]. rewrite H1, H2, H4.
  destruct (Z.ltb_spec 0 p); [| lia]. f_equal; lia.
Qed.

Lemma edit_back_start f bp r new found echo buf c :
  0 < bp + r → rd buf 0 = Ret c → edit_key c → erases c = true →
  edit_keys (S f) bp 0 r new found echo buf = edit_keys f bp 0 (r - 1) new found echo buf.
Proof.
  intros Hp Hc (H1 & H2 & H3) H4. cbn [edit_keys]. unfold erases in H4. apply Z.eqb_neq in H1, H2, H3.
  destruct (Z.ltb_spec 0 (bp + r)); [| lia]. rewrite Hc. cbn [mbind outcome_bind]. by rewrite H1, H2, H4.
Qed.

Lemma edit_stop f bp p r new found echo buf :
  bp + r ≤ p → edit_keys (S f) bp p r new found echo buf = Ret (mk_edited buf p new found echo).
Proof. intros Hp. cbn [edit_keys]. by destruct (Z.ltb_spec p (bp + r)); [lia |]. Qed.

(** One key that is read after the text. *)
Lemma one_key reads buf text k new echo :
  holds buf text → edit_key k → Zlength text < BUF_SIZ - 2 →
  ∃ buf' new' echo', holds buf' (typed text [k]) ∧
    read_line (Some [k] :: reads) buf (Zlength text) new echo =
      if Zlength (typed text [k]) =? 0
      then Ret (LineRead buf' 0 new' false echo' reads)
      else read_line reads buf' (Zlength (typed text [k])) new' echo'.
Proof.
  intros Hb Hk Hlen. pose proof (Zlength_nonneg text) as Hn. pose proof Hb as [Hl Ht].
  unfold BUF_SIZ in *.
  cbn [read_line]. rewrite take_ge by (change (length [k]) with 1%nat; unfold BUF_SIZ; lia).
  cbn [put_keys]. rewrite wr_in by (unfold Zlength in *; lia). cbn [mbind outcome_bind].
  rewrite wr_in by (rewrite Zlength_insert; change (Zlength [k]) with 1; unfold Zlength in *; lia). cbn [mbind outcome_bind].
  change (Zlength [k]) with 1. set (buf1 := <[_ := 0]> _).
  assert (Z.to_nat (Zlength text) = length text) as Et by (unfold Zlength; lia).
  assert (holds buf1 (text ++ [k])) as Hsnoc.
  { apply holds_insert; [rewrite Et; apply holds_snoc; [done | unfold Zlength in *; lia] |].
    rewrite length_app. cbn. lia. }
  assert (buf1 !! length text = Some k) as Hat.
  { eapply holds_lookup; [exact Hsnoc |]. rewrite lookup_app_r, Nat.sub_diag by lia. done. }
  assert (2 ≤ S (Z.to_nat (2 * BUF_SIZ)))%nat as Hfuel by (unfold BUF_SIZ; lia).
  destruct (S (Z.to_nat (2 * BUF_SIZ))) as [|[|fuel]]; [lia | lia |]. clear Hfuel.
  assert (rd buf1 (Zlength text) = Ret k) as Hrd by (apply rd_Ret; by rewrite Et).
  cbn [typed]. destruct (erases k) eqn:Ek.
  - rewrite Zlength_removelast. assert (holds buf1 (removelast text)) as Hrem.
    { apply holds_removelast. destruct Hsnoc as [? Hp]. split; [done |]. by eapply prefix_app_l. }
    exists buf1, new, (if 0 <? Zlength text then echo ++ [KEY_BS; KEY_SPACE; KEY_BS] else echo).
    split; [done |]. destruct (Z.ltb_spec 0 (Zlength text)) as [Hpos | Hz].
    + rewrite (edit_back _ _ _ _ _ _ _ _ k), edit_stop by (done || lia).
      cbn [mbind outcome_bind ed_p ed_found ed_buf ed_new ed_echo]. rewrite orb_false_r.
      replace (Z.max 0 (Zlength text - 1)) with (Zlength text - 1) by lia.
      destruct (Z.eqb_spec (Zlength text - 1) 0) as [-> |]; done.
    + replace (Zlength text) with 0 in * by lia. by rewrite (edit_back_start _ _ _ _ _ _ _ k), edit_stop by (done || lia).
  - exists buf1, new, (echo ++ [k]). split; [done |]. rewrite (edit_plain _ _ _ _ _ _ _ _ k), edit_stop by (done || lia).
    cbn [mbind outcome_bind ed_p ed_found ed_buf ed_new ed_echo]. rewrite orb_false_r, Zlength_app.
    change (Zlength [k]) with 1. by destruct (Z.eqb_spec (Zlength text + 1) 0); [lia |].
Qed.

(** Reading keys into the buffer. *)
Lemma put_keys_eq buf text keys :
  holds buf text → Zlength text + Zlength keys ≤ BUF_SIZ →
  ∃ buf', put_keys buf (Zlength text) keys = Ret buf' ∧ holds buf' (text ++ keys).
Proof.
  revert buf text. induction keys as [|k keys IH]; intros buf text Hb Hlen.
  - exists buf. by rewrite app_nil_r.
  - rewrite Zlength_cons in Hlen. pose proof (Zlength_nonneg keys). pose proof (Zlength_nonneg text). pose proof Hb as [Hl _].
    cbn [put_keys]. rewrite wr_in by lia. cbn [mbind outcome_bind].
    destruct (IH (<[Z.to_nat (Zlength text) := k]> buf) (text ++ [k])) as (buf' & E & Hb').
    + replace (Z.to_nat (Zlength text)) with (length text) by (unfold Zlength; lia).
      apply holds_snoc; [done | unfold Zlength in *; lia].
    + rewrite Zlength_app. change (Zlength [k]) with 1. lia.
    + exists buf'. rewrite Zlength_app in E. change (Zlength [k]) with 1 in E. split; [done |].
      by rewrite <- (assoc_L (++)) in Hb'.
Qed.

Lemma holds_rd buf text i c : holds buf text → 0 ≤ i → text !! Z.to_nat i = Some c → rd buf i = Ret c.
Proof. intros Hb Hi Hc. apply rd_Ret. split; [done |]. by eapply holds_lookup. Qed.

(** Keys that were read at the end of the text: what the editor has done before it
    looks at them. *)
Lemma read_line_keys reads buf text keys new echo :
  holds buf text → Zlength text + Zlength keys < BUF_SIZ →
  ∃ buf', holds buf' (text ++ keys) ∧
    read_line (Some keys :: reads) buf (Zlength text) new echo =
      (e ← edit_keys (S (Z.to_nat (2 * BUF_SIZ))) (Zlength text) (Zlength text) (Zlength keys) new false echo buf';
       if (ed_p e =? 0) || ed_found e then
         Ret (LineRead (ed_buf e) (ed_p e) (ed_new e) (ed_found e) (ed_echo e) reads)
       else read_line reads (ed_buf e) (ed_p e) (ed_new e) (ed_echo e)).
Proof.
  intros Hb Hlen. pose proof (Zlength_nonneg text). pose proof (Zlength_nonneg keys).
  cbn [read_line]. rewrite take_ge by (unfold Zlength in *; lia).
  destruct (put_keys_eq buf text keys Hb) as (buf1 & E & Hb1); [lia |].
  rewrite E. cbn [mbind outcome_bind].
  rewrite wr_in by (destruct Hb1 as [-> _]; lia). cbn [mbind outcome_bind].
  eexists. split; [| reflexivity]. apply holds_insert; [done |]. rewrite length_app. unfold Zlength. lia.
Qed.

(** The keys of a text are passed over. *)
Lemma edit_plains f bp text x tl r new found echo buf :
  holds buf (text ++ x ++ tl) → Forall plain x → Zlength text + Zlength x ≤ bp + r →
  edit_keys (length x + f) bp (Zlength text) r new found echo buf =
    edit_keys f bp (Zlength text + Zlength x) r new found (echo ++ x) buf.
Proof.
  intros Hb Hx. revert text echo Hb. induction Hx as [|c x [Hc Hc'] Hx IH]; intros text echo Hb Hr.
  - change (Zlength []) with 0. by rewrite app_nil_r, Z.add_0_r.
  - rewrite Zlength_cons in *. pose proof (Zlength_nonneg x). pose proof (Zlength_nonneg text). cbn [length Nat.add].
    rewrite (edit_plain _ _ _ _ _ _ _ _ c); [| lia | | done | done].
    + replace (Zlength text + 1) with (Zlength (text ++ [c])) by (by rewrite Zlength_app).
      rewrite IH; [| by rewrite <- (assoc_L (++)) | rewrite Zlength_app; change (Zlength [c]) with 1; lia].
      rewrite Zlength_app, <- (assoc_L (++)). change (Zlength [c]) with 1. f_equal. lia.
    + eapply holds_rd; [exact Hb | lia |]. unfold Zlength. by rewrite Nat2Z.id, lookup_app_r, Nat.sub_diag by lia.
Qed.

(** The end of the line. *)
Lemma edit_newline f bp text r new found echo buf :
  holds buf (text ++ [KEY_NL]) → text ≠ [] → Zlength text < bp + r →
  ∃ buf', holds buf' (text ++ [0]) ∧
    edit_keys (S f) bp (Zlength text) r new found echo buf = Ret (mk_edited buf' 0 true true (echo ++ [KEY_NL])).
Proof.
  intros Hb Hne Hr. assert (0 < Zlength text) as Hn by (destruct text; [done |]; rewrite Zlength_cons; pose proof (Zlength_nonneg text); lia).
  assert (Zlength text < Zlength buf) as Hin.
  { destruct Hb as [_ [tl ->]]. rewrite !Zlength_app. change (Zlength [KEY_NL]) with 1. pose proof (Zlength_nonneg tl). lia. }
  cbn [edit_keys]. destruct (Z.ltb_spec (Zlength text) (bp + r)); [| lia].
  rewrite (holds_rd buf (text ++ [KEY_NL]) _ KEY_NL) by
    (done || lia || (unfold Zlength; rewrite Nat2Z.id, lookup_app_r, Nat.sub_diag by lia; done)).
  cbn [mbind outcome_bind]. change (KEY_NL =? KEY_INT) with false. change (KEY_NL =? KEY_EOT) with false.
  change ((KEY_NL =? KEY_BS) || (KEY_NL =? KEY_DEL)) with false. change (KEY_NL =? KEY_NL) with true. cbv iota.
  rewrite wr_in by lia. cbn [mbind outcome_bind].
  destruct (Z.ltb_spec 0 (Zlength text)); [| lia]. eexists. split; [| reflexivity].
  replace (Z.to_nat (Zlength text)) with (length text) by (unfold Zlength; lia).
  destruct Hb as [Hl [tl Et]]. split; [by rewrite Zlength_insert |]. rewrite Et, <- (assoc_L (++)).
  rewrite insert_app_r_alt, Nat.sub_diag by lia. cbn. exists tl. by rewrite <- (assoc_L (++)).
Qed.

(** The rest of a line in one read. *)
Lemma newline reads buf text x new echo :
  holds buf text → Forall plain x → text ++ x ≠ [] → Zlength text + Zlength x < BUF_SIZ - 1 →
  ∃ buf' echo', holds buf' (text ++ x ++ [0]) ∧
    read_line (Some (x ++ [KEY_NL]) :: reads) buf (Zlength text) new echo = Ret (LineRead buf' 0 true true echo' reads).
Proof.
  intros Hb Hx Hne Hlen. assert (Zlength (x ++ [KEY_NL]) = Zlength x + 1) as Ek by (by rewrite Zlength_app).
  destruct (read_line_keys reads buf text (x ++ [KEY_NL]) new echo Hb) as (buf1 & Hb1 & E); [lia |].
  pose proof (Zlength_nonneg text). pose proof (Zlength_nonneg x).
  rewrite E, Ek. replace (S (Z.to_nat (2 * BUF_SIZ))) with
    (length x + S (Z.to_nat (2 * BUF_SIZ) - length x))%nat by (unfold Zlength in *; lia).
  rewrite (edit_plains _ _ text x [KEY_NL]) by (done || lia). rewrite <- Zlength_app.
  destruct (edit_newline (Z.to_nat (2 * BUF_SIZ) - length x) (Zlength text) (text ++ x) (Zlength x + 1) new false (echo ++ x) buf1)
    as (buf' & Hb' & E'); [by rewrite <- (assoc_L (++)) | done | rewrite Zlength_app; lia |].
  rewrite E'. rewrite <- (assoc_L (++)) in Hb'. by exists buf', ((echo ++ x) ++ [KEY_NL]).
Qed.

(** What [next_line] does after a read. *)
Lemma edits fuel keys rest buf text new echo :
  holds buf text → Forall edit_key keys → (length keys < fuel)%nat →
  Zlength text + Zlength keys < BUF_SIZ - 2 → typed text keys ≠ [] →
  ∃ buf' echo', holds buf' (typed text keys ++ [0]) ∧
    (l ← read_line (((λ k, Some [k]) <$> keys) ++ Some [KEY_NL] :: rest) buf (Zlength text) new echo;
     match l with
     | LineRead buf bp new false echo rest => next_line fuel rest buf bp
     | _ => Ret l
     end) = Ret (LineRead buf' 0 true true echo' rest).
Proof.
  revert fuel buf text new echo. induction keys as [|k keys IH]; intros fuel buf text new echo Hb Hk Hf Hlen Hne.
  - cbn [typed fmap list_fmap app] in *. change (Zlength []) with 0 in Hlen.
    destruct (newline rest buf text [] new echo Hb) as (buf' & echo' & Hb' & E); [constructor | by rewrite app_nil_r | change (Zlength []) with 0; lia |].
    cbn [app] in E, Hb'.
    exists buf', echo'. by rewrite E.
  - apply Forall_cons in Hk as [Hk Hks]. rewrite Zlength_cons in Hlen. pose proof (Zlength_nonneg keys).
    cbn [length] in Hf.
    destruct (one_key (((λ k, Some [k]) <$> keys) ++ Some [KEY_NL] :: rest) buf text k new echo Hb Hk ltac:(lia))
      as (buf1 & new1 & echo1 & Hb1 & E).
    assert (Zlength (typed text [k]) ≤ Zlength text + 1) as Hl1.
    { cbn [typed]. destruct (erases k); [rewrite Zlength_removelast; pose proof (Zlength_nonneg text); lia |].
      rewrite Zlength_app. reflexivity. }
    rewrite fmap_cons. cbn [app]. rewrite E. clear E. destruct (Z.eqb_spec (Zlength (typed text [k])) 0) as [Hz | Hz].
    + destruct fuel as [|fuel]; [lia |]. cbn [mbind outcome_bind next_line].
      pose proof (IH fuel buf1 (typed text [k]) false [] Hb1 Hks ltac:(lia) ltac:(lia) Hne) as H'.
      rewrite Hz in H'. exact H'.
    + apply IH; [done | done | lia | lia | done].
Qed.

(** The loop between the last key of the text and the backspace behind it. *)
Lemma edit_bounces n f bp text k r new found echo buf :
  (n + 2 ≤ f)%nat → holds buf (text ++ [k]) → Forall plain text → text ≠ [] → edit_key k → erases k = true →
  bp + r = Zlength text + 1 + Z.of_nat n →
  ∃ echo', edit_keys f bp (Zlength text) r new found echo buf =
    Ret (mk_edited buf (Zlength (bounced text n)) new found echo').
Proof.
  intros Hf Hb Hp Hne Hk Hk' Hr. destruct text as [|c text _] using rev_ind; [done |]. clear Hne.
  apply Forall_app in Hp as [_ [[Hc Hc'] _]%Forall_cons]. pose proof (Zlength_nonneg text).
  rewrite Zlength_app in Hr |- *. change (Zlength [c]) with 1 in *.
  assert (rd buf (Zlength text) = Ret c) as Rc.
  { eapply holds_rd; [exact Hb | lia |]. unfold Zlength. by rewrite Nat2Z.id, <- (assoc_L (++)), lookup_app_r, Nat.sub_diag by lia. }
  assert (rd buf (Zlength text + 1) = Ret k) as Rk.
  { eapply holds_rd; [exact Hb | lia |]. unfold Zlength.
    replace (Z.to_nat _) with (length (text ++ [c])) by (rewrite length_app; cbn; lia).
    by rewrite lookup_app_r, Nat.sub_diag by lia. }
  revert n f r echo Hf Hr. fix IH 1. intros [|[|n]] f r echo Hf Hr.
  - destruct f as [|[|f]]; [lia.. |]. rewrite (edit_back _ _ _ _ _ _ _ _ k), edit_stop by (done || lia).
    unfold bounced. cbn [Nat.even]. rewrite removelast_last. eexists. do 2 f_equal. lia.
  - destruct f as [|[|[|f]]]; [lia.. |]. rewrite (edit_back _ _ _ _ _ _ _ _ k) by (done || lia).
    rewrite Z.add_simpl_r. rewrite (edit_plain _ _ _ _ _ _ _ _ c), edit_stop by (done || lia).
    unfold bounced. cbn [Nat.even]. rewrite Zlength_app. eexists. reflexivity.
  - destruct f as [|[|f]]; [lia.. |]. rewrite (edit_back _ _ _ _ _ _ _ _ k) by (done || lia).
    rewrite Z.add_simpl_r. rewrite (edit_plain _ _ _ _ _ _ _ _ c) by (done || lia).
    apply (IH n); lia.
Qed.

Lemma holds_bounced buf text tl n : holds buf (text ++ tl) → holds buf (bounced text n).
Proof.
  intros [Hl Hp]. assert (holds buf text) as Hb by (split; [done |]; by eapply prefix_app_l).
  unfold bounced. destruct (Nat.even n); [by apply holds_removelast | done].
Qed.

(** A read with a backspace. *)
Lemma lost_keys buf text x k y :
  holds buf text → Forall plain (text ++ x) → text ++ x ≠ [] → edit_key k → erases k = true →
  Zlength text + Zlength x + 1 + Zlength y < BUF_SIZ →
  ∃ buf', holds buf' (bounced (text ++ x) (length y)) ∧
    next_line 2 [Some (x ++ k :: y)] buf (Zlength text) = Ret (LineWaits buf' (Zlength (bounced (text ++ x) (length y)))).
Proof.
  intros Hb Hp Hne Hk Hk' Hlen. pose proof (Zlength_nonneg text). pose proof (Zlength_nonneg x). pose proof (Zlength_nonneg y).
  assert (Zlength (x ++ k :: y) = Zlength x + 1 + Zlength y) as Ek by (rewrite Zlength_app, Zlength_cons; lia).
  destruct (read_line_keys [] buf text (x ++ k :: y) false [] Hb) as (buf1 & Hb1 & E); [lia |].
  cbn [next_line]. rewrite E, Ek. replace (S (Z.to_nat (2 * BUF_SIZ))) with
    (length x + (S (Z.to_nat (2 * BUF_SIZ)) - length x))%nat by (unfold Zlength in *; lia).
  rewrite (edit_plains _ _ text x (k :: y)); [| done | by apply Forall_app in Hp as [_ ?] | lia].
  rewrite <- Zlength_app. rewrite (assoc_L (++)) in Hb1.
  destruct (edit_bounces (length y) (S (Z.to_nat (2 * BUF_SIZ)) - length x) (Zlength text) (text ++ x) k
    (Zlength x + 1 + Zlength y) false false ([] ++ x) buf1) as (echo' & E'); [| | done.. | |].
  { unfold Zlength in *. lia. }
  { destruct Hb1 as [? Hp1]. split; [done |]. etrans; [| exact Hp1]. exists y. by rewrite <- !(assoc_L (++)). }
  { rewrite Zlength_app. unfold Zlength. lia. }
  rewrite E'. cbn [mbind outcome_bind ed_p ed_found ed_buf ed_new ed_echo]. rewrite orb_false_r.
  exists buf1. split; [by eapply holds_bounced |].
  destruct (Z.eqb_spec (Zlength (bounced (text ++ x) (length y))) 0) as [-> |]; done.
Qed.

(** [C34] The line editor.  When every read brings one key (none of them ^C or ^D),
    the shell ends up with the text that was typed, backspaces taken into account,
    if that is not empty.  The same holds when the end of a line comes with one
    read that has no backspace.  When a read has a backspace, after at least one
    key of the line, the keys after it are lost, the end of the line among them,
    and the shell waits for more; the backspace removes the last key of the text
    before it when an even number of keys follows, and has no effect when the
    number is odd. *)
Theorem shell_edits keys rest buf :
  Zlength buf = BUF_SIZ →
  (Forall edit_key keys → Zlength keys < BUF_SIZ - 2 → typed [] keys ≠ [] →
     ∃ buf' echo', holds buf' (typed [] keys ++ [0]) ∧
       next_line (2 + length keys) (((λ k, Some [k]) <$> keys) ++ Some [KEY_NL] :: rest) buf 0 =
         Ret (LineRead buf' 0 true true echo' rest)) ∧
  (∀ text x, holds buf text → Forall plain x → text ++ x ≠ [] → Zlength text + Zlength x < BUF_SIZ - 1 →
     ∃ buf' echo', holds buf' (text ++ x ++ [0]) ∧
       next_line 1 (Some (x ++ [KEY_NL]) :: rest) buf (Zlength text) = Ret (LineRead buf' 0 true true echo' rest)) ∧
  (∀ text x k y, holds buf text → Forall plain (text ++ x) → text ++ x ≠ [] → edit_key k → erases k = true →
     Zlength text + Zlength x + 1 + Zlength y < BUF_SIZ →
     ∃ buf', holds buf' (bounced (text ++ x) (length y)) ∧
       next_line 2 [Some (x ++ k :: y)] buf (Zlength text) =
         Ret (LineWaits buf' (Zlength (bounced (text ++ x) (length y))))).
Proof.
  intros Hl. split_and!; [| | intros text x k y; apply lost_keys].
  - intros Hk Hlen Hne.
    destruct (edits (S (length keys)) keys rest buf [] false []) as (buf' & echo' & Hb & E);
      [split; [done | apply prefix_nil] | done | lia | done | done |].
    exists buf', echo'. by split.
  - intros text x Hb Hx Hne Hlen.
    destruct (newline rest buf text x false [] Hb Hx Hne Hlen) as (buf' & echo' & Hb' & E).
    exists buf', echo'. split; [done |]. cbn [next_line]. by rewrite E.
Qed.

(** "ls", typed with a mistake. *)
Lemma shell_edits_witness :
  ∃ buf' echo', holds buf' [108; 115; 0] ∧
    next_line 6 [Some [108]; Some [120]; Some [KEY_DEL]; Some [115]; Some [KEY_NL]] (replicate (Z.to_nat BUF_SIZ) 0) 0 =
      Ret (LineRead buf' 0 true true echo' []).
Proof.
  apply (shell_edits [108; 120; KEY_DEL; 115] [] (replicate (Z.to_nat BUF_SIZ) 0)).
  - unfold Zlength. rewrite length_replicate, Z2Nat.id; [reflexivity | discriminate].
  - repeat constructor; discriminate.
  - reflexivity.
  - discriminate.
Defined.

(** * Words *)

(** The words of a line; [w] is the word that has begun. *)
Fixpoint words_from (w line : list Z) : list (list Z) :=
  match line with
  | [] => match w with [] => [] | _ => [w] end
  | c :: line' =>
      if c =? KEY_SPACE then match w with [] => words_from [] line' | _ => w :: words_from [] line' end
      else words_from (w ++ [c]) line'
  end.

Definition words (line : list Z) : list (list Z) := words_from [] line.

Definition spaces (l : list Z) : Prop := Forall (λ c, c = KEY_SPACE) l.
Definition is_word (w : list Z) : Prop := Forall (λ c, c ≠ KEY_SPACE ∧ c ≠ 0) w.

Lemma words_spaces sp line : spaces sp → words (sp ++ line) = words line.
Proof. induction 1 as [|c sp -> _ IH]; [done |]. exact IH. Qed.

Lemma words_from_word w0 w line : is_word w → words_from w0 (w ++ line) = words_from (w0 ++ w) line.
Proof.
  intros Hw. revert w0. induction Hw as [|c w [Hc _] _ IH]; intros w0; [by rewrite app_nil_r |].
  cbn [app words_from]. destruct (Z.eqb_spec c KEY_SPACE); [done |]. rewrite IH. by rewrite <- (assoc_L (++)).
Qed.

Lemma words_word w : is_word w → w ≠ [] → words w = [w].
Proof.
  intros Hw Hne. unfold words. rewrite <- (app_nil_r w) at 1. rewrite words_from_word by done. by destruct w.
Qed.

Lemma words_word_space w line : is_word w → w ≠ [] → words (w ++ KEY_SPACE :: line) = w :: words line.
Proof. intros Hw Hne. unfold words. rewrite words_from_word by done. by destruct w. Qed.

(** A line without zeros starts with spaces; then it ends, or a word follows, up to
    the end or a space. *)
Lemma line_cases line :
  0 ∉ line →
  ∃ sp, spaces sp ∧
    (line = sp ∨ ∃ w, w ≠ [] ∧ is_word w ∧
       (line = sp ++ w ∨ ∃ rest, line = sp ++ w ++ KEY_SPACE :: rest ∧ 0 ∉ rest)).
Proof.
  induction line as [|c line IH]; intros Hz.
  { exists []. split; [constructor | by left]. }
  apply not_elem_of_cons in Hz as [Hc Hz]. destruct (IH Hz) as (sp & Hsp & H).
  destruct (decide (c = KEY_SPACE)) as [-> | Hne].
  - exists (KEY_SPACE :: sp). split; [by constructor |].
    destruct H as [-> | (w & Hw & Hw' & [-> | (rest & -> & Hr)])]; [by left | right | right]; exists w; eauto 10.
  - exists []. split; [constructor |]. right. destruct sp as [|c' sp].
    + destruct H as [-> | (w & Hw & Hw' & H)].
      * exists [c]. split_and!; [done | by repeat constructor | by left].
      * exists (c :: w). split_and!; [done | by constructor |]. destruct H as [-> | (rest & -> & Hr)]; [by left |].
        right. by exists rest.
    + apply Forall_cons in Hsp as [-> Hsp]. exists [c]. split_and!; [done | by repeat constructor |]. right.
      assert (∃ rest, line = KEY_SPACE :: rest) as [rest ->].
      { destruct H as [-> | (w & _ & _ & [-> | (rest & -> & _)])]; eexists; reflexivity. }
      exists rest. split; [done |]. by apply not_elem_of_cons in Hz as [_ Hz].
Qed.

(** ** The loops *)

Lemma rd_app (pre l : list Z) c : rd (pre ++ c :: l) (Zlength pre) = Ret c.
Proof.
  apply rd_Ret. split; [apply Zlength_nonneg |]. unfold Zlength.
  by rewrite Nat2Z.id, lookup_app_r, Nat.sub_diag by lia.
Qed.

Lemma skip_spaces_eq fuel pre sp c l :
  spaces sp → c ≠ KEY_SPACE → (length sp < fuel)%nat →
  skip_spaces fuel (pre ++ sp ++ c :: l) (Zlength pre) = Ret (Zlength (pre ++ sp)).
Proof.
  intros Hsp Hc. revert fuel pre. induction Hsp as [|x sp -> _ IH]; intros fuel pre Hf; (destruct fuel as [|fuel]; [cbn in Hf; lia |]).
  - cbn [skip_spaces app]. rewrite rd_app. cbn [mbind outcome_bind].
    destruct (Z.eqb_spec c KEY_SPACE); [done |]. by rewrite app_nil_r.
  - cbn [skip_spaces app]. rewrite rd_app. cbn [mbind outcome_bind]. rewrite Z.eqb_refl.
    specialize (IH fuel (pre ++ [KEY_SPACE]) ltac:(cbn in Hf; lia)).
    rewrite <- !(assoc_L (++)), Zlength_app in IH. exact IH.
Qed.

Lemma skip_word_eq fuel pre w c l :
  is_word w → c = KEY_SPACE ∨ c = 0 → (length w < fuel)%nat →
  skip_word fuel (pre ++ w ++ c :: l) (Zlength pre) = Ret (Zlength (pre ++ w)).
Proof.
  intros Hw Hc. revert fuel pre. induction Hw as [|x w [Hx1 Hx2] _ IH]; intros fuel pre Hf; (destruct fuel as [|fuel]; [cbn in Hf; lia |]).
  - cbn [skip_word app]. rewrite rd_app. cbn [mbind outcome_bind]. rewrite app_nil_r.
    by destruct Hc as [-> | ->].
  - cbn [skip_word app]. rewrite rd_app. cbn [mbind outcome_bind].
    destruct (Z.eqb_spec x KEY_SPACE); [done |]. destruct (Z.eqb_spec x 0); [done |]. cbn [orb].
    specialize (IH fuel (pre ++ [x]) ltac:(cbn in Hf; lia)).
    rewrite <- !(assoc_L (++)), Zlength_app in IH. exact IH.
Qed.

Lemma c_string_eq fuel pre w l :
  0 ∉ w → (length w < fuel)%nat → c_string fuel (pre ++ w ++ 0 :: l) (Zlength pre) = Ret w.
Proof.
  revert fuel pre. induction w as [|x w IH]; intros fuel pre Hz Hf; (destruct fuel as [|fuel]; [cbn in Hf; lia |]).
  - cbn [c_string app]. by rewrite rd_app.
  - apply not_elem_of_cons in Hz as [Hx Hz]. cbn [c_string app]. rewrite rd_app. cbn [mbind outcome_bind].
    destruct (Z.eqb_spec x 0); [congruence |].
    specialize (IH fuel (pre ++ [x]) Hz ltac:(cbn in Hf; lia)).
    rewrite <- !(assoc_L (++)), Zlength_app in IH. cbn [app] in IH. change (Zlength [x]) with 1 in IH. by rewrite IH.
Qed.

(** The string at [a] is the word [w]. *)
Definition points (buf : list Z) (a : Z) (w : list Z) : Prop :=
  ∃ pre l, buf = pre ++ w ++ 0 :: l ∧ Zlength pre = a ∧ 0 ∉ w.

Lemma is_word_no_zero w : is_word w → 0 ∉ w.
Proof. intros Hw Hin. unfold is_word in Hw. rewrite Forall_forall in Hw. by destruct (Hw 0 Hin). Qed.

(** One word of the loop that cuts the line. *)
Lemma cut_word f pre sp w x l argv argc :
  spaces sp → is_word w → w ≠ [] → x = KEY_SPACE ∨ x = 0 →
  cut_line (S f) (pre ++ sp ++ w ++ x :: l) (Zlength pre) argv argc =
    (argv ← wr argv argc (Zlength (pre ++ sp));
     if x =? 0 then Ret (pre ++ sp ++ w ++ x :: l, argv, argc + 1)
     else cut_line f (pre ++ sp ++ w ++ 0 :: l) (Zlength (pre ++ sp ++ w ++ [0])) argv (argc + 1)).
Proof.
  intros Hsp Hw Hne Hx. destruct w as [|c w']; [done |]. set (w := c :: w') in *.
  assert (c ≠ KEY_SPACE ∧ c ≠ 0) as [Hc1 Hc2] by (by apply Forall_cons in Hw as [? _]).
  set (buf := pre ++ sp ++ w ++ x :: l). cbn [cut_line].
  assert (∃ c0, rd buf (Zlength pre) = Ret c0 ∧ c0 ≠ 0) as (c0 & E0 & Hc0).
  { unfold buf. destruct sp as [|s0 sp]; [exists c; unfold w; cbn [app]; by rewrite rd_app |]. exists s0. cbn [app]. rewrite rd_app.
    by apply Forall_cons in Hsp as [-> _]. }
  rewrite E0. cbn [mbind outcome_bind]. destruct (Z.eqb_spec c0 0); [done |].
  assert (length sp < length buf ∧ length w < length buf)%nat as [Hl1 Hl2].
  { unfold buf. rewrite !length_app. cbn. lia. }
  assert (buf = (pre ++ sp) ++ w ++ x :: l) as Eb1 by (unfold buf; by rewrite <- (assoc_L (++))).
  assert (buf = ((pre ++ sp) ++ w) ++ x :: l) as Eb2 by (by rewrite Eb1, <- !(assoc_L (++))).
  assert (skip_spaces (length buf) buf (Zlength pre) = Ret (Zlength (pre ++ sp))) as -> by (by apply skip_spaces_eq).
  cbn [mbind outcome_bind].
  assert (rd buf (Zlength (pre ++ sp)) = Ret c) as -> by (rewrite Eb1; apply rd_app). cbn [mbind outcome_bind].
  destruct (Z.eqb_spec c 0); [done |]. destruct (wr argv argc (Zlength (pre ++ sp))) as [argv1 |]; [| done].
  cbn [mbind outcome_bind].
  assert (skip_word (length buf) buf (Zlength (pre ++ sp)) = Ret (Zlength ((pre ++ sp) ++ w))) as ->
    by (rewrite Eb1 at 2; by apply skip_word_eq).
  cbn [mbind outcome_bind].
  assert (rd buf (Zlength ((pre ++ sp) ++ w)) = Ret x) as -> by (rewrite Eb2; apply rd_app). cbn [mbind outcome_bind].
  destruct (x =? 0); [done |]. rewrite Eb2.
  rewrite wr_in by (rewrite (Zlength_app ((pre ++ sp) ++ w) (x :: l)), (Zlength_cons x l); pose proof (Zlength_nonneg l); pose proof (Zlength_nonneg ((pre ++ sp) ++ w)); lia).
  cbn [mbind outcome_bind]. replace (Z.to_nat (Zlength ((pre ++ sp) ++ w))) with (length ((pre ++ sp) ++ w)) by (unfold Zlength; lia).
  rewrite insert_app_r_alt, Nat.sub_diag by lia. cbn [insert list_insert].
  replace (pre ++ sp ++ w ++ [0]) with (((pre ++ sp) ++ w) ++ [0]) by (by rewrite <- !(assoc_L (++))).
  rewrite (Zlength_app _ [0]). by rewrite <- !(assoc_L (++)).
Qed.

Lemma cut_spaces f pre sp tail argv argc :
  spaces sp →
  cut_line (S f) (pre ++ sp ++ 0 :: tail) (Zlength pre) argv argc = Ret (pre ++ sp ++ 0 :: tail, argv, argc).
Proof.
  intros Hsp. destruct sp as [|s0 sp]; cbn [cut_line app]; rewrite rd_app; cbn [mbind outcome_bind]; [done |].
  apply Forall_cons in Hsp as Hsp'. destruct Hsp' as [-> _]. change (KEY_SPACE =? 0) with false. cbv iota.
  change (pre ++ KEY_SPACE :: sp ++ 0 :: tail) with (pre ++ (KEY_SPACE :: sp) ++ 0 :: tail).
  rewrite skip_spaces_eq by (done || (rewrite !length_app; cbn; lia)). cbn [mbind outcome_bind].
  rewrite (assoc_L (++) pre). by rewrite rd_app.
Qed.

(** The result of the loop: the places of the words, or a write past [argv]. *)
Lemma cut_line_words f pre line tail argv argc :
  0 ∉ line → (length line < f)%nat → Zlength argv = MAX_ARGS → 0 ≤ argc ≤ MAX_ARGS →
  if decide (argc + Zlength (words line) ≤ MAX_ARGS) then
    ∃ line' argv', cut_line f (pre ++ line ++ 0 :: tail) (Zlength pre) argv argc =
        Ret (pre ++ line' ++ 0 :: tail, argv', argc + Zlength (words line)) ∧
      Zlength argv' = MAX_ARGS ∧ (∀ i, (i < Z.to_nat argc)%nat → argv' !! i = argv !! i) ∧
      ∀ i w, words line !! i = Some w →
        ∃ a, argv' !! (Z.to_nat argc + i)%nat = Some a ∧ points (pre ++ line' ++ 0 :: tail) a w
  else cut_line f (pre ++ line ++ 0 :: tail) (Zlength pre) argv argc = Fault OutOfBounds.
Proof.
  revert pre line argv argc. induction f as [|f IH]; intros pre line argv argc Hz Hf Hl Ha; [lia |].
  destruct (line_cases line Hz) as (sp & Hsp & [-> | (w & Hne & Hw & [-> | (rest & -> & Hr)])]).
  - rewrite <- (app_nil_r sp), words_spaces by done. change (Zlength (words [])) with 0. rewrite app_nil_r.
    rewrite decide_True by lia. exists sp, argv. rewrite cut_spaces by done. rewrite Z.add_0_r.
    split_and!; [done | done | done |]. intros i w Hi. by destruct i.
  - rewrite words_spaces, words_word by done. change (Zlength [w]) with 1. rewrite <- (assoc_L (++)).
    rewrite cut_word by auto. case_decide as Hd.
    + rewrite wr_in by lia. cbn [mbind outcome_bind]. change (0 =? 0) with true. cbv iota.
      eexists (sp ++ w), _. rewrite <- (assoc_L (++) sp). split_and!; [reflexivity | by rewrite Zlength_insert | |].
      * intros i Hi. apply list_lookup_insert_ne. lia.
      * intros [|i] w' Hi; [| by destruct i]. injection Hi as <-. exists (Zlength (pre ++ sp)). rewrite Nat.add_0_r.
        split; [apply list_lookup_insert_eq; unfold Zlength in Hl; lia |].
        exists (pre ++ sp), tail. split_and!; [by rewrite <- !(assoc_L (++)) | done | by apply is_word_no_zero].
    + unfold wr. by rewrite decide_False by lia.
  - rewrite words_spaces, words_word_space by done. rewrite Zlength_cons.
    rewrite <- !(assoc_L (++)). cbn [app]. rewrite cut_word by auto. change (KEY_SPACE =? 0) with false. cbv iota.
    pose proof (Zlength_nonneg (words rest)).
    destruct (decide (argc < MAX_ARGS)) as [Hlt | Hge].
    2: { rewrite decide_False by lia. unfold wr. by rewrite decide_False by lia. }
    rewrite wr_in by lia. cbn [mbind outcome_bind].
    set (argv1 := <[Z.to_nat argc := Zlength (pre ++ sp)]> argv).
    rewrite !length_app in Hf. cbn [length] in Hf.
    specialize (IH (pre ++ sp ++ w ++ [0]) rest argv1 (argc + 1) Hr ltac:(lia) ltac:(unfold argv1; by rewrite Zlength_insert) ltac:(lia)).
    replace ((pre ++ sp ++ w ++ [0]) ++ rest ++ 0 :: tail) with (pre ++ sp ++ w ++ 0 :: rest ++ 0 :: tail) in IH
      by (by rewrite <- !(assoc_L (++))).
    replace (argc + 1 + Zlength (words rest)) with (argc + (1 + Zlength (words rest))) in IH by lia.
    case_decide as Hd; [| exact IH]. destruct IH as (rest' & argv' & E & Hl' & Hkeep & Hws).
    assert ((pre ++ sp ++ w ++ [0]) ++ rest' ++ 0 :: tail = pre ++ (sp ++ w ++ 0 :: rest') ++ 0 :: tail) as Ebuf
      by (by rewrite <- !(assoc_L (++))).
    rewrite Ebuf in E, Hws. exists (sp ++ w ++ 0 :: rest'), argv'. split_and!; [exact E | done | |].
    + intros i Hi. rewrite Hkeep by lia. unfold argv1. apply list_lookup_insert_ne. lia.
    + intros [|i] w' Hi.
      * injection Hi as <-. exists (Zlength (pre ++ sp)). rewrite Nat.add_0_r, Hkeep by lia. unfold argv1.
        split; [apply list_lookup_insert_eq; unfold Zlength in Hl; lia |].
        exists (pre ++ sp), (rest' ++ 0 :: tail). split_and!; [by rewrite <- !(assoc_L (++)) | done | by apply is_word_no_zero].
      * destruct (Hws i w' Hi) as (a & Ha' & Hp). exists a. split; [| done].
        rewrite <- Ha'. f_equal. lia.
Qed.

Lemma arg_strings_eq buf args ws : Forall2 (points buf) args ws → arg_strings buf args = Ret ws.
Proof.
  induction 1 as [|a w args ws (pre & l & -> & <- & Hz) _ IH]; [done |]. cbn [arg_strings].
  rewrite c_string_eq; [| done | rewrite !length_app; cbn; lia]. cbn [mbind outcome_bind]. by rewrite IH.
Qed.

(** What the shell should do with these words. *)
Definition meaning (ws : list (list Z)) : action :=
  match ws with
  | [] => Nothing
  | name :: _ => match find_command name commands with Some c => Command c ws | None => Program name end
  end.

(** [C33] Running a line.  The shell does what the words of the line mean, where the words are what
    lies between the spaces; a line of more than 32 words makes it write past the end of
    [argv]. *)
Theorem shell_words line tail argv :
  0 ∉ line → Zlength argv = MAX_ARGS →
  run_line (line ++ 0 :: tail) argv =
    if decide (Zlength (words line) ≤ MAX_ARGS) then Ret (meaning (words line)) else Fault OutOfBounds.
Proof.
  intros Hz Hl. unfold run_line. set (buf := line ++ 0 :: tail).
  assert (length line < S (length buf))%nat as Hf by (unfold buf; rewrite length_app; cbn; lia).
  pose proof (cut_line_words (S (length buf)) [] line tail argv 0 Hz Hf Hl ltac:(unfold MAX_ARGS; lia)) as H.
  change (Zlength []) with 0 in H. cbn [app] in H. fold buf in H. rewrite Z.add_0_l in H.
  case_decide as Hd; [| by rewrite H]. destruct H as (line' & argv' & E & Hl' & _ & Hws).
  rewrite E. cbn [mbind outcome_bind]. rewrite (arg_strings_eq _ _ (words line)); [by destruct (words line) |].
  replace (Z.to_nat (Zlength (words line))) with (length (words line)) by (unfold Zlength; lia).
  apply Forall2_same_length_lookup_2.
  - rewrite length_take. unfold Zlength in *. lia.
  - intros i a w Ha Hw. apply lookup_take_Some in Ha as [Ha _]. destruct (Hws i w Hw) as (a' & Ha' & Hp).
    change (Z.to_nat 0 + i)%nat with i in Ha'. rewrite Ha in Ha'. by injection Ha' as <-.
Qed.

(** "kill 7", and 33 words. *)
Lemma shell_words_witness :
  run_line ([107; 105; 108; 108; 32; 55] ++ [0]) (replicate 32 0) = Ret (Command CmdKill [[107; 105; 108; 108]; [55]]) ∧
  run_line (concat (replicate 33 [97; 32]) ++ [0]) (replicate 32 0) = Fault OutOfBounds.
Proof.
  split.
  - apply (shell_words [107; 105; 108; 108; 32; 55] [] (replicate 32 0)); [| reflexivity].
    apply (bool_decide_unpack _). vm_compute. exact I.
  - apply (shell_words (concat (replicate 33 [97; 32])) [] (replicate 32 0)); [| reflexivity].
    apply (bool_decide_unpack _). vm_compute. exact I.
Defined.
